(* ===== verification/_CoqProject ===== *)
-Q . S2P
Prelude.v
GoBytes.v
GoText.v
GoFloat.v
GoTime.v
GoCodec.v
GoTrace.v
Contracts.v
Sql.v
GoUrl.v
Platform.v
Migrate.v
Money.v
BillingClient.v
BillingStore.v
BillingLedger.v
BillingPostgres.v
BillingLeases.v
BillingDurable.v
BillingActivator.v
BillingProcessor.v
BillingReport.v
BillingPoller.v
BillingGateways.v
BillingOutbox.v
BillingRefine.v
BillingCredit.v
BillingRecover.v
BillingHttp.v
BillingApi.v
BillingIntent.v
ControlStore.v
ControlUse.v
ControlFleet.v
ControlLaws.v
ControlAccess.v
ControlLifecycle.v
ControlTokens.v
ControlRebuild.v
ControlLinks.v
ControlDurable.v
OrchestratorPolicy.v
TelemetryAggregate.v
TelemetryIngest.v
TelemetryLaws.v
TelemetryBlocks.v
OrchestratorLoop.v
OrchestratorSafety.v
OrchestratorDrain.v
SubscriptionOutput.v
OrchestratorAdapters.v
ControlHttp.v
ControlApi.v
ControlPostgres.v
ControlQueue.v
ControlPersist.v
SubscriptionProvider.v
SubscriptionResolve.v
SubscriptionCache.v
SubscriptionHttp.v
SubscriptionPublic.v
SubscriptionDocuments.v
SubscriptionServe.v
SubscriptionEnd.v
DeliveryWire.v
DeliveryPointer.v
DeliveryCarriers.v
DeliveryChannels.v
DeliveryResolve.v
DeliveryBroadcast.v
DeliveryOnboarding.v
DeliveryAccounts.v
DeliveryMessages.v
DeliveryBot.v
DeliveryMessenger.v
DeliveryBotstore.v
DeliveryApi.v
Config.v
Startup.v
ServicePostgres.v
