(* ===== verification/Prelude.v ===== *)
(** * CasperVPN: a verification development

    CasperVPN sells access to a fleet of proxy nodes. Its Go services (under src/services) share the entity types of
    src/packages/contracts and the helpers of src/packages/platform, keep their state in Postgres, and talk over HTTP:
    - billing takes payments (payment gateways call its webhooks or are polled), keeps a ledger of what each
      subscription has paid for, and pushes that entitlement to the control-plane through an outbox;
    - control-plane owns users, subscriptions, nodes and the set of nodes each user is given, answers which users a
      node must admit, reacts to the fleet's health, and tells the subscription service which links are dead;
    - orchestrator creates, drains and retires nodes by what control-plane, telemetry and its own probes say;
    - telemetry turns anonymous signals and authenticated probe events into aggregates and recommendations;
    - subscription renders a customer's nodes into the documents VPN clients read;
    - delivery publishes signed, sealed artifacts over channels that are hard to block, and runs the messenger bot.
    A definition carries the name of the Go function it translates, in a file named after its component.

    ** How the code is modelled

    A Go method on a component is a computation [M S A := S → result A * S] of this file: it returns a value or an
    [error] and the state it leaves, which an error does not roll back. The notations [x ←! m ; k], [m ;;! k], [try]
    and [wrapping] are the code's "if err != nil" idioms. An [error] keeps what [errors.Is] and [errors.As] can see.
    Pointers to entities are options, Go maps are [gmap]s whose iteration order is the class [MapOrder]: theorems hold
    for every order, as they do for every ordered permutation [sort.Slice] may return ([SortSlice]). Integers are [Z]
    with [wrap64] where the code can overflow; durations and times are nanoseconds in [Z] ([zero_time] is the zero
    [time.Time]), taken to stay within the range of [time.Time]. A method that holds its mutex (or runs one
    transaction) is one atomic step; interleavings of goroutines and processes are runs of a step relation. Readings
    of the clock, of the random source and of [ctx.Err] are inputs. Code outside the repository (BTCPay, chains, the
    messengers, JSON decoding into Go structs, AES-GCM, Ed25519, net/netip, the chi router) is a parameter: an
    argument of a Section, a record of operations or a class with the laws its documentation promises. Every property
    with hypotheses comes with a concrete instance of them.

    Postgres (Sql) is a value of tables and statements as steps on it; a [Session] adds a link that loses calls
    before or after they take effect and a server that aborts transactions. [all_or_nothing] is the contract every
    method of a Postgres store is shown to have, and [steady] what it does on a reliable link.

    ** Files

    The Go standard library, as far as it is used: GoBytes (hex, big-endian, SHA-256, HMAC), GoText (strconv, strings,
    JSON strings, printing of times), GoFloat (float64, sort.Slice), GoTime (parsing of times and durations), GoCodec
    (base64, base32, the interfaces of the cryptography), GoUrl (net/url, encoding/json trees), GoTrace (calls on an
    environment, recorded).
    Shared: Contracts (packages/contracts: enums, entities, Validate, allow-list digests, signals and
    recommendations), Platform (packages/platform: httpjson, httpguard, httpx), Sql, Migrate (the two migration
    runners), Config (platform/envcfg and the config packages of five services), Startup (what billing and delivery
    decide before they serve).

    Billing, definitions: Money (internal/money), BillingStore (internal/model, internal/plan, store/memory.go),
    BillingClient (internal/controlplane: the client interface as the class [BillingClient], its contract as
    [BillingLaws], the Fake, the HTTP adapter, the [Lossy] network), BillingActivator (the world of one process and
    subscription/activator.go), BillingProcessor (payment/processor.go, recovery.go), BillingPoller (expiry/sweeper.go,
    payment/gateway.go, registry.go, poller.go), BillingGateways (mock, btcpay, onchain), BillingHttp (httpapi with its
    rate limiter), BillingPostgres (store/postgres.go, schema.sql). Theorems: BillingLedger, BillingLeases,
    BillingReport, BillingOutbox, BillingRefine, BillingCredit, BillingRecover, BillingApi, BillingIntent,
    BillingDurable.

    Control-plane, definitions: ControlStore (internal/domain, secret, adapters/memory), ControlUse (usecase:
    subscriptions.go, users.go, the token cipher), ControlFleet (usecase: nodes.go, signals.go, bundle.go,
    allowlist.go; adapters/rebuild/queue.go), ControlDurable (adapters/rebuild/durable.go), ControlHttp (internal/authz,
    adapters/httpapi, adapters/memory/operator.go), ControlPostgres (adapters/postgres and its migrations). Theorems:
    ControlLaws, ControlAccess, ControlLifecycle, ControlTokens, ControlRebuild, ControlLinks, ControlApi,
    ControlPersist, ControlQueue. ControlApi also has the demonstration data (internal/seed).

    Orchestrator: OrchestratorPolicy (internal/policy), OrchestratorLoop (internal/reconcile, ports),
    OrchestratorAdapters (provision, probe, cpclient, telemetryclient). Theorems: OrchestratorSafety,
    OrchestratorDrain.
    Telemetry: TelemetryAggregate (store/memory.go, aggregate), TelemetryIngest (ingest, metrics, query, api). Theorems:
    TelemetryLaws, TelemetryBlocks.
    Subscription: SubscriptionProvider (internal/controlplane), SubscriptionResolve (resolve, personalize),
    SubscriptionCache (cache), SubscriptionOutput (contracts/subscription_output.go, internal/render),
    SubscriptionHttp (httpapi). Theorems: SubscriptionPublic, SubscriptionDocuments, SubscriptionServe,
    SubscriptionEnd.
    ServicePostgres: telemetry's Postgres store, the subscription service's token index, and the control-plane's
    notifier (adapters/subnotify) in front of it.
    Delivery: DeliveryWire (artifact), DeliveryPointer (sign, seal, pointer), DeliveryCarriers (channel/dns/encode.go,
    steg, gitraw), DeliveryChannels (channel, memkv), DeliveryOnboarding (onboarding), DeliveryMessages and DeliveryBot
    (channel/telegram), DeliveryBotstore (botstore), DeliveryApi (httpapi, the network clients of the channels).
    Theorems: DeliveryResolve, DeliveryBroadcast, DeliveryAccounts, DeliveryMessenger.

    ** What is proved

    Money becomes access. For any interleaving of store calls an invoice is credited at most once, a staged target is
    frozen, the schedule is the newest delivery, and leases of settlements, deliveries and polls are exclusive while
    they last (BillingLedger, BillingLeases; [repo_step] is the step relation). [sys_step] of BillingOutbox is one
    atomic action of any billing process against any control-plane that obeys [BillingLaws]: the control-plane is
    never ahead of the ledger, and with the outbox drained the two agree; CreditInvoice, Process, Reconcile and the
    sweeper are runs of such steps (BillingRefine, a program logic of step-counting triples), and one Reconcile cycle
    with the control-plane up delivers everything it leases (BillingRecover). The laws are discharged for the Fake, for
    the control-plane's own SubscriptionService (ControlLaws) and for any lawful client behind a network that loses
    requests and responses; the HTTP adapter in front of the control-plane's router is such a client
    (ControlApi.billing_over_http). So a drained outbox means that the allow-list admits a user exactly while billing's
    schedule serves, short of a cancellation at the control-plane itself (ControlAccess); and whoever the subscription
    service, asking the control-plane's router through its HTTP client and token index, serves is at that moment on
    that list (SubscriptionEnd).

    Payments (BillingCredit, BillingApi, BillingIntent, Money). A settling event extends the later of now and the
    current expiry by exactly the plan's duration, end to end; payments accumulate; forged webhooks change nothing;
    one Idempotency-Key asks the provider at most once; gateways fail over; amounts are compared exactly as decimals.

    Durability (BillingDurable, ControlPersist, ControlQueue, DeliveryBotstore, Migrate, ServicePostgres). Each Postgres
    store refines its in-memory twin over a lossy link, for callers that keep the contract its file spells out (times
    of whole microseconds, numbers that fit their columns, fresh keys): a call that reports the loss has done all of its work or none
    of it, and any other answers as the twin does and leaves tables that represent the twin's state. Jobs and bot
    updates are claimed by one worker per lease and worked off; migrations run in order, once each, however many
    releases start at once; a notice reported as delivered is in force in the token index.

    Authorization (ControlApi, ControlTokens, ControlLinks, TelemetryLaws, Config, Startup). What each service token
    may change and see; rotated secrets kill the old links; an account holds at most one subscription; what telemetry
    recommends depends on authenticated requests alone; roles are exactly those configured, and in production a
    service without its secrets does not start.

    Fleet (ControlLifecycle, ControlRebuild, OrchestratorSafety, OrchestratorDrain, OrchestratorAdapters,
    TelemetryBlocks). A node becomes active only through the guarded activation (the recovery of a degraded node that
    the documents promise is allowed for, but field signals only worsen a status); a dry run only reads; what a cycle
    provisions, rotates and tears down is justified by what that cycle observed; a node starts draining right after
    its replacement pair was seen active, with its peer, coexists with the pair for the configured grace, and is acted
    on only by schedule or for an authenticated probe event.

    Customers (SubscriptionServe, SubscriptionPublic, SubscriptionDocuments, DeliveryAccounts, DeliveryMessenger). A
    profile is served only to a token resolved in that very request, shows nothing of other customers, and the cache
    changes no answer; the three documents list the same transports; the bot acts on nobody but the sender and hands
    out a link only to its entitled owner.

    Delivery (DeliveryWire, DeliveryPointer, DeliveryCarriers, DeliveryResolve, DeliveryBroadcast, DeliveryApi). Parsers
    and printers are each other's inverses ([Codec]); what a resolver returns was published under a trusted key and is
    fresh however hostile the channels; one channel that keeps the blob is enough to reach a client in time.

    ** Bounds and fuel

    Theorems over runs of the ledger bound the number of steps by [max_int64]: a revision is an int64 that a step
    raises by at most one, and [wrap64] takes over beyond. Limiter theorems keep the float64 buckets below the sizes
    where whole tokens are exact. Loops of the code that are bounded by a counter (pages of the registry, attempts of
    a request, hops of a proxy chain) are recursions on that counter and are shown to end with an answer. The only
    other fuel is that of SHA-256's block loop, JSON escaping, rune splitting, [TrimSpace] and the parsers of numbers,
    times and wire forms: it is the length of the input, of which each round consumes at least one element, so it
    never runs out. Random bytes are taken from a list, and an exhausted list is the failure of [crypto/rand] the code
    handles.

    ** Not modelled

    What the processes do around the modelled parts: main functions but for the decisions Startup and Config take
    (listening, signals, tickers, pools), the process groups of the orchestrator's scripts, the random hexadecimal ids of
    billing/internal/idgen, and the volunteer bridges of delivery, a stub. A log line is modelled only where it is a
    result (billing's recovery report). Times beyond the year 9999, which JSON cannot carry, and texts that are not
    UTF-8, which Postgres refuses, are excluded where a theorem says so. Terraform, Ansible, scripts and the web site
    are not Go code. *)

From Stdlib Require Export ZArith Lia.
From stdpp Require Export base gmap strings sorting pretty fin_maps option relations.
From stdpp Require Export list.

Declare Scope go_scope.
Delimit Scope go_scope with go.
#[global] Open Scope string_scope.
#[global] Open Scope list_scope.
#[global] Open Scope Z_scope.

(** ** Go errors

    A sentinel is a package-level [errors.New] value (compared by identity), [Errorf] a fresh
    [fmt.Errorf] without [%w], [Wrap] one with [%w], and [Typed] a value of an error struct type with an
    [Unwrap] method: its type, its two string fields and its cause. *)
Inductive error : Set :=
| Sentinel (name : string)
| Errorf (msg : string)
| Wrap (msg : string) (cause : error)
| Typed (ty : string) (a b : string) (cause : error).

#[export] Instance error_eq_dec : EqDecision error.
Proof. solve_decision. Defined.

(** [errors.Is(err, target)] for a sentinel target: walk the [%w] chain. *)
Fixpoint errors_is (e : error) (target : error) : bool :=
  bool_decide (e = target) ||
  match e with Wrap _ c | Typed _ _ _ c => errors_is c target | _ => false end.

(** [errors.As(err, &v)] for an error struct type: the first value of the type in the chain. *)
Fixpoint errors_as (e : error) (ty : string) : option (string * string * error) :=
  match e with
  | Typed ty' a b c => if bool_decide (ty' = ty) then Some (a, b, c) else errors_as c ty
  | Wrap _ c => errors_as c ty
  | _ => None
  end.

(** [if err != nil { return fmt.Errorf("msg: %w", err) }] *)
Definition wrap_err (msg : string) (e : error) : error := Wrap msg e.

(** ** The result of a Go function returning [(T, error)], and the state monad of a component *)
Inductive result (A : Type) : Type :=
| Ok (a : A)
| Err (e : error).
Arguments Ok {A} a.
Arguments Err {A} e.

Definition is_ok {A} (r : result A) : bool := match r with Ok _ => true | Err _ => false end.

(** A Go method on a component whose state is [S]: it returns a value or an error, and the state it
    leaves behind; an error does not roll the state back. *)
Definition M (S A : Type) : Type := S → result A * S.

#[export] Instance M_ret S : MRet (M S) := λ A a s, (Ok a, s).
#[export] Instance M_bind S : MBind (M S) := λ A B f m s,
  match m s with
  | (Ok a, s') => f a s'
  | (Err e, s') => (Err e, s')
  end.

Definition fail {S A} (e : error) : M S A := λ s, (Err e, s).
(** Run a call and look at its error instead of returning it. *)
Definition try {S A} (m : M S A) : M S (result A) := λ s,
  let '(r, s') := m s in (Ok r, s').
(** [_ = call()] *)
Definition ignore {S A} (m : M S A) : M S unit := λ s, (Ok tt, (m s).2).
(** [if err != nil { return wrap(err) }] *)
Definition wrapping {S A} (msg : string) (m : M S A) : M S A := λ s,
  match m s with
  | (Ok a, s') => (Ok a, s')
  | (Err e, s') => (Err (wrap_err msg e), s')
  end.
Definition gets {S A} (f : S → A) : M S A := λ s, (Ok (f s), s).
Definition modify {S} (f : S → S) : M S unit := λ s, (Ok tt, f s).

(** What an index out of range panics with *)
Definition panic_index : error := Sentinel "panic: index out of range".
(** [m] run on a part of a larger state. *)
Definition zoom {S T A} (get : T → S) (set : S → T → T) (m : M S A) : M T A := λ t,
  let '(r, s') := m (get t) in (r, set s' t).

Notation "x ←! m ; k" := (mbind (M := M _) (λ x, k) m)
  (at level 20, m at level 100, k at level 200, right associativity,
   format "x  ←!  m ;  '/' k") : stdpp_scope.
Notation "m ;;! k" := (mbind (M := M _) (λ _, k) m)
  (at level 100, k at level 200, right associativity, format "m  ;;!  '/' k") : stdpp_scope.
(** A sequence that succeeds, by its two halves *)
Lemma bind_runs {S A B} (m : M S A) (f : A → M S B) s b s' :
  (m ≫= f) s = (Ok b, s') ↔ ∃ a s1, m s = (Ok a, s1) ∧ f a s1 = (Ok b, s').
Proof. unfold mbind, M_bind. destruct (m s) as [[a|e] s1]; naive_solver. Qed.

(** ** Time

    A [time.Time] is its instant, in nanoseconds since the zero time; [IsZero] tests that zero.
    A [time.Duration] is an int64 of nanoseconds: [Time.Sub] saturates at its bounds, [Time.Add] is
    exact (Go's own range is more than 290 years on either side of any instant in use). *)
Abbreviation Time := Z (only parsing).
Abbreviation Duration := Z (only parsing).
Definition min_int64 : Z := - 2 ^ 63.
Definition max_int64 : Z := 2 ^ 63 - 1.
Definition Microsecond : Duration := 1000.
Definition Millisecond : Duration := 1000 * Microsecond.
Definition Second : Duration := 1000 * Millisecond.
Definition Minute : Duration := 60 * Second.
Definition Hour : Duration := 60 * Minute.

Definition zero_time : Time := 0.
Definition IsZero (t : Time) : bool := t =? 0.
Definition After (t u : Time) : bool := u <? t.
Definition Before (t u : Time) : bool := t <? u.
Definition TEqual (t u : Time) : bool := t =? u.
Definition Add (t : Time) (d : Duration) : Time := t + d.
Definition Sub (t u : Time) : Duration := Z.max min_int64 (Z.min max_int64 (t - u)).
(** [Time.Truncate(d)]: round down to a multiple of [d] since the zero time. *)
Definition Truncate (t : Time) (d : Duration) : Time := if d <=? 0 then t else t - t mod d.

(** int64 addition wraps. *)
Definition wrap64 (x : Z) : Z := (x + 2 ^ 63) mod 2 ^ 64 - 2 ^ 63.

(** ** Ranging over a Go map

    The iteration order of a Go map is unspecified, so it is a parameter: [range m] is some
    ordering of the entries of [m]. Every theorem holds for all orders. *)
Class MapOrder := {
  range : ∀ {V : Type}, gmap string V → list (string * V);
  range_perm : ∀ {V : Type} (m : gmap string V), range m ≡ₚ map_to_list m
}.

(** One order, to evaluate the definitions on concrete inputs. *)
Definition key_order : MapOrder := {|
  range := λ V m, map_to_list m;
  range_perm := λ V m, reflexivity _
|}.

Section range.
Context `{ord : !MapOrder}.

Lemma elem_of_range {V} (m : gmap string V) k v : (k, v) ∈ range m ↔ m !! k = Some v.
Proof. rewrite range_perm. apply elem_of_map_to_list. Qed.

Lemma NoDup_fst_range {V} (m : gmap string V) : NoDup (range m).*1.
Proof. rewrite range_perm. apply NoDup_fst_map_to_list. Qed.

Lemma NoDup_range {V} (m : gmap string V) : NoDup (range m).
Proof. rewrite range_perm. apply NoDup_map_to_list. Qed.

Lemma length_range {V} (m : gmap string V) : length (range m) = size m.
Proof. rewrite range_perm. apply length_map_to_list. Qed.

Lemma existsb_range {V} (p : string * V → bool) (m : gmap string V) : existsb p (range m) = true ↔ ∃ k v, m !! k = Some v ∧ p (k, v) = true.
Proof.
  rewrite existsb_exists. split.
  - intros ([k v] & Hin & Hp). exists k, v. split; [|done]. by apply elem_of_range, list_elem_of_In.
  - intros (k & v & Hk & Hp). exists (k, v). split; [|done]. by apply list_elem_of_In, elem_of_range.
Qed.
Lemma existsb_range_false {V} (p : string * V → bool) (m : gmap string V) : existsb p (range m) = false ↔ ∀ k v, m !! k = Some v → p (k, v) = false.
Proof.
  rewrite <-not_true_iff_false, existsb_range. split.
  - intros H k v Hk. apply not_true_iff_false. intros Hp. apply H. by exists k, v.
  - intros H (k & v & Hk & Hp). by rewrite (H k v Hk) in Hp.
Qed.
(** [for k, v := range m { if v', ok := f(k, v); ok { m[k] = v' } }] *)
Definition range_update {V} (f : string → V → option V) (m : gmap string V) : gmap string V :=
  foldl (λ acc kv, match f kv.1 kv.2 with Some v' => <[kv.1 := v']> acc | None => acc end)
        m (range m).

Lemma foldl_update_lookup {V} (f : string → V → option V) l : ∀ (m : gmap string V) k,
  NoDup l.*1 → (∀ k v, (k, v) ∈ l → m !! k = Some v) →
  foldl (λ acc kv, match f kv.1 kv.2 with Some v' => <[kv.1 := v']> acc | None => acc end) m l !! k
  = if decide (k ∈ l.*1) then (λ v, default v (f k v)) <$> m !! k else m !! k.
Proof.
  induction l as [|[k0 v0] l IH]; intros m k Hnd Hin; simpl.
  { done. }
  apply NoDup_cons in Hnd as [Hk0 Hnd].
  rewrite IH; [|done|].
  - pose proof (Hin k0 v0 ltac:(set_solver)) as Hm.
    destruct (decide (k = k0)) as [->|Hne].
    + rewrite decide_False by done. rewrite decide_True by set_solver.
      rewrite Hm; simpl. destruct (f k0 v0); simpl; [by rewrite lookup_insert_eq|done].
    + assert (match f k0 v0 with Some v' => <[k0:=v']> m | None => m end !! k = m !! k) as ->.
      { destruct (f k0 v0); by simplify_map_eq. }
      apply decide_ext. rewrite elem_of_cons. split; [by right|by intros [?|?]].
  - intros k' v' Hk'. pose proof (Hin k' v' ltac:(set_solver)) as Hm'.
    assert (k' ≠ k0) by (intros ->; apply Hk0; apply list_elem_of_fmap; by exists (k0, v')).
    destruct (f k0 v0); by simplify_map_eq.
Qed.

(** Each iteration touches its own key only, so the order of the iteration is irrelevant. *)
Lemma range_update_lookup {V} (f : string → V → option V) m k :
  range_update f m !! k = (λ v, default v (f k v)) <$> m !! k.
Proof.
  unfold range_update. rewrite foldl_update_lookup.
  - case_decide as Hk; [done|]. destruct (m !! k) as [v|] eqn:Hm; [|done].
    exfalso. apply Hk. apply list_elem_of_fmap. exists (k, v). split; [done|].
    by apply elem_of_range.
  - apply NoDup_fst_range.
  - intros k' v'. apply elem_of_range.
Qed.
End range.

(** ** sort.Slice

    [less] is the comparison closure. [sort.Slice] is not stable; the inputs it is applied to come
    from a map range, whose order is arbitrary, so ties come out in an arbitrary order here too. *)

(** What a comparison closure has to be for the sort to be meaningful. *)
Record strict_weak {A} (less : A → A → bool) : Prop := {
  less_asym : ∀ x y, less x y = true → less y x = false;
  less_negtrans : ∀ x y z, less y x = false → less z y = false → less z x = false
}.
Definition no_ties {A} (less : A → A → bool) : Prop :=
  ∀ x y, less x y = false → less y x = false → x = y.

Lemma less_irrefl {A} (less : A → A → bool) x : strict_weak less → less x x = false.
Proof. intros [Ha _]. destruct (less x x) eqn:E; [|done]. by rewrite (Ha x x E) in E. Qed.

(** Compare by a key first, then by [rest]. *)
Lemma strict_weak_lex {A B} `{EqDecision B} (f : A → B) (ltB : B → B → bool) (rest : A → A → bool) :
  strict_weak ltB → no_ties ltB → strict_weak rest →
  strict_weak (λ x y, if bool_decide (f x = f y) then rest x y else ltB (f x) (f y)).
Proof.
  intros HB Htie Hrest. split.
  - intros x y. repeat case_bool_decide; try congruence; [apply Hrest|apply HB].
  - intros x y z Hyx Hzy.
    assert (∀ a b, (if bool_decide (f a = f b) then rest a b else ltB (f a) (f b)) = false →
              ltB (f a) (f b) = false) as Hle.
    { clear Hyx Hzy. intros a b. case_bool_decide as E; [|done]. intros _. rewrite E. by apply less_irrefl. }
    pose proof (Hle _ _ Hyx) as Hyx'. pose proof (Hle _ _ Hzy) as Hzy'.
    destruct (decide (f z = f x)) as [Ezx|Ezx];
      [rewrite bool_decide_true by done|rewrite bool_decide_false by done; by apply (less_negtrans _ HB _ (f y))].
    assert (f x = f y) as Exy by (apply Htie; [by rewrite <-Ezx|done]).
    rewrite bool_decide_true in Hyx, Hzy by congruence. by apply (less_negtrans _ Hrest _ y).
Qed.

Lemma strict_weak_map {A B} (f : A → B) (lt : B → B → bool) :
  strict_weak lt → strict_weak (λ x y, lt (f x) (f y)).
Proof. intros [H1 H2]. split; [intros x y; apply H1|intros x y z; apply H2]. Qed.

Lemma strict_weak_Zltb : strict_weak Z.ltb.
Proof. split; intros *; rewrite ?Z.ltb_lt, ?Z.ltb_ge; lia. Qed.
Lemma no_ties_Zltb : no_ties Z.ltb.
Proof. intros x y. rewrite !Z.ltb_ge. lia. Qed.

Section sort_slice.
Context {A : Type} (less : A → A → bool).
Definition not_after (x y : A) : Prop := less y x = false.
#[export] Instance not_after_dec : RelDecision not_after.
Proof. intros x y. unfold not_after. apply _. Defined.

Definition sort_slice (l : list A) : list A := merge_sort not_after l.

Lemma sort_slice_perm l : sort_slice l ≡ₚ l.
Proof. apply merge_sort_Permutation. Qed.

Lemma elem_of_sort_slice x l : x ∈ sort_slice l ↔ x ∈ l.
Proof. by rewrite sort_slice_perm. Qed.

Lemma length_sort_slice l : length (sort_slice l) = length l.
Proof. by rewrite sort_slice_perm. Qed.

Hypothesis less_weak : strict_weak less.

Lemma sort_slice_sorted l : StronglySorted not_after (sort_slice l).
Proof.
  apply StronglySorted_merge_sort.
  - intros x y z. apply (less_negtrans _ less_weak).
  - intros x y. unfold not_after.
    destruct (less y x) eqn:E; [right; by apply (less_asym _ less_weak)|by left].
Qed.

(** Sorting is deterministic on inputs without ties. *)
Lemma sort_slice_unique l1 l2 :
  (∀ x y, x ∈ l1 → y ∈ l2 → not_after x y → not_after y x → x = y) →
  l1 ≡ₚ l2 → sort_slice l1 = sort_slice l2.
Proof.
  intros Htie Hp. eapply StronglySorted_unique_strong.
  - intros x1 x2 H1 H2. apply Htie; by rewrite <-elem_of_sort_slice.
  - apply sort_slice_sorted.
  - apply sort_slice_sorted.
  - by rewrite !sort_slice_perm.
Qed.
End sort_slice.

(** Sorting the images of a list by a comparison of the images *)
Lemma StronglySorted_fmap_of {A B} (f : A → B) (R : A → A → Prop) (S : B → B → Prop) l :
  (∀ x y, R x y → S (f x) (f y)) → StronglySorted R l → StronglySorted S (f <$> l).
Proof.
  intros HRS. induction 1 as [|x l Hl IH Hx]; constructor; [done|]. apply Forall_fmap. by eapply Forall_impl; [exact Hx|apply HRS].
Qed.
Lemma sort_slice_fmap {A B} (f : A → B) (lessA : A → A → bool) (lessB : B → B → bool) l l' :
  strict_weak lessB → (∀ x y, lessA x y = lessB (f x) (f y)) →
  (∀ x y, x ∈ l' → y ∈ l' → lessB x y = false → lessB y x = false → x = y) → l' ≡ₚ f <$> l →
  sort_slice lessB l' = f <$> sort_slice lessA l.
Proof.
  intros HB Hf Htie Hp. apply (StronglySorted_unique_strong (not_after lessB)).
  - intros x y Hx Hy H1 H2. rewrite elem_of_sort_slice in Hx.
    assert (Hy' : y ∈ l') by (rewrite Hp; by rewrite (sort_slice_perm lessA) in Hy). by apply Htie.
  - by apply sort_slice_sorted.
  - apply (StronglySorted_fmap_of f (not_after lessA)); [intros x y; unfold not_after; by rewrite Hf|]. apply sort_slice_sorted.
    destruct HB as [H1 H2]. split; intros *; rewrite !Hf; eauto.
  - by rewrite (sort_slice_perm lessB), (sort_slice_perm lessA).
Qed.

(** ** Repeated insertion: [for _, x := range l { m[f(x)] = g(x) }] *)
Section foldl_insert.
Context `{Countable K} {A V : Type} (f : A → K) (g : A → V).

Lemma foldl_insert_notin l : ∀ (m : gmap K V) k,
  k ∉ f <$> l → foldl (λ acc x, <[f x := g x]> acc) m l !! k = m !! k.
Proof.
  induction l as [|x l IH]; intros m k Hk; [done|]. simpl.
  apply not_elem_of_cons in Hk as [Hx Hl]. rewrite IH by done. by rewrite lookup_insert_ne.
Qed.

Lemma foldl_insert_in l : ∀ (m : gmap K V) x,
  (∀ y, y ∈ l → f y = f x → g y = g x) → x ∈ l →
  foldl (λ acc x, <[f x := g x]> acc) m l !! f x = Some (g x).
Proof.
  induction l as [|y l IH]; intros m x Hg Hx; [by apply elem_of_nil in Hx|]. simpl.
  destruct (decide (f x ∈ f <$> l)) as [Hin|Hnin].
  - apply list_elem_of_fmap in Hin as (z & Hz & Hzl). rewrite Hz.
    rewrite IH; [|intros w Hw Hwz|done].
    + f_equal. apply Hg; [by right|done].
    + rewrite (Hg w), (Hg z); [done|by right|done|by right|congruence].
  - rewrite foldl_insert_notin by done. apply elem_of_cons in Hx as [->|Hx]; [by rewrite lookup_insert_eq|].
    exfalso. apply Hnin. by apply list_elem_of_fmap_2.
Qed.
End foldl_insert.

(** A [take] of a list sorted by [R] leaves out only elements that come after what it keeps. *)
Lemma StronglySorted_take_drop {A} (R : A → A → Prop) n l x y :
  StronglySorted R l → x ∈ take n l → y ∈ drop n l → R x y.
Proof.
  intros Hs Hx Hy. rewrite <-(take_drop n l) in Hs.
  apply StronglySorted_app_1_elem_of with (l1 := take n l) (l2 := drop n l); done.
Qed.

Create HintDb go.
#[export] Hint Resolve strict_weak_Zltb no_ties_Zltb sort_slice_perm : go.
