(* ===== verification/GoBytes.v ===== *)
(** * Byte strings and digests

    The parts of Go's standard library the services hash and encode with: the bytes of a string,
    [encoding/hex], [encoding/binary] big-endian, [crypto/sha256] and [crypto/hmac]. All of it is
    executable, so revisions, fingerprints and signatures are computed and not postulated. A theorem
    that needs two digests to differ says so about the two inputs at hand. *)
From S2P Require Import Prelude.
From Stdlib Require Import Ascii.

(** ** Bytes *)
Definition ord (c : ascii) : Z := Z.of_N (N_of_ascii c).
Definition chr (b : Z) : ascii := ascii_of_N (Z.to_N b).

(** [[]byte(s)] and [string(b)] *)
Fixpoint bytes_of (s : string) : list Z :=
  match s with
  | EmptyString => []
  | String c s' => ord c :: bytes_of s'
  end.
Fixpoint string_of_bytes (l : list Z) : string :=
  match l with
  | [] => EmptyString
  | b :: l' => String (chr b) (string_of_bytes l')
  end.

Definition is_byte (b : Z) : Prop := 0 <= b < 256.

Lemma ord_bound c : is_byte (ord c).
Proof. unfold is_byte, ord. pose proof (N_ascii_bounded c). lia. Qed.

Lemma chr_ord c : chr (ord c) = c.
Proof. unfold chr, ord. rewrite N2Z.id. apply ascii_N_embedding. Qed.

Lemma ord_chr b : is_byte b → ord (chr b) = b.
Proof.
  unfold is_byte, chr, ord. intros Hb.
  rewrite N_ascii_embedding by lia. lia.
Qed.

Lemma string_of_bytes_of s : string_of_bytes (bytes_of s) = s.
Proof. induction s as [|c s IH]; simpl; [done|]. by rewrite chr_ord, IH. Qed.

Lemma bytes_of_string_of_bytes l : Forall is_byte l → bytes_of (string_of_bytes l) = l.
Proof. induction 1; simpl; [done|]. rewrite ord_chr by done. by f_equal. Qed.

Lemma bytes_of_inj s1 s2 : bytes_of s1 = bytes_of s2 → s1 = s2.
Proof. intros H. rewrite <-(string_of_bytes_of s1), <-(string_of_bytes_of s2). by rewrite H. Qed.

Lemma bytes_of_app s1 s2 : bytes_of (s1 +:+ s2) = bytes_of s1 ++ bytes_of s2.
Proof.
  induction s1 as [|c s1 IH]; [done|].
  change (bytes_of (String c s1 +:+ s2)) with (ord c :: bytes_of (s1 +:+ s2)). by rewrite IH.
Qed.

#[export] Instance string_app_assoc : Assoc (=) String.append.
Proof. intros s1 s2 s3. induction s1 as [|c s1 IH]; [done|]. exact (f_equal (String c) IH). Qed.
Lemma bytes_of_bound s : Forall is_byte (bytes_of s).
Proof. induction s; simpl; constructor; [apply ord_bound|done]. Qed.

Lemma length_bytes_of s : length (bytes_of s) = String.length s.
Proof. induction s; simpl; [done|]. by f_equal. Qed.

(** ** encoding/binary: BigEndian.PutUint64, PutUint32 *)
Fixpoint be_bytes (n : nat) (x : Z) : list Z :=
  match n with
  | O => []
  | S n' => Z.shiftr x (8 * Z.of_nat n') mod 256 :: be_bytes n' x
  end.
Fixpoint be_value (l : list Z) : Z :=
  match l with
  | [] => 0
  | b :: l' => b * 2 ^ (8 * Z.of_nat (length l')) + be_value l'
  end.

Lemma length_be_bytes n x : length (be_bytes n x) = n.
Proof. induction n; simpl; congruence. Qed.

Lemma be_bytes_bound n x : Forall is_byte (be_bytes n x).
Proof. induction n; simpl; constructor; [|done]. unfold is_byte. by apply Z.mod_pos_bound. Qed.

Lemma be_value_bytes n x : be_value (be_bytes n x) = x mod 2 ^ (8 * Z.of_nat n).
Proof.
  induction n as [|n IH]; cbn [be_bytes be_value].
  { change (8 * Z.of_nat 0) with 0. rewrite Z.pow_0_r. by rewrite Z.mod_1_r. }
  rewrite length_be_bytes, IH, Z.shiftr_div_pow2 by lia.
  set (k := 2 ^ (8 * Z.of_nat n)). assert (0 < k) by (apply Z.pow_pos_nonneg; lia).
  replace (2 ^ (8 * Z.of_nat (S n))) with (k * 256).
  2:{ unfold k. replace (8 * Z.of_nat (S n)) with (8 * Z.of_nat n + 8) by lia.
      by rewrite Z.pow_add_r by lia. }
  rewrite Z.rem_mul_r by lia. lia.
Qed.

Lemma be_value_bound l : Forall is_byte l → 0 <= be_value l < 2 ^ (8 * Z.of_nat (length l)).
Proof.
  induction 1 as [|b l Hb _ IH]; [simpl; lia|]. cbn [be_value length].
  replace (8 * Z.of_nat (S (length l))) with (8 * Z.of_nat (length l) + 8) by lia.
  rewrite Z.pow_add_r by lia. unfold is_byte in Hb. nia.
Qed.
Lemma be_value_inj l1 l2 : length l1 = length l2 → Forall is_byte l1 → Forall is_byte l2 →
  be_value l1 = be_value l2 → l1 = l2.
Proof.
  revert l2. induction l1 as [|b1 l1 IH]; intros [|b2 l2] Hlen H1 H2 H; try done.
  apply Forall_cons in H1 as [Hb1 H1], H2 as [Hb2 H2]. simpl in Hlen. injection Hlen as Hlen.
  cbn [be_value] in H. rewrite Hlen in H. pose proof (be_value_bound l1 H1) as B1. pose proof (be_value_bound l2 H2) as B2.
  rewrite Hlen in B1. assert (b1 = b2) as -> by nia. f_equal. apply IH; [done..|lia].
Qed.
(** The bytes of a number of bytes are these bytes; equal residues have equal bytes. *)
Lemma be_bytes_value l : Forall is_byte l → be_bytes (length l) (be_value l) = l.
Proof.
  intros Hl. apply be_value_inj; [apply length_be_bytes|apply be_bytes_bound|done|].
  rewrite be_value_bytes, Z.mod_small; [done|by apply be_value_bound].
Qed.
Lemma be_bytes_congr n x y : x mod 2 ^ (8 * Z.of_nat n) = y mod 2 ^ (8 * Z.of_nat n) → be_bytes n x = be_bytes n y.
Proof.
  intros H. apply be_value_inj; [by rewrite !length_be_bytes|apply be_bytes_bound|apply be_bytes_bound|].
  by rewrite !be_value_bytes.
Qed.

(** [b[off:off+n]] *)
Definition bytes_at (off n : nat) (b : list Z) : list Z := take n (drop off b).
Lemma bytes_at_app x y z : bytes_at (length x) (length y) (x ++ y ++ z) = y.
Proof. unfold bytes_at. by rewrite drop_app_length, take_app_length. Qed.
Lemma bytes_at_split off n b : bytes_at off n b ++ drop (off + n) b = drop off b.
Proof. unfold bytes_at. by rewrite <-drop_drop, take_drop. Qed.
Lemma length_bytes_at off n b : (off + n <= length b)%nat → length (bytes_at off n b) = n.
Proof. intros H. unfold bytes_at. rewrite length_take, length_drop. lia. Qed.
Lemma bytes_at_bound off n b : Forall is_byte b → Forall is_byte (bytes_at off n b).
Proof. intros H. by apply Forall_take, Forall_drop. Qed.

Lemma be_bytes_inj n x y :
  0 <= x < 2 ^ (8 * Z.of_nat n) → 0 <= y < 2 ^ (8 * Z.of_nat n) → be_bytes n x = be_bytes n y → x = y.
Proof.
  intros Hx Hy H. apply (f_equal be_value) in H. rewrite !be_value_bytes in H.
  by rewrite !Z.mod_small in H by lia.
Qed.

(** ** encoding/hex *)
Definition hex_digit (n : Z) : ascii := chr (if n <? 10 then 48 + n else 87 + n).
Fixpoint hex_encode (l : list Z) : string :=
  match l with
  | [] => EmptyString
  | b :: l' => String (hex_digit (b / 16)) (String (hex_digit (b mod 16)) (hex_encode l'))
  end.
(** [hex.DecodeString] accepts both cases and an even number of digits. *)
Definition hex_value (c : ascii) : option Z :=
  let b := ord c in
  if (48 <=? b) && (b <=? 57) then Some (b - 48)
  else if (97 <=? b) && (b <=? 102) then Some (b - 87)
  else if (65 <=? b) && (b <=? 70) then Some (b - 55)
  else None.
Fixpoint hex_decode (s : string) : option (list Z) :=
  match s with
  | EmptyString => Some []
  | String a (String b s') =>
      match hex_value a, hex_value b, hex_decode s' with
      | Some x, Some y, Some l => Some (16 * x + y :: l)
      | _, _, _ => None
      end
  | _ => None
  end.

Lemma hex_value_digit n : 0 <= n < 16 → hex_value (hex_digit n) = Some n.
Proof.
  intros Hn. unfold hex_value, hex_digit.
  rewrite ord_chr by (unfold is_byte; destruct (Z.ltb_spec n 10); lia).
  destruct (Z.ltb_spec n 10).
  - rewrite (proj2 (Z.leb_le 48 _)), (proj2 (Z.leb_le _ 57)) by lia. simpl. f_equal. lia.
  - rewrite (proj2 (Z.leb_gt _ 57)), andb_false_r by lia.
    rewrite (proj2 (Z.leb_le 97 _)), (proj2 (Z.leb_le _ 102)) by lia. simpl. f_equal. lia.
Qed.

Lemma hex_decode_encode l : Forall is_byte l → hex_decode (hex_encode l) = Some l.
Proof.
  induction 1 as [|b l Hb _ IH]; [done|]. cbn [hex_encode hex_decode]. unfold is_byte in Hb.
  rewrite !hex_value_digit, IH.
  - f_equal. f_equal. rewrite (Z.div_mod b 16) at 3 by lia. lia.
  - apply Z.mod_pos_bound; lia.
  - split; [apply Z.div_pos; lia|apply Z.div_lt_upper_bound; lia].
Qed.

Lemma hex_encode_inj l1 l2 : Forall is_byte l1 → Forall is_byte l2 → hex_encode l1 = hex_encode l2 → l1 = l2.
Proof.
  intros H1 H2 H. apply (f_equal hex_decode) in H.
  rewrite !hex_decode_encode in H by done. by injection H.
Qed.

(** ** crypto/sha256 and crypto/hmac (FIPS 180-4, RFC 2104) *)
Module Sha256.
Definition mask : Z := 2 ^ 32 - 1.
Definition add32 (x y : Z) : Z := Z.land (x + y) mask.
Definition rotr (n x : Z) : Z := Z.land (Z.lor (Z.shiftr x n) (Z.shiftl x (32 - n))) mask.
Definition ch (x y z : Z) : Z := Z.lxor (Z.land x y) (Z.land (Z.lxor x mask) z).
Definition maj (x y z : Z) : Z := Z.lxor (Z.lxor (Z.land x y) (Z.land x z)) (Z.land y z).
Definition bsig0 (x : Z) : Z := Z.lxor (Z.lxor (rotr 2 x) (rotr 13 x)) (rotr 22 x).
Definition bsig1 (x : Z) : Z := Z.lxor (Z.lxor (rotr 6 x) (rotr 11 x)) (rotr 25 x).
Definition ssig0 (x : Z) : Z := Z.lxor (Z.lxor (rotr 7 x) (rotr 18 x)) (Z.shiftr x 3).
Definition ssig1 (x : Z) : Z := Z.lxor (Z.lxor (rotr 17 x) (rotr 19 x)) (Z.shiftr x 10).
Definition round_constants : list Z :=
[1116352408; 1899447441; 3049323471; 3921009573; 961987163; 1508970993;
 2453635748; 2870763221; 3624381080; 310598401; 607225278; 1426881987;
 1925078388; 2162078206; 2614888103; 3248222580; 3835390401; 4022224774;
 264347078; 604807628; 770255983; 1249150122; 1555081692; 1996064986;
 2554220882; 2821834349; 2952996808; 3210313671; 3336571891; 3584528711;
 113926993; 338241895; 666307205; 773529912; 1294757372; 1396182291;
 1695183700; 1986661051; 2177026350; 2456956037; 2730485921; 2820302411;
 3259730800; 3345764771; 3516065817; 3600352804; 4094571909; 275423344;
 430227734; 506948616; 659060556; 883997877; 958139571; 1322822218;
 1537002063; 1747873779; 1955562222; 2024104815; 2227730452; 2361852424;
 2428436474; 2756734187; 3204031479; 3329325298].
Definition initial : list Z :=
[1779033703; 3144134277; 1013904242; 2773480762; 1359893119; 2600822924; 528734635; 1541459225].

Definition pad (msg : list Z) : list Z :=
  let n := Z.of_nat (length msg) in
  let zeros := Z.to_nat ((55 - n) mod 64) in
  msg ++ [128] ++ repeat 0 zeros ++ be_bytes 8 (8 * n).

Fixpoint words (fuel : nat) (l : list Z) : list Z :=
  match fuel, l with
  | S f, a :: b :: c :: d :: l' => be_value [a; b; c; d] :: words f l'
  | _, _ => []
  end.

(** The message schedule, most recent word first. *)
Fixpoint extend (n : nat) (w : list Z) : list Z :=
  match n with
  | O => w
  | S n' =>
      let at_ i := default 0 (w !! i) in
      extend n' (add32 (add32 (ssig1 (at_ 1%nat)) (at_ 6%nat))
                       (add32 (ssig0 (at_ 14%nat)) (at_ 15%nat)) :: w)
  end.

Definition round (st : list Z) (kw : Z * Z) : list Z :=
  match st with
  | [a; b; c; d; e; f; g; h] =>
      let t1 := add32 (add32 (add32 h (bsig1 e)) (add32 (ch e f g) kw.1)) kw.2 in
      let t2 := add32 (bsig0 a) (maj a b c) in
      [add32 t1 t2; a; b; c; add32 d t1; e; f; g]
  | _ => st
  end.

Definition block (st : list Z) (w : list Z) : list Z :=
  zip_with add32 st (foldl round st (zip round_constants (reverse (extend 48 (reverse w))))).

Fixpoint blocks (fuel : nat) (st ws : list Z) : list Z :=
  match fuel, ws with
  | O, _ | _, [] => st
  | S f, _ => blocks f (block st (take 16 ws)) (drop 16 ws)
  end.

Definition Sum256 (msg : list Z) : list Z :=
  let p := pad msg in
  mjoin (be_bytes 4 <$> blocks (length p) initial (words (length p) p)).

(** [hmac.New(sha256.New, key)] followed by one [Write(body)] and [Sum(nil)]. *)
Definition hmac (key body : list Z) : list Z :=
  let k := if (64 <? length key)%nat then Sum256 key else key in
  let k := k ++ repeat 0 (64 - length k) in
  Sum256 ((Z.lxor 92 <$> k) ++ Sum256 ((Z.lxor 54 <$> k) ++ body)).
End Sha256.

(** [hex.EncodeToString(sha256.Sum256(b))] *)
Definition sha256_hex (b : list Z) : string := hex_encode (Sha256.Sum256 b).

Example sha256_abc : sha256_hex (bytes_of "abc") =
  "ba7816bf8f01cfea414140de5dae2223b00361a396177a9cb410ff61f20015ad".
Proof. vm_compute. reflexivity. Qed.

Example hmac_rfc4231_2 :
  hex_encode (Sha256.hmac (bytes_of "Jefe") (bytes_of "what do ya want for nothing?")) =
  "5bdcc146bf60754e6a042426089575c75a003f089d2739839dec58b964ec3843".
Proof. vm_compute. reflexivity. Qed.

Lemma Sum256_bound msg : Forall is_byte (Sha256.Sum256 msg).
Proof.
  unfold Sha256.Sum256. apply Forall_join, Forall_fmap, Forall_true. intros x. apply be_bytes_bound.
Qed.

Lemma length_round st kw : length (Sha256.round st kw) = length st.
Proof. by do 9 (destruct st as [|? st]; [done|]). Qed.
Lemma length_block st w : length (Sha256.block st w) = length st.
Proof.
  unfold Sha256.block. rewrite length_zip_with. apply Nat.min_l. generalize (zip Sha256.round_constants (reverse (Sha256.extend 48 (reverse w)))).
  intros l. assert (∀ st', length (foldl Sha256.round st' l) = length st') as H; [|by rewrite H].
  induction l as [|kw l IH]; intros st'; simpl; [done|]. by rewrite IH, length_round.
Qed.
Lemma length_Sum256 msg : length (Sha256.Sum256 msg) = 32%nat.
Proof.
  assert (∀ fuel st ws, length (Sha256.blocks fuel st ws) = length st) as H.
  { induction fuel as [|fuel IH]; intros st [|w ws']; simpl; try done. by rewrite IH, length_block. }
  assert (∀ l : list Z, length (mjoin (be_bytes 4 <$> l)) = (4 * length l)%nat) as Hj.
  { induction l as [|x l IH]; [done|]. change (length (be_bytes 4 x ++ mjoin (be_bytes 4 <$> l)) = (4 * S (length l))%nat).
    rewrite length_app, length_be_bytes, IH. lia. }
  unfold Sha256.Sum256. etransitivity; [apply Hj|]. by rewrite H.
Qed.

(** The digest in hexadecimal determines the digest. *)
Lemma sha256_hex_inj b1 b2 : sha256_hex b1 = sha256_hex b2 → Sha256.Sum256 b1 = Sha256.Sum256 b2.
Proof. apply hex_encode_inj; apply Sum256_bound. Qed.

(** Two inputs on which SHA-256 does not collide. *)
Definition no_collision (b1 b2 : list Z) : Prop := Sha256.Sum256 b1 = Sha256.Sum256 b2 → b1 = b2.
