(* ===== verification/GoText.v ===== *)
(** * Text: decimal printing, JSON strings and RFC 3339 times

    What the services use of [strconv], [fmt], [encoding/json] and [time.Time.MarshalJSON]. *)
From S2P Require Import Prelude GoBytes.
From Stdlib Require Import Ascii.

(** [fmt.Sprintf("%d", z)] *)
Definition itoa (z : Z) : string := pretty z.

Definition digit (n : Z) : string := String (chr (48 + n)) EmptyString.
(** [n] zero-padded decimal digits of [z], most significant first. *)
Fixpoint digits (n : nat) (z : Z) : string :=
  match n with
  | O => EmptyString
  | S n' => digits n' (z / 10) +:+ digit (z mod 10)
  end.

(** ** encoding/json strings (HTML escaping on, the default of [json.Marshal]) *)
Definition quote : string := String (chr 34) EmptyString.
Definition backslash : string := String (chr 92) EmptyString.
Definition hex2 (b : Z) : string := String (hex_digit (b / 16)) (String (hex_digit (b mod 16)) EmptyString).

(** Size of the valid UTF-8 sequence at the head of [l] for a first byte of at least 0x80;
    0 when it is invalid ([utf8.DecodeRune] returns RuneError with size 1). *)
Definition utf8_size (l : list Z) : nat :=
  let cont b := (128 <=? b) && (b <=? 191) in
  match l with
  | a :: b :: t =>
      if (194 <=? a) && (a <=? 223) && cont b then 2%nat
      else match t with
      | c :: t' =>
          if (224 <=? a) && (a <=? 239) && cont c
             && ((if a =? 224 then 160 else 128) <=? b) && (b <=? (if a =? 237 then 159 else 191))
          then 3%nat
          else match t' with
          | d :: _ =>
              if (240 <=? a) && (a <=? 244) && cont c && cont d
                 && ((if a =? 240 then 144 else 128) <=? b) && (b <=? (if a =? 244 then 143 else 191))
              then 4%nat else 0%nat
          | [] => 0%nat
          end
      | [] => 0%nat
      end
  | _ => 0%nat
  end.

Definition json_escape_ascii (b : Z) : string :=
  if (b =? 34) || (b =? 92) then backslash +:+ string_of_bytes [b]
  else if b =? 8 then backslash +:+ "b"
  else if b =? 12 then backslash +:+ "f"
  else if b =? 10 then backslash +:+ "n"
  else if b =? 13 then backslash +:+ "r"
  else if b =? 9 then backslash +:+ "t"
  else if (b <? 32) || (b =? 60) || (b =? 62) || (b =? 38) then backslash +:+ "u00" +:+ hex2 b
  else string_of_bytes [b].

Fixpoint json_chars (fuel : nat) (l : list Z) : string :=
  match fuel, l with
  | O, _ | _, [] => EmptyString
  | S f, b :: l' =>
      if b <? 128 then json_escape_ascii b +:+ json_chars f l'
      else match utf8_size l with
      | O => backslash +:+ "ufffd" +:+ json_chars f l'
      | n =>
          match take n l with
          | [226; 128; 168] => backslash +:+ "u2028"
          | [226; 128; 169] => backslash +:+ "u2029"
          | run => string_of_bytes run
          end +:+ json_chars f (drop n l)
      end
  end.
Definition json_string (s : string) : string :=
  let l := bytes_of s in quote +:+ json_chars (length l) l +:+ quote.

(** A struct's fields in order; an [omitempty] field is left out by the caller. *)
Definition json_field (name value : string) : string := quote +:+ name +:+ quote +:+ ":" +:+ value.
Fixpoint join (sep : string) (l : list string) : string :=
  match l with
  | [] => EmptyString
  | [x] => x
  | x :: l' => x +:+ sep +:+ join sep l'
  end.
Definition json_object (fields : list string) : string := "{" +:+ join "," fields +:+ "}".
Definition json_array (items : list string) : string := "[" +:+ join "," items +:+ "]".

(** ** The proleptic Gregorian calendar *)
Definition days_400 : Z := 146097.
Definition is_leap (y : Z) : bool := (y mod 4 =? 0) && (negb (y mod 100 =? 0) || (y mod 400 =? 0)).

(** Year and zero-based day of the year of the day [d] days after January 1st of year 1. *)
Definition year_yday (d : Z) : Z * Z :=
  let q400 := d / days_400 in
  let r := d mod days_400 in
  let q100 := Z.min (r / 36524) 3 in
  let r := r - 36524 * q100 in
  let q4 := r / 1461 in
  let r := r mod 1461 in
  let q1 := Z.min (r / 365) 3 in
  (400 * q400 + 100 * q100 + 4 * q4 + q1 + 1, r - 365 * q1).

Definition month_lengths (leap : bool) : list Z :=
  [31; (if leap then 29 else 28); 31; 30; 31; 30; 31; 31; 30; 31; 30; 31].
(** One-based month and day. *)
Fixpoint month_day (lens : list Z) (m : Z) (yday : Z) : Z * Z :=
  match lens with
  | [] => (m, yday + 1)
  | n :: lens' => if yday <? n then (m, yday + 1) else month_day lens' (m + 1) (yday - n)
  end.

Record civil := { year : Z; month : Z; day : Z; hour : Z; minute : Z; second : Z; nano : Z }.
Definition civil_of (t : Time) : civil :=
  let secs := t / Second in
  let sod := secs mod 86400 in
  let '(y, yd) := year_yday (secs / 86400) in
  let '(m, d) := month_day (month_lengths (is_leap y)) 1 yd in
  {| year := y; month := m; day := d; hour := sod / 3600; minute := sod / 60 mod 60;
     second := sod mod 60; nano := t mod Second |}.

Fixpoint trim_zeros (s : string) : string :=
  match s with
  | EmptyString => EmptyString
  | String c s' =>
      match trim_zeros s' with
      | EmptyString => if Ascii.eqb c "0" then EmptyString else String c EmptyString
      | r => String c r
      end
  end.

(** [t.UTC().Format(time.RFC3339Nano)] for a year of four digits *)
Definition rfc3339nano (t : Time) : string :=
  let c := civil_of t in
  digits 4 (year c) +:+ "-" +:+ digits 2 (month c) +:+ "-" +:+ digits 2 (day c) +:+ "T" +:+
  digits 2 (hour c) +:+ ":" +:+ digits 2 (minute c) +:+ ":" +:+ digits 2 (second c) +:+
  (if nano c =? 0 then "" else "." +:+ trim_zeros (digits 9 (nano c))) +:+ "Z".

(** [t.UTC().Format("2006-01-02T15:04:05Z07:00")] *)
Definition rfc3339 (t : Time) : string := rfc3339nano (Truncate t Second).

(** [time.Time.MarshalJSON] of a UTC time: an error outside the years 0 to 9999. *)
Definition json_time (t : Time) : option string :=
  let y := year (civil_of t) in
  if (0 <=? y) && (y <=? 9999) then Some (quote +:+ rfc3339nano t +:+ quote) else None.

Example rfc3339_launch : rfc3339nano (63922898645 * Second + 250 * Millisecond) = "2026-08-21T08:44:05.25Z".
Proof. vm_compute. reflexivity. Qed.
Example rfc3339_leap : rfc3339nano (63844808399 * Second + 999999999) = "2024-02-29T12:59:59.999999999Z".
Proof. vm_compute. reflexivity. Qed.

(** ** strings *)
Definition HasPrefix (s prefix : string) : bool := String.prefix prefix s.
Definition TrimPrefix (s prefix : string) : string :=
  if HasPrefix s prefix then String.substring (String.length prefix) (String.length s - String.length prefix) s else s.
Lemma string_app_assoc (a b c : string) : a +:+ b +:+ c = (a +:+ b) +:+ c.
Proof. induction a as [|x a IH]; [done|]. apply (f_equal (String x)), IH. Qed.
Lemma string_app_empty (a : string) : a +:+ "" = a.
Proof. induction a as [|x a IH]; [done|]. apply (f_equal (String x)), IH. Qed.
Lemma string_length_app s t : String.length (s +:+ t) = (String.length s + String.length t)%nat.
Proof. induction s as [|a s IH]; [done|]. exact (f_equal S IH). Qed.
Lemma substring_whole s t : String.substring 0 (String.length s) (s +:+ t) = s.
Proof. induction s as [|c s IH]; [by destruct t|]. simpl. by rewrite IH. Qed.
Lemma HasPrefix_app p s : HasPrefix (p +:+ s) p = true.
Proof. unfold HasPrefix. induction p as [|a p IH]; [by destruct s|]. simpl. destruct (Ascii.ascii_dec a a); [exact IH|done]. Qed.
Lemma substring_skip p s n : String.substring (String.length p) n (p +:+ s) = String.substring 0 n s.
Proof. induction p as [|a p IH]; [done|exact IH]. Qed.
Lemma substring_all s : String.substring 0 (String.length s) s = s.
Proof. pose proof (substring_whole s "") as H. by rewrite string_app_empty in H. Qed.
Lemma TrimPrefix_app p s : TrimPrefix (p +:+ s) p = s.
Proof. unfold TrimPrefix. rewrite HasPrefix_app, substring_skip, string_length_app, Nat.add_sub_swap, Nat.sub_diag by done. apply substring_all. Qed.

(** [strings.Split(s, sep)] for a one-byte separator *)
Fixpoint split_bytes (sep : Z) (cur l : list Z) : list (list Z) :=
  match l with
  | [] => [reverse cur]
  | b :: l' => if b =? sep then reverse cur :: split_bytes sep [] l' else split_bytes sep (b :: cur) l'
  end.
Definition Split (s : string) (sep : Z) : list string := string_of_bytes <$> split_bytes sep [] (bytes_of s).

(** [strings.TrimSpace]: ASCII and Unicode white space at both ends. *)
Definition spaces : list (list Z) :=
  [[9]; [10]; [11]; [12]; [13]; [32]; [194; 133]; [194; 160]; [225; 154; 128]; [226; 128; 128]; [226; 128; 129];
   [226; 128; 130]; [226; 128; 131]; [226; 128; 132]; [226; 128; 133]; [226; 128; 134]; [226; 128; 135];
   [226; 128; 136]; [226; 128; 137]; [226; 128; 138]; [226; 128; 168]; [226; 128; 169]; [226; 128; 175];
   [226; 129; 159]; [227; 128; 128]].
Definition starts_with (p l : list Z) : bool := bool_decide (take (length p) l = p).
Fixpoint trim_left (fuel : nat) (sp : list (list Z)) (l : list Z) : list Z :=
  match fuel with
  | O => l
  | S f => match list_find (λ p, starts_with p l = true) sp with
           | Some (_, p) => trim_left f sp (drop (length p) l)
           | None => l
           end
  end.
Definition TrimSpace (s : string) : string :=
  let l := bytes_of s in
  let l := trim_left (length l) spaces l in
  string_of_bytes (reverse (trim_left (length l) (reverse <$> spaces) (reverse l))).

Example trim_space : TrimSpace (string_of_bytes [32; 9; 97; 32; 98; 227; 128; 128; 10]) = "a b".
Proof. vm_compute. reflexivity. Qed.
Example split_path : Split "acct-1/invoices/latest" 47 = ["acct-1"; "invoices"; "latest"].
Proof. vm_compute. reflexivity. Qed.

(** ** [strconv.Atoi] on a 64-bit machine: an optional sign and decimal digits; [None] on anything else or out of range. *)
Fixpoint digits_value (acc : Z) (l : list Z) : option Z :=
  match l with
  | [] => Some acc
  | c :: l' => if (48 <=? c) && (c <=? 57) then digits_value (10 * acc + (c - 48)) l' else None
  end.
Definition Atoi (s : string) : option Z :=
  let '(sign, l) := match bytes_of s with 45 :: l => (-1, l) | 43 :: l => (1, l) | l => (1, l) end in
  match l with
  | [] => None
  | _ => n ← digits_value 0 l; if (- 2 ^ 63 <=? sign * n) && (sign * n <? 2 ^ 63) then Some (sign * n) else None
  end.
Example atoi_examples : Atoi "-120" = Some (-120) ∧ Atoi "+7" = Some 7 ∧ Atoi "1_0" = None ∧ Atoi "" = None ∧ Atoi "9223372036854775808" = None.
Proof. vm_compute. done. Qed.
