(* ===== verification/GoFloat.v ===== *)
(** * Go's float64, the formatting of numbers, and package sort

    IEEE 754 binary64 with round-to-nearest-even, executable and axiom-free: the operations of the
    Standard Library's [SpecFloat] at precision 53 and exponent bound 1024. *)
From Stdlib Require Import Floats.SpecFloat.
From S2P Require Import Prelude.

Abbreviation float64 := spec_float (only parsing).
Definition of_int (z : Z) : float64 := binary_normalize 53 1024 z 0 false.
Definition fadd : float64 → float64 → float64 := SFadd 53 1024.
Definition fsub : float64 → float64 → float64 := SFsub 53 1024.
Definition fmul : float64 → float64 → float64 := SFmul 53 1024.
Definition fdiv : float64 → float64 → float64 := SFdiv 53 1024.
Definition flt : float64 → float64 → bool := SFltb.
Definition fle : float64 → float64 → bool := SFleb.

(** [math.Min] *)
Definition fmin (x y : float64) : float64 :=
  match x, y with
  | S754_infinity true, _ | _, S754_infinity true => S754_infinity true
  | S754_nan, _ | _, S754_nan => S754_nan
  | S754_zero sx, S754_zero _ => if sx then x else y
  | _, _ => if flt x y then x else y
  end.

(** [time.Duration.Seconds]: the whole seconds and the fraction are converted separately. *)
Definition Seconds (d : Duration) : float64 :=
  fadd (of_int (Z.quot d Second)) (fdiv (of_int (Z.rem d Second)) (of_int Second)).

Example half_second : Seconds (500 * Millisecond) = fdiv (of_int 1) (of_int 2).
Proof. vm_compute. reflexivity. Qed.
Example tenth : fle (fadd (Seconds (100 * Millisecond)) (Seconds (200 * Millisecond))) (Seconds (300 * Millisecond)) = false.
Proof. vm_compute. reflexivity. Qed.

(** ** Formatted messages and stable sorting

    What policy and telemetry use of [fmt.Sprintf] for their reasons, of [time.Duration.Round] and of
    [sort.SliceStable] and [sort.Slice]. *)
(** ** sort.SliceStable

    Insertion from the right: an element goes before the first one that does not precede it, so equal
    elements keep their order. *)
Section slice_stable.
Context {A : Type} (less : A → A → bool).
Fixpoint insert_stable (x : A) (l : list A) : list A :=
  match l with
  | [] => [x]
  | y :: l' => if less y x then y :: insert_stable x l' else x :: l
  end.
Definition slice_stable (l : list A) : list A := foldr insert_stable [] l.

Lemma insert_stable_perm x l : insert_stable x l ≡ₚ x :: l.
Proof.
  induction l as [|y l IH]; simpl; [done|]. destruct (less y x); [|done]. rewrite IH. apply perm_swap.
Qed.
Lemma slice_stable_perm l : slice_stable l ≡ₚ l.
Proof. induction l as [|x l IH]; simpl; [done|]. by rewrite insert_stable_perm, IH. Qed.

Hypothesis less_weak : strict_weak less.
Lemma insert_stable_sorted x l : StronglySorted (not_after less) l → StronglySorted (not_after less) (insert_stable x l).
Proof.
  induction 1 as [|y l Hl IH Hy]; simpl; [by repeat constructor|]. destruct (less y x) eqn:E.
  - constructor; [done|]. rewrite insert_stable_perm. constructor; [by apply (less_asym _ less_weak)|done].
  - constructor; [by constructor|]. constructor; [done|]. eapply Forall_impl; [exact Hy|].
    intros z Hz. by apply (less_negtrans _ less_weak _ y).
Qed.
Lemma slice_stable_sorted l : StronglySorted (not_after less) (slice_stable l).
Proof. induction l as [|x l IH]; simpl; [constructor|by apply insert_stable_sorted]. Qed.
End slice_stable.

Lemma StronglySorted_weaken {A} (R S : A → A → Prop) l : (∀ x y, R x y → S x y) → StronglySorted R l → StronglySorted S l.
Proof. intros H. induction 1 as [|x l _ IH Hx]; constructor; [done|]. eapply Forall_impl; [exact Hx|apply H]. Qed.
Lemma StronglySorted_filter {A} (R : A → A → Prop) (P : A → Prop) `{!∀ x, Decision (P x)} l :
  StronglySorted R l → StronglySorted R (filter P l).
Proof.
  induction 1 as [|x l _ IH Hx]; [constructor|]. rewrite filter_cons. case_decide; [|done].
  constructor; [done|]. rewrite Forall_forall in *. intros y [_ Hy]%list_elem_of_filter. by apply Hx.
Qed.

(** ** sort.Slice promises an ordered permutation, and nothing about the order of ties. *)
Class SortSlice := {
  sort_Slice : ∀ {A : Type}, (A → A → bool) → list A → list A;
  sort_Slice_perm : ∀ {A : Type} (less : A → A → bool) l, sort_Slice less l ≡ₚ l;
  sort_Slice_sorted : ∀ {A : Type} (less : A → A → bool) l,
    strict_weak less → StronglySorted (not_after less) (sort_Slice less l)
}.
(** One such sort, to evaluate the definitions on concrete inputs. *)
Definition merge_sorting : SortSlice := {|
  sort_Slice := λ A less l, sort_slice less l;
  sort_Slice_perm := λ A less l, sort_slice_perm less l;
  sort_Slice_sorted := λ A less l H, sort_slice_sorted less H l |}.

(** ** Formatted text: the format and its arguments; the layout [fmt] gives them is left symbolic. *)
#[warnings="-register-all"]
Inductive text : Type :=
| Lit (s : string)
| Strs (l : list string)
| TimeArg (t : Time)
| DurArg (d : Duration)
| IntArg (z : Z)
| FloatArg (f : float64)
| Sprintf (format : string) (args : list text).

(** [Duration.Round]: to the nearest multiple, halfway away from zero, saturating *)
Definition Round (d m : Duration) : Duration :=
  if m <=? 0 then d
  else if d <? 0 then
    let r := - Z.rem d m in
    if 2 * r <? m then d + r else Z.max min_int64 (d - m + r)
  else
    let r := Z.rem d m in
    if 2 * r <? m then d - r else Z.min max_int64 (d + m - r).
