(* ===== verification/GoTime.v ===== *)
(** * Parsing times and durations

    [time.Parse(time.RFC3339, s)] of the Go standard library, with its leniencies (an hour of one digit, fractional
    seconds after a point or a comma, offsets up to 24:60), and that it reads back what [Format(time.RFC3339)] writes;
    [time.ParseDuration]. *)
From Stdlib Require Import Floats.SpecFloat.
From S2P Require Import Prelude GoBytes GoText GoFloat.

(** [Time.Unix]: whole seconds since the epoch, rounded down *)
Definition Unix (t : Time) : Z := t / Second - 62135596800.

Definition isDigit (b : Z) : bool := (48 <=? b) && (b <=? 57).
Definition num2 (a b : Z) : Z := 10 * (a - 48) + (b - 48).

(** One or two digits; [fixed] insists on two. *)
Definition getnum (fixed : bool) (l : list Z) : option (Z * list Z) :=
  match l with
  | a :: t =>
      if negb (isDigit a) then None
      else match t with
           | b :: t' => if isDigit b then Some (num2 a b, t') else if fixed then None else Some (a - 48, t)
           | [] => if fixed then None else Some (a - 48, [])
           end
  | [] => None
  end.
Definition skip (c : Z) (l : list Z) : option (list Z) :=
  match l with b :: t => if b =? c then Some t else None | [] => None end.
Definition get_year (l : list Z) : option (Z * list Z) :=
  match l with
  | a :: b :: c :: d :: t =>
      if isDigit a && isDigit b && isDigit c && isDigit d then Some (100 * num2 a b + num2 c d, t) else None
  | _ => None
  end.

Fixpoint span_digits (l : list Z) : list Z * list Z :=
  match l with
  | b :: l' => if isDigit b then let '(ds, r) := span_digits l' in (b :: ds, r) else ([], l)
  | [] => ([], [])
  end.
(** At most nine digits count, the rest is cut off. *)
Definition parseNanoseconds (ds : list Z) : Z :=
  let ds := take 9 ds in
  foldl (λ acc b, 10 * acc + (b - 48)) 0 ds * 10 ^ Z.of_nat (9 - length ds).
Definition get_fraction (l : list Z) : Z * list Z :=
  match l with
  | s :: d :: _ =>
      if ((s =? 46) || (s =? 44)) && isDigit d
      then let '(ds, r) := span_digits (tail l) in (parseNanoseconds ds, r)
      else (0, l)
  | _ => (0, l)
  end.
(** The offset in seconds. *)
Definition get_zone (l : list Z) : option (Z * list Z) :=
  match l with
  | 90 :: t => Some (0, t)
  | s :: h1 :: h2 :: 58 :: m1 :: m2 :: t =>
      '(hr, _) ← getnum true [h1; h2]; '(mm, _) ← getnum true [m1; m2];
      if (24 <? hr) || (60 <? mm) then None
      else if s =? 43 then Some ((hr * 60 + mm) * 60, t)
      else if s =? 45 then Some (- ((hr * 60 + mm) * 60), t)
      else None
  | _ => None
  end.

(** Days from January 1st of year 1 to January 1st of [y], and to the first of month [m] within a year. *)
Definition days_before_year (y : Z) : Z := 365 * (y - 1) + (y - 1) / 4 - (y - 1) / 100 + (y - 1) / 400.
Definition days_before_month (leap : bool) (m : Z) : Z :=
  foldr Z.add 0 (take (Z.to_nat (m - 1)) (month_lengths leap)).
Definition daysIn (leap : bool) (m : Z) : Z := default 0 (month_lengths leap !! Z.to_nat (m - 1)).
(** [time.Date(y, m, d, hour, min, sec, nsec, zone)] *)
Definition Date (y m d hour minute second nsec offset : Z) : Time :=
  (((days_before_year y + days_before_month (is_leap y) m + (d - 1)) * 86400
    + hour * 3600 + minute * 60 + second) - offset) * Second + nsec.

Definition parse_bytes (l : list Z) : option Time :=
  '(y, l) ← get_year l; l ← skip 45 l;
  '(mo, l) ← getnum true l; if (mo <=? 0) || (12 <? mo) then None else
  l ← skip 45 l; '(d, l) ← getnum true l; l ← skip 84 l;
  '(h, l) ← getnum false l; if 24 <=? h then None else
  l ← skip 58 l; '(mi, l) ← getnum true l; if 60 <=? mi then None else
  l ← skip 58 l; '(s, l) ← getnum true l; if 60 <=? s then None else
  let '(ns, l) := get_fraction l in
  '(off, l) ← get_zone l;
  if negb (bool_decide (l = [])) then None
  else if (d <? 1) || (daysIn (is_leap y) mo <? d) then None
  else Some (Date y mo d h mi s ns off).
Definition parse_rfc3339 (s : string) : option Time := parse_bytes (bytes_of s).

Example parse_utc : parse_rfc3339 "2026-08-21T08:44:05.25Z" = Some (63922898645 * Second + 250 * Millisecond).
Proof. vm_compute. reflexivity. Qed.
Example parse_offset : parse_rfc3339 "2026-08-21T11:44:05+03:00" = parse_rfc3339 "2026-08-21T8:44:05Z".
Proof. vm_compute. reflexivity. Qed.
Example parse_no_feb_29 : parse_rfc3339 "2025-02-29T00:00:00Z" = None.
Proof. vm_compute. reflexivity. Qed.
Example parse_empty : parse_rfc3339 "" = None.
Proof. vm_compute. reflexivity. Qed.

(** ** The calendar inverts *)
Fixpoint all_from (p : Z → bool) (n : nat) (z : Z) : bool :=
  match n with O => true | S n' => p z && all_from p n' (z + 1) end.
Lemma all_from_spec p n : ∀ z x, all_from p n z = true → z <= x < z + Z.of_nat n → p x = true.
Proof.
  induction n as [|n IH]; intros z x Ha Hx; [lia|]. simpl in Ha. apply andb_true_iff in Ha as [Hz Ha].
  destruct (decide (x = z)) as [->|]; [done|]. apply (IH (z + 1)); [done|lia].
Qed.

#[local] Ltac divmod := Z.div_mod_to_equations; lia.
(** Year [100 a + 4 b + c + 1] of a cycle of 400. *)
Lemma days_before_year_digits a b c : 0 <= a <= 3 → 0 <= b <= 24 → 0 <= c <= 3 →
  days_before_year (100 * a + 4 * b + c + 1) = 36524 * a + 1461 * b + 365 * c.
Proof.
  intros Ha Hb Hc. unfold days_before_year. replace (100 * a + 4 * b + c + 1 - 1) with (100 * a + 4 * b + c) by lia.
  assert ((100 * a + 4 * b + c) / 4 = 25 * a + b) as -> by divmod.
  assert ((100 * a + 4 * b + c) / 100 = a) as -> by divmod.
  assert ((100 * a + 4 * b + c) / 400 = 0) as -> by divmod. lia.
Qed.
Lemma is_leap_digits a b : 0 <= a <= 3 → 0 <= b <= 24 → (b = 24 → a = 3) → is_leap (100 * a + 4 * b + 3 + 1) = true.
Proof.
  intros Ha Hb Hab. unfold is_leap.
  assert ((100 * a + 4 * b + 3 + 1) mod 4 = 0) as -> by divmod.
  destruct (decide (b = 24)) as [->|].
  - rewrite (Hab eq_refl). done.
  - assert ((100 * a + 4 * b + 3 + 1) mod 100 = 4 * b + 4) as -> by divmod.
    by rewrite (proj2 (Z.eqb_neq (4 * b + 4) 0)) by lia.
Qed.
Lemma year_yday_cycle r y yd : 0 <= r < days_400 → year_yday r = (y, yd) →
  days_before_year y + yd = r ∧ 0 <= yd < 365 + Z.b2z (is_leap y).
Proof.
  unfold days_400, year_yday. intros Hr. rewrite Z.div_small, Z.mod_small by done.
  set (a := Z.min (r / 36524) 3). set (r1 := r - 36524 * a). set (b := r1 / 1461).
  set (r2 := r1 mod 1461). set (c := Z.min (r2 / 365) 3). intros [= <- <-].
  assert (0 <= a <= 3 ∧ 0 <= r1 ∧ (r1 <= 36523 ∨ a = 3 ∧ r1 <= 36524)) as (Ha & Hr1 & Hr1') by (subst a r1; divmod).
  assert (0 <= b <= 24 ∧ r1 = 1461 * b + r2 ∧ 0 <= r2 < 1461) as (Hb & Hr2 & Hr2') by (subst b r2; divmod).
  assert (0 <= c <= 3 ∧ 365 * c <= r2 ∧ (r2 < 365 * c + 365 ∨ c = 3 ∧ r2 <= 1460)) as (Hc & Hr3 & Hr3') by (subst c; divmod).
  replace (400 * 0 + 100 * a + 4 * b + c + 1) with (100 * a + 4 * b + c + 1) by lia.
  rewrite days_before_year_digits by done. split; [lia|]. split; [lia|].
  destruct Hr3' as [?|[-> Hr4]]; [destruct (is_leap _); simpl; lia|].
  destruct (decide (r2 = 1460)); [|destruct (is_leap _); simpl; lia].
  rewrite is_leap_digits; simpl; lia.
Qed.

Lemma year_yday_shift d q : year_yday (d + days_400 * q) = ((year_yday d).1 + 400 * q, (year_yday d).2).
Proof.
  unfold year_yday. rewrite (Z.mul_comm days_400 q), Z.div_add, Z.mod_add by done.
  cbv zeta. f_equal. cbn [fst snd]. lia.
Qed.
Lemma is_leap_shift y q : is_leap (y + 400 * q) = is_leap y.
Proof.
  unfold is_leap. replace ((y + 400 * q) mod 4) with (y mod 4).
  2:{ replace (y + 400 * q) with (y + 100 * q * 4) by lia. by rewrite Z.mod_add. }
  replace ((y + 400 * q) mod 100) with (y mod 100).
  2:{ replace (y + 400 * q) with (y + 4 * q * 100) by lia. by rewrite Z.mod_add. }
  replace (y + 400 * q) with (y + q * 400) by lia. by rewrite Z.mod_add.
Qed.
Lemma days_before_year_shift y q : days_before_year (y + 400 * q) = days_before_year y + days_400 * q.
Proof.
  unfold days_before_year, days_400.
  replace (y + 400 * q - 1) with (y - 1 + 100 * q * 4) at 2 by lia.
  replace (y + 400 * q - 1) with (y - 1 + 4 * q * 100) at 2 by lia.
  replace (y + 400 * q - 1) with (y - 1 + q * 400) at 2 by lia.
  rewrite !Z.div_add by done. lia.
Qed.

Lemma year_yday_inv d y yd : year_yday d = (y, yd) →
  days_before_year y + yd = d ∧ 0 <= yd < 365 + Z.b2z (is_leap y).
Proof.
  intros Hy. pose proof (Z.div_mod d days_400 ltac:(done)) as Hd.
  pose proof (Z.mod_pos_bound d days_400 ltac:(done)) as Hr.
  rewrite Hd, Z.add_comm, year_yday_shift in Hy.
  destruct (year_yday (d mod days_400)) as [y0 yd0] eqn:E. simplify_eq/=.
  rewrite is_leap_shift, days_before_year_shift. destruct (year_yday_cycle _ _ _ Hr E). lia.
Qed.

Definition month_ok (leap : bool) (yd : Z) : bool :=
  let '(m, d) := month_day (month_lengths leap) 1 yd in
  (1 <=? m) && (m <=? 12) && (1 <=? d) && (d <=? daysIn leap m) && (days_before_month leap m + (d - 1) =? yd).
Lemma months_ok leap : all_from (month_ok leap) (Z.to_nat (365 + Z.b2z leap)) 0 = true.
Proof. destruct leap; vm_compute; reflexivity. Qed.

Lemma month_day_inv leap yd m d : month_day (month_lengths leap) 1 yd = (m, d) → 0 <= yd < 365 + Z.b2z leap →
  1 <= m <= 12 ∧ 1 <= d <= daysIn leap m ∧ days_before_month leap m + (d - 1) = yd.
Proof.
  intros Hm Hyd. pose proof (all_from_spec _ _ _ yd (months_ok leap) ltac:(lia)) as Hok.
  unfold month_ok in Hok. rewrite Hm in Hok. lia.
Qed.

(** ** What [Format] writes, [Parse] reads *)
Lemma bytes_of_digit n : 0 <= n < 10 → bytes_of (digit n) = [48 + n].
Proof. intros Hn. unfold digit. simpl. by rewrite ord_chr by (unfold is_byte; lia). Qed.
Lemma bytes_of_digits2 z : 0 <= z < 100 → bytes_of (digits 2 z) = [48 + z / 10; 48 + z mod 10].
Proof.
  intros Hz. cbn [digits]. rewrite !bytes_of_app, !bytes_of_digit by divmod. cbn [bytes_of app].
  by rewrite (Z.mod_small (z / 10) 10) by divmod.
Qed.
Lemma isDigit_digit n : 0 <= n < 10 → isDigit (48 + n) = true.
Proof. unfold isDigit. lia. Qed.
Lemma getnum_digits2 fixed z l : 0 <= z < 100 → getnum fixed (bytes_of (digits 2 z) ++ l) = Some (z, l).
Proof.
  intros Hz. rewrite bytes_of_digits2 by done. cbn [getnum app]. rewrite !isDigit_digit by divmod.
  cbn [negb]. unfold num2. do 2 f_equal. divmod.
Qed.
Lemma get_year_digits4 y l : 0 <= y <= 9999 → get_year (bytes_of (digits 4 y) ++ l) = Some (y, l).
Proof.
  intros Hy. cbn [digits]. rewrite !bytes_of_app, !bytes_of_digit by divmod. cbn [bytes_of app get_year].
  rewrite !isDigit_digit by divmod. cbn [andb]. unfold num2. do 2 f_equal. divmod.
Qed.

Lemma skip_eq c l : skip c ([c] ++ l) = Some l.
Proof. simpl. by rewrite Z.eqb_refl. Qed.
Ltac parse_next := cbn [mbind option_bind]; rewrite ?skip_eq; cbn [mbind option_bind].
Lemma parse_fields y mo d h mi s :
  0 <= y <= 9999 → 1 <= mo <= 12 → 1 <= d <= daysIn (is_leap y) mo → d < 100 →
  0 <= h < 24 → 0 <= mi < 60 → 0 <= s < 60 →
  parse_rfc3339 (digits 4 y +:+ "-" +:+ digits 2 mo +:+ "-" +:+ digits 2 d +:+ "T" +:+
    digits 2 h +:+ ":" +:+ digits 2 mi +:+ ":" +:+ digits 2 s +:+ "" +:+ "Z") = Some (Date y mo d h mi s 0 0).
Proof.
  intros Hy Hmo Hd Hd' Hh Hmi Hs. unfold parse_rfc3339, parse_bytes. rewrite !bytes_of_app.
  change (bytes_of "-") with [45]. change (bytes_of "T") with [84]. change (bytes_of ":") with [58].
  rewrite get_year_digits4 by done. parse_next.
  rewrite getnum_digits2 by lia. parse_next.
  replace ((mo <=? 0) || (12 <? mo)) with false by lia. parse_next.
  rewrite getnum_digits2 by lia. parse_next.
  rewrite getnum_digits2 by lia. parse_next.
  replace (24 <=? h) with false by lia. parse_next.
  rewrite getnum_digits2 by lia. parse_next.
  replace (60 <=? mi) with false by lia. parse_next.
  rewrite getnum_digits2 by lia. parse_next.
  replace (60 <=? s) with false by lia. cbn.
  replace ((d <? 1) || (daysIn (is_leap y) mo <? d)) with false by lia. done.
Qed.

Lemma daysIn_bound leap m : daysIn leap m < 100.
Proof.
  unfold daysIn. destruct (month_lengths leap !! _) as [x|] eqn:E; [|done]. apply list_elem_of_lookup_2 in E.
  revert E. unfold month_lengths. rewrite !elem_of_cons, elem_of_nil. simpl. destruct leap; lia.
Qed.

(** The fields of an instant name that instant again, up to its nanoseconds. *)
Lemma Date_civil t : let c := civil_of t in
  Date (year c) (month c) (day c) (hour c) (minute c) (second c) (nano c) 0 = t ∧
  1 <= month c <= 12 ∧ 1 <= day c <= daysIn (is_leap (year c)) (month c) ∧
  0 <= hour c < 24 ∧ 0 <= minute c < 60 ∧ 0 <= second c < 60.
Proof.
  unfold civil_of. destruct (year_yday (t / Second / 86400)) as [y yd] eqn:Ey.
  destruct (year_yday_inv _ _ _ Ey) as [Hy Hyd].
  destruct (month_day (month_lengths (is_leap y)) 1 yd) as [m d] eqn:Em.
  destruct (month_day_inv _ _ _ _ Em Hyd) as (Hm & Hd & Hmd). cbn [year month day hour minute second nano].
  split; [|split_and!; divmod].
  unfold Date. rewrite <-(Z.add_assoc (days_before_year y)), Hmd, Hy.
  assert (∀ s, s / 86400 * 86400 + s mod 86400 / 3600 * 3600 + s mod 86400 / 60 mod 60 * 60 + s mod 86400 mod 60 = s) as Hs.
  { intros s. divmod. }
  rewrite Hs. rewrite (Z.div_mod t Second) at 3 by done. lia.
Qed.

(** [time.Parse(time.RFC3339, t.UTC().Format(time.RFC3339))] is [t] to the second, for a year of four digits. *)
Lemma parse_format t :
  0 <= year (civil_of (Truncate t Second)) <= 9999 → parse_rfc3339 (rfc3339 t) = Some (Truncate t Second).
Proof.
  intros Hy. unfold rfc3339, rfc3339nano. destruct (Date_civil (Truncate t Second)) as (Ht & Hmo & Hd & Hh & Hmi & Hs).
  assert (nano (civil_of (Truncate t Second)) = 0) as Hn.
  { unfold civil_of. destruct (year_yday _) as [y yd]. destruct (month_day _ _ _) as [m d]. cbn [nano].
    unfold Truncate. cbn [Z.leb Second]. replace (Second <=? 0) with false by done. rewrite Zminus_mod_idemp_r, Z.sub_diag. done. }
  rewrite Hn in *. cbn [Z.eqb]. rewrite parse_fields; try done; [by rewrite Ht|].
  pose proof (daysIn_bound (is_leap (year (civil_of (Truncate t Second)))) (month (civil_of (Truncate t Second)))). lia.
Qed.

(** ** time.ParseDuration

    A sign and a sequence of decimal numbers with a unit each. The integer part is exact, the fraction is
    computed in float64; [None] is an error. *)
(** [uint64(f)] of a finite non-negative float: the fraction is cut off. *)
Definition float_trunc (f : float64) : Z :=
  match f with
  | S754_finite false m e => Z.shiftl (Z.pos m) e
  | _ => 0
  end.
Definition units : list (list Z * Duration) :=
  [(bytes_of "ns", 1); (bytes_of "us", Microsecond); ([194; 181; 115], Microsecond); ([206; 188; 115], Microsecond);
   (bytes_of "ms", Millisecond); (bytes_of "s", Second); (bytes_of "m", Minute); (bytes_of "h", Hour)].
(** [leadingInt]: [None] on overflow past 2^63 *)
Definition leadingInt (l : list Z) : option (Z * list Z) :=
  let '(ds, r) := span_digits l in
  v ← foldl (λ acc b, x ← acc; if 2 ^ 63 / 10 <? x then None else
                     let x := x * 10 + (b - 48) in if 2 ^ 63 <? x then None else Some x) (Some 0) ds;
  Some (v, r).
(** [leadingFraction]: the digits that fit, and the scale of the last one *)
Definition leadingFraction (ds : list Z) : Z * float64 :=
  let '(x, scale, _) := foldl (λ (acc : Z * float64 * bool) b, let '(x, scale, over) := acc in
    if over : bool then acc
    else if (2 ^ 63 - 1) / 10 <? x then (x, scale, true)
    else let y := x * 10 + (b - 48) in if 2 ^ 63 <? y then (x, scale, true) else (y, fmul scale (of_int 10), false))
    (0, of_int 1, false) ds in (x, scale).
Fixpoint span_unit (l : list Z) : list Z * list Z :=
  match l with
  | b :: l' => if (b =? 46) || isDigit b then ([], l) else let '(u, r) := span_unit l' in (b :: u, r)
  | [] => ([], [])
  end.
(** One number with its unit, in nanoseconds, and the rest *)
Definition duration_part (l : list Z) : option (Z * list Z) :=
  match l with
  | c :: _ =>
      if negb ((c =? 46) || isDigit c) then None
      else
        '(v, r) ← leadingInt l;
        let pre := negb (Nat.eqb (length r) (length l)) in
        let '(ds, r') := match r with 46 :: r' => span_digits r' | _ => ([], r) end in
        let post := negb (Nat.eqb (length ds) 0) in
        if negb pre && negb post then None
        else
          let '(u, rest) := span_unit r' in
          '(_, unit) ← snd <$> list_find (λ p, p.1 = u) units;
          if 2 ^ 63 / unit <? v then None
          else
            let '(f, scale) := leadingFraction ds in
            let v := v * unit + (if 0 <? f then float_trunc (fmul (of_int f) (fdiv (of_int unit) scale)) else 0) in
            if 2 ^ 63 <? v then None else Some (v, rest)
  | [] => None
  end.
Fixpoint duration_parts (fuel : nat) (l : list Z) (d : Z) : option Z :=
  match fuel, l with
  | _, [] => Some d
  | O, _ => None
  | S fuel, _ => '(v, rest) ← duration_part l; if 2 ^ 63 <? d + v then None else duration_parts fuel rest (d + v)
  end.
Definition ParseDuration (s : string) : option Duration :=
  let '(neg, l) := match bytes_of s with 45 :: l => (true, l) | 43 :: l => (false, l) | l => (false, l) end in
  match l with
  | [48] => Some 0
  | [] => None
  | _ => d ← duration_parts (length l) l 0;
         if neg : bool then Some (- d) else if 2 ^ 63 - 1 <? d then None else Some d
  end.

Example duration_minutes : ParseDuration "3m" = Some (3 * Minute) ∧ ParseDuration "1h15m30.5s" = Some (75 * Minute + 30500 * Millisecond).
Proof. vm_compute. split; reflexivity. Qed.
Example duration_edge : ParseDuration "-0.5us" = Some (-500) ∧ ParseDuration "9223372036854775808ns" = None ∧
  ParseDuration "-9223372036854775808ns" = Some min_int64 ∧ ParseDuration "1" = None ∧ ParseDuration "." = None ∧ ParseDuration "0" = Some 0.
Proof. vm_compute. split_and!; reflexivity. Qed.
