(* ===== verification/GoCodec.v ===== *)
(** * Text encodings and cryptography of the Go standard library

    base64 and base32 with their decoders, [strings.ToUpper], and the two cryptographic interfaces the
    services build on: an AEAD (crypto/cipher) and a signature scheme (crypto/ed25519), as records of
    their operations with the laws their documentation promises. *)
From S2P Require Import Prelude GoBytes GoText.

(** ** encoding/base64: StdEncoding and RawURLEncoding *)
Definition base64_digit (url : bool) (n : Z) : string :=
  String (chr (if n <? 26 then 65 + n else if n <? 52 then 71 + n else if n <? 62 then n - 4
               else if n =? 62 then (if url then 45 else 43) else (if url then 95 else 47))) EmptyString.
Fixpoint base64 (url : bool) (l : list Z) : string :=
  let d := base64_digit url in
  let pad := if url then "" else "=" in
  match l with
  | [] => ""
  | [a] => d (a / 4) +:+ d (a mod 4 * 16) +:+ pad +:+ pad
  | [a; b] => d (a / 4) +:+ d (a mod 4 * 16 + b / 16) +:+ d (b mod 16 * 4) +:+ pad
  | a :: b :: c :: l' => d (a / 4) +:+ d (a mod 4 * 16 + b / 16) +:+ d (b mod 16 * 4 + c / 64) +:+ d (c mod 64) +:+ base64 url l'
  end.
(** The decoder of StdEncoding: line breaks are skipped, the last quantum is padded. *)
Definition base64_value (c : Z) : option Z :=
  if (65 <=? c) && (c <=? 90) then Some (c - 65) else if (97 <=? c) && (c <=? 122) then Some (c - 71)
  else if (48 <=? c) && (c <=? 57) then Some (c + 4) else if c =? 43 then Some 62 else if c =? 47 then Some 63 else None.
Definition not_newline (c : Z) : Prop := c ≠ 10 ∧ c ≠ 13.
#[export] Instance not_newline_dec c : Decision (not_newline c).
Proof. apply _. Defined.
Fixpoint base64_quanta (l : list Z) : option (list Z) :=
  match l with
  | [] => Some []
  | w :: x :: y :: z :: l' =>
      w ← base64_value w; x ← base64_value x;
      if (z =? 61) && Nat.eqb (length l') 0 then
        if y =? 61 then Some [w * 4 + x / 16]
        else y ← base64_value y; Some [w * 4 + x / 16; x mod 16 * 16 + y / 4]
      else
        y ← base64_value y; z ← base64_value z; r ← base64_quanta l';
        Some ([w * 4 + x / 16; x mod 16 * 16 + y / 4; y mod 4 * 64 + z] ++ r)
  | _ => None
  end.
Definition base64_decode (s : string) : option (list Z) := base64_quanta (filter not_newline (bytes_of s)).

(** ** encoding/base32: StdEncoding without padding *)
Fixpoint base32_digits (l : list Z) : list Z :=
  match l with
  | [] => []
  | [a] => [a / 8; a mod 8 * 4]
  | [a; b] => [a / 8; a mod 8 * 4 + b / 64; b / 2 mod 32; b mod 2 * 16]
  | [a; b; c] => [a / 8; a mod 8 * 4 + b / 64; b / 2 mod 32; b mod 2 * 16 + c / 16; c mod 16 * 2]
  | [a; b; c; d] => [a / 8; a mod 8 * 4 + b / 64; b / 2 mod 32; b mod 2 * 16 + c / 16; c mod 16 * 2 + d / 128;
                     d / 4 mod 32; d mod 4 * 8]
  | a :: b :: c :: d :: e :: l' =>
      [a / 8; a mod 8 * 4 + b / 64; b / 2 mod 32; b mod 2 * 16 + c / 16; c mod 16 * 2 + d / 128;
       d / 4 mod 32; d mod 4 * 8 + e / 32; e mod 32] ++ base32_digits l'
  end.
Definition base32_char (n : Z) : Z := if n <? 26 then 65 + n else 24 + n.
Definition base32_encode (l : list Z) : string := string_of_bytes (base32_char <$> base32_digits l).
(** The decoder: a final group of one, three or six digits holds no byte of its own. *)
Definition base32_value (c : Z) : option Z :=
  if (65 <=? c) && (c <=? 90) then Some (c - 65) else if (50 <=? c) && (c <=? 55) then Some (c - 24) else None.
Fixpoint base32_undigits (l : list Z) : list Z :=
  match l with
  | [s; t] => [s * 8 + t / 4]
  | [s; t; u; v] => [s * 8 + t / 4; t mod 4 * 64 + u * 2 + v / 16]
  | [s; t; u; v; w] => [s * 8 + t / 4; t mod 4 * 64 + u * 2 + v / 16; v mod 16 * 16 + w / 2]
  | [s; t; u; v; w; x; y] => [s * 8 + t / 4; t mod 4 * 64 + u * 2 + v / 16; v mod 16 * 16 + w / 2;
                              w mod 2 * 128 + x * 4 + y / 8]
  | s :: t :: u :: v :: w :: x :: y :: z :: l' =>
      [s * 8 + t / 4; t mod 4 * 64 + u * 2 + v / 16; v mod 16 * 16 + w / 2; w mod 2 * 128 + x * 4 + y / 8;
       y mod 8 * 32 + z] ++ base32_undigits l'
  | _ => []
  end.
Definition base32_decode (s : string) : option (list Z) :=
  base32_undigits <$> mapM base32_value (filter not_newline (bytes_of s)).

(** ** strings.ToUpper and ToLower, as far as an ASCII result is concerned

    Upwards, beside a to z, U+0131 and U+017F map to ASCII letters; downwards, beside A to Z, U+0130 and
    U+212A do. Every other rune outside ASCII stays outside, and is left as it is here. *)
Fixpoint to_upper (l : list Z) : list Z :=
  match l with
  | 196 :: 177 :: l' => 73 :: to_upper l'
  | 197 :: 191 :: l' => 83 :: to_upper l'
  | b :: l' => (if (97 <=? b) && (b <=? 122) then b - 32 else b) :: to_upper l'
  | [] => []
  end.
Definition ToUpper (s : string) : string := string_of_bytes (to_upper (bytes_of s)).
Fixpoint to_lower (l : list Z) : list Z :=
  match l with
  | 196 :: 176 :: l' => 105 :: to_lower l'
  | 226 :: 132 :: 170 :: l' => 107 :: to_lower l'
  | b :: l' => (if (65 <=? b) && (b <=? 90) then b + 32 else b) :: to_lower l'
  | [] => []
  end.
Definition ToLower (s : string) : string := string_of_bytes (to_lower (bytes_of s)).

(** ** crypto/cipher.AEAD: sealing a plaintext under a nonce and associated data, and opening it *)
Record AEAD := {
  NonceSize : nat;
  aead_Seal : list Z → list Z → list Z → list Z;
  aead_Open : list Z → list Z → list Z → option (list Z) }.
(** [Open] reverses [Seal] under the same nonce and associated data. *)
Definition aead_correct (a : AEAD) : Prop := ∀ nonce plain ad,
  length nonce = NonceSize a → aead_Open a nonce (aead_Seal a nonce plain ad) ad = Some plain.

(** ** crypto/ed25519 *)
Record Ed25519 := {
  ed_NewKeyFromSeed : list Z → list Z;
  ed_Public : list Z → list Z;
  ed_Sign : list Z → list Z → list Z;
  ed_Verify : list Z → list Z → list Z → bool }.
(** Key and signature sizes, and that a signature verifies under the signer's public key. *)
Record ed_correct (e : Ed25519) : Prop := {
  ed_key_size : ∀ seed, length seed = 32%nat → length (ed_NewKeyFromSeed e seed) = 64%nat;
  ed_public_size : ∀ priv, length priv = 64%nat → length (ed_Public e priv) = 32%nat;
  ed_signature_size : ∀ priv msg, length (ed_Sign e priv msg) = 64%nat;
  ed_verifies : ∀ priv msg, length priv = 64%nat → ed_Verify e (ed_Public e priv) msg (ed_Sign e priv msg) = true
}.

Example base64_std : base64 false (bytes_of "any carnal pleas") = "YW55IGNhcm5hbCBwbGVhcw==".
Proof. vm_compute. reflexivity. Qed.
Example base64_url : base64 true [251; 255; 254; 63] = "-__-Pw".
Proof. vm_compute. reflexivity. Qed.
Example base64_back : base64_decode "YW55IGNhcm5hbCBwbGVhcw==" = Some (bytes_of "any carnal pleas").
Proof. vm_compute. reflexivity. Qed.
Example base32_std : base32_encode (bytes_of "fooba") = "MZXW6YTB" ∧ base32_encode (bytes_of "foob") = "MZXW6YQ".
Proof. vm_compute. split; reflexivity. Qed.

(** ** The decoders undo the encoders. *)
#[local] Ltac divmod := Z.div_mod_to_equations; lia.

Lemma base64_digit_value n : 0 <= n < 64 →
  ∃ c, bytes_of (base64_digit false n) = [c] ∧ base64_value c = Some n ∧ c ≠ 61 ∧ not_newline c.
Proof.
  intros Hn. unfold base64_digit. cbn [bytes_of]. eexists. split; [reflexivity|].
  rewrite ord_chr by (unfold is_byte; repeat case_match; lia). unfold base64_value, not_newline.
  repeat (match goal with |- context [?a <? ?b] => destruct (Z.ltb_spec a b)
          | |- context [?a <=? ?b] => destruct (Z.leb_spec a b)
          | |- context [?a =? ?b] => destruct (Z.eqb_spec a b) end; simpl); try lia; split_and!; try lia; f_equal; lia.
Qed.

(** Induction over the quanta *)
Lemma by_three {A} (P : list A → Prop) : P [] → (∀ a, P [a]) → (∀ a b, P [a; b]) →
  (∀ a b c l, P l → P (a :: b :: c :: l)) → ∀ l, P l.
Proof.
  intros H0 H1 H2 H3. refine (fix go l := match l with [] => H0 | [a] => H1 a | [a; b] => H2 a b
    | a :: b :: c :: l' => H3 a b c l' (go l') end).
Qed.
Lemma by_five {A} (P : list A → Prop) : P [] → (∀ a, P [a]) → (∀ a b, P [a; b]) → (∀ a b c, P [a; b; c]) →
  (∀ a b c d, P [a; b; c; d]) → (∀ a b c d e l, P l → P (a :: b :: c :: d :: e :: l)) → ∀ l, P l.
Proof.
  intros H0 H1 H2 H3 H4 H5. refine (fix go l := match l with [] => H0 | [a] => H1 a | [a; b] => H2 a b
    | [a; b; c] => H3 a b c | [a; b; c; d] => H4 a b c d | a :: b :: c :: d :: e :: l' => H5 a b c d e l' (go l') end).
Qed.

Lemma filter_not_newline c l : not_newline c → filter not_newline (c :: l) = c :: filter not_newline l.
Proof. intros H. by rewrite filter_cons_True. Qed.

#[local] Ltac bounded := repeat (match goal with H : Forall is_byte (_ :: _) |- _ => apply Forall_cons in H as [? H] end);
  unfold is_byte in *.
(** Replace the text of a digit by a character that decodes to it. *)
#[local] Ltac digit n :=
  let c := fresh "c" in let E := fresh in let V := fresh in
  destruct (base64_digit_value n) as (c & E & V & ? & ?); [divmod|]; rewrite ?E; clear E.
#[local] Ltac quantum := repeat (progress (cbn [app base64_quanta]; rewrite ?filter_not_newline by (assumption || done)));
  repeat match goal with V : base64_value ?c = Some _ |- context [base64_value ?c] => rewrite V; simpl end.

Lemma base64_decode_encode l : Forall is_byte l → base64_decode (base64 false l) = Some l.
Proof.
  unfold base64_decode. induction l as [|a|a b|a b c l IH] using by_three; intros Hl; bounded.
  - done.
  - cbn [base64]. rewrite !bytes_of_app. digit (a / 4). digit (a mod 4 * 16). change (bytes_of "=") with [61].
    quantum. repeat f_equal. divmod.
  - cbn [base64]. rewrite !bytes_of_app. digit (a / 4). digit (a mod 4 * 16 + b / 16). digit (b mod 16 * 4).
    change (bytes_of "=") with [61]. quantum. rewrite (proj2 (Z.eqb_neq _ _)) by done.
    repeat f_equal; divmod.
  - cbn [base64]. rewrite !bytes_of_app. digit (a / 4). digit (a mod 4 * 16 + b / 16). digit (b mod 16 * 4 + c / 64).
    digit (c mod 64). quantum. rewrite (proj2 (Z.eqb_neq _ _)) by done. simpl.
    repeat match goal with V : base64_value ?c = Some _ |- context [base64_value ?c] => rewrite V; simpl end.
    rewrite IH by done. simpl. repeat f_equal; divmod.
Qed.

(** A text of base32 digits comes back from its bytes, and survives a change of case both ways. *)
Lemma base32_char_value n : 0 <= n < 32 → base32_value (base32_char n) = Some n ∧ not_newline (base32_char n) ∧ is_byte (base32_char n).
Proof.
  intros Hn. unfold base32_char, base32_value, not_newline, is_byte.
  repeat (match goal with |- context [?a <? ?b] => destruct (Z.ltb_spec a b)
          | |- context [?a <=? ?b] => destruct (Z.leb_spec a b) end; simpl); try lia; split_and!; try lia; f_equal; lia.
Qed.

Lemma base32_digits_bound l : Forall is_byte l → Forall (λ d, 0 <= d < 32) (base32_digits l).
Proof.
  induction l as [|a|a b|a b c|a b c d|a b c d e l IH] using by_five; intros Hl; bounded; cbn [base32_digits app];
    repeat constructor; try divmod; auto.
Qed.

Lemma base32_undigits_digits l : Forall is_byte l → base32_undigits (base32_digits l) = l.
Proof.
  induction l as [|a|a b|a b c|a b c d|a b c d e l IH] using by_five; intros Hl; bounded;
    cbn [base32_digits base32_undigits app]; rewrite ?IH by done; repeat f_equal; try divmod; done.
Qed.

Lemma base32_values ds : Forall (λ d, 0 <= d < 32) ds →
  mapM base32_value (filter not_newline (base32_char <$> ds)) = Some ds.
Proof.
  induction 1 as [|d ds Hd _ IH]; [done|]. destruct (base32_char_value d Hd) as (Hv & Hn & _).
  cbn [fmap list_fmap]. rewrite filter_not_newline by done. simpl. by rewrite Hv, IH.
Qed.

Definition base32_text (s : string) : Prop := ∃ ds, Forall (λ d, 0 <= d < 32) ds ∧ s = string_of_bytes (base32_char <$> ds).
Lemma base32_encode_text l : Forall is_byte l → base32_text (base32_encode l).
Proof. intros Hl. exists (base32_digits l). split; [by apply base32_digits_bound|done]. Qed.

Lemma base32_chars_bytes ds : Forall (λ d, 0 <= d < 32) ds → Forall is_byte (base32_char <$> ds).
Proof. induction 1 as [|d ds Hd _ IH]; constructor; [|done]. by destruct (base32_char_value d Hd) as (_ & _ & ?). Qed.

Lemma base32_decode_encode l : Forall is_byte l → base32_decode (base32_encode l) = Some l.
Proof.
  intros Hl. pose proof (base32_digits_bound l Hl) as Hd. unfold base32_decode, base32_encode.
  rewrite bytes_of_string_of_bytes by by apply base32_chars_bytes. rewrite base32_values by done. simpl. by rewrite base32_undigits_digits.
Qed.

Lemma to_lower_ascii b l : 0 <= b < 128 → to_lower (b :: l) = (if (65 <=? b) && (b <=? 90) then b + 32 else b) :: to_lower l.
Proof. intros H. destruct b as [|p|p]; [done| |lia]. do 8 (destruct p as [p|p|]; try done; try lia). Qed.
Lemma to_upper_ascii b l : 0 <= b < 128 → to_upper (b :: l) = (if (97 <=? b) && (b <=? 122) then b - 32 else b) :: to_upper l.
Proof. intros H. destruct b as [|p|p]; [done| |lia]. do 8 (destruct p as [p|p|]; try done; try lia). Qed.

Definition base32_lower (n : Z) : Z := if n <? 26 then 97 + n else 24 + n.
Lemma to_lower_base32 ds : Forall (λ d, 0 <= d < 32) ds → to_lower (base32_char <$> ds) = base32_lower <$> ds.
Proof.
  induction 1 as [|d ds Hd _ IH]; [done|]. cbn [fmap list_fmap]. unfold base32_char at 1, base32_lower at 1.
  rewrite to_lower_ascii by (case_match; lia). f_equal; [|exact IH].
  destruct (Z.ltb_spec d 26); [rewrite (proj2 (Z.leb_le 65 _)), (proj2 (Z.leb_le _ 90)) by lia; simpl; lia|].
  rewrite (proj2 (Z.leb_gt 65 _)) by lia. done.
Qed.
Lemma to_upper_base32 ds : Forall (λ d, 0 <= d < 32) ds → to_upper (base32_lower <$> ds) = base32_char <$> ds.
Proof.
  induction 1 as [|d ds Hd _ IH]; [done|]. cbn [fmap list_fmap]. unfold base32_char at 1, base32_lower at 1.
  rewrite to_upper_ascii by (case_match; lia). f_equal; [|exact IH].
  destruct (Z.ltb_spec d 26); [rewrite (proj2 (Z.leb_le 97 _)), (proj2 (Z.leb_le _ 122)) by lia; simpl; lia|].
  rewrite (proj2 (Z.leb_gt 97 _)) by lia. done.
Qed.
Lemma base32_lower_bytes ds : Forall (λ d, 0 <= d < 32) ds → Forall is_byte (base32_lower <$> ds).
Proof. induction 1 as [|d ds Hd _ IH]; constructor; [|done]. unfold base32_lower, is_byte. case_match; lia. Qed.

Lemma ToLower_base32 ds : Forall (λ d, 0 <= d < 32) ds →
  ToLower (string_of_bytes (base32_char <$> ds)) = string_of_bytes (base32_lower <$> ds).
Proof. intros H. unfold ToLower. rewrite bytes_of_string_of_bytes by by apply base32_chars_bytes. by rewrite to_lower_base32. Qed.
Lemma ToUpper_base32 ds : Forall (λ d, 0 <= d < 32) ds →
  ToUpper (string_of_bytes (base32_lower <$> ds)) = string_of_bytes (base32_char <$> ds).
Proof. intros H. unfold ToUpper. rewrite bytes_of_string_of_bytes by by apply base32_lower_bytes. by rewrite to_upper_base32. Qed.
