(* ===== verification/GoTrace.v ===== *)
(** * Calls on an environment, recorded

    A component that acts on a world outside (services, files, a clock) is run on a state of that world and
    the trace of its calls so far; [emits] is a small logic of what a computation appends to the trace and
    returns, closed under the combinators of the monad. *)
From S2P Require Import Prelude.

Record Traced (E Ev : Type) := mkTraced { tw_env : E; tw_trace : list Ev }.
Arguments mkTraced {E Ev}. Arguments tw_env {E Ev}. Arguments tw_trace {E Ev}.
(** A call on the environment, recorded by [f] of its outcome *)
Definition call {E Ev A : Type} (f : result A → Ev) (m : M E A) : M (Traced E Ev) A := λ w,
  let '(r, e) := m (tw_env w) in (r, mkTraced e (tw_trace w ++ [f r])).
(** What is read from the environment without being recorded, a clock for example *)
Definition reading {E Ev X : Type} (g : E → X * E) : M (Traced E Ev) X := λ w,
  let '(x, e) := g (tw_env w) in (Ok x, mkTraced e (tw_trace w)).

Lemma bind_reading {E Ev X A} (g : E → X * E) (f : X → M (Traced E Ev) A) w :
  (reading g ≫= f) w = f (g (tw_env w)).1 (mkTraced (g (tw_env w)).2 (tw_trace w)).
Proof. unfold mbind, M_bind, reading. by destruct (g (tw_env w)). Qed.

Section logic.
Context {E Ev : Type}.
Abbreviation LM := (M (Traced E Ev)).

(** From any world, [m] appends a trace [t] and returns [r] such that [P t r]. *)
Definition emits {A} (m : LM A) (P : list Ev → result A → Prop) : Prop :=
  ∀ w, ∃ t, tw_trace (m w).2 = tw_trace w ++ t ∧ P t (m w).1.

Lemma emits_mono {A} (m : LM A) (P Q : list Ev → result A → Prop) :
  emits m P → (∀ t r, P t r → Q t r) → emits m Q.
Proof. intros Hm HPQ w. destruct (Hm w) as (t & Ht & HP). exists t. auto. Qed.
Lemma emits_ret {A} (a : A) : emits (mret a) (λ t r, t = [] ∧ r = Ok a).
Proof. intros w. exists []. by rewrite app_nil_r. Qed.
Lemma emits_fail {A} e : emits (fail e : LM A) (λ t r, t = [] ∧ r = Err e).
Proof. intros w. exists []. by rewrite app_nil_r. Qed.
Lemma emits_call {A} (f : result A → Ev) (m : M E A) : emits (call f m) (λ t r, t = [f r]).
Proof. intros w. unfold call. destruct (m (tw_env w)) as [r e]. by exists [f r]. Qed.
Lemma emits_bind {A B} (m : LM A) (f : A → LM B) P Q (R : list Ev → result B → Prop) :
  emits m P → (∀ a, emits (f a) (Q a)) →
  (∀ t e, P t (Err e) → R t (Err e)) → (∀ t1 t2 a r, P t1 (Ok a) → Q a t2 r → R (t1 ++ t2) r) →
  emits (m ≫= f) R.
Proof.
  intros Hm Hf HE HO w. destruct (Hm w) as (t1 & Ht1 & HP). unfold mbind, M_bind. destruct (m w) as [[a|e] w1]; simpl in *.
  - destruct (Hf a w1) as (t2 & Ht2 & HQ). exists (t1 ++ t2). rewrite Ht2, Ht1, app_assoc. split; [done|]. by eapply HO.
  - exists t1. auto.
Qed.
(** The same, with what the first call gave at hand for the rest. *)
Lemma emits_then {A B} (m : LM A) (f : A → LM B) P (R : list Ev → result B → Prop) :
  emits m P → (∀ t1 a, P t1 (Ok a) → emits (f a) (λ t2 r, R (t1 ++ t2) r)) → (∀ t e, P t (Err e) → R t (Err e)) →
  emits (m ≫= f) R.
Proof.
  intros Hm Hf HE w. destruct (Hm w) as (t1 & Ht1 & HP). unfold mbind, M_bind. destruct (m w) as [[a|e] w1]; simpl in *.
  - destruct (Hf t1 a HP w1) as (t2 & Ht2 & HR). exists (t1 ++ t2). by rewrite Ht2, Ht1, app_assoc.
  - exists t1. auto.
Qed.
Lemma emits_try {A} (m : LM A) P : emits m P → emits (try m) (λ t r, ∃ r0, r = Ok r0 ∧ P t r0).
Proof. intros Hm w. destruct (Hm w) as (t & Ht & HP). exists t. unfold try. destruct (m w). simpl in *. split; [done|by eexists]. Qed.
Lemma emits_ignore {A} (m : LM A) P : emits m P → emits (ignore m) (λ t r, r = Ok tt ∧ ∃ r0, P t r0).
Proof. intros Hm w. destruct (Hm w) as (t & Ht & HP). exists t. split; [done|]. split; [done|by eexists]. Qed.
Lemma emits_wrapping {A} msg (m : LM A) P : emits m P →
  emits (wrapping msg m) (λ t r, match r with Ok a => P t (Ok a) | Err _ => ∃ e, P t (Err e) end).
Proof.
  intros Hm w. destruct (Hm w) as (t & Ht & HP). exists t. unfold wrapping. destruct (m w) as [[a|e] w1]; simpl in *; [done|].
  split; [done|by eexists].
Qed.
Lemma emits_reading {A X} (g : E → X * E) (f : X → LM A) P : (∀ x, emits (f x) P) → emits (reading g ≫= f) P.
Proof. intros Hf w. unfold mbind, M_bind, reading. destruct (g (tw_env w)) as [x e]. apply (Hf x (mkTraced e (tw_trace w))). Qed.

(** Traces in which [J] holds of every event and the one just before it *)
Fixpoint chained (J : option Ev → Ev → Prop) (prev : option Ev) (t : list Ev) : Prop :=
  match t with [] => True | e :: t' => J prev e ∧ chained J (Some e) t' end.
Lemma chained_mono (J J' : option Ev → Ev → Prop) prev t : (∀ p e, J p e → J' p e) → chained J prev t → chained J' prev t.
Proof. intros HJ. revert prev. induction t as [|e t IH]; intros prev; [done|]. intros [? ?]. split; auto. Qed.
Lemma chained_start (J : option Ev → Ev → Prop) prev t : (∀ e, J None e → J prev e) → chained J None t → chained J prev t.
Proof. intros HJ. destruct t as [|e t]; [done|]. intros [? ?]. split; auto. Qed.
Lemma chained_app (J : option Ev → Ev → Prop) prev t1 t2 : (∀ p e, J None e → J p e) →
  chained J prev t1 → chained J None t2 → chained J prev (t1 ++ t2).
Proof.
  intros HJ. revert prev. induction t1 as [|e t1 IH]; intros prev; [intros _; by apply chained_start; auto|].
  intros [? ?] ?. split; auto.
Qed.

(** Traces all of whose events satisfy [p]: closed under sequencing. *)
Definition all_events {A} (p : Ev → Prop) : list Ev → result A → Prop := λ t _, Forall p t.
Lemma emits_all_bind {A B} (p : Ev → Prop) (m : LM A) (f : A → LM B) :
  emits m (all_events p) → (∀ a, emits (f a) (all_events p)) → emits (m ≫= f) (all_events p).
Proof.
  intros Hm Hf. apply (emits_bind m f _ _ _ Hm Hf); [done|]. intros t1 t2 a r H1 H2. by apply Forall_app.
Qed.
Lemma emits_all_ret {A} p (a : A) : emits (mret a) (all_events p).
Proof. eapply emits_mono; [apply emits_ret|]. intros t r [-> _]. constructor. Qed.
Lemma emits_all_fail {A} p e : emits (fail e : LM A) (all_events p).
Proof. eapply emits_mono; [apply emits_fail|]. intros t r [-> _]. constructor. Qed.
Lemma emits_all_call {A} (p : Ev → Prop) (f : result A → Ev) (m : M E A) : (∀ r, p (f r)) → emits (call f m) (all_events p).
Proof. intros Hp. eapply emits_mono; [apply emits_call|]. intros t r ->. by constructor. Qed.
Lemma emits_all_try {A} p (m : LM A) : emits m (all_events p) → emits (try m) (all_events p).
Proof. intros Hm. eapply emits_mono; [by apply emits_try|]. by intros t r (r0 & _ & ?). Qed.
Lemma emits_all_ignore {A} p (m : LM A) : emits m (all_events p) → emits (ignore m) (all_events p).
Proof. intros Hm. eapply emits_mono; [by apply emits_ignore|]. by intros t r (_ & r0 & ?). Qed.
Lemma emits_all_wrapping {A} p msg (m : LM A) : emits m (all_events p) → emits (wrapping msg m) (all_events p).
Proof. intros Hm. eapply emits_mono; [by apply emits_wrapping|]. intros t [] H; [done|by destruct H]. Qed.
End logic.

Create HintDb trace.
#[export] Hint Resolve emits_all_ret emits_all_fail emits_all_try emits_all_ignore emits_all_wrapping : trace.

