(* ===== verification/Contracts.v ===== *)
(** * Shared contracts (packages/contracts)

    The closed enums with their [Valid] methods, the entities the services exchange with their [Validate] methods, the
    revision digests of the node allow-lists, and the signals, probe verdicts and recommendations that telemetry deals
    in. A Go string enum is a string here: unvalidated values do flow through the services. A pointer field is an
    option. *)
From S2P Require Import Prelude GoBytes GoText GoFloat.

(** ** Enums (enums.go) *)
Abbreviation NodeStatus := string (only parsing).
Definition NodeStatusProvisioning : NodeStatus := "provisioning".
Definition NodeStatusActive : NodeStatus := "active".
Definition NodeStatusDegraded : NodeStatus := "degraded".
Definition NodeStatusBlocked : NodeStatus := "blocked".
Definition NodeStatusDraining : NodeStatus := "draining".
Definition NodeStatusRetired : NodeStatus := "retired".
Definition one_of (s : string) (l : list string) : bool := bool_decide (s ∈ l).
Definition NodeStatus_Valid (s : NodeStatus) : bool :=
  one_of s [NodeStatusProvisioning; NodeStatusActive; NodeStatusDegraded;
            NodeStatusBlocked; NodeStatusDraining; NodeStatusRetired].

Abbreviation NodeRole := string (only parsing).
Definition NodeRoleEntry : NodeRole := "entry".
Definition NodeRoleExit : NodeRole := "exit".
Definition NodeRoleCombined : NodeRole := "combined".
Definition NodeRole_Valid (r : NodeRole) : bool := one_of r [NodeRoleEntry; NodeRoleExit; NodeRoleCombined].

Abbreviation TransportType := string (only parsing).
Definition TransportVlessReality : TransportType := "vless-reality".
Definition TransportAmneziaWG : TransportType := "amneziawg".
Definition TransportHysteria2 : TransportType := "hysteria2".
Definition TransportShadowsocks2022 : TransportType := "shadowsocks-2022".
Definition TransportType_Valid (t : TransportType) : bool :=
  one_of t [TransportVlessReality; TransportAmneziaWG; TransportHysteria2; TransportShadowsocks2022].

Definition TransportVersionV1 : string := "v1".
Definition TransportVersion_Valid (v : string) : bool := bool_decide (v = TransportVersionV1).

Abbreviation UserStatus := string (only parsing).
Definition UserStatusActive : UserStatus := "active".
Definition UserStatusSuspended : UserStatus := "suspended".
Definition UserStatusExpired : UserStatus := "expired".
Definition UserStatusBanned : UserStatus := "banned".
Definition UserStatus_Valid (s : UserStatus) : bool :=
  one_of s [UserStatusActive; UserStatusSuspended; UserStatusExpired; UserStatusBanned].

Abbreviation SubscriptionStatus := string (only parsing).
Definition SubscriptionStatusTrialing : SubscriptionStatus := "trialing".
Definition SubscriptionStatusActive : SubscriptionStatus := "active".
Definition SubscriptionStatusPastDue : SubscriptionStatus := "past_due".
Definition SubscriptionStatusCanceled : SubscriptionStatus := "canceled".
Definition SubscriptionStatusExpired : SubscriptionStatus := "expired".
Definition SubscriptionStatus_Valid (s : SubscriptionStatus) : bool :=
  one_of s [SubscriptionStatusTrialing; SubscriptionStatusActive; SubscriptionStatusPastDue;
            SubscriptionStatusCanceled; SubscriptionStatusExpired].

Abbreviation SubscriptionPlan := string (only parsing).
Definition SubscriptionPlanBasic : SubscriptionPlan := "basic".
Definition SubscriptionPlanUnlimited : SubscriptionPlan := "unlimited".
Definition SubscriptionPlan_Valid (p : SubscriptionPlan) : bool :=
  one_of p [SubscriptionPlanBasic; SubscriptionPlanUnlimited].

(** ** Transports (transport.go) *)
Record VlessRealityParams := {
  vr_ServerNames : list string; vr_Dest : string; vr_PublicKey : string; vr_ShortIDs : list string;
  vr_Flow : string; vr_Fingerprint : string; vr_SpiderX : string }.
Record AmneziaWGParams := {
  awg_PublicKey : string; awg_MTU : Z; awg_Jc : Z; awg_Jmin : Z; awg_Jmax : Z; awg_S1 : Z; awg_S2 : Z;
  awg_H1 : Z; awg_H2 : Z; awg_H3 : Z; awg_H4 : Z }.
Record Hysteria2Params := {
  hy_Obfs : string; hy_ObfsPassword : string; hy_Password : string; hy_SNI : string;
  hy_UpMbps : Z; hy_DownMbps : Z; hy_Insecure : bool }.
Record Shadowsocks2022Params := { ss_Method : string; ss_PSK : string }.

Record Transport := {
  t_Tag : string; t_Type : TransportType; t_Version : string; t_Port : Z; t_Enabled : bool;
  t_Priority : Z;
  t_VlessReality : option VlessRealityParams;
  t_AmneziaWG : option AmneziaWGParams;
  t_Hysteria2 : option Hysteria2Params;
  t_Shadowsocks2022 : option Shadowsocks2022Params }.

Definition ErrTransportVariantMismatch : error :=
  Sentinel "contracts: transport variant does not match type".

Definition is_set {A} (o : option A) : bool := match o with Some _ => true | None => false end.

Definition Transport_Validate (t : Transport) : result unit :=
  if negb (TransportType_Valid (t_Type t)) then Err (Errorf "contracts: unknown transport type")
  else if negb (TransportVersion_Valid (t_Version t)) then Err (Errorf "contracts: unknown transport version")
  else
    let set := Z.b2z (is_set (t_VlessReality t)) + Z.b2z (is_set (t_AmneziaWG t))
               + Z.b2z (is_set (t_Hysteria2 t)) + Z.b2z (is_set (t_Shadowsocks2022 t)) in
    if negb (set =? 1) then Err ErrTransportVariantMismatch
    else
      let ok := bool_decide (t_Type t = TransportVlessReality) && is_set (t_VlessReality t)
             || bool_decide (t_Type t = TransportAmneziaWG) && is_set (t_AmneziaWG t)
             || bool_decide (t_Type t = TransportHysteria2) && is_set (t_Hysteria2 t)
             || bool_decide (t_Type t = TransportShadowsocks2022) && is_set (t_Shadowsocks2022 t) in
      if ok then Ok tt else Err ErrTransportVariantMismatch.

(** The distinct types among the enabled transports (reality_users.go). *)
Definition DistinctEnabledTransportTypes (ts : list Transport) : Z :=
  Z.of_nat (size (foldl (λ (seen : gset string) t, if t_Enabled t then {[t_Type t]} ∪ seen else seen) ∅ ts)).

(** ** Nodes (node.go) *)
Record Node := {
  n_ID : string; n_Role : NodeRole; n_Status : NodeStatus; n_EntryNodeID : option string;
  n_Provider : string; n_Cloud : string; n_Region : string; n_EntryIP : string;
  n_EphemeralEntryIP : bool; n_Transports : list Transport; n_CapacityUsers : Z;
  n_RotateAfter : option Time; n_CreatedAt : Time; n_ExpiresAt : option Time;
  n_Labels : gmap string string }.

Definition ptr_set (o : option string) : bool := match o with Some s => negb (bool_decide (s = "")) | None => false end.

Fixpoint validate_transports (ts : list Transport) : result unit :=
  match ts with
  | [] => Ok tt
  | t :: ts' => match Transport_Validate t with
                | Err e => Err (wrap_err "contracts: node transport" e)
                | Ok _ => validate_transports ts'
                end
  end.
Definition Node_Validate (n : Node) : result unit :=
  if bool_decide (n_ID n = "") then Err (Errorf "contracts: node id is required")
  else if negb (NodeRole_Valid (n_Role n)) then Err (Errorf "contracts: unknown node role")
  else if negb (NodeStatus_Valid (n_Status n)) then Err (Errorf "contracts: unknown node status")
  else if bool_decide (n_Role n = NodeRoleExit) && negb (ptr_set (n_EntryNodeID n))
  then Err (Errorf "contracts: exit node requires entry_node_id")
  else validate_transports (n_Transports n).

(** ** Users (user.go) *)
Record User := {
  u_ID : string; u_TelegramID : option Z; u_Email : option string; u_Status : UserStatus;
  u_RealityShortID : string; u_UUID : string; u_Hysteria2Password : string; u_PrivateKey : string;
  u_SubscriptionID : option string; u_DeviceLimit : Z; u_QuotaBytes : Z; u_UsedBytes : Z;
  u_CreatedAt : Time; u_UpdatedAt : Time }.

Definition User_Validate (u : User) : result unit :=
  if bool_decide (u_ID u = "") then Err (Errorf "contracts: user id is required")
  else if negb (UserStatus_Valid (u_Status u)) then Err (Errorf "contracts: unknown user status")
  else if bool_decide (u_RealityShortID u = "") then Err (Errorf "contracts: user requires a personal reality_short_id")
  else if bool_decide (u_UUID u = "") then Err (Errorf "contracts: user requires a personal uuid")
  else if u_DeviceLimit u <? 0 then Err (Errorf "contracts: user device_limit must be >= 0")
  else Ok tt.

(** ** Subscriptions (subscription.go) *)
Record Subscription := {
  s_ID : string; s_UserID : string; s_Plan : SubscriptionPlan; s_Status : SubscriptionStatus;
  s_Token : string; s_TrafficLimitBytes : Z; s_SpeedLimitMbps : Z; s_DeviceLimit : Z;
  s_GraceUntil : option Time; s_BillingRevision : Z; s_StartsAt : Time; s_ExpiresAt : option Time;
  s_CreatedAt : Time; s_UpdatedAt : Time }.

(** The zero value [contracts.Subscription{}] *)
Definition zero_subscription : Subscription := {|
  s_ID := ""; s_UserID := ""; s_Plan := ""; s_Status := ""; s_Token := ""; s_TrafficLimitBytes := 0;
  s_SpeedLimitMbps := 0; s_DeviceLimit := 0; s_GraceUntil := None; s_BillingRevision := 0;
  s_StartsAt := zero_time; s_ExpiresAt := None; s_CreatedAt := zero_time; s_UpdatedAt := zero_time |}.

Definition Subscription_Validate (s : Subscription) : result unit :=
  if bool_decide (s_ID s = "") then Err (Errorf "contracts: subscription id is required")
  else if bool_decide (s_UserID s = "") then Err (Errorf "contracts: subscription requires user_id")
  else if negb (SubscriptionPlan_Valid (s_Plan s)) then Err (Errorf "contracts: unknown subscription plan")
  else if negb (SubscriptionStatus_Valid (s_Status s)) then Err (Errorf "contracts: unknown subscription status")
  else if bool_decide (s_Token s = "") then Err (Errorf "contracts: subscription requires a token")
  else Ok tt.

Record SubscriptionPatch := { p_Status : option SubscriptionStatus; p_ExpiresAt : option Time }.
Definition SubscriptionPatch_Validate (p : SubscriptionPatch) : result unit :=
  match p_Status p with
  | Some s => if SubscriptionStatus_Valid s then Ok tt else Err (Errorf "contracts: unknown subscription status")
  | None => Ok tt
  end.
Definition SubscriptionPatch_IsZero (p : SubscriptionPatch) : bool :=
  negb (is_set (p_Status p)) && negb (is_set (p_ExpiresAt p)).

(** Grace is used consistently in admission and in subscription resolution (launch.go). *)
Definition AccessUntil (s : Subscription) : option Time :=
  match s_GraceUntil s with Some g => Some g | None => s_ExpiresAt s end.

(** ** Billing state (launch.go) *)
Record BillingState := {
  bs_Plan : SubscriptionPlan; bs_Revision : Z; bs_Status : SubscriptionStatus;
  bs_ExpiresAt : Time; bs_GraceUntil : Time }.

Definition BillingState_Validate (s : BillingState) : result unit :=
  if (negb (bool_decide (bs_Plan s = "")) && negb (SubscriptionPlan_Valid (bs_Plan s)))
     || (bs_Revision s <=? 0) || negb (SubscriptionStatus_Valid (bs_Status s))
     || IsZero (bs_ExpiresAt s) || Before (bs_GraceUntil s) (bs_ExpiresAt s)
  then Err (Errorf "contracts: valid revision, status, expiry and grace are required")
  else Ok tt.

(** [json.Marshal(BillingState)]: [plan] is omitempty; [None] when a time cannot be marshalled. *)
Definition BillingState_json (s : BillingState) : option string :=
  exp ← json_time (bs_ExpiresAt s); grace ← json_time (bs_GraceUntil s);
  Some (json_object ((if bool_decide (bs_Plan s = "") then [] else [json_field "plan" (json_string (bs_Plan s))]) ++
    [json_field "revision" (itoa (bs_Revision s)); json_field "status" (json_string (bs_Status s));
     json_field "expires_at" exp; json_field "grace_until" grace])).

(** ** Allow-lists (launch.go, reality_users.go) *)
Record AccessUser := { au_UUID : string; au_ShortID : string; au_Hysteria2Password : string }.
Record NodeAccessUsers := { nau_Revision : string; nau_ValidUntil : Time; nau_Users : list AccessUser }.
Record RealityUser := { ru_UUID : string; ru_ShortID : string }.

#[export] Instance AccessUser_eq_dec : EqDecision AccessUser.
Proof. solve_decision. Defined.
#[export] Instance RealityUser_eq_dec : EqDecision RealityUser.
Proof. solve_decision. Defined.

(** Go's [<] on strings: byte-wise lexicographic. *)
Fixpoint bytes_lt (a b : list Z) : bool :=
  match a, b with
  | _, [] => false
  | [], _ :: _ => true
  | x :: a', y :: b' => (x <? y) || (x =? y) && bytes_lt a' b'
  end.
Definition str_lt (a b : string) : bool := bytes_lt (bytes_of a) (bytes_of b).

(** [if a.f != b.f { return a.f < b.f }] followed by the next key *)
Definition AccessUser_less (a b : AccessUser) : bool :=
  if bool_decide (au_UUID a = au_UUID b) then
    if bool_decide (au_ShortID a = au_ShortID b) then str_lt (au_Hysteria2Password a) (au_Hysteria2Password b)
    else str_lt (au_ShortID a) (au_ShortID b)
  else str_lt (au_UUID a) (au_UUID b).
Definition AccessUser_json (u : AccessUser) : string :=
  json_object [json_field "uuid" (json_string (au_UUID u)); json_field "short_id" (json_string (au_ShortID u));
               json_field "hysteria2_password" (json_string (au_Hysteria2Password u))].
Definition AccessUsersRevision (users : list AccessUser) : string :=
  sha256_hex (bytes_of (json_array (AccessUser_json <$> sort_slice AccessUser_less users))).

Definition RealityUser_less (a b : RealityUser) : bool :=
  if bool_decide (ru_UUID a = ru_UUID b) then str_lt (ru_ShortID a) (ru_ShortID b)
  else str_lt (ru_UUID a) (ru_UUID b).
(** [write] in RealityUsersRevision: an 8-byte big-endian length, then the bytes. *)
Definition length_prefixed (s : string) : list Z := be_bytes 8 (Z.of_nat (String.length s)) ++ bytes_of s.
Definition RealityUser_bytes (u : RealityUser) : list Z :=
  length_prefixed (ru_UUID u) ++ length_prefixed (ru_ShortID u).
Definition RealityUsersPreimage (users : list RealityUser) : list Z :=
  mjoin (RealityUser_bytes <$> sort_slice RealityUser_less users).
Definition RealityUsersRevision (users : list RealityUser) : string := sha256_hex (RealityUsersPreimage users).

Definition ExitDataPlaneVerified : string := "exit_data_plane_verified".

(** ** String comparison is a strict total order *)
Lemma bytes_lt_asym a : ∀ b, bytes_lt a b = true → bytes_lt b a = false.
Proof.
  induction a as [|x a IH]; intros [|y b]; simpl; try done.
  rewrite orb_true_iff, andb_true_iff, orb_false_iff, andb_false_iff, !Z.ltb_lt, Z.ltb_ge, !Z.eqb_eq, Z.eqb_neq.
  intros [?|[-> ?]]; [split; [lia|left; lia]|split; [lia|right; by apply IH]].
Qed.

Lemma bytes_lt_negtrans a : ∀ b c, bytes_lt b a = false → bytes_lt c b = false → bytes_lt c a = false.
Proof.
  induction a as [|x a IH]; intros [|y b] [|z c]; simpl; try done.
  rewrite !orb_false_iff, !andb_false_iff, !Z.ltb_ge, !Z.eqb_neq.
  intros [? Hy] [? Hz]. split; [lia|].
  destruct (decide (z = x)) as [->|]; [|by left]. right.
  assert (y = x) as -> by lia. apply (IH b); naive_solver.
Qed.

Lemma bytes_lt_no_ties a : ∀ b, bytes_lt a b = false → bytes_lt b a = false → a = b.
Proof.
  induction a as [|x a IH]; intros [|y b]; simpl; try done.
  rewrite !orb_false_iff, !andb_false_iff, !Z.ltb_ge, !Z.eqb_neq.
  intros [? H1] [? H2]. assert (x = y) as -> by lia. f_equal. apply IH; naive_solver.
Qed.

Lemma str_lt_weak : strict_weak str_lt.
Proof.
  apply (strict_weak_map bytes_of bytes_lt). split; [apply bytes_lt_asym|intros x y z; apply bytes_lt_negtrans].
Qed.
Lemma str_lt_no_ties : no_ties str_lt.
Proof. intros x y H1 H2. by apply bytes_of_inj, bytes_lt_no_ties. Qed.

Lemma RealityUser_less_weak : strict_weak RealityUser_less.
Proof.
  apply (strict_weak_lex ru_UUID); [apply str_lt_weak|apply str_lt_no_ties|].
  apply (strict_weak_map ru_ShortID), str_lt_weak.
Qed.
Lemma RealityUser_less_no_ties : no_ties RealityUser_less.
Proof.
  intros [u1 s1] [u2 s2]. unfold RealityUser_less; simpl.
  repeat case_bool_decide; intros; simplify_eq; f_equal; try (by apply str_lt_no_ties);
    exfalso; by match goal with H : _ ≠ _ |- _ => apply H, str_lt_no_ties end.
Qed.

Lemma AccessUser_less_weak : strict_weak AccessUser_less.
Proof.
  apply (strict_weak_lex au_UUID); [apply str_lt_weak|apply str_lt_no_ties|].
  apply (strict_weak_lex au_ShortID); [apply str_lt_weak|apply str_lt_no_ties|].
  apply (strict_weak_map au_Hysteria2Password), str_lt_weak.
Qed.
Lemma AccessUser_less_no_ties : no_ties AccessUser_less.
Proof.
  intros [u1 s1 p1] [u2 s2 p2]. unfold AccessUser_less; simpl.
  repeat case_bool_decide; intros; simplify_eq; f_equal; try (by apply str_lt_no_ties);
    exfalso; by match goal with H : _ ≠ _ |- _ => apply H, str_lt_no_ties end.
Qed.
Lemma AccessUsersRevision_perm l1 l2 : l1 ≡ₚ l2 → AccessUsersRevision l1 = AccessUsersRevision l2.
Proof.
  intros Hp. unfold AccessUsersRevision. do 3 f_equal. f_equal. apply sort_slice_unique; [apply AccessUser_less_weak| |done].
  intros x y _ _ H1 H2. by apply AccessUser_less_no_ties.
Qed.

(** ** The allow-list revision changes exactly when the set does *)
Definition fits (s : string) : Prop := Z.of_nat (String.length s) < 2 ^ 64.
Definition RealityUser_fits (u : RealityUser) : Prop := fits (ru_UUID u) ∧ fits (ru_ShortID u).

Lemma length_prefixed_inj s1 s2 r1 r2 :
  fits s1 → fits s2 → length_prefixed s1 ++ r1 = length_prefixed s2 ++ r2 → s1 = s2 ∧ r1 = r2.
Proof.
  unfold fits, length_prefixed. intros H1 H2 H. rewrite <-!app_assoc in H.
  apply app_inj_1 in H as [Hl Hr]; [|by rewrite !length_be_bytes].
  apply be_bytes_inj in Hl; [|lia|lia]. apply Nat2Z.inj in Hl.
  apply app_inj_1 in Hr as [Hb ->]; [|by rewrite !length_bytes_of].
  split; [by apply bytes_of_inj|done].
Qed.

Lemma RealityUser_bytes_inj u1 u2 r1 r2 :
  RealityUser_fits u1 → RealityUser_fits u2 →
  RealityUser_bytes u1 ++ r1 = RealityUser_bytes u2 ++ r2 → u1 = u2 ∧ r1 = r2.
Proof.
  intros [Hu1 Hs1] [Hu2 Hs2] H. unfold RealityUser_bytes in H. rewrite <-!app_assoc in H.
  apply length_prefixed_inj in H as [? Hr]; [|done..].
  apply length_prefixed_inj in Hr as [? ->]; [|done..].
  destruct u1, u2; simpl in *; by subst.
Qed.

Lemma RealityUsers_bytes_inj l1 : ∀ l2,
  Forall RealityUser_fits l1 → Forall RealityUser_fits l2 →
  mjoin (RealityUser_bytes <$> l1) = mjoin (RealityUser_bytes <$> l2) → l1 = l2.
Proof.
  induction l1 as [|u1 l1 IH]; intros [|u2 l2] H1 H2 H; [done|discriminate H..|].
  inversion_clear H1; inversion_clear H2. cbn [fmap list_fmap mjoin list_join] in H.
  apply RealityUser_bytes_inj in H as [-> Hr]; [|done..]. f_equal. by apply IH.
Qed.

Lemma RealityUsersPreimage_perm l1 l2 : l1 ≡ₚ l2 → RealityUsersPreimage l1 = RealityUsersPreimage l2.
Proof.
  intros Hp. unfold RealityUsersPreimage. f_equal. f_equal.
  apply sort_slice_unique; [apply RealityUser_less_weak| |done].
  intros x y _ _ H1 H2. by apply RealityUser_less_no_ties.
Qed.

(** The node allow-list revision is a function of the set of (uuid, short id) pairs, in any
    order, and any addition, removal or rotation changes it, unless SHA-256 collides on the two
    encodings: the length prefixes rule out every field-boundary ambiguity. *)
Theorem RealityUsersRevision_iff l1 l2 :
  Forall RealityUser_fits l1 → Forall RealityUser_fits l2 →
  no_collision (RealityUsersPreimage l1) (RealityUsersPreimage l2) →
  RealityUsersRevision l1 = RealityUsersRevision l2 ↔ l1 ≡ₚ l2.
Proof.
  intros H1 H2 Hnc. split.
  - intros H. apply sha256_hex_inj, Hnc, RealityUsers_bytes_inj in H.
    + by rewrite <-(sort_slice_perm RealityUser_less l1), H, sort_slice_perm.
    + by rewrite sort_slice_perm.
    + by rewrite sort_slice_perm.
  - intros Hp. unfold RealityUsersRevision. by rewrite (RealityUsersPreimage_perm l1 l2 Hp).
Qed.

Lemma RealityUsersRevision_iff_witness :
  let a := {| ru_UUID := "ab"; ru_ShortID := "c" |} in
  let b := {| ru_UUID := "a"; ru_ShortID := "bc" |} in
  RealityUsersRevision [a; b] = RealityUsersRevision [b; a] ↔ [a; b] ≡ₚ [b; a].
Proof.
  intros a b. apply RealityUsersRevision_iff.
  - repeat constructor.
  - repeat constructor.
  - intros _. vm_compute. reflexivity.
Defined.

(** ** Signals, probe verdicts and recommendations (packages/contracts: signal.go, recommendation.go)

    What clients report, what the orchestrator's own probes say, and the payload in which telemetry
    tells the orchestrator about blocked nodes; with the enums of enums.go they use. *)
(** ** Enums *)
Definition SignalOK : string := "ok".
Definition SignalReset : string := "reset".
Definition SignalTimeout : string := "timeout".
Definition SignalDPIBlock : string := "dpi_block".
Definition SignalActiveProbe : string := "probe".
Definition SignalThrottle : string := "throttle".
Definition SignalDNSPoison : string := "dns_poison".
Definition SignalHandshakeFail : string := "handshake_fail".
Definition SignalType_Valid (t : string) : bool :=
  one_of t [SignalOK; SignalReset; SignalTimeout; SignalDPIBlock; SignalActiveProbe; SignalThrottle;
            SignalDNSPoison; SignalHandshakeFail].

Definition HealthHealthy : string := "healthy".
Definition HealthDegraded : string := "degraded".
Definition HealthBlocked : string := "blocked".
Definition HealthUnreachable : string := "unreachable".
Definition HealthStatus_Valid (s : string) : bool :=
  one_of s [HealthHealthy; HealthDegraded; HealthBlocked; HealthUnreachable].

Definition PlatformAndroid : string := "android".
Definition PlatformIOS : string := "ios".
Definition PlatformWindows : string := "windows".
Definition PlatformMacOS : string := "macos".
Definition PlatformLinux : string := "linux".
Definition DeliveryHTTPS : string := "https".
Definition DeliveryDoH : string := "doh".
Definition DeliveryTelegram : string := "telegram".
Definition DeliveryGitHubRaw : string := "github_raw".
Definition DeliveryDNSTXT : string := "dns_txt".
Definition DeliveryChannel_Valid (c : string) : bool :=
  one_of c [DeliveryHTTPS; DeliveryDoH; DeliveryTelegram; DeliveryGitHubRaw; DeliveryDNSTXT].
Definition NodeActivationEvidence_Valid (e : string) : bool := bool_decide (e = ExitDataPlaneVerified).
Definition Platform_Valid (p : string) : bool :=
  one_of p [PlatformAndroid; PlatformIOS; PlatformWindows; PlatformMacOS; PlatformLinux].

Definition RecommendationMarkNodeBlocked : string := "mark_node_blocked".
Definition RecommendationPrioritizeTransport : string := "prioritize_transport".
Definition RecommendationAction_Valid (a : string) : bool :=
  one_of a [RecommendationMarkNodeBlocked; RecommendationPrioritizeTransport].
Definition RecommendationAuthoritative : string := "authoritative".
Definition RecommendationCorroborated : string := "corroborated".
Definition RecommendationConfidence_Valid (c : string) : bool :=
  one_of c [RecommendationAuthoritative; RecommendationCorroborated].

(** ** signal.go *)
Record FieldSignal := {
  fs_SignalID : string; fs_NodeID : string; fs_TransportType : string; fs_TransportVersion : string;
  fs_Region : string; fs_ASN : Z; fs_ISP : string; fs_SignalType : string; fs_Success : bool; fs_RTTms : Z;
  fs_LossPct : float64; fs_ClientVersion : string; fs_Platform : string; fs_ObservedAt : Time }.
Definition FieldSignal_Validate (s : FieldSignal) : result unit :=
  if bool_decide (fs_SignalID s = "") then Err (Errorf "contracts: field signal requires signal_id")
  else if bool_decide (fs_NodeID s = "") then Err (Errorf "contracts: field signal requires node_id")
  else if negb (TransportType_Valid (fs_TransportType s)) then Err (Errorf "contracts: unknown transport type")
  else if negb (SignalType_Valid (fs_SignalType s)) then Err (Errorf "contracts: unknown signal type")
  else Ok tt.

Record HealthEvent := {
  he_NodeID : string; he_Status : string; he_ProbeSource : string; he_BlockedFromRegions : list string;
  he_LatencyMs : Z; he_Detail : string; he_ObservedAt : Time }.
Definition zero_health : HealthEvent := {|
  he_NodeID := ""; he_Status := ""; he_ProbeSource := ""; he_BlockedFromRegions := []; he_LatencyMs := 0;
  he_Detail := ""; he_ObservedAt := zero_time |}.
Definition HealthEvent_Validate (e : HealthEvent) : result unit :=
  if bool_decide (he_NodeID e = "") then Err (Errorf "contracts: health event requires node_id")
  else if negb (HealthStatus_Valid (he_Status e)) then Err (Errorf "contracts: unknown health status")
  else if bool_decide (he_ProbeSource e = "") then Err (Errorf "contracts: health event requires probe_source")
  else Ok tt.

(** ** recommendation.go *)
Record NodeBlock := {
  nb_Action : string; nb_NodeID : string; nb_Regions : list string; nb_Confidence : string; nb_Reason : string }.
Definition NodeBlock_Validate (b : NodeBlock) : result unit :=
  if negb (bool_decide (nb_Action b = RecommendationMarkNodeBlocked)) then Err (Errorf "contracts: node block requires action")
  else if bool_decide (nb_NodeID b = "") then Err (Errorf "contracts: node block requires node_id")
  else if Nat.eqb (length (nb_Regions b)) 0 then Err (Errorf "contracts: node block requires regions")
  else if negb (RecommendationConfidence_Valid (nb_Confidence b)) then Err (Errorf "contracts: unknown confidence")
  else Ok tt.

Record TransportRank := { tr_Transport : string; tr_Score : float64; tr_Dead : bool; tr_Sources : Z }.
Record RegionPriority := {
  rp_Action : string; rp_Region : string; rp_Recommended : string; rp_Ranked : list TransportRank; rp_Reason : string }.
Definition RegionPriority_Validate (p : RegionPriority) : result unit :=
  if negb (bool_decide (rp_Action p = RecommendationPrioritizeTransport)) then Err (Errorf "contracts: region priority requires action")
  else if bool_decide (rp_Region p = "") then Err (Errorf "contracts: region priority requires region")
  else if negb (bool_decide (rp_Recommended p = "")) && negb (TransportType_Valid (rp_Recommended p))
  then Err (Errorf "contracts: unknown recommended transport")
  else Ok tt.

Record Recommendations := {
  rc_GeneratedAt : Time; rc_WindowSeconds : Z; rc_NodeBlocks : list NodeBlock; rc_RegionPriorities : list RegionPriority }.
Definition zero_recommendations : Recommendations := {|
  rc_GeneratedAt := zero_time; rc_WindowSeconds := 0; rc_NodeBlocks := []; rc_RegionPriorities := [] |}.
