(* ===== verification/Sql.v ===== *)
(** * Postgres behind pgx

    A database is a value [D] of tables; a statement is a step [M D A] on it that leaves it unchanged when it
    fails. A [Session] adds the connection: every statement, BEGIN and COMMIT consumes one [fault] of the link,
    which is reliable once the list is used up. A lost call answers [ErrConn], and may have taken effect all the
    same; one the server aborts to keep transactions serializable answers [ErrSerialization]. [transaction] works
    on its own copy and keeps it only when its body succeeded and COMMIT took effect; transactions are serialized,
    as the row locks of the modelled ones (SELECT .. FOR UPDATE) serialize them. Texts are valid UTF-8 without NUL,
    and a JSONB column holds the value that was marshalled. *)
From Stdlib Require Import Floats.SpecFloat.
From S2P Require Import Prelude GoBytes GoText GoFloat Contracts.

(** What a server brings: the length of an interval of so many seconds, the order of its text columns (its
    collation), the order in which UPDATE .. RETURNING lists the rows, which SQL leaves open, and the texts it
    takes for a uuid, with the uuid it makes of each. *)
Class Postgres := {
  make_interval : float64 → Duration; text_lt : string → string → bool;
  returning : ∀ {A : Type}, list A → list A; returning_perm : ∀ {A : Type} (l : list A), returning l ≡ₚ l;
  uuid_in : string → option string; uuid_in_out : ∀ s u, uuid_in s = Some u → uuid_in u = Some u }.

(** One server: seconds rounded to the nearest microsecond, bytewise collation *)
Definition rint (x : float64) : Z :=
  match x with
  | S754_finite s m e =>
      let n := if 0 <=? e then Z.pos m * 2 ^ e
               else let (q, r) := Z.div_eucl (Z.pos m) (2 ^ (- e)) in
                    if 2 ^ (- e) <? 2 * r then q + 1 else if (2 * r =? 2 ^ (- e)) && Z.odd q then q + 1 else q in
      if s then - n else n
  | _ => 0
  end.
(** The canonical text of a uuid *)
Definition is_uuid (s : string) : bool :=
  let part n m := String.substring n m s in
  match hex_decode (join "" [part 0%nat 8%nat; part 9%nat 4%nat; part 14%nat 4%nat; part 19%nat 4%nat; part 24%nat 12%nat]) with
  | Some b => let bytes i n := hex_encode (take n (drop i b)) in
      bool_decide (length b = 16%nat) && bool_decide (s = join "-" [bytes 0 4; bytes 4 2; bytes 6 2; bytes 8 2; bytes 10 6]%nat)
  | None => false
  end.
Example uuids : is_uuid "00000000-0000-4000-8000-0123456789ab" = true ∧ is_uuid "u1" = false.
Proof. vm_compute. done. Qed.
Program Definition c_server : Postgres := {|
  make_interval := λ secs, rint (fmul secs (of_int 1000000)) * Microsecond; text_lt := str_lt;
  returning := λ _ l, l; returning_perm := λ _ l, reflexivity _; uuid_in := λ s, if is_uuid s then Some s else None |}.
Next Obligation. intros s u H. simpl in *. destruct (is_uuid s) eqn:Hs; [|done]. injection H as <-. by rewrite Hs. Qed.
Example half_a_minute : make_interval (Postgres := c_server) (Seconds (30 * Second + 500 * Millisecond)) = 30 * Second + 500 * Millisecond.
Proof. vm_compute. reflexivity. Qed.

Inductive fault := Runs | LostBefore | LostAfter | Aborted.
Record Session (D : Type) := mkSession { ss_db : D; ss_link : list fault }.
Arguments mkSession {D}. Arguments ss_db {D}. Arguments ss_link {D}.
Definition ErrConn : error := Sentinel "pgx: connection".
(** A [*pgconn.PgError] of a code, and the test for one: [errors.As(err, &pgErr) && pgErr.Code == code] *)
Definition PgError (code : string) : error := Sentinel ("pgconn.PgError: SQLSTATE " +:+ code).
Definition has_code (code : string) (e : error) : bool := errors_is e (PgError code).
Definition ErrUnique : error := PgError "23505".
Definition ErrForeignKey : error := PgError "23503".
Definition ErrCheck : error := PgError "23514".
Definition ErrSyntax : error := PgError "22P02".
Definition ErrSerialization : error := PgError "40001".
(** The link or the server gave up on a call. *)
Definition gave_up (e : error) : bool := errors_is e ErrConn || errors_is e ErrSerialization.
Definition lost {A} (r : result A) : Prop := match r with Err e => gave_up e = true | Ok _ => False end.
Definition fault_error (f : fault) : error := match f with Aborted => ErrSerialization | _ => ErrConn end.
Lemma lost_fault {A} f : lost (Err (fault_error f) : result A).
Proof. by destruct f. Qed.
Lemma gave_up_wrap msg e : gave_up e = true → gave_up (wrap_err msg e) = true.
Proof. unfold gave_up. cbn. rewrite !bool_decide_eq_false_2 by done. done. Qed.

(** A TIMESTAMPTZ column holds microseconds; pgx rounds down. *)
Definition timestamptz (t : Time) : Time := t - t mod Microsecond.
Lemma timestamptz_whole t : t mod Microsecond = 0 → timestamptz t = t.
Proof. unfold timestamptz. lia. Qed.

Section session.
Context {D : Type}.
Abbreviation SM := (M (Session D)).
(** The fate of the next call *)
Definition fate (s : Session D) : fault := default Runs (head (ss_link s)).
Definition after_call (s : Session D) (d : D) : Session D := mkSession d (tail (ss_link s)).

(** A statement on a pooled connection, its own transaction *)
Definition autocommit {A} (st : M D A) : SM A := λ s,
  let '(r, d) := st (ss_db s) in
  match fate s with
  | Runs => (r, after_call s d)
  | LostAfter => (Err ErrConn, after_call s d)
  | f => (Err (fault_error f), after_call s (ss_db s))
  end.
(** A statement inside a transaction *)
Definition in_tx {A} (st : M D A) : SM A := λ s,
  match fate s with
  | Runs => let '(r, d) := st (ss_db s) in (r, after_call s d)
  | f => (Err (fault_error f), after_call s (ss_db s))
  end.
(** The errors of BEGIN and of COMMIT go through [at_begin] and [at_commit]. *)
Definition transaction_with {A} (at_begin at_commit : error → error) (body : SM A) : SM A := λ s,
  match fate s with
  | Runs =>
      match body (after_call s (ss_db s)) with
      | (Err e, s1) => (Err e, mkSession (ss_db s) (ss_link s1))
      | (Ok a, s1) =>
          match fate s1 with
          | Runs => (Ok a, after_call s1 (ss_db s1))
          | LostAfter => (Err (at_commit ErrConn), after_call s1 (ss_db s1))
          | f => (Err (at_commit (fault_error f)), after_call s1 (ss_db s))
          end
      end
  | f => (Err (at_begin (fault_error f)), after_call s (ss_db s))
  end.
Definition transaction {A} : SM A → SM A := transaction_with id id.

(** ** Over a lossy link *)
(** What [p] does when the link is reliable *)
Definition steady {A} (p : SM A) (d : D) : result A * D :=
  let '(r, s) := p (mkSession d []) in (r, ss_db s).
(** [p] either answers that the connection was lost, having done all of its work or none of it, or does and
    answers what it does on a reliable link. *)
Definition all_or_nothing {A} (p : SM A) : Prop := ∀ d link,
  let '(r, s) := p (mkSession d link) in
  (lost r ∧ (ss_db s = d ∨ ss_db s = (steady p d).2)) ∨ (r, ss_db s) = steady p d.
(** Inside a transaction: what a lost call left does not matter, it is rolled back. *)
Record tx_ok {A} (p : SM A) : Prop := {
  tx_steady : ∀ d, ss_link (p (mkSession d [])).2 = [];
  tx_lossy : ∀ d link, let '(r, s) := p (mkSession d link) in lost r ∨ (r, ss_db s) = steady p d }.

Lemma steady_autocommit {A} (st : M D A) d : steady (autocommit st) d = st d.
Proof. unfold steady, autocommit. cbn. by destruct (st d). Qed.
Lemma steady_in_tx {A} (st : M D A) d : steady (in_tx st) d = st d.
Proof. unfold steady, in_tx. cbn. by destruct (st d). Qed.
Lemma steady_eq {A} (p : SM A) d : tx_ok p → p (mkSession d []) = ((steady p d).1, mkSession (steady p d).2 []).
Proof. intros [Hl _]. specialize (Hl d). unfold steady. destruct (p (mkSession d [])) as [r [d' l]]. cbn in *. by subst l. Qed.
Lemma steady_bind {A B} (p : SM A) (f : A → SM B) d : tx_ok p →
  steady (p ≫= f) d = match steady p d with (Ok a, d') => steady (f a) d' | (Err e, d') => (Err e, d') end.
Proof. intros Hp. unfold steady at 1, mbind, M_bind. rewrite (steady_eq p d Hp). by destruct (steady p d) as [[a|e] d']. Qed.
Lemma steady_in_tx_bind {A B} (st : M D A) (f : A → SM B) d :
  steady (in_tx st ≫= f) d = match st d with (Ok a, d') => steady (f a) d' | (Err e, d') => (Err e, d') end.
Proof. unfold steady at 1, mbind, M_bind, in_tx. cbn. by destruct (st d) as [[a|e] d']. Qed.
Lemma steady_transaction_with {A} f g (p : SM A) d : tx_ok p →
  steady (transaction_with f g p) d = match steady p d with (Ok a, d') => (Ok a, d') | (Err e, _) => (Err e, d) end.
Proof.
  intros Hp. unfold steady at 1, transaction_with. cbn [fate ss_link head default after_call tail ss_db].
  change (after_call (mkSession d []) d) with (mkSession d []). rewrite (steady_eq p d Hp). by destruct (steady p d) as [[a|e] d'].
Qed.
Lemma steady_transaction {A} (p : SM A) d : tx_ok p →
  steady (transaction p) d = match steady p d with (Ok a, d') => (Ok a, d') | (Err e, _) => (Err e, d) end.
Proof. apply steady_transaction_with. Qed.

Lemma all_or_nothing_autocommit {A} (st : M D A) : all_or_nothing (autocommit st).
Proof.
  intros d link. rewrite steady_autocommit. unfold autocommit. cbn [ss_db]. destruct (st d) as [r d'].
  destruct (fate _) eqn:Hf; cbn [ss_db after_call]; [by right|left; split; [done|by auto]..].
Qed.
Lemma tx_ok_in_tx {A} (st : M D A) : tx_ok (in_tx st).
Proof.
  split.
  - intros d. unfold in_tx. cbn. by destruct (st d).
  - intros d link. rewrite steady_in_tx. unfold in_tx. cbn [ss_db]. destruct (st d) as [r d']. destruct (fate _); cbn [ss_db after_call]; [by right|by left..].
Qed.
Lemma link_autocommit {A} (st : M D A) d : ss_link (autocommit st (mkSession d [])).2 = [].
Proof. unfold autocommit. cbn. by destruct (st d). Qed.
Lemma link_wrapping {A} msg (p : SM A) d : ss_link (p (mkSession d [])).2 = [] → ss_link (wrapping msg p (mkSession d [])).2 = [].
Proof. unfold wrapping. by destruct (p (mkSession d [])) as [[] ?]. Qed.
Lemma steady_auto_bind {A B} (st : M D A) (f : A → SM B) d :
  steady (autocommit st ≫= f) d = match st d with (Ok a, d') => steady (f a) d' | (Err e, d') => (Err e, d') end.
Proof. unfold steady at 1, mbind, M_bind, autocommit. cbn. by destruct (st d) as [[a|e] d']. Qed.
Lemma tx_ok_ret {A} (a : A) : tx_ok (mret a).
Proof. split; [done|]. intros d link. by right. Qed.
Lemma tx_ok_fail {A} e : tx_ok (fail e : SM A).
Proof. split; [done|]. intros d link. by right. Qed.
Lemma tx_ok_bind {A B} (p : SM A) (f : A → SM B) : tx_ok p → (∀ a, tx_ok (f a)) → tx_ok (p ≫= f).
Proof.
  intros Hp Hf. split.
  - intros d. unfold mbind, M_bind. rewrite (steady_eq p d Hp). destruct (steady p d) as [[a|e] d']; [|done]. apply Hf.
  - intros d link. rewrite (steady_bind p f d Hp). unfold mbind, M_bind. pose proof (tx_lossy p Hp d link) as H1.
    destruct (p (mkSession d link)) as [r s]. destruct H1 as [H1|H1]; [by destruct r; [|left]|]. rewrite <- H1.
    destruct r as [a|e]; [|by right]. destruct s as [d1 l1]. apply (Hf a).
Qed.
Lemma all_or_nothing_transaction_with {A} f g (p : SM A) :
  (∀ e, gave_up e = true → gave_up (f e) = true) → (∀ e, gave_up e = true → gave_up (g e) = true) →
  tx_ok p → all_or_nothing (transaction_with f g p).
Proof.
  intros Hf Hg Hp d link. rewrite (steady_transaction_with f g p d Hp). unfold transaction_with.
  destruct (fate _); [|left; split; [by apply Hf|by left]..].
  unfold after_call at 1. cbn [ss_db]. pose proof (tx_lossy p Hp d (tail link)) as H1.
  cbn [ss_link]. destruct (p (mkSession d (tail link))) as [r s]. destruct H1 as [H1|H1]; [destruct r; [done|]; left; auto|]. rewrite <- H1.
  destruct r as [a|e]; [|by right]. destruct (fate s); cbn [ss_db after_call]; [by right|left; split; [by apply Hg|by auto]..].
Qed.
Lemma all_or_nothing_transaction {A} (p : SM A) : tx_ok p → all_or_nothing (transaction p).
Proof. by apply all_or_nothing_transaction_with. Qed.
(** A call and then one that only reads *)
Lemma all_or_nothing_then {A B} (p : SM A) (f : A → SM B) :
  all_or_nothing p → (∀ d, ss_link (p (mkSession d [])).2 = []) → (∀ a, all_or_nothing (f a)) → (∀ a d, (steady (f a) d).2 = d) →
  all_or_nothing (p ≫= f).
Proof.
  intros Hp Hl Hf Hro d link. unfold steady, mbind, M_bind. pose proof (Hp d link) as H1. unfold steady in H1. specialize (Hl d).
  destruct (p (mkSession d link)) as [r [d1 l1]], (p (mkSession d [])) as [r0 [d0 l0]]. cbn in Hl, H1. subst l0.
  assert (Hd : ∀ a, (f a (mkSession d0 [])).2.(ss_db) = d0).
  { intros a. specialize (Hro a d0). unfold steady in Hro. by destruct (f a (mkSession d0 [])). }
  destruct H1 as [[Hlost H1]|[= -> ->]].
  - destruct r as [|e0]; [done|]. left. split; [done|]. destruct r0 as [a|e]; [|done]. specialize (Hd a). destruct (f a (mkSession d0 [])). cbn in *. by rewrite Hd.
  - destruct r0 as [a|e]; [|by right]. pose proof (Hf a d0 l1) as H2. unfold steady in H2. specialize (Hd a).
    destruct (f a (mkSession d0 l1)) as [r2 s2], (f a (mkSession d0 [])) as [r3 s3]. cbn in *. rewrite Hd in *.
    destruct H2 as [[? H2]|H2]; [left|by right]. split; [done|]. right. by destruct H2 as [->| ->].
Qed.
Lemma steady_wrapping {A} msg (p : SM A) d :
  steady (wrapping msg p) d = match steady p d with (Ok a, d') => (Ok a, d') | (Err e, d') => (Err (wrap_err msg e), d') end.
Proof. unfold steady, wrapping. by destruct (p (mkSession d [])) as [[a|e] s]. Qed.
Lemma steady_wrapping_bind {A B} msg (st : M D A) (f : A → SM B) d :
  steady (wrapping msg (autocommit st) ≫= f) d = match st d with (Ok a, d') => steady (f a) d' | (Err e, d') => (Err (wrap_err msg e), d') end.
Proof. unfold steady at 1, mbind, M_bind, wrapping, autocommit. cbn. by destruct (st d) as [[a|e] d']. Qed.
Lemma all_or_nothing_wrapping {A} msg (p : SM A) : all_or_nothing p → all_or_nothing (wrapping msg p).
Proof.
  intros Hp d link. rewrite steady_wrapping. pose proof (Hp d link) as H. unfold wrapping.
  destruct (p (mkSession d link)) as [[a|e] s]; destruct H as [[H1 H2]|H]; [done|by rewrite <- H; right| |by rewrite <- H; right].
  left. split; [by apply gave_up_wrap|]. by destruct (steady p d) as [[] ?].
Qed.
Lemma all_or_nothing_ret {A} (a : A) : all_or_nothing (mret a).
Proof. intros d link. by right. Qed.
Lemma all_or_nothing_fail {A} e : all_or_nothing (fail e : SM A).
Proof. intros d link. by right. Qed.
End session.

(** [if err != nil { return f(err) }] *)
Definition on_error {S A} (f : error → error) (m : M S A) : M S A := λ s,
  match m s with (Err e, s') => (Err (f e), s') | out => out end.
Definition ErrNoRows : error := Sentinel "no rows in result set".
Definition no_rows (e : error) : bool := errors_is e ErrNoRows.
Lemma errors_is_one e a b : errors_is e (Sentinel a) = true → errors_is e (Sentinel b) = true → a = b.
Proof.
  induction e as [x|m|m e IH|ty x y e IH]; cbn; rewrite ?orb_false_r; try (rewrite !bool_decide_eq_true; congruence);
    rewrite !bool_decide_eq_false_2 by done; done.
Qed.
Lemma gave_up_rows e : gave_up e = true → no_rows e = false.
Proof.
  intros He. destruct (no_rows e) eqn:Hn; [|done]. unfold no_rows, ErrNoRows in Hn. unfold gave_up, ErrConn, ErrSerialization, PgError in He.
  apply orb_true_iff in He as [He|He]; by pose proof (errors_is_one _ _ _ Hn He).
Qed.
Definition require {D} (b : bool) (e : error) : M D unit := if b then mret tt else fail e.
Section combinators.
Context {D : Type}.
Lemma steady_on_error {A} f (p : M (Session D) A) d :
  steady (on_error f p) d = match steady p d with (Err e, d') => (Err (f e), d') | out => out end.
Proof. unfold steady, on_error. by destruct (p (mkSession d [])) as [[a|e] s]. Qed.
Lemma all_or_nothing_on_error {A} f (p : M (Session D) A) : (∀ e, gave_up e = true → gave_up (f e) = true) → all_or_nothing p → all_or_nothing (on_error f p).
Proof.
  intros Hf Hp d link. rewrite steady_on_error. pose proof (Hp d link) as H. unfold on_error.
  destruct (p (mkSession d link)) as [[a|e] s]; destruct H as [[H1 H2]|H]; [done|by rewrite <-H; right| |by rewrite <-H; right].
  left. split; [by apply Hf|]. by destruct (steady p d) as [[] ?].
Qed.
Lemma tx_ok_on_error {A} f (p : M (Session D) A) : (∀ e, gave_up e = true → gave_up (f e) = true) → tx_ok p → tx_ok (on_error f p).
Proof.
  intros Hf [H1 H2]. split.
  - intros d. specialize (H1 d). unfold on_error. by destruct (p (mkSession d [])) as [[a|e] s].
  - intros d link. rewrite steady_on_error. specialize (H2 d link). unfold on_error.
    destruct (p (mkSession d link)) as [[a|e] s]; destruct H2 as [H2|H2]; [done|right; by rewrite <-H2|left; by apply Hf|right; by rewrite <-H2].
Qed.
Lemma tx_ok_wrapping {A} msg (p : M (Session D) A) : tx_ok p → tx_ok (wrapping msg p).
Proof. apply (tx_ok_on_error (wrap_err msg) p (gave_up_wrap msg)). Qed.
Lemma link_on_error {A} f (p : M (Session D) A) d : ss_link (p (mkSession d [])).2 = [] → ss_link (on_error f p (mkSession d [])).2 = [].
Proof. unfold on_error. by destruct (p (mkSession d [])) as [[] ?]. Qed.
Lemma steady_bind_link {A B} (p : M (Session D) A) (f : A → M (Session D) B) d : ss_link (p (mkSession d [])).2 = [] →
  steady (p ≫= f) d = match steady p d with (Ok a, d') => steady (f a) d' | (Err e, d') => (Err e, d') end.
Proof. unfold steady, mbind, M_bind. destruct (p (mkSession d [])) as [[a|e] [d' l]]; cbn; by intros ->. Qed.
End combinators.

(** The rows a WHERE selects, in scan order *)
Definition rows `{!MapOrder} {V} (p : string → V → bool) (t : gmap string V) : list (string * V) := filter (λ kv, p kv.1 kv.2 = true) (range t).
Lemma elem_of_rows `{!MapOrder} {V} (p : string → V → bool) (t : gmap string V) k v : (k, v) ∈ rows p t ↔ t !! k = Some v ∧ p k v = true.
Proof. unfold rows. rewrite list_elem_of_filter, elem_of_range. cbn. naive_solver. Qed.
(** UPDATE .. WHERE on one primary key, with the number of rows it changed *)
Definition update_key {D V} (on : (gmap string V → gmap string V) → D → D) (t : D → gmap string V)
    (key : string) (where_ : V → bool) (set : V → V) : M D Z := λ db,
  match t db !! key with
  | Some r => if where_ r then (Ok 1, on <[key := set r]> db) else (Ok 0, db)
  | None => (Ok 0, db)
  end.
(** What a call answers, in the vocabulary of all calls *)
Definition answering {S A B} (f : A → B) (m : M S A) : M S B := a ←! m ; mret (f a).
Lemma answering_state {S A B} (f : A → B) (m : M S A) s : (answering f m s).2 = (m s).2.
Proof. unfold answering, mbind, M_bind. by destruct (m s) as [[a|e] s']. Qed.
Lemma steady_answering {D A B} (f : A → B) (p : M (Session D) A) d :
  steady (answering f p) d = match steady p d with (Ok a, d') => (Ok (f a), d') | (Err e, d') => (Err e, d') end.
Proof. unfold steady, answering, mbind, M_bind. by destruct (p (mkSession d [])) as [[a|e] s]. Qed.
Lemma answering_all_or_nothing {D A B} (f : A → B) (p : M (Session D) A) : all_or_nothing p → all_or_nothing (answering f p).
Proof.
  intros Hp d link. unfold answering, steady, mbind, M_bind. pose proof (Hp d link) as H. unfold steady in H.
  destruct (p (mkSession d link)) as [[a|e] s], (p (mkSession d [])) as [[a0|e0] s0]; cbn in *;
    destruct H as [[H1 H]|H]; try discriminate H; try done; try (by left); injection H as -> ->; by right.
Qed.
Create HintDb sql.
#[export] Hint Resolve tx_ok_in_tx tx_ok_ret tx_ok_fail tx_ok_bind all_or_nothing_autocommit all_or_nothing_transaction : sql.
