(* ===== verification/GoUrl.v ===== *)
(** * net/url, encoding/json and the string functions around them

    Escaping of path segments, query components, paths and hosts, [url.PathUnescape], [url.Values.Encode],
    and the searching functions of package strings on the bytes of a string. *)
From S2P Require Import Prelude GoBytes GoText Contracts.

(** ** Escaping *)
Definition alphanumeric (b : Z) : bool :=
  ((97 <=? b) && (b <=? 122)) || ((65 <=? b) && (b <=? 90)) || ((48 <=? b) && (b <=? 57)).
Definition unreserved (b : Z) : bool := alphanumeric b || existsb (Z.eqb b) [45; 95; 46; 126].
Definition upper_hex (n : Z) : Z := if n <? 10 then 48 + n else 55 + n.
Definition percent (b : Z) : list Z := [37; upper_hex (b / 16); upper_hex (b mod 16)].
Definition escape (keep : Z → bool) (s : string) : string :=
  string_of_bytes (concat ((λ b, if keep b then [b] else percent b) <$> bytes_of s)).
(** [$ & + = : @] stay in a path segment, [, / ;] in a path as well. *)
Definition segment_char (b : Z) : bool := unreserved b || existsb (Z.eqb b) [36; 38; 43; 61; 58; 64].
Definition path_char (b : Z) : bool := segment_char b || existsb (Z.eqb b) [44; 47; 59].
(** The sub-delimiters, colon, brackets and double quote stay in a host. *)
Definition host_char (b : Z) : bool :=
  unreserved b || existsb (Z.eqb b) [33; 36; 38; 39; 40; 41; 42; 43; 44; 59; 61; 58; 91; 93; 60; 62; 34].
Definition PathEscape : string → string := escape segment_char.
Definition QueryEscape (s : string) : string :=
  string_of_bytes (concat ((λ b, if b =? 32 then [43] else if unreserved b then [b] else percent b) <$> bytes_of s)).

(** [url.PathUnescape]: [None] when a [%] is not followed by two hexadecimal digits *)
Fixpoint unescape_bytes (l : list Z) : option (list Z) :=
  match l with
  | [] => Some []
  | 37 :: h :: g :: l' => h ← hex_value (chr h); g ← hex_value (chr g); r ← unescape_bytes l'; Some (h * 16 + g :: r)
  | 37 :: _ => None
  | b :: l' => r ← unescape_bytes l'; Some (b :: r)
  end.
Definition PathUnescape (s : string) : option string := string_of_bytes <$> unescape_bytes (bytes_of s).

(** ** url.Values, each key set once: encoded in the order of the keys *)
Abbreviation Values := (gmap string string) (only parsing).
Definition sorted_entries {V} (m : gmap string V) : list (string * V) :=
  sort_slice (λ a b, str_lt a.1 b.1) (map_to_list m).
Definition Values_Encode (m : Values) : string :=
  join "&" ((λ kv, QueryEscape kv.1 +:+ "=" +:+ QueryEscape kv.2) <$> sorted_entries m).
(** [u.String()] of a URL with scheme, host and path *)
Definition URL_String (scheme host path : string) : string :=
  (if bool_decide (scheme = "") then "" else scheme +:+ ":") +:+
  (if bool_decide (scheme = "") && bool_decide (host = "") then "" else "//" +:+ escape host_char host) +:+ escape path_char path.

(** ** strings *)
Fixpoint contains_bytes (sub l : list Z) : bool :=
  starts_with sub l || match l with [] => false | _ :: l' => contains_bytes sub l' end.
Definition Contains (s sub : string) : bool := contains_bytes (bytes_of sub) (bytes_of s).
Definition HasSuffix (s suffix : string) : bool := starts_with (reverse (bytes_of suffix)) (reverse (bytes_of s)).
Definition TrimSuffix (s suffix : string) : string :=
  if HasSuffix s suffix then String.substring 0 (String.length s - String.length suffix) s else s.
(** [strings.TrimRight] of the slashes *)
Fixpoint drop_slashes (l : list Z) : list Z := match l with b :: l' => if b =? 47 then drop_slashes l' else l | [] => [] end.
Definition TrimRight_slash (s : string) : string := string_of_bytes (reverse (drop_slashes (reverse (bytes_of s)))).

(** At the first such byte: what is before it and what after *)
Fixpoint cut_byte (sep : Z) (seen l : list Z) : option (list Z * list Z) :=
  match l with [] => None | b :: l' => if b =? sep then Some (reverse seen, l') else cut_byte sep (b :: seen) l' end.
Definition Cut (s : string) (sep : Z) : option (string * string) :=
  '(before, after) ← cut_byte sep [] (bytes_of s); Some (string_of_bytes before, string_of_bytes after).
Lemma cut_byte_app sep l1 l2 : Forall (λ b, b ≠ sep) l1 → ∀ seen, cut_byte sep seen (l1 ++ sep :: l2) = Some (reverse seen ++ l1, l2).
Proof.
  induction 1 as [|b l1 Hb _ IH]; intros seen; simpl; [by rewrite Z.eqb_refl, app_nil_r|].
  rewrite (proj2 (Z.eqb_neq b sep)) by done. by rewrite IH, reverse_cons, <-app_assoc.
Qed.
Lemma Cut_app s t sep : ord sep ∉ bytes_of s → Cut (s +:+ String sep t) (ord sep) = Some (s, t).
Proof.
  intros Hs. unfold Cut. rewrite bytes_of_app. cbn [bytes_of]. rewrite cut_byte_app; [by cbn; rewrite !string_of_bytes_of|].
  apply Forall_forall. intros b Hb ->. done.
Qed.
(** At the last one *)
Definition LastCut (s : string) (sep : Z) : option (string * string) :=
  '(after, before) ← cut_byte sep [] (reverse (bytes_of s)); Some (string_of_bytes (reverse before), string_of_bytes (reverse after)).

Example escape_segment : PathEscape "a b/c+d%" = "a%20b%2Fc+d%25".
Proof. vm_compute. reflexivity. Qed.
Example escape_query : QueryEscape "a b/c+d~" = "a+b%2Fc%2Bd~".
Proof. vm_compute. reflexivity. Qed.
Example encode_values : Values_Encode (<["sni":="x.test"]> (<["fp":=""]> (<["pbk":="k="]> ∅))) = "fp=&pbk=k%3D&sni=x.test".
Proof. vm_compute. reflexivity. Qed.
Example unescape_twice : PathUnescape "%2525" = Some "%25" ∧ PathUnescape "a%2" = None.
Proof. vm_compute. split; reflexivity. Qed.
Example url_string : URL_String "https" "cdn.example.test:8443" "/sub/a b" = "https://cdn.example.test:8443/sub/a%20b".
Proof. vm_compute. reflexivity. Qed.
Example suffix : TrimSuffix "tok/nodes" "/nodes" = "tok" ∧ Contains "Happ/1.0" "app/" = true ∧ HasSuffix "x" "/nodes" = false.
Proof. vm_compute. split_and!; reflexivity. Qed.

Example cuts : Cut "a:b:c" 58 = Some ("a", "b:c") ∧ LastCut "a:b:c" 58 = Some ("a:b", "c") ∧ Cut "abc" 58 = None.
Proof. vm_compute. split_and!; reflexivity. Qed.

(** ** Unescaping undoes escaping. *)
Lemma hex_value_upper n : 0 <= n < 16 → hex_value (chr (upper_hex n)) = Some n.
Proof.
  intros H. assert (n ∈ seqZ 0 16) as Hin by (apply elem_of_seqZ; lia).
  clear H. revert n Hin. apply list.Forall_forall. apply (bool_decide_unpack _). vm_compute. exact I.
Qed.
Lemma unescape_keep b l : b ≠ 37 → unescape_bytes (b :: l) = (r ← unescape_bytes l; Some (b :: r)).
Proof. intros H. destruct b as [|p|p]; try done. do 7 (destruct p as [p|p|]; try done). Qed.
Lemma unescape_escape keep l : keep 37 = false → Forall is_byte l →
  unescape_bytes (concat ((λ b, if keep b then [b] else percent b) <$> l)) = Some l.
Proof.
  intros Hk. induction 1 as [|b l Hb _ IH]; [done|]. rewrite fmap_cons. cbn [concat]. destruct (keep b) eqn:E.
  - cbn [app]. rewrite unescape_keep by congruence. rewrite IH. done.
  - unfold percent at 1. cbn [app unescape_bytes]. unfold is_byte in Hb.
    rewrite !hex_value_upper by (Z.div_mod_to_equations; lia). cbn [mbind option_bind].
    rewrite IH. cbn [mbind option_bind].
    do 2 f_equal. Z.div_mod_to_equations; lia.
Qed.
Lemma escaped_bytes (keep : Z → bool) l :
  Forall is_byte l → Forall is_byte (concat ((λ b, if keep b then [b] else percent b) <$> l)).
Proof.
  induction 1 as [|b l Hb _ IH]; [constructor|]. rewrite fmap_cons. cbn [concat]. apply Forall_app_2; [|done].
  unfold is_byte in *. destruct (keep b); repeat constructor; unfold is_byte; unfold upper_hex; try case_match; Z.div_mod_to_equations; lia.
Qed.
Lemma PathUnescape_PathEscape s : PathUnescape (PathEscape s) = Some s.
Proof.
  unfold PathUnescape, PathEscape, escape. rewrite bytes_of_string_of_bytes by apply escaped_bytes, bytes_of_bound.
  rewrite unescape_escape by (done || apply bytes_of_bound). cbn. by rewrite string_of_bytes_of.
Qed.

(** ** Strings without a certain byte *)
Definition free (c : Z) (s : string) : Prop := c ∉ bytes_of s.
#[export] Instance free_dec c s : Decision (free c s).
Proof. unfold free. apply _. Defined.
Lemma free_app c s1 s2 : free c (s1 +:+ s2) ↔ free c s1 ∧ free c s2.
Proof. unfold free. rewrite bytes_of_app. apply not_elem_of_app. Qed.
Lemma free_app_2 c s1 s2 : free c s1 → free c s2 → free c (s1 +:+ s2).
Proof. rewrite free_app. auto. Qed.
Lemma free_empty c : free c "".
Proof. apply not_elem_of_nil. Qed.
Lemma free_char c a : c ≠ ord a → free c (String a EmptyString).
Proof. intros H. unfold free. cbn [bytes_of]. by rewrite list_elem_of_singleton. Qed.
Lemma free_of_bytes c l : Forall is_byte l → c ∉ l → free c (string_of_bytes l).
Proof. intros Hl Hc. unfold free. by rewrite bytes_of_string_of_bytes. Qed.
Lemma free_join c sep l : free c sep → Forall (free c) l → free c (join sep l).
Proof.
  intros Hs. induction 1 as [|x l Hx Hl IH]; [apply free_empty|]. destruct l as [|y l]; [done|].
  cbn [join]. by repeat apply free_app_2.
Qed.

(** A byte other than the percent sign, letters and digits survives an escaping only if it is kept. *)
Lemma percent_bytes b c : is_byte b → alphanumeric c = false → c ≠ 37 → c ∉ percent b.
Proof.
  intros Hb Hc Hne. unfold percent, is_byte in *. rewrite !not_elem_of_cons. split; [done|].
  assert (∀ n, 0 <= n < 16 → c ≠ upper_hex n) as H.
  { intros n Hn ->. unfold alphanumeric, upper_hex in Hc. destruct (Z.ltb_spec n 10); lia. }
  split; [apply H; Z.div_mod_to_equations; lia|]. split; [apply H; Z.div_mod_to_equations; lia|apply not_elem_of_nil].
Qed.
Lemma free_concat c (f : Z → list Z) s : (∀ b, is_byte b → (c ∉ f b) ∧ Forall is_byte (f b)) → free c (string_of_bytes (concat (f <$> bytes_of s))).
Proof.
  intros Hf. assert (Forall is_byte (bytes_of s)) as Hs by apply bytes_of_bound.
  assert (Forall is_byte (concat (f <$> bytes_of s)) ∧ c ∉ concat (f <$> bytes_of s)) as [? ?].
  { induction Hs as [|b l Hb _ [IH1 IH2]]; [split; [constructor|apply not_elem_of_nil]|]. rewrite fmap_cons. cbn [concat].
    destruct (Hf b Hb). split; [by apply Forall_app_2|by apply not_elem_of_app]. }
  by apply free_of_bytes.
Qed.
Lemma percent_are_bytes b : is_byte b → Forall is_byte (percent b).
Proof. intros Hb. pose proof (escaped_bytes (λ _, false) [b] ltac:(by constructor)) as H. cbn in H. exact H. Qed.
Lemma free_escape keep c s : keep c = false → alphanumeric c = false → c ≠ 37 → free c (escape keep s).
Proof.
  intros Hk Hc Hne. apply free_concat. intros b Hb. destruct (keep b) eqn:E.
  - split; [|by constructor]. rewrite list_elem_of_singleton. intros ->. congruence.
  - split; [by apply percent_bytes|by apply percent_are_bytes].
Qed.
Lemma free_QueryEscape c s : unreserved c = false → c ≠ 37 → c ≠ 43 → free c (QueryEscape s).
Proof.
  intros Hu H1 H2. apply free_concat. intros b Hb. destruct (b =? 32); [|destruct (unreserved b) eqn:E].
  - split; [by rewrite list_elem_of_singleton|by repeat constructor].
  - split; [rewrite list_elem_of_singleton; congruence|by constructor].
  - split; [|by apply percent_are_bytes]. apply percent_bytes; [done| |done]. unfold unreserved in Hu.
    by apply orb_false_iff in Hu as [? _].
Qed.
Lemma free_PathEscape c s : segment_char c = false → c ≠ 37 → free c (PathEscape s).
Proof.
  intros Hk H. apply free_escape; [done| |done]. unfold segment_char, unreserved in Hk.
  by apply orb_false_iff in Hk as [[? _]%orb_false_iff _].
Qed.
Lemma free_Values_Encode c q : unreserved c = false → c ≠ 37 → c ≠ 43 → c ≠ 61 → c ≠ 38 → free c (Values_Encode q).
Proof.
  intros Hu H1 H2 H3 H4. apply free_join; [by apply free_char|]. apply Forall_forall. intros x Hx.
  apply list_elem_of_fmap in Hx as (kv & -> & _). repeat apply free_app_2; try by apply free_QueryEscape.
  by apply free_char.
Qed.
Lemma free_digits c x : alphanumeric c = false → ∀ s, free c s → free c (pretty_N_go x s).
Proof.
  intros Hc. induction (N.lt_wf_0 x) as [x _ IH]; intros s Hs. destruct (decide (x = 0%N)) as [->|Hx]; [done|].
  rewrite pretty_N_go_step by lia. apply IH; [apply N.div_lt; lia|]. unfold free in *. cbn [bytes_of].
  apply not_elem_of_cons. split; [|done]. intros ->. revert Hc. unfold pretty_N_char. by repeat case_match.
Qed.
Lemma free_itoa c z : alphanumeric c = false → c ≠ 45 → free c (itoa z).
Proof.
  intros Hc Hm. assert (∀ x : N, free c (pretty x)) as HN.
  { intros x. unfold pretty, pretty_N. case_decide; [|by apply free_digits, free_empty]. apply free_char. by intros ->. }
  unfold itoa, pretty, pretty_Z. destruct z as [|p|p]; [apply free_char; by intros ->|apply HN|].
  apply (free_app_2 c "-"); [by apply free_char|apply HN].
Qed.
Create HintDb free.
#[export] Hint Resolve free_empty free_join free_PathEscape free_QueryEscape free_Values_Encode free_itoa : free.
#[export] Hint Resolve free_app_2 | 4 : free.
#[export] Hint Extern 1 (free _ _) => (apply (bool_decide_unpack _); vm_compute; exact I) : free.

(** ** Splitting undoes joining. *)
Lemma split_bytes_last c x : ∀ cur, c ∉ x → split_bytes c cur x = [reverse cur ++ x].
Proof.
  induction x as [|b x IH]; intros cur Hx; [by rewrite app_nil_r|]. apply not_elem_of_cons in Hx as [Hb Hx]. cbn [split_bytes].
  rewrite (proj2 (Z.eqb_neq b c)) by congruence. rewrite IH by done. by rewrite reverse_cons, <-app_assoc.
Qed.
Lemma split_bytes_first c x r : ∀ cur, c ∉ x → split_bytes c cur (x ++ c :: r) = (reverse cur ++ x) :: split_bytes c [] r.
Proof.
  induction x as [|b x IH]; intros cur Hx; [by cbn; rewrite Z.eqb_refl, app_nil_r|]. apply not_elem_of_cons in Hx as [Hb Hx].
  cbn [app split_bytes]. rewrite (proj2 (Z.eqb_neq b c)) by congruence. rewrite IH by done. by rewrite reverse_cons, <-app_assoc.
Qed.
Lemma Split_join c l : is_byte c → l ≠ [] → Forall (free c) l → Split (join (string_of_bytes [c]) l) c = l.
Proof.
  intros Hc Hne. induction 1 as [|x l Hx Hl IH]; [done|]. unfold Split. destruct l as [|y l].
  - cbn [join]. rewrite split_bytes_last by done. cbn. by rewrite string_of_bytes_of.
  - cbn [join]. rewrite !bytes_of_app, bytes_of_string_of_bytes by by constructor. cbn [app].
    rewrite split_bytes_first by done. rewrite fmap_cons. cbn [reverse rev_append app]. rewrite string_of_bytes_of. f_equal. by apply IH.
Qed.

(** ** encoding/json: values and their text

    A Go value to be marshalled is a [json] tree. A Go map is written in the order of its keys; a struct, a
    verbatim fragment and an already decoded document in their own order. A number carries the text it is
    written with. *)
#[warnings="-register-all"]
Inductive json :=
| JNull
| JBool (b : bool)
| JNum (digits : string)
| JStr (s : string)
| JArr (l : list json)
| JObj (fields : list (string * json)).

(** A [map[string]interface{}] *)
Abbreviation gomap := (gmap string json).
Definition JMap (m : gomap) : json := JObj (sorted_entries m).
Definition JInt (z : Z) : json := JNum (itoa z).
Definition JStrs (l : list string) : json := JArr (JStr <$> l).
(** A nil slice is null, an allocated one, empty or not, a list. *)
Definition JSlice (l : list json) : json := match l with [] => JNull | _ => JArr l end.

(** [json.Marshal] *)
Fixpoint Marshal (v : json) : string :=
  match v with
  | JNull => "null"
  | JBool b => if b then "true" else "false"
  | JNum d => d
  | JStr s => json_string s
  | JArr l => "[" +:+ join "," (map Marshal l) +:+ "]"
  | JObj fs => "{" +:+ join "," (map (λ kv, json_string kv.1 +:+ ":" +:+ Marshal kv.2) fs) +:+ "}"
  end.

(** [json.MarshalIndent] without prefix and with two spaces: [ind] is the current line's indentation. *)
Definition newline : string := String (chr 10) EmptyString.
Fixpoint indented (ind : string) (v : json) : string :=
  let deeper := newline +:+ ind +:+ "  " in
  match v with
  | JArr ((_ :: _) as l) => "[" +:+ deeper +:+ join ("," +:+ deeper) (map (indented (ind +:+ "  ")) l) +:+ newline +:+ ind +:+ "]"
  | JObj ((_ :: _) as fs) =>
      "{" +:+ deeper +:+ join ("," +:+ deeper) (map (λ kv, json_string kv.1 +:+ ": " +:+ indented (ind +:+ "  ") kv.2) fs)
      +:+ newline +:+ ind +:+ "}"
  | _ => Marshal v
  end.
Definition MarshalIndent (v : json) : string := indented "" v.

Example marshal_map : Marshal (JMap (<["tag":=JStr "a"]> (<["port":=JInt 443]> (<["l":=JStrs ["x"; "y"]]> ∅)))) =
  json_object [json_field "l" (json_array [quote +:+ "x" +:+ quote; quote +:+ "y" +:+ quote]); json_field "port" "443";
               json_field "tag" (quote +:+ "a" +:+ quote)].
Proof. vm_compute. reflexivity. Qed.
Example marshal_indent : MarshalIndent (JObj [("a", JArr [JInt 1; JObj []]); ("b", JNull)]) =
  "{" +:+ newline +:+ "  " +:+ quote +:+ "a" +:+ quote +:+ ": [" +:+ newline +:+ "    1," +:+ newline +:+ "    {}" +:+ newline
  +:+ "  ]," +:+ newline +:+ "  " +:+ quote +:+ "b" +:+ quote +:+ ": null" +:+ newline +:+ "}".
Proof. vm_compute. reflexivity. Qed.
