(* ===== verification/Platform.v ===== *)
(** * The shared platform helpers (packages/platform)

    httpjson: uniform JSON answers. httpguard: the per-peer token bucket and the client key behind trusted
    proxies. httpx: the outbound client with its bounded retries. Addresses and prefixes of net/netip are an
    interface; one exchange of the outbound client is a call on its environment. *)
From S2P Require Import Prelude GoBytes GoText GoFloat GoTrace GoUrl.

(** ** Requests and answers *)
Record Request := {
  rq_Method : string; rq_Path : string; rq_Query : gmap string string; rq_Header : gmap string (list string);
  rq_TLS : bool; rq_Host : string; rq_RemoteAddr : string; rq_Body : list Z }.
Definition header (r : Request) (name : string) : string := default "" (head (default [] (rq_Header r !! name))).
Definition query (r : Request) (name : string) : string := default "" (rq_Query r !! name).
Record Response := { rsp_Status : Z; rsp_Header : gmap string string; rsp_Body : string }.
(** ** httpjson *)
Definition Write (status : Z) (v : json) : Response :=
  {| rsp_Status := status; rsp_Header := <["Content-Type" := "application/json"]> ∅; rsp_Body := Marshal v +:+ newline |}.
Definition Error (status : Z) (msg : string) : Response := Write status (JObj [("error", JStr msg)]).

(** ** httpguard/limit.go *)
Record bucket := { bk_tokens : float64; bk_at : Time }.
Record Limiter := { lm_rate : float64; lm_burst : float64; lm_maxPeers : Z }.
Definition at_least_one (n : Z) : Z := if n <? 1 then 1 else n.
Definition NewLimiter (rate burst maxPeers : Z) : Limiter :=
  {| lm_rate := of_int (at_least_one rate); lm_burst := of_int (at_least_one burst); lm_maxPeers := at_least_one maxPeers |}.
Definition bucket_take (l : Limiter) (now : Time) (b : bucket) : bool * bucket :=
  let t := fadd (bk_tokens b) (fmul (Seconds (Sub now (bk_at b))) (lm_rate l)) in
  let t := if flt (lm_burst l) t then lm_burst l else t in
  if fle (of_int 1) t then (true, {| bk_tokens := fsub t (of_int 1); bk_at := now |}) else (false, {| bk_tokens := t; bk_at := now |}).
Definition drop_idle (now : Time) (peers : gmap string bucket) : gmap string bucket :=
  filter (λ kv, (2 * Minute <? Sub now (bk_at kv.2)) = false) peers.
Definition guard_allow (l : Limiter) (now : Time) (peer : string) (peers : gmap string bucket) : bool * gmap string bucket :=
  let grant (b : bucket) (peers : gmap string bucket) := let '(ok, b) := bucket_take l now b in (ok, <[peer := b]> peers) in
  let full (peers : gmap string bucket) := lm_maxPeers l <=? Z.of_nat (size peers) in
  match peers !! peer with
  | Some b => grant b peers
  | None =>
      let peers := if full peers then drop_idle now peers else peers in
      if full peers then (false, peers) else grant {| bk_tokens := lm_burst l; bk_at := now |} peers
  end.

(** ** httpguard/proxy.go *)
Class NetIP := {
  Addr : Type; Prefix : Type;
  SplitHostPort : string → option string;
  ParseAddr : string → option Addr;
  WithoutZone : Addr → Addr; Zone : Addr → string; Unmap : Addr → Addr; Addr_String : Addr → string;
  Prefix_Contains : Prefix → Addr → bool }.
Section proxy.
Context `{NetIP}.
Definition maxForwardedHops : Z := 32.
Definition maxForwardedBytes : Z := 4096.
Definition trusted (proxies : list Prefix) (a : Addr) : bool := existsb (λ p, Prefix_Contains p a) proxies.
(** From the nearest hop outwards; [None] when a hop is not a plain address. *)
Fixpoint walk_hops (proxies : list Prefix) (current : Addr) (hops : list string) : option Addr :=
  match hops with
  | [] => Some current
  | h :: hops' =>
      if negb (trusted proxies current) then Some current
      else match ParseAddr (TrimSpace h) with
           | None => None
           | Some next => if negb (bool_decide (Zone next = "")) then None else walk_hops proxies (Unmap next) hops'
           end
  end.
(** The running size never decreases, so it passes the bound somewhere exactly when its total does. *)
Definition forwarded_size (values : list string) : Z := foldr (λ v n, Z.of_nat (String.length v) + 1 + n) 0 values.
Definition clientKey (proxies : list Prefix) (r : Request) : string :=
  let host := default (rq_RemoteAddr r) (SplitHostPort (rq_RemoteAddr r)) in
  match ParseAddr host with
  | None => host
  | Some a =>
      let peer := Unmap (WithoutZone a) in
      let values := default [] (rq_Header r !! "X-Forwarded-For") in
      if negb (trusted proxies peer) then Addr_String peer
      else if Nat.eqb (length values) 0 then Addr_String peer
      else if maxForwardedBytes <? forwarded_size values then Addr_String peer
      else
        let hops := Split (join "," values) 44 in
        if maxForwardedHops <? Z.of_nat (length hops) then Addr_String peer
        else Addr_String (default peer (walk_hops proxies peer (reverse hops)))
  end.
End proxy.
Definition rate_limited : Response :=
  {| rsp_Status := 429; rsp_Header := <["Retry-After" := "1"]> (<["Content-Type" := "text/plain; charset=utf-8"]>
       (<["X-Content-Type-Options" := "nosniff"]> ∅)); rsp_Body := "rate limited" +:+ newline |}.

(** ** httpx/httpx.go *)
Module Httpx.
Definition MaxBody : Z := 8 * 2 ^ 20.
(** [None]: the body could not be read, or not decoded *)
Definition DecodeJSON {A} (decode : list Z → option A) (body : option (list Z)) : option A :=
  b ← body; decode (take (Z.to_nat MaxBody) b).
Definition extra_retries : nat := 2.
Definition backoff : Duration := 500 * Millisecond.
Definition StatusError (code : Z) (body : list Z) : error := Typed "*httpx.StatusError" (itoa code) (string_of_bytes body) (Errorf "").
(** A transport error is worth another try, and a status from 500 on. *)
Definition retryable (outcome : result (Z * list Z)) : bool :=
  match outcome with Err _ => true | Ok (code, _) => 500 <=? code end.
Record exchange := { ex_Method : string; ex_Path : string; ex_Payload : option string }.
Section client.
Context {E : Type} (attempt : exchange → M E (Z * list Z)) (pause : E → result unit * E).
Abbreviation XM := (M (Traced E (exchange * result (Z * list Z)))).
(** One attempt, its outcome recorded, reading at most MaxBody bytes of the answer *)
Definition one_attempt (x : exchange) : XM (Z * list Z) :=
  call (λ r, (x, r)) (λ e, let '(r, e) := attempt x e in
    (match r with Ok (code, b) => Ok (code, take (Z.to_nat MaxBody) b) | Err err => Err err end, e)).
(** Waiting for the backoff, unless the context ends first *)
Definition wait : XM unit := λ w, let '(r, e) := pause (tw_env w) in (r, mkTraced e (tw_trace w)).
Fixpoint attempts {A} (more : nat) (x : exchange) (out : option (list Z → option A)) : XM (option A) :=
  outcome ←! try (one_attempt x) ;
  let again (err : error) : XM (option A) :=
    if negb (retryable outcome) then fail err
    else match more with
         | O => fail err
         | S more => wait ;;! attempts more x out
         end in
  match outcome with
  | Ok (code, body) =>
      if (200 <=? code) && (code <? 300) then
        match out with
        | None => mret None
        | Some decode => match decode body with Some a => mret (Some a) | None => fail (Errorf "httpx: malformed JSON response") end
        end
      else again (StatusError code body)
  | Err e => again (wrap_err "httpx" e)
  end.
(** [payload] is the marshalled body, an error when it cannot be marshalled. *)
Definition doJSON {A} (method path : string) (payload : result (option string)) (out : option (list Z → option A)) (idempotent : bool)
    : XM (option A) :=
  match payload with
  | Err e => fail (wrap_err "httpx: encode" e)
  | Ok p => attempts (if idempotent then extra_retries else 0) {| ex_Method := method; ex_Path := path; ex_Payload := p |} out
  end.
Definition GetJSON {A} (path : string) (out : list Z → option A) : XM (option A) := doJSON "GET" path (Ok None) (Some out) true.
Definition PostJSON {A} (path : string) (payload : result (option string)) (out : option (list Z → option A)) : XM (option A) :=
  doJSON "POST" path payload out false.
Definition PatchJSON {A} (path : string) (payload : result (option string)) (out : option (list Z → option A)) : XM (option A) :=
  doJSON "PATCH" path payload out true.
End client.
End Httpx.

(** ** Platform helpers: retries and the limiter's key

    How often a request is sent, and that a client behind trusted proxies cannot choose the key it is limited by. *)
(** ** httpx: attempts *)
Section retries.
Import Httpx.
Context {E : Type} (attempt : exchange → M E (Z * list Z)) (pause : E → result unit * E).
Abbreviation Ev := (exchange * result (Z * list Z))%type.
Definition accepted (code : Z) : bool := (200 <=? code) && (code <? 300).
(** At most [n] attempts at [x]: all but the last had an outcome worth another try, and only an accepted one
    makes the call succeed. *)
Definition attempted {A} (n : nat) (x : exchange) (t : list Ev) (r : result (option A)) : Prop :=
  (length t <= n)%nat ∧ Forall (λ ev, ev.1 = x) t ∧
  (∀ i ev, t !! i = Some ev → (S i < length t)%nat → retryable ev.2 = true) ∧
  (is_ok r = true → ∃ code body, last t = Some (x, Ok (code, body)) ∧ accepted code = true).
Lemma emits_one_attempt x : emits (one_attempt attempt x) (λ t r, t = [(x, r)]).
Proof. eapply emits_mono; [apply emits_call|]. done. Qed.
Lemma emits_pause : emits (wait pause) (λ t r, t = []).
Proof. intros w. unfold wait. destruct (pause (tw_env w)) as [r e]. exists []. by rewrite app_nil_r. Qed.
Lemma attempted_one {A} n x (o : result (Z * list Z)) (r : result (option A)) :
  (is_ok r = true → ∃ code body, o = Ok (code, body) ∧ accepted code = true) → attempted (S n) x [(x, o)] r.
Proof.
  intros Hr. split_and!; [cbn; lia|by constructor| |].
  - intros i ev Hi Hlt. cbn in Hlt. lia.
  - intros Hok. destruct (Hr Hok) as (code & body & -> & Ha). by exists code, body.
Qed.
Lemma attempted_more {A} n x (o : result (Z * list Z)) t (r : result (option A)) : retryable o = true → (t = [] → is_ok r = false) →
  attempted n x t r → attempted (S n) x ((x, o) :: t) r.
Proof.
  intros Ho Hnil (H1 & H2 & H3 & H4). split_and!; [cbn; lia|by constructor| |].
  - intros [|i] ev Hi Hlt; [by injection Hi as <-|]. apply (H3 i); [done|cbn in Hlt; lia].
  - intros Hok. destruct (H4 Hok) as (code & body & Hl & Ha). exists code, body. split; [|done]. by destruct t.
Qed.
(** After an attempt with outcome [o], [again] being what happens when it was not accepted *)
Lemma emits_outcome {A} n x o (out : option (list Z → option A)) (again : error → M (Traced E Ev) (option A)) :
  (∀ err, emits (again err) (λ t r, attempted (S n) x ((x, o) :: t) r)) →
  emits match o with
    | Ok (code, body) =>
        if (200 <=? code) && (code <? 300) then
          match out with
          | None => mret None
          | Some decode => match decode body with Some a => mret (Some a) | None => fail (Errorf "httpx: malformed JSON response") end
          end
        else again (StatusError code body)
    | Err e => again (wrap_err "httpx" e)
    end (λ t r, attempted (S n) x ((x, o) :: t) r).
Proof.
  intros Ha. destruct o as [[code body]|e]; [|apply Ha]. destruct ((200 <=? code) && (code <? 300)) eqn:Hc; [|apply Ha].
  assert (∀ r, attempted (S n) x [(x, Ok (code, body))] (r : result (option A))) as H by (intros r; apply attempted_one; intros; by exists code, body).
  destruct out as [dec|]; [destruct (dec body)|]; first [eapply emits_mono; [apply emits_ret|]|eapply emits_mono; [apply emits_fail|]];
    intros t r [-> ->]; apply H.
Qed.
Lemma emits_refused {A} n x o err : emits (fail err : M (Traced E Ev) (option A)) (λ t r, attempted (S n) x ((x, o) :: t) r).
Proof. eapply emits_mono; [apply emits_fail|]. intros t r [-> ->]. by apply attempted_one. Qed.
Lemma emits_attempts_n {A} x (out : option (list Z → option A)) more :
  emits (attempts attempt pause more x out) (λ t r, attempted (S more) x t r ∧ t ≠ []).
Proof.
  induction more as [|more IH]; cbn [attempts].
  all: eapply emits_then; [apply emits_try, emits_one_attempt| |by intros t e (? & [=] & _)]; intros t1 o (o' & [= ->] & ->).
  1: eapply emits_mono; [apply (emits_outcome 0 x o' out (λ err, if negb (retryable o') then fail err else fail err))|by intros t r H; split].
  2: eapply emits_mono; [apply (emits_outcome (S more) x o' out (λ err, if negb (retryable o') then fail err
       else wait pause ;;! attempts attempt pause more x out))|by intros t r H; split].
  all: intros err; destruct (retryable o') eqn:Hre; cbn [negb]; try apply emits_refused.
  eapply emits_then; [apply emits_pause| |].
  - intros t1 [] ->. eapply emits_mono; [apply IH|]. intros t r [Ht Hne]. by apply attempted_more.
  - intros t e ->. by apply attempted_one.
Qed.
End retries.

(** Retries are bounded. One request of the shared client is at most three exchanges when it is idempotent
    and never more than one when it is not, so a POST is never sent twice; all carry the same method, path and
    body; another is made only after a failure of the transport or a status from 500 on; and the call succeeds
    only on a status from 200 to 299. *)
Theorem doJSON_bounded {E A} (attempt : Httpx.exchange → M E (Z * list Z)) (pause : E → result unit * E)
    method path payload (out : option (list Z → option A)) (idempotent : bool) :
  let x := {| Httpx.ex_Method := method; Httpx.ex_Path := path; Httpx.ex_Payload := match payload with Ok p => p | Err _ => None end |} in
  emits (Httpx.doJSON attempt pause method path payload out idempotent) (attempted (if idempotent then 3 else 1) x).
Proof.
  intros x. unfold Httpx.doJSON. destruct payload as [p|e].
  - eapply emits_mono; [apply emits_attempts_n|]. intros t r [H _]. by destruct idempotent.
  - eapply emits_mono; [apply emits_fail|]. intros t r [-> ->]. split_and!; [cbn; lia|done| |done]. intros i ev Hi. by rewrite lookup_nil in Hi.
Qed.

(** ** httpguard: the key of a client behind proxies *)
Lemma split_bytes_app c x r : ∀ cur, split_bytes c cur (x ++ c :: r) = split_bytes c cur x ++ split_bytes c [] r.
Proof.
  induction x as [|b x IH]; intros cur; [cbn; by rewrite Z.eqb_refl|]. cbn [app split_bytes]. destruct (b =? c); [|apply IH].
  cbn [app]. by rewrite IH.
Qed.
Lemma Split_app a b : Split (a +:+ "," +:+ b) 44 = Split a 44 ++ Split b 44.
Proof. unfold Split. rewrite !bytes_of_app. cbn [bytes_of app]. by rewrite split_bytes_app, fmap_app. Qed.
Lemma join_app sep l1 l2 : l1 ≠ [] → l2 ≠ [] → join sep (l1 ++ l2) = join sep l1 +:+ sep +:+ join sep l2.
Proof.
  intros H1 H2. induction l1 as [|x [|y l1] IH]; [done|by destruct l2|].
  change (join sep ((x :: y :: l1) ++ l2)) with (x +:+ sep +:+ join sep ((y :: l1) ++ l2)). rewrite IH by done.
  change (join sep (x :: y :: l1)) with (x +:+ sep +:+ join sep (y :: l1)). by rewrite !(assoc_L String.append).
Qed.
Section client_key.
Context `{NetIP} (proxies : list Prefix).
Lemma walk_hops_app u l1 l2 : trusted proxies u = false → ∀ cur, walk_hops proxies cur l1 = Some u → walk_hops proxies cur (l1 ++ l2) = Some u.
Proof.
  intros Hu. induction l1 as [|h l1 IH]; intros cur Hw.
  - injection Hw as ->. destruct l2; [done|]. cbn. by rewrite Hu.
  - cbn in *. destruct (trusted proxies cur); [|done]. cbn in *. destruct (ParseAddr (TrimSpace h)); [|done]. case_match; [done|]. by apply IH.
Qed.
Definition forwarded (r : Request) : list string := default [] (rq_Header r !! "X-Forwarded-For").
(** The address of the other end of the connection *)
Definition peer_of (r : Request) : option Addr :=
  (λ a, Unmap (WithoutZone a)) <$> ParseAddr (default (rq_RemoteAddr r) (SplitHostPort (rq_RemoteAddr r))).
(** The values and the hops in them are within the bounds. *)
Definition in_bounds (values : list string) : Prop :=
  forwarded_size values <= maxForwardedBytes ∧ Z.of_nat (length (Split (join "," values) 44)) <= maxForwardedHops.
End client_key.

(** C36: the limiter's key cannot be chosen. An untrusted peer is keyed by its own address, whatever it forwards;
    and when the last header values, those the trusted proxies added, lead from the peer to an untrusted
    address, that address is the key whatever a client wrote before them, as long as the header stays within the
    limits on bytes and hops; beyond them the key is the peer's address, so a client can only fall back to the
    proxy's shared bucket. *)
Theorem clientKey_unspoofable `{NetIP} proxies r peer : peer_of r = Some peer →
  (trusted proxies peer = false → clientKey proxies r = Addr_String peer) ∧
  ∀ written added u, forwarded r = written ++ added → added ≠ [] → trusted proxies peer = true →
    walk_hops proxies peer (reverse (Split (join "," added) 44)) = Some u → trusted proxies u = false →
    (in_bounds (forwarded r) → clientKey proxies r = Addr_String u) ∧
    (¬ in_bounds (forwarded r) → clientKey proxies r = Addr_String peer).
Proof.
  unfold peer_of, clientKey, in_bounds. cbv zeta. fold (forwarded r). destruct (ParseAddr _) as [a|]; [|done]. intros [= <-]. split; [by intros ->|].
  intros written added u Hf Hne -> Hw Hu. cbn [negb]. rewrite Hf. destruct (Nat.eqb_spec (length (written ++ added)) 0) as [H0|_].
  { rewrite length_app in H0. destruct added; [done|]. cbn in H0. lia. }
  destruct (Z.ltb_spec maxForwardedBytes (forwarded_size (written ++ added))); [split; [lia|done]|].
  destruct (Z.ltb_spec maxForwardedHops (Z.of_nat (length (Split (join "," (written ++ added)) 44)))); [split; [lia|done]|].
  split; [intros _|lia]. destruct written as [|v written]; [cbn [app]; by rewrite Hw|].
  rewrite join_app, Split_app, reverse_app by done. by rewrite (walk_hops_app proxies u) by done.
Qed.

(** ** Concrete addresses *)
Definition demo_ip : NetIP := {|
  Addr := string; Prefix := string; SplitHostPort := Some; ParseAddr := Some; WithoutZone := id; Zone := λ _, ""; Unmap := id;
  Addr_String := id; Prefix_Contains := λ p a, bool_decide (p = a) |}.
Definition demo_forwarded : Request := {|
  rq_Method := "GET"; rq_Path := "/sub/t"; rq_Query := ∅; rq_Header := <["X-Forwarded-For" := ["203.0.113.1, 203.0.113.2"; "198.51.100.9"]]> ∅;
  rq_TLS := true; rq_Host := "h.test"; rq_RemoteAddr := "192.0.2.1"; rq_Body := [] |}.
Lemma clientKey_unspoofable_witness : clientKey (H := demo_ip) ["192.0.2.1"] demo_forwarded = "198.51.100.9".
Proof.
  refine (proj1 (proj2 (clientKey_unspoofable (H := demo_ip) ["192.0.2.1"] demo_forwarded "192.0.2.1" eq_refl)
    ["203.0.113.1, 203.0.113.2"] ["198.51.100.9"] "198.51.100.9" eq_refl ltac:(discriminate) eq_refl eq_refl eq_refl) _).
  split; vm_compute; discriminate.
Defined.
