(* ===== verification/Migrate.v ===== *)
(** * The migration runners

    services/control-plane/internal/migrate and services/delivery/internal/migrate: [Up] applies the embedded
    files that are not recorded yet, in lexical order, each in one transaction with its record. What a text of
    SQL does to the schema is a parameter, as is the embedded directory. The advisory lock makes one run wait for
    the other, so several instances are runs one after another, each over its own part of the link. *)
From S2P Require Import Prelude GoBytes GoText GoUrl Sql Contracts.

(** [mg_table]: the table of applied versions exists *)
Record MigDb (S : Type) := MkMigDb { mg_schema : S; mg_table : bool; mg_versions : gset string }.
Arguments MkMigDb {S}. Arguments mg_schema {S}. Arguments mg_table {S}. Arguments mg_versions {S}.
Section migrate.
Context {S : Type} (exec : string → S → option S).
Definition set_mg_table (d : MigDb S) : MigDb S := {| mg_schema := mg_schema d; mg_table := true; mg_versions := mg_versions d |}.
Abbreviation GM := (M (Session (MigDb S))).
Definition ErrUndefinedTable : error := PgError "42P01".
Definition ensure_table : M (MigDb S) unit := modify set_mg_table.
Definition read_versions : M (MigDb S) (gset string) := λ d, (require (mg_table d) ErrUndefinedTable ;;! mret (mg_versions d)) d.
Definition run_text (sql : string) : M (MigDb S) unit := λ d,
  match exec sql (mg_schema d) with
  | Some s => (Ok tt, {| mg_schema := s; mg_table := mg_table d; mg_versions := mg_versions d |})
  | None => (Err (Errorf "postgres: statement failed"), d)
  end.
Definition record_version (version : string) : M (MigDb S) unit := λ d, (
  require (mg_table d) ErrUndefinedTable ;;!
  require (negb (bool_decide (version ∈ mg_versions d))) ErrUnique ;;!
  modify (λ d, {| mg_schema := mg_schema d; mg_table := mg_table d; mg_versions := {[version]} ∪ mg_versions d |})) d.

(** The embedded directory: names and contents *)
Definition migrationFiles (fs : list (string * string)) : list (string * string) :=
  sort_slice (λ x y, str_lt x.1 y.1) (filter (λ f, HasSuffix f.1 ".up.sql" = true) fs).
Definition version_of (file : string) : string := TrimSuffix file ".up.sql".
(** [for _, f := range files { if applied[version] { continue }; .. }] *)
Fixpoint apply_pending (apply : string → string → GM unit) (applied : gset string) (files : list (string * string)) : GM unit :=
  match files with
  | [] => mret tt
  | (name, body) :: files' =>
      (if bool_decide (version_of name ∈ applied) then mret tt else apply name body) ;;!
      apply_pending apply applied files'
  end.
(** A deferred call, whatever the function returns *)
Definition deferring {A} (cleanup : GM unit) (m : GM A) : GM A := λ s, let '(r, s1) := m s in (r, (cleanup s1).2).
Definition advisory (what : string) : GM unit := wrapping what (autocommit (mret tt)).
End migrate.

Module ControlMigrate.
Section up.
Context {S : Type} (exec : string → S → option S).
Abbreviation GM := (M (Session (MigDb S))).
Definition strip (body : string) : string :=
  TrimSpace (TrimSuffix (TrimSpace (TrimPrefix (TrimSpace body) "BEGIN;")) "COMMIT;").
Definition applyMigration (version body : string) : GM unit :=
  transaction (in_tx (run_text exec (strip body)) ;;! in_tx (record_version version)).
Definition apply_file (name body : string) : GM unit :=
  wrapping ("migrate: apply " +:+ name) (applyMigration (version_of name) body).
Definition Up (fs : list (string * string)) : GM unit :=
  advisory "migrate: advisory lock" ;;!
  deferring (advisory "migrate: advisory unlock") (
    wrapping "migrate: ensure schema_migrations" (autocommit ensure_table) ;;!
    applied ←! wrapping "migrate: read applied" (autocommit read_versions) ;
    apply_pending apply_file applied (migrationFiles fs)).
End up.
End ControlMigrate.
Module DeliveryMigrate.
Section up.
Context {S : Type} (exec : string → S → option S).
Abbreviation GM := (M (Session (MigDb S))).
Definition apply_file (name body : string) : GM unit :=
  transaction_with (wrap_err ("delivery migrate: begin " +:+ name)) (wrap_err ("delivery migrate: commit " +:+ name)) (
    wrapping ("delivery migrate: apply " +:+ name) (in_tx (run_text exec body)) ;;!
    wrapping ("delivery migrate: record " +:+ name) (in_tx (record_version (version_of name)))).
Definition Up (fs : list (string * string)) : GM unit :=
  advisory "delivery migrate: acquire lock" ;;!
  deferring (advisory "delivery migrate: unlock") (
    wrapping "delivery migrate: ensure version table" (autocommit ensure_table) ;;!
    applied ←! wrapping "delivery migrate: read versions" (autocommit read_versions) ;
    apply_pending apply_file applied (migrationFiles fs)).
End up.
End DeliveryMigrate.

(** ** Any number of runs *)
Section runs.
Context {S : Type} (exec : string → S → option S).
Abbreviation GM := (M (Session (MigDb S))).
(** The schema after the texts, one after the other *)
Fixpoint run_texts (texts : list string) (s : S) : option S :=
  match texts with [] => Some s | x :: texts' => s' ← exec x s; run_texts texts' s' end.
Lemma run_texts_snoc texts x s : run_texts (texts ++ [x]) s = s' ← run_texts texts s; exec x s'.
Proof. revert s. induction texts as [|y texts IH]; intros s; cbn; [by destruct (exec x s)|]. destruct (exec y s); [apply IH|done]. Qed.
Section runner.
(** One of the two runners: what it makes of a body, and how it applies it *)
Context (text : string → string) (apply : string → string → GM unit) (start : S).
Hypothesis apply_whole : ∀ name body, all_or_nothing (apply name body).
Hypothesis apply_steady : ∀ name body d, let '(r, d') := steady (apply name body) d in
  match r with
  | Ok _ => ∃ s, exec (text body) (mg_schema d) = Some s ∧ d' = {| mg_schema := s; mg_table := mg_table d; mg_versions := {[version_of name]} ∪ mg_versions d |}
  | Err _ => d' = d
  end.
Definition versions (files : list (string * string)) : gset string := list_to_set ((λ f, version_of f.1) <$> files).
(** Exactly these files have been applied, in this order *)
Definition applied_all (files : list (string * string)) (d : MigDb S) : Prop :=
  run_texts ((λ f, text f.2) <$> files) start = Some (mg_schema d) ∧ mg_versions d = versions files.
Lemma versions_snoc files f : versions (files ++ [f]) = {[version_of f.1]} ∪ versions files.
Proof. unfold versions. rewrite fmap_app, list_to_set_app_L. cbn. set_solver. Qed.
Lemma apply_one done_ name body d link : applied_all done_ d →
  let '(r, s) := apply name body (mkSession d link) in
  match r with
  | Ok _ => applied_all (done_ ++ [(name, body)]) (ss_db s)
  | Err _ => applied_all done_ (ss_db s) ∨ applied_all (done_ ++ [(name, body)]) (ss_db s)
  end.
Proof.
  intros [Hr Hv]. pose proof (apply_whole name body d link) as Hw. pose proof (apply_steady name body d) as Hs.
  destruct (apply name body (mkSession d link)) as [r s], (steady (apply name body) d) as [r0 d0]. cbn in *.
  assert (Hd0 : match r0 with Ok _ => applied_all (done_ ++ [(name, body)]) d0 | Err _ => applied_all done_ d0 end).
  { destruct r0; [|by rewrite Hs; split]. destruct Hs as (s1 & He & ->). split; cbn.
    - rewrite fmap_app. cbn. by rewrite run_texts_snoc, Hr.
    - by rewrite versions_snoc, Hv. }
  destruct Hw as [[Hl Hdb]|[= -> <-]]; [|destruct r0; auto]. destruct r; [done|]. destruct Hdb as [-> | ->]; [by left; split|].
  destruct r0; auto.
Qed.
(** The loop: the recorded files are skipped, the others applied until one fails. *)
Lemma apply_rest rest : ∀ done_ d link, NoDup ((λ f : string * string, version_of f.1) <$> done_ ++ rest) → applied_all done_ d →
  ∀ applied, (∀ f, f ∈ rest → version_of f.1 ∉ applied) →
  let '(r, s) := apply_pending apply applied rest (mkSession d link) in
  ∃ k, applied_all (done_ ++ take k rest) (ss_db s) ∧ (is_ok r = true → k = length rest).
Proof.
  induction rest as [|[name body] rest IH]; intros done_ d link Hnd Hd applied Happ.
  { exists O. cbn. by rewrite app_nil_r. }
  cbn [apply_pending]. rewrite bool_decide_eq_false_2 by (apply (Happ (name, body)); by left). unfold mbind, M_bind.
  pose proof (apply_one done_ name body d link Hd) as H1. destruct (apply name body (mkSession d link)) as [[[]|e] [d1 link1]]; cbn [ss_db] in H1.
  - specialize (IH (done_ ++ [(name, body)]) d1 link1). rewrite <-app_assoc in IH. cbn in IH.
    specialize (IH Hnd H1 applied (λ f Hf, Happ f (list_elem_of_further _ _ _ Hf))). destruct (apply_pending _ _ rest _) as [r s].
    destruct IH as (k & Hk & Hok). exists (Datatypes.S k). cbn. rewrite <-app_assoc in Hk. split; [exact Hk|]. intros Hr. by rewrite (Hok Hr).
  - cbn. destruct H1 as [H1|H1]; [exists 0%nat|exists 1%nat]; (split; [|done]); cbn; [by rewrite app_nil_r|by rewrite take_0].
Qed.
Lemma skip_done applied done_ : ∀ rest s, (∀ f, f ∈ done_ → version_of f.1 ∈ applied) →
  apply_pending apply applied (done_ ++ rest) s = apply_pending apply applied rest s.
Proof.
  induction done_ as [|[name body] done_ IH]; intros rest s H; [done|]. cbn [app apply_pending].
  rewrite bool_decide_eq_true_2 by (apply (H (name, body)); by left). unfold mbind, M_bind. cbn. apply IH. intros f Hf. apply H. by right.
Qed.
(** The files of one release, of a history of files of which some have been applied *)
Lemma apply_release F fs k d link : NoDup ((λ f : string * string, version_of f.1) <$> F) → fs `prefix_of` F → applied_all (take k F) d →
  let '(r, s) := apply_pending apply (versions (take k F)) fs (mkSession d link) in
  ∃ k', (k <= k')%nat ∧ applied_all (take k' F) (ss_db s) ∧ (is_ok r = true → (length fs <= k')%nat).
Proof.
  intros Hnd [later ->] Hd. assert (Hin : ∀ f l, f ∈ l → version_of f.1 ∈ versions l).
  { intros f l Hf. unfold versions. rewrite elem_of_list_to_set. apply list_elem_of_fmap. by exists f. }
  destruct (Nat.le_gt_cases (length fs) k) as [Hk|Hk].
  - pose proof (skip_done (versions (take k (fs ++ later))) fs [] (mkSession d link)) as Hskip. rewrite app_nil_r in Hskip. rewrite Hskip.
    + exists k. cbn. auto.
    + intros f Hf. apply Hin. rewrite take_app_ge by done. apply elem_of_app. by left.
  - rewrite take_app_le in Hd |- * by lia.
    assert (Hskip : apply_pending apply (versions (take k fs)) fs (mkSession d link) = apply_pending apply (versions (take k fs)) (drop k fs) (mkSession d link)).
    { rewrite <-(take_drop k fs) at 2. apply skip_done. intros f. apply Hin. }
    rewrite Hskip. rewrite fmap_app in Hnd. apply NoDup_app in Hnd as (Hnd & _ & _).
    pose proof (apply_rest (drop k fs) (take k fs) d link) as Hr. rewrite take_drop in Hr. specialize (Hr Hnd Hd (versions (take k fs))).
    destruct (apply_pending _ _ (drop k fs) _) as [r s]. destruct Hr as (j & Hj & Hok).
    + intros f Hf Hv. unfold versions in Hv. rewrite elem_of_list_to_set in Hv. rewrite <-(take_drop k fs), fmap_app in Hnd.
      apply NoDup_app in Hnd as (_ & Hdis & _). apply (Hdis _ Hv). apply list_elem_of_fmap. by exists f.
    + exists (k + Nat.min j (length fs - k))%nat. split; [lia|]. split.
      * rewrite take_app_le by lia. rewrite <-take_take_drop. destruct (Nat.le_gt_cases j (length fs - k)) as [Hle|Hgt].
        -- by rewrite Nat.min_l by done.
        -- rewrite Nat.min_r by lia. rewrite (take_ge (drop k fs) (length fs - k)) by (rewrite length_drop; lia). rewrite (take_ge (drop k fs) j) in Hj by (rewrite length_drop; lia). done.
      * intros Hr. rewrite (Hok Hr), length_drop. lia.
Qed.
End runner.
End runs.

(** The two services *)
Inductive service := ControlPlane | Delivery.
Definition text_of (sv : service) (body : string) : string := match sv with ControlPlane => ControlMigrate.strip body | Delivery => body end.
Section services.
Context {S : Type} (exec : string → S → option S) (sv : service).
Abbreviation GM := (M (Session (MigDb S))).
Definition apply_of : string → string → GM unit := match sv with ControlPlane => ControlMigrate.apply_file exec | Delivery => DeliveryMigrate.apply_file exec end.
Definition up_of : list (string * string) → GM unit := match sv with ControlPlane => ControlMigrate.Up exec | Delivery => DeliveryMigrate.Up exec end.
Lemma tx_ok_file f g text version : tx_ok (wrapping f (in_tx (run_text exec text)) ;;! wrapping g (in_tx (record_version (S := S) version))).
Proof. apply tx_ok_bind; [|intros _]; apply tx_ok_wrapping, tx_ok_in_tx. Qed.
Lemma steady_file f g text version d : let '(r, d') := steady (wrapping f (in_tx (run_text exec text)) ;;! wrapping g (in_tx (record_version (S := S) version))) d in
  match r with Ok _ => ∃ s, exec text (mg_schema d) = Some s ∧ d' = {| mg_schema := s; mg_table := mg_table d; mg_versions := {[version]} ∪ mg_versions d |} | Err _ => True end.
Proof.
  rewrite steady_bind by apply tx_ok_wrapping, tx_ok_in_tx. rewrite steady_wrapping, steady_in_tx. unfold run_text.
  destruct (exec text (mg_schema d)) as [s|]; [|done]. rewrite steady_wrapping, steady_in_tx. unfold record_version, require, mbind, M_bind. cbn.
  destruct (mg_table d); [|done]. cbn. destruct (bool_decide _); [done|]. cbn. by exists s.
Qed.
Lemma apply_of_whole name body : all_or_nothing (apply_of name body).
Proof.
  unfold apply_of. destruct sv.
  - apply all_or_nothing_wrapping, all_or_nothing_transaction. apply tx_ok_bind; [|intros _]; apply tx_ok_in_tx.
  - apply all_or_nothing_transaction_with; [apply gave_up_wrap..|apply tx_ok_file].
Qed.
Lemma apply_of_steady name body d : let '(r, d') := steady (apply_of name body) d in
  match r with
  | Ok _ => ∃ s, exec (text_of sv body) (mg_schema d) = Some s ∧ d' = {| mg_schema := s; mg_table := mg_table d; mg_versions := {[version_of name]} ∪ mg_versions d |}
  | Err _ => d' = d
  end.
Proof.
  unfold apply_of. destruct sv; cbn [text_of].
  - unfold ControlMigrate.apply_file, ControlMigrate.applyMigration. rewrite steady_wrapping, steady_transaction by (apply tx_ok_bind; [|intros _]; apply tx_ok_in_tx).
    rewrite steady_in_tx_bind. unfold run_text. destruct (exec _ _) as [s|]; [|done]. rewrite steady_in_tx. unfold record_version, require, mbind, M_bind. cbn.
    destruct (mg_table d); [|done]. cbn. destruct (bool_decide _); [done|]. cbn. by exists s.
  - unfold DeliveryMigrate.apply_file. rewrite steady_transaction_with by apply tx_ok_file.
    pose proof (steady_file ("delivery migrate: apply " +:+ name) ("delivery migrate: record " +:+ name) body (version_of name) d) as H.
    by destruct (steady _ d) as [[[]|e] d'].
Qed.
(** One run: the files of its release that are missing are applied, in the order of the history [F], as far as it gets. *)
Lemma up_release start F fs k d link : NoDup ((λ f : string * string, version_of f.1) <$> F) → migrationFiles fs `prefix_of` F →
  applied_all exec (text_of sv) start (take k F) d →
  let '(r, s) := up_of fs (mkSession d link) in
  ∃ k', (k <= k')%nat ∧ applied_all exec (text_of sv) start (take k' F) (ss_db s) ∧ (is_ok r = true → (length (migrationFiles fs) <= k')%nat).
Proof.
  intros Hnd Hpre Hd.
  assert (Hbody : ∀ (msg1 msg2 : string) d link, applied_all exec (text_of sv) start (take k F) d →
    let '(r, s) := (wrapping msg1 (autocommit ensure_table) ;;! applied ←! wrapping msg2 (autocommit read_versions) ;
      apply_pending apply_of applied (migrationFiles fs)) (mkSession d link) in
    ∃ k', (k <= k')%nat ∧ applied_all exec (text_of sv) start (take k' F) (ss_db s) ∧ (is_ok r = true → (length (migrationFiles fs) <= k')%nat)).
  { clear d link Hd. intros msg1 msg2 d link Hd. unfold mbind, M_bind, wrapping, autocommit at 1. cbn [ensure_table modify ss_db].
    assert (Ht : applied_all exec (text_of sv) start (take k F) (set_mg_table d)) by apply Hd.
    destruct (fate _); cbn; [|by exists k..]. unfold autocommit. cbn. unfold read_versions, require, mbind, M_bind. cbn.
    destruct (fate _); cbn; [|by exists k..]. destruct Hd as [Hr Hv]. rewrite Hv.
    apply (apply_release exec (text_of sv) apply_of start apply_of_whole apply_of_steady F (migrationFiles fs) k (set_mg_table d) _ Hnd Hpre Ht). }
  assert (Hlock : ∀ msg s0, ss_db (advisory (S := S) msg s0).2 = ss_db s0) by (intros msg s0; unfold advisory, wrapping, autocommit; cbn; by destruct (fate s0)).
  assert (Hup : ∀ msg1 msg2 msg3 msg4, let '(r, s) := (advisory msg1 ;;! deferring (advisory msg2) (wrapping msg3 (autocommit ensure_table) ;;!
      applied ←! wrapping msg4 (autocommit read_versions) ; apply_pending apply_of applied (migrationFiles fs))) (mkSession d link) in
    ∃ k', (k <= k')%nat ∧ applied_all exec (text_of sv) start (take k' F) (ss_db s) ∧ (is_ok r = true → (length (migrationFiles fs) <= k')%nat)).
  { intros msg1 msg2 msg3 msg4. unfold mbind at 1, M_bind at 1. pose proof (Hlock msg1 (mkSession d link)) as H1.
    destruct (advisory msg1 (mkSession d link)) as [[[]|e] [d1 link1]]; cbn in H1; subst d1; [|by exists k]. unfold deferring.
    specialize (Hbody msg3 msg4 d link1 Hd). 
    destruct ((wrapping msg3 (autocommit ensure_table) ;;! applied ←! wrapping msg4 (autocommit read_versions) ;
      apply_pending apply_of applied (migrationFiles fs)) (mkSession d link1)) as [r s1]. rewrite Hlock. exact Hbody. }
  unfold up_of, apply_of in *. destruct sv; apply Hup.
Qed.
(** Releases run one after another, whatever their outcomes *)
Fixpoint deployed (releases : list (list (string * string))) : GM unit :=
  match releases with [] => mret tt | fs :: releases' => ignore (up_of fs) ;;! deployed releases' end.
Lemma deployed_prefix start F releases : NoDup ((λ f : string * string, version_of f.1) <$> F) → Forall (λ fs, migrationFiles fs `prefix_of` F) releases →
  ∀ k d link, applied_all exec (text_of sv) start (take k F) d →
  ∃ k', (k <= k')%nat ∧ applied_all exec (text_of sv) start (take k' F) (ss_db (deployed releases (mkSession d link)).2).
Proof.
  intros Hnd. induction 1 as [|fs releases Hfs _ IH]; intros k d link Hd; [by exists k|]. cbn [deployed]. unfold mbind, M_bind, ignore.
  pose proof (up_release start F fs k d link Hnd Hfs Hd) as H1. destruct (up_of fs (mkSession d link)) as [r [d1 link1]]. destruct H1 as (k1 & Hk & H1 & _).
  destruct (IH k1 d1 link1 H1) as (k2 & Hk2 & H2). exists k2. split; [lia|exact H2].
Qed.
End services.

(** C9: migrations are applied once each, in order, and never in part. Releases of a service start one after another
    on one database, newer and older ones mixed, each with the files of a part of one history of migrations, and the
    link loses calls at any point. The schema is always what the texts of the first k files make of it, run once
    each and in order, and exactly their versions are recorded; k never goes down; and a start that reports success
    has all of its files applied. *)
Theorem migrations_in_order {S} (exec : string → S → option S) sv start F releases fs link :
  NoDup ((λ f : string * string, version_of f.1) <$> F) → Forall (λ fs, migrationFiles fs `prefix_of` F) (fs :: releases) →
  let s := (deployed exec sv releases (mkSession (MkMigDb start false ∅) link)).2 in
  ∃ k, run_texts exec ((λ f, text_of sv f.2) <$> take k F) start = Some (mg_schema (ss_db s)) ∧ mg_versions (ss_db s) = versions (take k F) ∧
    let '(r, s') := up_of exec sv fs s in
    ∃ k', (k <= k')%nat ∧ run_texts exec ((λ f, text_of sv f.2) <$> take k' F) start = Some (mg_schema (ss_db s')) ∧
      mg_versions (ss_db s') = versions (take k' F) ∧ (is_ok r = true → (length (migrationFiles fs) <= k')%nat).
Proof.
  intros Hnd [Hfs Hrel]%Forall_cons s. destruct (deployed_prefix exec sv start F releases Hnd Hrel 0 (MkMigDb start false ∅) link) as (k & _ & Hk); [done|].
  fold s in Hk. destruct s as [d link']. exists k. split; [apply Hk|]. split; [apply Hk|].
  pose proof (up_release exec sv start F fs k d link' Hnd Hfs Hk) as H. destruct (up_of exec sv fs (mkSession d link')) as [r s'].
  destruct H as (k' & Hle & [H1 H2] & Hok). by exists k'.
Qed.
(** A schema of named statements *)
Definition mg_exec (sql : string) (s : list string) : option (list string) := if bool_decide (sql = "bad") then None else Some (s ++ [sql]).
Definition mg_old : list (string * string) := [("0001_init.up.sql", "BEGIN; a COMMIT;"); ("0001_init.down.sql", "x")].
Definition mg_new : list (string * string) := [("0002_jobs.up.sql", "BEGIN; b COMMIT;"); ("0001_init.up.sql", "BEGIN; a COMMIT;")].
(** The COMMIT of the first file is lost after it took effect; then the newer release starts, and the older one again. *)
Definition mg_link : list fault := [Runs; Runs; Runs; Runs; Runs; Runs; LostAfter].
Lemma migrations_in_order_witness :
  let s := (deployed mg_exec ControlPlane [mg_old; mg_new] (mkSession (MkMigDb [] false ∅) mg_link)).2 in
  ∃ k, run_texts mg_exec ((λ f, text_of ControlPlane f.2) <$> take k (migrationFiles mg_new)) [] = Some (mg_schema (ss_db s)) ∧
    mg_versions (ss_db s) = versions (take k (migrationFiles mg_new)) ∧
    let '(r, s') := up_of mg_exec ControlPlane mg_old s in
    ∃ k', (k <= k')%nat ∧ run_texts mg_exec ((λ f, text_of ControlPlane f.2) <$> take k' (migrationFiles mg_new)) [] = Some (mg_schema (ss_db s')) ∧
      mg_versions (ss_db s') = versions (take k' (migrationFiles mg_new)) ∧ (is_ok r = true → (length (migrationFiles mg_old) <= k')%nat).
Proof.
  apply (migrations_in_order mg_exec ControlPlane [] (migrationFiles mg_new) [mg_old; mg_new] mg_old mg_link).
  - vm_compute. repeat constructor; set_solver.
  - repeat constructor; vm_compute; by eexists.
Defined.
Example mg_schema_end : mg_schema (ss_db (deployed mg_exec ControlPlane [mg_old; mg_new; mg_old] (mkSession (MkMigDb [] false ∅) mg_link)).2) = ["a"; "b"].
Proof. vm_compute. reflexivity. Qed.
