(* ===== verification/Money.v ===== *)
(** * Exact decimal amounts (services/billing/internal/money)

    [Rat] models [math/big.Rat.SetString] (Go's own number syntax: decimal, exponents, the 0b, 0o and
    0x prefixes, [_] separators and a/b fractions); [parse], [Valid], [Equal] and [GTE] are the
    functions of money.go. *)
From S2P Require Import Prelude GoBytes GoText.

(** ** math/big.Rat.SetString *)
Module Rat.
(** A rational: numerator and positive denominator. *)
Record t := mk { num : Z; den : Z }.
Definition sign (r : t) : Z := Z.sgn (num r).
(** [Rat.Cmp] *)
Definition cmp (x y : t) : comparison := num x * den y ?= num y * den x.

Definition digit_value (b : Z) : Z :=
  if (48 <=? b) && (b <=? 57) then b - 48
  else if (97 <=? b) && (b <=? 122) then b - 87
  else if (65 <=? b) && (b <=? 90) then b - 55
  else 63.

(** The character seen before: '_' , a digit, or anything else. *)
Inductive prev := PSep | PDigit | PDot.
Definition is_sep (p : prev) : bool := match p with PSep => true | _ => false end.
Definition is_digit (p : prev) : bool := match p with PDigit => true | _ => false end.

Record scan_state := {
  value : Z; count : Z; dp : option Z; last : prev; inval_sep : bool; rest : list Z }.

(** The digit loop of [nat.scan] for base 0. *)
Fixpoint scan_digits (base : Z) (frac_ok : bool) (st : scan_state) (l : list Z) : scan_state :=
  match l with
  | [] => {| value := value st; count := count st; dp := dp st; last := last st;
             inval_sep := inval_sep st; rest := [] |}
  | ch :: l' =>
      if (ch =? 46) && frac_ok then
        scan_digits base false
          {| value := value st; count := count st; dp := Some (count st); last := PDot;
             inval_sep := inval_sep st || is_sep (last st); rest := l' |} l'
      else if ch =? 95 then
        scan_digits base frac_ok
          {| value := value st; count := count st; dp := dp st; last := PSep;
             inval_sep := inval_sep st || negb (is_digit (last st)); rest := l' |} l'
      else if digit_value ch <? base then
        scan_digits base frac_ok
          {| value := value st * base + digit_value ch; count := count st + 1; dp := dp st;
             last := PDigit; inval_sep := inval_sep st; rest := l' |} l'
      else {| value := value st; count := count st; dp := dp st; last := last st;
              inval_sep := inval_sep st; rest := l |}
  end.

(** The base prefix: base, whether it is the bare octal "0", digits already counted, the previous
    character, and what is left to read. *)
Definition scan_prefix (frac_ok : bool) (l : list Z) : Z * bool * Z * prev * list Z :=
  match l with
  | 48 :: ch :: l' =>
      if (ch =? 98) || (ch =? 66) then (2, false, 0, PDigit, l')
      else if (ch =? 111) || (ch =? 79) then (8, false, 0, PDigit, l')
      else if (ch =? 120) || (ch =? 88) then (16, false, 0, PDigit, l')
      else if frac_ok then (10, false, 1, PDigit, ch :: l')
      else (8, true, 0, PDigit, ch :: l')
  | 48 :: l' => (10, false, 1, PDigit, l')
  | _ => (10, false, 0, PDot, l)
  end.

(** [nat.scan(r, 0, fracOk)]: value, base, fraction digit count (at most 0 after a point), rest. *)
Definition scan (frac_ok : bool) (l : list Z) : option (Z * Z * Z * list Z) :=
  let '(base, octal0, cnt, p, l') := scan_prefix frac_ok l in
  let st := scan_digits base frac_ok
              {| value := 0; count := cnt; dp := None; last := p; inval_sep := false; rest := l' |} l' in
  if inval_sep st || is_sep (last st) then None
  else if count st =? 0 then (if octal0 then Some (0, 10, 1, rest st) else None)
  else Some (value st, base, match dp st with Some d => d - count st | None => count st end, rest st).

(** [scanExponent(r, true, true)]: exponent, its base, and the rest. *)
Record exp_state := { evalue : Z; has_digits : bool; elast : prev; einval : bool; erest : list Z }.
Fixpoint exp_digits (st : exp_state) (l : list Z) : exp_state :=
  match l with
  | [] => {| evalue := evalue st; has_digits := has_digits st; elast := elast st; einval := einval st; erest := [] |}
  | ch :: l' =>
      if (48 <=? ch) && (ch <=? 57) then
        exp_digits {| evalue := evalue st * 10 + (ch - 48); has_digits := true; elast := PDigit;
                      einval := einval st; erest := l' |} l'
      else if ch =? 95 then
        exp_digits {| evalue := evalue st; has_digits := has_digits st; elast := PSep;
                      einval := einval st || negb (is_digit (elast st)); erest := l' |} l'
      else {| evalue := evalue st; has_digits := has_digits st; elast := elast st; einval := einval st; erest := l |}
  end.
Definition scan_exponent (l : list Z) : option (Z * Z * list Z) :=
  match l with
  | [] => Some (0, 10, [])
  | ch :: l' =>
      let base := if (ch =? 101) || (ch =? 69) then 10 else if (ch =? 112) || (ch =? 80) then 2 else 0 in
      if base =? 0 then Some (0, 10, l)
      else
        let '(neg, l'') := match l' with
                           | 45 :: r => (true, r)
                           | 43 :: r => (false, r)
                           | _ => (false, l')
                           end in
        let st := exp_digits {| evalue := 0; has_digits := false; elast := PDot; einval := false; erest := l'' |} l'' in
        let e := if neg : bool then - evalue st else evalue st in
        if negb (has_digits st) || (e <? min_int64) || (max_int64 <? e)
           || einval st || is_sep (elast st) then None
        else Some (e, base, erest st)
  end.

Definition scan_sign (l : list Z) : bool * list Z :=
  match l with 45 :: r => (true, r) | 43 :: r => (false, r) | _ => (false, l) end.

(** [strings.Index(s, "/")] *)
Fixpoint split_slash (l : list Z) : option (list Z * list Z) :=
  match l with
  | [] => None
  | ch :: l' => if ch =? 47 then Some ([], l')
                else match split_slash l' with Some (a, b) => Some (ch :: a, b) | None => None end
  end.

(** [Int.SetString(s, 0)] *)
Definition int_set_string (l : list Z) : option Z :=
  let '(neg, l') := scan_sign l in
  match scan false l' with
  | Some (v, _, _, []) => Some (if neg : bool then - v else v)
  | _ => None
  end.

Definition set_fraction (a b : list Z) : option t :=
  match int_set_string a, scan false b with
  | Some n, Some (d, _, _, []) => if d =? 0 then None else Some (mk n d)
  | _, _ => None
  end.

Definition set_float (l : list Z) : option t :=
  let '(neg, l') := scan_sign l in
  match scan true l' with
  | None => None
  | Some (m, base, fcount, r) =>
      match scan_exponent r with
      | Some (exp, ebase, []) =>
          if m =? 0 then Some (mk 0 1)
          else
            let f := Z.min fcount 0 in
            let '(exp2, exp5) := if base =? 10 then (f, f) else if base =? 8 then (3 * f, 0)
                                 else if base =? 16 then (4 * f, 0) else (f, 0) in
            let exp5 := if ebase =? 10 then wrap64 (exp5 + exp) else exp5 in
            let exp2 := wrap64 (exp2 + exp) in
            if (10 ^ 6 <? Z.abs exp5) || (exp2 <? - 10 ^ 7) || (10 ^ 7 <? exp2) then None
            else
              let n := m * 5 ^ Z.max exp5 0 * 2 ^ Z.max exp2 0 in
              Some (mk (if neg : bool then - n else n) (5 ^ Z.max (- exp5) 0 * 2 ^ Z.max (- exp2) 0))
      | _ => None
      end
  end.

Definition SetString (s : string) : option t :=
  match bytes_of s with
  | [] => None
  | l => match split_slash l with Some (a, b) => set_fraction a b | None => set_float l end
  end.
End Rat.

(** ** money.go *)
Definition parse (s : string) : result Rat.t :=
  match Rat.SetString s with
  | Some r => if Rat.sign r <? 0 then Err (Errorf "money: invalid amount") else Ok r
  | None => Err (Errorf "money: invalid amount")
  end.

Definition Valid (s : string) : bool := is_ok (parse s).

Definition Equal (a b : string) : result bool :=
  match parse a with
  | Err e => Err e
  | Ok l => match parse b with
               | Err e => Err e
               | Ok r => Ok (match Rat.cmp l r with Eq => true | _ => false end)
               end
  end.

Definition GTE (paid expected : string) : result bool :=
  match parse paid with
  | Err e => Err e
  | Ok p => match parse expected with
            | Err e => Err e
            | Ok e => Ok (match Rat.cmp p e with Lt => false | _ => true end)
            end
  end.

Example gte_exact : GTE "0.00010000" "0.0001" = Ok true. Proof. vm_compute. reflexivity. Qed.
Example gte_under : GTE "0.00009999" "0.0001" = Ok false. Proof. vm_compute. reflexivity. Qed.
Example gte_exp : GTE "1e-4" "0.0001" = Ok true. Proof. vm_compute. reflexivity. Qed.
Example gte_hex : GTE "0x1p-2" "1/4" = Ok true. Proof. vm_compute. reflexivity. Qed.
Example octal_fraction : Equal "010/1" "8" = Ok true. Proof. vm_compute. reflexivity. Qed.
Example negative_invalid : Valid "-1" = false. Proof. vm_compute. reflexivity. Qed.
Example bad_separator : Valid "1__0" = false. Proof. vm_compute. reflexivity. Qed.

(** ** Plain decimal numerals: digits, a point, digits *)
Definition is_dec_digit (d : Z) : Prop := 0 <= d < 10.
Definition dec (ds : list Z) : Z := foldl (λ v d, v * 10 + d) 0 ds.
Definition numeral_bytes (ds fs : list Z) : list Z := (Z.add 48 <$> ds) ++ 46 :: (Z.add 48 <$> fs).
Definition numeral (ds fs : list Z) : string := string_of_bytes (numeral_bytes ds fs).

Section scanning.
Import Rat.

Lemma digit_value_dec d : is_dec_digit d → digit_value (48 + d) = d.
Proof.
  unfold is_dec_digit, digit_value. intros Hd.
  rewrite (proj2 (Z.leb_le 48 _)), (proj2 (Z.leb_le _ 57)) by lia. simpl. lia.
Qed.

Lemma scan_digits_run fok ds : ∀ v c p lst inv r tl,
  Forall is_dec_digit ds →
  scan_digits 10 fok {| value := v; count := c; dp := p; last := lst; inval_sep := inv; rest := r |}
    ((Z.add 48 <$> ds) ++ tl)
  = scan_digits 10 fok {| value := foldl (λ v d, v * 10 + d) v ds; count := c + Z.of_nat (length ds);
      dp := p; last := match ds with [] => lst | _ => PDigit end; inval_sep := inv;
      rest := match ds with [] => r | _ => tl end |} tl.
Proof.
  induction ds as [|d ds IH]; intros v c p lst inv r tl Hds; cbn [fmap list_fmap app foldl length].
  { by rewrite Z.add_0_r. }
  inversion_clear Hds as [|? ? Hd Hds']. cbn [scan_digits].
  rewrite (proj2 (Z.eqb_neq (48 + d) 46)), (proj2 (Z.eqb_neq (48 + d) 95)) by (unfold is_dec_digit in Hd; lia).
  cbn [andb]. rewrite digit_value_dec by done.
  rewrite (proj2 (Z.ltb_lt d 10)) by (unfold is_dec_digit in Hd; lia). cbn [value count dp last inval_sep].
  rewrite IH by done.
  replace (c + 1 + Z.of_nat (length ds)) with (c + Z.of_nat (S (length ds))) by lia.
  destruct ds; [|done]. simpl. done.
Qed.

(** The point is read once, and the second run of digits counts the fraction. *)
Lemma scan_numeral_loop ds fs lst :
  Forall is_dec_digit ds → Forall is_dec_digit fs → lst ≠ PSep →
  let st := scan_digits 10 true {| value := 0; count := 0; dp := None; last := lst;
              inval_sep := false; rest := numeral_bytes ds fs |} (numeral_bytes ds fs) in
  value st = dec (ds ++ fs) ∧ count st = Z.of_nat (length ds + length fs) ∧
  dp st = Some (Z.of_nat (length ds)) ∧ inval_sep st = false ∧ is_sep (last st) = false ∧ rest st = [].
Proof.
  intros Hds Hfs Hlst. unfold numeral_bytes. rewrite scan_digits_run by done.
  cbn [scan_digits Z.eqb Pos.eqb andb value count dp last inval_sep].
  replace (Z.add 48 <$> fs) with ((Z.add 48 <$> fs) ++ []) by apply app_nil_r.
  rewrite scan_digits_run by done. cbn.
  unfold dec. rewrite foldl_app. split_and!; [done|lia|done| | |done].
  - by destruct ds; destruct lst.
  - by destruct fs.
Qed.

(** A leading zero is not a base prefix here: the state after the prefix is the state after
    reading that zero as a digit. *)
Lemma scan_numeral ds fs :
  ds ≠ [] → Forall is_dec_digit ds → Forall is_dec_digit fs →
  scan true (numeral_bytes ds fs) = Some (dec (ds ++ fs), 10, - Z.of_nat (length fs), []).
Proof.
  intros Hne Hds Hfs. unfold scan.
  assert (∃ cnt p l', scan_prefix true (numeral_bytes ds fs) = (10, false, cnt, p, l') ∧
    scan_digits 10 true {| value := 0; count := cnt; dp := None; last := p; inval_sep := false; rest := l' |} l'
    = scan_digits 10 true {| value := 0; count := 0; dp := None; last := PDot; inval_sep := false;
                             rest := numeral_bytes ds fs |} (numeral_bytes ds fs)) as (cnt & p & l' & -> & ->).
  { destruct ds as [|d ds]; [done|]. unfold numeral_bytes. cbn [fmap list_fmap app].
    inversion_clear Hds as [|? ? Hd Hds']. destruct (decide (d = 0)) as [->|Hd0].
    - change (48 + 0) with 48.
      assert (∃ ch tl, (Z.add 48 <$> ds) ++ 46 :: (Z.add 48 <$> fs) = ch :: tl ∧ ch < 58) as (ch & tl & -> & Hch).
      { destruct ds as [|d' ds]; [by eexists 46, _|]. inversion_clear Hds' as [|? ? Hd' _].
        eexists _, _. split; [done|]. unfold is_dec_digit in Hd'. lia. }
      exists 1, PDigit, (ch :: tl). split; [|done]. cbn [scan_prefix].
      repeat match goal with |- context [ch =? ?k] => rewrite (proj2 (Z.eqb_neq ch k)) by lia end. done.
    - exists 0, PDot, (48 + d :: (Z.add 48 <$> ds) ++ 46 :: (Z.add 48 <$> fs)).
      split; [|done]. unfold is_dec_digit in Hd. unfold scan_prefix.
      destruct (48 + d) as [|q|q] eqn:E; [lia| |lia].
      do 6 (try destruct q as [q|q|]; try done); lia. }
  destruct (scan_numeral_loop ds fs PDot Hds Hfs ltac:(done)) as (-> & -> & -> & -> & -> & ->).
  destruct ds as [|d ds]; [done|]. cbn [orb length].
  rewrite (proj2 (Z.eqb_neq _ 0)) by lia. f_equal. f_equal. f_equal. lia.
Qed.
End scanning.

(** A numeral the parser accepts exactly: a digit before the point, digits after it, and no more
    than the 10^6 fraction digits [big.Rat] takes. *)
Record decimal (ds fs : list Z) : Prop := {
  dec_nonempty : ds ≠ [];
  dec_int : Forall is_dec_digit ds;
  dec_frac : Forall is_dec_digit fs;
  dec_size : Z.of_nat (length fs) <= 10 ^ 6
}.
Ltac solve_decimal :=
  split; [done
    |repeat (constructor; [unfold is_dec_digit; lia|]); constructor
    |repeat (constructor; [unfold is_dec_digit; lia|]); constructor
    |cbn; lia].
(** The amount a numeral denotes, in units of 10^-k with k its number of fraction digits. *)
Definition units (ds fs : list Z) : Z := dec (ds ++ fs).
Definition scale (fs : list Z) : Z := 10 ^ Z.of_nat (length fs).

Lemma numeral_bytes_bound ds fs :
  Forall is_dec_digit ds → Forall is_dec_digit fs → Forall is_byte (numeral_bytes ds fs).
Proof.
  assert (∀ l, Forall is_dec_digit l → Forall is_byte (Z.add 48 <$> l)) as H.
  { intros l Hl. apply Forall_fmap. eapply Forall_impl; [done|]. unfold is_dec_digit, is_byte; simpl. lia. }
  intros Hds Hfs. unfold numeral_bytes. apply Forall_app. split; [by apply H|].
  constructor; [unfold is_byte; lia|by apply H].
Qed.

Lemma no_slash l : Forall (λ b, b ≠ 47) l → Rat.split_slash l = None.
Proof. induction 1 as [|b l Hb _ IH]; simpl; [done|]. by rewrite (proj2 (Z.eqb_neq b 47)), IH. Qed.

Lemma numeral_no_slash ds fs :
  Forall is_dec_digit ds → Forall is_dec_digit fs → Rat.split_slash (numeral_bytes ds fs) = None.
Proof.
  intros Hds Hfs. apply no_slash. unfold numeral_bytes.
  apply Forall_app. split; [|constructor; [lia|]];
    (apply Forall_fmap; eapply Forall_impl; [done|]; unfold is_dec_digit; simpl; lia).
Qed.

Lemma dec_nonneg ds : Forall is_dec_digit ds → 0 <= dec ds.
Proof.
  unfold dec. assert (∀ v, 0 <= v → Forall is_dec_digit ds → 0 <= foldl (λ v d, v * 10 + d) v ds) as H; [|by apply H].
  induction ds as [|d ds IH]; intros v Hv Hds; [done|]. inversion_clear Hds as [|? ? Hd ?].
  simpl. apply IH; [unfold is_dec_digit in Hd; lia|done].
Qed.

Lemma SetString_numeral ds fs :
  decimal ds fs →
  Rat.SetString (numeral ds fs) =
    Some (if units ds fs =? 0 then Rat.mk 0 1 else Rat.mk (units ds fs) (scale fs)).
Proof.
  intros [Hne Hds Hfs Hk]. unfold Rat.SetString, numeral.
  rewrite bytes_of_string_of_bytes by by apply numeral_bytes_bound.
  pose proof (numeral_no_slash ds fs Hds Hfs) as Hslash.
  assert (Rat.scan_sign (numeral_bytes ds fs) = (false, numeral_bytes ds fs)) as Hsign.
  { destruct ds as [|d ds]; [done|]. inversion_clear Hds as [|? ? Hd _]. unfold is_dec_digit in Hd.
    unfold numeral_bytes. cbn [fmap list_fmap app]. unfold Rat.scan_sign.
    destruct (48 + d) as [|q|q] eqn:E; [lia| |lia]. do 6 (try destruct q as [q|q|]; try done); lia. }
  destruct (numeral_bytes ds fs) as [|b l] eqn:E; [by destruct ds|]. rewrite <-E in *. rewrite Hslash.
  unfold Rat.set_float. rewrite Hsign, scan_numeral by done. unfold Rat.scan_exponent.
  fold (units ds fs). destruct (Z.eqb_spec (units ds fs) 0) as [|Hu]; [done|].
  rewrite Z.min_l by lia. cbn [Z.eqb Pos.eqb]. rewrite !Z.add_0_r.
  assert (wrap64 (- Z.of_nat (length fs)) = - Z.of_nat (length fs)) as ->.
  { unfold wrap64. rewrite Z.mod_small by lia. lia. }
  rewrite (proj2 (Z.ltb_ge (10 ^ 6) _)), (proj2 (Z.ltb_ge _ (- 10 ^ 7))), (proj2 (Z.ltb_ge (10 ^ 7) _)) by lia.
  cbn [orb]. rewrite !Z.max_r by lia. rewrite !Z.max_l by lia. rewrite Z.opp_involutive.
  unfold scale. rewrite <-Z.pow_mul_l. by rewrite !Z.mul_1_r.
Qed.

Lemma scale_pos fs : 0 < scale fs.
Proof. apply Z.pow_pos_nonneg; lia. Qed.

Lemma parse_numeral ds fs :
  decimal ds fs → ∃ r, parse (numeral ds fs) = Ok r ∧ 0 < Rat.den r ∧
    Rat.num r * scale fs = units ds fs * Rat.den r.
Proof.
  intros Hd. unfold parse. rewrite SetString_numeral by done.
  pose proof (scale_pos fs). pose proof (dec_nonneg (ds ++ fs)
    ltac:(apply Forall_app; split; [apply (dec_int _ _ Hd)|apply (dec_frac _ _ Hd)])) as Hu.
  fold (units ds fs) in Hu. destruct (Z.eqb_spec (units ds fs) 0) as [E|E].
  - exists (Rat.mk 0 1). split_and!; simpl; [done|lia|lia].
  - exists (Rat.mk (units ds fs) (scale fs)). split_and!; [|done|done]. unfold Rat.sign; simpl.
    destruct (Z.ltb_spec (Z.sgn (units ds fs)) 0); [lia|done].
Qed.

(** Comparison of fractions with positive denominators. *)
Lemma cross_le n1 d1 n2 d2 u1 s1 u2 s2 :
  0 < d1 → 0 < d2 → 0 < s1 → 0 < s2 → n1 * s1 = u1 * d1 → n2 * s2 = u2 * d2 →
  n1 * d2 <= n2 * d1 ↔ u1 * s2 <= u2 * s1.
Proof.
  intros Hd1 Hd2 Hs1 Hs2 E1 E2.
  assert (n1 * d2 * (s1 * s2) = u1 * s2 * (d1 * d2)) as A1.
  { transitivity ((n1 * s1) * (d2 * s2)); [ring|rewrite E1; ring]. }
  assert (n2 * d1 * (s1 * s2) = u2 * s1 * (d1 * d2)) as A2.
  { transitivity ((n2 * s2) * (d1 * s1)); [ring|rewrite E2; ring]. }
  assert (0 < s1 * s2) by nia. assert (0 < d1 * d2) by nia.
  rewrite (Z.mul_le_mono_pos_r (n1 * d2) (n2 * d1) (s1 * s2)) by done.
  rewrite A1, A2. by rewrite <-Z.mul_le_mono_pos_r.
Qed.

(** The underpayment guard is exact on decimal amounts: [GTE] of two decimal numerals succeeds and is
    true exactly when the first amount is at least the second, compared as integers on a common
    scale; no digit is rounded away. *)
Theorem GTE_decimal ds fs ds' fs' :
  decimal ds fs → decimal ds' fs' →
  GTE (numeral ds fs) (numeral ds' fs') = Ok (units ds' fs' * scale fs <=? units ds fs * scale fs').
Proof.
  intros H1 H2. unfold GTE.
  destruct (parse_numeral _ _ H1) as (p & -> & Hp & Ep), (parse_numeral _ _ H2) as (e & -> & He & Ee).
  f_equal. unfold Rat.cmp.
  pose proof (cross_le _ _ _ _ _ _ _ _ He Hp (scale_pos fs') (scale_pos fs) Ee Ep) as Hx.
  destruct (Z.leb_spec (units ds' fs' * scale fs) (units ds fs * scale fs')) as [Hle|Hlt].
  - apply Hx in Hle. by destruct (Z.compare_spec (Rat.num p * Rat.den e) (Rat.num e * Rat.den p)); [| lia|].
  - destruct (Z.compare_spec (Rat.num p * Rat.den e) (Rat.num e * Rat.den p)); [lia|done|].
    exfalso. apply Z.lt_le_incl, Hx in H. lia.
Qed.

Lemma GTE_decimal_witness :
  GTE "0.00010000" "0.0001" = Ok true ∧ GTE "0.00009999" "0.0001" = Ok false.
Proof.
  split.
  - apply (GTE_decimal [0] [0; 0; 0; 1; 0; 0; 0; 0] [0] [0; 0; 0; 1]); solve_decimal.
  - apply (GTE_decimal [0] [0; 0; 0; 0; 9; 9; 9; 9] [0] [0; 0; 0; 1]); solve_decimal.
Defined.
