(* ===== verification/BillingClient.v ===== *)
(** * Billing's seam to the control-plane (services/billing/internal/controlplane)

    [BillingClient] is the interface of client.go, [BillingLaws] what billing relies on: a billing
    state is applied only over a lower revision, and an accepted push leaves the control-plane at its
    revision or above. The laws are discharged for the in-memory [Fake] (fake.go), and for [Lossy C],
    any lawful client behind a network that loses requests and responses. *)
From S2P Require Import Prelude GoBytes GoText GoUrl Platform Contracts.

(** ** client.go *)
Class Client (C : Type) := {
  GetUser : string → M C User;
  CreateSubscription : string → SubscriptionPlan → M C Subscription;
  SetSubscriptionPeriod : string → SubscriptionStatus → Time → M C Subscription
}.
Class BillingClient (C : Type) := {
  EnsureSubscription : string → SubscriptionPlan → M C Subscription;
  SetBillingState : string → BillingState → M C Subscription
}.

Definition ErrSubscriptionExists : error := Sentinel "controlplane: user already has a subscription".

(** [a] is the state [st] asks for; a push without a plan leaves the plan alone. *)
Definition agrees (a st : BillingState) : Prop :=
  bs_Revision a = bs_Revision st ∧ bs_Status a = bs_Status st ∧ bs_ExpiresAt a = bs_ExpiresAt st ∧
  bs_GraceUntil a = bs_GraceUntil st ∧ (bs_Plan st ≠ "" → bs_Plan a = bs_Plan st).

Definition revision_of (a : option BillingState) : Z :=
  match a with Some st => bs_Revision st | None => 0 end.

(** What the client's state says was applied last to a subscription ([None]: nothing yet), in the
    precision [norm] it stores times with. [client_ok] is the client's own invariant and [serving] says
    that it is up and knows the subscription. *)
Class BillingLaws (C : Type) `{BC : !BillingClient C} := {
  applied : C → string → option BillingState;
  norm : BillingState → BillingState;
  client_ok : C → Prop;
  serving : C → string → Prop;
  norm_revision st : bs_Revision (norm st) = bs_Revision st;
  norm_plan st : bs_Plan (norm st) = bs_Plan st;
  Ensure_ok u p c : client_ok c → client_ok (EnsureSubscription u p c).2;
  Ensure_applied u p c sub : client_ok c → applied (EnsureSubscription u p c).2 sub = applied c sub;
  Set_ok sub st c : client_ok c → client_ok (SetBillingState sub st c).2;
  Set_frame sub st c sub' : client_ok c → sub' ≠ sub → applied (SetBillingState sub st c).2 sub' = applied c sub';
  Set_fence sub st c : client_ok c →
    applied (SetBillingState sub st c).2 sub = applied c sub ∨
    (revision_of (applied c sub) < bs_Revision st ∧
     ∃ st', applied (SetBillingState sub st c).2 sub = Some st' ∧ agrees st' (norm st));
  Set_accepted sub st c s : client_ok c →
    (SetBillingState sub st c).1 = Ok s → bs_Revision st <= revision_of (applied (SetBillingState sub st c).2 sub);
  Set_serves sub st c : client_ok c → serving c sub → BillingState_Validate st = Ok tt →
    (∀ a, applied c sub = Some a → bs_Revision a = bs_Revision st → agrees a (norm st)) →
    is_ok (SetBillingState sub st c).1 = true;
  Set_serving sub st c sub' : client_ok c → serving c sub' → serving (SetBillingState sub st c).2 sub'
}.

(** ** The in-memory control-plane of the tests (fake.go) *)
Record Fake := mkFake {
  f_users : gmap string User; f_subs : gmap string Subscription; f_CreateCalls : Z; f_SetCalls : Z;
  (** the environment: [time.Now], the results of [idgen.New] and how many were used *)
  f_now : Time; f_ids : nat → string; f_next : nat }.

Definition NewFake (now : Time) (ids : nat → string) : Fake := mkFake ∅ ∅ 0 0 now ids 0.
Definition with_u_SubscriptionID (id : string) (u : User) : User := {|
  u_ID := u_ID u; u_TelegramID := u_TelegramID u; u_Email := u_Email u; u_Status := u_Status u;
  u_RealityShortID := u_RealityShortID u; u_UUID := u_UUID u; u_Hysteria2Password := u_Hysteria2Password u;
  u_PrivateKey := u_PrivateKey u; u_SubscriptionID := Some id; u_DeviceLimit := u_DeviceLimit u;
  u_QuotaBytes := u_QuotaBytes u; u_UsedBytes := u_UsedBytes u; u_CreatedAt := u_CreatedAt u;
  u_UpdatedAt := u_UpdatedAt u |}.

Definition Fake_AddUser (u : User) : M Fake unit :=
  modify (λ f, mkFake (<[u_ID u := u]> (f_users f)) (f_subs f) (f_CreateCalls f) (f_SetCalls f) (f_now f) (f_ids f) (f_next f)).
Definition Fake_GetUser (id : string) : M Fake User := λ f,
  match f_users f !! id with
  | None => (Err (Errorf "fake: user not found"), f)
  | Some u => (Ok u, f)
  end.
(** [idgen.New()] twice: the id and the token *)
Definition Fake_ensureSubscription (userID : string) (plan : SubscriptionPlan) (initial : SubscriptionStatus)
    : M Fake Subscription := λ f,
  match f_users f !! userID with
  | None => (Err (Errorf "fake: user not found"), f)
  | Some u =>
      if ptr_set (u_SubscriptionID u) then
        (Ok (default zero_subscription (f_subs f !! default "" (u_SubscriptionID u))), f)
      else
        let sub := {| s_ID := f_ids f (f_next f); s_UserID := userID; s_Plan := plan; s_Status := initial;
                      s_Token := f_ids f (S (f_next f)); s_TrafficLimitBytes := 0; s_SpeedLimitMbps := 0;
                      s_DeviceLimit := 0; s_GraceUntil := None; s_BillingRevision := 0; s_StartsAt := f_now f;
                      s_ExpiresAt := None; s_CreatedAt := f_now f; s_UpdatedAt := f_now f |} in
        (Ok sub, mkFake (<[userID := with_u_SubscriptionID (s_ID sub) u]> (f_users f)) (<[s_ID sub := sub]> (f_subs f))
                        (f_CreateCalls f + 1) (f_SetCalls f) (f_now f) (f_ids f) (S (S (f_next f))))
  end.
Definition Fake_CreateSubscription (userID : string) (plan : SubscriptionPlan) : M Fake Subscription :=
  Fake_ensureSubscription userID plan SubscriptionStatusActive.
Definition Fake_EnsureSubscription (userID : string) (plan : SubscriptionPlan) : M Fake Subscription :=
  Fake_ensureSubscription userID plan SubscriptionStatusExpired.

(** [p != nil && p.Equal(t)] *)
Definition ptr_equal (p : option Time) (t : Time) : bool := match p with Some x => TEqual x t | None => false end.
Definition billing_conflict (sub : Subscription) (st : BillingState) : bool :=
  negb (bool_decide (s_Status sub = bs_Status st)) || negb (ptr_equal (s_ExpiresAt sub) (bs_ExpiresAt st)) ||
  negb (ptr_equal (s_GraceUntil sub) (bs_GraceUntil st)) ||
  negb (bool_decide (bs_Plan st = "")) && negb (bool_decide (s_Plan sub = bs_Plan st)).
Definition apply_state (now : Time) (sub : Subscription) (st : BillingState) : Subscription := {|
  s_ID := s_ID sub; s_UserID := s_UserID sub;
  s_Plan := if bool_decide (bs_Plan st = "") then s_Plan sub else bs_Plan st;
  s_Status := bs_Status st; s_Token := s_Token sub; s_TrafficLimitBytes := s_TrafficLimitBytes sub;
  s_SpeedLimitMbps := s_SpeedLimitMbps sub; s_DeviceLimit := s_DeviceLimit sub;
  s_GraceUntil := Some (bs_GraceUntil st); s_BillingRevision := bs_Revision st; s_StartsAt := s_StartsAt sub;
  s_ExpiresAt := Some (bs_ExpiresAt st); s_CreatedAt := s_CreatedAt sub; s_UpdatedAt := now |}.
Definition Fake_SetBillingState (subID : string) (st : BillingState) : M Fake Subscription := λ f,
  match f_subs f !! subID with
  | None => (Err (Errorf "fake: subscription not found"), f)
  | Some sub =>
      let f := mkFake (f_users f) (f_subs f) (f_CreateCalls f) (f_SetCalls f + 1) (f_now f) (f_ids f) (f_next f) in
      if bs_Revision st <? s_BillingRevision sub then (Ok sub, f)
      else if (bs_Revision st =? s_BillingRevision sub) && negb (s_BillingRevision sub =? 0) then
        if billing_conflict sub st then (Err (Errorf "fake: billing revision conflict"), f) else (Ok sub, f)
      else
        let sub := apply_state (f_now f) sub st in
        (Ok sub, mkFake (f_users f) (<[subID := sub]> (f_subs f)) (f_CreateCalls f) (f_SetCalls f) (f_now f) (f_ids f) (f_next f))
  end.
Definition Fake_SetSubscriptionPeriod (subID : string) (status : SubscriptionStatus) (expiresAt : Time)
    : M Fake Subscription := λ f,
  match f_subs f !! subID with
  | None => (Err (Errorf "fake: subscription not found"), f)
  | Some sub => Fake_SetBillingState subID {| bs_Plan := ""; bs_Revision := wrap64 (s_BillingRevision sub + 1);
                  bs_Status := status; bs_ExpiresAt := expiresAt; bs_GraceUntil := expiresAt |} f
  end.
Definition Fake_Subscription (id : string) : M Fake (option Subscription) := gets (λ f, f_subs f !! id).

#[export] Instance Fake_client : Client Fake := {|
  GetUser := Fake_GetUser; CreateSubscription := Fake_CreateSubscription;
  SetSubscriptionPeriod := Fake_SetSubscriptionPeriod |}.
#[export] Instance Fake_billing : BillingClient Fake := {|
  EnsureSubscription := Fake_EnsureSubscription; SetBillingState := Fake_SetBillingState |}.

(** ** The fake obeys the laws *)
Definition billing_state_of (s : Subscription) : option BillingState :=
  if s_BillingRevision s =? 0 then None else
  exp ← s_ExpiresAt s; grace ← s_GraceUntil s;
  Some {| bs_Plan := s_Plan s; bs_Revision := s_BillingRevision s; bs_Status := s_Status s;
          bs_ExpiresAt := exp; bs_GraceUntil := grace |}.
Definition Fake_applied (f : Fake) (sub : string) : option BillingState := s ← f_subs f !! sub; billing_state_of s.

(** Stored subscriptions have either never been billed or carry a whole billing state; the ids to come
    are fresh. *)
Record Fake_ok (f : Fake) : Prop := {
  fok_billed : ∀ id s, f_subs f !! id = Some s →
    s_BillingRevision s = 0 ∨ (0 < s_BillingRevision s ∧ is_Some (s_ExpiresAt s) ∧ is_Some (s_GraceUntil s));
  fok_fresh : ∀ n, (f_next f <= n)%nat → f_subs f !! f_ids f n = None;
  fok_inj : Inj (=) (=) (f_ids f)
}.

Lemma Fake_ensure_ok u p st f : Fake_ok f → Fake_ok (Fake_ensureSubscription u p st f).2.
Proof.
  intros [Hb Hf Hi]. unfold Fake_ensureSubscription.
  destruct (f_users f !! u) as [usr|]; [|done]. destruct (ptr_set _); [done|].
  split; simpl; [|intros n Hn|done].
  - intros id s. rewrite lookup_insert. case_decide; [intros [= <-]; by left|apply Hb].
  - rewrite lookup_insert_ne; [apply Hf; lia|]. intros Heq%(inj _). lia.
Qed.

Lemma Fake_ensure_applied u p st f sub : Fake_ok f →
  Fake_applied (Fake_ensureSubscription u p st f).2 sub = Fake_applied f sub.
Proof.
  intros [Hb Hf Hi]. unfold Fake_ensureSubscription.
  destruct (f_users f !! u) as [usr|]; [|done]. destruct (ptr_set _); [done|].
  unfold Fake_applied; simpl. rewrite lookup_insert. case_decide as E; [|done]. subst sub.
  by rewrite Hf.
Qed.

Lemma billing_state_of_apply now sub st :
  bs_Revision st ≠ 0 → ∃ a, billing_state_of (apply_state now sub st) = Some a ∧ agrees a st.
Proof.
  intros Hr. unfold billing_state_of. simpl. rewrite (proj2 (Z.eqb_neq _ _) Hr). eexists. split; [done|].
  split_and!; try done. simpl. intros Hp. by rewrite bool_decide_false.
Qed.

Lemma billing_state_revision s :
  (s_BillingRevision s = 0 ∨ (0 < s_BillingRevision s ∧ is_Some (s_ExpiresAt s) ∧ is_Some (s_GraceUntil s))) →
  revision_of (billing_state_of s) = s_BillingRevision s.
Proof.
  unfold billing_state_of. intros [->|(H & [e ->] & [g ->])]; [done|]. simpl.
  by rewrite (proj2 (Z.eqb_neq _ _)) by lia.
Qed.

Lemma conflict_disagrees s st a :
  billing_state_of s = Some a → billing_conflict s st = true → ¬ agrees a st.
Proof.
  unfold billing_state_of. intros Ha Hc (Hr & Hs & He & Hg & Hp).
  destruct (s_BillingRevision s =? 0); [done|].
  destruct (s_ExpiresAt s) as [e|] eqn:Ee; [|done]. destruct (s_GraceUntil s) as [g|] eqn:Eg; [|done].
  simpl in Ha. injection Ha as <-. simpl in *. unfold billing_conflict in Hc.
  rewrite Ee, Eg, Hs, He, Hg in Hc. unfold ptr_equal, TEqual in Hc.
  rewrite bool_decide_true in Hc by done. rewrite !Z.eqb_refl in Hc. simpl in Hc.
  destruct (bool_decide_reflect (bs_Plan st = "")) as [|Hne]; [done|].
  rewrite bool_decide_true in Hc by auto. done.
Qed.

Lemma Fake_set_cases sub st f :
  (∃ e, Fake_SetBillingState sub st f = (Err e, f) ∧ f_subs f !! sub = None) ∨
  (∃ s, f_subs f !! sub = Some s ∧ let c := (f_SetCalls f + 1) in
    ((∃ r, Fake_SetBillingState sub st f = (r, mkFake (f_users f) (f_subs f) (f_CreateCalls f) c (f_now f) (f_ids f) (f_next f)) ∧
        bs_Revision st <= s_BillingRevision s ∧
        (r = Ok s ∨ (bs_Revision st = s_BillingRevision s ∧ s_BillingRevision s ≠ 0 ∧ billing_conflict s st = true)))
     ∨ ((s_BillingRevision s < bs_Revision st ∨ bs_Revision st = s_BillingRevision s ∧ s_BillingRevision s = 0) ∧
        Fake_SetBillingState sub st f = (Ok (apply_state (f_now f) s st),
          mkFake (f_users f) (<[sub := apply_state (f_now f) s st]> (f_subs f)) (f_CreateCalls f) c (f_now f) (f_ids f) (f_next f))))).
Proof.
  unfold Fake_SetBillingState. destruct (f_subs f !! sub) as [s|]; [right; exists s|left; eauto].
  split; [done|]. simpl.
  destruct (Z.ltb_spec (bs_Revision st) (s_BillingRevision s)); [left; eexists; split; [done|]; auto with lia|].
  destruct (Z.eqb_spec (bs_Revision st) (s_BillingRevision s)), (Z.eqb_spec (s_BillingRevision s) 0); simpl;
    try (right; split; [lia|done]).
  left. destruct (billing_conflict s st); eexists; (split; [done|]); auto with lia.
Qed.

#[export, refine] Instance Fake_laws : BillingLaws Fake := {|
  applied := Fake_applied; norm := id; client_ok := Fake_ok; serving f sub := is_Some (f_subs f !! sub) |}.
Proof.
  - done.
  - done.
  - intros u p c. apply Fake_ensure_ok.
  - intros u p c sub. apply Fake_ensure_applied.
  - intros sub st f [Hb Hf Hi]. simpl.
    destruct (Fake_set_cases sub st f) as [(e & -> & _)|(s & Hs & [(r & -> & _ & _)|(Hr & ->)])]; [done..|].
    split; simpl; [|intros n Hn|done].
    + intros id s0. rewrite lookup_insert. case_decide; [intros [= <-]|apply Hb].
      destruct (Hb _ _ Hs) as [|[]]; simpl; [|right; split_and!; eauto with lia].
      destruct (decide (bs_Revision st = 0)); [by left|right; split_and!; eauto with lia].
    + rewrite lookup_insert_ne; [by apply Hf|]. intros ->. by rewrite (Hf n) in Hs.
  - intros sub st f sub' _ Hne. simpl. unfold Fake_applied.
    destruct (Fake_set_cases sub st f) as [(e & -> & _)|(s & Hs & [(r & -> & _ & _)|(Hr & ->)])]; [done..|].
    simpl. by rewrite lookup_insert_ne.
  - intros sub st f [Hb _ _]. simpl. unfold Fake_applied.
    destruct (Fake_set_cases sub st f) as [(e & -> & _)|(s & Hs & [(r & -> & _ & _)|(Hr & ->)])]; [by left..|].
    cbn [snd f_subs]. rewrite lookup_insert_eq, Hs. cbn. pose proof (billing_state_revision s (Hb _ _ Hs)) as Hrev.
    destruct (decide (bs_Revision st = 0)) as [H0|H0].
    + left. unfold billing_state_of; simpl. rewrite H0. simpl.
      destruct (Hb _ _ Hs) as [->|]; [done|lia].
    + right. rewrite Hrev. destruct Hr as [Hr|[Hr1 Hr2]]; [|congruence].
      split; [done|]. by apply billing_state_of_apply.
  - intros sub st f s0 [Hb _ _]. simpl. unfold Fake_applied.
    destruct (Fake_set_cases sub st f) as [(e & -> & _)|(s & Hs & [(r & -> & Hle & _)|(Hr & ->)])]; [done|..].
    + intros _. cbn [snd f_subs]. rewrite Hs. cbn. by rewrite (billing_state_revision s (Hb _ _ Hs)).
    + intros _. cbn [snd f_subs]. rewrite lookup_insert_eq. cbn.
      destruct (decide (bs_Revision st = 0)) as [H0|H0].
      * unfold billing_state_of; simpl. by rewrite H0.
      * destruct (billing_state_of_apply (f_now f) s st H0) as (a & -> & Ha & _). simpl. lia.
  - intros sub st f [Hb _ _] [s Hs] _ Hag. simpl in *.
    destruct (Fake_set_cases sub st f) as [(e & _ & ?)|(s' & Hs' & [(r & -> & Hle & Hr)|(Hr & ->)])]; [congruence| |done].
    destruct Hr as [->|(Heq & Hnz & Hc)]; [done|]. exfalso.
    pose proof (billing_state_revision s' (Hb _ _ Hs')) as Hrev.
    destruct (billing_state_of s') as [a|] eqn:Ea; [|simpl in Hrev; congruence].
    apply (conflict_disagrees _ _ _ Ea Hc), Hag; [|by simpl in Hrev; congruence].
    unfold Fake_applied. by rewrite Hs'.
  - intros sub st f sub' _ [s0 Hs0]. simpl.
    destruct (Fake_set_cases sub st f) as [(e & -> & _)|(s & Hs & [(r & -> & _ & _)|(Hr & ->)])]; [done..|].
    simpl. rewrite lookup_insert. by case_decide.
Defined.

(** ** http.go, errors.go: the adapter billing runs with

    [Do] is one exchange, from building the request on: a status and the body, [None] when it cannot be read. The JSON
    decoders of the answers are parameters. *)
Module HTTP.
Record exchange := { ex_Method : string; ex_URL : string; ex_Authorization : string; ex_Body : option string }.
Definition statusError (method path : string) (code : Z) (body : list Z) : error :=
  Typed "*controlplane.statusError" (method +:+ " " +:+ path) (itoa code) (Errorf (string_of_bytes body)).
Definition status_is (code : Z) (e : error) : bool :=
  match errors_as e "*controlplane.statusError" with Some (_, c, _) => bool_decide (c = itoa code) | None => false end.
Section client.
Context {E : Type} (Do : exchange → M E (Z * option (list Z))).
Context (baseURL token : string) (decode_user : list Z → option User) (decode_subscription : list Z → option Subscription).
(** [body] is nil, or what it marshals to; [None] when it does not. *)
Definition do {A} (method path : string) (body : option (option string)) (decode : list Z → option A) : M E A :=
  match body with
  | Some None => fail (Errorf "controlplane: marshal")
  | _ =>
      resp ←! wrapping ("controlplane: " +:+ method +:+ " " +:+ path) (Do {|
        ex_Method := method; ex_URL := TrimRight_slash baseURL +:+ path;
        ex_Authorization := if bool_decide (token = "") then "" else "Bearer " +:+ token; ex_Body := default None body |}) ;
      let '(code, b) := resp : Z * option (list Z) in
      if negb (Z.quot code 100 =? 2) then fail (statusError method path code (take 4096 (default [] b)))
      else match Httpx.DecodeJSON decode b with None => fail (Errorf "controlplane: decode") | Some a => mret a end
  end.
Definition GetUser (id : string) : M E User := do "GET" ("/v1/users/" +:+ id) None decode_user.
Definition create_error (e : error) : error := if status_is 409 e then ErrSubscriptionExists else e.
Definition CreateSubscription (userID : string) (plan : SubscriptionPlan) : M E Subscription := λ e,
  match do "POST" "/v1/subscriptions" (Some (Some (Marshal (JMap (<["user_id" := JStr userID]> (<["plan" := JStr plan]> ∅))))))
           decode_subscription e with
  | (Err err, e') => (Err (create_error err), e')
  | out => out
  end.
Definition SetSubscriptionPeriod (subID : string) (status : SubscriptionStatus) (expiresAt : Time) : M E Subscription :=
  do "PATCH" ("/v1/subscriptions/" +:+ subID)
     (Some (t ← json_time expiresAt; Some (json_object [json_field "expires_at" t; json_field "status" (json_string status)]))) decode_subscription.
Definition ensure_body (plan : SubscriptionPlan) : string := json_object [json_field "plan" (json_string plan)].
Definition EnsureSubscription (userID : string) (plan : SubscriptionPlan) : M E Subscription :=
  do "POST" ("/v1/users/" +:+ userID +:+ "/ensure-subscription") (Some (Some (ensure_body plan))) decode_subscription.
Definition SetBillingState (subID : string) (state : BillingState) : M E Subscription :=
  do "PUT" ("/v1/subscriptions/" +:+ subID +:+ "/billing-state") (Some (BillingState_json state)) decode_subscription.
Definition HTTPClient : Client E := Build_Client E GetUser CreateSubscription SetSubscriptionPeriod.
Definition HTTPBilling : BillingClient E := Build_BillingClient E EnsureSubscription SetBillingState.
End client.
End HTTP.

(** ** The network between billing and the control-plane (http.go)

    A call can fail before it reaches the control-plane, or be executed there while its response is
    lost: the caller sees the same error. [faults] scripts what happens to the coming calls; when it is
    used up the network is healthy. *)
Inductive fault := Healthy | LoseRequest | LoseResponse.
Record Lossy (C : Type) := mkLossy { l_client : C; l_faults : list fault }.
Arguments mkLossy {C}. Arguments l_client {C}. Arguments l_faults {C}.
Definition lost : error := Errorf "controlplane: request failed".
Definition over_network {C A} (call : M C A) : M (Lossy C) A := λ c,
  let fs := tail (l_faults c) in
  match head (l_faults c) with
  | Some LoseRequest => (Err lost, mkLossy (l_client c) fs)
  | Some LoseResponse => (Err lost, mkLossy (call (l_client c)).2 fs)
  | _ => let '(r, c') := call (l_client c) in (r, mkLossy c' fs)
  end.
#[export] Instance Lossy_billing {C} `{BillingClient C} : BillingClient (Lossy C) := {|
  EnsureSubscription u p := over_network (EnsureSubscription u p);
  SetBillingState sub st := over_network (SetBillingState sub st) |}.

Lemma over_network_cases {C A} (call : M C A) c :
  l_client (over_network call c).2 = l_client c ∨ l_client (over_network call c).2 = (call (l_client c)).2.
Proof. unfold over_network. destruct (head (l_faults c)) as [[]|]; destruct (call (l_client c)); auto. Qed.
Lemma over_network_ok {C A} (call : M C A) c a :
  (over_network call c).1 = Ok a → (call (l_client c)).1 = Ok a ∧ l_client (over_network call c).2 = (call (l_client c)).2.
Proof. unfold over_network. destruct (head (l_faults c)) as [[]|]; destruct (call (l_client c)); auto; done. Qed.
Lemma over_network_healthy {C A} (call : M C A) c : l_faults c = [] →
  over_network call c = ((call (l_client c)).1, mkLossy (call (l_client c)).2 []).
Proof. unfold over_network. intros ->. simpl. by destruct (call (l_client c)). Qed.

#[export, refine] Instance Lossy_laws {C} `{BillingLaws C} : BillingLaws (Lossy C) := {|
  applied c := applied (l_client c); norm := norm; client_ok c := client_ok (l_client c);
  serving c sub := l_faults c = [] ∧ serving (l_client c) sub |}.
Proof.
  - apply norm_revision.
  - apply norm_plan.
  - intros u p c Hc. simpl. destruct (over_network_cases (EnsureSubscription u p) c) as [->| ->]; [done|by apply Ensure_ok].
  - intros u p c sub Hc. simpl. destruct (over_network_cases (EnsureSubscription u p) c) as [->| ->]; [done|by apply Ensure_applied].
  - intros sub st c Hc. simpl. destruct (over_network_cases (SetBillingState sub st) c) as [->| ->]; [done|by apply Set_ok].
  - intros sub st c sub' Hc Hne. simpl. destruct (over_network_cases (SetBillingState sub st) c) as [->| ->]; [done|by apply Set_frame].
  - intros sub st c Hc. simpl. destruct (over_network_cases (SetBillingState sub st) c) as [->| ->]; [by left|by apply Set_fence].
  - intros sub st c s Hc. simpl. intros [Hok ->]%over_network_ok. by eapply Set_accepted.
  - intros sub st c Hc [Hf Hs] Hv Ha. simpl. rewrite over_network_healthy by done. by apply Set_serves.
  - intros sub st c sub' Hc [Hf Hs]. simpl. rewrite over_network_healthy by done. split; [done|by apply Set_serving].
Defined.
