(* ===== verification/BillingStore.v ===== *)
(** * Billing's values, its catalog and its in-memory store

    services/billing/internal/model (invoices, events, schedules, deliveries, intents), services/billing/internal/plan
    (the pricing catalog) and services/billing/internal/store/memory.go: the record of its maps and every method as one
    atomic step on it. *)
From S2P Require Import Prelude GoText Contracts.

(** ** model.go *)
Abbreviation Status := string (only parsing).
Definition StatusPending : Status := "pending".
Definition StatusSettled : Status := "settled".
Definition StatusExpired : Status := "expired".
Definition StatusInvalid : Status := "invalid".

Record Invoice := {
  inv_ID : string; inv_Provider : string; inv_AnonUserID : string; inv_Plan : string;
  inv_Currency : string; inv_Amount : string; inv_PayAddress : string;
  inv_ProviderInvoiceID : string; inv_Status : Status; inv_CreatedAt : Time; inv_ExpiresAt : Time }.
Definition with_inv_Status (s : Status) (i : Invoice) : Invoice := {|
  inv_ID := inv_ID i; inv_Provider := inv_Provider i; inv_AnonUserID := inv_AnonUserID i;
  inv_Plan := inv_Plan i; inv_Currency := inv_Currency i; inv_Amount := inv_Amount i;
  inv_PayAddress := inv_PayAddress i; inv_ProviderInvoiceID := inv_ProviderInvoiceID i;
  inv_Status := s; inv_CreatedAt := inv_CreatedAt i; inv_ExpiresAt := inv_ExpiresAt i |}.

Record InvoiceOverview := {
  ov_InvoiceID : string; ov_AnonUserID : string; ov_Plan : string; ov_Status : Status;
  ov_Amount : string; ov_Currency : string; ov_CreatedAt : Time; ov_ExpiresAt : Time }.
Record InvoiceCounts := { cnt_Pending : Z; cnt_Settled : Z; cnt_Expired : Z; cnt_Invalid : Z }.

Record Event := {
  ev_Provider : string; ev_ExternalID : string; ev_InvoiceID : string; ev_Status : Status;
  ev_Currency : string; ev_Amount : string; ev_Confirmations : Z; ev_Timestamp : Time }.

Record CreateInvoiceRequest := {
  req_OrderID : string; req_AnonUserID : string; req_Plan : string; req_Currency : string;
  req_Amount : string }.

Record Schedule := {
  sc_SubID : string; sc_AnonUserID : string; sc_Revision : Z; sc_Plan : string; sc_Status : string;
  sc_ExpiresAt : Time; sc_GraceUntil : Time }.

Record BillingDelivery := {
  d_ID : string; d_InvoiceID : string; d_SubID : string; d_AnonUserID : string; d_Revision : Z;
  d_Plan : string; d_Status : string; d_ExpiresAt : Time; d_GraceUntil : Time;
  d_CreatedAt : Time; d_DeliveredAt : Time }.
Definition with_d_DeliveredAt (t : Time) (d : BillingDelivery) : BillingDelivery := {|
  d_ID := d_ID d; d_InvoiceID := d_InvoiceID d; d_SubID := d_SubID d; d_AnonUserID := d_AnonUserID d;
  d_Revision := d_Revision d; d_Plan := d_Plan d; d_Status := d_Status d; d_ExpiresAt := d_ExpiresAt d;
  d_GraceUntil := d_GraceUntil d; d_CreatedAt := d_CreatedAt d; d_DeliveredAt := t |}.

Record InvoiceIntent := {
  it_IdempotencyKey : string; it_RequestHash : string; it_OrderID : string; it_Provider : string;
  it_AnonUserID : string; it_Plan : string; it_Currency : string; it_Amount : string;
  it_State : string; it_CreatedAt : Time }.
Definition with_it_State (s : string) (t : Time) (i : InvoiceIntent) : InvoiceIntent := {|
  it_IdempotencyKey := it_IdempotencyKey i; it_RequestHash := it_RequestHash i; it_OrderID := it_OrderID i;
  it_Provider := it_Provider i; it_AnonUserID := it_AnonUserID i; it_Plan := it_Plan i;
  it_Currency := it_Currency i; it_Amount := it_Amount i; it_State := s; it_CreatedAt := t |}.

(** ** plan/catalog.go *)
Record Plan := {
  pl_ID : SubscriptionPlan; pl_Duration : Duration; pl_Grace : Duration; pl_Prices : gmap string string;
  pl_TrafficLimitBytes : Z; pl_SpeedLimitMbps : Z; pl_DeviceLimit : Z }.
(** A [*Catalog] is immutable; [clonePlan] only copies. *)
Abbreviation Catalog := (gmap string Plan) (only parsing).
Definition Catalog_Get (c : Catalog) (id : SubscriptionPlan) : option Plan := c !! id.
Definition Catalog_Price (c : Catalog) (id : SubscriptionPlan) (currency : string) : option string :=
  match c !! id with
  | None => None
  | Some p => pl_Prices p !! currency
  end.
Definition Catalog_List `{!MapOrder} (c : Catalog) : list Plan :=
  sort_slice (λ a b, str_lt (pl_ID a) (pl_ID b)) (range c).*2.

(** One decoded entry of the JSON catalog; the durations are what [time.ParseDuration] made of their
    strings. *)
Record wire_plan := {
  w_ID : string; w_Duration : option Duration; w_Grace : option Duration; w_Prices : gmap string string;
  w_TrafficLimitBytes : Z; w_SpeedLimitMbps : Z; w_DeviceLimit : Z }.
Fixpoint load_plans (ws : list wire_plan) (plans : gmap string Plan) : result Catalog :=
  match ws with
  | [] => Ok plans
  | p :: ws' =>
      if negb (SubscriptionPlan_Valid (w_ID p)) then Err (Errorf "plan: unknown plan id") else
      match w_Duration p with
      | None => Err (Errorf "plan: invalid duration")
      | Some dur =>
          if dur <=? 0 then Err (Errorf "plan: invalid duration") else
          match w_Grace p with
          | None => Err (Errorf "plan: invalid grace")
          | Some grace =>
              if grace <? 0 then Err (Errorf "plan: invalid grace")
              else if (size (w_Prices p) =? 0)%nat then Err (Errorf "plan: no prices configured")
              else load_plans ws' (<[w_ID p := {|
                pl_ID := w_ID p; pl_Duration := dur; pl_Grace := grace; pl_Prices := w_Prices p;
                pl_TrafficLimitBytes := w_TrafficLimitBytes p; pl_SpeedLimitMbps := w_SpeedLimitMbps p;
                pl_DeviceLimit := w_DeviceLimit p |}]> plans)
          end
      end
  end.
(** [Load] after [json.Decode]: [None] is a decoding error. *)
Definition Catalog_Load (w : option (list wire_plan)) : result Catalog :=
  match w with
  | None => Err (Errorf "plan: decode catalog")
  | Some [] => Err (Errorf "plan: catalog has no plans")
  | Some ws => load_plans ws ∅
  end.

(** What [Load] guarantees to every user of the catalog. *)
Definition catalog_wf (c : Catalog) : Prop :=
  ∀ id p, c !! id = Some p →
    pl_ID p = id ∧ SubscriptionPlan_Valid id = true ∧ 0 < pl_Duration p ∧ 0 <= pl_Grace p ∧ pl_Prices p ≠ ∅.

(** ** The in-memory store (store/memory.go) *)
Record memSettlement := { claimedAt : Time; activatedAt : Time; leasedUntil : Time }.
Record memLease := { l_token : string; l_owner : string; l_until : Time }.

Record Memory := mkMemory {
  invoices : gmap string Invoice;
  events : gset string;
  settled : gmap string memSettlement;
  schedules : gmap string Schedule;
  deliveries : gmap string BillingDelivery;
  invoiceDeliveries : gmap string string;
  invoiceIntents : gmap string InvoiceIntent;
  negativeCheck : gmap string Time;
  pollLeases : gmap string memLease }.

Definition NewMemory : Memory := mkMemory ∅ ∅ ∅ ∅ ∅ ∅ ∅ ∅ ∅.

Definition set_invoices f m := mkMemory (f (invoices m)) (events m) (settled m) (schedules m) (deliveries m) (invoiceDeliveries m) (invoiceIntents m) (negativeCheck m) (pollLeases m).
Definition set_events f m := mkMemory (invoices m) (f (events m)) (settled m) (schedules m) (deliveries m) (invoiceDeliveries m) (invoiceIntents m) (negativeCheck m) (pollLeases m).
Definition set_settled f m := mkMemory (invoices m) (events m) (f (settled m)) (schedules m) (deliveries m) (invoiceDeliveries m) (invoiceIntents m) (negativeCheck m) (pollLeases m).
Definition set_schedules f m := mkMemory (invoices m) (events m) (settled m) (f (schedules m)) (deliveries m) (invoiceDeliveries m) (invoiceIntents m) (negativeCheck m) (pollLeases m).
Definition set_deliveries f m := mkMemory (invoices m) (events m) (settled m) (schedules m) (f (deliveries m)) (invoiceDeliveries m) (invoiceIntents m) (negativeCheck m) (pollLeases m).
Definition set_invoiceDeliveries f m := mkMemory (invoices m) (events m) (settled m) (schedules m) (deliveries m) (f (invoiceDeliveries m)) (invoiceIntents m) (negativeCheck m) (pollLeases m).
Definition set_invoiceIntents f m := mkMemory (invoices m) (events m) (settled m) (schedules m) (deliveries m) (invoiceDeliveries m) (f (invoiceIntents m)) (negativeCheck m) (pollLeases m).
Definition set_negativeCheck f m := mkMemory (invoices m) (events m) (settled m) (schedules m) (deliveries m) (invoiceDeliveries m) (invoiceIntents m) (f (negativeCheck m)) (pollLeases m).
Definition set_pollLeases f m := mkMemory (invoices m) (events m) (settled m) (schedules m) (deliveries m) (invoiceDeliveries m) (invoiceIntents m) (negativeCheck m) (f (pollLeases m)).

(** ** The billing store (services/billing/internal/store)

    Every method of [Memory] (memory.go), the in-process implementation of the [Repository] contract
    of repo.go. Each method holds the mutex for its whole body, so one definition is one atomic step.
    A method that reads the store's clock takes that reading as [now]; the random token of a poll
    lease is an argument. [LatestInvoice] to [CompleteBillingDelivery] are in the order of the file. *)
Definition ErrNotFound : error := Sentinel "store: not found".
Definition ErrConflict : error := Sentinel "store: conflict".

Definition maxRecentInvoices : Z := 50.
Definition boundedRecentLimit (limit : Z) : Z :=
  if (limit <=? 0) || (maxRecentInvoices <? limit) then maxRecentInvoices else limit.

Record StuckSettlement := { st_InvoiceID : string; st_Activated : bool }.

Section store.
Context `{ord : !MapOrder}.

(** ** Invoices *)
Definition CreateInvoice (inv : Invoice) : M Memory unit :=
  modify (set_invoices <[inv_ID inv := inv]>).

Definition GetInvoice (id : string) : M Memory Invoice := λ m,
  match invoices m !! id with
  | None => (Err ErrNotFound, m)
  | Some inv => (Ok inv, m)
  end.

Definition invoiceBefore (a b : Invoice) : bool :=
  if TEqual (inv_CreatedAt a) (inv_CreatedAt b) then str_lt (inv_ID b) (inv_ID a)
  else After (inv_CreatedAt a) (inv_CreatedAt b).

Definition overview (inv : Invoice) : InvoiceOverview := {|
  ov_InvoiceID := inv_ID inv; ov_AnonUserID := inv_AnonUserID inv; ov_Plan := inv_Plan inv;
  ov_Status := inv_Status inv; ov_Amount := inv_Amount inv; ov_Currency := inv_Currency inv;
  ov_CreatedAt := inv_CreatedAt inv; ov_ExpiresAt := inv_ExpiresAt inv |}.

Definition latest_step (anonUserID : string) (latest : option Invoice) (kv : string * Invoice) : option Invoice :=
  if negb (bool_decide (inv_AnonUserID kv.2 = anonUserID)) then latest
  else match latest with
       | None => Some kv.2
       | Some l => if invoiceBefore kv.2 l then Some kv.2 else Some l
       end.
Definition LatestInvoice (anonUserID : string) : M Memory InvoiceOverview := λ m,
  match foldl (latest_step anonUserID) None (range (invoices m)) with
  | None => (Err ErrNotFound, m)
  | Some latest => (Ok (overview latest), m)
  end.

Definition count_status (c : InvoiceCounts) (s : Status) : InvoiceCounts :=
  let bump k n := if bool_decide (s = k) then n + 1 else n in
  {| cnt_Pending := bump StatusPending (cnt_Pending c); cnt_Settled := bump StatusSettled (cnt_Settled c);
     cnt_Expired := bump StatusExpired (cnt_Expired c); cnt_Invalid := bump StatusInvalid (cnt_Invalid c) |}.
Definition InvoiceSummary (recentLimit : Z) : M Memory (InvoiceCounts * list InvoiceOverview) := λ m,
  let limit := boundedRecentLimit recentLimit in
  let all := (range (invoices m)).*2 in
  let counts := foldl count_status (Build_InvoiceCounts 0 0 0 0) (inv_Status <$> all) in
  let sorted := sort_slice invoiceBefore all in
  (Ok (counts, overview <$> take (Z.to_nat limit) sorted), m).

Definition SetInvoiceStatus (id : string) (s : Status) : M Memory unit := λ m,
  match invoices m !! id with
  | None => (Err ErrNotFound, m)
  | Some inv => (Ok tt, set_invoices <[id := with_inv_Status s inv]> m)
  end.

Definition is_pending (inv : Invoice) : bool := bool_decide (inv_Status inv = StatusPending).
Definition OpenInvoices : M Memory (list Invoice) := λ m,
  (Ok (filter (λ inv, is_pending inv = true) (range (invoices m)).*2), m).

(** ** Webhook deliveries already processed *)
Definition event_key (provider externalID : string) : string := provider +:+ "|" +:+ externalID.
Definition SeenEvent (provider externalID : string) : M Memory bool :=
  gets (λ m, bool_decide (event_key provider externalID ∈ events m)).
Definition RecordEvent (provider externalID : string) : M Memory unit :=
  modify (set_events (λ e, {[event_key provider externalID]} ∪ e)).

(** ** Settlement claims *)
Definition ClaimSettlement (now : Time) (invoiceID : string) : M Memory bool := λ m,
  match settled m !! invoiceID with
  | Some _ => (Ok false, m)
  | None => (Ok true, set_settled <[invoiceID := {| claimedAt := now; activatedAt := zero_time;
                                                     leasedUntil := zero_time |}]> m)
  end.
Definition ReleaseSettlement (invoiceID : string) : M Memory unit :=
  modify (set_settled (delete invoiceID)).
Definition MarkSettlementActivated (now : Time) (invoiceID : string) : M Memory unit := λ m,
  match settled m !! invoiceID with
  | Some s => if IsZero (activatedAt s)
              then (Ok tt, set_settled <[invoiceID := {| claimedAt := claimedAt s; activatedAt := now;
                                                         leasedUntil := leasedUntil s |}]> m)
              else (Ok tt, m)
  | None => (Ok tt, m)
  end.

Definition stuck (m : Memory) (now olderThan : Time) (kv : string * memSettlement) : bool :=
  match invoices m !! kv.1 with
  | None => false
  | Some inv =>
      is_pending inv && negb (After (claimedAt kv.2) olderThan)
      && negb (negb (IsZero (leasedUntil kv.2)) && After (leasedUntil kv.2) now)
  end.
(** [if limit > 0 && len(out) >= limit { break }] *)
Definition limited {A} (limit : Z) (l : list A) : list A :=
  if 0 <? limit then take (Z.to_nat limit) l else l.
Definition lease_settlement (until : Time) (acc : gmap string memSettlement) (kv : string * memSettlement) :=
  <[kv.1 := {| claimedAt := claimedAt kv.2; activatedAt := activatedAt kv.2; leasedUntil := until |}]> acc.
Definition LeaseStuckSettlements (now olderThan : Time) (leaseFor : Duration) (limit : Z)
    : M Memory (list StuckSettlement) := λ m,
  let cands := filter (λ kv, stuck m now olderThan kv = true) (range (settled m)) in
  let cands := sort_slice (λ a b : string * memSettlement, Before (claimedAt a.2) (claimedAt b.2)) cands in
  let leased := limited limit cands in
  (Ok ((λ c : string * memSettlement, {| st_InvoiceID := c.1; st_Activated := negb (IsZero (activatedAt c.2)) |}) <$> leased),
   set_settled (λ s, foldl (lease_settlement (Add now leaseFor)) s leased) m).

(** ** The expiry sweep *)
Definition overdue (m : Memory) (now : Time) (onchainProviders : list string) (grace : Duration)
    (id : string) (inv : Invoice) : bool :=
  if negb (is_pending inv) || IsZero (inv_ExpiresAt inv) then false
  else if is_set (settled m !! id) then false
  else if (match pollLeases m !! id with Some l => After (l_until l) now | None => false end) then false
  else if bool_decide (inv_Provider inv ∈ onchainProviders) then
    let deadline := Add (inv_ExpiresAt inv) grace in
    if negb (After now deadline) then false
    else match negativeCheck m !! id with
         | None => false
         | Some nc => negb (Before nc deadline)
         end
  else After now (inv_ExpiresAt inv).
Definition ExpireOverdue (now : Time) (onchainProviders : list string) (grace : Duration) : M Memory unit := λ m,
  (Ok tt, set_invoices (λ _, range_update (λ id inv,
      if overdue m now onchainProviders grace id inv then Some (with_inv_Status StatusExpired inv) else None)
    (invoices m)) m).

(** ** Poll leases and negative chain checks *)
Definition AcquirePollLease (now : Time) (token invoiceID owner : string) (leaseFor : Duration)
    : M Memory (string * bool) := λ m,
  let free := (Ok (token, true),
    set_pollLeases <[invoiceID := {| l_token := token; l_owner := owner; l_until := Add now leaseFor |}]> m) in
  match pollLeases m !! invoiceID with
  | Some l => if After (l_until l) now then (Ok ("", false), m) else free
  | None => free
  end.
Definition RenewPollLease (now : Time) (invoiceID token : string) (leaseFor : Duration) : M Memory bool := λ m,
  match pollLeases m !! invoiceID with
  | Some l => if bool_decide (l_token l = token)
              then (Ok true, set_pollLeases <[invoiceID := {| l_token := l_token l; l_owner := l_owner l;
                                                              l_until := Add now leaseFor |}]> m)
              else (Ok false, m)
  | None => (Ok false, m)
  end.
Definition ReleasePollLease (invoiceID token : string) : M Memory unit := λ m,
  match pollLeases m !! invoiceID with
  | Some l => if bool_decide (l_token l = token) then (Ok tt, set_pollLeases (delete invoiceID) m) else (Ok tt, m)
  | None => (Ok tt, m)
  end.
Definition RecordNegativeCheck (invoiceID : string) (checkAt : Time) : M Memory unit := λ m,
  match invoices m !! invoiceID with
  | Some inv => if is_pending inv then (Ok tt, set_negativeCheck <[invoiceID := checkAt]> m) else (Ok tt, m)
  | None => (Ok tt, m)
  end.
Definition ClearNegativeCheck (invoiceID : string) : M Memory unit := λ m,
  match invoices m !! invoiceID with
  | Some inv => if is_pending inv then (Ok tt, set_negativeCheck (delete invoiceID) m) else (Ok tt, m)
  | None => (Ok tt, m)
  end.

(** ** Invoice creation intents *)
Definition ReserveInvoiceIntent (now : Time) (intent : InvoiceIntent) : M Memory (InvoiceIntent * bool) := λ m,
  match invoiceIntents m !! it_IdempotencyKey intent with
  | Some existing =>
      if negb (bool_decide (it_RequestHash existing = it_RequestHash intent)) then (Err ErrConflict, m)
      else (Ok (existing, false), m)
  | None =>
      let createdAt := if IsZero (it_CreatedAt intent) then now else it_CreatedAt intent in
      let intent := with_it_State "reserved" createdAt intent in
      (Ok (intent, true), set_invoiceIntents <[it_IdempotencyKey intent := intent]> m)
  end.
Definition set_intent_state (key state : string) (intent : InvoiceIntent) : Memory → Memory :=
  set_invoiceIntents <[key := with_it_State state (it_CreatedAt intent) intent]>.
Definition BeginInvoiceCreate (key : string) : M Memory bool := λ m,
  match invoiceIntents m !! key with
  | None => (Err ErrNotFound, m)
  | Some intent =>
      if negb (bool_decide (it_State intent = "reserved")) then (Ok false, m)
      else (Ok true, set_intent_state key "creating" intent m)
  end.
Definition CompleteInvoiceCreate (key : string) (inv : Invoice) : M Memory unit := λ m,
  match invoiceIntents m !! key with
  | None => (Err ErrNotFound, m)
  | Some intent =>
      if negb (bool_decide (it_OrderID intent = inv_ID inv)) || negb (bool_decide (it_Provider intent = inv_Provider inv))
      then (Err ErrConflict, m)
      else (Ok tt, set_intent_state key "ready" intent (set_invoices <[inv_ID inv := inv]> m))
  end.
Definition FailInvoiceCreate (key : string) : M Memory unit := λ m,
  match invoiceIntents m !! key with
  | None => (Err ErrNotFound, m)
  | Some intent => (Ok tt, set_intent_state key "failed" intent m)
  end.
Definition GetInvoiceIntent (key : string) : M Memory InvoiceIntent := λ m,
  match invoiceIntents m !! key with
  | None => (Err ErrNotFound, m)
  | Some intent => (Ok intent, m)
  end.

(** ** The entitlement ledger *)
Definition zero_delivery : BillingDelivery := {|
  d_ID := ""; d_InvoiceID := ""; d_SubID := ""; d_AnonUserID := ""; d_Revision := 0; d_Plan := "";
  d_Status := ""; d_ExpiresAt := zero_time; d_GraceUntil := zero_time; d_CreatedAt := zero_time;
  d_DeliveredAt := zero_time |}.
Definition invoice_delivery_id (invoiceID : string) : string := "invoice:" +:+ invoiceID.
Definition schedule_delivery_id (subID : string) (revision : Z) : string :=
  "schedule:" +:+ subID +:+ ":" +:+ itoa revision.
(** The key under which a delivery's lease sits in the settlements map. *)
Definition lease_key (deliveryID : string) : string := "delivery:" +:+ deliveryID.

(** The period an invoice buys: from the current expiry when that is in the future. *)
Definition credit_target (sched : option Schedule) (invoiceID plan subID anonUserID : string)
    (now : Time) (duration grace : Duration) : BillingDelivery :=
  let base := match sched with
              | Some s => if After (sc_ExpiresAt s) now then sc_ExpiresAt s else now
              | None => now
              end in
  let revision := match sched with Some s => wrap64 (sc_Revision s + 1) | None => 1 end in
  {| d_ID := invoice_delivery_id invoiceID; d_InvoiceID := invoiceID; d_SubID := subID;
     d_AnonUserID := anonUserID; d_Revision := revision; d_Plan := plan;
     d_Status := SubscriptionStatusActive; d_ExpiresAt := Add base duration;
     d_GraceUntil := Add (Add base duration) grace; d_CreatedAt := now; d_DeliveredAt := zero_time |}.
Definition schedule_of (d : BillingDelivery) : Schedule := {|
  sc_SubID := d_SubID d; sc_AnonUserID := d_AnonUserID d; sc_Revision := d_Revision d;
  sc_Plan := d_Plan d; sc_Status := d_Status d; sc_ExpiresAt := d_ExpiresAt d;
  sc_GraceUntil := d_GraceUntil d |}.

Definition StageInvoiceCredit (invoiceID subID anonUserID : string) (now : Time) (duration grace : Duration)
    : M Memory BillingDelivery := λ m,
  match invoiceDeliveries m !! invoiceID with
  | Some deliveryID => (Ok (default zero_delivery (deliveries m !! deliveryID)), m)
  | None =>
      match invoices m !! invoiceID with
      | None => (Err ErrNotFound, m)
      | Some inv =>
          if negb (bool_decide (inv_AnonUserID inv = anonUserID)) then (Err ErrConflict, m)
          else
            let d := credit_target (schedules m !! subID) invoiceID (inv_Plan inv) subID anonUserID now duration grace in
            (Ok d, set_invoiceDeliveries <[invoiceID := d_ID d]>
                     (set_deliveries <[d_ID d := d]> (set_schedules <[subID := schedule_of d]> m)))
      end
  end.

Definition transition_target (sched : Schedule) (subID status : string) (now : Time) : BillingDelivery :=
  let revision := wrap64 (sc_Revision sched + 1) in
  {| d_ID := schedule_delivery_id subID revision; d_InvoiceID := ""; d_SubID := subID;
     d_AnonUserID := sc_AnonUserID sched; d_Revision := revision; d_Plan := sc_Plan sched;
     d_Status := status; d_ExpiresAt := sc_ExpiresAt sched; d_GraceUntil := sc_GraceUntil sched;
     d_CreatedAt := now; d_DeliveredAt := zero_time |}.
Definition advance_schedule (sched : Schedule) (revision : Z) (status : string) : Schedule := {|
  sc_SubID := sc_SubID sched; sc_AnonUserID := sc_AnonUserID sched; sc_Revision := revision;
  sc_Plan := sc_Plan sched; sc_Status := status; sc_ExpiresAt := sc_ExpiresAt sched;
  sc_GraceUntil := sc_GraceUntil sched |}.
Definition StageScheduleTransition (subID : string) (expectedRevision : Z) (status : string) (now : Time)
    : M Memory (BillingDelivery * bool) := λ m,
  match schedules m !! subID with
  | None => (Err ErrNotFound, m)
  | Some sched =>
      if negb (sc_Revision sched =? expectedRevision) then (Ok (zero_delivery, false), m)
      else
        let d := transition_target sched subID status now in
        (Ok (d, true), set_deliveries <[d_ID d := d]>
           (set_schedules <[subID := advance_schedule sched (d_Revision d) status]> m))
  end.

Definition delivery_before (a b : BillingDelivery) : bool :=
  if TEqual (d_CreatedAt a) (d_CreatedAt b) then str_lt (d_ID a) (d_ID b)
  else Before (d_CreatedAt a) (d_CreatedAt b).
Definition leasable (m : Memory) (now olderThan : Time) (d : BillingDelivery) : bool :=
  negb (negb (IsZero (d_DeliveredAt d)) || negb (Before (d_CreatedAt d) olderThan))
  && match settled m !! lease_key (d_ID d) with
     | Some s => negb (After (leasedUntil s) now)
     | None => true
     end.
Definition lease_delivery (until : Time) (acc : gmap string memSettlement) (d : BillingDelivery) :=
  <[lease_key (d_ID d) := {| claimedAt := zero_time; activatedAt := zero_time; leasedUntil := until |}]> acc.
Definition LeaseBillingDeliveries (now olderThan : Time) (leaseFor : Duration) (limit : Z)
    : M Memory (list BillingDelivery) := λ m,
  let candidates := filter (λ d, leasable m now olderThan d = true) (range (deliveries m)).*2 in
  let candidates := limited limit (sort_slice delivery_before candidates) in
  (Ok candidates, set_settled (λ s, foldl (lease_delivery (Add now leaseFor)) s candidates) m).

Definition CompleteBillingDelivery (now : Time) (deliveryID : string) : M Memory unit := λ m,
  let unlease := set_settled (delete (lease_key deliveryID)) in
  match deliveries m !! deliveryID with
  | None => (Err ErrNotFound, m)
  | Some d =>
      if IsZero (d_DeliveredAt d) then
        let m1 := set_deliveries <[deliveryID := with_d_DeliveredAt now d]> m in
        if bool_decide (d_InvoiceID d = "") then (Ok tt, unlease m1)
        else match invoices m1 !! d_InvoiceID d with
             | None => (Err ErrNotFound, m1)
             | Some inv => (Ok tt, unlease (set_invoices <[d_InvoiceID d := with_inv_Status StatusSettled inv]> m1))
             end
      else (Ok tt, unlease m)
  end.

(** ** The expiry schedule index *)
Definition UpsertSchedule (s : Schedule) : M Memory unit := λ m,
  let s := match schedules m !! sc_SubID s with
           | Some current =>
               {| sc_SubID := sc_SubID s; sc_AnonUserID := sc_AnonUserID s;
                  sc_Revision := if sc_Revision s <? sc_Revision current then sc_Revision current else sc_Revision s;
                  sc_Plan := if bool_decide (sc_Plan s = "") then sc_Plan current else sc_Plan s;
                  sc_Status := sc_Status s; sc_ExpiresAt := sc_ExpiresAt s; sc_GraceUntil := sc_GraceUntil s |}
           | None => s
           end in
  (Ok tt, set_schedules <[sc_SubID s := s]> m).
Definition GetSchedule (subID : string) : M Memory Schedule := λ m,
  match schedules m !! subID with
  | None => (Err ErrNotFound, m)
  | Some s => (Ok s, m)
  end.
Definition DueSchedules (now : Time) : M Memory (list Schedule) := λ m,
  (Ok (filter (λ s, negb (bool_decide (sc_Status s = SubscriptionStatusExpired))
                    && negb (Before now (sc_ExpiresAt s)) = true) (range (schedules m)).*2), m).
Definition Ping : M Memory unit := mret tt.
End store.
