(* ===== verification/BillingLedger.v ===== *)
(** * The entitlement ledger of the billing store

    Any interleaving of the store's atomic methods, called by any number of goroutines with any
    arguments and clock readings, is a run of [repo_step]. By rule induction over such runs: an
    invoice has at most one delivery, a staged target never changes, revisions are unique per
    subscription and the schedule is the state of the newest delivery. *)
From S2P Require Import Prelude GoText Contracts BillingStore.

From Stdlib Require Import Ascii.

#[local] Arguments String.append !_ _ /.

(** ** Identifier strings *)
Lemma string_app_inj_l (p s1 s2 : string) : p +:+ s1 = p +:+ s2 → s1 = s2.
Proof. induction p; simpl; [done|]. intros H. injection H. done. Qed.

(** Splitting at the last colon: the revision has none. *)
Fixpoint has_colon (s : string) : bool :=
  match s with
  | EmptyString => false
  | String c s' => Ascii.eqb c ":"%char || has_colon s'
  end.

Lemma app_colon_inj s1 : ∀ s2 r1 r2,
  has_colon r1 = false → has_colon r2 = false →
  s1 +:+ String ":"%char r1 = s2 +:+ String ":"%char r2 → s1 = s2 ∧ r1 = r2.
Proof.
  assert (∀ s r, has_colon (s +:+ String ":"%char r) = true) as Hc.
  { induction s as [|c s IH]; intros r; simpl; [done|]. rewrite IH. apply orb_true_r. }
  induction s1 as [|c1 s1 IH]; intros [|c2 s2] r1 r2 H1 H2 H; simpl in H; injection H.
  - by intros ->.
  - intros -> <-. exfalso. by rewrite Hc in H1.
  - intros <- ->. exfalso. by rewrite Hc in H2.
  - intros H' ->. by apply IH in H' as [-> ->].
Qed.

Lemma pretty_N_char_no_colon x : Ascii.eqb (pretty_N_char x) ":"%char = false.
Proof. unfold pretty_N_char. by repeat case_match. Qed.

Lemma pretty_N_go_no_colon x : ∀ s, has_colon s = false → has_colon (pretty_N_go x s) = false.
Proof.
  induction (N.lt_wf_0 x) as [x _ IH]; intros s Hs.
  destruct (decide (x = 0%N)) as [->|Hx]; [done|].
  rewrite pretty_N_go_step by lia. apply IH; [apply N.div_lt; lia|].
  simpl. by rewrite pretty_N_char_no_colon.
Qed.

Lemma itoa_no_colon z : has_colon (itoa z) = false.
Proof.
  assert (∀ x : N, has_colon (pretty x) = false) as HN.
  { intros x. unfold pretty, pretty_N. case_decide; [done|]. by apply pretty_N_go_no_colon. }
  unfold itoa, pretty, pretty_Z. destruct z; [done|apply HN|]. simpl. apply HN.
Qed.

Lemma schedule_delivery_id_inj s1 r1 s2 r2 :
  schedule_delivery_id s1 r1 = schedule_delivery_id s2 r2 → s1 = s2 ∧ r1 = r2.
Proof.
  unfold schedule_delivery_id. intros H%string_app_inj_l.
  apply app_colon_inj in H as [-> H]; [|apply itoa_no_colon..]. by apply (inj pretty) in H.
Qed.
Lemma invoice_delivery_id_inj i1 i2 : invoice_delivery_id i1 = invoice_delivery_id i2 → i1 = i2.
Proof. apply string_app_inj_l. Qed.
Lemma invoice_schedule_id i s r : invoice_delivery_id i ≠ schedule_delivery_id s r.
Proof. done. Qed.

(** ** Runs of the store *)
Section ledger.
Context `{ord : !MapOrder}.

(** The mutating methods that the processor, the activator's [CreditInvoice]/[Deliver], the sweeper,
    the poller and the HTTP handlers call, with arbitrary arguments. [UpsertSchedule] is not among
    them: only the superseded [Activate] calls it. *)
Inductive repo_op :=
| OpCreateInvoice (inv : Invoice)
| OpSetInvoiceStatus (id : string) (s : Status)
| OpRecordEvent (provider externalID : string)
| OpClaimSettlement (now : Time) (invoiceID : string)
| OpReleaseSettlement (invoiceID : string)
| OpMarkSettlementActivated (now : Time) (invoiceID : string)
| OpLeaseStuckSettlements (now olderThan : Time) (leaseFor : Duration) (limit : Z)
| OpExpireOverdue (now : Time) (onchain : list string) (grace : Duration)
| OpAcquirePollLease (now : Time) (token invoiceID owner : string) (leaseFor : Duration)
| OpRenewPollLease (now : Time) (invoiceID token : string) (leaseFor : Duration)
| OpReleasePollLease (invoiceID token : string)
| OpRecordNegativeCheck (invoiceID : string) (checkAt : Time)
| OpClearNegativeCheck (invoiceID : string)
| OpReserveInvoiceIntent (now : Time) (intent : InvoiceIntent)
| OpBeginInvoiceCreate (key : string)
| OpCompleteInvoiceCreate (key : string) (inv : Invoice)
| OpFailInvoiceCreate (key : string)
| OpStageInvoiceCredit (invoiceID subID anonUserID : string) (now : Time) (duration grace : Duration)
| OpStageScheduleTransition (subID : string) (expectedRevision : Z) (status : string) (now : Time)
| OpLeaseBillingDeliveries (now olderThan : Time) (leaseFor : Duration) (limit : Z)
| OpCompleteBillingDelivery (now : Time) (deliveryID : string).

Definition exec_op (op : repo_op) (m : Memory) : Memory :=
  match op with
  | OpCreateInvoice inv => (CreateInvoice inv m).2
  | OpSetInvoiceStatus id s => (SetInvoiceStatus id s m).2
  | OpRecordEvent p e => (RecordEvent p e m).2
  | OpClaimSettlement now i => (ClaimSettlement now i m).2
  | OpReleaseSettlement i => (ReleaseSettlement i m).2
  | OpMarkSettlementActivated now i => (MarkSettlementActivated now i m).2
  | OpLeaseStuckSettlements now o l k => (LeaseStuckSettlements now o l k m).2
  | OpExpireOverdue now oc g => (ExpireOverdue now oc g m).2
  | OpAcquirePollLease now t i o l => (AcquirePollLease now t i o l m).2
  | OpRenewPollLease now i t l => (RenewPollLease now i t l m).2
  | OpReleasePollLease i t => (ReleasePollLease i t m).2
  | OpRecordNegativeCheck i t => (RecordNegativeCheck i t m).2
  | OpClearNegativeCheck i => (ClearNegativeCheck i m).2
  | OpReserveInvoiceIntent now i => (ReserveInvoiceIntent now i m).2
  | OpBeginInvoiceCreate k => (BeginInvoiceCreate k m).2
  | OpCompleteInvoiceCreate k inv => (CompleteInvoiceCreate k inv m).2
  | OpFailInvoiceCreate k => (FailInvoiceCreate k m).2
  | OpStageInvoiceCredit i s u now d g => (StageInvoiceCredit i s u now d g m).2
  | OpStageScheduleTransition s r st now => (StageScheduleTransition s r st now m).2
  | OpLeaseBillingDeliveries now o l k => (LeaseBillingDeliveries now o l k m).2
  | OpCompleteBillingDelivery now d => (CompleteBillingDelivery now d m).2
  end.

Definition repo_step (m m' : Memory) : Prop := ∃ op, m' = exec_op op m.

(** ** The part of the state the ledger lives in *)
Definition ledger_of (m : Memory) := (schedules m, deliveries m, invoiceDeliveries m).
Definition ledger_op (op : repo_op) : bool :=
  match op with
  | OpStageInvoiceCredit _ _ _ _ _ _ | OpStageScheduleTransition _ _ _ _ | OpCompleteBillingDelivery _ _ => true
  | _ => false
  end.

Lemma exec_op_frame op m : ledger_op op = false → ledger_of (exec_op op m) = ledger_of m.
Proof.
  destruct op; intros Hop; simplify_eq/=; try done;
    unfold SetInvoiceStatus, ClaimSettlement, MarkSettlementActivated, AcquirePollLease, RenewPollLease,
      ReleasePollLease, RecordNegativeCheck, ClearNegativeCheck, ReserveInvoiceIntent, BeginInvoiceCreate,
      CompleteInvoiceCreate, FailInvoiceCreate; by repeat case_match.
Qed.

(** ** The invariant, after at most [n] steps *)
Record delivery_ok (n : Z) (m : Memory) (k : string) (d : BillingDelivery) : Prop := {
  dok_id : d_ID d = k;
  dok_sched : ∃ s, schedules m !! d_SubID d = Some s ∧ 1 <= d_Revision d <= sc_Revision s ∧
                   (d_Revision d = sc_Revision s → schedule_of d = s);
  dok_origin : (k = invoice_delivery_id (d_InvoiceID d) ∧ invoiceDeliveries m !! d_InvoiceID d = Some k)
             ∨ (k = schedule_delivery_id (d_SubID d) (d_Revision d) ∧ d_InvoiceID d = "")
}.
Record ledger_inv (n : Z) (m : Memory) : Prop := {
  inv_deliveries : ∀ k d, deliveries m !! k = Some d → delivery_ok n m k d;
  inv_unique : ∀ k1 d1 k2 d2, deliveries m !! k1 = Some d1 → deliveries m !! k2 = Some d2 →
    d_SubID d1 = d_SubID d2 → d_Revision d1 = d_Revision d2 → k1 = k2;
  inv_schedules : ∀ sub s, schedules m !! sub = Some s →
    sc_SubID s = sub ∧ 1 <= sc_Revision s <= n ∧
    ∃ k d, deliveries m !! k = Some d ∧ schedule_of d = s;
  inv_index : ∀ i k, invoiceDeliveries m !! i = Some k →
    k = invoice_delivery_id i ∧ ∃ d, deliveries m !! k = Some d ∧ d_InvoiceID d = i
}.

Lemma ledger_inv_frame n n' m m' :
  n <= n' → ledger_of m' = ledger_of m → ledger_inv n m → ledger_inv n' m'.
Proof.
  unfold ledger_of. intros Hn E [H1 H2 H3 H4]. injection E as Es Ed Ei. split; rewrite ?Ed, ?Ei, ?Es; try done.
  - intros k d Hd. destruct (H1 k d Hd) as [A B C]. split; rewrite ?Es, ?Ei; done.
  - intros sub s Hs. destruct (H3 sub s Hs) as (?&?&?). split_and!; naive_solver lia.
Qed.

Lemma ledger_inv_empty : ledger_inv 0 NewMemory.
Proof. split; simpl; intros *; by rewrite ?lookup_empty. Qed.

(** Staging a delivery under a fresh id, with the next revision of its subscription. *)
Lemma ledger_inv_stage n m m' d :
  ledger_inv n m → 0 <= n →
  deliveries m !! d_ID d = None →
  d_Revision d = match schedules m !! d_SubID d with Some s => sc_Revision s + 1 | None => 1 end →
  (d_ID d = invoice_delivery_id (d_InvoiceID d) ∧
     invoiceDeliveries m' = <[d_InvoiceID d := d_ID d]> (invoiceDeliveries m)) ∨
  (d_ID d = schedule_delivery_id (d_SubID d) (d_Revision d) ∧ d_InvoiceID d = "" ∧
     invoiceDeliveries m' = invoiceDeliveries m) →
  schedules m' = <[d_SubID d := schedule_of d]> (schedules m) →
  deliveries m' = <[d_ID d := d]> (deliveries m) →
  ledger_inv (n + 1) m'.
Proof.
  intros [HD HU HS HI] Hn Hfresh Hrev Horig Es Ed.
  assert (1 <= d_Revision d <= n + 1) as Hbound.
  { rewrite Hrev. destruct (schedules m !! d_SubID d) as [s|] eqn:E; [|lia].
    destruct (HS _ _ E) as (_ & ? & _). lia. }
  assert (∀ k d0, deliveries m !! k = Some d0 → d_SubID d0 = d_SubID d → d_Revision d0 < d_Revision d) as Hlt.
  { intros k d0 Hd0 Hsub. destruct (HD _ _ Hd0) as [_ (s & Hs & Hb & _) _].
    rewrite Hrev, <-Hsub, Hs. lia. }
  split; rewrite ?Ed, ?Es.
  - intros k d0. rewrite lookup_insert. case_decide as Hk.
    + intros [= ->]. subst k. split; [done| |].
      * exists (schedule_of d0). rewrite Es, lookup_insert_eq. split_and!; simpl; done || lia.
      * destruct Horig as [[-> ->]|(-> & Hi & _)]; [left|by right]. by rewrite lookup_insert_eq.
    + intros Hd0. destruct (HD _ _ Hd0) as [A (s & Hs & Hb & Hsame) C]. split; [done| |].
      * rewrite Es, lookup_insert. case_decide as Hsub; [|by exists s].
        exists (schedule_of d). specialize (Hlt _ _ Hd0 (eq_sym Hsub)). simpl. split_and!; [done|lia|lia|lia].
      * destruct C as [[Hk0 Hidx]|?]; [left|by right]. split; [done|].
        destruct Horig as [[Hid ->]|(_ & _ & ->)]; [|done].
        rewrite lookup_insert_ne; [done|]. intros Heq. apply Hk. by rewrite Hid, Heq, <-Hk0.
  - intros k1 d1 k2 d2. rewrite !lookup_insert.
    case_decide; case_decide; subst; [done| | |by apply HU]; intros; simplify_eq;
      match goal with H : deliveries m !! _ = Some ?x |- _ => pose proof (Hlt _ _ H) end; naive_solver lia.
  - intros sub s. rewrite lookup_insert. case_decide as Hsub.
    + intros [= <-]. split_and!; [done|simpl; lia|simpl; lia|].
      exists (d_ID d), d. by rewrite lookup_insert_eq.
    + intros Hs. destruct (HS _ _ Hs) as (?&?&k&d0&Hd0&?). split_and!; [done|lia|lia|].
      exists k, d0. rewrite lookup_insert_ne; [done|]. intros <-. congruence.
  - intros i k Hi.
    assert (invoiceDeliveries m !! i = Some k ∨
            (i = d_InvoiceID d ∧ k = d_ID d ∧ d_ID d = invoice_delivery_id i)) as [Hi'|(-> & -> & Hid)].
    { destruct Horig as [[Hid Ei]|(_ & _ & Ei)]; rewrite Ei in Hi; [|by left].
      rewrite lookup_insert in Hi. case_decide as E; simplify_eq; [by right|by left]. }
    + destruct (HI _ _ Hi') as [-> (d0 & Hd0 & ?)]. split; [done|]. exists d0.
      rewrite lookup_insert_ne; [done|]. intros Heq. rewrite Heq in Hfresh. congruence.
    + split; [done|]. exists d. by rewrite lookup_insert_eq.
Qed.

(** Marking a delivery done. *)
Lemma ledger_inv_mark n n' m m' k d t :
  ledger_inv n m → n <= n' → deliveries m !! k = Some d →
  schedules m' = schedules m → invoiceDeliveries m' = invoiceDeliveries m →
  deliveries m' = <[k := with_d_DeliveredAt t d]> (deliveries m) → ledger_inv n' m'.
Proof.
  intros [HD HU HS HI] Hn Hk Es Ei Ed.
  assert (∀ k0 d0, deliveries m' !! k0 = Some d0 → ∃ d1 t1, deliveries m !! k0 = Some d1 ∧
            (d0 = d1 ∨ d0 = with_d_DeliveredAt t1 d1)) as Hback.
  { intros k0 d0. rewrite Ed, lookup_insert. case_decide as E; [subst|]; intros; simplify_eq;
      [exists d, t; by auto|exists d0, t; by auto]. }
  split.
  - intros k0 d0 Hd0. destruct (Hback _ _ Hd0) as (d1 & t1 & Hd1 & Hd01).
    destruct (HD _ _ Hd1) as [A (s & B) C].
    destruct Hd01 as [->| ->]; split; rewrite ?Es, ?Ei; try done; by exists s.
  - intros k1 d1 k2 d2 H1 H2 Hsub Hrev.
    destruct (Hback _ _ H1) as (? & ? & ? & [->| ->]), (Hback _ _ H2) as (? & ? & ? & [->| ->]);
      eapply HU; eauto.
  - rewrite Es. intros sub s Hs. destruct (HS _ _ Hs) as (?&?&k0&d0&Hd0&?). split_and!; [done|lia|lia|].
    rewrite Ed. destruct (decide (k0 = k)) as [->|].
    + exists k, (with_d_DeliveredAt t d). rewrite lookup_insert_eq. by simplify_eq.
    + exists k0, d0. by rewrite lookup_insert_ne.
  - rewrite Ei. intros i k0 Hi. destruct (HI _ _ Hi) as [-> (d0 & Hd0 & ?)]. split; [done|].
    rewrite Ed. destruct (decide (invoice_delivery_id i = k)) as [<-|].
    + exists (with_d_DeliveredAt t d). rewrite lookup_insert_eq. by simplify_eq.
    + exists d0. by rewrite lookup_insert_ne.
Qed.

Lemma invoice_id_fresh n m i :
  ledger_inv n m → invoiceDeliveries m !! i = None → deliveries m !! invoice_delivery_id i = None.
Proof.
  intros Hinv Hi. destruct (deliveries m !! invoice_delivery_id i) as [d|] eqn:E; [|done].
  destruct (inv_deliveries _ _ Hinv _ _ E) as [_ _ [[Heq Hidx]|[Heq _]]].
  - apply invoice_delivery_id_inj in Heq. rewrite <-Heq in Hidx. congruence.
  - by apply invoice_schedule_id in Heq.
Qed.

Lemma schedule_id_fresh n m sub s :
  ledger_inv n m → schedules m !! sub = Some s →
  deliveries m !! schedule_delivery_id sub (sc_Revision s + 1) = None.
Proof.
  intros Hinv Hs. destruct (deliveries m !! schedule_delivery_id sub (sc_Revision s + 1)) as [d|] eqn:E; [|done].
  destruct (inv_deliveries _ _ Hinv _ _ E) as [_ (s' & Hs' & Hb & _) [[Heq _]|[Heq _]]].
  - by symmetry in Heq; apply invoice_schedule_id in Heq.
  - apply schedule_delivery_id_inj in Heq as [-> Hr]. simplify_eq. lia.
Qed.

Lemma wrap64_small x : min_int64 <= x <= max_int64 → wrap64 x = x.
Proof. unfold wrap64, min_int64, max_int64. intros. rewrite Z.mod_small by lia. lia. Qed.

Lemma stage_credit_inv n m i sub u now d g :
  ledger_inv n m → 0 <= n < max_int64 → ledger_inv (n + 1) (StageInvoiceCredit i sub u now d g m).2.
Proof.
  intros Hinv Hn. unfold StageInvoiceCredit.
  destruct (invoiceDeliveries m !! i) eqn:Ei; [apply (ledger_inv_frame n _ m); done || lia|].
  destruct (invoices m !! i) as [inv|]; [|apply (ledger_inv_frame n _ m); done || lia].
  destruct (negb _); [apply (ledger_inv_frame n _ m); done || lia|].
  set (t := credit_target _ _ _ _ _ _ _ _). cbn [snd].
  apply (ledger_inv_stage n m _ t); try done || lia; simpl.
  - by apply (invoice_id_fresh n).
  - destruct (schedules m !! sub) as [s|] eqn:Es; [|done].
    destruct (inv_schedules _ _ Hinv _ _ Es) as (_ & ? & _). apply wrap64_small. unfold min_int64. lia.
  - by left.
Qed.

Lemma stage_transition_inv n m sub r st now :
  ledger_inv n m → 0 <= n < max_int64 → ledger_inv (n + 1) (StageScheduleTransition sub r st now m).2.
Proof.
  intros Hinv Hn. unfold StageScheduleTransition.
  destruct (schedules m !! sub) as [s|] eqn:Es; [|apply (ledger_inv_frame n _ m); done || lia].
  destruct (negb _); [apply (ledger_inv_frame n _ m); done || lia|]. cbn [snd].
  destruct (inv_schedules _ _ Hinv _ _ Es) as (Hsub & ? & _).
  assert (wrap64 (sc_Revision s + 1) = sc_Revision s + 1) as Hw by (apply wrap64_small; unfold min_int64; lia).
  apply (ledger_inv_stage n m _ (transition_target s sub st now)); try done || lia; simpl; rewrite ?Hw.
  - by apply (schedule_id_fresh n).
  - by rewrite Es.
  - by right.
  - unfold schedule_of, advance_schedule; simpl. by rewrite Hsub, Hw.
Qed.

Lemma complete_inv n m now k :
  ledger_inv n m → ledger_inv (n + 1) (CompleteBillingDelivery now k m).2.
Proof.
  intros Hinv. unfold CompleteBillingDelivery.
  destruct (deliveries m !! k) as [d|] eqn:Ek; [|apply (ledger_inv_frame n _ m); done || lia].
  destruct (IsZero (d_DeliveredAt d)); [|apply (ledger_inv_frame n _ m); done || lia].
  assert (∀ m', schedules m' = schedules m → invoiceDeliveries m' = invoiceDeliveries m →
    deliveries m' = <[k := with_d_DeliveredAt now d]> (deliveries m) → ledger_inv (n + 1) m') as Hm
    by (intros; eapply (ledger_inv_mark n _ m); eauto; lia).
  case_bool_decide; [by apply Hm|]. case_match; by apply Hm.
Qed.

Lemma exec_op_inv n op m : ledger_inv n m → 0 <= n < max_int64 → ledger_inv (n + 1) (exec_op op m).
Proof.
  intros Hinv Hn. destruct (ledger_op op) eqn:Hop.
  - destruct op; try done; simpl;
      [by apply stage_credit_inv|by apply stage_transition_inv|by apply complete_inv].
  - apply (ledger_inv_frame n _ m); [lia|by apply exec_op_frame|done].
Qed.

(** Every state a run of the store reaches satisfies the invariant; int64 revisions bound the run. *)
Definition reaches (n : nat) (m : Memory) : Prop := nsteps repo_step n NewMemory m.

Lemma nsteps_inv n m m' k :
  ledger_inv k m → 0 <= k → k + Z.of_nat n <= max_int64 → nsteps repo_step n m m' →
  ledger_inv (k + Z.of_nat n) m'.
Proof.
  revert m k. induction n as [|n IH]; intros m k Hinv Hk Hn Hsteps.
  - inversion Hsteps; subst. by rewrite Z.add_0_r.
  - inversion Hsteps as [|? ? m1 ? [op ->] Hsteps']; subst.
    replace (k + Z.of_nat (S n)) with (k + 1 + Z.of_nat n) by lia.
    apply (IH (exec_op op m)); [apply exec_op_inv; [done|lia]|lia|lia|exact Hsteps'].
Qed.

Lemma reaches_inv n m : reaches n m → Z.of_nat n <= max_int64 → ledger_inv (Z.of_nat n) m.
Proof. intros Hr Hn. apply (nsteps_inv n NewMemory m 0); [apply ledger_inv_empty|lia|lia|done]. Qed.

(** ** Staged targets are frozen *)

(** [d'] is [d], possibly marked delivered since. *)
Definition same_target (d d' : BillingDelivery) : Prop :=
  d' = with_d_DeliveredAt (d_DeliveredAt d') d ∧ (d_DeliveredAt d ≠ zero_time → d' = d).

Lemma same_target_refl d : same_target d d.
Proof. by destruct d. Qed.
Lemma same_target_trans d1 d2 d3 : same_target d1 d2 → same_target d2 d3 → same_target d1 d3.
Proof.
  intros [E1 F1] [E2 F2]. split.
  - rewrite E2, E1. done.
  - intros H. rewrite (F1 H) in F2. rewrite F2; auto.
Qed.

Lemma exec_op_target n op m k d :
  ledger_inv n m → 0 <= n < max_int64 → deliveries m !! k = Some d →
  ∃ d', deliveries (exec_op op m) !! k = Some d' ∧ same_target d d'.
Proof.
  intros Hinv Hn Hk.
  destruct (ledger_op op) eqn:Hop.
  2:{ pose proof (exec_op_frame op m Hop) as E. unfold ledger_of in E. injection E as _ -> _.
      exists d. split; [done|apply same_target_refl]. }
  destruct op; try done; simpl.
  - unfold StageInvoiceCredit. destruct (invoiceDeliveries m !! invoiceID) eqn:Ei.
    { exists d. split; [done|apply same_target_refl]. }
    destruct (invoices m !! invoiceID); [destruct (negb _)|];
      try (exists d; split; [done|apply same_target_refl]).
    exists d. split; [|apply same_target_refl]. simpl. rewrite lookup_insert_ne; [done|].
    intros <-. by rewrite (invoice_id_fresh n) in Hk.
  - unfold StageScheduleTransition. destruct (schedules m !! subID) as [s|] eqn:Es; [destruct (negb _)|];
      try (exists d; split; [done|apply same_target_refl]).
    exists d. split; [|apply same_target_refl]. simpl. rewrite lookup_insert_ne; [done|].
    destruct (inv_schedules _ _ Hinv _ _ Es) as (_ & ? & _).
    rewrite wrap64_small by (unfold min_int64; lia).
    intros <-. by rewrite (schedule_id_fresh n _ _ _ Hinv Es) in Hk.
  - unfold CompleteBillingDelivery. destruct (deliveries m !! deliveryID) as [d0|] eqn:E0;
      [|by exists d; split; [done|apply same_target_refl]].
    destruct (IsZero (d_DeliveredAt d0)) eqn:Hz;
      [|by exists d; split; [done|apply same_target_refl]].
    assert (∃ d', <[deliveryID:=with_d_DeliveredAt now d0]> (deliveries m) !! k = Some d' ∧ same_target d d')
      as (d' & Hd' & ?).
    { rewrite lookup_insert. case_decide as Heq; [subst k|by exists d; split; [done|apply same_target_refl]].
      simplify_eq. eexists. split; [done|]. split; [done|]. intros Hnz. exfalso. apply Hnz.
      unfold IsZero in Hz. by apply Z.eqb_eq in Hz. }
    exists d'. split; [|done]. by repeat case_match.
Qed.

(** The ledger is ordered. In every reachable state the entries of one subscription carry distinct
    revisions, none above the schedule's, and the schedule is exactly the state of its newest
    entry: the plan, status, expiry and grace billing believes in are those it has staged last. *)
Theorem schedule_is_newest_delivery n m sub s :
  reaches n m → Z.of_nat n <= max_int64 → schedules m !! sub = Some s →
  (∃ k d, deliveries m !! k = Some d ∧ schedule_of d = s ∧
     ∀ k' d', deliveries m !! k' = Some d' → d_SubID d' = sub → k' ≠ k → 1 <= d_Revision d' < d_Revision d).
Proof.
  intros Hr Hn Hs. pose proof (reaches_inv _ _ Hr Hn) as Hinv.
  destruct (inv_schedules _ _ Hinv _ _ Hs) as (Hsub & Hb & k & d & Hd & Hds).
  exists k, d. split_and!; [done..|]. intros k' d' Hd' Hsub' Hne.
  destruct (dok_sched _ _ _ _ (inv_deliveries _ _ Hinv _ _ Hd')) as (s' & Hs' & Hb' & _).
  rewrite Hsub', Hs in Hs'. simplify_eq. simpl in *.
  assert (d_Revision d' ≠ d_Revision d) as Hrev; [|lia].
  intros Heq. apply Hne. by eapply (inv_unique _ _ Hinv).
Qed.

(** A staged target is immutable. Whatever any further interleaving of calls does, the entry
    stays in the ledger with the same subscription, revision, plan, status, expiry and grace; only
    its delivery mark is ever set, and only once. So every retry pushes the same absolute state. *)
Theorem staged_target_frozen n1 n2 m m' k d :
  reaches n1 m → nsteps repo_step n2 m m' → Z.of_nat (n1 + n2) <= max_int64 →
  deliveries m !! k = Some d → ∃ d', deliveries m' !! k = Some d' ∧ same_target d d'.
Proof.
  intros Hr Hsteps. revert n1 d Hr.
  induction Hsteps as [m|n2 m m1 m' [op ->] Hsteps IH]; intros n1 d Hr Hn Hk.
  { exists d. split; [done|apply same_target_refl]. }
  destruct (exec_op_target (Z.of_nat n1) op m k d) as (d1 & Hk1 & Ht); [apply reaches_inv; [done|lia]|lia|done|].
  destruct (IH (S n1) d1) as (d' & Hk' & Ht'); [|lia|done|].
  { eapply nsteps_r; [exact Hr|]. by exists op. }
  exists d'. split; [done|]. by eapply same_target_trans.
Qed.

Lemma invoice_entry_key n m k d :
  reaches n m → Z.of_nat n <= max_int64 → deliveries m !! k = Some d → d_InvoiceID d ≠ "" →
  k = invoice_delivery_id (d_InvoiceID d) ∧ invoiceDeliveries m !! d_InvoiceID d = Some k.
Proof.
  intros Hr Hn Hd Hne. pose proof (reaches_inv _ _ Hr Hn) as Hinv.
  by destruct (dok_origin _ _ _ _ (inv_deliveries _ _ Hinv _ _ Hd)) as [?|[_ ?]].
Qed.
(** C2: an invoice is credited at most once. When the ledger of a reachable state has an entry of an invoice, then
    after any further interleaving of store calls that entry is still there with its subscription, revision, plan,
    expiry and grace, it is the invoice's only entry, and staging the invoice again, with whatever arguments, answers
    with that entry and changes nothing: no schedule is extended a second time. *)
Theorem invoice_credited_once n1 n2 m m' k d :
  reaches n1 m → nsteps repo_step n2 m m' → Z.of_nat (n1 + n2) <= max_int64 →
  deliveries m !! k = Some d → d_InvoiceID d ≠ "" →
  ∃ d', deliveries m' !! k = Some d' ∧ same_target d d' ∧
    (∀ k1 d1, deliveries m' !! k1 = Some d1 → d_InvoiceID d1 = d_InvoiceID d → k1 = k) ∧
    (∀ sub u now duration grace, StageInvoiceCredit (d_InvoiceID d) sub u now duration grace m' = (Ok d', m')).
Proof.
  intros Hr Hsteps Hn Hd Hne. destruct (staged_target_frozen _ _ _ _ _ _ Hr Hsteps Hn Hd) as (d' & Hd' & Ht).
  pose proof (nsteps_trans _ _ _ _ _ Hr Hsteps) as Hr'.
  assert (d_InvoiceID d' = d_InvoiceID d) as Hid by (by rewrite (proj1 Ht)).
  destruct (invoice_entry_key _ _ _ _ Hr' Hn Hd') as [Hk Hi]; [by rewrite Hid|]. rewrite Hid in Hk, Hi.
  exists d'. split_and!; [done..| |].
  - intros k1 d1 Hd1 Heq. destruct (invoice_entry_key _ _ _ _ Hr' Hn Hd1) as [-> _]; [by rewrite Heq|]. by rewrite Heq.
  - intros sub u now duration grace. unfold StageInvoiceCredit. by rewrite Hi, Hd'.
Qed.
End ledger.

(** ** Concrete runs *)
Definition run `{ord : !MapOrder} (ops : list repo_op) (m : Memory) : Memory := foldl (λ m op, exec_op op m) m ops.

Lemma run_nsteps `{ord : !MapOrder} ops : ∀ m, nsteps repo_step (length ops) m (run ops m).
Proof.
  induction ops as [|op ops IH]; intros m; [constructor|].
  econstructor; [by exists op|apply IH].
Qed.

Definition demo_invoice : Invoice := {|
  inv_ID := "i1"; inv_Provider := "btcpay"; inv_AnonUserID := "u1"; inv_Plan := "basic"; inv_Currency := "BTC";
  inv_Amount := "0.01"; inv_PayAddress := "addr"; inv_ProviderInvoiceID := "p1"; inv_Status := StatusPending;
  inv_CreatedAt := 100; inv_ExpiresAt := 200 |}.
(** Create, credit, credit again (a duplicate webhook), transition, deliver the first entry. *)
Definition demo_ops : list repo_op := [
  OpCreateInvoice demo_invoice;
  OpStageInvoiceCredit "i1" "s1" "u1" 110 1000 50;
  OpStageInvoiceCredit "i1" "s1" "u1" 115 1000 50;
  OpStageScheduleTransition "s1" 1 SubscriptionStatusPastDue 1200;
  OpCompleteBillingDelivery 1300 "invoice:i1"].
Definition demo_memory : Memory := run (ord := key_order) demo_ops NewMemory.
Definition demo_credit : BillingDelivery := {|
  d_ID := "invoice:i1"; d_InvoiceID := "i1"; d_SubID := "s1"; d_AnonUserID := "u1"; d_Revision := 1;
  d_Plan := "basic"; d_Status := SubscriptionStatusActive; d_ExpiresAt := 1110; d_GraceUntil := 1160;
  d_CreatedAt := 110; d_DeliveredAt := 1300 |}.

Lemma invoice_credited_once_witness :
  schedules demo_memory !! "s1" ≠ None ∧
  ∃ d', deliveries demo_memory !! "invoice:i1" = Some d' ∧ same_target (with_d_DeliveredAt zero_time demo_credit) d' ∧
    (∀ k1 d1, deliveries demo_memory !! k1 = Some d1 → d_InvoiceID d1 = "i1" → k1 = "invoice:i1") ∧
    (∀ sub u now duration grace, StageInvoiceCredit "i1" sub u now duration grace demo_memory = (Ok d', demo_memory)).
Proof.
  split; [vm_compute; discriminate|].
  apply (invoice_credited_once (ord := key_order) 2 3 (run (ord := key_order) (take 2 demo_ops) NewMemory) demo_memory
    "invoice:i1" (with_d_DeliveredAt zero_time demo_credit)).
  - exact (run_nsteps (ord := key_order) (take 2 demo_ops) NewMemory).
  - exact (run_nsteps (ord := key_order) (drop 2 demo_ops) (run (ord := key_order) (take 2 demo_ops) NewMemory)).
  - vm_compute. discriminate.
  - vm_compute. reflexivity.
  - discriminate.
Defined.

Definition demo_schedule : Schedule := {|
  sc_SubID := "s1"; sc_AnonUserID := "u1"; sc_Revision := 2; sc_Plan := "basic"; sc_Status := SubscriptionStatusPastDue;
  sc_ExpiresAt := 1110; sc_GraceUntil := 1160 |}.
Lemma schedule_is_newest_delivery_witness :
  ∃ k d, deliveries demo_memory !! k = Some d ∧ schedule_of d = demo_schedule ∧
    ∀ k' d', deliveries demo_memory !! k' = Some d' → d_SubID d' = "s1" → k' ≠ k → 1 <= d_Revision d' < d_Revision d.
Proof.
  apply (schedule_is_newest_delivery (ord := key_order) 5).
  - exact (run_nsteps (ord := key_order) demo_ops NewMemory).
  - vm_compute. discriminate.
  - vm_compute. reflexivity.
Defined.

Lemma staged_target_frozen_witness :
  ∃ d', deliveries demo_memory !! "invoice:i1" = Some d' ∧ same_target (with_d_DeliveredAt zero_time demo_credit) d'.
Proof.
  apply (staged_target_frozen (ord := key_order) 2 3 (run (ord := key_order) (take 2 demo_ops) NewMemory)).
  - exact (run_nsteps (ord := key_order) (take 2 demo_ops) NewMemory).
  - exact (run_nsteps (ord := key_order) (drop 2 demo_ops) (run (ord := key_order) (take 2 demo_ops) NewMemory)).
  - vm_compute. discriminate.
  - vm_compute. reflexivity.
Defined.
