(* ===== verification/BillingPostgres.v ===== *)
(** * The billing store in Postgres (services/billing/internal/store: postgres.go, schema.sql)

    The tables of schema.sql as maps from primary keys to rows, every statement as a step on them (unique and
    foreign keys included), every method as the statements it runs. A statement reads the scan order of a table
    from [range] and the clock of the server as [now]. *)
From S2P Require Import Prelude GoText GoFloat GoTrace Sql Contracts BillingStore BillingLedger.

(** ** schema.sql *)
Record invoice_row := { ir_invoice : Invoice; ir_last_negative_check_at : option Time }.
Record lease_row := { lr_lease_token : string; lr_owner : string; lr_lease_until : Time }.
Record settlement_row := { sr_claimed_at : Time; sr_activated_at : option Time; sr_reconcile_leased_until : option Time }.
Record delivery_row := {
  dr_invoice_id : option string; dr_sub_id : string; dr_anon_user_id : string; dr_revision : Z; dr_plan : string;
  dr_status : string; dr_expires_at : Time; dr_grace_until : Time; dr_created_at : Time;
  dr_delivered_at : option Time; dr_leased_until : option Time }.
Record Db := mkDb {
  t_invoices : gmap string invoice_row; t_intents : gmap string InvoiceIntent; t_leases : gmap string lease_row;
  t_seen : gset (string * string); t_settlements : gmap string settlement_row; t_schedules : gmap string Schedule;
  t_deliveries : gmap string delivery_row }.
Definition empty_db : Db := mkDb ∅ ∅ ∅ ∅ ∅ ∅ ∅.
Definition on_invoices f db := mkDb (f (t_invoices db)) (t_intents db) (t_leases db) (t_seen db) (t_settlements db) (t_schedules db) (t_deliveries db).
Definition on_intents f db := mkDb (t_invoices db) (f (t_intents db)) (t_leases db) (t_seen db) (t_settlements db) (t_schedules db) (t_deliveries db).
Definition on_leases f db := mkDb (t_invoices db) (t_intents db) (f (t_leases db)) (t_seen db) (t_settlements db) (t_schedules db) (t_deliveries db).
Definition on_seen f db := mkDb (t_invoices db) (t_intents db) (t_leases db) (f (t_seen db)) (t_settlements db) (t_schedules db) (t_deliveries db).
Definition on_settlements f db := mkDb (t_invoices db) (t_intents db) (t_leases db) (t_seen db) (f (t_settlements db)) (t_schedules db) (t_deliveries db).
Definition on_schedules f db := mkDb (t_invoices db) (t_intents db) (t_leases db) (t_seen db) (t_settlements db) (f (t_schedules db)) (t_deliveries db).
Definition on_deliveries f db := mkDb (t_invoices db) (t_intents db) (t_leases db) (t_seen db) (t_settlements db) (t_schedules db) (f (t_deliveries db)).
Definition row_invoice (i : Invoice) : Invoice := {|
  inv_ID := inv_ID i; inv_Provider := inv_Provider i; inv_AnonUserID := inv_AnonUserID i; inv_Plan := inv_Plan i;
  inv_Currency := inv_Currency i; inv_Amount := inv_Amount i; inv_PayAddress := inv_PayAddress i;
  inv_ProviderInvoiceID := inv_ProviderInvoiceID i; inv_Status := inv_Status i;
  inv_CreatedAt := timestamptz (inv_CreatedAt i); inv_ExpiresAt := timestamptz (inv_ExpiresAt i) |}.
Definition new_row (i : Invoice) : invoice_row := {| ir_invoice := row_invoice i; ir_last_negative_check_at := None |}.
Definition with_status (s : Status) (r : invoice_row) : invoice_row := {|
  ir_invoice := with_inv_Status s (ir_invoice r); ir_last_negative_check_at := ir_last_negative_check_at r |}.
Definition with_check (c : option Time) (r : invoice_row) : invoice_row := {|
  ir_invoice := ir_invoice r; ir_last_negative_check_at := c |}.
Definition with_until (u : Time) (r : lease_row) : lease_row := {|
  lr_lease_token := lr_lease_token r; lr_owner := lr_owner r; lr_lease_until := u |}.
Definition with_leased (u : option Time) (r : settlement_row) : settlement_row := {|
  sr_claimed_at := sr_claimed_at r; sr_activated_at := sr_activated_at r; sr_reconcile_leased_until := u |}.
Definition with_delivery (delivered leased : option Time) (r : delivery_row) : delivery_row := {|
  dr_invoice_id := dr_invoice_id r; dr_sub_id := dr_sub_id r; dr_anon_user_id := dr_anon_user_id r; dr_revision := dr_revision r;
  dr_plan := dr_plan r; dr_status := dr_status r; dr_expires_at := dr_expires_at r; dr_grace_until := dr_grace_until r;
  dr_created_at := dr_created_at r; dr_delivered_at := delivered; dr_leased_until := leased |}.
(** COALESCE(delivered_at, 'epoch') *)
Definition epoch : Time := 62135596800 * Second.
(** scanDelivery of the columns every query of deliveries returns *)
Definition scanDelivery (id : string) (r : delivery_row) : BillingDelivery := {|
  d_ID := id; d_InvoiceID := default "" (dr_invoice_id r); d_SubID := dr_sub_id r; d_AnonUserID := dr_anon_user_id r;
  d_Revision := dr_revision r; d_Plan := dr_plan r; d_Status := dr_status r; d_ExpiresAt := dr_expires_at r;
  d_GraceUntil := dr_grace_until r; d_CreatedAt := dr_created_at r; d_DeliveredAt := default epoch (dr_delivered_at r) |}.

(** ** postgres.go *)
Section postgres.
Context `{ord : !MapOrder, pg : !Postgres}.
Abbreviation PM := (M (Session Db)).
Definition found {A} (o : option A) : result A := match o with Some a => Ok a | None => Err ErrNotFound end.
Definition scanInvoice (o : option invoice_row) : result Invoice := found (ir_invoice <$> o).

Definition insert_invoice (inv : Invoice) : M Db unit := λ db,
  match t_invoices db !! inv_ID inv with
  | Some _ => (Err ErrUnique, db)
  | None => (Ok tt, on_invoices <[inv_ID inv := new_row inv]> db)
  end.
Definition PgCreateInvoice (inv : Invoice) : PM unit := autocommit (insert_invoice inv).
(** order_id is UNIQUE, which ON CONFLICT (idempotency_key) does not cover. *)
Definition insert_intent (intent : InvoiceIntent) : M Db Z := λ db,
  match t_intents db !! it_IdempotencyKey intent with
  | Some _ => (Ok 0, db)
  | None =>
      if existsb (λ kv, bool_decide (it_OrderID kv.2 = it_OrderID intent)) (range (t_intents db)) then (Err ErrUnique, db)
      else (Ok 1, on_intents <[it_IdempotencyKey intent := with_it_State "reserved" (timestamptz (it_CreatedAt intent)) intent]> db)
  end.
Definition PgGetInvoiceIntent (key : string) : PM InvoiceIntent :=
  autocommit (λ db, (found (t_intents db !! key), db)).
Definition PgReserveInvoiceIntent (intent : InvoiceIntent) : PM (InvoiceIntent * bool) :=
  tag ←! autocommit (insert_intent intent) ;
  got ←! PgGetInvoiceIntent (it_IdempotencyKey intent) ;
  if negb (bool_decide (it_RequestHash got = it_RequestHash intent)) then fail ErrConflict else mret (got, tag =? 1).
Definition set_state (state : string) (i : InvoiceIntent) : InvoiceIntent := with_it_State state (it_CreatedAt i) i.
Definition PgBeginInvoiceCreate (key : string) : PM bool :=
  tag ←! autocommit (update_key on_intents t_intents key (λ i, bool_decide (it_State i = "reserved")) (set_state "creating")) ;
  mret (tag =? 1).
Definition PgCompleteInvoiceCreate (key : string) (inv : Invoice) : PM unit := transaction (
  intent ←! in_tx (λ db, (found (t_intents db !! key), db)) ;
  if negb (bool_decide (it_OrderID intent = inv_ID inv)) || negb (bool_decide (it_Provider intent = inv_Provider inv)) then fail ErrConflict
  else
    in_tx (λ db, match t_invoices db !! inv_ID inv with Some _ => (Ok tt, db) | None => (Ok tt, on_invoices <[inv_ID inv := new_row inv]> db) end) ;;!
    in_tx (update_key on_intents t_intents key (λ _, true) (set_state "ready")) ;;! mret tt).
Definition affected (tag : Z) : PM unit := if tag =? 0 then fail ErrNotFound else mret tt.
Definition PgFailInvoiceCreate (key : string) : PM unit :=
  tag ←! autocommit (update_key on_intents t_intents key (λ _, true) (set_state "failed")) ; affected tag.

Definition PgGetInvoice (id : string) : PM Invoice := autocommit (λ db, (scanInvoice (t_invoices db !! id), db)).
(** ORDER BY created_at DESC, id DESC *)
Definition newer (a b : string * invoice_row) : bool :=
  if TEqual (inv_CreatedAt (ir_invoice a.2)) (inv_CreatedAt (ir_invoice b.2)) then text_lt b.1 a.1
  else inv_CreatedAt (ir_invoice b.2) <? inv_CreatedAt (ir_invoice a.2).
Definition scanInvoiceOverview (kv : string * invoice_row) : InvoiceOverview := overview (ir_invoice kv.2).
Definition PgLatestInvoice (anonUserID : string) : PM InvoiceOverview := autocommit (λ db,
  (found (scanInvoiceOverview <$> head (sort_slice newer (rows (λ _ r, bool_decide (inv_AnonUserID (ir_invoice r) = anonUserID)) (t_invoices db)))), db)).
Definition count_rows (s : Status) (db : Db) : Z :=
  Z.of_nat (length (rows (λ _ r, bool_decide (inv_Status (ir_invoice r) = s)) (t_invoices db))).
Definition PgInvoiceSummary (recentLimit : Z) : PM (InvoiceCounts * list InvoiceOverview) :=
  let recentLimit := boundedRecentLimit recentLimit in
  transaction (
    counts ←! in_tx (λ db, (Ok {| cnt_Pending := count_rows StatusPending db; cnt_Settled := count_rows StatusSettled db;
      cnt_Expired := count_rows StatusExpired db; cnt_Invalid := count_rows StatusInvalid db |}, db)) ;
    recent ←! in_tx (λ db, (Ok (scanInvoiceOverview <$> take (Z.to_nat recentLimit) (sort_slice newer (range (t_invoices db)))), db)) ;
    mret (counts, recent)).
Definition PgSetInvoiceStatus (id : string) (s : Status) : PM unit :=
  tag ←! autocommit (update_key on_invoices t_invoices id (λ _, true) (with_status s)) ; affected tag.
Definition PgOpenInvoices : PM (list Invoice) := autocommit (λ db,
  (Ok ((λ kv : string * invoice_row, ir_invoice kv.2) <$> rows (λ _ r, is_pending (ir_invoice r)) (t_invoices db)), db)).
Definition PgSeenEvent (provider externalID : string) : PM bool :=
  autocommit (λ db, (Ok (bool_decide ((provider, externalID) ∈ t_seen db)), db)).
Definition PgRecordEvent (provider externalID : string) : PM unit :=
  autocommit (λ db, (Ok tt, on_seen (λ t, {[(provider, externalID)]} ∪ t) db)).

(** *** Settlement claims *)
Definition PgClaimSettlement (now : Time) (invoiceID : string) : PM bool := autocommit (λ db,
  match t_settlements db !! invoiceID with
  | Some _ => (Ok false, db)
  | None => (Ok true, on_settlements <[invoiceID := {| sr_claimed_at := now; sr_activated_at := None; sr_reconcile_leased_until := None |}]> db)
  end).
Definition PgReleaseSettlement (invoiceID : string) : PM unit := autocommit (λ db, (Ok tt, on_settlements (delete invoiceID) db)).
Definition PgMarkSettlementActivated (now : Time) (invoiceID : string) : PM unit :=
  autocommit (update_key on_settlements t_settlements invoiceID (λ s, negb (is_set (sr_activated_at s)))
    (λ s, {| sr_claimed_at := sr_claimed_at s; sr_activated_at := Some now; sr_reconcile_leased_until := sr_reconcile_leased_until s |})) ;;!
  mret tt.
Definition not_leased (now : Time) (until : option Time) : bool := match until with None => true | Some u => u <=? now end.
Definition stuck_row (db : Db) (now olderThan : Time) (id : string) (s : settlement_row) : bool :=
  match t_invoices db !! id with
  | None => false
  | Some i => is_pending (ir_invoice i) && (sr_claimed_at s <=? timestamptz olderThan) && not_leased now (sr_reconcile_leased_until s)
  end.
(** [LIMIT $n] *)
Definition ErrLimit : error := Errorf "LIMIT must not be negative".
Definition lease_stuck (now olderThan : Time) (leaseFor : Duration) (limit : Z) : M Db (list StuckSettlement) := λ db,
  if limit <? 0 then (Err ErrLimit, db)
  else
    let chosen := take (Z.to_nat limit)
      (sort_slice (λ a b : string * settlement_row, sr_claimed_at a.2 <? sr_claimed_at b.2) (rows (stuck_row db now olderThan) (t_settlements db))) in
    let until := now + make_interval (Seconds leaseFor) in
    (Ok ((λ kv : string * settlement_row, {| st_InvoiceID := kv.1; st_Activated := is_set (sr_activated_at kv.2) |}) <$> returning chosen),
     on_settlements (λ t, foldl (λ t kv, <[kv.1 := with_leased (Some until) kv.2]> t) t chosen) db).
Definition PgLeaseStuckSettlements (now olderThan : Time) (leaseFor : Duration) (limit : Z) : PM (list StuckSettlement) :=
  autocommit (lease_stuck now olderThan leaseFor limit).

(** *** The expiry sweep *)
Definition overdue_row (db : Db) (now : Time) (onchain : list string) (grace : Duration) (id : string) (r : invoice_row) : bool :=
  let inv := ir_invoice r in
  let deadline := inv_ExpiresAt inv + make_interval (Seconds grace) in
  is_pending inv &&
  ((negb (bool_decide (inv_Provider inv ∈ onchain)) && (inv_ExpiresAt inv <? timestamptz now)) ||
   (bool_decide (inv_Provider inv ∈ onchain) && (deadline <? timestamptz now) &&
    match ir_last_negative_check_at r with None => false | Some c => deadline <=? c end)) &&
  negb (is_set (t_settlements db !! id)) &&
  negb (match t_leases db !! id with Some l => timestamptz now <? lr_lease_until l | None => false end).
Definition PgExpireOverdue (now : Time) (onchain : list string) (grace : Duration) : PM unit := autocommit (λ db,
  (Ok tt, on_invoices (λ t, map_imap (λ id r, Some (if overdue_row db now onchain grace id r then with_status StatusExpired r else r)) t) db)).

(** *** Poll leases *)
Definition PgAcquirePollLease (now : Time) (token invoiceID owner : string) (leaseFor : Duration) : PM (string * bool) := wrapping "billing: acquire poll lease" (autocommit (λ db,
  let mine := {| lr_lease_token := token; lr_owner := owner; lr_lease_until := now + make_interval (Seconds leaseFor) |} in
  match t_leases db !! invoiceID with
  | Some l => if lr_lease_until l <=? now then (Ok (token, true), on_leases <[invoiceID := mine]> db) else (Ok ("", false), db)
  | None => if is_set (t_invoices db !! invoiceID) then (Ok (token, true), on_leases <[invoiceID := mine]> db) else (Err ErrForeignKey, db)
  end)).
Definition owned_by (token : string) (l : lease_row) : bool := bool_decide (lr_lease_token l = token).
Definition PgRenewPollLease (now : Time) (invoiceID token : string) (leaseFor : Duration) : PM bool :=
  tag ←! wrapping "billing: renew poll lease"
    (autocommit (update_key on_leases t_leases invoiceID (owned_by token) (with_until (now + make_interval (Seconds leaseFor))))) ;
  mret (tag =? 1).
Definition PgReleasePollLease (invoiceID token : string) : PM unit := autocommit (λ db,
  match t_leases db !! invoiceID with
  | Some l => if owned_by token l then (Ok tt, on_leases (delete invoiceID) db) else (Ok tt, db)
  | None => (Ok tt, db)
  end).
Definition PgRecordNegativeCheck (invoiceID : string) (checkAt : Time) : PM unit :=
  autocommit (update_key on_invoices t_invoices invoiceID (λ r, is_pending (ir_invoice r)) (with_check (Some (timestamptz checkAt)))) ;;! mret tt.
Definition PgClearNegativeCheck (invoiceID : string) : PM unit :=
  autocommit (update_key on_invoices t_invoices invoiceID (λ r, is_pending (ir_invoice r)) (with_check None)) ;;! mret tt.

(** *** The ledger *)
Definition delivery_columns (d : BillingDelivery) : delivery_row := {|
  dr_invoice_id := if bool_decide (d_InvoiceID d = "") then None else Some (d_InvoiceID d); dr_sub_id := d_SubID d;
  dr_anon_user_id := d_AnonUserID d; dr_revision := d_Revision d; dr_plan := d_Plan d; dr_status := d_Status d;
  dr_expires_at := timestamptz (d_ExpiresAt d); dr_grace_until := timestamptz (d_GraceUntil d);
  dr_created_at := timestamptz (d_CreatedAt d); dr_delivered_at := None; dr_leased_until := None |}.
Definition insertDelivery (d : BillingDelivery) : M Db unit := λ db,
  let r := delivery_columns d in
  let clash (kv : string * delivery_row) :=
    bool_decide (kv.1 = d_ID d) || (is_set (dr_invoice_id r) && bool_decide (dr_invoice_id kv.2 = dr_invoice_id r)) ||
    (bool_decide (dr_sub_id kv.2 = d_SubID d) && (dr_revision kv.2 =? d_Revision d)) in
  if existsb clash (range (t_deliveries db)) then (Err ErrUnique, db)
  else if match dr_invoice_id r with Some i => negb (is_set (t_invoices db !! i)) | None => false end then (Err ErrForeignKey, db)
  else (Ok tt, on_deliveries <[d_ID d := r]> db).
Definition delivery_of_invoice (invoiceID : string) (db : Db) : option BillingDelivery :=
  (λ kv, scanDelivery kv.1 kv.2) <$> head (rows (λ _ r, bool_decide (dr_invoice_id r = Some invoiceID)) (t_deliveries db)).
(** The read, with no row as [None] *)
Definition getDeliveryByInvoice (invoiceID : string) : PM (option BillingDelivery) := in_tx (λ db, (Ok (delivery_of_invoice invoiceID db), db)).
Definition getScheduleForUpdate (subID : string) : PM (option Schedule) := in_tx (λ db, (Ok (t_schedules db !! subID), db)).
Definition schedule_row (s : Schedule) : Schedule := {|
  sc_SubID := sc_SubID s; sc_AnonUserID := sc_AnonUserID s; sc_Revision := sc_Revision s; sc_Plan := sc_Plan s;
  sc_Status := sc_Status s; sc_ExpiresAt := timestamptz (sc_ExpiresAt s); sc_GraceUntil := timestamptz (sc_GraceUntil s) |}.
Definition PgStageInvoiceCredit (invoiceID subID anonUserID : string) (now : Time) (duration grace : Duration) : PM BillingDelivery := transaction (
  existing ←! getDeliveryByInvoice invoiceID ;
  match existing with
  | Some d => mret d
  | None =>
      inv ←! in_tx (λ db, (scanInvoice (t_invoices db !! invoiceID), db)) ;
      if negb (bool_decide (inv_AnonUserID inv = anonUserID)) then fail ErrConflict
      else
        sched ←! getScheduleForUpdate subID ;
        let base := match sched with Some s => if After (sc_ExpiresAt s) now then sc_ExpiresAt s else now | None => now end in
        let revision := match sched with Some s => wrap64 (sc_Revision s + 1) | None => 1 end in
        let expiresAt := Add base duration in
        let delivery := {|
          d_ID := "invoice:" +:+ invoiceID; d_InvoiceID := invoiceID; d_SubID := subID; d_AnonUserID := anonUserID;
          d_Revision := revision; d_Plan := inv_Plan inv; d_Status := "active"; d_ExpiresAt := expiresAt;
          d_GraceUntil := Add expiresAt grace; d_CreatedAt := now; d_DeliveredAt := zero_time |} in
        in_tx (insertDelivery delivery) ;;!
        in_tx (λ db, (Ok tt, on_schedules <[subID := schedule_row (schedule_of delivery)]> db)) ;;!
        mret delivery
  end).
Definition PgStageScheduleTransition (subID : string) (expectedRevision : Z) (status : string) (now : Time) : PM (BillingDelivery * bool) := transaction (
  sched ←! getScheduleForUpdate subID ;
  match sched with
  | None => fail ErrNotFound
  | Some s =>
      if negb (sc_Revision s =? expectedRevision) then mret (zero_delivery, false)
      else
        let revision := wrap64 (sc_Revision s + 1) in
        let delivery := {|
          d_ID := "schedule:" +:+ subID +:+ ":" +:+ itoa revision; d_InvoiceID := ""; d_SubID := subID; d_AnonUserID := sc_AnonUserID s;
          d_Revision := revision; d_Plan := sc_Plan s; d_Status := status; d_ExpiresAt := sc_ExpiresAt s;
          d_GraceUntil := sc_GraceUntil s; d_CreatedAt := now; d_DeliveredAt := zero_time |} in
        in_tx (insertDelivery delivery) ;;!
        in_tx (update_key on_schedules t_schedules subID (λ _, true) (λ s, advance_schedule s (d_Revision delivery) status)) ;;!
        mret (delivery, true)
  end).
Definition due_row (now olderThan : Time) (_ : string) (r : delivery_row) : bool :=
  negb (is_set (dr_delivered_at r)) && (dr_created_at r <? timestamptz olderThan) && not_leased now (dr_leased_until r).
(** ORDER BY created_at, id *)
Definition row_before (a b : string * delivery_row) : bool :=
  if TEqual (dr_created_at a.2) (dr_created_at b.2) then text_lt a.1 b.1 else dr_created_at a.2 <? dr_created_at b.2.
Definition lease_deliveries (now olderThan : Time) (leaseFor : Duration) (limit : Z) : M Db (list BillingDelivery) := λ db,
  if limit <? 0 then (Err ErrLimit, db)
  else
    let chosen := take (Z.to_nat limit) (sort_slice row_before (rows (due_row now olderThan) (t_deliveries db))) in
    let until := now + make_interval (Seconds leaseFor) in
    (Ok ((λ kv, scanDelivery kv.1 kv.2) <$> returning chosen),
     on_deliveries (λ t, foldl (λ t kv, <[kv.1 := with_delivery (dr_delivered_at kv.2) (Some until) kv.2]> t) t chosen) db).
Definition PgLeaseBillingDeliveries (now olderThan : Time) (leaseFor : Duration) (limit : Z) : PM (list BillingDelivery) :=
  autocommit (lease_deliveries now olderThan leaseFor limit).
Definition PgCompleteBillingDelivery (now : Time) (deliveryID : string) : PM unit := transaction (
  invoiceID ←! in_tx (λ db, match t_deliveries db !! deliveryID with
    | None => (Err ErrNotFound, db)
    | Some r => (Ok (dr_invoice_id r), on_deliveries <[deliveryID := with_delivery (Some (default now (dr_delivered_at r))) None r]> db)
    end) ;
  match invoiceID with
  | Some i => in_tx (update_key on_invoices t_invoices i (λ _, true) (with_status StatusSettled)) ;;! mret tt
  | None => mret tt
  end).

(** *** Schedules *)
Definition PgUpsertSchedule (s : Schedule) : PM unit := autocommit (λ db,
  let s := schedule_row s in
  let s := match t_schedules db !! sc_SubID s with
           | Some cur => {| sc_SubID := sc_SubID s; sc_AnonUserID := sc_AnonUserID s; sc_Revision := Z.max (sc_Revision cur) (sc_Revision s);
               sc_Plan := if bool_decide (sc_Plan s = "") then sc_Plan cur else sc_Plan s; sc_Status := sc_Status s;
               sc_ExpiresAt := sc_ExpiresAt s; sc_GraceUntil := sc_GraceUntil s |}
           | None => s
           end in
  (Ok tt, on_schedules <[sc_SubID s := s]> db)).
Definition PgGetSchedule (subID : string) : PM Schedule := autocommit (λ db, (found (t_schedules db !! subID), db)).
Definition PgDueSchedules (now : Time) : PM (list Schedule) := autocommit (λ db,
  (Ok (rows (λ _ s, negb (bool_decide (sc_Status s = "expired")) && (sc_ExpiresAt s <=? timestamptz now)) (t_schedules db)).*2, db)).
Definition PgPing : PM unit := autocommit (λ db, (Ok tt, db)).
End postgres.

(** ** WithUserLock: a session-scoped advisory lock on one dedicated connection *)
Definition advisoryLockNamespace : Z := 45329.
Definition int32 (x : Z) : Z := (x + 2 ^ 31) mod 2 ^ 32 - 2 ^ 31.
Inductive lock_event :=
| LAcquire (ok : bool) | LLock (key : Z * Z) (ok : bool) | LUnlock (key : Z * Z) (ok : bool) | LClose | LRelease.
Section userlock.
Context {E : Type} (acquire : M E unit) (lock unlock : Z * Z → M E unit) (close release : M E unit) (crc32 : string → Z).
Abbreviation LM := (M (Traced E lock_event)).
Definition WithUserLock (userID : string) (fn : LM unit) : LM unit :=
  wrapping "billing: acquire lock connection" (call (λ r, LAcquire (is_ok r)) acquire) ;;!
  let key := (advisoryLockNamespace, int32 (crc32 userID)) in
  let give_back : LM unit := ignore (call (λ _, LRelease) release) in
  locked ←! try (call (λ r, LLock key (is_ok r)) (lock key)) ;
  match locked with
  | Err e => give_back ;;! fail (wrap_err "billing: advisory lock" e)
  | Ok _ =>
      r ←! try fn ;
      unlocked ←! try (call (λ r, LUnlock key (is_ok r)) (unlock key)) ;
      (if is_ok unlocked then mret tt else ignore (call (λ _, LClose) close)) ;;!
      give_back ;;!
      (λ w, (r, w))
  end.

(** The lock is given up on every way out of the work: unlocked, or its connection closed before it goes back. *)
Lemma WithUserLock_released userID fn P : emits fn P →
  let key := (advisoryLockNamespace, int32 (crc32 userID)) in
  emits (WithUserLock userID fn) (λ t r,
    (is_ok r = false ∧ (t = [LAcquire false] ∨ t = [LAcquire true; LLock key false; LRelease])) ∨
    ∃ work ending, t = [LAcquire true; LLock key true] ++ work ++ ending ∧ P work r ∧
      (ending = [LUnlock key true; LRelease] ∨ ending = [LUnlock key false; LClose; LRelease])).
Proof.
  intros Hfn key. unfold WithUserLock. eapply emits_then; [apply emits_wrapping, emits_call| |].
  2: { intros t e [e' ->]. left. split; [done|by left]. }
  intros t0 [] H0. simpl in H0. subst t0. eapply emits_then; [apply emits_try, emits_call| |intros t e (? & ? & _); done].
  intros t1 locked (r1 & [= <-] & ->). destruct locked as [[]|e].
  2: { eapply emits_then; [apply emits_ignore, emits_call| |intros t e0 [? _]; done]. intros t2 [] (_ & ? & ->).
       eapply emits_mono; [apply emits_fail|]. intros t r [-> ->]. left. split; [done|by right]. }
  eapply emits_then; [by apply emits_try| |intros t e (? & ? & _); done]. intros work r (r0 & [= <-] & HP).
  eapply emits_then; [apply emits_try, emits_call| |intros t e (? & ? & _); done]. intros t2 unlocked (r2 & [= <-] & ->).
  assert (Hend : emits (ignore (call (λ _, LRelease) release) ;;! (λ w : Traced E lock_event, (r, w))) (λ t r', t = [LRelease] ∧ r' = r)).
  { eapply emits_then; [apply emits_ignore, emits_call| |intros t e0 [? _]; done]. intros t3 [] (_ & ? & ->).
    intros w. exists []. by rewrite app_nil_r. }
  destruct unlocked as [[]|e]; cbn [is_ok].
  - eapply emits_then; [apply emits_ret| |intros t e [_ ?]; done]. intros t3 [] [-> _].
    eapply emits_mono; [apply Hend|]. intros t r' [-> ->]. right. exists work, [LUnlock key true; LRelease]. auto.
  - eapply emits_then; [apply emits_ignore, emits_call| |intros t e0 [? _]; done]. intros t3 [] (_ & ? & ->).
    eapply emits_mono; [apply Hend|]. intros t r' [-> ->]. right. exists work, [LUnlock key false; LClose; LRelease]. auto.
Qed.
End userlock.
