(* ===== verification/BillingLeases.v ===== *)
(** * Claims, leases and the expiry sweep of the billing store

    The functional behaviour of [ExpireOverdue], [LeaseStuckSettlements], [LeaseBillingDeliveries] and
    of the poll lease: what is selected, in which order, and that two workers never own one row. *)
From S2P Require Import Prelude GoText Contracts BillingStore BillingLedger.

Section leases.
Context `{ord : !MapOrder}.

(** ** The sweep *)
Lemma ExpireOverdue_lookup m now oc g id :
  invoices (ExpireOverdue now oc g m).2 !! id =
    (λ inv, if overdue m now oc g id inv then with_inv_Status StatusExpired inv else inv) <$> invoices m !! id.
Proof.
  simpl. rewrite range_update_lookup. destruct (invoices m !! id) as [inv|]; simpl; [|done].
  by destruct (overdue _ _ _ _ _ _).
Qed.

(** The sweep never buries a payment in flight. If an invoice's record differs after a sweep, it was
    pending and is now expired and otherwise unchanged; it had a deadline that strictly passed; it
    carried no settlement claim and no live poll lease; and an on-chain invoice had passed its grace
    and had a definitive negative chain check at or after the graced deadline. *)
Theorem ExpireOverdue_safe m now oc g id inv inv' :
  invoices m !! id = Some inv → invoices (ExpireOverdue now oc g m).2 !! id = Some inv' → inv' ≠ inv →
  inv_Status inv = StatusPending ∧ inv' = with_inv_Status StatusExpired inv ∧
  settled m !! id = None ∧ inv_ExpiresAt inv ≠ zero_time ∧
  (∀ l, pollLeases m !! id = Some l → l_until l <= now) ∧
  (if decide (inv_Provider inv ∈ oc)
   then inv_ExpiresAt inv + g < now ∧ ∃ nc, negativeCheck m !! id = Some nc ∧ inv_ExpiresAt inv + g <= nc
   else inv_ExpiresAt inv < now).
Proof.
  intros Hid Hid'. rewrite ExpireOverdue_lookup, Hid in Hid'. simpl in Hid'. injection Hid' as <-.
  destruct (overdue m now oc g id inv) eqn:Hov; [intros _|done].
  unfold overdue, is_pending, IsZero, After, Before, Add in Hov.
  destruct (bool_decide_reflect (inv_Status inv = StatusPending)) as [Hp|]; [|done].
  destruct (Z.eqb_spec (inv_ExpiresAt inv) 0) as [|Hz]; [done|]. cbn [negb orb] in Hov.
  destruct (settled m !! id); [done|]. cbn [is_set] in Hov.
  assert (∀ l, pollLeases m !! id = Some l → l_until l <= now) as Hlease.
  { intros l Hl. rewrite Hl in Hov. destruct (Z.ltb_spec now (l_until l)); [done|lia]. }
  split_and!; try done.
  destruct (match pollLeases m !! id with Some l => now <? l_until l | None => false end); [done|].
  destruct (decide (inv_Provider inv ∈ oc)) as [Hin|Hin].
  - rewrite bool_decide_true in Hov by done.
    destruct (Z.ltb_spec (inv_ExpiresAt inv + g) now); [|done]. split; [done|]. cbn [negb] in Hov.
    destruct (negativeCheck m !! id) as [nc|]; [|done]. exists nc. split; [done|].
    destruct (Z.ltb_spec nc (inv_ExpiresAt inv + g)); [done|lia].
  - rewrite bool_decide_false in Hov by done. by apply Z.ltb_lt in Hov.
Qed.

(** ** Recovery leases of claimed settlements *)
Definition settlement_older (a b : string * memSettlement) : bool := Before (claimedAt a.2) (claimedAt b.2).
Lemma settlement_older_weak : strict_weak settlement_older.
Proof. apply (strict_weak_map (λ a : string * memSettlement, claimedAt a.2)), strict_weak_Zltb. Qed.

Definition stuck_list (m : Memory) (now olderThan : Time) : list (string * memSettlement) :=
  sort_slice settlement_older (filter (λ kv, stuck m now olderThan kv = true) (range (settled m))).

Lemma elem_of_stuck_list m now ot i s :
  (i, s) ∈ stuck_list m now ot ↔ settled m !! i = Some s ∧ stuck m now ot (i, s) = true.
Proof. unfold stuck_list. rewrite elem_of_sort_slice, list_elem_of_filter, elem_of_range. tauto. Qed.

Lemma elem_of_limited {A} limit (l : list A) x : x ∈ limited limit l → x ∈ l.
Proof. unfold limited. case_match; [|done]. intros Hx. rewrite <-(take_drop (Z.to_nat limit) l). apply elem_of_app. by left. Qed.

(** What a limited selection from a sorted list leaves out comes after everything it takes. *)
Lemma limited_spec {A} (R : A → A → Prop) limit l :
  StronglySorted R l →
  (0 < limit → Z.of_nat (length (limited limit l)) <= limit) ∧
  (∀ y, y ∈ l → y ∉ limited limit l →
     0 < limit ∧ Z.of_nat (length (limited limit l)) = limit ∧ ∀ x, x ∈ limited limit l → R x y).
Proof.
  intros Hs. unfold limited. destruct (Z.ltb_spec 0 limit) as [Hl|Hl]; [|split; [lia|done]].
  split; [intros _; rewrite length_take; lia|]. intros y Hy Hny.
  assert (y ∈ drop (Z.to_nat limit) l) as Hd.
  { rewrite <-(take_drop (Z.to_nat limit) l) in Hy. by apply elem_of_app in Hy as [?|?]. }
  split_and!; [done| |].
  - rewrite length_take. assert (Z.to_nat limit < length l)%nat; [|lia].
    destruct (decide (Z.to_nat limit < length l)%nat); [done|].
    rewrite drop_ge in Hd by lia. by apply elem_of_nil in Hd.
  - intros x Hx. by eapply StronglySorted_take_drop.
Qed.

Lemma LeaseStuckSettlements_unfold m now ot lf lim :
  LeaseStuckSettlements now ot lf lim m =
    (Ok ((λ c : string * memSettlement, {| st_InvoiceID := c.1; st_Activated := negb (IsZero (activatedAt c.2)) |})
           <$> limited lim (stuck_list m now ot)),
     set_settled (λ s, foldl (lease_settlement (Add now lf)) s (limited lim (stuck_list m now ot))) m).
Proof. done. Qed.

Lemma leased_settlement_lookup m now ot lf lim i s :
  (i, s) ∈ limited lim (stuck_list m now ot) →
  settled (LeaseStuckSettlements now ot lf lim m).2 !! i =
    Some {| claimedAt := claimedAt s; activatedAt := activatedAt s; leasedUntil := now + lf |}.
Proof.
  intros Hin. rewrite LeaseStuckSettlements_unfold. simpl.
  apply (foldl_insert_in fst (λ kv : string * memSettlement,
    {| claimedAt := claimedAt kv.2; activatedAt := activatedAt kv.2; leasedUntil := Add now lf |}) _ _ (i, s)); [|done].
  intros [i' s'] Hin' Hi; simpl in *; subst i'.
  apply elem_of_limited, elem_of_stuck_list in Hin as [H1 _].
  apply elem_of_limited, elem_of_stuck_list in Hin' as [H2 _]. by simplify_eq.
Qed.

(** recovery takes the stale claims, oldest first. Every leased row is a claim on a still pending
    invoice, at least as old as the threshold and not under a live lease; at most [limit] rows are
    leased when there is a limit; and a stuck claim is left out only when the batch is full and
    everything in it was claimed no later. *)
Theorem LeaseStuckSettlements_selects m now ot lf lim out m' :
  LeaseStuckSettlements now ot lf lim m = (Ok out, m') →
  (∀ r, r ∈ out → ∃ s, settled m !! st_InvoiceID r = Some s ∧ stuck m now ot (st_InvoiceID r, s) = true ∧
      (st_Activated r = true ↔ activatedAt s ≠ zero_time)) ∧
  (0 < lim → Z.of_nat (length out) <= lim) ∧
  (∀ i s, settled m !! i = Some s → stuck m now ot (i, s) = true → i ∉ st_InvoiceID <$> out →
      0 < lim ∧ Z.of_nat (length out) = lim ∧
      ∀ j sj, settled m !! j = Some sj → j ∈ st_InvoiceID <$> out → claimedAt sj <= claimedAt s).
Proof.
  rewrite LeaseStuckSettlements_unfold. intros [= <- <-].
  destruct (limited_spec (not_after settlement_older) lim (stuck_list m now ot)) as [Hlen Hout].
  { apply sort_slice_sorted, settlement_older_weak. }
  rewrite length_fmap. split_and!; [|done|].
  - intros r Hr. apply list_elem_of_fmap in Hr as ([i s] & -> & Hin). simpl.
    apply elem_of_limited, elem_of_stuck_list in Hin as [? ?]. exists s. split_and!; [done..|].
    unfold IsZero, zero_time. destruct (Z.eqb_spec (activatedAt s) 0); naive_solver.
  - intros i s Hs Hst Hni. destruct (Hout (i, s)) as (? & ? & Hafter).
    + by apply elem_of_stuck_list.
    + intros Hin. apply Hni. rewrite <-list_fmap_compose. apply list_elem_of_fmap. by exists (i, s).
    + split_and!; [done..|]. intros j sj Hj Hjin. rewrite <-list_fmap_compose in Hjin.
      apply list_elem_of_fmap in Hjin as ([j' sj'] & Heq & Hjin). simpl in Heq. subst j'.
      pose proof (Hafter _ Hjin) as Hle. apply elem_of_limited, elem_of_stuck_list in Hjin as [Hj' _].
      simplify_eq. unfold not_after, settlement_older, Before in Hle. simpl in Hle. by apply Z.ltb_ge in Hle.
Qed.

(** two reconcilers never own one settlement: a batch leased while an earlier lease is live has no
    row in common with it, whatever thresholds and limits the two used. *)
Theorem LeaseStuckSettlements_exclusive m now1 ot1 lf1 lim1 out1 m1 now2 ot2 lf2 lim2 out2 m2 :
  LeaseStuckSettlements now1 ot1 lf1 lim1 m = (Ok out1, m1) →
  LeaseStuckSettlements now2 ot2 lf2 lim2 m1 = (Ok out2, m2) →
  now1 + lf1 ≠ zero_time → now2 < now1 + lf1 →
  ∀ i, i ∈ st_InvoiceID <$> out1 → i ∉ st_InvoiceID <$> out2.
Proof.
  intros H1 H2 Hz Hlt i Hi1 Hi2.
  pose proof H1 as H1'. rewrite LeaseStuckSettlements_unfold in H1. injection H1 as <- <-.
  rewrite <-list_fmap_compose in Hi1. apply list_elem_of_fmap in Hi1 as ([i' s] & -> & Hin1).
  pose proof (leased_settlement_lookup m now1 ot1 lf1 lim1 i' s Hin1) as Hl.
  rewrite LeaseStuckSettlements_unfold in H2. injection H2 as <- <-.
  rewrite <-list_fmap_compose in Hi2. apply list_elem_of_fmap in Hi2 as ([i2 s2] & Heq & Hin2).
  simpl in Heq. subst i2. apply elem_of_limited, elem_of_stuck_list in Hin2 as [Hs2 Hst].
  rewrite LeaseStuckSettlements_unfold in Hl. cbn [snd] in Hl. rewrite Hl in Hs2. injection Hs2 as <-.
  unfold stuck in Hst. simpl in Hst. destruct (invoices m !! i'); [|done].
  unfold IsZero, After, zero_time in *. rewrite (proj2 (Z.eqb_neq _ _) Hz), (proj2 (Z.ltb_lt _ _) Hlt) in Hst.
  cbn in Hst. by rewrite andb_false_r in Hst.
Qed.

(** ** Recovery leases of undelivered ledger entries *)
Definition delivery_list (m : Memory) (now olderThan : Time) : list BillingDelivery :=
  sort_slice delivery_before (filter (λ d, leasable m now olderThan d = true) (range (deliveries m)).*2).

Lemma elem_of_delivery_list m now ot d :
  d ∈ delivery_list m now ot ↔ (∃ k, deliveries m !! k = Some d) ∧ leasable m now ot d = true.
Proof.
  unfold delivery_list. rewrite elem_of_sort_slice, list_elem_of_filter, list_elem_of_fmap.
  split; [intros (? & [k d'] & -> & Hk)|intros ((k & Hk) & ?)]; (split; [|done]) || (split; [done|]).
  - exists k. by apply elem_of_range.
  - exists (k, d). split; [done|]. by apply elem_of_range.
Qed.

Lemma LeaseBillingDeliveries_unfold m now ot lf lim :
  LeaseBillingDeliveries now ot lf lim m =
    (Ok (limited lim (delivery_list m now ot)),
     set_settled (λ s, foldl (lease_delivery (Add now lf)) s (limited lim (delivery_list m now ot))) m).
Proof. done. Qed.

Lemma leased_delivery_lookup m now ot lf lim d :
  d ∈ limited lim (delivery_list m now ot) →
  settled (LeaseBillingDeliveries now ot lf lim m).2 !! lease_key (d_ID d) =
    Some {| claimedAt := zero_time; activatedAt := zero_time; leasedUntil := now + lf |}.
Proof.
  intros Hin. rewrite LeaseBillingDeliveries_unfold. simpl.
  by apply (foldl_insert_in (λ d, lease_key (d_ID d)) (λ _, {| claimedAt := zero_time;
    activatedAt := zero_time; leasedUntil := Add now lf |})).
Qed.

(** The outbox lease is exclusive and complete: a batch leased while an earlier lease is live shares
    no entry with it, and with no limit a batch holds exactly the undelivered entries staged before
    the threshold and not under a live lease. *)
Theorem LeaseBillingDeliveries_exclusive m now1 ot1 lf1 lim1 out1 m1 now2 ot2 lf2 lim2 out2 m2 :
  LeaseBillingDeliveries now1 ot1 lf1 lim1 m = (Ok out1, m1) →
  LeaseBillingDeliveries now2 ot2 lf2 lim2 m1 = (Ok out2, m2) →
  now2 < now1 + lf1 →
  (∀ d1 d2, d1 ∈ out1 → d2 ∈ out2 → d_ID d1 ≠ d_ID d2) ∧
  (lim1 <= 0 → ∀ d, d ∈ out1 ↔ (∃ k, deliveries m !! k = Some d) ∧ leasable m now1 ot1 d = true).
Proof.
  intros H1 H2 Hlt. rewrite LeaseBillingDeliveries_unfold in H1, H2.
  injection H1 as <- <-. injection H2 as <- _. split.
  - intros d1 d2 Hin1 Hin2 Heq.
    pose proof (leased_delivery_lookup m now1 ot1 lf1 lim1 d1 Hin1) as Hl.
    rewrite LeaseBillingDeliveries_unfold in Hl. cbn [snd] in Hl.
    apply elem_of_limited, elem_of_delivery_list in Hin2 as [_ Hok].
    unfold leasable in Hok. rewrite <-Heq, Hl in Hok. unfold After in Hok. simpl in Hok.
    rewrite (proj2 (Z.ltb_lt _ _) Hlt) in Hok. by rewrite andb_false_r in Hok.
  - intros Hlim d. unfold limited. rewrite (proj2 (Z.ltb_ge _ _) Hlim). apply elem_of_delivery_list.
Qed.

(** ** The poll lease *)

(** A call that is not the lease holder's own: another poller's acquire before the lease lapses, or a
    renew or release with another token; every other store method is free. *)
Definition foreign (id token : string) (until : Time) (op : repo_op) : Prop :=
  match op with
  | OpAcquirePollLease now _ i _ _ => i = id → now < until
  | OpRenewPollLease _ i tk _ | OpReleasePollLease i tk => i = id → tk ≠ token
  | _ => True
  end.

Lemma foreign_keeps_lease id op m l :
  pollLeases m !! id = Some l → foreign id (l_token l) (l_until l) op →
  pollLeases (exec_op op m) !! id = Some l.
Proof.
  intros Hl Hf. destruct op; simpl in *; try done;
    unfold SetInvoiceStatus, ClaimSettlement, MarkSettlementActivated, RecordNegativeCheck, ClearNegativeCheck,
      ReserveInvoiceIntent, BeginInvoiceCreate, CompleteInvoiceCreate, FailInvoiceCreate, StageInvoiceCredit,
      StageScheduleTransition, CompleteBillingDelivery; try by repeat case_match.
  - unfold AcquirePollLease. destruct (decide (invoiceID = id)) as [->|Hne].
    + rewrite Hl. unfold After. by rewrite (proj2 (Z.ltb_lt _ _) (Hf eq_refl)).
    + repeat case_match; simpl; by rewrite ?lookup_insert_ne.
  - unfold RenewPollLease. destruct (decide (invoiceID = id)) as [->|Hne].
    + rewrite Hl, bool_decide_false; [done|]. intros <-. by apply Hf.
    + repeat case_match; simpl; by rewrite ?lookup_insert_ne.
  - unfold ReleasePollLease. destruct (decide (invoiceID = id)) as [->|Hne].
    + rewrite Hl, bool_decide_false; [done|]. intros <-. by apply Hf.
    + repeat case_match; simpl; by rewrite ?lookup_delete_ne.
Qed.

(** The poll lease is a mutex with expiry. A poller that acquires it holds it, with its own token,
    through any interleaving of store calls in which nobody else presents that token and no other
    acquire happens after the lease lapses; a stale owner can neither renew nor drop it, and every
    competing acquire meanwhile is refused. *)
Theorem poll_lease_exclusive m now token id owner lf ops now' token' owner' lf' :
  (AcquirePollLease now token id owner lf m).1 = Ok (token, true) →
  Forall (foreign id token (now + lf)) ops → now' < now + lf →
  let m' := foldl (λ m op, exec_op op m) (AcquirePollLease now token id owner lf m).2 ops in
  pollLeases m' !! id = Some {| l_token := token; l_owner := owner; l_until := now + lf |} ∧
  AcquirePollLease now' token' id owner' lf' m' = (Ok ("", false), m').
Proof.
  intros Hacq Hops Hlt m'.
  assert (pollLeases m' !! id = Some {| l_token := token; l_owner := owner; l_until := now + lf |}) as Hl.
  { assert (pollLeases (AcquirePollLease now token id owner lf m).2 !! id =
            Some {| l_token := token; l_owner := owner; l_until := now + lf |}) as H0.
    { unfold AcquirePollLease in *. destruct (pollLeases m !! id) as [l|] eqn:El; [destruct (After _ _)|];
        simpl in *; try discriminate; by rewrite lookup_insert_eq. }
    subst m'. revert H0. generalize (AcquirePollLease now token id owner lf m).2. clear Hacq m.
    induction Hops as [|op ops Hop _ IH]; intros m0 H0; [done|]. simpl. apply IH.
    by apply foreign_keeps_lease. }
  split; [done|]. unfold AcquirePollLease. rewrite Hl. unfold After. simpl.
  by rewrite (proj2 (Z.ltb_lt _ _) Hlt).
Qed.
End leases.

(** ** Concrete instances *)
Lemma ExpireOverdue_safe_witness :
  inv_Status demo_invoice = StatusPending ∧
  with_inv_Status StatusExpired demo_invoice = with_inv_Status StatusExpired demo_invoice ∧
  settled (set_negativeCheck <["i1" := 300]> (set_invoices <["i1" := demo_invoice]> NewMemory)) !! "i1" = None ∧
  inv_ExpiresAt demo_invoice ≠ zero_time ∧
  (∀ l, pollLeases (set_negativeCheck <["i1" := 300]> (set_invoices <["i1" := demo_invoice]> NewMemory)) !! "i1" = Some l →
     l_until l <= 400) ∧
  (if decide (inv_Provider demo_invoice ∈ ["btcpay"])
   then inv_ExpiresAt demo_invoice + 50 < 400 ∧
        ∃ nc, negativeCheck (set_negativeCheck <["i1" := 300]> (set_invoices <["i1" := demo_invoice]> NewMemory)) !! "i1" = Some nc
              ∧ inv_ExpiresAt demo_invoice + 50 <= nc
   else inv_ExpiresAt demo_invoice < 400).
Proof.
  apply (ExpireOverdue_safe (ord := key_order)
           (set_negativeCheck <["i1" := 300]> (set_invoices <["i1" := demo_invoice]> NewMemory)) 400 ["btcpay"] 50 "i1").
  - vm_compute. reflexivity.
  - vm_compute. reflexivity.
  - discriminate.
Defined.

(** Two claims on pending invoices, one of them older. *)
Definition demo_stuck : Memory :=
  run (ord := key_order) [
    OpCreateInvoice demo_invoice; OpClaimSettlement 120 "i1";
    OpCreateInvoice {| inv_ID := "i2"; inv_Provider := "xmr"; inv_AnonUserID := "u2"; inv_Plan := "basic";
      inv_Currency := "XMR"; inv_Amount := "1"; inv_PayAddress := "a2"; inv_ProviderInvoiceID := "";
      inv_Status := StatusPending; inv_CreatedAt := 100; inv_ExpiresAt := 200 |};
    OpClaimSettlement 110 "i2"] NewMemory.

Lemma LeaseStuckSettlements_selects_witness :
  let out := [{| st_InvoiceID := "i2"; st_Activated := false |}] in
  (∀ r, r ∈ out → ∃ s, settled demo_stuck !! st_InvoiceID r = Some s ∧
      stuck demo_stuck 1000 500 (st_InvoiceID r, s) = true ∧ (st_Activated r = true ↔ activatedAt s ≠ zero_time)) ∧
  (0 < 1 → Z.of_nat (length out) <= 1) ∧
  (∀ i s, settled demo_stuck !! i = Some s → stuck demo_stuck 1000 500 (i, s) = true → i ∉ st_InvoiceID <$> out →
      0 < 1 ∧ Z.of_nat (length out) = 1 ∧
      ∀ j sj, settled demo_stuck !! j = Some sj → j ∈ st_InvoiceID <$> out → claimedAt sj <= claimedAt s).
Proof.
  apply (LeaseStuckSettlements_selects (ord := key_order) demo_stuck 1000 500 60 1 _
           (LeaseStuckSettlements (ord := key_order) 1000 500 60 1 demo_stuck).2).
  vm_compute. reflexivity.
Defined.

Lemma LeaseStuckSettlements_exclusive_witness :
  "i2" ∉ st_InvoiceID <$> [{| st_InvoiceID := "i1"; st_Activated := false |}].
Proof.
  apply (LeaseStuckSettlements_exclusive (ord := key_order) demo_stuck 1000 500 60 1
           [{| st_InvoiceID := "i2"; st_Activated := false |}]
           (LeaseStuckSettlements (ord := key_order) 1000 500 60 1 demo_stuck).2 1010 600 60 5
           [{| st_InvoiceID := "i1"; st_Activated := false |}]
           (LeaseStuckSettlements (ord := key_order) 1010 600 60 5
              (LeaseStuckSettlements (ord := key_order) 1000 500 60 1 demo_stuck).2).2).
  - vm_compute. reflexivity.
  - vm_compute. reflexivity.
  - discriminate.
  - reflexivity.
  - apply elem_of_cons. left. reflexivity.
Defined.

Definition demo_outbox : Memory := run (ord := key_order) (take 4 demo_ops) NewMemory.
Definition demo_undelivered : BillingDelivery := with_d_DeliveredAt zero_time demo_credit.
Lemma LeaseBillingDeliveries_exclusive_witness :
  let out := (LeaseBillingDeliveries (ord := key_order) 2000 1000 60 0 demo_outbox).1 in
  out = Ok [demo_undelivered] ∧
  (∀ d1 d2, d1 ∈ [demo_undelivered] → d2 ∈ [transition_target (schedule_of demo_credit) "s1" SubscriptionStatusPastDue 1200] →
     d_ID d1 ≠ d_ID d2) ∧
  (0 <= 0 → ∀ d, d ∈ [demo_undelivered] ↔
     (∃ k, deliveries demo_outbox !! k = Some d) ∧ leasable demo_outbox 2000 1000 d = true).
Proof.
  split; [vm_compute; reflexivity|].
  apply (LeaseBillingDeliveries_exclusive (ord := key_order) demo_outbox 2000 1000 60 0 _
           (LeaseBillingDeliveries (ord := key_order) 2000 1000 60 0 demo_outbox).2 2030 2000 60 0 _
           (LeaseBillingDeliveries (ord := key_order) 2030 2000 60 0
              (LeaseBillingDeliveries (ord := key_order) 2000 1000 60 0 demo_outbox).2).2).
  - vm_compute. reflexivity.
  - vm_compute. reflexivity.
  - reflexivity.
Defined.

Lemma poll_lease_exclusive_witness :
  let ops := [OpRenewPollLease 20 "i1" "stale" 500; OpReleasePollLease "i1" "stale"; OpRecordNegativeCheck "i1" 40] in
  let m' := foldl (λ m op, exec_op (ord := key_order) op m) (AcquirePollLease 10 "tok" "i1" "a" 100 demo_outbox).2 ops in
  pollLeases m' !! "i1" = Some {| l_token := "tok"; l_owner := "a"; l_until := 110 |} ∧
  AcquirePollLease 50 "tok2" "i1" "b" 100 m' = (Ok ("", false), m').
Proof.
  apply (poll_lease_exclusive (ord := key_order) demo_outbox 10 "tok" "i1" "a" 100).
  - vm_compute. reflexivity.
  - repeat constructor; discriminate.
  - reflexivity.
Defined.
