(* ===== verification/BillingDurable.v ===== *)
(** * The Postgres store refines the store in memory

    One call of [Repository] on Postgres does what the same call does in memory: [represents] relates the
    tables to the maps, [contract] says what a caller has to respect (fresh ids, whole microseconds, a limit).
    Over a link that loses calls, a call that reports the loss has done all of its work or none of it. *)
From Stdlib Require Import Ascii.
From S2P Require Import Prelude GoText GoFloat Sql Contracts BillingStore BillingLedger BillingLeases BillingPostgres.

#[local] Arguments String.append !_ _ /.
#[local] Arguments lease_key : simpl never.

(** ** One call, on either store *)
Inductive answer :=
| AUnit | ABool (b : bool) | AToken (token : string) (ok : bool) | AIntent (i : InvoiceIntent) (fresh : bool)
| AStuck (l : list StuckSettlement) | ADelivery (d : BillingDelivery) | ATransition (d : BillingDelivery) (staged : bool)
| ADeliveries (l : list BillingDelivery).
Definition no_answer {S} (m : M S unit) : M S answer := answering (λ _, AUnit) m.
Ltac all_or_nothing_tac :=
  repeat (apply all_or_nothing_autocommit || apply all_or_nothing_transaction || apply all_or_nothing_wrapping
    || apply all_or_nothing_ret || apply all_or_nothing_fail
    || apply tx_ok_in_tx || apply tx_ok_ret || apply tx_ok_fail || (apply tx_ok_bind; [|intros ?]) || case_match).
(** A call, its tag and what is made of it *)
Ltac tagged_tac :=
  apply all_or_nothing_then; [all_or_nothing_tac|intros ?; (apply link_autocommit || apply link_wrapping, link_autocommit)
    |intros ?; all_or_nothing_tac|intros ? ?; by repeat case_match].
Section calls.
Context `{ord : !MapOrder, pg : !Postgres}.
Definition mem_call (op : repo_op) : M Memory answer :=
  match op with
  | OpCreateInvoice inv => no_answer (CreateInvoice inv)
  | OpSetInvoiceStatus id s => no_answer (SetInvoiceStatus id s)
  | OpRecordEvent p e => no_answer (RecordEvent p e)
  | OpClaimSettlement now i => answering ABool (ClaimSettlement now i)
  | OpReleaseSettlement i => no_answer (ReleaseSettlement i)
  | OpMarkSettlementActivated now i => no_answer (MarkSettlementActivated now i)
  | OpLeaseStuckSettlements now o l k => answering AStuck (LeaseStuckSettlements now o l k)
  | OpExpireOverdue now oc g => no_answer (ExpireOverdue now oc g)
  | OpAcquirePollLease now t i o l => answering (λ r, AToken r.1 r.2) (AcquirePollLease now t i o l)
  | OpRenewPollLease now i t l => answering ABool (RenewPollLease now i t l)
  | OpReleasePollLease i t => no_answer (ReleasePollLease i t)
  | OpRecordNegativeCheck i t => no_answer (RecordNegativeCheck i t)
  | OpClearNegativeCheck i => no_answer (ClearNegativeCheck i)
  | OpReserveInvoiceIntent now i => answering (λ r, AIntent r.1 r.2) (ReserveInvoiceIntent now i)
  | OpBeginInvoiceCreate k => answering ABool (BeginInvoiceCreate k)
  | OpCompleteInvoiceCreate k inv => no_answer (CompleteInvoiceCreate k inv)
  | OpFailInvoiceCreate k => no_answer (FailInvoiceCreate k)
  | OpStageInvoiceCredit i s u now d g => answering ADelivery (StageInvoiceCredit i s u now d g)
  | OpStageScheduleTransition s r st now => answering (λ r, ATransition r.1 r.2) (StageScheduleTransition s r st now)
  | OpLeaseBillingDeliveries now o l k => answering ADeliveries (LeaseBillingDeliveries now o l k)
  | OpCompleteBillingDelivery now d => no_answer (CompleteBillingDelivery now d)
  end.
Definition pg_call (op : repo_op) : M (Session Db) answer :=
  match op with
  | OpCreateInvoice inv => no_answer (PgCreateInvoice inv)
  | OpSetInvoiceStatus id s => no_answer (PgSetInvoiceStatus id s)
  | OpRecordEvent p e => no_answer (PgRecordEvent p e)
  | OpClaimSettlement now i => answering ABool (PgClaimSettlement now i)
  | OpReleaseSettlement i => no_answer (PgReleaseSettlement i)
  | OpMarkSettlementActivated now i => no_answer (PgMarkSettlementActivated now i)
  | OpLeaseStuckSettlements now o l k => answering AStuck (PgLeaseStuckSettlements now o l k)
  | OpExpireOverdue now oc g => no_answer (PgExpireOverdue now oc g)
  | OpAcquirePollLease now t i o l => answering (λ r, AToken r.1 r.2) (PgAcquirePollLease now t i o l)
  | OpRenewPollLease now i t l => answering ABool (PgRenewPollLease now i t l)
  | OpReleasePollLease i t => no_answer (PgReleasePollLease i t)
  | OpRecordNegativeCheck i t => no_answer (PgRecordNegativeCheck i t)
  | OpClearNegativeCheck i => no_answer (PgClearNegativeCheck i)
  | OpReserveInvoiceIntent now i => answering (λ r, AIntent r.1 r.2) (PgReserveInvoiceIntent i)
  | OpBeginInvoiceCreate k => answering ABool (PgBeginInvoiceCreate k)
  | OpCompleteInvoiceCreate k inv => no_answer (PgCompleteInvoiceCreate k inv)
  | OpFailInvoiceCreate k => no_answer (PgFailInvoiceCreate k)
  | OpStageInvoiceCredit i s u now d g => answering ADelivery (PgStageInvoiceCredit i s u now d g)
  | OpStageScheduleTransition s r st now => answering (λ r, ATransition r.1 r.2) (PgStageScheduleTransition s r st now)
  | OpLeaseBillingDeliveries now o l k => answering ADeliveries (PgLeaseBillingDeliveries now o l k)
  | OpCompleteBillingDelivery now d => no_answer (PgCompleteBillingDelivery now d)
  end.
Lemma mem_call_exec op m : (mem_call op m).2 = exec_op op m.
Proof. destruct op; apply answering_state. Qed.

(** ** All or nothing *)
Lemma reading_all_or_nothing intent tag : all_or_nothing (
  got ←! PgGetInvoiceIntent (it_IdempotencyKey intent) ;
  if negb (bool_decide (it_RequestHash got = it_RequestHash intent)) then fail ErrConflict else mret (got, tag =? 1)).
Proof. tagged_tac. Qed.
Lemma pg_call_all_or_nothing op : all_or_nothing (pg_call op).
Proof.
  destruct op; apply answering_all_or_nothing; try solve [all_or_nothing_tac];
    unfold PgSetInvoiceStatus, PgMarkSettlementActivated, PgRenewPollLease, PgRecordNegativeCheck, PgClearNegativeCheck,
      PgBeginInvoiceCreate, PgFailInvoiceCreate, affected; try solve [tagged_tac].
  apply all_or_nothing_then; [all_or_nothing_tac|intros ?; apply link_autocommit|apply reading_all_or_nothing|].
  intros tag d. unfold PgGetInvoiceIntent. rewrite steady_auto_bind. destruct (found _); [|done]. by case_match.
Qed.
End calls.

(** ** The tables that represent a store *)
Definition whole (t : Z) : Prop := t mod Microsecond = 0.
(** An id whose settlement cannot be taken for the lease of a delivery *)
Definition claim_id (id : string) : Prop := ∀ d, id ≠ lease_key d.
Definition no_bar (s : string) : Prop := ∀ a b, s ≠ a +:+ "|" +:+ b.
Lemma no_bar_cons c s : no_bar (String c s) → c ≠ "|"%char ∧ no_bar s.
Proof.
  intros H. split; [intros ->; by apply (H "" s)|]. intros a b ->. by apply (H (String c a) b).
Qed.
Lemma event_key_inj p : ∀ p' e e', no_bar p → no_bar p' → event_key p e = event_key p' e' → (p, e) = (p', e').
Proof.
  unfold event_key. induction p as [|c p IH]; intros [|c' p'] e e' Hp Hp' Heq; simpl in Heq.
  - by injection Heq as ->.
  - injection Heq as Hc _. by destruct (no_bar_cons _ _ Hp').
  - injection Heq as Hc _. by destruct (no_bar_cons _ _ Hp).
  - injection Heq as -> Heq. destruct (no_bar_cons _ _ Hp), (no_bar_cons _ _ Hp').
    assert (Hpe : (p, e) = (p', e')) by (by apply IH). by injection Hpe as -> ->.
Qed.
Definition time_of (o : option Time) : Time := default zero_time o.
Definition mem_settlement (r : settlement_row) : memSettlement := {|
  claimedAt := sr_claimed_at r; activatedAt := time_of (sr_activated_at r); leasedUntil := time_of (sr_reconcile_leased_until r) |}.
Definition mem_lease (r : lease_row) : memLease := {| l_token := lr_lease_token r; l_owner := lr_owner r; l_until := lr_lease_until r |}.
Definition delivery_lease (until : Time) : memSettlement := {| claimedAt := zero_time; activatedAt := zero_time; leasedUntil := until |}.
Definition mem_delivery (id : string) (r : delivery_row) : BillingDelivery := with_d_DeliveredAt (time_of (dr_delivered_at r)) (scanDelivery id r).
Record represents (db : Db) (m : Memory) : Prop := {
  rep_invoices : invoices m = ir_invoice <$> t_invoices db;
  rep_checks : negativeCheck m = omap ir_last_negative_check_at (t_invoices db);
  rep_invoice_row : ∀ i r, t_invoices db !! i = Some r → claim_id i ∧ inv_ID (ir_invoice r) = i ∧ inv_ExpiresAt (ir_invoice r) ≠ zero_time;
  rep_intents : invoiceIntents m = t_intents db;
  rep_leases : pollLeases m = mem_lease <$> t_leases db;
  rep_seen : ∀ p e, no_bar p → (p, e) ∈ t_seen db ↔ event_key p e ∈ events m;
  rep_claims : ∀ i, claim_id i → settled m !! i = mem_settlement <$> t_settlements db !! i;
  rep_claim_row : ∀ i r, t_settlements db !! i = Some r → claim_id i ∧ sr_activated_at r ≠ Some zero_time ∧ sr_reconcile_leased_until r ≠ Some zero_time;
  rep_delivery_leases : ∀ d, settled m !! lease_key d = delivery_lease <$> (t_deliveries db !! d ≫= dr_leased_until);
  rep_schedules : schedules m = t_schedules db;
  rep_schedule_row : ∀ sub s, t_schedules db !! sub = Some s → whole (sc_ExpiresAt s) ∧ whole (sc_GraceUntil s);
  rep_deliveries : ∀ id, deliveries m !! id = mem_delivery id <$> t_deliveries db !! id;
  rep_delivery_row : ∀ id r, t_deliveries db !! id = Some r → dr_delivered_at r ≠ Some zero_time ∧
    match dr_invoice_id r with Some i => i ≠ "" ∧ is_Some (t_invoices db !! i) | None => True end;
  rep_index : ∀ i id, invoiceDeliveries m !! i = Some id ↔ ∃ r, t_deliveries db !! id = Some r ∧ dr_invoice_id r = Some i }.
Lemma represents_empty : represents empty_db NewMemory.
Proof.
  split; cbn; rewrite ?fmap_empty, ?omap_empty; try done; intros *; rewrite ?lookup_empty; try done.
  split; [done|]. by intros (r & Hr & _).
Qed.

(** What comes back: rows in any order, and an undelivered delivery read from a row carries the epoch where
    memory has the zero time. *)
Definition same_delivery (d d' : BillingDelivery) : Prop :=
  d' = d ∨ (d_DeliveredAt d = zero_time ∧ d' = with_d_DeliveredAt epoch d).
Definition same_answer (a a' : answer) : Prop :=
  match a, a' with
  | AStuck l, AStuck l' => l' ≡ₚ l
  | ADelivery d, ADelivery d' => same_delivery d d'
  | ATransition d b, ATransition d' b' => d' = d ∧ b' = b
  | ADeliveries l, ADeliveries l' => ∃ l0, l' ≡ₚ l0 ∧ Forall2 same_delivery l l0
  | _, _ => a' = a
  end.
Definition same_result (r r' : result answer) : Prop :=
  match r, r' with Ok a, Ok a' => same_answer a a' | Err e, Err e' => e' = e | _, _ => False end.

(** ** What a caller has to respect *)
Section contract.
Context `{pg : !Postgres}.
Definition exact (d : Duration) : Prop := make_interval (Seconds d) = d.
Definition whole_invoice (inv : Invoice) : Prop :=
  claim_id (inv_ID inv) ∧ whole (inv_CreatedAt inv) ∧ whole (inv_ExpiresAt inv) ∧ inv_ExpiresAt inv ≠ zero_time.
Definition contract (op : repo_op) (m : Memory) : Prop :=
  match op with
  | OpCreateInvoice inv => whole_invoice inv ∧ invoices m !! inv_ID inv = None
  | OpSetInvoiceStatus _ _ => True
  | OpRecordEvent p _ => no_bar p
  | OpClaimSettlement _ i | OpReleaseSettlement i => claim_id i
  | OpMarkSettlementActivated now i => claim_id i ∧ now ≠ zero_time
  | OpLeaseStuckSettlements now olderThan leaseFor limit =>
      whole olderThan ∧ exact leaseFor ∧ now + leaseFor ≠ zero_time ∧ 0 < limit ∧
      ∀ i s j s', settled m !! i = Some s → settled m !! j = Some s' → stuck m now olderThan (i, s) = true →
        stuck m now olderThan (j, s') = true → claimedAt s = claimedAt s' → i = j
  | OpExpireOverdue now _ grace => whole now ∧ exact grace
  | OpAcquirePollLease _ _ i _ leaseFor => exact leaseFor ∧ is_Some (invoices m !! i)
  | OpRenewPollLease _ _ _ leaseFor => exact leaseFor
  | OpReleasePollLease _ _ | OpClearNegativeCheck _ | OpFailInvoiceCreate _ => True
  | OpRecordNegativeCheck _ checkAt => whole checkAt
  | OpReserveInvoiceIntent _ it => whole (it_CreatedAt it) ∧ it_CreatedAt it ≠ zero_time ∧
      ∀ k it', invoiceIntents m !! k = Some it' → it_OrderID it' = it_OrderID it → k = it_IdempotencyKey it
  | OpBeginInvoiceCreate k => is_Some (invoiceIntents m !! k)
  | OpCompleteInvoiceCreate _ inv => whole_invoice inv ∧ ∀ inv', invoices m !! inv_ID inv = Some inv' → inv' = inv
  | OpStageInvoiceCredit i _ _ now d g => i ≠ "" ∧ whole now ∧ whole d ∧ whole g
  | OpStageScheduleTransition _ _ _ now => whole now
  | OpLeaseBillingDeliveries now olderThan leaseFor limit =>
      whole olderThan ∧ exact leaseFor ∧ 0 < limit ∧ ∀ a b, text_lt a b = str_lt a b
  | OpCompleteBillingDelivery now id => now ≠ zero_time ∧
      ∀ d inv, deliveries m !! id = Some d → d_DeliveredAt d ≠ zero_time → invoices m !! d_InvoiceID d = Some inv → inv_Status inv = StatusSettled
  end.
End contract.

(** ** Each call *)
Section simulation.
Context `{ord : !MapOrder, pg : !Postgres}.
(** From related states the two answer alike and end in related states. *)
Definition simulates (op : repo_op) (db : Db) (m : Memory) : Prop :=
  same_result (mem_call op m).1 (steady (pg_call op) db).1 ∧ represents (steady (pg_call op) db).2 (mem_call op m).2.
(** The two outcomes of a call, before they are made answers *)
Definition alike {A} (f : A → answer) (out : result A * Memory) (out' : result A * Db) : Prop :=
  match out.1, out'.1 with Ok a, Ok a' => same_answer (f a) (f a') | Err e, Err e' => e' = e | _, _ => False end ∧ represents out'.2 out.2.
Lemma simulates_call {A} (f : A → answer) (p : M (Session Db) A) (mem : M Memory A) db m :
  alike f (mem m) (steady p db) →
  same_result (answering f mem m).1 (steady (answering f p) db).1 ∧ represents (steady (answering f p) db).2 (answering f mem m).2.
Proof.
  rewrite steady_answering. intros [H1 H2]. unfold answering, mbind, M_bind.
  destruct (mem m) as [[a|e] m'], (steady p db) as [[a'|e'] db']; done.
Qed.
Lemma alike_ok {A} (f : A → answer) a db m : (∀ x, same_answer (f x) (f x)) → represents db m → alike f (Ok a, m) (Ok a, db).
Proof. intros Hr H. split; [apply Hr|done]. Qed.
Lemma alike_err {A} (f : A → answer) e db m : represents db m → alike f (Err e, m) (Err e, db).
Proof. by intros H. Qed.
Lemma row_invoice_whole inv : whole_invoice inv → row_invoice inv = inv.
Proof. intros (_ & Hc & He & _). unfold row_invoice. rewrite !timestamptz_whole by done. by destruct inv. Qed.
Lemma lookup_invoice db m i : represents db m → invoices m !! i = ir_invoice <$> t_invoices db !! i.
Proof. intros H. by rewrite (rep_invoices db m H), lookup_fmap. Qed.
(** A new invoice *)
Lemma rep_new_invoice db m inv : represents db m → whole_invoice inv → invoices m !! inv_ID inv = None →
  represents (on_invoices <[inv_ID inv := new_row inv]> db) (set_invoices <[inv_ID inv := inv]> m).
Proof.
  intros H Hw Hn. pose proof (row_invoice_whole inv Hw) as Hrow. destruct Hw as (Hid & Hc & He & Hz).
  rewrite (lookup_invoice db m _ H) in Hn. apply fmap_None in Hn.
  destruct H; split; try done; cbn.
  - rewrite fmap_insert. change (ir_invoice (new_row inv)) with (row_invoice inv). by rewrite Hrow, rep_invoices0.
  - rewrite omap_insert. cbn. rewrite rep_checks0. symmetry. apply delete_id. by rewrite lookup_omap, Hn.
  - intros i r Hr. apply lookup_insert_Some in Hr as [[<- <-]|[_ Hr]]; [|by apply rep_invoice_row0].
    change (ir_invoice (new_row inv)) with (row_invoice inv). by rewrite Hrow.
  - intros id r Hr. destruct (rep_delivery_row0 id r Hr) as [H1 H2]. split; [done|]. destruct (dr_invoice_id r) as [i|]; [|done].
    destruct H2 as [? H2]. split; [done|]. apply lookup_insert_is_Some'. by right.
Qed.
(** A change of an invoice's row that keeps what identifies it *)
Lemma rep_update_invoice db m i r inv c : represents db m → t_invoices db !! i = Some r →
  inv_ID inv = i → inv_ExpiresAt inv ≠ zero_time →
  represents (on_invoices <[i := {| ir_invoice := inv; ir_last_negative_check_at := c |}]> db)
    (set_negativeCheck (partial_alter (λ _, c) i) (set_invoices <[i := inv]> m)).
Proof.
  intros H Hr Hi Hz. destruct H; split; try done; cbn.
  - by rewrite fmap_insert, rep_invoices0.
  - rewrite omap_insert, rep_checks0. cbn. by destruct c.
  - intros i' r' Hr'. apply lookup_insert_Some in Hr' as [[<- <-]|[_ Hr']]; [|by apply rep_invoice_row0]. cbn.
    split; [|done]. by apply (rep_invoice_row0 i r).
  - intros id r' Hr'. destruct (rep_delivery_row0 id r' Hr') as [H1 H2]. split; [done|]. destruct (dr_invoice_id r') as [i'|]; [|done].
    destruct H2 as [? H2]. split; [done|]. apply lookup_insert_is_Some'. by right.
Qed.
Lemma check_self m i c f : c = negativeCheck m !! i → set_negativeCheck (partial_alter (λ _, c) i) (set_invoices f m) = set_invoices f m.
Proof. intros ->. unfold set_negativeCheck. cbn. by rewrite partial_alter_self. Qed.
Lemma rep_with_status db m i r s : represents db m → t_invoices db !! i = Some r →
  represents (on_invoices <[i := with_status s r]> db) (set_invoices <[i := with_inv_Status s (ir_invoice r)]> m).
Proof.
  intros H Hr. destruct (rep_invoice_row db m H i r Hr) as (_ & Hi & Hz).
  pose proof (rep_update_invoice db m i r (with_inv_Status s (ir_invoice r)) (ir_last_negative_check_at r) H Hr Hi Hz) as Hnew.
  assert (Hc : ir_last_negative_check_at r = negativeCheck m !! i) by (rewrite (rep_checks db m H), lookup_omap; by rewrite Hr).
  by rewrite check_self in Hnew.
Qed.
Lemma sim_CreateInvoice inv db m : represents db m → contract (OpCreateInvoice inv) m → simulates (OpCreateInvoice inv) db m.
Proof.
  intros H [Hw Hn]. apply simulates_call. unfold PgCreateInvoice. rewrite steady_autocommit. unfold insert_invoice, CreateInvoice, modify.
  pose proof Hn as Hn'. rewrite (lookup_invoice db m _ H) in Hn'. apply fmap_None in Hn'. rewrite Hn'. apply alike_ok; [done|]. by apply rep_new_invoice.
Qed.
Lemma sim_SetInvoiceStatus i s db m : represents db m → simulates (OpSetInvoiceStatus i s) db m.
Proof.
  intros H. apply simulates_call. unfold PgSetInvoiceStatus. rewrite steady_auto_bind. unfold update_key, SetInvoiceStatus.
  rewrite (lookup_invoice db m i H). destruct (t_invoices db !! i) as [r|] eqn:Hr; cbn [fmap option_fmap option_map].
  - apply alike_ok; [done|]. by apply rep_with_status.
  - by apply alike_err.
Qed.
Lemma sim_RecordEvent p e db m : represents db m → no_bar p → simulates (OpRecordEvent p e) db m.
Proof.
  intros H Hp. apply simulates_call. unfold PgRecordEvent. rewrite steady_autocommit. apply alike_ok; [done|].
  destruct H; split; try done. cbn. intros p' e' Hp'. rewrite !elem_of_union, !elem_of_singleton, (rep_seen0 p' e' Hp').
  split; (intros [Heq|?]; [left|by right]); [by injection Heq as -> ->|by apply event_key_inj].
Qed.
(** A settlement row as the map entry, and back *)
Lemma settled_claim db m i : represents db m → claim_id i → settled m !! i = mem_settlement <$> t_settlements db !! i.
Proof. intros H. apply (rep_claims db m H). Qed.
Lemma claim_id_lease i d : claim_id i → i ≠ lease_key d.
Proof. intros H. apply H. Qed.
(** A change of one settlement *)
Lemma rep_settlement db m i (o : option settlement_row) : represents db m → claim_id i →
  match o with Some r => sr_activated_at r ≠ Some zero_time ∧ sr_reconcile_leased_until r ≠ Some zero_time | None => True end →
  represents (on_settlements (partial_alter (λ _, o) i) db) (set_settled (partial_alter (λ _, mem_settlement <$> o) i) m).
Proof.
  intros H Hi Ho. destruct H; split; try done; cbn.
  - intros i' Hi'. destruct (decide (i = i')) as [->|Hne]; [by rewrite !lookup_partial_alter_eq|].
    rewrite !lookup_partial_alter_ne by done. by apply rep_claims0.
  - intros i' r. destruct (decide (i = i')) as [->|Hne]; [|rewrite lookup_partial_alter_ne by done; by apply rep_claim_row0].
    rewrite lookup_partial_alter_eq. intros ->. by split.
  - intros d. rewrite lookup_partial_alter_ne by apply Hi. apply rep_delivery_leases0.
Qed.
Lemma sim_ClaimSettlement now i db m : represents db m → claim_id i → simulates (OpClaimSettlement now i) db m.
Proof.
  intros H Hi. apply simulates_call. unfold PgClaimSettlement. rewrite steady_autocommit. unfold ClaimSettlement.
  rewrite (settled_claim db m i H Hi). destruct (t_settlements db !! i) as [r|]; cbn [fmap option_fmap option_map]; apply alike_ok; try done.
  by apply (rep_settlement db m i (Some {| sr_claimed_at := now; sr_activated_at := None; sr_reconcile_leased_until := None |}) H Hi).
Qed.
Lemma sim_ReleaseSettlement i db m : represents db m → claim_id i → simulates (OpReleaseSettlement i) db m.
Proof.
  intros H Hi. apply simulates_call. unfold PgReleaseSettlement. rewrite steady_autocommit. apply alike_ok; [done|].
  by apply (rep_settlement db m i None H Hi).
Qed.
Lemma IsZero_time_of o : o ≠ Some zero_time → IsZero (time_of o) = negb (is_set o).
Proof. destruct o as [t|]; [|done]. intros H. cbn. unfold IsZero. apply Z.eqb_neq. intros ->. by apply H. Qed.
Lemma sim_MarkSettlementActivated now i db m : represents db m → claim_id i → now ≠ zero_time → simulates (OpMarkSettlementActivated now i) db m.
Proof.
  intros H Hi Hn. apply simulates_call. unfold PgMarkSettlementActivated. rewrite steady_auto_bind. unfold MarkSettlementActivated, update_key.
  rewrite (settled_claim db m i H Hi). destruct (t_settlements db !! i) as [r|] eqn:Hr; cbn [fmap option_fmap option_map]; [|by apply alike_ok].
  destruct (rep_claim_row db m H i r Hr) as (_ & Ha & Hl). cbn [mem_settlement activatedAt]. rewrite (IsZero_time_of _ Ha).
  destruct (negb _); apply alike_ok; try done.
  apply (rep_settlement db m i (Some {| sr_claimed_at := sr_claimed_at r; sr_activated_at := Some now;
    sr_reconcile_leased_until := sr_reconcile_leased_until r |}) H Hi). split; [by intros [= ->]|done].
Qed.
(** Poll leases *)
Lemma rep_lease db m i (o : option lease_row) : represents db m →
  represents (on_leases (partial_alter (λ _, o) i) db) (set_pollLeases (partial_alter (λ _, mem_lease <$> o) i) m).
Proof.
  intros H. destruct H; split; try done; cbn. rewrite rep_leases0. apply map_eq. intros j. rewrite lookup_fmap.
  destruct (decide (i = j)) as [->|]; [by rewrite !lookup_partial_alter_eq|]. by rewrite !lookup_partial_alter_ne, lookup_fmap by done.
Qed.
Lemma lookup_lease db m i : represents db m → pollLeases m !! i = mem_lease <$> t_leases db !! i.
Proof. intros H. by rewrite (rep_leases db m H), lookup_fmap. Qed.
Lemma sim_AcquirePollLease now t i o l db m : represents db m → exact l → is_Some (invoices m !! i) →
  simulates (OpAcquirePollLease now t i o l) db m.
Proof.
  intros H Hl Hi. apply simulates_call. unfold PgAcquirePollLease. rewrite steady_wrapping, steady_autocommit. unfold AcquirePollLease.
  rewrite (lookup_lease db m i H), Hl.
  pose proof (rep_lease db m i (Some {| lr_lease_token := t; lr_owner := o; lr_lease_until := now + l |}) H) as Hnew.
  rewrite (lookup_invoice db m i H), fmap_is_Some in Hi. destruct Hi as [inv Hi]. rewrite Hi.
  destruct (t_leases db !! i) as [r|]; cbn [fmap option_fmap option_map]; [|by apply alike_ok].
  cbn [mem_lease l_until]. unfold After. rewrite Z.ltb_antisym. destruct (lr_lease_until r <=? now); by apply alike_ok.
Qed.
Lemma sim_RenewPollLease now i t l db m : represents db m → exact l → simulates (OpRenewPollLease now i t l) db m.
Proof.
  intros H Hl. apply simulates_call. unfold PgRenewPollLease. rewrite Hl, steady_wrapping_bind. unfold update_key, RenewPollLease.
  rewrite (lookup_lease db m i H). destruct (t_leases db !! i) as [r|]; cbn [fmap option_fmap option_map]; [|by apply alike_ok].
  unfold owned_by. cbn [mem_lease l_token]. case_bool_decide; apply alike_ok; try done.
  by apply (rep_lease db m i (Some (with_until (now + l) r))).
Qed.
Lemma sim_ReleasePollLease i t db m : represents db m → simulates (OpReleasePollLease i t) db m.
Proof.
  intros H. apply simulates_call. unfold PgReleasePollLease. rewrite steady_autocommit. unfold ReleasePollLease.
  rewrite (lookup_lease db m i H). destruct (t_leases db !! i) as [r|]; cbn [fmap option_fmap option_map]; [|by apply alike_ok].
  unfold owned_by. cbn [mem_lease l_token]. case_bool_decide; apply alike_ok; try done. by apply (rep_lease db m i None).
Qed.
(** The marker of the last negative check *)
Lemma invoices_self i m inv f : invoices m !! i = Some inv → set_negativeCheck f (set_invoices <[i := inv]> m) = set_negativeCheck f m.
Proof. intros Hi. destruct m. unfold set_negativeCheck, set_invoices. cbn in *. by rewrite insert_id. Qed.
Lemma rep_with_check db m i r c : represents db m → t_invoices db !! i = Some r →
  represents (on_invoices <[i := with_check c r]> db) (set_negativeCheck (partial_alter (λ _, c) i) m).
Proof.
  intros H Hr. destruct (rep_invoice_row db m H i r Hr) as (_ & Hi & Hz).
  pose proof (rep_update_invoice db m i r (ir_invoice r) c H Hr Hi Hz) as Hnew.
  rewrite invoices_self in Hnew; [done|]. by rewrite (lookup_invoice db m i H), Hr.
Qed.
Lemma sim_RecordNegativeCheck i t db m : represents db m → whole t → simulates (OpRecordNegativeCheck i t) db m.
Proof.
  intros H Ht. apply simulates_call. unfold PgRecordNegativeCheck. rewrite steady_auto_bind, timestamptz_whole by done.
  unfold update_key, RecordNegativeCheck. rewrite (lookup_invoice db m i H).
  destruct (t_invoices db !! i) as [r|] eqn:Hr; cbn [fmap option_fmap option_map]; [|by apply alike_ok].
  destruct (is_pending _); apply alike_ok; try done. by apply (rep_with_check db m i r (Some t)).
Qed.
Lemma sim_ClearNegativeCheck i db m : represents db m → simulates (OpClearNegativeCheck i) db m.
Proof.
  intros H. apply simulates_call. unfold PgClearNegativeCheck. rewrite steady_auto_bind.
  unfold update_key, ClearNegativeCheck. rewrite (lookup_invoice db m i H).
  destruct (t_invoices db !! i) as [r|] eqn:Hr; cbn [fmap option_fmap option_map]; [|by apply alike_ok].
  destruct (is_pending _); apply alike_ok; try done. by apply (rep_with_check db m i r None).
Qed.
(** Intents *)
Lemma rep_intent db m k i : represents db m → represents (on_intents <[k := i]> db) (set_invoiceIntents <[k := i]> m).
Proof. intros H. destruct H; split; try done; cbn. by rewrite rep_intents0. Qed.
Lemma sim_ReserveInvoiceIntent now it db m : represents db m → contract (OpReserveInvoiceIntent now it) m →
  simulates (OpReserveInvoiceIntent now it) db m.
Proof.
  intros H (Hw & Hz & Ho). apply simulates_call. unfold PgReserveInvoiceIntent. rewrite steady_auto_bind.
  unfold insert_intent, ReserveInvoiceIntent. rewrite (rep_intents db m H). rewrite (rep_intents db m H) in Ho.
  destruct (t_intents db !! it_IdempotencyKey it) as [cur|] eqn:Hk.
  - unfold PgGetInvoiceIntent. rewrite steady_auto_bind, Hk. cbn [found]. destruct (negb _); [by apply alike_err|by apply alike_ok].
  - assert (Hx : existsb (λ kv : string * InvoiceIntent, bool_decide (it_OrderID kv.2 = it_OrderID it)) (range (t_intents db)) = false).
    { apply not_true_is_false. intros ([k cur] & Hin & Heq%bool_decide_eq_true)%existsb_exists.
      apply list_elem_of_In, elem_of_range in Hin. cbn in Heq. pose proof (Ho k cur Hin Heq). congruence. }
    rewrite Hx. unfold PgGetInvoiceIntent. rewrite steady_auto_bind. cbn [on_intents t_intents]. rewrite lookup_insert_eq. cbn [found].
    rewrite timestamptz_whole by done. rewrite bool_decide_eq_true_2 by done.
    assert (IsZero (it_CreatedAt it) = false) as -> by (by apply Z.eqb_neq). apply alike_ok; [done|]. by apply rep_intent.
Qed.
Lemma sim_BeginInvoiceCreate k db m : represents db m → is_Some (invoiceIntents m !! k) → simulates (OpBeginInvoiceCreate k) db m.
Proof.
  intros H [it Hk]. apply simulates_call. unfold PgBeginInvoiceCreate. rewrite steady_auto_bind. unfold update_key, BeginInvoiceCreate.
  rewrite Hk. rewrite (rep_intents db m H) in Hk. rewrite Hk. destruct (bool_decide (it_State it = "reserved")); apply alike_ok; try done.
  by apply rep_intent.
Qed.
Lemma sim_FailInvoiceCreate k db m : represents db m → simulates (OpFailInvoiceCreate k) db m.
Proof.
  intros H. apply simulates_call. unfold PgFailInvoiceCreate. rewrite steady_auto_bind. unfold update_key, FailInvoiceCreate.
  rewrite (rep_intents db m H). destruct (t_intents db !! k) as [it|]; [apply alike_ok; [done|]; by apply rep_intent|by apply alike_err].
Qed.
Lemma sim_CompleteInvoiceCreate k inv db m : represents db m → contract (OpCompleteInvoiceCreate k inv) m →
  simulates (OpCompleteInvoiceCreate k inv) db m.
Proof.
  intros H [Hw Hsame]. apply simulates_call. unfold PgCompleteInvoiceCreate. rewrite steady_transaction by all_or_nothing_tac.
  rewrite steady_in_tx_bind. unfold CompleteInvoiceCreate. rewrite (rep_intents db m H).
  destruct (t_intents db !! k) as [it|] eqn:Hk; cbn [found]; [|by apply alike_err].
  destruct (_ || _); [by apply alike_err|]. rewrite (lookup_invoice db m _ H) in Hsame. rewrite steady_in_tx_bind.
  destruct (t_invoices db !! inv_ID inv) as [r|] eqn:Hr; rewrite steady_in_tx_bind; unfold update_key; cbn [on_invoices t_intents];
    rewrite Hk; apply alike_ok; try done; unfold set_intent_state, set_state; apply rep_intent.
  - specialize (Hsame _ eq_refl). assert (set_invoices <[inv_ID inv := inv]> m = m) as ->; [|done].
    destruct m. unfold set_invoices. cbn. f_equal. apply insert_id.
    pose proof (lookup_invoice db _ (inv_ID inv) H) as Hl. cbn in Hl. by rewrite Hl, Hr, <- Hsame.
  - apply rep_new_invoice; [done..|]. by rewrite (lookup_invoice db m _ H), Hr.
Qed.
(** The expiry sweep *)
Lemma sim_ExpireOverdue now oc g db m : represents db m → whole now → exact g → simulates (OpExpireOverdue now oc g) db m.
Proof.
  intros H Hn Hg. apply simulates_call. unfold PgExpireOverdue. rewrite steady_autocommit. apply alike_ok; [done|].
  assert (Hov : ∀ i r, t_invoices db !! i = Some r → overdue m now oc g i (ir_invoice r) = overdue_row db now oc g i r).
  { intros i r Hr. destruct (rep_invoice_row db m H i r Hr) as (Hi & _ & Hz). unfold overdue, overdue_row.
    unfold exact in Hg. rewrite !Hg, (timestamptz_whole now Hn), (settled_claim db m i H Hi), (lookup_lease db m i H), (rep_checks db m H), lookup_omap, Hr.
    assert (IsZero (inv_ExpiresAt (ir_invoice r)) = false) as -> by (by apply Z.eqb_neq).
    cbn [mbind option_bind option_map fmap option_fmap]. unfold After, Before, Add. rewrite orb_false_r.
    destruct (is_pending _); [|done]. destruct (t_settlements db !! i); cbn [is_set fmap option_fmap option_map negb andb]; [by rewrite !andb_false_r|].
    destruct (t_leases db !! i) as [l|]; cbn [fmap option_fmap option_map mem_lease l_until];
      [destruct (now <? lr_lease_until l); [by rewrite !andb_false_r|]|]; rewrite !andb_true_r; cbn [andb];
      (case_bool_decide; cbn [negb andb orb]; [|by rewrite ?orb_false_r]);
      (destruct (inv_ExpiresAt (ir_invoice r) + g <? now); [|done]); cbn [negb andb];
      (destruct (ir_last_negative_check_at r); [|done]); symmetry; apply Z.leb_antisym. }
  assert (Hmap : ∀ i, range_update (λ i inv, if overdue m now oc g i inv then Some (with_inv_Status StatusExpired inv) else None) (invoices m) !! i
    = (ir_invoice <$> map_imap (λ i r, Some (if overdue_row db now oc g i r then with_status StatusExpired r else r)) (t_invoices db)) !! i).
  { intros i. rewrite range_update_lookup, lookup_fmap, map_lookup_imap, (lookup_invoice db m i H).
    destruct (t_invoices db !! i) as [r|] eqn:Hr; [|done]. cbn. rewrite (Hov i r Hr). by destruct (overdue_row _ _ _ _ _ _). }
  assert (Hrow : ∀ i r', map_imap (λ i r, Some (if overdue_row db now oc g i r then with_status StatusExpired r else r)) (t_invoices db) !! i = Some r' →
    ∃ r, t_invoices db !! i = Some r ∧ inv_ID (ir_invoice r') = inv_ID (ir_invoice r) ∧ inv_ExpiresAt (ir_invoice r') = inv_ExpiresAt (ir_invoice r)).
  { intros i r'. rewrite map_lookup_imap. destruct (t_invoices db !! i) as [r|]; [|done]. cbn. intros [= <-]. exists r. by destruct (overdue_row _ _ _ _ _ _). }
  unfold ExpireOverdue. cbn [snd]. destruct H; split; try done; cbn.
  - apply map_eq, Hmap.
  - rewrite rep_checks0. apply map_eq. intros i. rewrite !lookup_omap, map_lookup_imap. destruct (t_invoices db !! i); [|done]. cbn. by case_match.
  - intros i r' Hr'. destruct (Hrow i r' Hr') as (r & Hr & -> & ->). by apply rep_invoice_row0.
  - intros id r Hr. destruct (rep_delivery_row0 id r Hr) as [H1 H2]. split; [done|]. destruct (dr_invoice_id r) as [i|]; [|done].
    destruct H2 as [? [r' H2]]. split; [done|]. rewrite map_lookup_imap, H2. by eexists.
Qed.
(** *** The ledger *)
Lemma mem_delivery_same id r : same_delivery (mem_delivery id r) (scanDelivery id r).
Proof. unfold same_delivery, mem_delivery. destruct r as [? ? ? ? ? ? ? ? ? [t|] ?]; [by left|by right]. Qed.
Lemma mem_delivery_columns d : whole (d_ExpiresAt d) → whole (d_GraceUntil d) → whole (d_CreatedAt d) → d_DeliveredAt d = zero_time →
  mem_delivery (d_ID d) (delivery_columns d) = d.
Proof.
  intros H1 H2 H3 H4. unfold mem_delivery, delivery_columns, scanDelivery, with_d_DeliveredAt. cbn.
  rewrite !timestamptz_whole by done. destruct d. cbn in *. subst. by case_bool_decide; subst.
Qed.
(** Where memory keeps the id of an invoice's delivery *)
Definition set_index (d : BillingDelivery) : Memory → Memory :=
  if bool_decide (d_InvoiceID d = "") then id else set_invoiceDeliveries <[d_InvoiceID d := d_ID d]>.
Lemma rep_insert_delivery db m d : represents db m → t_deliveries db !! d_ID d = None →
  whole (d_ExpiresAt d) → whole (d_GraceUntil d) → whole (d_CreatedAt d) → d_DeliveredAt d = zero_time →
  (d_InvoiceID d ≠ "" → invoiceDeliveries m !! d_InvoiceID d = None ∧ is_Some (t_invoices db !! d_InvoiceID d)) →
  represents (on_deliveries <[d_ID d := delivery_columns d]> db) (set_index d (set_deliveries <[d_ID d := d]> m)).
Proof.
  intros H Hf H1 H2 H3 H4 Hi. pose proof (mem_delivery_columns d H1 H2 H3 H4) as Hd.
  assert (Hrow : ∀ m', represents db m → deliveries m' = <[d_ID d := d]> (deliveries m) → ledger_of m' = (schedules m, deliveries m', invoiceDeliveries m') →
    (invoices m', events m', settled m', invoiceIntents m', negativeCheck m', pollLeases m') =
      (invoices m, events m, settled m, invoiceIntents m, negativeCheck m, pollLeases m) →
    (∀ i id, invoiceDeliveries m' !! i = Some id ↔ ∃ r, <[d_ID d := delivery_columns d]> (t_deliveries db) !! id = Some r ∧ dr_invoice_id r = Some i) →
    represents (on_deliveries <[d_ID d := delivery_columns d]> db) m').
  { clear H. intros m' H Ed El [= E1 E2 E3 E4 E5 E6] Hx. unfold ledger_of in El. injection El as Es.
    destruct H; split; cbn; rewrite ?E1, ?E2, ?E3, ?E4, ?E5, ?E6, ?Es; try done.
    - intros id. destruct (decide (id = d_ID d)) as [->|Hne]; [|rewrite lookup_insert_ne by done; apply rep_delivery_leases0].
      rewrite rep_delivery_leases0, Hf, lookup_insert_eq. done.
    - intros id. rewrite Ed. destruct (decide (id = d_ID d)) as [->|Hne]; [rewrite !lookup_insert_eq; cbn; by rewrite Hd|].
      rewrite !lookup_insert_ne by done. apply rep_deliveries0.
    - intros id r Hr. apply lookup_insert_Some in Hr as [[<- <-]|[_ Hr]]; [|by apply (rep_delivery_row0 id)]. split; [done|].
      cbn. case_bool_decide as Hid; [done|]. split; [done|]. by apply Hi. }
  apply Hrow; clear Hrow; unfold set_index; try done; [by case_bool_decide..|].
  intros i id. pose proof (rep_index db m H i id) as Hx. case_bool_decide as Hid; cbn [Datatypes.id set_invoiceDeliveries set_deliveries invoiceDeliveries].
  - rewrite Hx. split; intros (r & Hr & Hri).
    + exists r. split; [|done]. rewrite lookup_insert_ne; [done|congruence].
    + apply lookup_insert_Some in Hr as [[<- <-]|[_ Hr]]; [|by exists r]. cbn in Hri. by rewrite bool_decide_eq_true_2 in Hri.
  - destruct (Hi Hid) as [Hn _]. destruct (decide (i = d_InvoiceID d)) as [->|Hne].
    + rewrite lookup_insert_eq. split.
      * intros [= <-]. exists (delivery_columns d). rewrite lookup_insert_eq. split; [done|]. cbn. by rewrite bool_decide_eq_false_2.
      * intros (r & Hr & Hri). apply lookup_insert_Some in Hr as [[<- _]|[_ Hr]]; [done|].
        assert (Hc : invoiceDeliveries m !! d_InvoiceID d = Some id) by (apply Hx; by exists r). congruence.
    + rewrite lookup_insert_ne by done. rewrite Hx. split; intros (r & Hr & Hri).
      * exists r. split; [|done]. rewrite lookup_insert_ne; [done|congruence].
      * apply lookup_insert_Some in Hr as [[<- <-]|[_ Hr]]; [|by exists r]. cbn in Hri. rewrite bool_decide_eq_false_2 in Hri by done. congruence.
Qed.
Lemma rep_schedule db m s sub : represents db m → whole (sc_ExpiresAt s) → whole (sc_GraceUntil s) →
  represents (on_schedules <[sub := s]> db) (set_schedules <[sub := s]> m).
Proof.
  intros H He Hg. destruct H; split; try done; cbn; [by rewrite rep_schedules0|].
  intros sub' s' Hs. apply lookup_insert_Some in Hs as [[_ <-]|[_ Hs]]; [done|]. by apply (rep_schedule_row0 sub').
Qed.
(** The three unique keys of the table of deliveries *)
Lemma insertDelivery_ok db m n d : represents db m → ledger_inv n m → n < max_int64 → t_deliveries db !! d_ID d = None →
  d_Revision d = match schedules m !! d_SubID d with Some s => wrap64 (sc_Revision s + 1) | None => 1 end →
  (d_InvoiceID d ≠ "" → invoiceDeliveries m !! d_InvoiceID d = None ∧ is_Some (t_invoices db !! d_InvoiceID d)) →
  insertDelivery d db = (Ok tt, on_deliveries <[d_ID d := delivery_columns d]> db).
Proof.
  intros H Hinv Hn Hf Hrev Hi. unfold insertDelivery. cbv zeta.
  assert (Hclash : ∀ kv, kv ∈ range (t_deliveries db) → (bool_decide (kv.1 = d_ID d)
    || (is_set (dr_invoice_id (delivery_columns d)) && bool_decide (dr_invoice_id kv.2 = dr_invoice_id (delivery_columns d)))
    || (bool_decide (dr_sub_id kv.2 = d_SubID d) && (dr_revision kv.2 =? d_Revision d))) = false).
  { intros [id r] Hin%elem_of_range. cbn [fst snd]. rewrite bool_decide_eq_false_2 by congruence. cbn [orb].
    apply orb_false_iff. split.
    - cbn. case_bool_decide as Hid; [done|]. cbn [is_set andb]. apply bool_decide_eq_false_2. intros Hr. destruct (Hi Hid) as [Hni _].
      assert (invoiceDeliveries m !! d_InvoiceID d = Some id) by (apply (rep_index db m H); by exists r). congruence.
    - case_bool_decide as Hsub; [|done]. cbn [andb]. apply Z.eqb_neq. rewrite Hrev.
      assert (Hd : deliveries m !! id = Some (mem_delivery id r)) by (rewrite (rep_deliveries db m H), Hin; done).
      destruct (dok_sched _ _ _ _ (inv_deliveries n m Hinv id _ Hd)) as (s & Hs & Hle & _). cbn in Hs, Hle. rewrite Hsub in Hs. rewrite Hs.
      destruct (inv_schedules n m Hinv _ _ Hs) as (_ & Hb & _). rewrite wrap64_small by (unfold min_int64, max_int64 in *; lia). lia. }
  destruct (existsb _ _) eqn:Hx.
  { apply existsb_exists in Hx as (kv & Hin & Hkv). rewrite Hclash in Hkv; [done|]. by apply list_elem_of_In. }
  cbn [delivery_columns dr_invoice_id]. case_bool_decide as Hid; [done|]. destruct (Hi Hid) as [_ [r Hr]]. by rewrite Hr.
Qed.
Lemma fresh_row db m id : represents db m → deliveries m !! id = None → t_deliveries db !! id = None.
Proof. intros H Hd. rewrite (rep_deliveries db m H) in Hd. by apply fmap_None in Hd. Qed.
Lemma delivery_of_invoice_index db m i : represents db m →
  delivery_of_invoice i db = (λ id, scanDelivery id (default (delivery_columns zero_delivery) (t_deliveries db !! id))) <$> invoiceDeliveries m !! i.
Proof.
  intros H. unfold delivery_of_invoice.
  assert (Hin : ∀ id r, (id, r) ∈ rows (λ _ r, bool_decide (dr_invoice_id r = Some i)) (t_deliveries db) ↔ t_deliveries db !! id = Some r ∧ dr_invoice_id r = Some i).
  { intros id r. unfold rows. rewrite list_elem_of_filter, elem_of_range. cbn. rewrite bool_decide_eq_true. tauto. }
  destruct (rows _ _) as [|[id r] l]; cbn [head].
  - destruct (invoiceDeliveries m !! i) as [id|] eqn:Hi; [|done]. apply (rep_index db m H) in Hi as (r & Hr).
    apply Hin in Hr. by apply elem_of_nil in Hr.
  - destruct (proj1 (Hin id r)) as [Hr Hi]; [by left|]. assert (Hx : invoiceDeliveries m !! i = Some id) by (apply (rep_index db m H); by exists r).
    rewrite Hx. cbn. by rewrite Hr.
Qed.
Lemma whole_add t d : whole t → whole d → whole (Add t d).
Proof. unfold whole, Add. intros Ht Hd. rewrite Zplus_mod, Ht, Hd. done. Qed.
Lemma sim_StageInvoiceCredit n i sub u now d g db m : represents db m → ledger_inv n m → n < max_int64 →
  contract (OpStageInvoiceCredit i sub u now d g) m → simulates (OpStageInvoiceCredit i sub u now d g) db m.
Proof.
  intros H Hinv Hn (Hi & Hw & Hwd & Hwg). apply simulates_call. unfold PgStageInvoiceCredit. rewrite steady_transaction by all_or_nothing_tac.
  unfold getDeliveryByInvoice. rewrite steady_in_tx_bind, (delivery_of_invoice_index db m i H). unfold StageInvoiceCredit.
  destruct (invoiceDeliveries m !! i) as [id|] eqn:Hx; cbn [fmap option_fmap option_map].
  { apply (rep_index db m H) in Hx as (r & Hr & _). rewrite (rep_deliveries db m H), Hr. split; [|done]. apply mem_delivery_same. }
  rewrite steady_in_tx_bind, (lookup_invoice db m i H). destruct (t_invoices db !! i) as [inv|] eqn:Hinvoice; cbn [scanInvoice fmap option_fmap option_map found];
    [|by apply alike_err].
  destruct (negb _); [by apply alike_err|]. unfold getScheduleForUpdate. rewrite steady_in_tx_bind, <- (rep_schedules db m H).
  set (target := credit_target (schedules m !! sub) i (inv_Plan (ir_invoice inv)) sub u now d g). cbv zeta.
  assert (Hbase : whole (match schedules m !! sub with Some s => if After (sc_ExpiresAt s) now then sc_ExpiresAt s else now | None => now end)).
  { destruct (schedules m !! sub) as [s|] eqn:Hs; [|done]. rewrite (rep_schedules db m H) in Hs.
    destruct (rep_schedule_row db m H sub s Hs). by destruct (After _ _). }
  assert (He : whole (d_ExpiresAt target)) by (by apply whole_add). assert (Hg : whole (d_GraceUntil target)) by (by apply whole_add, Hwg; apply whole_add).
  assert (Hf : t_deliveries db !! d_ID target = None) by (apply (fresh_row db m _ H); by apply (invoice_id_fresh n)).
  assert (Hfk : d_InvoiceID target ≠ "" → invoiceDeliveries m !! d_InvoiceID target = None ∧ is_Some (t_invoices db !! d_InvoiceID target)) by done.
  rewrite steady_in_tx_bind. change (insertDelivery _ _) with (insertDelivery target db).
  rewrite (insertDelivery_ok db m n target H Hinv Hn Hf eq_refl Hfk), steady_in_tx_bind.
  change (alike ADelivery (Ok target, set_invoiceDeliveries <[i := d_ID target]> (set_deliveries <[d_ID target := target]> (set_schedules <[sub := schedule_of target]> m)))
    (Ok target, on_schedules <[sub := schedule_row (schedule_of target)]> (on_deliveries <[d_ID target := delivery_columns target]> db))).
  split; [by left|]. pose proof (rep_insert_delivery db m target H Hf He Hg Hw eq_refl Hfk) as Hrep.
  unfold set_index in Hrep. rewrite bool_decide_eq_false_2 in Hrep by done.
  assert (schedule_row (schedule_of target) = schedule_of target) as -> by (unfold schedule_row; cbn; by rewrite !timestamptz_whole).
  exact (rep_schedule _ _ (schedule_of target) sub Hrep He Hg).
Qed.
Lemma sim_StageScheduleTransition n sub r st now db m : represents db m → ledger_inv n m → n < max_int64 → whole now →
  simulates (OpStageScheduleTransition sub r st now) db m.
Proof.
  intros H Hinv Hn Hw. apply simulates_call. unfold PgStageScheduleTransition. rewrite steady_transaction by all_or_nothing_tac.
  unfold getScheduleForUpdate. rewrite steady_in_tx_bind. unfold StageScheduleTransition. rewrite (rep_schedules db m H).
  destruct (t_schedules db !! sub) as [s|] eqn:Hs; [|by apply alike_err]. destruct (negb _); [by apply alike_ok|].
  destruct (rep_schedule_row db m H sub s Hs) as [He Hg]. set (target := transition_target s sub st now). cbv zeta.
  rewrite <- (rep_schedules db m H) in Hs. destruct (inv_schedules n m Hinv _ _ Hs) as (Hsub & Hb & _).
  assert (Hrev : d_Revision target = sc_Revision s + 1) by (apply wrap64_small; unfold min_int64; lia).
  assert (Hf : t_deliveries db !! d_ID target = None).
  { apply (fresh_row db m _ H). change (d_ID target) with (schedule_delivery_id sub (d_Revision target)). rewrite Hrev. by apply (schedule_id_fresh n). }
  assert (Hfk : d_InvoiceID target ≠ "" → invoiceDeliveries m !! d_InvoiceID target = None ∧ is_Some (t_invoices db !! d_InvoiceID target)) by done.
  assert (Hrow : d_Revision target = match schedules m !! d_SubID target with Some s => wrap64 (sc_Revision s + 1) | None => 1 end) by (cbn; by rewrite Hs).
  rewrite steady_in_tx_bind. change (insertDelivery _ _) with (insertDelivery target db).
  rewrite (insertDelivery_ok db m n target H Hinv Hn Hf Hrow Hfk), steady_in_tx_bind. unfold update_key. cbn [on_deliveries t_schedules].
  rewrite <- (rep_schedules db m H), Hs.
  change (alike (λ r, ATransition r.1 r.2) (Ok (target, true), set_deliveries <[d_ID target := target]> (set_schedules <[sub := advance_schedule s (d_Revision target) st]> m))
    (Ok (target, true), on_schedules <[sub := advance_schedule s (d_Revision target) st]> (on_deliveries <[d_ID target := delivery_columns target]> db))).
  split; [done|]. pose proof (rep_insert_delivery db m target H Hf He Hg Hw eq_refl Hfk) as Hrep.
  exact (rep_schedule _ _ (advance_schedule s (d_Revision target) st) sub Hrep He Hg).
Qed.
(** *** Batches *)
Lemma NoDup_rows {V} (p : string → V → bool) (t : gmap string V) : NoDup (rows p t).*1.
Proof.
  unfold rows. eapply sublist_NoDup; [apply (NoDup_fst_range t)|]. apply (fmap_sublist fst), sublist_filter.
Qed.
Lemma limited_take {A} limit (l : list A) : 0 < limit → limited limit l = take (Z.to_nat limit) l.
Proof. intros H. unfold limited. by rewrite (proj2 (Z.ltb_lt _ _) H). Qed.
Lemma rep_lease_delivery db m id r u : represents db m → t_deliveries db !! id = Some r →
  represents (on_deliveries <[id := with_delivery (dr_delivered_at r) (Some u) r]> db) (set_settled <[lease_key id := delivery_lease u]> m).
Proof.
  intros H Hr. destruct H; split; try done; cbn.
  - intros i Hi. rewrite lookup_insert_ne; [by apply rep_claims0|]. intros Heq. by apply (Hi id).
  - intros d. destruct (decide (d = id)) as [->|Hne]; [by rewrite !lookup_insert_eq|].
    rewrite !lookup_insert_ne; [apply rep_delivery_leases0|done|]. by intros Heq%string_app_inj_l.
  - intros i. destruct (decide (i = id)) as [->|Hne]; [|rewrite lookup_insert_ne by done; apply rep_deliveries0].
    by rewrite lookup_insert_eq, rep_deliveries0, Hr.
  - intros i r' Hr'. apply lookup_insert_Some in Hr' as [[<- <-]|[_ Hr']]; [by apply (rep_delivery_row0 id r)|by apply (rep_delivery_row0 i)].
  - intros i k. rewrite rep_index0. split; intros (r' & Hr' & Hi).
    + destruct (decide (k = id)) as [->|Hne]; [|exists r'; by rewrite lookup_insert_ne].
      rewrite lookup_insert_eq. eexists. split; [done|]. cbn. congruence.
    + apply lookup_insert_Some in Hr' as [[<- <-]|[_ Hr']]; [by exists r|by exists r'].
Qed.
Lemma rep_lease_batch u l : ∀ db m, represents db m → NoDup l.*1 → (∀ id r, (id, r) ∈ l → t_deliveries db !! id = Some r) →
  represents (on_deliveries (λ t, foldl (λ t kv, <[kv.1 := with_delivery (dr_delivered_at kv.2) (Some u) kv.2]> t) t l) db)
    (set_settled (λ s, foldl (lease_delivery u) s ((λ kv, mem_delivery kv.1 kv.2) <$> l)) m).
Proof.
  induction l as [|[id r] l IH]; intros db m H Hnd Hin; [by destruct H|]. apply NoDup_cons in Hnd as [Hid Hnd].
  apply (IH _ _ (rep_lease_delivery db m id r u H (Hin id r ltac:(by left)))); [done|].
  intros id' r' Hl. cbn. rewrite lookup_insert_ne; [apply Hin; by right|]. intros ->. apply Hid, list_elem_of_fmap. by exists (id', r').
Qed.
Lemma delivery_before_weak : strict_weak delivery_before.
Proof.
  pose proof str_lt_weak as [Ha Hn]. split; unfold delivery_before, TEqual, Before; intros *;
    repeat match goal with |- context [?a =? ?b] => destruct (Z.eqb_spec a b) end; rewrite ?Z.ltb_lt, ?Z.ltb_ge; eauto; lia.
Qed.
Lemma due_leasable db m now ot id r : represents db m → whole ot → t_deliveries db !! id = Some r →
  leasable m now ot (mem_delivery id r) = due_row now ot id r.
Proof.
  intros H Hw Hr. unfold leasable, due_row. change (d_ID (mem_delivery id r)) with id. rewrite (rep_delivery_leases db m H), Hr, timestamptz_whole by done.
  cbn [mem_delivery with_d_DeliveredAt d_DeliveredAt]. rewrite IsZero_time_of by apply (rep_delivery_row db m H id r Hr).
  rewrite negb_orb, !negb_involutive. f_equal. cbn. unfold not_leased. destruct (dr_leased_until r); [|done]. cbn.
  unfold After. symmetry. apply Z.leb_antisym.
Qed.
Lemma due_perm db m now ot : represents db m → whole ot →
  filter (λ d, leasable m now ot d = true) (range (deliveries m)).*2 ≡ₚ (λ kv, mem_delivery kv.1 kv.2) <$> rows (due_row now ot) (t_deliveries db).
Proof.
  intros H Hw. apply NoDup_Permutation.
  - apply NoDup_filter, (NoDup_fmap_1 d_ID). rewrite <- list_fmap_compose.
    assert (Hk : (d_ID ∘ snd) <$> range (deliveries m) = (range (deliveries m)).*1); [|rewrite Hk; apply NoDup_fst_range].
    apply list_fmap_ext. intros j [k d] Hj%list_elem_of_lookup_2%elem_of_range. rewrite (rep_deliveries db m H) in Hj.
    by destruct (t_deliveries db !! k); [injection Hj as <-|].
  - apply (NoDup_fmap_1 d_ID). rewrite <- list_fmap_compose. apply NoDup_rows.
  - intros d. rewrite list_elem_of_filter, list_elem_of_fmap. setoid_rewrite list_elem_of_fmap. split.
    + intros [Hl ([k d'] & -> & Hk%elem_of_range)]. cbn in *. rewrite (rep_deliveries db m H) in Hk.
      destruct (t_deliveries db !! k) as [r|] eqn:Hr; [|done]. injection Hk as <-. exists (k, r). split; [done|].
      apply elem_of_rows. split; [done|]. by rewrite <- (due_leasable db m now ot k r).
    + intros ([k r] & -> & [Hr Hd]%elem_of_rows). cbn. rewrite (due_leasable db m now ot k r) by done. split; [done|].
      exists (k, mem_delivery k r). split; [done|]. apply elem_of_range. by rewrite (rep_deliveries db m H), Hr.
Qed.
Lemma sim_LeaseBillingDeliveries now ot lf lim db m : represents db m → contract (OpLeaseBillingDeliveries now ot lf lim) m →
  simulates (OpLeaseBillingDeliveries now ot lf lim) db m.
Proof.
  intros H (Hw & Hl & Hlim & Htext). apply simulates_call. unfold PgLeaseBillingDeliveries. rewrite steady_autocommit.
  unfold lease_deliveries. destruct (Z.ltb_spec lim 0); [lia|]. unfold exact in Hl. rewrite Hl, LeaseBillingDeliveries_unfold, !limited_take by done.
  unfold delivery_list. rewrite (sort_slice_fmap (λ kv, mem_delivery kv.1 kv.2) row_before delivery_before (rows (due_row now ot) (t_deliveries db)) _ delivery_before_weak).
  4: by apply due_perm.
  2: { intros [k r] [k' r']. unfold row_before, delivery_before, Before. cbn. by rewrite Htext. }
  2: { intros d d'. rewrite !(due_perm db m now ot H Hw), !list_elem_of_fmap.
       intros ([k r] & -> & [Hr _]%elem_of_rows) ([k' r'] & -> & [Hr' _]%elem_of_rows). unfold delivery_before, TEqual, Before. cbn.
       destruct (Z.eqb_spec (dr_created_at r) (dr_created_at r')) as [->|Hne]; [|destruct (Z.eqb_spec (dr_created_at r') (dr_created_at r)); [congruence|];
         rewrite !Z.ltb_ge; lia]. rewrite Z.eqb_refl. intros H1 H2. assert (k = k') as -> by (by apply str_lt_no_ties). congruence. }
  set (chosen := take (Z.to_nat lim) (sort_slice row_before (rows (due_row now ot) (t_deliveries db)))). rewrite <- fmap_take. fold chosen.
  assert (Hsub : chosen ⊆+ rows (due_row now ot) (t_deliveries db)).
  { rewrite <- (sort_slice_perm row_before (rows (due_row now ot) (t_deliveries db))). apply sublist_submseteq, sublist_take. }
  split.
  - cbn. exists ((λ kv, scanDelivery kv.1 kv.2) <$> chosen). split; [by rewrite returning_perm|].
    apply Forall2_fmap, Forall_Forall2_diag, Forall_forall. intros [k r] _. apply mem_delivery_same.
  - cbn. apply rep_lease_batch; [done| |].
    + eapply sublist_NoDup; [|apply (fmap_sublist fst), sublist_take]. rewrite (sort_slice_perm row_before). apply NoDup_rows.
    + intros k r Hin. pose proof (elem_of_submseteq _ _ _ Hin Hsub) as Hrow. by apply elem_of_rows in Hrow as [? _].
Qed.
(** *** Recovery leases *)
Definition claim_of (kv : string * settlement_row) : string * memSettlement := (kv.1, mem_settlement kv.2).
Lemma rep_lease_claims u l : ∀ db m, u ≠ zero_time → represents db m → NoDup l.*1 → (∀ i r, (i, r) ∈ l → t_settlements db !! i = Some r) →
  represents (on_settlements (λ t, foldl (λ t kv, <[kv.1 := with_leased (Some u) kv.2]> t) t l) db)
    (set_settled (λ s, foldl (lease_settlement u) s (claim_of <$> l)) m).
Proof.
  intros db m Hu. revert db m. induction l as [|[i r] l IH]; intros db m H Hnd Hin; [by destruct H|]. apply NoDup_cons in Hnd as [Hid Hnd].
  destruct (rep_claim_row db m H i r (Hin i r ltac:(by left))) as (Hi & Ha & _).
  assert (Hok : sr_activated_at (with_leased (Some u) r) ≠ Some zero_time ∧ sr_reconcile_leased_until (with_leased (Some u) r) ≠ Some zero_time).
  { split; [done|]. by intros [= ->]. }
  apply (IH _ _ (rep_settlement db m i (Some (with_leased (Some u) r)) H Hi Hok)); [done|].
  intros i' r' Hl. cbn. rewrite lookup_partial_alter_ne; [apply Hin; by right|]. intros ->. apply Hid, list_elem_of_fmap. by exists (i', r').
Qed.
Lemma stuck_claim db m now ot i r : represents db m → whole ot → t_settlements db !! i = Some r →
  stuck m now ot (i, mem_settlement r) = stuck_row db now ot i r.
Proof.
  intros H Hw Hr. destruct (rep_claim_row db m H i r Hr) as (_ & _ & Hl). unfold stuck, stuck_row. cbn [fst snd].
  rewrite (lookup_invoice db m i H), timestamptz_whole by done. destruct (t_invoices db !! i) as [inv|]; [|done].
  cbn [fmap option_fmap option_map]. cbn [mem_settlement claimedAt leasedUntil]. rewrite IsZero_time_of by done. unfold After.
  rewrite <- Z.leb_antisym. f_equal. unfold not_leased. destruct (sr_reconcile_leased_until r); [|done]. cbn. symmetry. apply Z.leb_antisym.
Qed.
Lemma stuck_perm db m now ot : represents db m → whole ot →
  filter (λ kv, stuck m now ot kv = true) (range (settled m)) ≡ₚ claim_of <$> rows (stuck_row db now ot) (t_settlements db).
Proof.
  intros H Hw. apply NoDup_Permutation.
  - apply NoDup_filter, NoDup_range.
  - apply (NoDup_fmap_1 fst). rewrite <- list_fmap_compose. apply NoDup_rows.
  - intros [i s]. rewrite list_elem_of_filter, elem_of_range, list_elem_of_fmap. split.
    + intros [Hst Hs]. pose proof Hst as Hst'. unfold stuck in Hst'. cbn in Hst'. rewrite (lookup_invoice db m i H) in Hst'.
      destruct (t_invoices db !! i) as [inv|] eqn:Hi; [|done]. destruct (rep_invoice_row db m H i inv Hi) as (Hid & _).
      rewrite (settled_claim db m i H Hid) in Hs. destruct (t_settlements db !! i) as [r|] eqn:Hr; [|done]. injection Hs as <-.
      exists (i, r). split; [done|]. apply elem_of_rows. split; [done|]. by rewrite <- (stuck_claim db m now ot i r).
    + intros ([i' r] & [= -> ->] & [Hr Hst]%elem_of_rows). destruct (rep_claim_row db m H i' r Hr) as (Hid & _). split.
      * by rewrite (stuck_claim db m now ot i' r).
      * by rewrite (settled_claim db m i' H Hid), Hr.
Qed.
Lemma sim_LeaseStuckSettlements now ot lf lim db m : represents db m → contract (OpLeaseStuckSettlements now ot lf lim) m →
  simulates (OpLeaseStuckSettlements now ot lf lim) db m.
Proof.
  intros H (Hw & Hl & Hz & Hlim & Htie). apply simulates_call. unfold PgLeaseStuckSettlements. rewrite steady_autocommit.
  unfold lease_stuck. destruct (Z.ltb_spec lim 0); [lia|]. unfold exact in Hl. rewrite Hl, LeaseStuckSettlements_unfold, !limited_take by done.
  unfold stuck_list. set (older := λ a b : string * settlement_row, sr_claimed_at a.2 <? sr_claimed_at b.2).
  rewrite (sort_slice_fmap claim_of older settlement_older (rows (stuck_row db now ot) (t_settlements db)) _ settlement_older_weak).
  4: by apply stuck_perm.
  2: done.
  2: { intros [i s] [j s']. rewrite !list_elem_of_filter, !elem_of_range. intros [Hs1 Hs] [Hs2 Hs']. unfold settlement_older, Before. cbn.
       rewrite !Z.ltb_ge. intros H1 H2. assert (i = j) as -> by (apply (Htie i s j s'); [done..|lia]). congruence. }
  set (chosen := take (Z.to_nat lim) (sort_slice older (rows (stuck_row db now ot) (t_settlements db)))). rewrite <- fmap_take. fold chosen.
  assert (Hrow : ∀ i r, (i, r) ∈ chosen → t_settlements db !! i = Some r).
  { intros i r Hin. apply elem_of_take in Hin as (j & Hj & _). apply list_elem_of_lookup_2 in Hj. rewrite elem_of_sort_slice in Hj. by apply elem_of_rows in Hj as [? _]. }
  split.
  - cbn. rewrite returning_perm, <- list_fmap_compose. apply reflexive_eq, list_fmap_ext. intros j [i r] Hj%list_elem_of_lookup_2. cbn.
    destruct (rep_claim_row db m H i r (Hrow i r Hj)) as (_ & Ha & _). by rewrite IsZero_time_of, negb_involutive.
  - apply rep_lease_claims; [done..| |done].
    eapply sublist_NoDup; [|apply (fmap_sublist fst), sublist_take]. rewrite (sort_slice_perm older). apply NoDup_rows.
Qed.
(** *** Completion *)
Lemma rep_complete db m id r t : represents db m → t_deliveries db !! id = Some r → t ≠ zero_time →
  represents (on_deliveries <[id := with_delivery (Some t) None r]> db)
    (set_settled (delete (lease_key id)) (set_deliveries <[id := with_d_DeliveredAt t (mem_delivery id r)]> m)).
Proof.
  intros H Hr Ht. destruct H; split; try done; cbn.
  - intros i Hi. rewrite lookup_delete_ne; [by apply rep_claims0|]. intros Heq. by apply (Hi id).
  - intros d. destruct (decide (d = id)) as [->|Hne]; [by rewrite lookup_delete_eq, lookup_insert_eq|].
    rewrite lookup_delete_ne, lookup_insert_ne; [apply rep_delivery_leases0|done|]. by intros Heq%string_app_inj_l.
  - intros i. destruct (decide (i = id)) as [->|Hne]; [by rewrite !lookup_insert_eq|]. rewrite !lookup_insert_ne by done. apply rep_deliveries0.
  - intros i r' Hr'. apply lookup_insert_Some in Hr' as [[<- <-]|[_ Hr']]; [|by apply (rep_delivery_row0 i)].
    split; [by intros [= ->]|]. by apply (rep_delivery_row0 id r).
  - intros i k. rewrite rep_index0. split; intros (r' & Hr' & Hi).
    + destruct (decide (k = id)) as [->|Hne]; [|exists r'; by rewrite lookup_insert_ne].
      rewrite lookup_insert_eq. eexists. split; [done|]. cbn. congruence.
    + apply lookup_insert_Some in Hr' as [[<- <-]|[_ Hr']]; [by exists r|by exists r'].
Qed.
Lemma sim_CompleteBillingDelivery now id db m : represents db m → contract (OpCompleteBillingDelivery now id) m →
  simulates (OpCompleteBillingDelivery now id) db m.
Proof.
  intros H (Hn & Hdone). apply simulates_call. unfold PgCompleteBillingDelivery. rewrite steady_transaction by all_or_nothing_tac.
  rewrite steady_in_tx_bind. unfold CompleteBillingDelivery. rewrite (rep_deliveries db m H). rewrite (rep_deliveries db m H) in Hdone.
  destruct (t_deliveries db !! id) as [r|] eqn:Hr; cbn [fmap option_fmap option_map]; [|by apply alike_err].
  destruct (rep_delivery_row db m H id r Hr) as [Hdel Hfk].
  change (d_DeliveredAt (mem_delivery id r)) with (time_of (dr_delivered_at r)). rewrite IsZero_time_of by done.
  assert (Ht : default now (dr_delivered_at r) ≠ zero_time) by (destruct (dr_delivered_at r); [intros Heq; apply Hdel; by f_equal|done]).
  pose proof (rep_complete db m id r _ H Hr Ht) as Hrep.
  assert (Hsame : is_set (dr_delivered_at r) = true → set_deliveries <[id := with_d_DeliveredAt (default now (dr_delivered_at r)) (mem_delivery id r)]> m = m).
  { intros Hset. destruct (dr_delivered_at r) as [t|] eqn:Hdr; [|done]. destruct m. unfold set_deliveries. cbn. f_equal. apply insert_id.
    pose proof (rep_deliveries db _ H id) as Hd. cbn in Hd. rewrite Hd, Hr. cbn. unfold mem_delivery. by rewrite Hdr. }
  destruct (dr_invoice_id r) as [i|] eqn:Hi.
  - destruct Hfk as [Hne [ri Hri]]. assert (Hid : d_InvoiceID (mem_delivery id r) = i) by (cbn; by rewrite Hi).
    rewrite Hid, bool_decide_eq_false_2 by done. rewrite steady_in_tx_bind. unfold update_key. cbn [on_deliveries t_invoices]. rewrite Hri.
    cbn [set_deliveries invoices]. rewrite (lookup_invoice db m i H), Hri. cbn [fmap option_fmap option_map].
    pose proof (rep_with_status _ _ i ri StatusSettled Hrep Hri) as Hnew.
    destruct (dr_delivered_at r) as [t|] eqn:Hdr; cbn [is_set negb default] in *; [|by apply alike_ok].
    apply alike_ok; [done|]. rewrite Hsame in Hnew by done.
    assert (Hst : inv_Status (ir_invoice ri) = StatusSettled).
    { apply (Hdone (mem_delivery id r)); [done| |by rewrite Hid, (lookup_invoice db m i H), Hri].
      cbn. rewrite Hdr. cbn. intros Heq. apply Hdel. by f_equal. }
    assert (Hinv : set_invoices <[i := with_inv_Status StatusSettled (ir_invoice ri)]> (set_settled (delete (lease_key id)) m) = set_settled (delete (lease_key id)) m).
    { destruct m. unfold set_invoices, set_settled. cbn. f_equal. apply insert_id.
      pose proof (lookup_invoice db _ i H) as Hl. cbn in Hl. rewrite Hl, Hri. cbn. f_equal. destruct (ir_invoice ri). cbn in *. by subst. }
    by rewrite Hinv in Hnew.
  - assert (Hid : d_InvoiceID (mem_delivery id r) = "") by (cbn; by rewrite Hi). rewrite Hid, bool_decide_eq_true_2 by done.
    destruct (dr_delivered_at r) as [t|] eqn:Hdr; cbn [is_set negb default] in *; apply alike_ok; try done.
    by rewrite Hsame in Hrep.
Qed.

(** ** Any call *)
Lemma simulation n op db m : represents db m → ledger_inv n m → n < max_int64 → contract op m → simulates op db m.
Proof.
  intros H Hinv Hn Hc. destruct op; cbn [contract] in Hc.
  - by apply sim_CreateInvoice.
  - by apply sim_SetInvoiceStatus.
  - by apply sim_RecordEvent.
  - by apply sim_ClaimSettlement.
  - by apply sim_ReleaseSettlement.
  - destruct Hc. by apply sim_MarkSettlementActivated.
  - by apply sim_LeaseStuckSettlements.
  - destruct Hc. by apply sim_ExpireOverdue.
  - destruct Hc. by apply sim_AcquirePollLease.
  - by apply sim_RenewPollLease.
  - by apply sim_ReleasePollLease.
  - by apply sim_RecordNegativeCheck.
  - by apply sim_ClearNegativeCheck.
  - by apply sim_ReserveInvoiceIntent.
  - by apply sim_BeginInvoiceCreate.
  - by apply sim_CompleteInvoiceCreate.
  - by apply sim_FailInvoiceCreate.
  - by apply (sim_StageInvoiceCredit n).
  - by apply (sim_StageScheduleTransition n).
  - by apply sim_LeaseBillingDeliveries.
  - by apply sim_CompleteBillingDelivery.
Qed.
End simulation.

(** ** Over a lossy link *)
Section durable.
Context `{ord : !MapOrder, pg : !Postgres}.
(** A call that is lost may have been carried out or not; any other is carried out and answered as in memory. *)
Lemma call_refines n op db m link : represents db m → ledger_inv n m → n < max_int64 → contract op m →
  let '(r, s) := pg_call op (mkSession db link) in
  (lost r ∧ (represents (ss_db s) m ∨ represents (ss_db s) (exec_op op m))) ∨
  (same_result (mem_call op m).1 r ∧ represents (ss_db s) (exec_op op m)).
Proof.
  intros H Hinv Hn Hc. destruct (simulation n op db m H Hinv Hn Hc) as [Hr Hs]. rewrite mem_call_exec in Hs.
  pose proof (pg_call_all_or_nothing op db link) as Haon. destruct (pg_call op (mkSession db link)) as [r s].
  destruct Haon as [[Hl Hdb]|Heq].
  - left. split; [done|]. destruct Hdb as [-> | ->]; auto.
  - right. rewrite <- Heq in Hr, Hs. done.
Qed.
Fixpoint pg_run (ops : list repo_op) (s : Session Db) : Session Db :=
  match ops with [] => s | op :: ops => pg_run ops (pg_call op s).2 end.
(** The callers respect the contract whether or not an earlier call took effect. *)
Fixpoint respected (ops : list repo_op) (m : Memory) : Prop :=
  match ops with
  | [] => True
  | op :: ops => contract op m ∧ respected ops m ∧ respected ops (exec_op op m)
  end.
Lemma pg_run_kept ops : ∀ n db m link, represents db m → ledger_inv n m → 0 <= n → n + Z.of_nat (length ops) <= max_int64 → respected ops m →
  ∃ kept, kept `sublist_of` ops ∧ represents (ss_db (pg_run ops (mkSession db link))) (run kept m).
Proof.
  induction ops as [|op ops IH]; intros n db m link H Hinv Hn Hlen Hc; [by exists []|].
  destruct Hc as (Hc & Hno & Hyes). cbn [length pg_run] in *.
  assert (Hmono : ∀ m', ledger_inv n m' → ledger_inv (n + 1) m') by (intros m'; apply ledger_inv_frame; [lia|done]).
  pose proof (call_refines n op db m link H Hinv ltac:(lia) Hc) as Hcall. destruct (pg_call op (mkSession db link)) as [r [db' link']]. cbn [snd ss_db] in *.
  assert (Hskip : represents db' m → ∃ kept, kept `sublist_of` op :: ops ∧ represents (ss_db (pg_run ops (mkSession db' link'))) (run kept m)).
  { intros H'. destruct (IH (n + 1) db' m link' H' (Hmono m Hinv) ltac:(lia) ltac:(lia) Hno) as (kept & Hk & Hrep).
    exists kept. split; [by apply sublist_cons|done]. }
  assert (Hkeep : represents db' (exec_op op m) → ∃ kept, kept `sublist_of` op :: ops ∧ represents (ss_db (pg_run ops (mkSession db' link'))) (run kept m)).
  { intros H'. destruct (IH (n + 1) db' (exec_op op m) link' H' ltac:(apply exec_op_inv; [done|lia]) ltac:(lia) ltac:(lia) Hyes) as (kept & Hk & Hrep).
    exists (op :: kept). split; [by apply sublist_skip|done]. }
  destruct Hcall as [[_ [H'|H']]|[_ H']]; auto.
Qed.
End durable.

(** The production store is the store every other theorem is about. When the tables represent a state of the
    store in memory that a run of at most 2^63-1 calls reaches, then any call that respects the contract of the
    Repository, on a link that may lose it, its transaction's statements or its COMMIT, either reports the
    connection lost and has done all of its work or none of it, or answers what the store in memory answers (rows
    in any order, an undelivered entry carrying the epoch) and leaves tables that represent what memory holds. *)
Theorem postgres_call_refines `{ord : !MapOrder, pg : !Postgres} n op db m link :
  represents db m → reaches n m → Z.of_nat n < max_int64 → contract op m →
  let '(r, s) := pg_call op (mkSession db link) in
  (lost r ∧ (represents (ss_db s) m ∨ represents (ss_db s) (exec_op op m))) ∨
  (same_result (mem_call op m).1 r ∧ represents (ss_db s) (exec_op op m)).
Proof. intros H Hr Hn Hc. apply (call_refines (Z.of_nat n)); [done|apply reaches_inv; [done|lia]|done|done]. Qed.

(** C6: no run of billing on Postgres loses or doubles money. For any calls within the Repository's contract (times
    and durations of whole microseconds, an invoice or an order created once, Begin of a reserved key and leases of
    known invoices, ids of claims and provider names without the separator, positive limits, no ties among stuck
    claims, no second completion of the delivery of an invoice set back from settled, ids collated by bytes), whether or not the earlier ones took effect,
    and whichever of them the link loses: the tables represent the store in memory after some of those calls, in
    their order; in them an invoice has at most one ledger row, and every schedule is the state of its newest
    ledger row. *)
Theorem postgres_runs `{ord : !MapOrder, pg : !Postgres} ops link :
  respected ops NewMemory → Z.of_nat (length ops) <= max_int64 →
  let db := ss_db (pg_run ops (mkSession empty_db link)) in
  (∃ kept, kept `sublist_of` ops ∧ represents db (run kept NewMemory)) ∧
  (∀ i id1 id2 r1 r2, t_deliveries db !! id1 = Some r1 → t_deliveries db !! id2 = Some r2 →
     dr_invoice_id r1 = Some i → dr_invoice_id r2 = Some i → id1 = id2) ∧
  (∀ sub s, t_schedules db !! sub = Some s → ∃ id r, t_deliveries db !! id = Some r ∧ schedule_of (scanDelivery id r) = s ∧
     ∀ id' r', t_deliveries db !! id' = Some r' → dr_sub_id r' = sub → dr_revision r' <= dr_revision r).
Proof.
  intros Hc Hn. destruct (pg_run_kept ops 0 empty_db NewMemory link represents_empty ledger_inv_empty) as (kept & Hk & Hrep); [lia..|done|].
  cbv zeta. set (db := ss_db _) in *. set (m := run kept NewMemory) in *.
  assert (Hinv : ledger_inv (Z.of_nat (length kept)) m).
  { apply reaches_inv; [apply run_nsteps|]. apply sublist_length in Hk. lia. }
  split; [by exists kept|]. split.
  - intros i id1 id2 r1 r2 H1 H2 Hi1 Hi2.
    assert (invoiceDeliveries m !! i = Some id1) by (apply (rep_index db m Hrep); by exists r1).
    assert (invoiceDeliveries m !! i = Some id2) by (apply (rep_index db m Hrep); by exists r2). congruence.
  - intros sub s Hs. rewrite <- (rep_schedules db m Hrep) in Hs. destruct (inv_schedules _ _ Hinv sub s Hs) as (Hsub & _ & id & d & Hd & Hsd).
    rewrite (rep_deliveries db m Hrep) in Hd. destruct (t_deliveries db !! id) as [r|] eqn:Hr; [|done]. injection Hd as <-.
    exists id, r. split; [done|]. split; [exact Hsd|]. intros id' r' Hr' Hsub'.
    assert (Hd' : deliveries m !! id' = Some (mem_delivery id' r')) by (by rewrite (rep_deliveries db m Hrep), Hr').
    destruct (dok_sched _ _ _ _ (inv_deliveries _ _ Hinv id' _ Hd')) as (s' & Hs' & [_ Hle] & _). cbn in Hs', Hle. rewrite Hsub', Hs in Hs'.
    injection Hs' as <-. rewrite <- Hsd in Hle. exact Hle.
Qed.

(** ** A credit whose COMMIT is lost *)
Definition us_invoice : Invoice := {|
  inv_ID := "i1"; inv_Provider := "btcpay"; inv_AnonUserID := "u1"; inv_Plan := "basic"; inv_Currency := "BTC"; inv_Amount := "0.01";
  inv_PayAddress := "addr"; inv_ProviderInvoiceID := "p1"; inv_Status := StatusPending; inv_CreatedAt := 100000; inv_ExpiresAt := 200000 |}.
Definition us_credit : repo_op := OpStageInvoiceCredit "i1" "s1" "u1" 110000 1000000 50000.
Definition us_ops : list repo_op := [OpCreateInvoice us_invoice; us_credit; us_credit].
(** BEGIN, the three reads and the two writes run; the connection breaks when COMMIT has taken effect. *)
Definition us_link : list fault := [Runs; Runs; Runs; Runs; Runs; Runs; Runs; LostAfter].
Lemma i1_claim : claim_id "i1".
Proof. intros d. discriminate. Qed.
Lemma us_created : contract (pg := c_server) (OpCreateInvoice us_invoice) NewMemory.
Proof. split; [|done]. split_and!; [apply i1_claim|done..]. Qed.
Lemma postgres_call_refines_witness :
  let db := ss_db (pg_run (ord := key_order) (pg := c_server) [OpCreateInvoice us_invoice] (mkSession empty_db [])) in
  let m := run (ord := key_order) [OpCreateInvoice us_invoice] NewMemory in
  let '(r, s) := pg_call (ord := key_order) (pg := c_server) us_credit (mkSession db (tail us_link)) in
  (lost r ∧ (represents (ss_db s) m ∨ represents (ss_db s) (exec_op (ord := key_order) us_credit m))) ∨
  (same_result (mem_call (ord := key_order) us_credit m).1 r ∧ represents (ss_db s) (exec_op (ord := key_order) us_credit m)).
Proof.
  intros db m. apply (postgres_call_refines (ord := key_order) (pg := c_server) 1 us_credit db m (tail us_link)).
  - destruct (simulation (ord := key_order) (pg := c_server) 0 (OpCreateInvoice us_invoice) empty_db NewMemory represents_empty ledger_inv_empty eq_refl us_created)
      as [_ Hrep]. exact Hrep.
  - exact (run_nsteps (ord := key_order) [OpCreateInvoice us_invoice] NewMemory).
  - reflexivity.
  - split_and!; [discriminate|reflexivity..].
Defined.
Lemma postgres_runs_witness :
  (λ db, (∃ kept, kept `sublist_of` us_ops ∧ represents db (run (ord := key_order) kept NewMemory)) ∧
    (∀ i id1 id2 r1 r2, t_deliveries db !! id1 = Some r1 → t_deliveries db !! id2 = Some r2 →
       dr_invoice_id r1 = Some i → dr_invoice_id r2 = Some i → id1 = id2) ∧
    (∀ sub s, t_schedules db !! sub = Some s → ∃ id r, t_deliveries db !! id = Some r ∧ schedule_of (scanDelivery id r) = s ∧
       ∀ id' r', t_deliveries db !! id' = Some r' → dr_sub_id r' = sub → dr_revision r' <= dr_revision r))
  (ss_db (pg_run (ord := key_order) (pg := c_server) us_ops (mkSession empty_db us_link))).
Proof.
  apply (postgres_runs (ord := key_order) (pg := c_server) us_ops us_link).
  - split; [apply us_created|]. split; (split; [split_and!; [discriminate|reflexivity..]|]); (split; (split; [split_and!; [discriminate|reflexivity..]|]); done).
  - discriminate.
Defined.
(** The credit was carried out though its caller saw an error, and its repetition found it. *)
Example lost_commit_kept :
  dr_revision <$> t_deliveries (ss_db (pg_run (ord := key_order) (pg := c_server) us_ops (mkSession empty_db us_link))) !! "invoice:i1" = Some 1.
Proof. vm_compute. reflexivity. Qed.
