(* ===== verification/BillingActivator.v ===== *)
(** * The world of one billing process, and its activator

    The components of the service share a store, a control-plane client, a clock and a random source.
    A method of the service is a [M (World C E)] computation: it runs the store's and the client's
    methods on their parts of the world. [C] is the control-plane client's state, [E] that of the
    gateways' outside world (chains, hosted payment servers).

    Every reading of the clock may return a later instant: [w_ticks] are the durations between
    successive readings. [w_ids] are the results of [idgen.New]; [w_ctx] what the coming [ctx.Err()]
    calls see ([true]: canceled), [false] for ever once it is used up. *)
From S2P Require Import Prelude GoText Contracts BillingClient BillingStore.

Record World (C E : Type) := mkWorld {
  w_mem : Memory; w_cp : C; w_env : E; w_clock : Time; w_ticks : list Duration; w_ids : list string;
  w_ctx : list bool }.
Arguments mkWorld {C E}.
Arguments w_mem {C E}. Arguments w_cp {C E}. Arguments w_env {C E}. Arguments w_clock {C E}.
Arguments w_ticks {C E}. Arguments w_ids {C E}. Arguments w_ctx {C E}.

Section world.
Context {C E : Type}.
Abbreviation W := (World C E).

Definition set_mem (m : Memory) (w : W) : W :=
  mkWorld m (w_cp w) (w_env w) (w_clock w) (w_ticks w) (w_ids w) (w_ctx w).
Definition set_cp (c : C) (w : W) : W :=
  mkWorld (w_mem w) c (w_env w) (w_clock w) (w_ticks w) (w_ids w) (w_ctx w).
Definition set_env (e : E) (w : W) : W :=
  mkWorld (w_mem w) (w_cp w) e (w_clock w) (w_ticks w) (w_ids w) (w_ctx w).

(** A call of a store, control-plane or gateway-environment method. *)
Definition store {A} (m : M Memory A) : M W A := zoom w_mem set_mem m.
Definition cp {A} (m : M C A) : M W A := zoom w_cp set_cp m.
Definition env {A} (m : M E A) : M W A := zoom w_env set_env m.

(** [now()] *)
Definition now : M W Time := λ w,
  (Ok (w_clock w), mkWorld (w_mem w) (w_cp w) (w_env w)
    (w_clock w + default 0 (head (w_ticks w))) (tail (w_ticks w)) (w_ids w) (w_ctx w)).
(** [idgen.New()]: the empty string when the random source fails *)
Definition idgen_New : M W string := λ w,
  (Ok (default "" (head (w_ids w))), mkWorld (w_mem w) (w_cp w) (w_env w) (w_clock w) (w_ticks w)
    (tail (w_ids w)) (w_ctx w)).
(** [ctx.Err() != nil] *)
Definition ctx_Err : M W bool := λ w,
  (Ok (default false (head (w_ctx w))), mkWorld (w_mem w) (w_cp w) (w_env w) (w_clock w) (w_ticks w)
    (w_ids w) (tail (w_ctx w))).

(** [WithUserLock(ctx, user, fn)]: one goroutine runs here, so the lock is free and [fn] runs at
    once. Calls of other goroutines are the steps of [BillingOutbox.sys_step]. *)
Definition WithUserLock {A} (userID : string) (fn : M W A) : M W A := fn.

(** A [range] loop over a slice whose body swallows its errors. *)
Fixpoint for_each {A} (l : list A) (body : A → M W unit) : M W unit :=
  match l with
  | [] => mret tt
  | x :: l' => ignore (body x) ;;! for_each l' body
  end.
End world.

(** ** The activator (services/billing/internal/subscription/activator.go)

    Turns a confirmed payment into an entitlement: fix the target in the ledger, push it to the
    control-plane, mark it delivered. *)
(** The absolute state a ledger entry pushes. *)
Definition billing_state (d : BillingDelivery) : BillingState := {|
  bs_Plan := d_Plan d; bs_Revision := d_Revision d; bs_Status := d_Status d;
  bs_ExpiresAt := d_ExpiresAt d; bs_GraceUntil := d_GraceUntil d |}.

Section activator.
Context `{ord : !MapOrder} {C E : Type} `{BC : !BillingClient C} `{CC : !Client C} (catalog : Catalog).
Abbreviation W := (World C E).

Definition Deliver (delivery : BillingDelivery) : M W Subscription :=
  sub ←! wrapping "subscription: set billing state" (cp (SetBillingState (d_SubID delivery) (billing_state delivery))) ;
  t ←! now ;
  wrapping "subscription: complete billing delivery" (store (CompleteBillingDelivery t (d_ID delivery))) ;;!
  mret sub.

Definition CreditInvoice (inv : Invoice) : M W Subscription :=
  match Catalog_Get catalog (inv_Plan inv) with
  | None => fail (Errorf "subscription: unknown plan")
  | Some p =>
      WithUserLock (inv_AnonUserID inv) (
        sub ←! wrapping "subscription: ensure" (cp (EnsureSubscription (inv_AnonUserID inv) (inv_Plan inv))) ;
        t ←! now ;
        delivery ←! wrapping "subscription: stage credit"
          (store (StageInvoiceCredit (inv_ID inv) (s_ID sub) (inv_AnonUserID inv) t (pl_Duration p) (pl_Grace p))) ;
        Deliver delivery)
  end.

(** The superseded path: no production caller. Its first part finds or creates the subscription. *)
Definition activate_subID (anonUserID : string) (planID : SubscriptionPlan) (user : User) : M W string :=
  if ptr_set (u_SubscriptionID user) then mret (default "" (u_SubscriptionID user))
  else
    created ←! try (cp (CreateSubscription (u_ID user) planID)) ;
    match created with
    | Ok sub => mret (s_ID sub)
    | Err cerr =>
        if errors_is cerr ErrSubscriptionExists then
          user ←! wrapping "subscription: get user after conflict" (cp (GetUser anonUserID)) ;
          if ptr_set (u_SubscriptionID user) then mret (default "" (u_SubscriptionID user))
          else fail (Errorf "subscription: create conflicted but user still unlinked")
        else fail (wrap_err "subscription: create" cerr)
    end.

Definition Activate (anonUserID : string) (planID : SubscriptionPlan) : M W Subscription :=
  match Catalog_Get catalog planID with
  | None => fail (Errorf "subscription: unknown plan")
  | Some p =>
      WithUserLock anonUserID (
        user ←! wrapping "subscription: get user" (cp (GetUser anonUserID)) ;
        subID ←! activate_subID anonUserID planID user ;
        base ←! now ;
        sched ←! try (store (GetSchedule subID)) ;
        let base := match sched with
                    | Ok s => if After (sc_ExpiresAt s) base then sc_ExpiresAt s else base
                    | Err _ => base
                    end in
        let newExpiry := Add base (pl_Duration p) in
        sub ←! wrapping "subscription: set period" (cp (SetSubscriptionPeriod subID SubscriptionStatusActive newExpiry)) ;
        wrapping "subscription: upsert schedule" (store (UpsertSchedule {|
          sc_SubID := subID; sc_AnonUserID := u_ID user; sc_Revision := 0; sc_Plan := planID;
          sc_Status := SubscriptionStatusActive; sc_ExpiresAt := newExpiry;
          sc_GraceUntil := Add newExpiry (pl_Grace p) |})) ;;!
        mret sub)
  end.
End activator.
