(* ===== verification/BillingProcessor.v ===== *)
(** * The payment processor (services/billing/internal/payment: processor.go, recovery.go)

    [Process] is the choke point every webhook and poll goes through; [Reconcile] finishes what a crash
    or an unreachable control-plane left behind; [RecoveryReport] is the loggable outcome of a cycle. *)
From S2P Require Import Prelude GoBytes GoText Contracts Money BillingClient BillingStore BillingActivator.

(** ** recovery.go *)
Definition stageLeaseQuery : string := "lease_query".
Definition stageLoadInvoice : string := "load_invoice".
Definition stageActivate : string := "activate".
Definition stageSetStatus : string := "set_status".
Definition stageUnknown : string := "unknown".

Definition maxReportedIDs : nat := 10.
Definition maxIDLen : nat := 64.
Definition maxIDsStrLen : nat := 800.

(** [&recoveryError{stage, invoiceID, err}] *)
Definition recoveryError (stage invoiceID : string) (err : error) : error :=
  Typed "recoveryError" stage invoiceID err.

Record RecoveryReport := {
  rr_Leased : Z; rr_Recovered : Z; rr_Failed : Z; rr_Canceled : bool;
  rr_FailedIDs : list string; rr_Stages : gmap string Z }.
Definition zero_report : RecoveryReport := {|
  rr_Leased := 0; rr_Recovered := 0; rr_Failed := 0; rr_Canceled := false; rr_FailedIDs := []; rr_Stages := ∅ |}.

Definition ShouldLog (r : RecoveryReport) : bool :=
  (0 <? rr_Leased r) || (0 <? rr_Recovered r) || (0 <? rr_Failed r) || rr_Canceled r
  || (0 <? Z.of_nat (size (rr_Stages r))).

(** [[]rune(s)] re-encoded: the UTF-8 bytes of each rune, an invalid byte becoming U+FFFD. *)
Fixpoint runes_of (fuel : nat) (l : list Z) : list (list Z) :=
  match fuel, l with
  | O, _ | _, [] => []
  | S f, b :: l' =>
      if b <? 128 then [b] :: runes_of f l'
      else match utf8_size l with
      | O => [239; 191; 189] :: runes_of f l'
      | n => take n l :: runes_of f (drop n l)
      end
  end.
Definition runes (s : string) : list (list Z) := let l := bytes_of s in runes_of (length l) l.
Definition string_of_runes (rs : list (list Z)) : string := string_of_bytes (mjoin rs).
(** [strings.Map(f, s)] for a mapping of ASCII runes *)
Definition strings_Map (f : Z → Z) (s : string) : string :=
  string_of_runes ((λ r, match r with [b] => [f b] | _ => r end) <$> runes s).

Definition log_safe (r : Z) : Z :=
  if (r <? 32) || (r =? 44) || (r =? 91) || (r =? 93) then 95 else r.
Definition sanitizeID (id : string) : string :=
  let id := strings_Map log_safe id in
  let rs := runes id in
  if (maxIDLen <? length rs)%nat then string_of_runes (take maxIDLen rs) +:+ "~" else id.

Definition note (r : RecoveryReport) (rerr : error) : RecoveryReport :=
  let '(stage, id) := match errors_as rerr "recoveryError" with
                      | Some (stage, id, _) => (stage, id)
                      | None => (stageUnknown, "")
                      end in
  {| rr_Leased := rr_Leased r; rr_Recovered := rr_Recovered r; rr_Failed := rr_Failed r;
     rr_Canceled := rr_Canceled r;
     rr_FailedIDs := if negb (bool_decide (id = "")) && (length (rr_FailedIDs r) <? maxReportedIDs)%nat
                     then rr_FailedIDs r ++ [sanitizeID id] else rr_FailedIDs r;
     rr_Stages := <[stage := default 0 (rr_Stages r !! stage) + 1]> (rr_Stages r) |}.

(** [errors.Join] of the first errors: the joined errors in order, none for a nil result. *)
Definition joinBounded (errs : list error) : list error :=
  if (length errs <=? maxReportedIDs)%nat then errs
  else take maxReportedIDs errs ++
       [Errorf ("+" +:+ itoa (Z.of_nat (length errs) - Z.of_nat maxReportedIDs) +:+ " more recovery errors")].

Section report.
Context `{ord : !MapOrder}.
Definition renderStages (m : gmap string Z) : string :=
  let keys := sort_slice str_lt (range m).*1 in
  join "," ((λ k, k +:+ ":" +:+ itoa (default 0 (m !! k))) <$> keys).
Definition render_ids (ids : list string) : string :=
  let ids := join "," ids in
  let rs := runes ids in
  if (maxIDsStrLen <? length rs)%nat then string_of_runes (take maxIDsStrLen rs) +:+ "~" else ids.
Definition RecoveryReport_String (r : RecoveryReport) : string :=
  "leased=" +:+ itoa (rr_Leased r) +:+ " recovered=" +:+ itoa (rr_Recovered r) +:+
  " failed=" +:+ itoa (rr_Failed r) +:+ " canceled=" +:+ (if rr_Canceled r then "true" else "false") +:+
  " ids=[" +:+ render_ids (rr_FailedIDs r) +:+ "] stages=[" +:+ renderStages (rr_Stages r) +:+ "]".
End report.

(** ** processor.go *)
Definition ErrStaleEvent : error := Sentinel "payment: event outside replay window".
Definition ErrUnderpaid : error := Sentinel "payment: underpaid invoice".
Definition ErrProviderMismatch : error := Sentinel "payment: event provider does not match invoice".
Definition ErrCurrencyMismatch : error := Sentinel "payment: event currency does not match invoice".

(** [report.Recovered++] and the failure branch of the recovery loops *)
Definition recovered (r : RecoveryReport) : RecoveryReport := {|
  rr_Leased := rr_Leased r; rr_Recovered := rr_Recovered r + 1; rr_Failed := rr_Failed r;
  rr_Canceled := rr_Canceled r; rr_FailedIDs := rr_FailedIDs r; rr_Stages := rr_Stages r |}.
Definition failed (rerr : error) (r : RecoveryReport) : RecoveryReport :=
  note {| rr_Leased := rr_Leased r; rr_Recovered := rr_Recovered r; rr_Failed := rr_Failed r + 1;
          rr_Canceled := rr_Canceled r; rr_FailedIDs := rr_FailedIDs r; rr_Stages := rr_Stages r |} rerr.
Definition canceled (r : RecoveryReport) : RecoveryReport := {|
  rr_Leased := rr_Leased r; rr_Recovered := rr_Recovered r; rr_Failed := rr_Failed r; rr_Canceled := true;
  rr_FailedIDs := rr_FailedIDs r; rr_Stages := rr_Stages r |}.
Definition leased (n : nat) (r : RecoveryReport) : RecoveryReport := {|
  rr_Leased := rr_Leased r + Z.of_nat n; rr_Recovered := rr_Recovered r; rr_Failed := rr_Failed r;
  rr_Canceled := rr_Canceled r; rr_FailedIDs := rr_FailedIDs r; rr_Stages := rr_Stages r |}.
Definition lease_failed (r : RecoveryReport) : RecoveryReport := {|
  rr_Leased := rr_Leased r; rr_Recovered := rr_Recovered r; rr_Failed := rr_Failed r;
  rr_Canceled := rr_Canceled r; rr_FailedIDs := rr_FailedIDs r; rr_Stages := {[stageLeaseQuery := 1]} |}.

Section processor.
Context `{ord : !MapOrder} {C E : Type} `{BC : !BillingClient C} (catalog : Catalog) (replayWindow : Duration).
Abbreviation W := (World C E).

Definition settle (ev : Event) : M W unit :=
  inv ←! wrapping "payment: get invoice" (store (GetInvoice (ev_InvoiceID ev))) ;
  if negb (bool_decide (ev_Provider ev = inv_Provider inv)) then fail ErrProviderMismatch
  else if negb (bool_decide (ev_Currency ev = "")) && negb (bool_decide (ev_Currency ev = inv_Currency inv))
  then fail ErrCurrencyMismatch
  else
    let claim : M W unit :=
      t ←! now ;
      claimed ←! wrapping "payment: claim settlement" (store (ClaimSettlement t (inv_ID inv))) ;
      if negb claimed then mret tt
      else wrapping "payment: activate" (CreditInvoice catalog inv) ;;! mret tt in
    if bool_decide (ev_Amount ev = "") then claim
    else match GTE (ev_Amount ev) (inv_Amount inv) with
         | Err e => fail (wrap_err "payment: amount check" e)
         | Ok enough =>
             if negb enough then
               ignore (store (SetInvoiceStatus (inv_ID inv) StatusInvalid)) ;;! fail ErrUnderpaid
             else claim
         end.

Definition too_old (ev : Event) : M W bool :=
  if (0 <? replayWindow) && negb (IsZero (ev_Timestamp ev)) then
    t ←! now ; mret (replayWindow <? Sub t (ev_Timestamp ev))
  else mret false.

Definition Process (ev : Event) : M W unit :=
  stale ←! too_old ev ;
  if (stale : bool) then fail ErrStaleEvent else
  seen ←! wrapping "payment: seen check" (store (SeenEvent (ev_Provider ev) (ev_ExternalID ev))) ;
  if (seen : bool) then mret tt
  else
    let record := store (RecordEvent (ev_Provider ev) (ev_ExternalID ev)) in
    if bool_decide (ev_Status ev = StatusSettled) then settle ev ;;! record
    else if bool_decide (ev_Status ev = StatusExpired) then
      ignore (store (SetInvoiceStatus (ev_InvoiceID ev) StatusExpired)) ;;! record
    else if bool_decide (ev_Status ev = StatusInvalid) then
      ignore (store (SetInvoiceStatus (ev_InvoiceID ev) StatusInvalid)) ;;! record
    else mret tt.

(** Failures are staged: every error of [finishSettlement] is a [recoveryError]. *)
Definition staged {A} (stage id : string) (m : M W A) : M W A := λ w,
  match m w with
  | (Ok a, w') => (Ok a, w')
  | (Err e, w') => (Err (recoveryError stage id e), w')
  end.

Definition finishSettlement (s : StuckSettlement) : M W unit :=
  inv ←! staged stageLoadInvoice (st_InvoiceID s) (store (GetInvoice (st_InvoiceID s))) ;
  if bool_decide (inv_Status inv = StatusSettled) then mret tt
  else if negb (st_Activated s) then
    staged stageActivate (inv_ID inv) (CreditInvoice catalog inv) ;;! mret tt
  else staged stageSetStatus (inv_ID inv) (store (SetInvoiceStatus (inv_ID inv) StatusSettled)).

(** One of the two recovery loops: check for cancellation, do one item, account for it. *)
Fixpoint recover {A} (work : A → M W unit) (l : list A) (r : RecoveryReport) (errs : list error)
    : M W (RecoveryReport * list error) :=
  match l with
  | [] => mret (r, errs)
  | x :: l' =>
      stop ←! ctx_Err ;
      if (stop : bool) then mret (canceled r, errs)
      else
        res ←! try (work x) ;
        match res with
        | Err rerr => recover work l' (failed rerr r) (errs ++ [rerr])
        | Ok _ => recover work l' (recovered r) errs
        end
  end.

(** The bodies of the two loops, and the second of them with its lease. *)
Definition deliver_work (d : BillingDelivery) : M W unit := staged stageActivate (d_ID d) (Deliver d) ;;! mret tt.
Definition recover_stuck (olderThan : Time) (leaseFor : Duration) (remaining : Z) (report : RecoveryReport)
    (errs : list error) : M W (RecoveryReport * list error) :=
  t ←! now ;
  lease ←! try (store (LeaseStuckSettlements t olderThan leaseFor remaining)) ;
  match lease with
  | Err e => mret (lease_failed report, [recoveryError stageLeaseQuery "" e])
  | Ok stuck =>
      out ←! recover finishSettlement stuck (leased (length stuck) report) errs ;
      mret (out.1, joinBounded out.2)
  end.

(** The report and the aggregate error: the empty list is a nil error. *)
Definition Reconcile (olderThan : Time) (leaseFor : Duration) (limit : Z) : M W (RecoveryReport * list error) :=
  t ←! now ;
  lease ←! try (store (LeaseBillingDeliveries t olderThan leaseFor limit)) ;
  match lease with
  | Err e => mret (lease_failed zero_report, [recoveryError stageLeaseQuery "" e])
  | Ok deliveries =>
      out ←! recover deliver_work deliveries (leased (length deliveries) zero_report) [] ;
      let '(report, errs) := out in
      if rr_Canceled report then mret (report, joinBounded errs)
      else
        let remaining := if 0 <? limit then limit - Z.of_nat (length deliveries) else limit in
        if (0 <? limit) && (remaining <=? 0) then mret (report, joinBounded errs)
        else recover_stuck olderThan leaseFor remaining report errs
  end.
End processor.
