(* ===== verification/BillingReport.v ===== *)
(** * The recovery report

    What a cycle's report says and what it can put into a log line: the counts account for every leased
    row, and the sampled identifiers are bounded and free of the log format's delimiters. *)
From S2P Require Import Prelude GoBytes GoText Contracts Money BillingClient BillingStore BillingLeases BillingActivator BillingProcessor.

#[local] Arguments utf8_size : simpl never.

(** ** Runes *)
Definition log_byte (b : Z) : Prop := 32 <= b < 256 ∧ b ≠ 44 ∧ b ≠ 91 ∧ b ≠ 93.
(** A re-encoded rune: one ASCII byte, or up to four bytes above ASCII. *)
Definition rune (r : list Z) : Prop :=
  (∃ b, r = [b] ∧ 0 <= b < 128) ∨ ((2 <= length r <= 4)%nat ∧ Forall (λ b, 128 <= b < 256) r).

Lemma utf8_size_high b l n :
  Forall is_byte (b :: l) → 128 <= b → utf8_size (b :: l) = S n →
  (2 <= S n <= 4)%nat ∧ (S n <= length (b :: l))%nat ∧ Forall (λ x, 128 <= x < 256) (take (S n) (b :: l)).
Proof.
  intros Hb H128 Hsz. unfold utf8_size in Hsz.
  repeat match goal with
  | H : Forall is_byte (_ :: _) |- _ => apply Forall_cons in H as [? ?]
  | H : is_byte _ |- _ => unfold is_byte in H
  | H : match ?l with [] => _ | _ :: _ => _ end = _ |- _ => destruct l as [|? ?]
  | H : (if ?c then _ else _) = _ |- _ => destruct c eqn:?
  end; try discriminate; injection Hsz as <-; simpl;
  repeat match goal with
  | H : (_ && _)%bool = true |- _ => apply andb_true_iff in H as [? ?]
  | H : (_ <=? _) = true |- _ => apply Z.leb_le in H
  end; (split; [lia|split; [lia|]]); repeat constructor; lia || (repeat case_match; lia).
Qed.

Lemma runes_of_spec f : ∀ l, Forall is_byte l →
  Forall rune (runes_of f l) ∧ Forall (λ b, b ∈ l ∨ b ∈ [239; 191; 189]) (mjoin (runes_of f l)) ∧
  ((length l <= f)%nat → (length l <= length (mjoin (runes_of f l)))%nat).
Proof.
  induction f as [|f IH]; intros l Hl.
  { simpl. split_and!; [constructor..|lia]. }
  destruct l as [|b l]; [split_and!; [constructor..|done]|]. cbn [runes_of].
  pose proof Hl as Hl'. apply Forall_cons in Hl' as [Hb Hl'].
  destruct (Z.ltb_spec b 128) as [Hlt|Hge].
  { destruct (IH l Hl') as (H1 & H2 & H3). split_and!.
    - constructor; [left; exists b; split; [done|unfold is_byte in Hb; lia]|done].
    - simpl. constructor; [left; by left|]. eapply Forall_impl; [exact H2|]. simpl. intros x [?|?]; [left; by right|by right].
    - simpl. intros Hf. assert (length l <= f)%nat as Hf' by lia. specialize (H3 Hf'). simpl. lia. }
  destruct (utf8_size (b :: l)) as [|n] eqn:Hsz.
  { destruct (IH l Hl') as (H1 & H2 & H3). split_and!.
    - constructor; [right; split; [simpl; lia|repeat constructor; lia]|done].
    - simpl. repeat (constructor; [right; set_solver|]). eapply Forall_impl; [exact H2|]. simpl. intros x [?|?]; [left; by right|by right].
    - simpl. intros Hf. assert (length l <= f)%nat as Hf' by lia. specialize (H3 Hf'). simpl. lia. }
  destruct (utf8_size_high b l n Hl Hge Hsz) as (Hn & Hlen & Hhigh).
  change (match S n with O => [239; 191; 189] :: runes_of f l | _ => take (S n) (b :: l) :: runes_of f (drop (S n) (b :: l)) end)
    with (take (S n) (b :: l) :: runes_of f (drop (S n) (b :: l))).
  assert (Forall is_byte (drop (S n) (b :: l))) as Hd by (by apply Forall_drop).
  destruct (IH _ Hd) as (H1 & H2 & H3). split_and!.
  - constructor; [|done]. right. split; [rewrite length_take; lia|done].
  - change (mjoin (take (S n) (b :: l) :: runes_of f (drop (S n) (b :: l)))) with
      (take (S n) (b :: l) ++ mjoin (runes_of f (drop (S n) (b :: l)))).
    apply Forall_app. split.
    + apply Forall_forall. intros x Hx. left. rewrite <-(take_drop (S n) (b :: l)). apply elem_of_app. by left.
    + eapply Forall_impl; [exact H2|]. simpl. intros x [Hx|?]; [left|by right].
      rewrite <-(take_drop (S n) (b :: l)). apply elem_of_app. right. exact Hx.
  - intros Hf. change (mjoin (take (S n) (b :: l) :: runes_of f (drop (S n) (b :: l)))) with
      (take (S n) (b :: l) ++ mjoin (runes_of f (drop (S n) (b :: l)))).
    rewrite length_app, length_take. rewrite length_drop in H3. simpl length in *. lia.
Qed.

Lemma runes_spec s : Forall rune (runes s) ∧ Forall (λ b, b ∈ bytes_of s ∨ b ∈ [239; 191; 189]) (mjoin (runes s)) ∧
  (length (bytes_of s) <= length (mjoin (runes s)))%nat.
Proof. destruct (runes_of_spec (length (bytes_of s)) (bytes_of s) (bytes_of_bound s)) as (?&?&?). unfold runes. eauto. Qed.

Lemma rune_bytes rs : Forall rune rs → Forall is_byte (mjoin rs) ∧ (length (mjoin rs) <= 4 * length rs)%nat.
Proof.
  induction 1 as [|r rs Hr _ [IH1 IH2]]; [split; [constructor|done]|]. simpl. rewrite length_app. split.
  - apply Forall_app. split; [|done]. destruct Hr as [(b & -> & ?)|[_ Hh]]; [repeat constructor; unfold is_byte; lia|].
    eapply Forall_impl; [exact Hh|]. unfold is_byte. simpl. lia.
  - destruct Hr as [(b & -> & ?)|[? _]]; simpl; lia.
Qed.

(** The bytes of a string mapped rune by rune through [log_safe]. *)
Lemma strings_Map_log_safe s : Forall log_byte (bytes_of (strings_Map log_safe s)).
Proof.
  unfold strings_Map, string_of_runes. destruct (runes_spec s) as (Hr & _ & _).
  assert (Forall (Forall log_byte) ((λ r, match r with [b] => [log_safe b] | _ => r end) <$> runes s)) as Hall.
  { apply Forall_fmap. eapply Forall_impl; [exact Hr|]. unfold compose. intros r [(b & -> & Hb)|[Hlen Hh]].
    - repeat constructor; unfold log_safe; repeat case_match;
        repeat match goal with H : (_ || _)%bool = _ |- _ => rewrite !orb_true_iff in H || rewrite !orb_false_iff in H end; lia.
    - destruct r as [|b1 [|b2 r]]; simpl in Hlen; [lia|lia|]. eapply Forall_impl; [exact Hh|]. unfold log_byte. simpl. lia. }
  assert (Forall log_byte (mjoin ((λ r, match r with [b] => [log_safe b] | _ => r end) <$> runes s))) as Hj.
  { induction Hall as [|r rs ? ? IH]; [constructor|]. simpl. by apply Forall_app. }
  rewrite bytes_of_string_of_bytes; [done|]. eapply Forall_impl; [exact Hj|]. unfold log_byte, is_byte. lia.
Qed.

(** no identifier can break or flood the recovery log. Whatever bytes an invoice id has, its
    sanitized form is at most 257 bytes long and contains no control byte and none of the log format's
    own delimiters (comma and brackets). *)
Theorem sanitizeID_safe id :
  Forall log_byte (bytes_of (sanitizeID id)) ∧ (String.length (sanitizeID id) <= 257)%nat.
Proof.
  unfold sanitizeID. pose proof (strings_Map_log_safe id) as Hsafe. set (s := strings_Map log_safe id) in *.
  destruct (runes_spec s) as (Hr & Hb & Hlen). destruct (rune_bytes _ Hr) as [Hbyte Hmax].
  destruct (Nat.ltb_spec maxIDLen (length (runes s))) as [Hlt|Hge].
  - assert (Forall rune (take maxIDLen (runes s))) as Hrt by (by apply Forall_take).
    destruct (rune_bytes _ Hrt) as [Hbt Hlt'].
    rewrite <-length_bytes_of, bytes_of_app. unfold string_of_runes. rewrite bytes_of_string_of_bytes by done. split.
    + apply Forall_app. split; [|repeat constructor; vm_compute; done || discriminate].
      apply Forall_forall. intros x Hx.
      assert (x ∈ mjoin (runes s)) as Hxs.
      { rewrite <-(take_drop maxIDLen (runes s)), join_app. apply elem_of_app. by left. }
      destruct (proj1 (Forall_forall _ _) Hb x Hxs) as [Hin|Hin].
      * by apply (proj1 (Forall_forall _ _) Hsafe).
      * unfold log_byte. repeat (apply elem_of_cons in Hin as [->|Hin]; [lia|]). by apply elem_of_nil in Hin.
    + rewrite length_app. rewrite length_take in Hlt'. unfold maxIDLen in *. simpl. lia.
  - split; [done|]. rewrite <-length_bytes_of. unfold maxIDLen in *. lia.
Qed.

(** ** The counts *)
Definition stage_total (m : gmap string Z) : Z := map_fold (λ _ v acc, v + acc) 0 m.
Lemma stage_total_insert m k v : m !! k = None → stage_total (<[k := v]> m) = v + stage_total m.
Proof. intros Hk. unfold stage_total. apply map_fold_insert_L; [intros; lia|done]. Qed.
Lemma stage_total_bump m k : stage_total (<[k := default 0 (m !! k) + 1]> m) = stage_total m + 1.
Proof.
  destruct (m !! k) as [v|] eqn:Hk; simpl.
  - rewrite <-insert_delete_eq, stage_total_insert by (by rewrite lookup_delete_eq).
    rewrite <-(insert_delete_id m k v Hk) at 2. rewrite stage_total_insert by (by rewrite lookup_delete_eq). lia.
  - rewrite stage_total_insert by done. lia.
Qed.

Record report_ok (r : RecoveryReport) (errs : list error) : Prop := {
  ro_stages : stage_total (rr_Stages r) = rr_Failed r;
  ro_ids : (length (rr_FailedIDs r) <= maxReportedIDs)%nat ∧ Z.of_nat (length (rr_FailedIDs r)) <= rr_Failed r;
  ro_sanitized : ∀ x, x ∈ rr_FailedIDs r → ∃ id, x = sanitizeID id;
  ro_errs : Z.of_nat (length errs) = rr_Failed r
}.

Lemma report_ok_failed r errs e : report_ok r errs → report_ok (failed e r) (errs ++ [e]).
Proof.
  intros [Hs [Hi1 Hi2] Hx He]. unfold failed, note.
  destruct (match errors_as e "recoveryError" with Some (stage, id, _) => (stage, id) | None => (stageUnknown, "") end) as [stage id].
  split; simpl.
  - rewrite stage_total_bump. lia.
  - destruct (negb _ && _) eqn:Hc; [|lia]. apply andb_true_iff in Hc as [_ Hc]. apply Nat.ltb_lt in Hc.
    rewrite length_app. simpl. lia.
  - intros x. destruct (negb _ && _); [|apply Hx]. intros [?|Hxi]%elem_of_app; [by apply Hx|]. apply list_elem_of_singleton in Hxi as ->. by exists id.
  - rewrite length_app. simpl. lia.
Qed.
Lemma report_ok_recovered r errs : report_ok r errs → report_ok (recovered r) errs.
Proof. by intros [? ? ? ?]. Qed.
Lemma report_ok_leased n r errs : report_ok r errs → report_ok (leased n r) errs.
Proof. by intros [? ? ? ?]. Qed.

Section counts.
Context `{ord : !MapOrder} {C E : Type} `{BC : !BillingClient C} (catalog : Catalog).
Abbreviation W := (World C E).

Lemma recover_counts {A} (work : A → M W unit) l : ∀ r errs w,
  report_ok r errs →
  ∃ r' errs', (recover work l r errs w).1 = Ok (r', errs') ∧ report_ok r' errs' ∧ rr_Leased r' = rr_Leased r ∧
    rr_Recovered r' + rr_Failed r' <= rr_Recovered r + rr_Failed r + Z.of_nat (length l) ∧
    rr_Recovered r <= rr_Recovered r' ∧ rr_Failed r <= rr_Failed r' ∧
    (rr_Canceled r = true → rr_Canceled r' = true) ∧
    (rr_Canceled r' = false →
      rr_Recovered r' + rr_Failed r' = rr_Recovered r + rr_Failed r + Z.of_nat (length l)).
Proof.
  induction l as [|x l IH]; intros r errs w Hok.
  { exists r, errs. split_and!; simpl; done || lia. }
  simpl recover. unfold mbind, M_bind at 1. unfold ctx_Err.
  destruct (default false (head (w_ctx w))).
  { exists (canceled r), errs. simpl. split_and!; try done || lia. by destruct Hok. }
  unfold mbind, M_bind, try. destruct (work x _) as [[u|e] w1]; simpl.
  - destruct (IH (recovered r) errs w1 (report_ok_recovered _ _ Hok)) as (r' & errs' & H1 & H2 & H3 & H4 & H5 & H6 & H7 & H8).
    exists r', errs'. simpl in *. split_and!; try done || lia. intros Hc. specialize (H8 Hc). lia.
  - destruct (IH (failed e r) (errs ++ [e]) w1 (report_ok_failed _ _ _ Hok)) as (r' & errs' & H1 & H2 & H3 & H4 & H5 & H6 & H7 & H8).
    exists r', errs'. unfold failed, note in *. destruct (match errors_as e "recoveryError" with Some (stage, id, _) => (stage, id) | None => (stageUnknown, "") end) as [stage id].
    simpl in *. split_and!; try done || lia. intros Hc. specialize (H8 Hc). lia.
Qed.

Lemma joinBounded_spec errs : (length (joinBounded errs) <= S maxReportedIDs)%nat ∧ (joinBounded errs = [] ↔ errs = []).
Proof.
  unfold joinBounded, maxReportedIDs. destruct (Nat.leb_spec (length errs) 10); [split; [lia|done]|].
  split; [rewrite length_app, length_take, Nat.min_l by lia; simpl; lia|]. split; [by intros [_ ?]%app_nil|]. intros ->. simpl in *. lia.
Qed.

(** The report of a recovery cycle accounts for its work. Reconcile always returns; every leased
    row is counted as recovered or failed unless the cycle was canceled, the failures are exactly the
    tallied stages, at most ten sanitized ids are sampled, and the aggregate error is bounded and nil
    exactly when nothing failed. *)
Theorem Reconcile_report ot lf limit (w : W) :
  ∃ r errs, (Reconcile catalog ot lf limit w).1 = Ok (r, errs) ∧
    rr_Recovered r + rr_Failed r <= rr_Leased r ∧ 0 <= rr_Recovered r ∧
    (rr_Canceled r = false → rr_Recovered r + rr_Failed r = rr_Leased r) ∧
    stage_total (rr_Stages r) = rr_Failed r ∧
    (length (rr_FailedIDs r) <= maxReportedIDs)%nat ∧ (∀ x, x ∈ rr_FailedIDs r → ∃ id, x = sanitizeID id) ∧
    (length errs <= S maxReportedIDs)%nat ∧ (errs = [] ↔ rr_Failed r = 0).
Proof.
  assert (∀ r errs, report_ok r errs → (joinBounded errs = [] ↔ rr_Failed r = 0)) as Hnil.
  { intros r errs [_ _ _ He]. destruct (joinBounded_spec errs) as [_ ->]. destruct errs; simpl in *; split; [done|done|done|lia]. }
  unfold Reconcile. unfold mbind, M_bind at 1, now. unfold mbind, M_bind at 1, try, store at 1, zoom.
  rewrite LeaseBillingDeliveries_unfold. set (ds := limited _ _). set (w1 := set_mem _ _).
  destruct (recover_counts deliver_work ds (leased (length ds) zero_report) [] w1) as (r & errs & Hres & Hok & Hl & Hle & Hr0 & Hf0 & _ & Heq).
  { split; simpl; [done|lia|by intros x ?%elem_of_nil|done]. }
  unfold mbind, M_bind at 1. destruct (recover deliver_work ds _ _ w1) as [r0 w2]. simpl in Hres. subst r0. simpl in *.
  destruct (rr_Canceled r) eqn:Hcan.
  { exists r, (joinBounded errs). pose proof (joinBounded_spec errs) as [Hj _]. simpl.
    pose proof Hok as [? [? ?] ? ?]. split_and!; try done || lia; [intros; congruence|by apply Hnil]. }
  specialize (Heq eq_refl).
  destruct (_ && _).
  { exists r, (joinBounded errs). pose proof (joinBounded_spec errs) as [Hj _]. simpl.
    pose proof Hok as [? [? ?] ? ?]. split_and!; try done || lia. by apply Hnil. }
  unfold recover_stuck. unfold mbind, M_bind at 1, now. unfold mbind, M_bind at 1, try, store at 1, zoom.
  rewrite LeaseStuckSettlements_unfold. set (stuck := fmap _ _). set (w3 := set_mem _ _).
  destruct (recover_counts (finishSettlement catalog) stuck (leased (length stuck) r) errs w3)
    as (r' & errs' & Hres' & Hok' & Hl' & Hle' & Hr' & Hf' & _ & Heq').
  { by apply report_ok_leased. }
  unfold mbind, M_bind at 1. destruct (recover (finishSettlement catalog) stuck _ _ w3) as [r0 w4]. simpl in Hres'. subst r0. simpl in *.
  exists r', (joinBounded errs'). pose proof (joinBounded_spec errs') as [Hj _].
  pose proof Hok' as [? [? ?] ? ?]. split_and!; try done || lia; [|by apply Hnil].
  intros Hc. specialize (Heq' Hc). lia.
Qed.
End counts.
