(* ===== verification/BillingPoller.v ===== *)
(** * The background passes of billing: the expiry sweeper and the payment poller

    The sweeper (internal/expiry/sweeper.go): active --(past ExpiresAt)--> past_due --(past grace)--> expired, staged in
    the ledger before the control-plane hears of it. The gateway interface, the registry with its failover and the poller
    (internal/payment: gateway.go, registry.go, poller.go). *)
From S2P Require Import Prelude GoText Contracts BillingClient BillingStore BillingActivator BillingProcessor.

(** [""]: no change. *)
Definition transition (s : Schedule) (now : Time) : string :=
  if negb (Before now (sc_GraceUntil s)) then SubscriptionStatusExpired
  else if negb (Before now (sc_ExpiresAt s)) then SubscriptionStatusPastDue
  else "".

Section sweeper.
Context `{ord : !MapOrder} {C E : Type} `{BC : !BillingClient C}.
Abbreviation W := (World C E).

Definition sweep_one (t : Time) (snapshot : Schedule) : M W unit :=
  WithUserLock (sc_AnonUserID snapshot) (
    sched ←! store (GetSchedule (sc_SubID snapshot)) ;
    let next := transition sched t in
    if bool_decide (next = "") || bool_decide (next = sc_Status sched) then mret tt
    else
      res ←! store (StageScheduleTransition (sc_SubID sched) (sc_Revision sched) next t) ;
      let '(delivery, staged) := res in
      if negb staged then mret tt
      else
        cp (SetBillingState (d_SubID delivery) (billing_state delivery)) ;;!
        t' ←! now ;
        store (CompleteBillingDelivery t' (d_ID delivery))).

Definition Sweeper_RunOnce : M W unit :=
  t ←! now ;
  due ←! store (DueSchedules t) ;
  for_each due (sweep_one t).
End sweeper.

(** ** Gateways, their registry and the poller (services/billing/internal/payment: gateway.go,
    registry.go, poller.go)

    A gateway is the record of its methods; the type assertions of the code on the optional interfaces
    [OnChainGateway] and [RecoverableGateway] are its optional fields. *)
(** ** gateway.go *)
Definition ErrNoGateway : error := Sentinel "payment: no gateway available for currency".
Definition ErrUnsupportedWebhook : error := Sentinel "payment: gateway does not accept webhooks".
Definition ErrCreateAmbiguous : error := Sentinel "payment: ambiguous invoice creation".
Definition ErrCreateRejected : error := Sentinel "payment: invoice creation rejected".

Record Gateway (W : Type) := {
  g_Name : string;
  g_SupportsCurrency : string → bool;
  g_CreateInvoice : CreateInvoiceRequest → M W Invoice;
  g_ParseWebhook : string → string → M W Event;
  g_Poll : list Invoice → M W (list Event);
  (** [OnChainGateway]: an event when paid, and whether the check was a definitive negative *)
  g_CheckInvoice : option (Invoice → M W (option Event * bool));
  (** [RecoverableGateway]: the invoice of an order, if the provider has one *)
  g_LookupInvoice : option (CreateInvoiceRequest → M W (option Invoice)) }.
Arguments g_Name {W}. Arguments g_SupportsCurrency {W}. Arguments g_CreateInvoice {W}.
Arguments g_ParseWebhook {W}. Arguments g_Poll {W}. Arguments g_CheckInvoice {W}. Arguments g_LookupInvoice {W}.

(** ** registry.go *)
Record Registry (W : Type) := mkRegistry { rg_order : list (Gateway W); rg_byName : gmap string (Gateway W) }.
Arguments mkRegistry {W}. Arguments rg_order {W}. Arguments rg_byName {W}.

Section registry.
Context {W : Type}.
Definition NewRegistry : Registry W := mkRegistry [] ∅.
Definition Register (g : Gateway W) (r : Registry W) : Registry W :=
  mkRegistry (rg_order r ++ [g]) (<[g_Name g := g]> (rg_byName r)).
Definition Registry_Get (r : Registry W) (name : string) : option (Gateway W) := rg_byName r !! name.
Definition Gateways (r : Registry W) : list (Gateway W) := rg_order r.

Fixpoint first_supporting (currency : string) (gs : list (Gateway W)) : result (Gateway W) :=
  match gs with
  | [] => Err ErrNoGateway
  | g :: gs' => if g_SupportsCurrency g currency then Ok g else first_supporting currency gs'
  end.
Definition Select (r : Registry W) (preferred currency : string) : result (Gateway W) :=
  let rest := first_supporting currency (rg_order r) in
  if bool_decide (preferred = "") then rest
  else match rg_byName r !! preferred with
       | Some g => if g_SupportsCurrency g currency then Ok g else rest
       | None => rest
       end.

(** The [try] closure over [tried] and [lastErr], along the gateways in order. *)
Fixpoint try_gateways (req : CreateInvoiceRequest) (gs : list (Gateway W)) (tried : gset string)
    (lastErr : option error) : M W Invoice :=
  match gs with
  | [] => match lastErr with
          | Some e => fail (wrap_err "payment: all gateways failed" e)
          | None => fail ErrNoGateway
          end
  | g :: gs' =>
      if bool_decide (g_Name g ∈ tried) || negb (g_SupportsCurrency g (req_Currency req))
      then try_gateways req gs' tried lastErr
      else
        res ←! try (g_CreateInvoice g req) ;
        match res with
        | Ok inv => mret inv
        | Err e => try_gateways req gs' ({[g_Name g]} ∪ tried) (Some e)
        end
  end.
Definition Registry_CreateInvoice (r : Registry W) (preferred : string) (req : CreateInvoiceRequest) : M W Invoice :=
  let first := if bool_decide (preferred = "") then [] else option_list (rg_byName r !! preferred) in
  try_gateways req (first ++ rg_order r) ∅ None.
End registry.

(** ** poller.go *)
Record OnChain := { oc_Grace : Duration; oc_PollLease : Duration; oc_ChainTimeout : Duration; oc_Owner : string }.
Definition OnChain_withDefaults (o : OnChain) : OnChain := {|
  oc_Grace := oc_Grace o;
  oc_PollLease := if oc_PollLease o <=? 0 then 30 * Second else oc_PollLease o;
  oc_ChainTimeout := if oc_ChainTimeout o <=? 0 then 10 * Second else oc_ChainTimeout o;
  oc_Owner := if bool_decide (oc_Owner o = "") then "poller" else oc_Owner o |}.
Definition OnChain_Validate (o : OnChain) : result unit :=
  if oc_Grace o <=? 0 then Err (Errorf "billing: SETTLEMENT_GRACE must be set (>0) when an on-chain gateway is enabled")
  else if oc_PollLease o <=? oc_ChainTimeout o
  then Err (Errorf "billing: POLL_LEASE must exceed CHAIN_CHECK_TIMEOUT with margin")
  else Ok tt.

Record Recovery := { rc_StaleThreshold : Duration; rc_LeaseFor : Duration; rc_Batch : Z }.
Definition Recovery_withDefaults (r : Recovery) : Recovery := {|
  rc_StaleThreshold := if rc_StaleThreshold r <=? 0 then 2 * Minute else rc_StaleThreshold r;
  rc_LeaseFor := if rc_LeaseFor r <=? 0 then Minute else rc_LeaseFor r;
  rc_Batch := if rc_Batch r <=? 0 then 100 else rc_Batch r |}.

Definition withinDeadline (open : list Invoice) (now : Time) : list Invoice :=
  filter (λ inv, IsZero (inv_ExpiresAt inv) || negb (After now (inv_ExpiresAt inv)) = true) open.

Section poller.
Context `{ord : !MapOrder} {C E : Type} `{BC : !BillingClient C} (catalog : Catalog) (replayWindow : Duration).
Abbreviation W := (World C E).
Context (registry : Registry W) (recovery : Recovery) (onchain : OnChain).

(** The three-way switch of [checkLeased] after the chain has answered. *)
Definition handle_check (inv : Invoice) (checked : result (option Event * bool)) : M W unit :=
  match checked with
  | Err _ => mret tt
  | Ok (Some ev, _) =>
      ignore (store (ClearNegativeCheck (inv_ID inv))) ;;!
      ignore (Process catalog replayWindow ev)
  | Ok (None, true) =>
      t ←! now ;
      if negb (Before t (Add (inv_ExpiresAt inv) (oc_Grace onchain))) then
        t' ←! now ; ignore (store (RecordNegativeCheck (inv_ID inv) t'))
      else mret tt
  | Ok (None, false) => mret tt
  end.
Definition checkLeased (check : Invoice → M W (option Event * bool)) (inv : Invoice) (token : string) : M W unit :=
  checked ←! try (check inv) ;
  handle_check inv checked ;;!
  ignore (store (ReleasePollLease (inv_ID inv) token)).

Definition poll_one (name : string) (check : Invoice → M W (option Event * bool)) (inv : Invoice) : M W unit :=
  if negb (bool_decide (inv_Provider inv = name)) then mret tt
  else
    token ←! idgen_New ;
    t ←! now ;
    lease ←! store (AcquirePollLease t token (inv_ID inv) (oc_Owner onchain) (oc_PollLease onchain)) ;
    let '(token, acquired) := lease in
    if negb acquired then mret tt else checkLeased check inv token.
Definition pollOnChain (name : string) (check : Invoice → M W (option Event * bool)) (open : list Invoice) : M W unit :=
  for_each open (poll_one name check).

Definition poll_gateway (open : list Invoice) (g : Gateway W) : M W unit :=
  match g_CheckInvoice g with
  | Some check => pollOnChain (g_Name g) check open
  | None =>
      t ←! now ;
      res ←! try (g_Poll g (withinDeadline open t)) ;
      match res with
      | Err _ => mret tt
      | Ok events => for_each events (Process catalog replayWindow)
      end
  end.
Definition onchainNames : list string :=
  g_Name <$> filter (λ g : Gateway W, is_set (g_CheckInvoice g) = true) (Gateways registry).

(** The recovery report that was logged, if any, and the result of the cycle. *)
Definition Poller_RunOnce : M W (option RecoveryReport) :=
  t ←! now ;
  out ←! Reconcile catalog (Add t (- rc_StaleThreshold recovery)) (rc_LeaseFor recovery) (rc_Batch recovery) ;
  open ←! store OpenInvoices ;
  for_each (Gateways registry) (poll_gateway open) ;;!
  t ←! now ;
  store (ExpireOverdue t onchainNames (oc_Grace onchain)) ;;!
  mret (if ShouldLog out.1 then Some out.1 else None).
End poller.
