(* ===== verification/BillingGateways.v ===== *)
(** * The payment gateways (services/billing/internal/payment: mock, btcpay, onchain)

    The outside world of a gateway is its environment [E]: the receive-address pool and the chain of
    the on-chain gateway, the BTCPay server behind its HTTP API. What those answer and the JSON
    decoding of a webhook body are parameters; everything the code does with the answers is modelled, the
    HMAC verification and the parsing of timestamps included. *)
From S2P Require Import Prelude GoBytes GoText GoTime Contracts Money BillingClient BillingStore BillingActivator BillingProcessor BillingPoller.

(** [hex.EncodeToString(hmac.New(sha256.New, key).Sum(nil))] over a body *)
Definition hmac_hex (key body : string) : string := hex_encode (Sha256.hmac (bytes_of key) (bytes_of body)).

(** [req.OrderID], or a fresh id when there is none *)
Definition order_id {C E} (req : CreateInvoiceRequest) : M (World C E) string :=
  if bool_decide (req_OrderID req = "") then idgen_New else mret (req_OrderID req).

Definition pending_invoice (id provider payAddress providerID : string) (created expires : Time)
    (req : CreateInvoiceRequest) : Invoice := {|
  inv_ID := id; inv_Provider := provider; inv_AnonUserID := req_AnonUserID req; inv_Plan := req_Plan req;
  inv_Currency := req_Currency req; inv_Amount := req_Amount req; inv_PayAddress := payAddress;
  inv_ProviderInvoiceID := providerID; inv_Status := StatusPending; inv_CreatedAt := created;
  inv_ExpiresAt := expires |}.

(** ** mock.go *)
Module Mock.
Definition name : string := "mock".
Record webhookPayload := {
  wp_ExternalID : string; wp_InvoiceID : string; wp_Status : string; wp_Amount : string;
  wp_Currency : string; wp_Confirmations : Z; wp_Timestamp : string }.

Section mock.
Context {C E : Type} (secret : string) (currencies : list string).
Context (unmarshal : string → option webhookPayload).
(** The gateway's own invoices live in its environment. *)
Context (get_invoices : E → gmap string Invoice) (set_invoices : gmap string Invoice → E → E).
Abbreviation W := (World C E).

Definition ttl : Duration := 30 * Minute.
Definition SupportsCurrency (currency : string) : bool := bool_decide (currency ∈ currencies).
Definition CreateInvoice (req : CreateInvoiceRequest) : M W Invoice :=
  if negb (SupportsCurrency (req_Currency req)) then fail (Errorf "mock: unsupported currency") else
  id ←! order_id req ;
  t ←! now ;
  let inv := pending_invoice id name ("mock:" +:+ id) id t (Add t ttl) req in
  env (modify (λ e, set_invoices (<[id := inv]> (get_invoices e)) e)) ;;!
  mret inv.
Definition LookupInvoice (req : CreateInvoiceRequest) : M W (option Invoice) :=
  env (gets (λ e, get_invoices e !! req_OrderID req)).
Definition Sign (body : string) : string := hmac_hex secret body.
Definition ParseWebhook (signature body : string) : M W Event :=
  if negb (bool_decide (signature = Sign body)) then fail (Errorf "mock: invalid webhook signature") else
  match unmarshal body with
  | None => fail (Errorf "mock: decode webhook")
  | Some p =>
      t ←! now ;
      let ts := if bool_decide (wp_Timestamp p = "") then t else default t (parse_rfc3339 (wp_Timestamp p)) in
      mret {| ev_Provider := name; ev_ExternalID := wp_ExternalID p; ev_InvoiceID := wp_InvoiceID p;
              ev_Status := wp_Status p; ev_Currency := wp_Currency p; ev_Amount := wp_Amount p;
              ev_Confirmations := wp_Confirmations p; ev_Timestamp := ts |}
  end.
Definition Poll (open : list Invoice) : M W (list Event) := mret [].

Definition gateway : Gateway W := {|
  g_Name := name; g_SupportsCurrency := SupportsCurrency; g_CreateInvoice := CreateInvoice;
  g_ParseWebhook := ParseWebhook; g_Poll := Poll; g_CheckInvoice := None; g_LookupInvoice := Some LookupInvoice |}.
End mock.
End Mock.

(** ** btcpay.go *)
Module Btcpay.
Definition name : string := "btcpay".
Record Config := { cfg_BaseURL : string; cfg_APIKey : string; cfg_StoreID : string; cfg_WebhookSecret : string;
                   cfg_Currencies : list string }.
Definition ErrNoWebhookSecret : error := Sentinel "btcpay: BTCPAY_WEBHOOK_SECRET must be set when BTCPAY_BASE_URL is configured".
Definition ErrMissingAPIKey : error := Sentinel "btcpay: BTCPAY_API_KEY must be set when BTCPAY_BASE_URL is configured".
Definition ErrMissingStoreID : error := Sentinel "btcpay: BTCPAY_STORE_ID must be set when BTCPAY_BASE_URL is configured".
Definition Config_Validate (c : Config) : result unit :=
  if bool_decide (cfg_BaseURL c = "") then Ok tt
  else if bool_decide (cfg_APIKey c = "") then Err ErrMissingAPIKey
  else if bool_decide (cfg_StoreID c = "") then Err ErrMissingStoreID
  else if bool_decide (cfg_WebhookSecret c = "") then Err ErrNoWebhookSecret
  else Ok tt.

Record createReq := { cq_Amount : string; cq_Currency : string; cq_Metadata : gmap string string }.
Record createResp := { cr_ID : string; cr_CheckoutLink : string }.
Record lookupResp := {
  lr_ID : string; lr_CheckoutLink : string; lr_Amount : string; lr_Currency : string;
  lr_CreatedTime : Z; lr_ExpirationTime : Z; lr_OrderID : string }.
Record webhookBody := { wb_DeliveryID : string; wb_InvoiceID : string; wb_Type : string; wb_Timestamp : Z; wb_OrderID : string }.

(** An HTTP exchange: no response at all, or a status with the decoded body (if it decodes). *)
Definition http_result (A : Type) : Type := option (Z * option A).

(** [time.Unix(sec, 0)] in nanoseconds since the zero time *)
Definition unix (sec : Z) : Time := (sec + 62135596800) * Second.

Section btcpay.
Context {C E : Type} (cfg : Config) (unmarshal : string → option webhookBody).
(** The BTCPay server: POST and GET of the store's invoices. *)
Context (post : createReq → M E (http_result createResp)) (get : string → M E (http_result (list lookupResp))).
Abbreviation W := (World C E).

Definition SupportsCurrency (currency : string) : bool := bool_decide (currency ∈ cfg_Currencies cfg).

Definition CreateInvoice (req : CreateInvoiceRequest) : M W Invoice :=
  if negb (SupportsCurrency (req_Currency req)) then fail (Errorf "btcpay: unsupported currency") else
  id ←! order_id req ;
  resp ←! env (post {| cq_Amount := req_Amount req; cq_Currency := req_Currency req;
    cq_Metadata := <["orderId" := id]> (<["anonUserId" := req_AnonUserID req]> {["plan" := req_Plan req]}) |}) ;
  match resp with
  | None => fail (wrap_err "btcpay create" ErrCreateAmbiguous)
  | Some (status, body) =>
      if negb (status / 100 =? 2) then
        if status / 100 =? 4 then fail (wrap_err "btcpay status" ErrCreateRejected)
        else fail (wrap_err "btcpay status" ErrCreateAmbiguous)
      else match body with
           | None => fail (wrap_err "btcpay decode" ErrCreateAmbiguous)
           | Some cr =>
               t ←! now ;
               mret (pending_invoice id name (cr_CheckoutLink cr) (cr_ID cr) t (Add t (30 * Minute)) req)
           end
  end.

Definition amount_matches (remote : lookupResp) (req : CreateInvoiceRequest) : bool :=
  if bool_decide (lr_Amount remote = "") then true
  else match Equal (lr_Amount remote) (req_Amount req) with Ok b => b | Err _ => false end.
Definition recovered_invoice (remote : lookupResp) (req : CreateInvoiceRequest) : M W Invoice :=
  t ←! (if lr_CreatedTime remote =? 0 then now else mret (unix (lr_CreatedTime remote))) ;
  let expires := if lr_ExpirationTime remote =? 0 then Add t (30 * Minute) else unix (lr_ExpirationTime remote) in
  mret (pending_invoice (req_OrderID req) name (lr_CheckoutLink remote) (lr_ID remote) t expires req).
Definition LookupInvoice (req : CreateInvoiceRequest) : M W (option Invoice) :=
  resp ←! env (get (req_OrderID req)) ;
  match resp with
  | None => fail (Errorf "btcpay: lookup")
  | Some (status, body) =>
      if negb (status / 100 =? 2) then fail (Errorf "btcpay: lookup status") else
      match body with
      | None => fail (Errorf "btcpay: lookup decode")
      | Some [] => mret None
      | Some [remote] =>
          if negb (bool_decide (lr_OrderID remote = req_OrderID req)) then fail (Errorf "btcpay: order id is not unique")
          else if negb (amount_matches remote req)
                  || negb (bool_decide (lr_Currency remote = "")) && negb (bool_decide (lr_Currency remote = req_Currency req))
          then fail (Errorf "btcpay: recovered invoice parameters differ")
          else inv ←! recovered_invoice remote req ; mret (Some inv)
      | Some _ => fail (Errorf "btcpay: order id is not unique")
      end
  end.

Definition mapType (t : string) : Status :=
  if bool_decide (t = "InvoiceSettled") then StatusSettled
  else if bool_decide (t = "InvoiceExpired") then StatusExpired
  else if bool_decide (t = "InvoiceInvalid") then StatusInvalid
  else "".
Definition eventTime (unixSeconds : Z) : M W Time := if 0 <? unixSeconds then mret (unix unixSeconds) else now.
Definition ParseWebhook (signature body : string) : M W Event :=
  if bool_decide (cfg_WebhookSecret cfg = "") then fail ErrNoWebhookSecret else
  let sig := TrimPrefix signature "sha256=" in
  if negb (bool_decide (sig = hmac_hex (cfg_WebhookSecret cfg) body)) then fail (Errorf "btcpay: invalid webhook signature") else
  match unmarshal body with
  | None => fail (Errorf "btcpay: decode webhook")
  | Some wb =>
      let status := mapType (wb_Type wb) in
      let status := if bool_decide (status = "") then StatusPending else status in
      t ←! eventTime (wb_Timestamp wb) ;
      mret {| ev_Provider := name; ev_ExternalID := wb_DeliveryID wb; ev_InvoiceID := wb_OrderID wb;
              ev_Status := status; ev_Currency := ""; ev_Amount := ""; ev_Confirmations := 0; ev_Timestamp := t |}
  end.
Definition Poll (open : list Invoice) : M W (list Event) := mret [].

Definition gateway : Gateway W := {|
  g_Name := name; g_SupportsCurrency := SupportsCurrency; g_CreateInvoice := CreateInvoice;
  g_ParseWebhook := ParseWebhook; g_Poll := Poll; g_CheckInvoice := None; g_LookupInvoice := Some LookupInvoice |}.
End btcpay.
End Btcpay.

(** ** onchain.go *)
Module Onchain.
Definition name : string := "onchain".

Section onchain.
Context {C E : Type} (currencies : list string) (minConf : Z).
(** [ChainClient] and [AddressPool] *)
Context (AddressStatus : string → string → M E (string * Z)) (Next : string → M E string).
Abbreviation W := (World C E).

Definition SupportsCurrency (currency : string) : bool := bool_decide (currency ∈ currencies).
Definition ttl : Duration := 60 * Minute.
Definition CreateInvoice (req : CreateInvoiceRequest) : M W Invoice :=
  if negb (SupportsCurrency (req_Currency req)) then fail (Errorf "onchain: unsupported currency") else
  addr ←! wrapping "onchain: allocate address" (env (Next (req_Currency req))) ;
  id ←! order_id req ;
  t ←! now ;
  mret (pending_invoice id name addr addr t (Add t ttl) req).
Definition ParseWebhook (signature body : string) : M W Event := fail ErrUnsupportedWebhook.

Definition CheckInvoice (inv : Invoice) : M W (option Event * bool) :=
  if negb (bool_decide (inv_Provider inv = name)) then mret (None, false) else
  st ←! env (AddressStatus (inv_Currency inv) (inv_PayAddress inv)) ;
  let '(received, confs) := st in
  if confs <? minConf then mret (None, true) else
  match GTE received (inv_Amount inv) with
  | Err e => fail (wrap_err "onchain: amount compare" e)
  | Ok enough =>
      if negb enough then mret (None, true) else
      t ←! now ;
      mret (Some {| ev_Provider := name; ev_ExternalID := "onchain:" +:+ inv_ID inv; ev_InvoiceID := inv_ID inv;
                    ev_Status := StatusSettled; ev_Currency := inv_Currency inv; ev_Amount := received;
                    ev_Confirmations := confs; ev_Timestamp := t |}, false)
  end.
Fixpoint Poll (open : list Invoice) : M W (list Event) :=
  match open with
  | [] => mret []
  | inv :: open' =>
      checked ←! try (CheckInvoice inv) ;
      events ←! Poll open' ;
      mret (match checked with Ok (Some ev, _) => ev :: events | _ => events end)
  end.

Definition gateway : Gateway W := {|
  g_Name := name; g_SupportsCurrency := SupportsCurrency; g_CreateInvoice := CreateInvoice;
  g_ParseWebhook := ParseWebhook; g_Poll := Poll; g_CheckInvoice := Some CheckInvoice; g_LookupInvoice := None |}.
End onchain.
End Onchain.
