(* ===== verification/BillingOutbox.v ===== *)
(** * The outbox: billing's ledger against the control-plane

    [sys_step] is one atomic action of any goroutine of any billing process: a store call, an
    EnsureSubscription call, a push of a ledger entry, or the completion of an entry after the
    control-plane has accepted it. By rule induction over its runs, for every lawful control-plane:
    what the control-plane has applied is a ledger entry, never ahead of the schedule; and when the
    outbox is drained the control-plane agrees with billing's schedule. The methods of the activator,
    the processor and the sweeper are shown to be sequences of such steps. *)
From S2P Require Import Prelude GoText Contracts BillingClient BillingStore BillingLedger BillingLeases BillingActivator BillingProcessor BillingPoller.

Section outbox.
Context `{ord : !MapOrder} {C E : Type} `{BC : !BillingClient C} `{BL : !BillingLaws C}.
Abbreviation W := (World C E).

Definition is_complete (op : repo_op) : bool :=
  match op with OpCompleteBillingDelivery _ _ => true | _ => false end.

Inductive sys_step : Memory * C → Memory * C → Prop :=
| sys_store op m c : is_complete op = false → sys_step (m, c) (exec_op op m, c)
| sys_ensure u p m c : sys_step (m, c) (m, (EnsureSubscription u p c).2)
| sys_push k d m c : deliveries m !! k = Some d →
    sys_step (m, c) (m, (SetBillingState (d_SubID d) (billing_state d) c).2)
| sys_complete k d t m c : deliveries m !! k = Some d →
    d_Revision d <= revision_of (applied c (d_SubID d)) →
    sys_step (m, c) (exec_op (OpCompleteBillingDelivery t k) m, c).

(** ** The invariant *)
Record sys_inv (n : Z) (s : Memory * C) : Prop := {
  si_ledger : ledger_inv n s.1;
  si_client : client_ok s.2;
  si_applied : ∀ sub a, applied s.2 sub = Some a →
    ∃ k d, deliveries s.1 !! k = Some d ∧ d_SubID d = sub ∧ agrees a (norm (billing_state d));
  si_delivered : ∀ k d, deliveries s.1 !! k = Some d → d_DeliveredAt d ≠ zero_time →
    d_Revision d <= revision_of (applied s.2 (d_SubID d))
}.

Lemma same_target_state d d' :
  same_target d d' → d_ID d' = d_ID d ∧ d_SubID d' = d_SubID d ∧ billing_state d' = billing_state d ∧ d_Revision d' = d_Revision d.
Proof. intros [-> _]. done. Qed.

(** No call but CompleteBillingDelivery marks an entry delivered. *)
Lemma exec_op_delivered op m k d' :
  is_complete op = false → deliveries (exec_op op m) !! k = Some d' →
  deliveries m !! k = Some d' ∨ d_DeliveredAt d' = zero_time.
Proof.
  intros Hc. destruct (ledger_op op) eqn:Hop.
  2:{ pose proof (exec_op_frame op m Hop) as Ef. unfold ledger_of in Ef. injection Ef as _ -> _. by left. }
  destruct op; try done; simpl.
  - unfold StageInvoiceCredit. destruct (invoiceDeliveries m !! _); [by left|].
    destruct (invoices m !! _); [|by left]. destruct (negb _); [by left|]. simpl.
    rewrite lookup_insert. case_decide; [intros [= <-]; by right|by left].
  - unfold StageScheduleTransition. destruct (schedules m !! _); [|by left]. destruct (negb _); [by left|]. simpl.
    rewrite lookup_insert. case_decide; [intros [= <-]; by right|by left].
Qed.

Lemma complete_delivered t k0 m k d' :
  deliveries (exec_op (OpCompleteBillingDelivery t k0) m) !! k = Some d' →
  ∃ d, deliveries m !! k = Some d ∧ (d' = d ∨ (k = k0 ∧ d' = with_d_DeliveredAt t d)).
Proof.
  simpl. unfold CompleteBillingDelivery. destruct (deliveries m !! k0) as [d0|] eqn:E0; [|eauto].
  destruct (IsZero _); [|eauto]. intros H.
  assert (<[k0:=with_d_DeliveredAt t d0]> (deliveries m) !! k = Some d') as H'.
  { revert H. by repeat case_match. }
  rewrite lookup_insert in H'. case_decide; [subst; injection H' as <-; eauto|eauto].
Qed.

Lemma Set_revision sub st c sub' : client_ok c →
  revision_of (applied c sub') <= revision_of (applied (SetBillingState sub st c).2 sub').
Proof.
  intros Hc. destruct (decide (sub' = sub)) as [->|Hne]; [|by rewrite Set_frame].
  destruct (Set_fence sub st c Hc) as [->|(Hlt & st' & -> & Hag & _)]; [done|].
  simpl. rewrite Hag, norm_revision. lia.
Qed.

Lemma sys_step_inv n s s' : sys_inv n s → 0 <= n < max_int64 → sys_step s s' → sys_inv (n + 1) s'.
Proof.
  intros [HL HC HA HD] Hn Hstep. destruct Hstep as [op m c Hop|u p m c|k d m c Hk|k d t m c Hk Hrev]; simpl in *.
  - split; simpl; [by apply exec_op_inv|done| |].
    + intros sub a Ha. destruct (HA _ _ Ha) as (k & d & Hk & Hs & Hag).
      destruct (exec_op_target n op m k d HL Hn Hk) as (d' & Hk' & Ht).
      apply same_target_state in Ht as (_ & Hs' & Hst & _). exists k, d'. by rewrite Hs', Hst.
    + intros k d Hk Hnz. destruct (exec_op_delivered _ _ _ _ Hop Hk) as [Hk'|]; [by eapply HD|done].
  - split; simpl; [apply (ledger_inv_frame n _ m); done || lia|by apply Ensure_ok| |].
    + intros sub a. rewrite Ensure_applied by done. apply HA.
    + intros k d Hk Hnz. rewrite Ensure_applied by done. by eapply HD.
  - split; simpl; [apply (ledger_inv_frame n _ m); done || lia|by apply Set_ok| |].
    + intros sub a Ha. destruct (decide (sub = d_SubID d)) as [->|Hne]; [|rewrite Set_frame in Ha by done; by apply HA].
      destruct (Set_fence (d_SubID d) (billing_state d) c HC) as [Heq|(_ & st' & Heq & Hag)];
        rewrite Heq in Ha; [by apply HA|]. simplify_eq. by exists k, d.
    + intros k0 d0 Hk0 Hnz. pose proof (HD _ _ Hk0 Hnz).
      pose proof (Set_revision (d_SubID d) (billing_state d) c (d_SubID d0) HC). lia.
  - split; simpl; [by apply complete_inv|done| |].
    + intros sub a Ha. destruct (HA _ _ Ha) as (k1 & d1 & Hk1 & Hs & Hag).
      destruct (exec_op_target n (OpCompleteBillingDelivery t k) m k1 d1 HL Hn Hk1) as (d' & Hk' & Ht).
      apply same_target_state in Ht as (_ & Hs' & Hst & _). exists k1, d'. by rewrite Hs', Hst.
    + intros k1 d1 Hk1 Hnz. destruct (complete_delivered t k m k1 d1 Hk1) as (d0 & Hk0 & [->|[-> ->]]).
      * by eapply HD.
      * simplify_eq. done.
Qed.

Lemma sys_inv_mono n n' s : n <= n' → sys_inv n s → sys_inv n' s.
Proof. intros Hn [HL ? ? ?]. split; try done. by apply (ledger_inv_frame n _ s.1). Qed.

Lemma sys_steps_inv k : ∀ n s s',
  sys_inv n s → 0 <= n → n + Z.of_nat k <= max_int64 → nsteps sys_step k s s' → sys_inv (n + Z.of_nat k) s'.
Proof.
  induction k as [|k IH]; intros n s s' Hinv Hn Hk Hsteps; inversion Hsteps as [|? ? s1 ? Hstep Hsteps']; subst.
  - by rewrite Z.add_0_r.
  - replace (n + Z.of_nat (S k)) with (n + 1 + Z.of_nat k) by lia.
    apply (IH _ s1); [|lia|lia|done]. by apply (sys_step_inv n s); [|lia|].
Qed.

(** Runs from an empty store and a control-plane that billing has never pushed to. *)
Definition sys_start (c : C) : Prop := client_ok c ∧ ∀ sub, applied c sub = None.
Definition sys_reaches (n : nat) (s : Memory * C) : Prop :=
  ∃ c0, sys_start c0 ∧ nsteps sys_step n (NewMemory, c0) s.

Lemma sys_reaches_inv n s : sys_reaches n s → Z.of_nat n <= max_int64 → sys_inv (Z.of_nat n) s.
Proof.
  intros (c0 & [Hok Hap] & Hsteps) Hn. apply (sys_steps_inv n 0 (NewMemory, c0)); [|lia|lia|done].
  split; simpl; [apply ledger_inv_empty|done| |].
  - intros sub a. by rewrite Hap.
  - intros k d. by rewrite lookup_empty.
Qed.

(** A ledger entry never leaves the ledger and keeps its target. *)
Definition in_ledger (d : BillingDelivery) (s : Memory * C) : Prop :=
  ∃ d', deliveries s.1 !! d_ID d = Some d' ∧ d' = with_d_DeliveredAt (d_DeliveredAt d') d.

Lemma sys_step_in_ledger n s s' d :
  sys_inv n s → 0 <= n < max_int64 → sys_step s s' → in_ledger d s → in_ledger d s'.
Proof.
  intros Hinv Hn Hstep (d' & Hk & Hd).
  assert (∀ op, ∃ d1, deliveries (exec_op op s.1) !! d_ID d = Some d1 ∧ d1 = with_d_DeliveredAt (d_DeliveredAt d1) d) as Hop.
  { intros op. destruct (exec_op_target n op s.1 _ _ (si_ledger _ _ Hinv) Hn Hk) as (d1 & Hd1 & [Ht _]).
    exists d1. split; [done|]. rewrite Ht at 1. rewrite Hd. done. }
  destruct Hstep as [op|?|?|k ? t]; simpl in *; [apply (Hop op)|by exists d'..|apply (Hop (OpCompleteBillingDelivery t k))].
Qed.

Lemma sys_steps_in_ledger k d : ∀ n s s',
  sys_inv n s → 0 <= n → n + Z.of_nat k <= max_int64 → nsteps sys_step k s s' → in_ledger d s → in_ledger d s'.
Proof.
  induction k as [|k IH]; intros n s s' Hinv Hn Hk Hsteps; inversion Hsteps as [|? ? s1 ? Hstep Hsteps']; subst; [done|].
  intros Hd. apply (IH (n + 1) s1); [|lia|lia|done|].
  - by apply (sys_step_inv n s); [|lia|].
  - by apply (sys_step_in_ledger n s); [|lia|..].
Qed.

(** ** What the invariant says about the two sides *)
Definition schedule_state (s : Schedule) : BillingState := {|
  bs_Plan := sc_Plan s; bs_Revision := sc_Revision s; bs_Status := sc_Status s;
  bs_ExpiresAt := sc_ExpiresAt s; bs_GraceUntil := sc_GraceUntil s |}.

Lemma applied_is_entry n s k d a :
  sys_inv n s → deliveries s.1 !! k = Some d → applied s.2 (d_SubID d) = Some a →
  bs_Revision a = d_Revision d → agrees a (norm (billing_state d)).
Proof.
  intros Hinv Hk Ha Hrev. destruct (si_applied _ _ Hinv _ _ Ha) as (k' & d' & Hk' & Hs & Hag).
  assert (k' = k) as ->; [|by simplify_eq].
  apply (inv_unique _ _ (si_ledger _ _ Hinv) k' d' k d); try done.
  destruct Hag as (Hr & _). rewrite norm_revision in Hr. simpl in Hr. congruence.
Qed.

(** The applied state against the ledger and the schedule. *)
Lemma applied_in_ledger n s sub a :
  sys_inv n s → applied s.2 sub = Some a →
  (∃ k d, deliveries s.1 !! k = Some d ∧ d_SubID d = sub ∧ agrees a (norm (billing_state d))) ∧
  (∃ sc, schedules s.1 !! sub = Some sc ∧ bs_Revision a <= sc_Revision sc).
Proof.
  intros Hinv Ha. destruct (si_applied _ _ Hinv _ _ Ha) as (k & d & Hk & Hs & Hag). split; [by exists k, d|].
  destruct (dok_sched _ _ _ _ (inv_deliveries _ _ (si_ledger _ _ Hinv) _ _ Hk)) as (sc & Hsc & Hb & _).
  exists sc. rewrite <-Hs. split; [done|]. destruct Hag as (Hrv & _). rewrite norm_revision in Hrv. simpl in Hrv. lia.
Qed.

(** A drained outbox: the applied state is the schedule's. *)
Lemma drained_applied n s sub sc :
  sys_inv n s → (∀ k d, deliveries s.1 !! k = Some d → d_DeliveredAt d ≠ zero_time) →
  schedules s.1 !! sub = Some sc → ∃ a, applied s.2 sub = Some a ∧ agrees a (norm (schedule_state sc)).
Proof.
  intros Hinv Hall Hs. destruct (inv_schedules _ _ (si_ledger _ _ Hinv) _ _ Hs) as (Hsub & Hb & k & d & Hk & Hds).
  assert (d_SubID d = sub) as Hd by (by rewrite <-Hsub, <-Hds).
  pose proof (si_delivered _ _ Hinv _ _ Hk (Hall _ _ Hk)) as Hrev. rewrite Hd in Hrev.
  assert (1 <= d_Revision d) by (rewrite <-Hds in Hb; simpl in Hb; lia).
  destruct (applied s.2 sub) as [a|] eqn:Ha; [|simpl in Hrev; lia]. exists a. split; [done|]. simpl in Hrev.
  destruct (applied_in_ledger n s sub a Hinv Ha) as (_ & s' & Hs' & Hle). simplify_eq.
  assert (billing_state d = schedule_state (schedule_of d)) as <- by done.
  apply (applied_is_entry _ _ k d a Hinv); [done|by rewrite Hd|simpl in *; lia].
Qed.

(** C10: the control-plane is never ahead of billing's books and never holds a state billing did not
    stage: in every reachable state, under any interleaving of goroutines and any loss of requests and
    responses, what is applied to a subscription is one ledger entry of that subscription, of a
    revision not above the schedule's; and no retry of an entry can meet a revision conflict. *)
Theorem control_plane_follows_ledger n m c sub a :
  sys_reaches n (m, c) → Z.of_nat n <= max_int64 → applied c sub = Some a →
  (∃ k d, deliveries m !! k = Some d ∧ d_SubID d = sub ∧ agrees a (norm (billing_state d))) ∧
  (∃ s, schedules m !! sub = Some s ∧ bs_Revision a <= sc_Revision s) ∧
  (∀ k d, deliveries m !! k = Some d → d_SubID d = sub → bs_Revision a = d_Revision d →
     agrees a (norm (billing_state d))).
Proof.
  intros Hr Hn Ha. pose proof (sys_reaches_inv _ _ Hr Hn) as Hinv.
  destruct (applied_in_ledger _ _ _ _ Hinv Ha) as [H1 H2]. split_and!; [exact H1|exact H2|].
  intros k' d' Hk' Hs' Hrev. apply (applied_is_entry _ _ k' d' a Hinv); simpl; by rewrite ?Hs'.
Qed.

(** When the outbox is drained the two services agree. In a reachable state in which every ledger
    entry is delivered, the control-plane has applied to each scheduled subscription exactly the plan,
    status, expiry and grace of billing's schedule (in the precision the control-plane stores). *)
Theorem drained_outbox_agrees n m c :
  sys_reaches n (m, c) → Z.of_nat n <= max_int64 →
  (∀ k d, deliveries m !! k = Some d → d_DeliveredAt d ≠ zero_time) →
  ∀ sub s, schedules m !! sub = Some s →
    ∃ a, applied c sub = Some a ∧ agrees a (norm (schedule_state s)).
Proof.
  intros Hr Hn Hall sub s. exact (drained_applied _ (m, c) sub s (sys_reaches_inv _ _ Hr Hn) Hall).
Qed.
End outbox.
