(* ===== verification/BillingRefine.v ===== *)
(** * The service's methods are sequences of outbox steps

    A small program logic over [M (World C E)]: [triple b P m Q] says that from a state satisfying the
    outbox invariant and [P], running [m] takes at most [b] atomic steps of [BillingOutbox.sys_step] and
    a successful result satisfies [Q]. CreditInvoice, Deliver, Process, Reconcile and the sweeper are
    derived compositionally, so every theorem about runs of steps is one about runs of the service. *)
From S2P Require Import Prelude GoText Contracts Money BillingClient BillingStore BillingLedger BillingLeases BillingActivator BillingProcessor BillingPoller BillingOutbox.

Section logic.
Context `{ord : !MapOrder} {C E : Type} `{BC : !BillingClient C} `{BL : !BillingLaws C}.
Abbreviation W := (World C E).

(** The state the steps are about. *)
Definition sys (w : W) : Memory * C := (w_mem w, w_cp w).

Definition steps_within (b : Z) (s s' : Memory * C) : Prop :=
  ∃ k, Z.of_nat k <= b ∧ nsteps sys_step k s s'.

Definition ok_post {A} (Q : A → W → Prop) (r : result A) (w : W) : Prop :=
  match r with Ok a => Q a w | Err _ => True end.
Definition triple {A} (b : Z) (P : W → Prop) (m : M W A) (Q : A → W → Prop) : Prop :=
  ∀ n w, sys_inv n (sys w) → 0 <= n → n + b <= max_int64 → P w →
    steps_within b (sys w) (sys (m w).2) ∧ ok_post Q (m w).1 (m w).2.

Lemma steps_refl b s : 0 <= b → steps_within b s s.
Proof. intros. exists O. split; [lia|constructor]. Qed.
Lemma steps_one b s s' : 1 <= b → sys_step s s' → steps_within b s s'.
Proof. intros. exists 1%nat. split; [lia|]. by apply nsteps_once. Qed.
Lemma steps_trans b1 b2 s1 s2 s3 : steps_within b1 s1 s2 → steps_within b2 s2 s3 → steps_within (b1 + b2) s1 s3.
Proof. intros (k1 & ? & ?) (k2 & ? & ?). exists (k1 + k2)%nat. split; [lia|]. by eapply nsteps_trans. Qed.
Lemma steps_mono b b' s s' : b <= b' → steps_within b s s' → steps_within b' s s'.
Proof. intros Hb (k & ? & ?). exists k. split; [lia|done]. Qed.
Lemma steps_inv b n s s' : sys_inv n s → 0 <= n → n + b <= max_int64 → steps_within b s s' → sys_inv (n + b) s'.
Proof. intros Hi Hn Hb (k & Hk & Hs). apply (sys_inv_mono (n + Z.of_nat k)); [lia|]. by apply (sys_steps_inv k n s); [|lia|lia|]. Qed.
Lemma steps_in_ledger b n s s' d :
  sys_inv n s → 0 <= n → n + b <= max_int64 → steps_within b s s' → in_ledger d s → in_ledger d s'.
Proof. intros Hi Hn Hb (k & Hk & Hs). by apply (sys_steps_in_ledger k d n); [|lia|lia|]. Qed.

(** ** Rules *)
Lemma triple_ret {A} (a : A) (P : W → Prop) : triple 0 P (mret a) (λ x w, x = a ∧ P w).
Proof. intros n w _ _ _ HP. split; [by apply steps_refl|done]. Qed.
Lemma triple_fail {A} e (P : W → Prop) (Q : A → W → Prop) : triple 0 P (fail e) Q.
Proof. intros n w _ _ _ HP. split; [by apply steps_refl|done]. Qed.
Lemma triple_mono {A} b b' (P P' : W → Prop) (m : M W A) (Q Q' : A → W → Prop) :
  triple b' P' m Q' → b' <= b → (∀ w, P w → P' w) → (∀ a w, Q' a w → Q a w) → triple b P m Q.
Proof.
  intros Hm Hb HP HQ n w Hi Hn Hnb Hp. destruct (Hm n w Hi Hn ltac:(lia) (HP _ Hp)) as [Hs Hq].
  split; [by apply (steps_mono b')|]. destruct (m w) as [[a|e] w']; [by apply HQ|done].
Qed.
Lemma triple_bind {A B} b1 b2 (P : W → Prop) (m : M W A) (R : A → W → Prop) (f : A → M W B) (Q : B → W → Prop) :
  0 <= b1 → 0 <= b2 → triple b1 P m R → (∀ a, triple b2 (R a) (f a) Q) → triple (b1 + b2) P (mbind f m) Q.
Proof.
  intros Hb1 Hb2 Hm Hf n w Hi Hn Hb HP. destruct (Hm n w Hi Hn ltac:(lia) HP) as [Hs Hr].
  unfold mbind, M_bind. destruct (m w) as [[a|e] w'] eqn:Em; simpl in *.
  - pose proof (steps_inv b1 n _ _ Hi Hn ltac:(lia) Hs) as Hi'.
    destruct (Hf a (n + b1) w' Hi' ltac:(lia) ltac:(lia) Hr) as [Hs' Hq].
    split; [by eapply steps_trans|done].
  - split; [apply (steps_mono b1); [lia|done]|done].
Qed.
(** The bind rule used below: the budget is what is left after [m]. *)
Lemma triple_seq {A B} b b1 (P : W → Prop) (m : M W A) (R : A → W → Prop) (f : A → M W B) (Q : B → W → Prop) :
  triple b1 P m R → 0 <= b1 <= b → (∀ a, triple (b - b1) (R a) (f a) Q) → triple b P (mbind f m) Q.
Proof. intros Hm Hb Hf. replace b with (b1 + (b - b1)) by lia. eapply triple_bind; [lia|lia|done|done]. Qed.
Lemma triple_try {A} b (P : W → Prop) (m : M W A) (Q : A → W → Prop) :
  triple b P m Q → triple b P (try m) (λ r w, ok_post Q r w).
Proof.
  intros Hm n w Hi Hn Hb HP. destruct (Hm n w Hi Hn Hb HP) as [Hs Hq]. unfold try. by destruct (m w) as [[a|e] w'].
Qed.
Lemma triple_ignore {A} b (P : W → Prop) (m : M W A) (Q : A → W → Prop) :
  triple b P m Q → triple b P (ignore m) (λ _ _, True).
Proof. intros Hm n w Hi Hn Hb HP. destruct (Hm n w Hi Hn Hb HP) as [Hs _]. done. Qed.
Lemma triple_wrapping {A} b (P : W → Prop) msg (m : M W A) (Q : A → W → Prop) :
  triple b P m Q → triple b P (wrapping msg m) Q.
Proof.
  intros Hm n w Hi Hn Hb HP. destruct (Hm n w Hi Hn Hb HP) as [Hs Hq]. unfold wrapping. by destruct (m w) as [[a|e] w'].
Qed.
Lemma triple_staged {A} b (P : W → Prop) st id (m : M W A) (Q : A → W → Prop) :
  triple b P m Q → triple b P (staged st id m) Q.
Proof.
  intros Hm n w Hi Hn Hb HP. destruct (Hm n w Hi Hn Hb HP) as [Hs Hq]. unfold staged. by destruct (m w) as [[a|e] w'].
Qed.
Lemma triple_pure {A} b (φ : Prop) (P : W → Prop) (m : M W A) (Q : A → W → Prop) :
  (φ → triple b P m Q) → triple b (λ w, φ ∧ P w) m Q.
Proof. intros Hm n w Hi Hn Hb [Hφ HP]. by apply (Hm Hφ n). Qed.
Lemma triple_frame {A} b d (m : M W A) (P : W → Prop) (Q : A → W → Prop) :
  triple b P m Q → triple b (λ w, P w ∧ in_ledger d (sys w)) m (λ a w, Q a w ∧ in_ledger d (sys w)).
Proof.
  intros Hm n w Hi Hn Hb [HP Hd]. destruct (Hm n w Hi Hn Hb HP) as [Hs Hq]. split; [done|].
  pose proof (steps_in_ledger b n _ _ d Hi Hn Hb Hs Hd). by destruct (m w) as [[a|e] w'].
Qed.

(** ** Primitives *)
Lemma triple_pure_step {A} (f : W → A) (g : W → W) (P : W → Prop) :
  (∀ w, sys (g w) = sys w) → (∀ w, P w → P (g w)) → triple 0 P (λ w, (Ok (f w), g w)) (λ _ w, P w).
Proof. intros Hg HP n w _ _ _ Hp. split; [simpl; rewrite Hg; by apply steps_refl|by apply HP]. Qed.
Definition sys_pred (P : W → Prop) : Prop := ∀ w w', sys w = sys w' → P w → P w'.
Lemma triple_now (P : W → Prop) : sys_pred P → triple 0 P now (λ _ w, P w).
Proof. intros HP. apply (triple_pure_step w_clock); [done|]. intros w. by apply HP. Qed.
Lemma triple_ctx (P : W → Prop) : sys_pred P → triple 0 P ctx_Err (λ _ w, P w).
Proof. intros HP. apply (triple_pure_step (λ w : W, default false (head (w_ctx w)))); [done|]. intros w. by apply HP. Qed.

(** A store call whose effect is one step. *)
Lemma triple_store {A} (m : M Memory A) (op : repo_op) (P : W → Prop) (Q : A → W → Prop) :
  is_complete op = false → (∀ mem, exec_op op mem = (m mem).2) →
  (∀ n w, sys_inv n (sys w) → P w → ok_post Q (m (w_mem w)).1 (set_mem (m (w_mem w)).2 w)) →
  triple 1 P (store m) Q.
Proof.
  intros Hop Heq HQ n w Hi Hn Hb HP. pose proof (HQ n w Hi HP) as Hq. unfold store, zoom.
  destruct (m (w_mem w)) as [r mem'] eqn:Em. simpl in *. split; [|done].
  apply steps_one; [lia|]. replace mem' with (exec_op op (w_mem w)) by (by rewrite Heq, Em). by constructor.
Qed.
(** A store call that changes nothing. *)
Lemma triple_read {A} (m : M Memory A) (P : W → Prop) :
  (∀ mem, (m mem).2 = mem) → sys_pred P → triple 0 P (store m) (λ _ w, P w).
Proof.
  intros Hm HP n w Hi Hn Hb Hp. unfold store, zoom. pose proof (Hm (w_mem w)) as Eq.
  destruct (m (w_mem w)) as [r mem'] eqn:Em. simpl in *. subst mem'.
  assert (set_mem (w_mem w) w = w) as -> by (by destruct w). split; [by apply steps_refl|by destruct r].
Qed.
Lemma triple_ensure u p : triple 1 (λ _, True) (cp (EnsureSubscription u p)) (λ _ _, True).
Proof.
  intros n w Hi Hn Hb _. unfold cp, zoom. destruct (EnsureSubscription u p (w_cp w)) as [r c'] eqn:Ec. simpl.
  split; [|by destruct r]. apply steps_one; [lia|]. unfold sys; simpl.
  replace c' with (EnsureSubscription u p (w_cp w)).2 by (by rewrite Ec). constructor.
Qed.
Lemma triple_store_True {A} (m : M Memory A) (op : repo_op) :
  is_complete op = false → (∀ mem, exec_op op mem = (m mem).2) → triple 1 (λ _, True) (store m) (λ _ _, True).
Proof. intros Hop Heq. apply (triple_store m op); [done..|]. intros n w _ _. by destruct (m (w_mem w)) as [[] ?]. Qed.

(** Pushing an entry: on success the control-plane is at its revision or above. *)
Definition pushed (d : BillingDelivery) (w : W) : Prop :=
  d_Revision d <= revision_of (applied (w_cp w) (d_SubID d)).
Lemma triple_push d :
  triple 1 (λ w, in_ledger d (sys w)) (cp (SetBillingState (d_SubID d) (billing_state d)))
    (λ _ w, in_ledger d (sys w) ∧ pushed d w).
Proof.
  intros n w Hi Hn Hb (d' & Hk & Hd). unfold cp, zoom.
  destruct (SetBillingState (d_SubID d) (billing_state d) (w_cp w)) as [r c'] eqn:Ec. simpl.
  assert (d_SubID d' = d_SubID d ∧ billing_state d' = billing_state d) as [Hsub Hst] by (by rewrite Hd).
  split.
  - apply steps_one; [lia|]. unfold sys; simpl.
    replace c' with (SetBillingState (d_SubID d) (billing_state d) (w_cp w)).2 by (by rewrite Ec).
    rewrite <-Hsub, <-Hst. by apply (sys_push (d_ID d)).
  - destruct r as [s|e]; [|done]. split; [by exists d'|]. unfold pushed. simpl.
    pose proof (Set_accepted (d_SubID d) (billing_state d) (w_cp w) s (si_client _ _ Hi)) as Hacc.
    rewrite Ec in Hacc. by apply Hacc.
Qed.
Lemma triple_complete d t :
  triple 1 (λ w, in_ledger d (sys w) ∧ pushed d w) (store (CompleteBillingDelivery t (d_ID d))) (λ _ _, True).
Proof.
  intros n w Hi Hn Hb [(d' & Hk & Hd) Hp]. unfold store, zoom.
  destruct (CompleteBillingDelivery t (d_ID d) (w_mem w)) as [r mem'] eqn:Ec. simpl. split; [|by destruct r].
  apply steps_one; [lia|]. unfold sys; simpl.
  replace mem' with (exec_op (OpCompleteBillingDelivery t (d_ID d)) (w_mem w)) by (simpl; by rewrite Ec).
  apply (sys_complete _ d'); [done|]. by rewrite Hd.
Qed.

(** Staging returns a ledger entry. *)
Lemma triple_stage_credit i sub u t dur g :
  triple 1 (λ _, True) (store (StageInvoiceCredit i sub u t dur g)) (λ d w, in_ledger d (sys w)).
Proof.
  apply (triple_store _ (OpStageInvoiceCredit i sub u t dur g)); [done..|]. intros n w Hi _.
  unfold StageInvoiceCredit, in_ledger. destruct (invoiceDeliveries (w_mem w) !! i) as [k|] eqn:Ei.
  - destruct (inv_index _ _ (si_ledger _ _ Hi) _ _ Ei) as (-> & d & Hd & _). simpl in *. rewrite Hd. simpl.
    pose proof (dok_id _ _ _ _ (inv_deliveries _ _ (si_ledger _ _ Hi) _ _ Hd)) as ->. exists d. by destruct d.
  - destruct (invoices (w_mem w) !! i); [|done]. destruct (negb _); [done|]. simpl.
    rewrite lookup_insert_eq. eexists. done.
Qed.
Lemma triple_stage_transition sub r st t :
  triple 1 (λ _, True) (store (StageScheduleTransition sub r st t)) (λ ds w, ds.2 = true → in_ledger ds.1 (sys w)).
Proof.
  apply (triple_store _ (OpStageScheduleTransition sub r st t)); [done..|]. intros n w Hi _.
  unfold StageScheduleTransition, in_ledger. destruct (schedules (w_mem w) !! sub); [|done].
  destruct (negb _); [done|]. simpl. intros _. rewrite lookup_insert_eq. eexists. done.
Qed.

(** ** The methods *)
Lemma sys_pred_True : sys_pred (λ _, True).
Proof. done. Qed.
Lemma sys_pred_ledger d : sys_pred (λ w, in_ledger d (sys w)).
Proof. intros w w' Heq. by rewrite Heq. Qed.
Lemma sys_pred_pushed d : sys_pred (λ w, in_ledger d (sys w) ∧ pushed d w).
Proof. intros w w' Heq [Hl Hp]. unfold pushed in *. unfold sys in *. injection Heq as Hm Hc. by rewrite <-Hm, <-Hc. Qed.

Lemma triple_pre {A} b (P' P : W → Prop) (m : M W A) (Q : A → W → Prop) :
  triple b P' m Q → (∀ w, P w → P' w) → triple b P m Q.
Proof. intros Hm HP. by apply (triple_mono b b P P' m Q Q). Qed.
Lemma triple_done {A} (a : A) b (P : W → Prop) : 0 <= b → triple b P (mret a) (λ _ _, True).
Proof. intros Hb. by apply (triple_mono b 0 P P _ (λ _ _, True) _ (triple_ret a P)). Qed.
Lemma triple_failed {A} e b (P : W → Prop) (Q : A → W → Prop) : 0 <= b → triple b P (fail e) Q.
Proof. intros Hb. apply (triple_mono b 0 P P _ Q Q); auto using triple_fail. Qed.

Lemma triple_Deliver d : triple 2 (λ w, in_ledger d (sys w)) (Deliver d) (λ _ _, True).
Proof.
  eapply triple_seq; [apply triple_wrapping, triple_push|lia|]. intros s.
  eapply triple_seq; [apply triple_now, sys_pred_pushed|lia|]. intros t.
  eapply triple_seq; [apply triple_wrapping, triple_complete|lia|]. intros []. by apply triple_done.
Qed.

Context (catalog : Catalog) (replayWindow : Duration).

Lemma triple_CreditInvoice inv : triple 4 (λ _, True) (CreditInvoice catalog inv) (λ _ _, True).
Proof.
  unfold CreditInvoice. destruct (Catalog_Get catalog (inv_Plan inv)) as [p|]; [|by apply triple_failed].
  eapply triple_seq; [apply triple_wrapping, triple_ensure|lia|]. intros s.
  eapply triple_seq; [apply triple_now, sys_pred_True|lia|]. intros t.
  eapply triple_seq; [apply triple_wrapping, triple_stage_credit|lia|]. intros d.
  apply (triple_mono _ 2 _ _ _ _ _ (triple_Deliver d)); done || lia.
Qed.

Lemma triple_settle ev : triple 6 (λ _, True) (settle catalog ev) (λ _ _, True).
Proof.
  unfold settle. eapply triple_seq; [apply triple_wrapping, triple_read; [|apply sys_pred_True]|lia|].
  { intros mem. unfold GetInvoice. by case_match. }
  intros inv. destruct (negb _); [by apply triple_failed|]. destruct (_ && _); [by apply triple_failed|].
  assert (triple 6 (λ _, True) (
      t ←! now ; claimed ←! wrapping "payment: claim settlement" (store (ClaimSettlement t (inv_ID inv))) ;
      if negb claimed then mret tt
      else wrapping "payment: activate" (CreditInvoice catalog inv) ;;! mret tt) (λ _ _, True)) as Hclaim.
  { eapply triple_seq; [apply triple_now, sys_pred_True|lia|]. intros t.
    eapply triple_seq; [apply triple_wrapping; by apply (triple_store_True _ (OpClaimSettlement t (inv_ID inv)))|lia|].
    intros []; simpl; [|by apply triple_done].
    eapply triple_seq; [apply triple_wrapping, triple_CreditInvoice|lia|]. intros s. by apply triple_done. }
  destruct (bool_decide _); [done|]. destruct (GTE _ _) as [[]|]; simpl; [done| |by apply triple_failed].
  eapply triple_seq; [eapply triple_ignore, (triple_store_True _ (OpSetInvoiceStatus (inv_ID inv) StatusInvalid)); done|lia|].
  intros []. by apply triple_failed.
Qed.

Lemma triple_Process ev : triple 7 (λ _, True) (Process catalog replayWindow ev) (λ _ _, True).
Proof.
  unfold Process. eapply (triple_seq _ 0); [|lia|].
  { unfold too_old. destruct (_ && _); [|by apply triple_done].
    eapply triple_seq; [apply triple_now, sys_pred_True|lia|]. intros t. by apply triple_done. }
  intros []; [by apply triple_failed|].
  eapply triple_seq; [apply triple_wrapping, triple_read; [done|apply sys_pred_True]|lia|].
  intros []; [by apply triple_done|].
  assert (triple 1 (λ _, True) (store (RecordEvent (ev_Provider ev) (ev_ExternalID ev))) (λ (_ : unit) (_ : W), True)) as Hrec.
  { by apply (triple_store_True _ (OpRecordEvent (ev_Provider ev) (ev_ExternalID ev))). }
  destruct (bool_decide _).
  { eapply triple_seq; [apply triple_settle|lia|]. intros []. eapply triple_mono; [exact Hrec|lia|done..]. }
  destruct (bool_decide _).
  { eapply triple_seq; [eapply triple_ignore, (triple_store_True _ (OpSetInvoiceStatus (ev_InvoiceID ev) StatusExpired)); done|lia|].
    intros []. eapply triple_mono; [exact Hrec|lia|done..]. }
  destruct (bool_decide _); [|by apply triple_done].
  eapply triple_seq; [eapply triple_ignore, (triple_store_True _ (OpSetInvoiceStatus (ev_InvoiceID ev) StatusInvalid)); done|lia|].
  intros []. eapply triple_mono; [exact Hrec|lia|done..].
Qed.

Lemma triple_finishSettlement s : triple 4 (λ _, True) (finishSettlement catalog s) (λ _ _, True).
Proof.
  unfold finishSettlement. eapply triple_seq; [apply triple_staged, triple_read; [|apply sys_pred_True]|lia|].
  { intros mem. unfold GetInvoice. by case_match. }
  intros inv. destruct (bool_decide _); [by apply triple_done|]. destruct (negb _).
  - eapply triple_seq; [apply triple_staged, triple_CreditInvoice|lia|]. intros x. by apply triple_done.
  - apply triple_staged. eapply triple_mono; [by apply (triple_store_True _ (OpSetInvoiceStatus (inv_ID inv) StatusSettled))|lia|done..].
Qed.

(** A recovery loop whose items need [P x] of the world, which other items preserve. *)
Lemma triple_recover {A} c (P : A → W → Prop) (work : A → M W unit) :
  0 <= c → (∀ x, sys_pred (P x)) →
  (∀ x, triple c (P x) (work x) (λ _ _, True)) →
  (∀ x y, triple c (λ w, P x w ∧ P y w) (try (work x)) (λ _ w, P y w)) →
  ∀ l r errs, triple (c * Z.of_nat (length l)) (λ w, ∀ x, x ∈ l → P x w) (recover work l r errs) (λ _ _, True).
Proof.
  intros Hc Hsp Hw Hpres l. induction l as [|x l IH]; intros r errs; [apply triple_done; simpl; lia|]. simpl recover.
  eapply triple_seq; [apply triple_ctx|split; [done|nia]|].
  { intros w w' Heq Hall y Hy. eapply Hsp; [done|]. by apply Hall. }
  intros []; [apply triple_done; nia|].
  eapply (triple_seq _ c _ _ (λ _ w, ∀ y, y ∈ l → P y w)); [|simpl; nia|].
  - intros n w Hi Hn Hb HP. destruct (Hw x n w Hi Hn Hb (HP x ltac:(by left))) as [Hs _].
    assert ((try (work x) w).2 = (work x w).2) as E2 by (unfold try; by destruct (work x w)). rewrite E2.
    split; [done|]. unfold try. destruct (work x w) as [res w'] eqn:Ew. intros y Hy.
    destruct (Hpres x y n w Hi Hn Hb) as [_ Hq].
    { split; apply HP; [by left|by right]. }
    unfold try in Hq. rewrite Ew in Hq. done.
  - intros [u|e]; apply (triple_mono _ (c * Z.of_nat (length l)) _ _ _ _ _ (IH _ _)); simpl length; done || lia.
Qed.

Lemma triple_frame_try {A} b d (m : M W A) (P : W → Prop) (Q : A → W → Prop) :
  triple b P m Q → triple b (λ w, P w ∧ in_ledger d (sys w)) (try m) (λ _ w, in_ledger d (sys w)).
Proof.
  intros Hm. eapply triple_mono; [apply (triple_frame b d _ _ _ (triple_try _ _ _ _ Hm))|lia|done|].
  by intros a w [_ ?].
Qed.

Lemma length_limited {A} limit (l : list A) : 0 < limit → Z.of_nat (length (limited limit l)) <= limit.
Proof. intros Hl. unfold limited. rewrite (proj2 (Z.ltb_lt _ _) Hl), length_take. lia. Qed.

Lemma triple_lease_deliveries t ot lf limit : 0 < limit →
  triple 1 (λ _, True) (store (LeaseBillingDeliveries t ot lf limit))
    (λ l w, Z.of_nat (length l) <= limit ∧ ∀ d, d ∈ l → in_ledger d (sys w)).
Proof.
  intros Hl. apply (triple_store _ (OpLeaseBillingDeliveries t ot lf limit)); [done..|]. intros n w Hi _.
  rewrite LeaseBillingDeliveries_unfold. split; [by apply length_limited|].
  intros d Hd. apply elem_of_limited, elem_of_delivery_list in Hd as [(k & Hk) _]. exists d. simpl.
  rewrite (dok_id _ _ _ _ (inv_deliveries _ _ (si_ledger _ _ Hi) _ _ Hk)). split; [done|by destruct d].
Qed.
Lemma triple_lease_stuck t ot lf limit : 0 < limit →
  triple 1 (λ _, True) (store (LeaseStuckSettlements t ot lf limit)) (λ l w, Z.of_nat (length l) <= limit ∧ True).
Proof.
  intros Hl. apply (triple_store _ (OpLeaseStuckSettlements t ot lf limit)); [done..|]. intros n w Hi _.
  rewrite LeaseStuckSettlements_unfold. cbn [fst ok_post]. rewrite length_fmap. split; [by apply length_limited|done].
Qed.

Lemma triple_deliver_work d : triple 2 (λ w, in_ledger d (sys w)) (deliver_work d) (λ _ _, True).
Proof. eapply triple_seq; [apply triple_staged, triple_Deliver|lia|]. intros x. by apply triple_done. Qed.
Lemma triple_deliver_all ds r errs :
  triple (2 * Z.of_nat (length ds)) (λ w, ∀ d, d ∈ ds → in_ledger d (sys w)) (recover deliver_work ds r errs) (λ _ _, True).
Proof.
  apply (triple_recover 2 (λ d w, in_ledger d (sys w))); [lia|apply sys_pred_ledger|apply triple_deliver_work|].
  intros d y. eapply triple_frame_try, triple_deliver_work.
Qed.
Lemma triple_recover_stuck ot lf remaining report errs : 0 < remaining →
  triple (1 + 4 * remaining) (λ _, True) (recover_stuck catalog ot lf remaining report errs) (λ _ _, True).
Proof.
  intros Hl. eapply triple_seq; [apply triple_now, sys_pred_True|lia|]. intros t'.
  eapply triple_seq; [by apply triple_try, triple_lease_stuck|lia|]. intros [st|e]; [|apply triple_done; lia].
  simpl ok_post. apply triple_pure. intros Hst.
  eapply (triple_seq _ (4 * Z.of_nat (length st)) _ _ (λ _ _, True)); [|lia|].
  { eapply triple_mono; [apply (triple_recover 4 (λ _ _, True)); [lia|done| |]|lia|done|done].
    - apply triple_finishSettlement.
    - intros s y. eapply triple_mono; [apply triple_try, (triple_finishSettlement s)|lia|done|done]. }
  intros out. apply triple_done. lia.
Qed.

Lemma triple_Reconcile ot lf limit : 0 < limit →
  triple (2 + 4 * limit) (λ _, True) (Reconcile catalog ot lf limit) (λ _ _, True).
Proof.
  intros Hl. unfold Reconcile. rewrite (proj2 (Z.ltb_lt _ _) Hl).
  eapply triple_seq; [apply triple_now, sys_pred_True|lia|]. intros t.
  eapply triple_seq; [by apply triple_try, triple_lease_deliveries|lia|]. intros [ds|e]; [|apply triple_done; lia].
  simpl ok_post. apply triple_pure. intros Hlen.
  eapply triple_seq; [apply triple_deliver_all|lia|].
  intros [report errs]. destruct (rr_Canceled report); [apply triple_done; lia|].
  simpl andb. destruct (Z.leb_spec (limit - Z.of_nat (length ds)) 0); [apply triple_done; lia|].
  eapply triple_mono; [apply triple_recover_stuck|..]; done || lia.
Qed.

Lemma triple_sweep_one t s : triple 3 (λ _, True) (sweep_one t s) (λ _ _, True).
Proof.
  unfold sweep_one, WithUserLock. eapply triple_seq; [apply triple_read; [|apply sys_pred_True]|lia|].
  { intros mem. unfold GetSchedule. by case_match. }
  intros sched. destruct (_ || _); [by apply triple_done|].
  eapply triple_seq; [apply triple_stage_transition|lia|]. intros [d []]; simpl; [|by apply triple_done].
  eapply triple_seq; [apply (triple_pre _ (λ w, in_ledger d (sys w))); [apply triple_push|by auto]|lia|]. intros x.
  eapply triple_seq; [apply triple_now, sys_pred_pushed|lia|]. intros t'.
  apply triple_complete.
Qed.
Lemma triple_for_each {A} c (work : A → M W unit) l :
  0 <= c → (∀ x, triple c (λ _, True) (work x) (λ _ _, True)) →
  triple (c * Z.of_nat (length l)) (λ _, True) (for_each l work) (λ _ _, True).
Proof.
  intros Hc Hw. induction l as [|x l IH]; [apply triple_done; simpl; lia|]. simpl for_each.
  eapply triple_seq; [eapply triple_ignore, Hw|simpl; nia|]. intros [].
  eapply triple_mono; [exact IH|simpl; lia|done..].
Qed.
Lemma triple_Sweeper (N : nat) :
  triple (3 * Z.of_nat N) (λ w, (size (schedules (w_mem w)) <= N)%nat) Sweeper_RunOnce (λ _ _, True).
Proof.
  unfold Sweeper_RunOnce. eapply triple_seq; [apply triple_now|lia|].
  { intros w w' Heq. injection Heq as Hm _. by rewrite Hm. }
  intros t. eapply (triple_seq _ 0 _ _ (λ due _, (length due <= N)%nat ∧ True)); [|lia|].
  - intros n w Hi Hn Hb HN. unfold store, zoom, DueSchedules. simpl. split.
    + apply steps_refl. lia.
    + split; [|done]. etrans; [apply length_filter|]. by rewrite length_fmap, length_range.
  - intros due. apply triple_pure. intros Hlen.
    eapply triple_mono; [apply (triple_for_each 3); [lia|apply triple_sweep_one]|lia|done..].
Qed.
End logic.
