(* ===== verification/BillingCredit.v ===== *)
(** * What a payment buys

    The entitlement arithmetic of StageInvoiceCredit over sequences of payments, and the end-to-end
    effect of a settling event through the processor, the activator, the store and a lawful
    control-plane. *)
From S2P Require Import Prelude GoText Contracts Money BillingClient BillingStore BillingLedger BillingLeases BillingActivator BillingProcessor BillingOutbox BillingRefine.

(** ** Paying several invoices *)
Record payment := { pay_invoice : string; pay_at : Time; pay_duration : Duration; pay_grace : Duration }.

Section payments.
Context `{ord : !MapOrder} (sub u : string).

Definition stage_all (ps : list payment) (m : Memory) : Memory :=
  foldl (λ m p, (StageInvoiceCredit (pay_invoice p) sub u (pay_at p) (pay_duration p) (pay_grace p) m).2) m ps.

(** What a customer expects: each payment adds its period to the later of the current expiry and the
    instant of the payment. *)
Definition expected_expiry (e : Time) (ps : list payment) : Time :=
  foldl (λ e p, Z.max e (pay_at p) + pay_duration p) e ps.

Lemma stage_fresh i t d g m s inv :
  invoiceDeliveries m !! i = None → invoices m !! i = Some inv → inv_AnonUserID inv = u →
  schedules m !! sub = Some s →
  let m' := (StageInvoiceCredit i sub u t d g m).2 in
  invoices m' = invoices m ∧ invoiceDeliveries m' = <[i := invoice_delivery_id i]> (invoiceDeliveries m) ∧
  ∃ s', schedules m' !! sub = Some s' ∧ sc_ExpiresAt s' = Z.max (sc_ExpiresAt s) t + d ∧
        sc_GraceUntil s' = sc_ExpiresAt s' + g ∧ sc_Revision s' = wrap64 (sc_Revision s + 1) ∧
        sc_Plan s' = inv_Plan inv ∧ sc_Status s' = SubscriptionStatusActive.
Proof.
  intros Hi Hinv Hu Hs. unfold StageInvoiceCredit. rewrite Hi, Hinv, Hu, bool_decide_true by done. simpl.
  split_and!; [done..|]. rewrite lookup_insert_eq. eexists. split; [done|]. simpl. rewrite Hs. simpl.
  split_and!; try done. unfold After, Add. destruct (Z.ltb_spec t (sc_ExpiresAt s)); lia.
Qed.

(** No paid period is ever lost. Crediting distinct unpaid-for invoices of a user to a scheduled
    subscription, at any instants and in any order of arrival, leaves exactly the expiry the customer
    expects: each payment extends the later of the current expiry and the time of payment; so the
    paid durations all add up, and the revision counts the payments. *)
Theorem payments_accumulate ps : ∀ m s,
  schedules m !! sub = Some s →
  NoDup (pay_invoice <$> ps) →
  (∀ p, p ∈ ps → invoiceDeliveries m !! pay_invoice p = None ∧
     ∃ inv, invoices m !! pay_invoice p = Some inv ∧ inv_AnonUserID inv = u) →
  0 <= sc_Revision s → sc_Revision s + Z.of_nat (length ps) <= max_int64 →
  ∃ s', schedules (stage_all ps m) !! sub = Some s' ∧
    sc_ExpiresAt s' = expected_expiry (sc_ExpiresAt s) ps ∧
    sc_ExpiresAt s + foldr (λ p acc, pay_duration p + acc) 0 ps <= sc_ExpiresAt s' ∧
    sc_Revision s' = sc_Revision s + Z.of_nat (length ps).
Proof.
  induction ps as [|p ps IH]; intros m s Hs Hnd Hps Hr0 Hr.
  { exists s. split_and!; [done|done|simpl; lia|simpl; lia]. }
  apply NoDup_cons in Hnd as [Hp Hnd].
  destruct (Hps p ltac:(by left)) as (Hi & inv & Hinv & Hu).
  destruct (stage_fresh _ (pay_at p) (pay_duration p) (pay_grace p) m s inv Hi Hinv Hu Hs)
    as (Einv & Edel & s1 & Hs1 & He1 & _ & Hr1 & _).
  simpl length in Hr. rewrite wrap64_small in Hr1 by (unfold min_int64; lia).
  edestruct (IH _ s1 Hs1 Hnd) as (s' & Hs' & He' & Hge & Hrev).
  - intros p' Hp'. destruct (Hps p' ltac:(by right)) as (Hi' & Hinv'). rewrite Einv, Edel. split; [|done].
    rewrite lookup_insert_ne; [done|]. intros Heq. apply Hp. rewrite Heq. by apply list_elem_of_fmap_2.
  - lia.
  - lia.
  - exists s'. simpl. rewrite He' at 1. split_and!; [done| | |].
    + unfold expected_expiry. simpl. by rewrite He1.
    + lia.
    + simpl length. lia.
Qed.
End payments.

Definition demo_two : Memory := run (ord := key_order) [
  OpCreateInvoice demo_invoice; OpStageInvoiceCredit "i1" "s1" "u1" 110 1000 50;
  OpCreateInvoice {| inv_ID := "i2"; inv_Provider := "btcpay"; inv_AnonUserID := "u1"; inv_Plan := "basic";
    inv_Currency := "BTC"; inv_Amount := "0.01"; inv_PayAddress := ""; inv_ProviderInvoiceID := "";
    inv_Status := StatusPending; inv_CreatedAt := 100; inv_ExpiresAt := 200 |}] NewMemory.
Lemma payments_accumulate_witness :
  ∃ s', schedules (stage_all "s1" "u1" [Build_payment "i2" 500 1000 50] demo_two) !! "s1" = Some s' ∧
    sc_ExpiresAt s' = expected_expiry 1110 [Build_payment "i2" 500 1000 50] ∧
    1110 + (1000 + 0) <= sc_ExpiresAt s' ∧ sc_Revision s' = 1 + 1.
Proof.
  apply (payments_accumulate "s1" "u1" [Build_payment "i2" 500 1000 50] demo_two
           {| sc_SubID := "s1"; sc_AnonUserID := "u1"; sc_Revision := 1; sc_Plan := "basic";
              sc_Status := SubscriptionStatusActive; sc_ExpiresAt := 1110; sc_GraceUntil := 1160 |}).
  - vm_compute. reflexivity.
  - apply NoDup_singleton.
  - intros p Hp%list_elem_of_singleton. subst p. split; [vm_compute; reflexivity|].
    eexists. split; [vm_compute; reflexivity|reflexivity].
  - vm_compute. discriminate.
  - vm_compute. discriminate.
Defined.

(** ** One settling event, end to end *)
Section settle.
Context `{ord : !MapOrder} {C E : Type} `{BC : !BillingClient C} `{BL : !BillingLaws C}.
Context (catalog : Catalog) (replayWindow : Duration).
Abbreviation W := (World C E).

Lemma bind_ok {A B} (m : M W A) (f : A → M W B) w a w1 : m w = (Ok a, w1) → mbind f m w = f a w1.
Proof. unfold mbind, M_bind. by intros ->. Qed.
Lemma wrapping_ok {A} msg (m : M W A) w a w1 : m w = (Ok a, w1) → wrapping msg m w = (Ok a, w1).
Proof. unfold wrapping. by intros ->. Qed.
Lemma store_ok {A} (m : M Memory A) w a mem : m (w_mem w) = (Ok a, mem) → (store m : M W A) w = (Ok a, set_mem mem w).
Proof. unfold store, zoom. by intros ->. Qed.
Lemma cp_ok {A} (m : M C A) w a c : m (w_cp w) = (Ok a, c) → (cp m : M W A) w = (Ok a, set_cp c w).
Proof. unfold cp, zoom. by intros ->. Qed.

(** The world after a clock reading, and the reading. *)
Definition ticked (w : W) : W := (now w).2.
Lemma now_ok (w : W) : now w = (Ok (w_clock w), ticked w).
Proof. done. Qed.

(** What a completed first delivery of [d] for a present invoice leaves in the store. *)
Lemma complete_fresh t d m inv :
  deliveries m !! d_ID d = Some d → d_DeliveredAt d = zero_time → d_InvoiceID d ≠ "" →
  invoices m !! d_InvoiceID d = Some inv →
  CompleteBillingDelivery t (d_ID d) m =
    (Ok tt, set_settled (delete (lease_key (d_ID d)))
              (set_invoices <[d_InvoiceID d := with_inv_Status StatusSettled inv]>
                (set_deliveries <[d_ID d := with_d_DeliveredAt t d]> m))).
Proof.
  intros Hd Hz Hi Hinv. unfold CompleteBillingDelivery. rewrite Hd, Hz. simpl.
  rewrite bool_decide_false by done. by rewrite Hinv.
Qed.

(** The push of the newest entry of the ledger, when the control-plane serves it. *)
Lemma push_newest n m c d :
  sys_inv n (m, c) → 0 <= n → deliveries m !! d_ID d = Some d → schedules m !! d_SubID d = Some (schedule_of d) →
  (∀ a, applied c (d_SubID d) = Some a → bs_Revision a < d_Revision d) →
  serving c (d_SubID d) → BillingState_Validate (billing_state d) = Ok tt →
  ∃ s c', SetBillingState (d_SubID d) (billing_state d) c = (Ok s, c') ∧
    ∃ a, applied c' (d_SubID d) = Some a ∧ agrees a (norm (billing_state d)).
Proof.
  intros Hi Hn Hd Hs Hlow Hserv Hval. pose proof (si_client _ _ Hi) as Hok. simpl in Hok.
  destruct (SetBillingState (d_SubID d) (billing_state d) c) as [r c'] eqn:Eset.
  assert (is_ok r = true) as Hr.
  { pose proof (Set_serves (d_SubID d) (billing_state d) c Hok Hserv Hval) as H. rewrite Eset in H. apply H.
    intros a Ha Hra. specialize (Hlow a Ha). simpl in Hra. lia. }
  destruct r as [s|]; [|done]. exists s, c'. split; [done|].
  pose proof (Set_accepted (d_SubID d) (billing_state d) c s Hok) as Hacc. rewrite Eset in Hacc. specialize (Hacc eq_refl).
  destruct (Set_fence (d_SubID d) (billing_state d) c Hok) as [Heq|(_ & a & Ha & Hag)]; rewrite Eset in *; simpl in *; [|eauto].
  exfalso. rewrite Heq in Hacc.
  pose proof (dok_sched _ _ _ _ (inv_deliveries _ _ (si_ledger _ _ Hi) _ _ Hd)) as (s0 & _ & [? _] & _).
  destruct (applied c (d_SubID d)) as [a|]; [specialize (Hlow a eq_refl)|]; simpl in *; lia.
Qed.

Lemma ledger_revision_above n m c sub a :
  sys_inv n (m, c) → applied c sub = Some a → ∃ s, schedules m !! sub = Some s ∧ bs_Revision a <= sc_Revision s.
Proof.
  intros Hi Ha. destruct (si_applied _ _ Hi _ _ Ha) as (k & d & Hk & <- & (Hr & _)). simpl in Hk.
  destruct (dok_sched _ _ _ _ (inv_deliveries _ _ (si_ledger _ _ Hi) _ _ Hk)) as (s & Hs & [_ Hb] & _).
  exists s. split; [done|]. rewrite norm_revision in Hr. simpl in Hr. lia.
Qed.

(** The expiry a payment of plan [p] at [t] gives. *)
Definition paid_until (sched : option Schedule) (t : Time) (p : Plan) : Time :=
  Z.max t (match sched with Some s => sc_ExpiresAt s | None => t end) + pl_Duration p.

Record credited (inv : Invoice) (p : Plan) (sub : string) (t : Time) (sched : option Schedule) (w' : W) : Prop := {
  cr_invoice : invoices (w_mem w') !! inv_ID inv = Some (with_inv_Status StatusSettled inv);
  cr_schedule : ∃ s, schedules (w_mem w') !! sub = Some s ∧ sc_Plan s = inv_Plan inv ∧
    sc_Status s = SubscriptionStatusActive ∧ sc_ExpiresAt s = paid_until sched t p ∧
    sc_GraceUntil s = sc_ExpiresAt s + pl_Grace p ∧
    ∃ a, applied (w_cp w') sub = Some a ∧ agrees a (norm (schedule_state s))
}.

(** The two steps before a push: the subscription is ensured, the credit is staged. *)
Lemma staged_inv n (w : W) inv p sub c1 :
  sys_inv n (sys w) → 0 <= n → n + 4 <= max_int64 →
  EnsureSubscription (inv_AnonUserID inv) (inv_Plan inv) (w_cp w) = (Ok sub, c1) →
  let op := OpStageInvoiceCredit (inv_ID inv) (s_ID sub) (inv_AnonUserID inv) (w_clock w) (pl_Duration p) (pl_Grace p) in
  sys_inv (n + 1) (w_mem w, c1) ∧ sys_inv (n + 1 + 1) (exec_op op (w_mem w), c1).
Proof.
  intros Hi Hn Hb Hens op. assert (sys_inv (n + 1) (w_mem w, c1)) as Hi1.
  { eapply (sys_step_inv _ (sys w)); [done|lia|].
    replace c1 with (EnsureSubscription (inv_AnonUserID inv) (inv_Plan inv) (w_cp w)).2 by (by rewrite Hens). constructor. }
  split; [done|]. eapply (sys_step_inv _ (w_mem w, c1)); [done|lia|]. by constructor.
Qed.

Lemma StageInvoiceCredit_fresh inv sub t p m :
  invoices m !! inv_ID inv = Some inv → invoiceDeliveries m !! inv_ID inv = None →
  let d := credit_target (schedules m !! sub) (inv_ID inv) (inv_Plan inv) sub (inv_AnonUserID inv) t (pl_Duration p) (pl_Grace p) in
  StageInvoiceCredit (inv_ID inv) sub (inv_AnonUserID inv) t (pl_Duration p) (pl_Grace p) m
  = (Ok d, set_invoiceDeliveries <[inv_ID inv := d_ID d]>
             (set_deliveries <[d_ID d := d]> (set_schedules <[sub := schedule_of d]> m))).
Proof. intros Hinv Hfresh d. unfold StageInvoiceCredit. by rewrite Hfresh, Hinv, bool_decide_true. Qed.

Lemma credit_target_expiry sched id plan sub u t p :
  d_ExpiresAt (credit_target sched id plan sub u t (pl_Duration p) (pl_Grace p)) = paid_until sched t p.
Proof.
  simpl. unfold paid_until, Add, After. destruct sched as [s|]; [destruct (Z.ltb_spec t (sc_ExpiresAt s))|]; lia.
Qed.

Lemma credit_target_revision n m c sub id plan u t dur gr :
  sys_inv n (m, c) → n + 4 <= max_int64 →
  let d := credit_target (schedules m !! sub) id plan sub u t dur gr in
  d_Revision d = match schedules m !! sub with Some s => sc_Revision s + 1 | None => 1 end ∧ 1 <= d_Revision d.
Proof.
  intros Hi Hb. simpl. destruct (schedules m !! sub) as [s|] eqn:Es; [|done].
  destruct (inv_schedules _ _ (si_ledger _ _ Hi) _ _ Es) as (_ & ? & _).
  rewrite wrap64_small by (unfold min_int64; lia). lia.
Qed.

Lemma credit_target_valid sched id plan sub u t p :
  let d := credit_target sched id plan sub u t (pl_Duration p) (pl_Grace p) in
  SubscriptionPlan_Valid plan = true → 0 < t → 0 < pl_Duration p → 0 <= pl_Grace p → 1 <= d_Revision d →
  BillingState_Validate (billing_state d) = Ok tt.
Proof.
  intros d Hplan Ht Hdur Hgrace Hrev. assert (0 < d_ExpiresAt d) as Hexp0.
  { subst d. rewrite credit_target_expiry. unfold paid_until. destruct sched; lia. }
  unfold BillingState_Validate. cbn [bs_Plan bs_Revision bs_Status bs_ExpiresAt bs_GraceUntil billing_state].
  replace (d_Plan d) with plan by done. rewrite Hplan, andb_false_r.
  rewrite (proj2 (Z.leb_gt _ _)) by lia. unfold IsZero, Before. rewrite (proj2 (Z.eqb_neq _ _)) by lia.
  rewrite (proj2 (Z.ltb_ge _ _)) by (simpl; unfold Add; lia). done.
Qed.

Lemma CreditInvoice_fresh n w inv p sub c1 :
  sys_inv n (sys w) → 0 <= n → n + 4 <= max_int64 →
  Catalog_Get catalog (inv_Plan inv) = Some p → catalog_wf catalog →
  invoices (w_mem w) !! inv_ID inv = Some inv → inv_ID inv ≠ "" → invoiceDeliveries (w_mem w) !! inv_ID inv = None →
  EnsureSubscription (inv_AnonUserID inv) (inv_Plan inv) (w_cp w) = (Ok sub, c1) → serving c1 (s_ID sub) →
  0 < w_clock w →
  ∃ s w', CreditInvoice catalog inv w = (Ok s, w') ∧
    credited inv p (s_ID sub) (w_clock w) (schedules (w_mem w) !! s_ID sub) w' ∧
    events (w_mem w') = events (w_mem w) ∧
    (∀ i, (∀ k, i ≠ lease_key k) → settled (w_mem w') !! i = settled (w_mem w) !! i) ∧
    (Forall (λ d, 0 <= d) (w_ticks w) → w_clock w <= w_clock w').
Proof.
  intros Hi Hn Hb Hp Hcat Hinv Hid Hfresh Hens Hserv Hclock.
  destruct (Hcat _ _ Hp) as (Hpid & Hplan & Hdur & Hgrace & _).
  unfold CreditInvoice. rewrite Hp. unfold WithUserLock.
  erewrite bind_ok by (by apply wrapping_ok, cp_ok). erewrite bind_ok by apply now_ok.
  simpl w_clock. destruct (staged_inv n w inv p sub c1 Hi Hn Hb Hens) as [Hi1 Hi2]. simpl exec_op in Hi2.
  pose proof (StageInvoiceCredit_fresh inv (s_ID sub) (w_clock w) p (w_mem w) Hinv Hfresh) as Hstage.
  destruct (credit_target_revision n (w_mem w) (w_cp w) (s_ID sub) (inv_ID inv) (inv_Plan inv) (inv_AnonUserID inv)
              (w_clock w) (pl_Duration p) (pl_Grace p) Hi Hb) as [Hrev Hrev1].
  pose proof (credit_target_expiry (schedules (w_mem w) !! s_ID sub) (inv_ID inv) (inv_Plan inv) (s_ID sub)
                (inv_AnonUserID inv) (w_clock w) p) as Hexp.
  pose proof (credit_target_valid (schedules (w_mem w) !! s_ID sub) (inv_ID inv) (inv_Plan inv) (s_ID sub)
                (inv_AnonUserID inv) (w_clock w) p Hplan Hclock Hdur Hgrace Hrev1) as Hvalid.
  cbv zeta in *. set (d := credit_target _ _ _ _ _ _ _ _) in *.
  rewrite Hstage in Hi2. simpl in Hi2. set (m2 := set_invoiceDeliveries _ _) in *.
  erewrite bind_ok by (apply wrapping_ok, store_ok; exact Hstage).
  destruct (push_newest (n + 1 + 1) m2 c1 d) as (s & c2 & Hset & Happ);
    [done|lia|simpl; by rewrite lookup_insert_eq..| |done|done|].
  { intros a Ha. destruct (ledger_revision_above _ _ _ _ _ Hi1 Ha) as (s0 & Hs0 & Hle).
    rewrite Hrev. change (d_SubID d) with (s_ID sub) in Hs0. rewrite Hs0. lia. }
  unfold Deliver. erewrite bind_ok by (apply wrapping_ok, cp_ok; exact Hset).
  erewrite bind_ok by apply now_ok.
  erewrite bind_ok.
  2:{ apply wrapping_ok, store_ok. apply (complete_fresh _ d m2 inv); simpl; rewrite ?lookup_insert_eq; done. }
  exists s. eexists. split; [reflexivity|]. split_and!.
  - destruct Happ as (a & Ha & Hag). split; simpl.
    + by rewrite lookup_insert_eq.
    + rewrite lookup_insert_eq. exists (schedule_of d). split_and!; try done. exists a. done.
  - done.
  - intros i Hik. simpl. apply lookup_delete_ne. intros Heq. by apply (Hik (d_ID d)).
  - intros Ht. simpl. destruct Ht as [|x l Hx [|y l' Hy Hl]]; simpl; lia.
Qed.

(** The guards of [settle] on an event for invoice [inv]. *)
Record pays (ev : Event) (inv : Invoice) : Prop := {
  py_invoice : ev_InvoiceID ev = inv_ID inv;
  py_status : ev_Status ev = StatusSettled;
  py_provider : ev_Provider ev = inv_Provider inv;
  py_currency : ev_Currency ev = "" ∨ ev_Currency ev = inv_Currency inv;
  py_amount : ev_Amount ev = "" ∨ GTE (ev_Amount ev) (inv_Amount inv) = Ok true
}.

Lemma too_old_world ev (w : W) : ∃ w', (too_old replayWindow ev w).2 = w' ∧ w_mem w' = w_mem w ∧ w_cp w' = w_cp w ∧
  (Forall (λ d, 0 <= d) (w_ticks w) → w_clock w <= w_clock w' ∧ Forall (λ d, 0 <= d) (w_ticks w')).
Proof.
  eexists. split; [done|]. unfold too_old. destruct (_ && _); [|done]. simpl. split_and!; [done..|].
  intros Ht. destruct Ht; simpl; split; try done; lia.
Qed.

Definition fresh_claim (t : Time) : memSettlement :=
  {| claimedAt := t; activatedAt := zero_time; leasedUntil := zero_time |}.

(** With its guards passed and the claim won, [settle] is CreditInvoice. *)
Lemma settle_credits ev inv (w : W) s w' :
  pays ev inv → invoices (w_mem w) !! inv_ID inv = Some inv → settled (w_mem w) !! inv_ID inv = None →
  CreditInvoice catalog inv (set_mem (set_settled <[inv_ID inv := fresh_claim (w_clock w)]> (w_mem w)) (ticked w)) = (Ok s, w') →
  settle catalog ev w = (Ok tt, w').
Proof.
  intros [Hpi Hps Hpp Hpc Hpa] Hinv Hclaim Hcredit. unfold settle. erewrite bind_ok.
  2:{ apply wrapping_ok, store_ok. unfold GetInvoice. rewrite Hpi, Hinv. reflexivity. }
  rewrite Hpp, bool_decide_true by done. cbn [negb].
  replace (negb (bool_decide (ev_Currency ev = "")) && negb (bool_decide (ev_Currency ev = inv_Currency inv))) with false.
  2:{ destruct Hpc as [->| ->]; [done|]. rewrite (bool_decide_true (inv_Currency inv = inv_Currency inv)) by done. by rewrite andb_false_r. }
  assert (∀ w0, w0 = set_mem (w_mem w) w → (t ←! now ; claimed ←! wrapping "payment: claim settlement" (store (ClaimSettlement t (inv_ID inv))) ;
    if negb claimed then mret tt else wrapping "payment: activate" (CreditInvoice catalog inv) ;;! mret tt) w0 = (Ok tt, w')) as Hcl.
  { intros ? ->. erewrite bind_ok by apply now_ok. erewrite bind_ok.
    2:{ apply wrapping_ok, store_ok. unfold ClaimSettlement. simpl. rewrite Hclaim. reflexivity. }
    cbn [negb]. by erewrite bind_ok by (apply wrapping_ok; exact Hcredit). }
  destruct Hpa as [->|Hge]; [by apply Hcl|].
  destruct (bool_decide (ev_Amount ev = "")); [by apply Hcl|]. rewrite Hge. by apply Hcl.
Qed.

(** C1: a confirmed payment buys exactly its period, once and everywhere. A fresh, genuine settling
    event for a pending invoice, with the control-plane up: Process succeeds; the invoice is settled,
    latched and the delivery recorded; and the schedule and the control-plane both show the plan
    active until max(now, current expiry) + duration, with the plan's grace after it, where now is an instant
    between the start and the end of the call. *)
Theorem Process_credits n w ev inv p sub c1 :
  sys_reaches n (sys w) → Z.of_nat n + 6 <= max_int64 → catalog_wf catalog →
  0 < w_clock w → Forall (λ d, 0 <= d) (w_ticks w) →
  (too_old replayWindow ev w).1 = Ok false → event_key (ev_Provider ev) (ev_ExternalID ev) ∉ events (w_mem w) →
  pays ev inv → invoices (w_mem w) !! inv_ID inv = Some inv → inv_ID inv ≠ "" → (∀ k, inv_ID inv ≠ lease_key k) →
  settled (w_mem w) !! inv_ID inv = None → invoiceDeliveries (w_mem w) !! inv_ID inv = None →
  Catalog_Get catalog (inv_Plan inv) = Some p →
  EnsureSubscription (inv_AnonUserID inv) (inv_Plan inv) (w_cp w) = (Ok sub, c1) → serving c1 (s_ID sub) →
  ∃ w' t, Process catalog replayWindow ev w = (Ok tt, w') ∧ w_clock w <= t <= w_clock w' ∧
    credited inv p (s_ID sub) t (schedules (w_mem w) !! s_ID sub) w' ∧
    is_Some (settled (w_mem w') !! inv_ID inv) ∧
    event_key (ev_Provider ev) (ev_ExternalID ev) ∈ events (w_mem w').
Proof.
  intros Hreach Hn Hcat Hclock Hticks Hfresh Hseen Hpays Hinv Hid Hnl Hclaim Hdel Hp Hens Hserv.
  pose proof (sys_reaches_inv _ _ Hreach ltac:(lia)) as Hi.
  destruct (too_old_world ev w) as (w0 & Hw0 & Hmem0 & Hcp0 & Hmono).
  assert (too_old replayWindow ev w = (Ok false, w0)) as Hnew.
  { rewrite <-Hfresh, <-Hw0. by destruct (too_old replayWindow ev w). }
  unfold Process. erewrite bind_ok by exact Hnew. clear Hw0 Hfresh Hnew. destruct (Hmono Hticks) as [Hc0 Hticks0]. clear Hmono.
  erewrite bind_ok.
  2:{ apply wrapping_ok, store_ok. unfold SeenEvent, gets. rewrite Hmem0, bool_decide_false by done. reflexivity. }
  rewrite (bool_decide_true (ev_Status ev = StatusSettled)) by apply Hpays.
  set (w1 := set_mem (w_mem w) w0).
  set (w2 := ticked w1).
  set (claim := fresh_claim (w_clock w1)).
  set (w3 := set_mem (set_settled <[inv_ID inv := claim]> (w_mem w)) w2).
  assert (w_clock w3 = w_clock w0 + default 0 (head (w_ticks w0))) as Hc3 by done.
  assert (w_clock w <= w_clock w3 ∧ Forall (λ d, 0 <= d) (w_ticks w3)) as [Hc Hticks3].
  { rewrite Hc3. change (w_ticks w3) with (tail (w_ticks w0)). destruct Hticks0; simpl; split; try done; lia. }
  assert (sys_inv (Z.of_nat n + 1) (sys w3)) as Hi3.
  { eapply (sys_step_inv _ (sys w)); [done|lia|]. unfold sys. simpl. rewrite Hcp0.
    replace (set_settled <[inv_ID inv:=claim]> (w_mem w)) with (exec_op (OpClaimSettlement (w_clock w1) (inv_ID inv)) (w_mem w)).
    2:{ simpl. unfold ClaimSettlement. by rewrite Hclaim. }
    by constructor. }
  destruct (CreditInvoice_fresh (Z.of_nat n + 1) w3 inv p sub c1) as (s & w4 & Hcredit & Hcr & Hev & Hset & Hend);
    try done || lia; [by simpl; rewrite Hcp0|].
  erewrite bind_ok by (by eapply (settle_credits ev inv w1)).
  eexists _, (w_clock w3). split; [by apply store_ok|]. split; [split; [done|exact (Hend Hticks3)]|]. destruct Hcr as [Hcr1 Hcr2]. split_and!.
  - split; [exact Hcr1|exact Hcr2].
  - exists claim. simpl. rewrite Hset by done. simpl. by rewrite lookup_insert_eq.
  - simpl. set_solver.
Qed.
End settle.

(** ** A concrete shop: one plan, one account, one pending invoice *)
Definition demo_plan : Plan := {|
  pl_ID := "basic"; pl_Duration := 1000; pl_Grace := 50; pl_Prices := {["BTC" := "0.01"]};
  pl_TrafficLimitBytes := 0; pl_SpeedLimitMbps := 0; pl_DeviceLimit := 0 |}.
Definition demo_catalog : gmap string Plan := {["basic" := demo_plan]}.
Lemma demo_catalog_wf : catalog_wf demo_catalog.
Proof.
  intros id p Hp. unfold demo_catalog in Hp. apply lookup_singleton_Some in Hp as [<- <-]. split_and!; done.
Qed.
Definition demo_user : User := {|
  u_ID := "u1"; u_TelegramID := None; u_Email := None; u_Status := "active"; u_RealityShortID := "ab";
  u_UUID := "uuid"; u_Hysteria2Password := "pw"; u_PrivateKey := ""; u_SubscriptionID := None;
  u_DeviceLimit := 0; u_QuotaBytes := 0; u_UsedBytes := 0; u_CreatedAt := 1; u_UpdatedAt := 1 |}.
Definition demo_fake : Fake := mkFake {["u1" := demo_user]} ∅ 0 0 7 (λ n, pretty n) 0.
Lemma demo_fake_start : sys_start demo_fake.
Proof.
  split; [split|].
  - intros id s. simpl. by rewrite lookup_empty.
  - intros n _. simpl. by rewrite lookup_empty.
  - simpl. intros a b H. by apply (inj pretty).
  - intros sub. simpl. unfold Fake_applied. simpl. by rewrite lookup_empty.
Qed.
Definition demo_shop : World Fake unit :=
  mkWorld (run (ord := key_order) [OpCreateInvoice demo_invoice] NewMemory) demo_fake tt 150 [3; 4] [] [].
Lemma demo_shop_reached : sys_reaches (ord := key_order) 1 (sys demo_shop).
Proof.
  exists demo_fake. split; [apply demo_fake_start|]. apply nsteps_once.
  exact (sys_store (ord := key_order) (OpCreateInvoice demo_invoice) NewMemory demo_fake eq_refl).
Qed.
Definition demo_event : Event := {|
  ev_Provider := "btcpay"; ev_ExternalID := "d1"; ev_InvoiceID := "i1"; ev_Status := StatusSettled;
  ev_Currency := ""; ev_Amount := "0.02"; ev_Confirmations := 0; ev_Timestamp := 140 |}.
Definition demo_ensured : result Subscription * Fake := Fake_EnsureSubscription "u1" "basic" demo_fake.
Definition demo_sub : Subscription := match demo_ensured.1 with Ok s => s | Err _ => zero_subscription end.

Lemma Process_credits_witness :
  ∃ w' t, Process demo_catalog Hour demo_event demo_shop = (Ok tt, w') ∧ 150 <= t <= w_clock w' ∧
    credited demo_invoice demo_plan (s_ID demo_sub) t (schedules (w_mem demo_shop) !! s_ID demo_sub) w' ∧
    is_Some (settled (w_mem w') !! "i1") ∧ "btcpay|d1" ∈ events (w_mem w').
Proof.
  apply (Process_credits (ord := key_order) demo_catalog Hour 1 demo_shop demo_event demo_invoice demo_plan demo_sub demo_ensured.2).
  - exact demo_shop_reached.
  - vm_compute. discriminate.
  - exact demo_catalog_wf.
  - reflexivity.
  - repeat constructor; discriminate.
  - vm_compute. reflexivity.
  - apply not_elem_of_empty.
  - split; [reflexivity|reflexivity|reflexivity|left; reflexivity|right; vm_compute; reflexivity].
  - vm_compute. reflexivity.
  - discriminate.
  - intros k. discriminate.
  - vm_compute. reflexivity.
  - vm_compute. reflexivity.
  - vm_compute. reflexivity.
  - vm_compute. reflexivity.
  - eexists. vm_compute. reflexivity.
Defined.
