(* ===== verification/BillingRecover.v ===== *)
(** * Recovery: what Reconcile guarantees

    The methods of the service are runs of the outbox steps; one recovery cycle with the control-plane
    up delivers everything the cycle leases; the report accounts for every leased row; and one path on
    which a claimed payment is never recovered. *)
From S2P Require Import Prelude GoBytes GoText Contracts Money BillingClient BillingStore BillingLedger BillingLeases BillingActivator BillingProcessor BillingPoller BillingOutbox BillingRefine BillingCredit.

Section recovery.
Context `{ord : !MapOrder} {C E : Type} `{BC : !BillingClient C} `{BL : !BillingLaws C}.
Context (catalog : Catalog) (replayWindow : Duration).
Abbreviation W := (World C E).

Lemma triple_reaches {A} b n (m : M W A) w :
  triple b (λ _, True) m (λ _ _, True) → sys_reaches n (sys w) → Z.of_nat n + b <= max_int64 → 0 <= b →
  ∃ k, Z.of_nat k <= b ∧ sys_reaches (n + k) (sys (m w).2).
Proof.
  intros Hm Hr Hb Hb0. pose proof (sys_reaches_inv _ _ Hr ltac:(lia)) as Hi.
  destruct (Hm (Z.of_nat n) w Hi ltac:(lia) Hb I) as [(k & Hk & Hs) _].
  exists k. split; [done|]. destruct Hr as (c0 & Hc0 & Hsteps). exists c0. split; [done|]. by eapply nsteps_trans.
Qed.

(** C5: the service refines the outbox. Run from any reachable state, CreditInvoice, Process, Reconcile
    and the sweeper's RunOnce are bounded sequences of outbox steps, whatever the control-plane answers
    and wherever they fail: so the invariants of the outbox hold after any run of the service. *)
Theorem service_refines_outbox n (w : W) :
  sys_reaches n (sys w) →
  (∀ inv, Z.of_nat n + 4 <= max_int64 →
     ∃ k, Z.of_nat k <= 4 ∧ sys_reaches (n + k) (sys (CreditInvoice catalog inv w).2)) ∧
  (∀ ev, Z.of_nat n + 7 <= max_int64 →
     ∃ k, Z.of_nat k <= 7 ∧ sys_reaches (n + k) (sys (Process catalog replayWindow ev w).2)) ∧
  (∀ ot lf limit, 0 < limit → Z.of_nat n + (2 + 4 * limit) <= max_int64 →
     ∃ k, Z.of_nat k <= 2 + 4 * limit ∧ sys_reaches (n + k) (sys (Reconcile catalog ot lf limit w).2)) ∧
  (let b := 3 * Z.of_nat (size (schedules (w_mem w))) in Z.of_nat n + b <= max_int64 →
     ∃ k, Z.of_nat k <= b ∧ sys_reaches (n + k) (sys (Sweeper_RunOnce w).2)).
Proof.
  intros Hr. split_and!.
  - intros inv Hb. apply (triple_reaches 4); [apply triple_CreditInvoice|done|done|done].
  - intros ev Hb. apply (triple_reaches 7); [apply triple_Process|done|done|done].
  - intros ot lf limit Hl Hb. apply (triple_reaches (2 + 4 * limit)); [by apply triple_Reconcile|done|done|lia].
  - intros b Hb. pose proof (sys_reaches_inv _ _ Hr ltac:(lia)) as Hi.
    destruct (triple_Sweeper (size (schedules (w_mem w))) (Z.of_nat n) w Hi ltac:(lia) Hb (le_n _)) as [(k & Hk & Hs) _].
    exists k. split; [done|]. destruct Hr as (c0 & Hc0 & Hsteps). exists c0. split; [done|]. by eapply nsteps_trans.
Qed.

(** ** One cycle with the control-plane up *)
Definition delivered (k : string) (s : Memory * C) : Prop :=
  ∃ d, deliveries s.1 !! k = Some d ∧ d_DeliveredAt d ≠ zero_time.

Lemma sys_step_delivered n s s' k :
  sys_inv n s → 0 <= n < max_int64 → sys_step s s' → delivered k s → delivered k s'.
Proof.
  intros Hi Hn Hstep (d & Hk & Hnz).
  assert (∀ op, delivered k (exec_op op s.1, s.2)) as Hop.
  { intros op. destruct (exec_op_target n op s.1 k d (si_ledger _ _ Hi) Hn Hk) as (d' & Hd' & [_ Hsame]).
    exists d'. split; [done|]. by rewrite (Hsame Hnz). }
  destruct Hstep as [op| | |k0 ? t]; simpl in *; [apply (Hop op)|by exists d..|apply (Hop (OpCompleteBillingDelivery t k0))].
Qed.
Lemma steps_delivered b n s s' k :
  sys_inv n s → 0 <= n → n + b <= max_int64 → steps_within b s s' → delivered k s → delivered k s'.
Proof.
  intros Hi Hn Hb (j & Hj & Hs). revert n Hi Hn Hb. assert (Z.of_nat j <= b) as Hjb by lia. clear Hj.
  revert b Hjb. induction Hs as [s|j s s1 s' Hstep Hs IH]; intros b Hjb n Hi Hn Hb Hd; [done|].
  apply (IH (b - 1) ltac:(lia) (n + 1)); [|lia|lia|].
  - by apply (sys_step_inv n s); [|lia|].
  - by apply (sys_step_delivered n s s1); [|lia|..].
Qed.

(** A world in which nothing fails: no cancellation, a running clock, and the control-plane serves the
    subscription of [d], whose state is valid. *)
Record healthy (w : W) : Prop := {
  hl_ctx : w_ctx w = []; hl_clock : 0 < w_clock w; hl_ticks : Forall (λ d, 0 <= d) (w_ticks w) }.
Definition deliverable (w : W) (d : BillingDelivery) : Prop :=
  in_ledger d (sys w) ∧ serving (w_cp w) (d_SubID d) ∧ BillingState_Validate (billing_state d) = Ok tt.

Lemma healthy_ticked w : healthy w → healthy (ticked w).
Proof.
  intros [? ? Ht]. split; simpl; [done| |]; destruct Ht as [|x l ? ?]; simpl; try done; lia.
Qed.

Lemma in_ledger_agrees n s d a :
  sys_inv n s → in_ledger d s → applied s.2 (d_SubID d) = Some a → bs_Revision a = d_Revision d →
  agrees a (norm (billing_state d)).
Proof.
  intros Hi (d' & Hk & Hd) Ha Hr.
  assert (d_SubID d' = d_SubID d ∧ billing_state d' = billing_state d ∧ d_Revision d' = d_Revision d) as (Hs & <- & Hrev)
    by (by rewrite Hd).
  apply (applied_is_entry n s (d_ID d) d' a Hi Hk); by rewrite ?Hs, ?Hrev.
Qed.

(** The world after one delivery. *)
Lemma Deliver_world n w d :
  sys_inv n (sys w) → 0 <= n → n + 2 <= max_int64 → healthy w → deliverable w d →
  let w' := (Deliver d w).2 in
  delivered (d_ID d) (sys w') ∧ healthy w' ∧ (∀ sub, serving (w_cp w) sub → serving (w_cp w') sub).
Proof.
  intros Hi Hn Hb Hw (Hin & Hserv & Hval).
  pose proof (si_client _ _ Hi) as Hok. simpl in Hok.
  assert (is_ok (SetBillingState (d_SubID d) (billing_state d) (w_cp w)).1 = true) as Hset.
  { apply Set_serves; [done..|]. intros a Ha Hr. by apply (in_ledger_agrees n (sys w)). }
  destruct (SetBillingState (d_SubID d) (billing_state d) (w_cp w)) as [[s|e] c'] eqn:Es; [|done].
  set (w1 := set_cp c' w).
  assert ((Deliver d w).2 = (wrapping "subscription: complete billing delivery"
            (store (CompleteBillingDelivery (w_clock w1) (d_ID d))) (ticked w1)).2) as ->.
  { unfold Deliver. erewrite bind_ok by (apply wrapping_ok, cp_ok; exact Es). erewrite bind_ok by apply now_ok.
    unfold mbind, M_bind. by destruct (wrapping _ _ _) as [[] ?]. }
  destruct Hin as (d' & Hk & Hd). simpl in Hk.
  assert (healthy (ticked w1)) as Hw1 by (apply healthy_ticked; by destruct Hw).
  assert (deliveries (CompleteBillingDelivery (w_clock w1) (d_ID d) (w_mem w)).2 !! d_ID d = Some d' ∧ d_DeliveredAt d' ≠ zero_time ∨
          deliveries (CompleteBillingDelivery (w_clock w1) (d_ID d) (w_mem w)).2 !! d_ID d = Some (with_d_DeliveredAt (w_clock w1) d'))
    as Hdel.
  { unfold CompleteBillingDelivery. rewrite Hk. unfold IsZero, zero_time. destruct (Z.eqb_spec (d_DeliveredAt d') 0); [right|by left].
    repeat case_match; simpl; by rewrite lookup_insert_eq. }
  unfold wrapping, store, zoom. simpl w_mem.
  destruct (CompleteBillingDelivery (w_clock w1) (d_ID d) (w_mem w)) as [r m'] eqn:Ec.
  assert (delivered (d_ID d) (m', c')) as Hfin.
  { destruct Hdel as [[? ?]|Hdel]; [by exists d'|]. eexists. split; [exact Hdel|]. simpl. pose proof (hl_clock _ Hw). unfold zero_time. lia. }
  destruct r as [u|e]; (split_and!; [done|by destruct Hw1|]); intros sub Hs; simpl;
    pose proof (Set_serving (d_SubID d) (billing_state d) (w_cp w) sub Hok Hs) as H; by rewrite Es in H.
Qed.

Lemma deliver_work_world d (w : W) : (try (deliver_work d) w).2 = (Deliver d w).2.
Proof. unfold try, deliver_work, staged, mbind, M_bind. destruct (Deliver d w) as [[] ?]; done. Qed.

Lemma recover_step {A} (work : A → M W unit) x l r errs w : w_ctx w = [] →
  ∃ r' errs', rr_Canceled r' = rr_Canceled r ∧
    recover work (x :: l) r errs w = recover work l r' errs' (try (work x) (ctx_Err w).2).2.
Proof.
  intros Hctx. simpl recover. unfold mbind, M_bind at 1. unfold ctx_Err. rewrite Hctx. simpl.
  unfold mbind, M_bind, try. destruct (work x _) as [[u|e] w1]; [by exists (recovered r), errs|].
  exists (failed e r), (errs ++ [e]). split; [|done]. unfold failed, note. by destruct (errors_as _ _) as [[[]]|].
Qed.

Lemma recover_delivers l : ∀ n w r errs,
  sys_inv n (sys w) → 0 <= n → n + 2 * Z.of_nat (length l) <= max_int64 → healthy w →
  (∀ d, d ∈ l → deliverable w d) →
  let w' := (recover deliver_work l r errs w).2 in
  (∀ d, d ∈ l → delivered (d_ID d) (sys w')) ∧ healthy w' ∧
  ∃ r' errs', (recover deliver_work l r errs w).1 = Ok (r', errs') ∧ rr_Canceled r' = rr_Canceled r.
Proof.
  induction l as [|d l IH]; intros n w r errs Hi Hn Hb Hw Hl.
  { split_and!; [by intros d ?%elem_of_nil|done|by exists r, errs]. }
  simpl length in Hb. pose proof (hl_ctx _ Hw) as Hctx.
  destruct (recover_step deliver_work d l r errs w Hctx) as (r2 & errs2 & <- & ->).
  set (w0 := (ctx_Err w).2). rewrite deliver_work_world.
  assert (sys w0 = sys w) as Hsys by done.
  assert (healthy w0) as Hw0 by (destruct Hw; split; simpl; [by rewrite Hctx|done|done]).
  assert (deliverable w0 d) as Hd by (apply Hl; by left).
  destruct (Deliver_world n w0 d) as (Hdel & Hw1 & Hserv); [done|done|lia|done|done|].
  pose proof (triple_Deliver d n w0 Hi Hn ltac:(lia) (proj1 Hd)) as [Hsteps _].
  set (w1 := (Deliver d w0).2) in *.
  pose proof (steps_inv 2 n _ _ Hi Hn ltac:(lia) Hsteps) as Hi1.
  assert (∀ y, y ∈ l → deliverable w1 y) as Hl1.
  { intros y Hy. destruct (Hl y ltac:(by right)) as (H1 & H2 & H3). split_and!; [|by apply Hserv|done].
    by apply (steps_in_ledger 2 n (sys w0)); [|lia|lia|..]. }
  destruct (IH (n + 2) w1 r2 errs2 Hi1 ltac:(lia) ltac:(lia) Hw1 Hl1) as (Ha & Hb' & Hc).
  split_and!; [|done|done]. intros y [->|Hy]%elem_of_cons; [|by apply Ha].
    destruct (triple_deliver_all l r2 errs2 (n + 2) w1 Hi1 ltac:(lia) ltac:(lia)) as [Hs2 _]; [intros x Hx; apply Hl1, Hx|].
    by apply (steps_delivered (2 * Z.of_nat (length l)) (n + 2) _ _ _ Hi1 ltac:(lia) ltac:(lia) Hs2).
Qed.

(** One cycle marks everything it leases. *)
(** A batch at least as large as the ledger leaves no leasable entry out. *)
Lemma batch_complete m t ot limit k d :
  Z.of_nat (size (deliveries m)) <= limit → 0 < limit → deliveries m !! k = Some d → leasable m t ot d = true →
  d ∈ limited limit (delivery_list m t ot).
Proof.
  intros Hsize Hlim Hk Hlease. unfold limited. rewrite (proj2 (Z.ltb_lt _ _) Hlim), take_ge.
  - apply elem_of_delivery_list. split; [by exists k|done].
  - unfold delivery_list. rewrite length_sort_slice. etrans; [apply length_filter|].
    rewrite length_fmap, length_range. lia.
Qed.

Section cycle.
Context (n : nat) (w : W) (ot : Time) (lf : Duration) (limit : Z).
Context (Hr : sys_reaches n (sys w)) (Hb : Z.of_nat n + (2 + 4 * limit) <= max_int64) (Hw : healthy w).
Context (Hsize : Z.of_nat (size (deliveries (w_mem w))) <= limit) (Hlim : 0 < limit).
Context (Hserv : ∀ k d, deliveries (w_mem w) !! k = Some d → leasable (w_mem w) (w_clock w) ot d = true →
   serving (w_cp w) (d_SubID d) ∧ BillingState_Validate (billing_state d) = Ok tt).

Lemma Reconcile_delivered k d :
  deliveries (w_mem w) !! k = Some d → leasable (w_mem w) (w_clock w) ot d = true →
  delivered k (sys (Reconcile catalog ot lf limit w).2).
Proof.
  intros Hk Hlease.
  pose proof (sys_reaches_inv _ _ Hr ltac:(lia)) as Hi.
  pose proof (dok_id _ _ _ _ (inv_deliveries _ _ (si_ledger _ _ Hi) _ _ Hk)) as Hid.
  unfold Reconcile. rewrite (proj2 (Z.ltb_lt _ _) Hlim). erewrite bind_ok by apply now_ok.
  set (w0 := ticked w). set (ds := limited limit (delivery_list (w_mem w) (w_clock w) ot)).
  set (m1 := (LeaseBillingDeliveries (w_clock w) ot lf limit (w_mem w)).2).
  erewrite bind_ok.
  2:{ unfold try. erewrite store_ok by (rewrite LeaseBillingDeliveries_unfold; reflexivity). reflexivity. }
  fold ds. set (w1 := set_mem _ w0).
  assert (w_mem w1 = m1) as Hm1 by (subst m1; by rewrite LeaseBillingDeliveries_unfold).
  assert (sys_inv (Z.of_nat n + 1) (sys w1)) as Hi1.
  { eapply (sys_step_inv _ (sys w)); [done|lia|]. unfold sys. rewrite Hm1. exact (sys_store (OpLeaseBillingDeliveries (w_clock w) ot lf limit) (w_mem w) (w_cp w) eq_refl). }
  assert (healthy w1) as Hw1 by (destruct (healthy_ticked w Hw); by split).
  assert (Z.of_nat (length ds) <= limit) as Hlen by (by apply length_limited).
  assert (∀ x, x ∈ ds → deliverable w1 x) as Hds.
  { intros x Hx. apply elem_of_limited, elem_of_delivery_list in Hx as [(kx & Hkx) Hlx].
    destruct (Hserv _ _ Hkx Hlx) as [? ?]. split_and!; [|done|done].
    pose proof (dok_id _ _ _ _ (inv_deliveries _ _ (si_ledger _ _ Hi) _ _ Hkx)) as Hidx.
    exists x. simpl. rewrite Hidx. split; [done|by destruct x]. }
  destruct (recover_delivers ds (Z.of_nat n + 1) w1 (leased (length ds) zero_report) [] Hi1 ltac:(lia) ltac:(lia) Hw1 Hds)
    as (Hdel & Hw2 & r' & errs' & Hres & Hcan).
  specialize (Hdel d (batch_complete (w_mem w) (w_clock w) ot limit k d Hsize Hlim Hk Hlease)).
  rewrite Hid in Hdel.
  assert (steps_within (2 * Z.of_nat (length ds)) (sys w1) (sys (recover deliver_work ds (leased (length ds) zero_report) [] w1).2)) as Hs2.
  { by destruct (triple_deliver_all ds (leased (length ds) zero_report) [] (Z.of_nat n + 1) w1 Hi1 ltac:(lia) ltac:(lia)) as [Hs2 _]; [intros x Hx; apply Hds, Hx|]. }
  pose proof (steps_inv (2 * Z.of_nat (length ds)) (Z.of_nat n + 1) _ _ Hi1 ltac:(lia) ltac:(lia) Hs2) as Hi2.
  set (w2 := (recover deliver_work ds (leased (length ds) zero_report) [] w1).2) in *.
  assert (recover deliver_work ds (leased (length ds) zero_report) [] w1 = (Ok (r', errs'), w2)) as Hrec
    by (subst w2; by destruct (recover _ _ _ _ _); simpl in *; subst).
  erewrite bind_ok by exact Hrec. cbv beta iota. rewrite Hcan. simpl rr_Canceled. cbn iota. simpl andb.
  change (limited limit (delivery_list (w_mem w0) (w_clock w) ot)) with ds. change (rr_Canceled (leased (length ds) zero_report)) with false. cbn [andb].
  destruct (Z.leb_spec (limit - Z.of_nat (length ds)) 0); [exact Hdel|].
  destruct (triple_recover_stuck catalog ot lf (limit - Z.of_nat (length ds)) r' errs' ltac:(lia) (Z.of_nat n + 1 + 2 * Z.of_nat (length ds)) w2 Hi2 ltac:(lia) ltac:(lia) I) as [Hs3 _].
  by apply (steps_delivered (1 + 4 * (limit - Z.of_nat (length ds))) (Z.of_nat n + 1 + 2 * Z.of_nat (length ds)) _ _ _ Hi2 ltac:(lia) ltac:(lia) Hs3).
Qed.

Lemma Reconcile_marks k d :
  deliveries (w_mem w) !! k = Some d → leasable (w_mem w) (w_clock w) ot d = true →
  ∃ d', deliveries (w_mem (Reconcile catalog ot lf limit w).2) !! k = Some d' ∧ d_DeliveredAt d' ≠ zero_time ∧
        d' = with_d_DeliveredAt (d_DeliveredAt d') d.
Proof.
  intros Hk Hlease. destruct (Reconcile_delivered k d Hk Hlease) as (d2 & Hk2 & Hnz). simpl in Hk2.
  pose proof (sys_reaches_inv _ _ Hr ltac:(lia)) as Hi.
  pose proof (dok_id _ _ _ _ (inv_deliveries _ _ (si_ledger _ _ Hi) _ _ Hk)) as Hid.
  destruct (triple_Reconcile catalog ot lf limit Hlim (Z.of_nat n) w Hi ltac:(lia) Hb I) as [Hsteps _].
  assert (in_ledger d (sys w)) as Hin by (exists d; simpl; rewrite Hid; split; [done|by destruct d]).
  destruct (steps_in_ledger _ _ _ _ d Hi ltac:(lia) Hb Hsteps Hin) as (d' & Hk' & Hd'). rewrite Hid in Hk'. simpl in Hk'.
  exists d'. by simplify_eq.
Qed.
End cycle.

(** No credit is lost to an outage. Whatever crashed, timed out or was lost before, one Reconcile
    cycle with the control-plane up again delivers every ledger entry that is old enough, not leased
    and within the batch limit: each one keeps its target and is marked delivered. *)
Theorem Reconcile_delivers n w ot lf limit :
  sys_reaches n (sys w) → Z.of_nat n + (2 + 4 * limit) <= max_int64 → healthy w →
  Z.of_nat (size (deliveries (w_mem w))) <= limit → 0 < limit →
  (∀ k d, deliveries (w_mem w) !! k = Some d → leasable (w_mem w) (w_clock w) ot d = true →
     serving (w_cp w) (d_SubID d) ∧ BillingState_Validate (billing_state d) = Ok tt) →
  ∀ k d, deliveries (w_mem w) !! k = Some d → leasable (w_mem w) (w_clock w) ot d = true →
    ∃ d', deliveries (w_mem (Reconcile catalog ot lf limit w).2) !! k = Some d' ∧ d_DeliveredAt d' ≠ zero_time ∧
          d' = with_d_DeliveredAt (d_DeliveredAt d') d.
Proof. apply Reconcile_marks. Qed.

(** C4: recovery catches the control-plane up. If every undelivered entry can be leased and delivered,
    then after one cycle the control-plane has applied, for every subscription scheduled before it, a
    state at least as new as that schedule; and it is the schedule's own state when no newer one exists. *)
Theorem recovery_catches_up n w ot lf limit :
  sys_reaches n (sys w) → Z.of_nat n + (2 + 4 * limit) <= max_int64 → healthy w →
  Z.of_nat (size (deliveries (w_mem w))) <= limit → 0 < limit →
  (∀ k d, deliveries (w_mem w) !! k = Some d → d_DeliveredAt d = zero_time →
     leasable (w_mem w) (w_clock w) ot d = true ∧
     serving (w_cp w) (d_SubID d) ∧ BillingState_Validate (billing_state d) = Ok tt) →
  ∀ sub s, schedules (w_mem w) !! sub = Some s →
    ∃ a, applied (w_cp (Reconcile catalog ot lf limit w).2) sub = Some a ∧ sc_Revision s <= bs_Revision a ∧
         (bs_Revision a = sc_Revision s → agrees a (norm (schedule_state s))).
Proof.
  intros Hr Hb Hw Hsize Hlim Hall sub s Hs.
  pose proof (sys_reaches_inv _ _ Hr ltac:(lia)) as Hi.
  destruct (inv_schedules _ _ (si_ledger _ _ Hi) _ _ Hs) as (Hsub & Hrev & k & d & Hk & Hds). simpl in Hk.
  destruct (triple_Reconcile catalog ot lf limit Hlim (Z.of_nat n) w Hi ltac:(lia) Hb I) as [Hsteps _].
  pose proof (steps_inv _ _ _ _ Hi ltac:(lia) Hb Hsteps) as Hi'.
  set (w' := (Reconcile catalog ot lf limit w).2) in *.
  assert (∃ d', deliveries (w_mem w') !! k = Some d' ∧ d_DeliveredAt d' ≠ zero_time ∧ d' = with_d_DeliveredAt (d_DeliveredAt d') d)
    as (d' & Hk' & Hnz & Hd').
  { destruct (decide (d_DeliveredAt d = zero_time)) as [Hz|Hnz].
    - apply (Reconcile_marks n); try done; [|by apply (Hall k)].
      intros k0 d0 Hk0 Hl0. apply (Hall k0 d0 Hk0). unfold leasable in Hl0.
      apply andb_true_iff in Hl0 as [Hl0 _]. unfold IsZero in Hl0. unfold zero_time.
      destruct (Z.eqb_spec (d_DeliveredAt d0) 0); [done|]. done.
    - assert (delivered k (sys w')) as (d' & Hk' & Hnz').
      { apply (steps_delivered (2 + 4 * limit) (Z.of_nat n) (sys w)); try done || lia. by exists d. }
      destruct (steps_in_ledger _ _ _ _ d Hi ltac:(lia) Hb Hsteps) as (d2 & Hk2 & Hd2).
      { pose proof (dok_id _ _ _ _ (inv_deliveries _ _ (si_ledger _ _ Hi) _ _ Hk)) as Hid.
        exists d. simpl. rewrite Hid. split; [done|by destruct d]. }
      rewrite (dok_id _ _ _ _ (inv_deliveries _ _ (si_ledger _ _ Hi) _ _ Hk)) in Hk2.
      exists d'. simpl in *. simplify_eq. done. }
  assert (d_SubID d' = sub ∧ d_Revision d' = sc_Revision s ∧ billing_state d' = schedule_state s) as (Hs' & Hr' & Hst).
  { rewrite Hd'. simpl. rewrite <-Hsub, <-Hds. done. }
  pose proof (si_delivered _ _ Hi' _ _ Hk' Hnz) as Hge. rewrite Hs', Hr' in Hge. simpl in Hge.
  destruct (applied (w_cp w') sub) as [a|] eqn:Ha; [|simpl in Hge; lia]. exists a. split; [done|]. split; [done|].
  intros Heq. rewrite <-Hst. apply (applied_is_entry (Z.of_nat n + (2 + 4 * limit)) (sys w') k d' a Hi' Hk'); simpl; by rewrite ?Hs', ?Hr'.
Qed.

(** A claim whose invoice leaves "pending" is stranded. Once an invoice is claimed and its status is
    no longer pending (a provider's expired or invalid notice flips it unguarded), no event about it
    ever changes the entitlement ledger again and no recovery cycle ever leases it: if its credit was
    not staged by then, the confirmed payment is never credited. *)
Theorem flipped_claim_is_stranded (w : W) i inv s :
  invoices (w_mem w) !! i = Some inv → inv_ID inv = i → inv_Status inv ≠ StatusPending → settled (w_mem w) !! i = Some s →
  (∀ ev, ev_InvoiceID ev = i →
     ledger_of (w_mem (Process catalog replayWindow ev w).2) = ledger_of (w_mem w)) ∧
  (∀ t ot lf limit out m', LeaseStuckSettlements t ot lf limit (w_mem w) = (Ok out, m') →
     ∀ r, r ∈ out → st_InvoiceID r ≠ i).
Proof.
  intros Hinv Hid Hst Hclaim. split.
  - intros ev Hev. unfold Process, mbind, M_bind at 1.
    destruct (too_old_world replayWindow ev w) as (w0 & Hw0 & Hmem0 & _ & _).
    destruct (too_old replayWindow ev w) as [[stale|e] w0'] eqn:Eo; simpl in Hw0; subst w0'; [|simpl; by rewrite Hmem0].
    destruct stale; [simpl; by rewrite Hmem0|].
    unfold M_bind at 1, wrapping at 1, SeenEvent, gets, store at 1, zoom. rewrite Hmem0.
    destruct (bool_decide _); [done|].
    assert (∀ w2 : W, w_mem w2 = w_mem w → ledger_of (w_mem (settle catalog ev w2).2) = ledger_of (w_mem w)) as Hsettle.
    { intros w2 Hm2. unfold settle, mbind, M_bind at 1, wrapping at 1, GetInvoice, store at 1, zoom.
      rewrite Hm2, Hev, Hinv. destruct (negb _); [done|]. destruct (_ && _); [done|].
      assert (∀ w3 : W, w_mem w3 = w_mem w → ledger_of (w_mem ((
        t ←! now ; claimed ←! wrapping "payment: claim settlement" (store (ClaimSettlement t (inv_ID inv))) ;
        if negb claimed then mret tt else wrapping "payment: activate" (CreditInvoice catalog inv) ;;! mret tt) w3).2)
        = ledger_of (w_mem w)) as Hc.
      { intros w3 Hm3. unfold mbind, M_bind at 1, now. unfold M_bind at 1, wrapping at 1, ClaimSettlement, store at 1, zoom.
        simpl. rewrite Hm3, Hid, Hclaim. simpl. done. }
      destruct (bool_decide _); [by apply Hc|]. destruct (GTE _ _) as [[]|]; [by apply Hc| |done].
      simpl. unfold mbind, M_bind, ignore, store, zoom, SetInvoiceStatus. simpl. by rewrite Hid, Hinv. }
    assert (∀ st : Status, ∀ w2 : W, w_mem w2 = w_mem w →
      ledger_of (w_mem ((ignore (store (SetInvoiceStatus (ev_InvoiceID ev) st)) ;;!
        store (RecordEvent (ev_Provider ev) (ev_ExternalID ev))) w2).2) = ledger_of (w_mem w)) as Hflip.
    { intros st w2 Hm2. unfold mbind, M_bind, ignore, store, zoom, SetInvoiceStatus. simpl. rewrite Hm2, Hev, Hinv. done. }
    destruct (bool_decide _).
    { unfold mbind, M_bind. pose proof (Hsettle (set_mem (w_mem w) w0) eq_refl) as Hs.
      destruct (settle catalog ev (set_mem (w_mem w) w0)) as [[u|e] w3]; simpl in *; [|done].
      by rewrite <-Hs. }
    destruct (bool_decide _); [by apply Hflip|]. destruct (bool_decide _); [by apply Hflip|]. done.
  - intros t ot lf limit out m' Hl r Hr Heq. rewrite LeaseStuckSettlements_unfold in Hl. injection Hl as <- _.
    apply list_elem_of_fmap in Hr as ([i' s'] & -> & Hin). simpl in Heq. subst i'.
    apply elem_of_limited, elem_of_stuck_list in Hin as [_ Hstuck]. unfold stuck in Hstuck. simpl in Hstuck.
    rewrite Hinv in Hstuck. unfold is_pending in Hstuck. by rewrite bool_decide_false in Hstuck.
Qed.
End recovery.

(** ** Concrete runs of the outbox *)
Inductive sys_act :=
| ActStore (op : repo_op) | ActEnsure (u : string) (p : SubscriptionPlan) | ActPush (k : string)
| ActComplete (t : Time) (k : string).

Section perform.
Context `{ord : !MapOrder} {C : Type} `{BC : !BillingClient C} `{BL : !BillingLaws C}.
Definition perform (a : sys_act) (s : Memory * C) : option (Memory * C) :=
  match a with
  | ActStore op => if is_complete op then None else Some (exec_op op s.1, s.2)
  | ActEnsure u p => Some (s.1, (EnsureSubscription u p s.2).2)
  | ActPush k => d ← deliveries s.1 !! k; Some (s.1, (SetBillingState (d_SubID d) (billing_state d) s.2).2)
  | ActComplete t k => d ← deliveries s.1 !! k;
      if d_Revision d <=? revision_of (applied s.2 (d_SubID d))
      then Some (exec_op (OpCompleteBillingDelivery t k) s.1, s.2) else None
  end.
Fixpoint perform_all (l : list sys_act) (s : Memory * C) : option (Memory * C) :=
  match l with [] => Some s | a :: l' => perform a s ≫= perform_all l' end.

Lemma perform_step a s s' : perform a s = Some s' → sys_step s s'.
Proof.
  destruct s as [m c], a; unfold perform; cbn [fst snd].
  - destruct (is_complete op) eqn:Hop; [done|]. intros [= <-]. by constructor.
  - intros [= <-]. constructor.
  - destruct (deliveries m !! k) as [d|] eqn:Hk; [|done]. intros [= <-]. exact (sys_push k d m c Hk).
  - destruct (deliveries m !! k) as [d|] eqn:Hk; [|done]. unfold mbind, option_bind.
    destruct (Z.leb_spec (d_Revision d) (revision_of (applied c (d_SubID d)))); [|done]. intros [= <-].
    by apply (sys_complete k d).
Qed.
Lemma perform_all_steps l : ∀ s s', perform_all l s = Some s' → nsteps sys_step (length l) s s'.
Proof.
  induction l as [|a l IH]; intros s s'; simpl; [intros [= <-]; constructor|].
  destruct (perform a s) as [s1|] eqn:Ha; [|done]. intros Hl. econstructor; [by apply perform_step in Ha|by apply IH].
Qed.
End perform.

Definition demo_run (l : list sys_act) : Memory * Fake :=
  default (NewMemory, demo_fake) (perform_all (ord := key_order) l (NewMemory, demo_fake)).
Lemma demo_run_reached l :
  is_set (perform_all (ord := key_order) l (NewMemory, demo_fake)) = true → sys_reaches (ord := key_order) (length l) (demo_run l).
Proof.
  intros Hl. exists demo_fake. split; [apply demo_fake_start|]. apply perform_all_steps.
  unfold demo_run. by destruct (perform_all l _).
Qed.

(** Credit staged, control-plane not told yet; then pushed and completed. *)
Definition staged_acts : list sys_act := [
  ActStore (OpCreateInvoice demo_invoice); ActEnsure "u1" "basic";
  ActStore (OpStageInvoiceCredit "i1" (s_ID demo_sub) "u1" 110 1000 50)].
Definition drained_acts : list sys_act := staged_acts ++ [ActPush "invoice:i1"; ActComplete 130 "invoice:i1"].
Definition demo_staged : BillingDelivery :=
  credit_target None "i1" "basic" (s_ID demo_sub) "u1" 110 1000 50.
Definition staged_world : World Fake unit :=
  mkWorld (demo_run staged_acts).1 (demo_run staged_acts).2 tt 500 [] [] [].

Lemma control_plane_follows_ledger_witness :
  let a := {| bs_Plan := "basic"; bs_Revision := 1; bs_Status := SubscriptionStatusActive; bs_ExpiresAt := 1110; bs_GraceUntil := 1160 |} in
  let m := (demo_run drained_acts).1 in
  (∃ k d, deliveries m !! k = Some d ∧ d_SubID d = s_ID demo_sub ∧ agrees a (norm (BillingLaws := Fake_laws) (billing_state d))) ∧
  (∃ s, schedules m !! s_ID demo_sub = Some s ∧ bs_Revision a <= sc_Revision s) ∧
  (∀ k d, deliveries m !! k = Some d → d_SubID d = s_ID demo_sub → bs_Revision a = d_Revision d →
     agrees a (norm (BillingLaws := Fake_laws) (billing_state d))).
Proof.
  apply (control_plane_follows_ledger (ord := key_order) 5 (demo_run drained_acts).1 (demo_run drained_acts).2).
  - exact (demo_run_reached drained_acts eq_refl).
  - vm_compute. discriminate.
  - vm_compute. reflexivity.
Defined.

Lemma drained_outbox_agrees_witness :
  ∃ a, applied (demo_run drained_acts).2 (s_ID demo_sub) = Some a ∧ agrees a (norm (BillingLaws := Fake_laws) (schedule_state (schedule_of demo_staged))).
Proof.
  apply (drained_outbox_agrees (ord := key_order) 5 (demo_run drained_acts).1 (demo_run drained_acts).2).
  - exact (demo_run_reached drained_acts eq_refl).
  - vm_compute. discriminate.
  - assert (deliveries (demo_run drained_acts).1 = {["invoice:i1" := with_d_DeliveredAt 130 demo_staged]}) as Hd
      by (vm_compute; reflexivity).
    intros k d Hk. rewrite Hd in Hk. apply lookup_singleton_Some in Hk as [_ <-]. discriminate.
  - vm_compute. reflexivity.
Defined.

Lemma service_refines_outbox_witness :
  ∃ k, Z.of_nat k <= 7 ∧ sys_reaches (ord := key_order) (3 + k) (sys (Process demo_catalog Hour demo_event staged_world).2).
Proof.
  apply (service_refines_outbox (ord := key_order) demo_catalog Hour 3 staged_world).
  - exact (demo_run_reached staged_acts eq_refl).
  - vm_compute. discriminate.
Defined.

Lemma staged_world_deliveries : deliveries (w_mem staged_world) = {["invoice:i1" := demo_staged]}.
Proof. vm_compute. reflexivity. Qed.
Lemma staged_world_healthy : healthy staged_world.
Proof. split; [reflexivity|reflexivity|constructor]. Qed.

Lemma Reconcile_delivers_witness :
  ∃ d', deliveries (w_mem (Reconcile (ord := key_order) demo_catalog 400 60 5 staged_world).2) !! "invoice:i1" = Some d' ∧
    d_DeliveredAt d' ≠ zero_time ∧ d' = with_d_DeliveredAt (d_DeliveredAt d') demo_staged.
Proof.
  apply (Reconcile_delivers (ord := key_order) demo_catalog 3 staged_world 400 60 5).
  - exact (demo_run_reached staged_acts eq_refl).
  - vm_compute. discriminate.
  - exact staged_world_healthy.
  - vm_compute. discriminate.
  - reflexivity.
  - intros k d Hk _. rewrite staged_world_deliveries in Hk. apply lookup_singleton_Some in Hk as [_ <-].
    split; [eexists; vm_compute; reflexivity|vm_compute; reflexivity].
  - vm_compute. reflexivity.
  - vm_compute. reflexivity.
Defined.

Lemma recovery_catches_up_witness :
  ∃ a, applied (w_cp (Reconcile (ord := key_order) demo_catalog 400 60 5 staged_world).2) (s_ID demo_sub) = Some a ∧
    1 <= bs_Revision a ∧ (bs_Revision a = 1 → agrees a (norm (BillingLaws := Fake_laws) (schedule_state (schedule_of demo_staged)))).
Proof.
  apply (recovery_catches_up (ord := key_order) demo_catalog 3 staged_world 400 60 5) with (s := schedule_of demo_staged).
  - exact (demo_run_reached staged_acts eq_refl).
  - vm_compute. discriminate.
  - exact staged_world_healthy.
  - vm_compute. discriminate.
  - reflexivity.
  - intros k d Hk _. rewrite staged_world_deliveries in Hk. apply lookup_singleton_Some in Hk as [_ <-].
    split; [vm_compute; reflexivity|]. split; [eexists; vm_compute; reflexivity|vm_compute; reflexivity].
  - vm_compute. reflexivity.
Defined.

(** The control-plane is down when the payment is confirmed; then the provider marks the invoice invalid. *)
Definition outage_shop : World (Lossy Fake) unit :=
  mkWorld (w_mem demo_shop) (mkLossy demo_fake [LoseRequest]) tt 150 [] [] [].
Definition invalid_event : Event := {|
  ev_Provider := "btcpay"; ev_ExternalID := "d2"; ev_InvoiceID := "i1"; ev_Status := StatusInvalid;
  ev_Currency := ""; ev_Amount := ""; ev_Confirmations := 0; ev_Timestamp := 150 |}.
Definition flipped_shop : World (Lossy Fake) unit :=
  (Process demo_catalog Hour invalid_event (Process demo_catalog Hour demo_event outage_shop).2).2.
Lemma flipped_claim_is_stranded_witness :
  (Process demo_catalog Hour demo_event outage_shop).1 =
     Err (Wrap "payment: activate" (Wrap "subscription: ensure" (Errorf "controlplane: request failed"))) ∧
  invoiceDeliveries (w_mem flipped_shop) !! "i1" = None ∧
  (∀ ev, ev_InvoiceID ev = "i1" →
     ledger_of (w_mem (Process demo_catalog Hour ev flipped_shop).2) = ledger_of (w_mem flipped_shop)) ∧
  (∀ t ot lf limit out m', LeaseStuckSettlements (ord := key_order) t ot lf limit (w_mem flipped_shop) = (Ok out, m') →
     ∀ r, r ∈ out → st_InvoiceID r ≠ "i1").
Proof.
  split; [vm_compute; reflexivity|]. split; [vm_compute; reflexivity|].
  apply (flipped_claim_is_stranded (ord := key_order) demo_catalog Hour flipped_shop "i1" (with_inv_Status StatusInvalid demo_invoice)
           {| claimedAt := 150; activatedAt := zero_time; leasedUntil := zero_time |}).
  - vm_compute. reflexivity.
  - reflexivity.
  - discriminate.
  - vm_compute. reflexivity.
Defined.
