(* ===== verification/BillingHttp.v ===== *)
(** * Billing's HTTP API (services/billing/internal/httpapi)

    The invoice rate limiter (ratelimit.go): token buckets in float64, one per stripe, the caller id hashed (FNV-1a) to
    its stripe; and the handlers (handlers.go, security.go) with the signatures, tokens and limits they check. *)
From S2P Require Import Prelude GoBytes GoText GoFloat Contracts Money BillingClient BillingStore BillingActivator BillingProcessor BillingPoller.

Definition limiterStripes : Z := 256.
Definition defaultInvoiceBurst : float64 := of_int 10.
Definition defaultInvoiceRefillRate : float64 := of_int 1.

Record tokenBucket := { tb_tokens : float64; tb_capacity : float64; tb_refillRate : float64; tb_last : Time }.
Definition newTokenBucket (capacity refillPerSec : float64) (now : Time) : tokenBucket := {|
  tb_tokens := capacity; tb_capacity := capacity; tb_refillRate := refillPerSec; tb_last := now |}.

Definition refill (now : Time) (b : tokenBucket) : tokenBucket :=
  let elapsed := Seconds (Sub now (tb_last b)) in
  if flt (of_int 0) elapsed then
    {| tb_tokens := fmin (tb_capacity b) (fadd (tb_tokens b) (fmul elapsed (tb_refillRate b)));
       tb_capacity := tb_capacity b; tb_refillRate := tb_refillRate b; tb_last := now |}
  else b.
Definition take_token (b : tokenBucket) : bool * tokenBucket :=
  if fle (of_int 1) (tb_tokens b) then
    (true, {| tb_tokens := fsub (tb_tokens b) (of_int 1); tb_capacity := tb_capacity b;
              tb_refillRate := tb_refillRate b; tb_last := tb_last b |})
  else (false, b).
Definition bucket_allow (now : Time) (b : tokenBucket) : bool * tokenBucket := take_token (refill now b).

(** [fnv.New32a] *)
Definition fnv32a (key : string) : Z :=
  foldl (λ h b, (Z.lxor h b * 16777619) mod 2 ^ 32) 2166136261 (bytes_of key).

Definition stripedLimiter : Type := list tokenBucket.
(** [now i]: the reading of the clock for the [i]-th bucket *)
Definition newStripedLimiter (burst refillPerSec : float64) (now : nat → Time) : stripedLimiter :=
  (λ i, newTokenBucket burst refillPerSec (now i)) <$> seq 0 (Z.to_nat limiterStripes).
Definition stripe (key : string) : nat := Z.to_nat (fnv32a key mod limiterStripes).
Definition limiter_allow (key : string) (now : Time) (s : stripedLimiter) : bool * stripedLimiter :=
  match s !! stripe key with
  | None => (false, s)
  | Some b => let '(ok, b') := bucket_allow now b in (ok, <[stripe key := b']> s)
  end.

Example fnv_a : fnv32a "a" = 3826002220.
Proof. vm_compute. reflexivity. Qed.

(** ** The bucket counts whole tokens

    At the default burst and rate, for requests whole seconds apart, the float bucket is the integer one. *)
Definition int_bucket (n : Z) (last : Time) : tokenBucket := {|
  tb_tokens := of_int n; tb_capacity := defaultInvoiceBurst; tb_refillRate := defaultInvoiceRefillRate; tb_last := last |}.
Definition int_allow (k n : Z) : bool * Z :=
  let n := Z.min 10 (n + k) in if 1 <=? n then (true, n - 1) else (false, n).
(** Up to ten minutes between two requests of a stripe. *)
Definition max_gap : Z := 600.

#[local] Instance spec_float_eq_dec : EqDecision SpecFloat.spec_float.
Proof. solve_decision. Defined.

(** What [bucket_allow] does with [n] tokens after [k] seconds does not depend on the clock's origin. *)
Definition step_ok (n k : Z) : bool :=
  let e := Seconds (k * Second) in
  let t := if flt (of_int 0) e then fmin (of_int 10) (fadd (of_int n) (fmul e (of_int 1))) else of_int n in
  let '(ok, n') := int_allow k n in
  bool_decide (flt (of_int 0) e = (0 <? k)) && bool_decide (fle (of_int 1) t = ok) &&
  bool_decide ((if ok then fsub t (of_int 1) else t) = of_int n').
Lemma steps_ok : forallb (λ n, forallb (λ k, step_ok (Z.of_nat n) (Z.of_nat k)) (seq 0 601)) (seq 0 11) = true.
Proof. vm_compute. reflexivity. Qed.

Lemma bucket_allow_int n k last :
  0 <= n <= 10 → 0 <= k <= max_gap →
  bucket_allow (last + k * Second) (int_bucket n last) =
    ((int_allow k n).1, int_bucket (int_allow k n).2 (last + k * Second)).
Proof.
  intros Hn Hk. unfold max_gap in Hk.
  assert (step_ok n k = true) as Hok.
  { pose proof steps_ok as Ha. rewrite forallb_forall in Ha.
    specialize (Ha (Z.to_nat n) ltac:(apply in_seq; lia)). rewrite forallb_forall in Ha.
    specialize (Ha (Z.to_nat k) ltac:(apply in_seq; lia)). by rewrite !Z2Nat.id in Ha by lia. }
  unfold step_ok in Hok. unfold bucket_allow, refill, take_token.
  assert (Sub (last + k * Second) (tb_last (int_bucket n last)) = k * Second) as ->.
  { unfold Sub, min_int64, max_int64, Second, Millisecond, Microsecond. simpl tb_last. lia. }
  cbn [tb_tokens tb_capacity tb_refillRate tb_last int_bucket] in *.
  change defaultInvoiceBurst with (of_int 10). change defaultInvoiceRefillRate with (of_int 1).
  destruct (int_allow k n) as [ok n']. rewrite !andb_true_iff, !bool_decide_eq_true in Hok.
  destruct Hok as [[Hpos Hle] Hsub].
  destruct (flt (of_int 0) (Seconds (k * Second))); cbn [tb_tokens tb_capacity tb_refillRate tb_last int_bucket fst snd].
  - rewrite Hle. unfold int_bucket. destruct ok; by rewrite Hsub.
  - symmetry in Hpos. apply Z.ltb_ge in Hpos. assert (k = 0) as -> by lia.
    rewrite Hle. unfold int_bucket. rewrite Z.mul_0_l, Z.add_0_r.
    destruct ok; by rewrite Hsub.
Qed.

(** Requests of one stripe, each some whole seconds after the one before. *)
Fixpoint allowed (gaps : list Z) (last : Time) (b : tokenBucket) : list bool :=
  match gaps with
  | [] => []
  | k :: gaps' => let '(ok, b') := bucket_allow (last + k * Second) b in ok :: allowed gaps' (last + k * Second) b'
  end.
Fixpoint count_true (l : list bool) : Z := match l with [] => 0 | b :: l' => Z.b2z b + count_true l' end.
Definition sum_Z (l : list Z) : Z := foldr Z.add 0 l.

Lemma allowed_bound gaps : ∀ n last,
  0 <= n <= 10 → Forall (λ k, 0 <= k <= max_gap) gaps →
  count_true (allowed gaps last (int_bucket n last)) <= n + sum_Z gaps.
Proof.
  induction gaps as [|k gaps IH]; intros n last Hn Hg; [simpl; lia|].
  apply Forall_cons in Hg as [Hk Hg]. cbn [allowed]. rewrite bucket_allow_int by done.
  assert (0 <= (int_allow k n).2 <= 10 ∧ Z.b2z (int_allow k n).1 + (int_allow k n).2 <= n + k) as [Hn' Hle].
  { unfold int_allow. destruct (Z.leb_spec 1 (Z.min 10 (n + k))); simpl; lia. }
  specialize (IH _ (last + k * Second) Hn' Hg). simpl. simpl in IH. lia.
Qed.

(** One account cannot flood the gateways. From a fresh limiter, over any sequence of requests of one
    account that are whole seconds (at most ten minutes) apart, at most ten plus one per elapsed second are
    allowed; the float arithmetic of the bucket loses and gains nothing. *)
Theorem limiter_rate gaps start :
  Forall (λ k, 0 <= k <= max_gap) gaps →
  count_true (allowed gaps start (newTokenBucket defaultInvoiceBurst defaultInvoiceRefillRate start)) <= 10 + sum_Z gaps.
Proof. intros Hg. by apply (allowed_bound gaps 10 start). Qed.

Lemma limiter_rate_witness :
  count_true (allowed (replicate 12 0 ++ [3]) 1000 (newTokenBucket defaultInvoiceBurst defaultInvoiceRefillRate 1000)) <= 10 + 3.
Proof. apply (limiter_rate (replicate 12 0 ++ [3]) 1000). repeat constructor; discriminate. Defined.

(** ** The HTTP API of billing (services/billing/internal/httpapi: handlers.go, security.go)

    A handler is a computation on the service's world and its invoice limiter that returns the status
    and the body it writes. The JSON decoder of a request body is a parameter. *)
Record Request := { rq_Method : string; rq_Path : string; rq_Header : gmap string string; rq_Body : string }.
(** [r.Header.Get(name)] *)
Definition Header_Get (r : Request) (name : string) : string := default "" (rq_Header r !! name).

Record createInvoiceReq := { ci_AnonUserID : string; ci_Plan : string; ci_Currency : string; ci_Provider : string }.
Record createInvoiceResp := {
  co_InvoiceID : string; co_Provider : string; co_PayAddress : string; co_Amount : string; co_Currency : string;
  co_ExpiresAt : string; co_CheckoutURL : string }.
Record BillingPlanOffer := { of_ID : string; of_DurationSeconds : Z; of_GraceSeconds : Z; of_Prices : gmap string string }.
Record BillingInvoiceStatus := {
  is_InvoiceID : string; is_Plan : string; is_Status : string; is_Amount : string; is_Currency : string;
  is_CreatedAt : Time; is_ExpiresAt : Time }.

Inductive body :=
| BError (msg : string)
| BStatus (status : string)
| BInvoice (inv : createInvoiceResp)
| BPlans (items : list BillingPlanOffer)
| BInvoiceStatus (inv : BillingInvoiceStatus)
| BSummary (counts : InvoiceCounts) (recent : list (BillingInvoiceStatus * string)).
Record Response := { rs_Code : Z; rs_Body : body }.
Definition httpError (code : Z) (msg : string) : Response := {| rs_Code := code; rs_Body := BError msg |}.
Definition httpWrite (code : Z) (b : body) : Response := {| rs_Code := code; rs_Body := b |}.

(** ** security.go *)
Definition maxWebhookBody : Z := 2 ^ 20.
Definition webhookSignature (r : Request) : string :=
  let h name rest := if bool_decide (Header_Get r name = "") then rest else Header_Get r name in
  h "BTCPay-Sig" (h "X-Signature" (h "X-Webhook-Signature" "")).
Definition readLimitedBody (r : Request) : string :=
  if Z.of_nat (String.length (rq_Body r)) <=? maxWebhookBody then rq_Body r
  else String.substring 0 (Z.to_nat maxWebhookBody) (rq_Body r).

Definition validBearer (header token : string) : bool :=
  if bool_decide (token = "") || negb (HasPrefix header "Bearer ") then false
  else let got := TrimSpace (TrimPrefix header "Bearer ") in
       (String.length got =? String.length token)%nat && bool_decide (got = token).

Definition latestInvoiceAccount (path : string) : option string :=
  match Split (TrimPrefix path "/v1/accounts/") 47 with
  | [p0; p1; p2] => if bool_decide (p0 = "") || negb (bool_decide (p1 = "invoices")) || negb (bool_decide (p2 = "latest"))
                    then None else Some p0
  | _ => None
  end.

Definition invoiceStatus (inv : InvoiceOverview) : BillingInvoiceStatus := {|
  is_InvoiceID := ov_InvoiceID inv; is_Plan := ov_Plan inv; is_Status := ov_Status inv; is_Amount := ov_Amount inv;
  is_Currency := ov_Currency inv; is_CreatedAt := ov_CreatedAt inv; is_ExpiresAt := ov_ExpiresAt inv |}.

(** [fmt.Sprintf("%x", sha256.Sum256(...))] of the fields joined with a NUL *)
Definition invoiceRequestHash (req : createInvoiceReq) (amount provider : string) : string :=
  sha256_hex (bytes_of (join (string_of_bytes [0])
    [ci_AnonUserID req; ci_Plan req; ci_Currency req; amount; provider])).

Section handlers.
Context `{ord : !MapOrder} {C E : Type} `{BC : !BillingClient C} (catalog : Catalog) (replayWindow : Duration).
Abbreviation W := (World C E).
Context (registry : Registry W) (invoiceToken : string) (requireInvoiceAuth : bool).
Context (decode : string → option createInvoiceReq).

(** The service's world and the API's limiter. *)
Definition Api : Type := W * stripedLimiter.
Definition on_world {A} (m : M W A) : M Api A := zoom fst (λ w a, (w, a.2)) m.
Definition allow (key : string) : M Api bool := λ a,
  let '(t, w) := now a.1 in
  match t with
  | Ok t => let '(ok, l) := limiter_allow key t a.2 in (Ok ok, (w, l))
  | Err e => (Err e, (w, a.2))
  end.

Definition invoiceReadAuthorized (r : Request) : bool :=
  negb requireInvoiceAuth || validBearer (Header_Get r "Authorization") invoiceToken.

Definition health (r : Request) : M Api Response := mret (httpWrite 200 (BStatus "ok")).
Definition ready (r : Request) : M Api Response :=
  ping ←! try (on_world (store Ping)) ;
  mret (match ping with
        | Err _ => httpError 503 "database unavailable"
        | Ok _ => httpWrite 200 (BStatus "ready")
        end).

(** ** Reads *)
Definition offered_prices (p : Plan) : gmap string string :=
  filter (λ kv : string * string, is_ok (Select registry "" kv.1) = true) (pl_Prices p).
Definition offer (p : Plan) : option BillingPlanOffer :=
  let prices := offered_prices p in
  if (size prices =? 0)%nat then None
  else Some {| of_ID := pl_ID p; of_DurationSeconds := Z.quot (pl_Duration p) Second;
               of_GraceSeconds := Z.quot (pl_Grace p) Second; of_Prices := prices |}.
Definition listPlans (r : Request) : M Api Response :=
  mret (if negb (bool_decide (rq_Method r = "GET")) then httpError 405 "method not allowed"
        else if negb (invoiceReadAuthorized r) then httpError 401 "unauthorized"
        else httpWrite 200 (BPlans (omap offer (Catalog_List catalog)))).

Definition latestInvoice (r : Request) : M Api Response :=
  if negb (bool_decide (rq_Method r = "GET")) then mret (httpError 405 "method not allowed")
  else if negb (invoiceReadAuthorized r) then mret (httpError 401 "unauthorized")
  else match latestInvoiceAccount (rq_Path r) with
       | None => mret (httpError 404 "not found")
       | Some anonUserID =>
           inv ←! try (on_world (store (LatestInvoice anonUserID))) ;
           mret (match inv with
                 | Ok inv => httpWrite 200 (BInvoiceStatus (invoiceStatus inv))
                 | Err e => if errors_is e ErrNotFound then httpError 404 "invoice not found"
                            else httpError 503 "store unavailable"
                 end)
       end.

Definition operatorSummary (r : Request) : M Api Response :=
  if negb (bool_decide (rq_Method r = "GET")) then mret (httpError 405 "method not allowed")
  else if negb (invoiceReadAuthorized r) then mret (httpError 401 "unauthorized")
  else
    out ←! try (on_world (store (InvoiceSummary 50))) ;
    mret (match out with
          | Err _ => httpError 503 "store unavailable"
          | Ok (counts, recent) =>
              httpWrite 200 (BSummary counts ((λ inv, (invoiceStatus inv, ov_AnonUserID inv)) <$> recent))
          end).

(** ** Invoice creation *)
Definition complete_create (key : string) (inv : Invoice) : M W Invoice :=
  store (CompleteInvoiceCreate key inv) ;;! mret inv.
(** The tail of [resolveInvoiceIntent]: ask the provider for the order. *)
Definition recover_intent (gw : Gateway W) (intent : InvoiceIntent) (req : CreateInvoiceRequest) : M W Invoice :=
  match g_LookupInvoice gw with
  | None => fail ErrCreateAmbiguous
  | Some lookup =>
      found ←! lookup req ;
      match found with
      | None => fail ErrCreateAmbiguous
      | Some inv => complete_create (it_IdempotencyKey intent) inv
      end
  end.
Definition create_request (intent : InvoiceIntent) : CreateInvoiceRequest := {|
  req_OrderID := it_OrderID intent; req_AnonUserID := it_AnonUserID intent; req_Plan := it_Plan intent;
  req_Currency := it_Currency intent; req_Amount := it_Amount intent |}.
Definition resolveInvoiceIntent (intent : InvoiceIntent) : M W Invoice :=
  if bool_decide (it_State intent = "ready") then store (GetInvoice (it_OrderID intent))
  else if bool_decide (it_State intent = "failed") then fail ErrCreateRejected
  else match Registry_Get registry (it_Provider intent) with
  | None => fail ErrNoGateway
  | Some gw =>
      let req := create_request intent in
      let key := it_IdempotencyKey intent in
      began ←! (if bool_decide (it_State intent = "reserved") then store (BeginInvoiceCreate key) else mret false) ;
      if began : bool then
        res ←! try (g_CreateInvoice gw req) ;
        match res with
        | Ok inv => complete_create key inv
        | Err e => if errors_is e ErrCreateRejected then ignore (store (FailInvoiceCreate key)) ;;! fail e
                   else recover_intent gw intent req
        end
      else recover_intent gw intent req
  end.

Definition invoice_resp (inv : Invoice) : createInvoiceResp := {|
  co_InvoiceID := inv_ID inv; co_Provider := inv_Provider inv; co_PayAddress := inv_PayAddress inv;
  co_Amount := inv_Amount inv; co_Currency := inv_Currency inv; co_ExpiresAt := rfc3339 (inv_ExpiresAt inv);
  co_CheckoutURL := inv_PayAddress inv |}.

(** After the intent is known ([created]: by this request): check it is the same request, then resolve. *)
Definition answer_intent (req : createInvoiceReq) (amount : string) (reserved : result (InvoiceIntent * bool)) : M Api Response :=
  match reserved with
  | Err e => mret (if errors_is e ErrConflict then httpError 409 "Idempotency-Key already used with different parameters"
                   else httpError 500 "store error")
  | Ok (intent, created) =>
      if negb (bool_decide (ci_Provider req = "")) && negb (bool_decide (ci_Provider req = it_Provider intent))
      then mret (httpError 409 "Idempotency-Key already used with different parameters")
      else if negb (bool_decide (it_RequestHash intent = invoiceRequestHash req amount (it_Provider intent)))
      then mret (httpError 409 "Idempotency-Key already used with different parameters")
      else
        inv ←! try (on_world (resolveInvoiceIntent intent)) ;
        mret (match inv with
              | Err _ => httpError 502 "gateway result unresolved"
              | Ok inv => httpWrite (if created : bool then 201 else 200) (BInvoice (invoice_resp inv))
              end)
  end.
(** No intent under the key yet: price, pick a gateway, rate-limit, reserve. *)
Definition reserve_new (key : string) (req : createInvoiceReq) : M Api Response :=
  match Catalog_Price catalog (ci_Plan req) (ci_Currency req) with
  | None => mret (httpError 400 "no price for plan/currency")
  | Some amount =>
      match Select registry (ci_Provider req) (ci_Currency req) with
      | Err _ => mret (httpError 503 "no gateway for currency")
      | Ok gw =>
          ok ←! allow (ci_AnonUserID req) ;
          if negb ok then mret (httpError 429 "rate limited")
          else
            order ←! on_world idgen_New ;
            t ←! on_world now ;
            t' ←! on_world now ;
            reserved ←! try (on_world (store (ReserveInvoiceIntent t' {|
              it_IdempotencyKey := key; it_RequestHash := invoiceRequestHash req amount (g_Name gw);
              it_OrderID := order; it_Provider := g_Name gw; it_AnonUserID := ci_AnonUserID req;
              it_Plan := ci_Plan req; it_Currency := ci_Currency req; it_Amount := amount;
              it_State := ""; it_CreatedAt := t |}))) ;
            answer_intent req amount reserved
      end
  end.
Definition createInvoice (r : Request) : M Api Response :=
  if negb (bool_decide (rq_Method r = "POST")) then mret (httpError 405 "method not allowed")
  else if requireInvoiceAuth && negb (validBearer (Header_Get r "Authorization") invoiceToken)
  then mret (httpError 401 "unauthorized")
  else
    let key := TrimSpace (Header_Get r "Idempotency-Key") in
    if bool_decide (key = "") || (200 <? String.length key)%nat then mret (httpError 400 "valid Idempotency-Key required")
    else match decode (rq_Body r) with
    | None => mret (httpError 400 "invalid json")
    | Some req =>
        if bool_decide (ci_AnonUserID req = "") then mret (httpError 400 "anon_user_id required")
        else if negb (SubscriptionPlan_Valid (ci_Plan req)) then mret (httpError 400 "unknown plan")
        else if bool_decide (ci_Currency req = "") then mret (httpError 400 "currency required")
        else
          intent ←! try (on_world (store (GetInvoiceIntent key))) ;
          match intent with
          | Ok intent => answer_intent req (it_Amount intent) (Ok (intent, false))
          | Err e => if errors_is e ErrNotFound then reserve_new key req else mret (httpError 500 "store error")
          end
    end.

(** ** Webhooks *)
Definition terminal (e : error) : bool :=
  errors_is e ErrUnderpaid || errors_is e ErrStaleEvent || errors_is e ErrProviderMismatch || errors_is e ErrCurrencyMismatch.
Definition webhook (r : Request) : M Api Response :=
  if negb (bool_decide (rq_Method r = "POST")) then mret (httpError 405 "method not allowed")
  else
    let provider := TrimPrefix (rq_Path r) "/v1/webhooks/" in
    if bool_decide (provider = "") then mret (httpError 404 "provider required")
    else match Registry_Get registry provider with
    | None => mret (httpError 404 "unknown provider")
    | Some gw =>
        ev ←! try (on_world (g_ParseWebhook gw (webhookSignature r) (readLimitedBody r))) ;
        match ev with
        | Err _ => mret (httpError 401 "invalid webhook")
        | Ok ev =>
            res ←! try (on_world (Process catalog replayWindow ev)) ;
            mret (match res with
                  | Err e => if terminal e then httpWrite 200 (BStatus "rejected") else httpError 502 "processing failed"
                  | Ok _ => httpWrite 200 (BStatus "ok")
                  end)
        end
    end.
End handlers.
