(* ===== verification/BillingApi.v ===== *)
(** * What the gateways and the HTTP API of billing guarantee

    Authenticity of webhooks, the verdict of the on-chain check, gateway failover, the durable
    idempotency of invoice creation, and what loading the plan catalog checks. *)
From S2P Require Import Prelude GoBytes GoText GoFloat Contracts Money BillingClient BillingStore BillingLedger.
From S2P Require Import BillingActivator BillingProcessor BillingPoller BillingGateways BillingHttp BillingCredit.

(** ** Webhooks *)
Section webhooks.
Context {C E : Type} `{BC : !BillingClient C} (catalog : Catalog) (replayWindow : Duration).
Context (registry : Registry (World C E)).

(** The signature of a delivery is genuine for the secret of the gateway. *)
Definition genuine (secret signature body : string) : Prop := signature = hmac_hex secret body.

(** What a gateway accepts only after checking a keyed signature; [None]: it takes no webhooks. *)
Definition authenticates (gw : Gateway (World C E)) (check : option (string → string → Prop)) : Prop :=
  ∀ sig b (w : World C E),
    match check with
    | None => ∃ e, g_ParseWebhook gw sig b w = (Err e, w)
    | Some ok => ok sig b ∨ ∃ e, g_ParseWebhook gw sig b w = (Err e, w)
    end.

Lemma webhook_rejects gw check r (a : Api (C := C) (E := E)) :
  Registry_Get registry (TrimPrefix (rq_Path r) "/v1/webhooks/") = Some gw → authenticates gw check →
  match check with Some ok => ¬ ok (webhookSignature r) (readLimitedBody r) | None => True end →
  rq_Method r = "POST" → TrimPrefix (rq_Path r) "/v1/webhooks/" ≠ "" →
  webhook catalog replayWindow registry r a = (Ok (httpError 401 "invalid webhook"), a).
Proof.
  intros Hg Hauth Hbad Hpost Hprov. unfold webhook. rewrite Hpost, bool_decide_true by done. cbn [negb].
  rewrite bool_decide_false by done. rewrite Hg.
  destruct a as [w l]. specialize (Hauth (webhookSignature r) (readLimitedBody r) w).
  assert (∃ e, g_ParseWebhook gw (webhookSignature r) (readLimitedBody r) w = (Err e, w)) as [e He].
  { destruct check; [destruct Hauth; done|done]. }
  unfold mbind, M_bind, try, on_world, zoom. simpl. by rewrite He.
Qed.
End webhooks.

Lemma mock_authenticates {C E} secret currencies unmarshal gi si :
  authenticates (Mock.gateway (C := C) (E := E) secret currencies unmarshal gi si)
    (Some (genuine secret)).
Proof.
  intros sig b w. cbn [g_ParseWebhook Mock.gateway]. unfold Mock.ParseWebhook, genuine, Mock.Sign.
  case_bool_decide; [by left|]. right. eexists. reflexivity.
Qed.
Lemma btcpay_authenticates {C E} cfg unmarshal post get :
  authenticates (Btcpay.gateway (C := C) (E := E) cfg unmarshal post get)
    (Some (λ sig b, Btcpay.cfg_WebhookSecret cfg ≠ "" ∧ genuine (Btcpay.cfg_WebhookSecret cfg) (TrimPrefix sig "sha256=") b)).
Proof.
  intros sig b w. cbn [g_ParseWebhook Btcpay.gateway]. unfold Btcpay.ParseWebhook, genuine.
  case_bool_decide; [right; eexists; reflexivity|].
  case_bool_decide; [by left|]. right. eexists. reflexivity.
Qed.
Lemma onchain_authenticates {C E} currencies minConf status next :
  authenticates (Onchain.gateway (C := C) (E := E) currencies minConf status next) None.
Proof. intros sig b w. eexists. reflexivity. Qed.

(** C11: money moves only on authentic webhooks. A BTCPay delivery is answered 401 and leaves the store, the
    control-plane, the limiter and the clock untouched unless its signature is the HMAC-SHA256 of the very
    body under the configured, non-empty secret; a delivery to the on-chain gateway always is. *)
Theorem webhook_forgery_rejected {C E : Type} `{BC : !BillingClient C} catalog replayWindow
    (registry : Registry (World C E)) cfg unmarshal post get currencies minConf status next r a :
  rq_Method r = "POST" →
  (rq_Path r = "/v1/webhooks/btcpay" ∧
     Registry_Get registry "btcpay" = Some (Btcpay.gateway cfg unmarshal post get) ∧
     ¬ (Btcpay.cfg_WebhookSecret cfg ≠ "" ∧
        genuine (Btcpay.cfg_WebhookSecret cfg) (TrimPrefix (webhookSignature r) "sha256=") (readLimitedBody r)))
  ∨ (rq_Path r = "/v1/webhooks/onchain" ∧
     Registry_Get registry "onchain" = Some (Onchain.gateway currencies minConf status next)) →
  webhook catalog replayWindow registry r a = (Ok (httpError 401 "invalid webhook"), a).
Proof.
  intros Hpost [(Hp & Hg & Hbad)|(Hp & Hg)].
  - eapply webhook_rejects; [rewrite Hp; exact Hg|apply btcpay_authenticates|exact Hbad|done|by rewrite Hp].
  - eapply webhook_rejects; [rewrite Hp; exact Hg|apply onchain_authenticates|done|done|by rewrite Hp].
Qed.

Definition demo_btcpay_cfg : Btcpay.Config := {|
  Btcpay.cfg_BaseURL := "https://pay"; Btcpay.cfg_APIKey := "k"; Btcpay.cfg_StoreID := "s";
  Btcpay.cfg_WebhookSecret := "secret"; Btcpay.cfg_Currencies := ["BTC"] |}.
Definition demo_btcpay : Gateway (World Fake unit) :=
  Btcpay.gateway demo_btcpay_cfg
    (λ _, Some {| Btcpay.wb_DeliveryID := "d1"; Btcpay.wb_InvoiceID := "p1"; Btcpay.wb_Type := "InvoiceSettled";
                  Btcpay.wb_Timestamp := 0; Btcpay.wb_OrderID := "i1" |})
    (λ _, mret None) (λ _, mret None).
Definition demo_registry : Registry (World Fake unit) := Register demo_btcpay NewRegistry.
Definition webhook_request (signature : string) : Request := {|
  rq_Method := "POST"; rq_Path := "/v1/webhooks/btcpay"; rq_Header := {["BTCPay-Sig" := signature]}; rq_Body := "{}" |}.
Definition demo_api : World Fake unit * stripedLimiter := (demo_shop, []).
Lemma webhook_forgery_rejected_witness :
  webhook demo_catalog Hour demo_registry (webhook_request "sha256=00") demo_api
    = (Ok (httpError 401 "invalid webhook"), demo_api).
Proof.
  apply (webhook_forgery_rejected demo_catalog Hour demo_registry demo_btcpay_cfg
    (λ _, Some {| Btcpay.wb_DeliveryID := "d1"; Btcpay.wb_InvoiceID := "p1"; Btcpay.wb_Type := "InvoiceSettled";
                  Btcpay.wb_Timestamp := 0; Btcpay.wb_OrderID := "i1" |})
    (λ _, mret None) (λ _, mret None) [] 1 (λ _ _, mret ("", 0)) (λ _, mret "")).
  - reflexivity.
  - left. split; [reflexivity|]. split; [reflexivity|]. intros [_ H]. vm_compute in H. discriminate H.
Defined.

(** A genuine delivery does get through: the invoice is settled. *)
Example genuine_webhook_settles :
  let sig := "sha256=" +:+ hmac_hex "secret" "{}" in
  match webhook demo_catalog Hour demo_registry (webhook_request sig) demo_api with
  | (Ok r, a) => (rs_Code r, inv_Status <$> invoices (w_mem a.1) !! "i1")
  | _ => (0, None)
  end = (200, Some StatusSettled).
Proof. vm_compute. reflexivity. Qed.

(** ** The on-chain check *)
Section onchain_check.
Context {C E : Type} `{BC : !BillingClient C} (catalog : Catalog) (replayWindow : Duration) (onchain : OnChain).
Context (minConf : Z) (AddressStatus : string → string → M E (string * Z)).
Abbreviation W := (World C E).
Abbreviation check := (Onchain.CheckInvoice (C := C) minConf AddressStatus).

(** The chain answered, and what it shows does not pay the invoice. *)
Definition unpaid (inv : Invoice) (received : string) (confs : Z) : Prop :=
  confs < minConf ∨ GTE received (inv_Amount inv) = Ok false.
Definition paid_event (inv : Invoice) (received : string) (confs : Z) (t : Time) : Event := {|
  ev_Provider := "onchain"; ev_ExternalID := "onchain:" +:+ inv_ID inv; ev_InvoiceID := inv_ID inv;
  ev_Status := StatusSettled; ev_Currency := inv_Currency inv; ev_Amount := received;
  ev_Confirmations := confs; ev_Timestamp := t |}.

Lemma check_unreachable inv (w : W) e env' :
  inv_Provider inv = "onchain" → AddressStatus (inv_Currency inv) (inv_PayAddress inv) (w_env w) = (Err e, env') →
  check inv w = (Err e, set_env env' w).
Proof.
  intros Hp Ha. unfold Onchain.CheckInvoice. rewrite (bool_decide_true _ Hp). cbn [negb].
  unfold mbind, M_bind, env, zoom. by rewrite Ha.
Qed.
Lemma check_unpaid inv (w : W) received confs env' :
  inv_Provider inv = "onchain" →
  AddressStatus (inv_Currency inv) (inv_PayAddress inv) (w_env w) = (Ok (received, confs), env') →
  unpaid inv received confs → check inv w = (Ok (None, true), set_env env' w).
Proof.
  intros Hp Ha Hu. unfold Onchain.CheckInvoice. rewrite (bool_decide_true _ Hp). cbn [negb].
  unfold mbind, M_bind, env, zoom. rewrite Ha. destruct (Z.ltb_spec confs minConf); [done|].
  destruct Hu as [? | ->]; [lia|done].
Qed.
Lemma check_paid inv (w : W) received confs env' :
  inv_Provider inv = "onchain" →
  AddressStatus (inv_Currency inv) (inv_PayAddress inv) (w_env w) = (Ok (received, confs), env') →
  minConf <= confs → GTE received (inv_Amount inv) = Ok true →
  check inv w = (Ok (Some (paid_event inv received confs (w_clock w)), false), ticked (set_env env' w)).
Proof.
  intros Hp Ha Hc Hg. unfold Onchain.CheckInvoice. rewrite (bool_decide_true _ Hp). cbn [negb].
  unfold mbind at 1, M_bind at 1, env, zoom. rewrite Ha. apply Z.ltb_ge in Hc. rewrite Hc, Hg. done.
Qed.

Lemma handle_check_ok inv r (w : W) : (handle_check catalog replayWindow onchain inv r w).1 = Ok tt.
Proof.
  destruct r as [[[ev|] [|]]|e]; try done.
  unfold handle_check, mbind, M_bind, now. by destruct (negb _).
Qed.
Lemma checkLeased_after inv token r (w w1 : W) :
  check inv w = (r, w1) →
  let w2 := (handle_check catalog replayWindow onchain inv r w1).2 in
  (checkLeased catalog replayWindow onchain check inv token w).2 =
    set_mem (ReleasePollLease (inv_ID inv) token (w_mem w2)).2 w2.
Proof.
  intros Hc. pose proof (handle_check_ok inv r w1) as Hok. cbv zeta.
  unfold checkLeased, try, mbind, M_bind. rewrite Hc.
  destruct (handle_check _ _ _ inv r w1) as [h w2]. cbn [fst snd] in *. rewrite Hok.
  unfold ignore, store, zoom. by destruct (ReleasePollLease _ _ _).
Qed.

(** An on-chain invoice can only lapse on the chain's own word. One leased check: when the chain is
    unreachable nothing is recorded; when it answers and the invoice is unpaid, a negative is recorded
    exactly if the grace after the deadline has passed; when it is paid, an earlier negative is withdrawn and
    the settling event processed. In each case the lease is then released, and nothing else happens. *)
Theorem checkLeased_verdict inv token (w : W) env' answer :
  inv_Provider inv = "onchain" →
  AddressStatus (inv_Currency inv) (inv_PayAddress inv) (w_env w) = (answer, env') →
  let w' := (checkLeased catalog replayWindow onchain check inv token w).2 in
  let released m := (ReleasePollLease (inv_ID inv) token m).2 in
  let t' := w_clock w + default 0 (head (w_ticks w)) in
  (∀ e, answer = Err e → w_mem w' = released (w_mem w) ∧ w_cp w' = w_cp w) ∧
  (∀ received confs, answer = Ok (received, confs) → unpaid inv received confs →
     w_mem w' = released (if inv_ExpiresAt inv + oc_Grace onchain <=? w_clock w
                          then (RecordNegativeCheck (inv_ID inv) t' (w_mem w)).2 else w_mem w) ∧
     w_cp w' = w_cp w) ∧
  (∀ received confs, answer = Ok (received, confs) → minConf <= confs → GTE received (inv_Amount inv) = Ok true →
     let w1 := ticked (set_env env' w) in
     let w2 := (Process catalog replayWindow (paid_event inv received confs (w_clock w))
                 (set_mem (ClearNegativeCheck (inv_ID inv) (w_mem w)).2 w1)).2 in
     w_mem w' = released (w_mem w2) ∧ w_cp w' = w_cp w2).
Proof.
  intros Hp Ha. cbv zeta. split_and!.
  - intros e ->. by rewrite (checkLeased_after inv token (Err e) w (set_env env' w)) by (by apply check_unreachable).
  - intros received confs -> Hu.
    rewrite (checkLeased_after inv token (Ok (None, true)) w (set_env env' w)) by (by eapply check_unpaid).
    unfold handle_check, Before, Add. unfold mbind, M_bind, now. cbn [fst snd w_clock set_env].
    rewrite <-Z.leb_antisym. destruct (_ <=? _); [|done].
    unfold ignore, store, zoom. cbn [snd fst w_mem w_clock w_ticks set_env].
    by destruct (RecordNegativeCheck _ _ _) as [r1 m1].
  - intros received confs -> Hc Hg.
    rewrite (checkLeased_after inv token _ w _ (check_paid inv w received confs env' Hp Ha Hc Hg)).
    unfold handle_check, mbind, M_bind, ignore, store, zoom. cbn [snd fst].
    replace (w_mem (ticked (set_env env' w))) with (w_mem w) by done.
    by destruct (ClearNegativeCheck _ _) as [r0 m0].
Qed.
End onchain_check.

Definition onchain_invoice : Invoice := {|
  inv_ID := "i9"; inv_Provider := "onchain"; inv_AnonUserID := "u1"; inv_Plan := "basic"; inv_Currency := "BTC";
  inv_Amount := "0.01"; inv_PayAddress := "bc1"; inv_ProviderInvoiceID := "bc1"; inv_Status := StatusPending;
  inv_CreatedAt := 100; inv_ExpiresAt := 120 |}.
Definition onchain_world : World Fake unit :=
  set_mem (run (ord := key_order) [OpCreateInvoice onchain_invoice; OpAcquirePollLease 149 "t" "i9" "p" 30] NewMemory) demo_shop.
Definition demo_onchain : OnChain := {| oc_Grace := 10; oc_PollLease := 30; oc_ChainTimeout := 10; oc_Owner := "p" |}.
(** A check of an unpaid invoice, after its grace, records the negative and frees the lease. *)
Lemma checkLeased_verdict_witness :
  let w' := (checkLeased demo_catalog Hour demo_onchain (Onchain.CheckInvoice 2 (λ _ _, mret ("0.01", 1))) onchain_invoice "t" onchain_world).2 in
  w_mem w' = (ReleasePollLease "i9" "t" (RecordNegativeCheck "i9" 153 (w_mem onchain_world)).2).2 ∧
  negativeCheck (w_mem w') !! "i9" = Some 153 ∧ pollLeases (w_mem w') !! "i9" = None.
Proof.
  cbv zeta. split; [|vm_compute; split; reflexivity].
  destruct (checkLeased_verdict demo_catalog Hour demo_onchain 2 (λ _ _, mret ("0.01", 1)) onchain_invoice "t"
    onchain_world tt (Ok ("0.01", 1)) eq_refl eq_refl) as (_ & H & _).
  destruct (H "0.01" 1 eq_refl) as [Hm _]; [left; reflexivity|]. rewrite Hm. reflexivity.
Defined.

(** ** Failover between gateways *)
Section failover.
Context {W : Type}.

(** The gateways that are asked, in order: the first one of each name, if it supports the currency. *)
Fixpoint candidates (currency : string) (gs : list (Gateway W)) (tried : gset string) : list (Gateway W) :=
  match gs with
  | [] => []
  | g :: gs' => if bool_decide (g_Name g ∈ tried) || negb (g_SupportsCurrency g currency)
                then candidates currency gs' tried
                else g :: candidates currency gs' ({[g_Name g]} ∪ tried)
  end.
Lemma candidates_spec currency gs : ∀ tried g, g ∈ candidates currency gs tried →
  g ∈ gs ∧ g_SupportsCurrency g currency = true ∧ g_Name g ∉ tried.
Proof.
  induction gs as [|g0 gs IH]; intros tried g Hg; simpl in Hg; [by apply elem_of_nil in Hg|].
  destruct (_ || _) eqn:E.
  - destruct (IH _ _ Hg) as (? & ? & ?). split_and!; [by right|done|done].
  - apply orb_false_iff in E as [Et%bool_decide_eq_false Es%negb_false_iff].
    apply elem_of_cons in Hg as [->|Hg]; [split_and!; [by left|done|done]|].
    destruct (IH _ _ Hg) as (? & ? & ?). split_and!; [by right|done|set_solver].
Qed.
Lemma candidates_NoDup currency gs : ∀ tried, NoDup (g_Name <$> candidates currency gs tried).
Proof.
  induction gs as [|g gs IH]; intros tried; simpl; [constructor|]. destruct (_ || _); [done|].
  simpl. constructor; [|done]. intros (g' & Hn & Hg')%list_elem_of_fmap.
  destruct (candidates_spec _ _ _ _ Hg') as (_ & _ & Hnot). set_solver.
Qed.

(** Asking [cs] in turn: the first success wins, and the failures before it had their effects. *)
Inductive asked (req : CreateInvoiceRequest) : list (Gateway W) → option error → W → result Invoice * W → Prop :=
| asked_none last w : asked req [] last w
    (Err (match last with Some e => wrap_err "payment: all gateways failed" e | None => ErrNoGateway end), w)
| asked_success g cs last w inv w' : g_CreateInvoice g req w = (Ok inv, w') → asked req (g :: cs) last w (Ok inv, w')
| asked_failure g cs last w e w' out : g_CreateInvoice g req w = (Err e, w') → asked req cs (Some e) w' out →
    asked req (g :: cs) last w out.

Lemma try_gateways_asked req gs : ∀ tried last w,
  asked req (candidates (req_Currency req) gs tried) last w (try_gateways req gs tried last w).
Proof.
  induction gs as [|g gs IH]; intros tried last w; cbn [try_gateways candidates].
  { destruct last; constructor. }
  destruct (_ || _); [apply IH|]. unfold mbind, M_bind, try.
  destruct (g_CreateInvoice g req w) as [[inv|e] w'] eqn:E; [by constructor|].
  by eapply asked_failure; [exact E|].
Qed.

(** a gateway outage does not stop sales. Creating an invoice asks each gateway that supports the
    currency, the preferred one first and then in the order of registration, each name once, until one
    succeeds; every gateway of the registry that supports the currency is a candidate unless one of its name
    came before; it fails only when all of them have failed, with the last error, or when there is none. *)
Theorem Registry_CreateInvoice_failover (r : Registry W) preferred req w :
  ∃ cs, asked req cs None w (Registry_CreateInvoice r preferred req w) ∧
    NoDup (g_Name <$> cs) ∧
    (∀ g, g ∈ cs → g_SupportsCurrency g (req_Currency req) = true ∧
       (g ∈ Gateways r ∨ preferred ≠ "" ∧ Registry_Get r preferred = Some g)) ∧
    (∀ g, g ∈ Gateways r → g_SupportsCurrency g (req_Currency req) = true → g_Name g ∈ g_Name <$> cs) ∧
    (∀ g, preferred ≠ "" → Registry_Get r preferred = Some g → g_SupportsCurrency g (req_Currency req) = true → head cs = Some g).
Proof.
  set (first := if bool_decide (preferred = "") then [] else option_list (rg_byName r !! preferred)).
  exists (candidates (req_Currency req) (first ++ rg_order r) ∅). split_and!.
  - apply try_gateways_asked.
  - apply candidates_NoDup.
  - intros g Hg. apply candidates_spec in Hg as (Hin & Hs & _). split; [done|].
    apply elem_of_app in Hin as [Hf|?]; [right|by left]. unfold first in Hf.
    case_bool_decide; [by apply elem_of_nil in Hf|]. split; [done|].
    unfold Registry_Get. destruct (rg_byName r !! preferred); simpl in Hf; [|by apply elem_of_nil in Hf].
    by apply list_elem_of_singleton in Hf as ->.
  - intros g Hg Hs. assert (g ∈ first ++ rg_order r) as Hin by (apply elem_of_app; by right).
    clearbody first. assert (g_Name g ∉ (∅ : gset string)) as Ht by set_solver. revert Hin Ht. generalize (∅ : gset string).
    induction (first ++ rg_order r) as [|g0 gs IH]; intros tried Hin Ht; [by apply elem_of_nil in Hin|]. simpl.
    apply elem_of_cons in Hin as [<-|Hin].
    { rewrite (bool_decide_false _ Ht), Hs. simpl. left. }
    destruct (_ || _); [by apply IH|]. simpl. destruct (decide (g_Name g = g_Name g0)) as [->|Hne]; [left|].
    right. apply IH; [done|set_solver].
  - intros g Hp Hg Hs. unfold first. rewrite bool_decide_false by done. unfold Registry_Get in Hg. rewrite Hg. simpl.
    rewrite bool_decide_false by set_solver. by rewrite Hs.
Qed.
End failover.

(** ** Loading the catalog *)
Definition wire_ok (p : wire_plan) : bool :=
  SubscriptionPlan_Valid (w_ID p) && match w_Duration p with Some d => 0 <? d | None => false end
  && match w_Grace p with Some g => 0 <=? g | None => false end && negb (size (w_Prices p) =? 0)%nat.

Lemma load_plans_step p ws plans : wire_ok p = true → ∃ pl,
  load_plans (p :: ws) plans = load_plans ws (<[w_ID p := pl]> plans) ∧ pl_ID pl = w_ID p ∧
  SubscriptionPlan_Valid (w_ID p) = true ∧ 0 < pl_Duration pl ∧ 0 <= pl_Grace pl ∧ pl_Prices pl ≠ ∅.
Proof.
  unfold wire_ok. rewrite !andb_true_iff. intros [[[Hv Hd] Hg] Hs]. simpl. rewrite Hv. simpl.
  destruct (w_Duration p) as [d|]; [|done]. destruct (w_Grace p) as [g|]; [|done].
  apply Z.ltb_lt in Hd. apply Z.leb_le in Hg.
  rewrite (proj2 (Z.leb_gt _ _) Hd), (proj2 (Z.ltb_ge _ _) Hg). apply negb_true_iff in Hs. rewrite Hs.
  eexists. split; [reflexivity|]. simpl. split_and!; [done..|]. intros E. rewrite E, map_size_empty in Hs. done.
Qed.
Lemma load_plans_refuses p ws plans : wire_ok p = false → is_ok (load_plans (p :: ws) plans) = false.
Proof.
  unfold wire_ok. simpl. destruct (SubscriptionPlan_Valid (w_ID p)); [|done]. simpl.
  destruct (w_Duration p) as [d|]; [|done]. rewrite Z.leb_antisym. destruct (0 <? d); [|done]. simpl.
  destruct (w_Grace p) as [g|]; [|done]. rewrite Z.ltb_antisym. destruct (0 <=? g); [|done]. simpl.
  by destruct (size _ =? 0)%nat.
Qed.
Lemma load_plans_spec ws : ∀ plans, catalog_wf plans →
  is_ok (load_plans ws plans) = forallb wire_ok ws ∧
  ∀ c, load_plans ws plans = Ok c → catalog_wf c ∧ dom c = dom plans ∪ list_to_set (w_ID <$> ws).
Proof.
  induction ws as [|p ws IH]; intros plans Hwf.
  { split; [done|]. intros c [= <-]. split; [done|]. set_solver. }
  destruct (wire_ok p) eqn:Ep.
  - destruct (load_plans_step p ws plans Ep) as (pl & -> & Hid & Hrest).
    destruct (IH (<[w_ID p := pl]> plans)) as [H1 H2].
    { intros id q [[<- <-]|[Hne Hq]]%lookup_insert_Some; [split; [done|exact Hrest]|by apply Hwf]. }
    simpl. rewrite Ep, H1. split; [done|]. intros c Hc. destruct (H2 c Hc) as [Hw Hd]. split; [done|].
    rewrite Hd, dom_insert_L. set_solver.
  - pose proof (load_plans_refuses p ws plans Ep) as Hr. rewrite Hr. simpl forallb. rewrite Ep. split; [done|].
    intros c Hc. by rewrite Hc in Hr.
Qed.

(** the catalog the service runs on is sound. [Load] succeeds exactly on a decodable, non-empty list
    whose every entry has a known plan id, a positive duration, a non-negative grace and a price; the catalog
    it returns offers exactly the listed plans, each filed under its own id with those bounds. *)
Theorem Catalog_Load_iff w :
  is_ok (Catalog_Load w) = (match w with Some ws => negb (length ws =? 0)%nat && forallb wire_ok ws | None => false end) ∧
  ∀ c, Catalog_Load w = Ok c → catalog_wf c ∧ dom c = list_to_set (w_ID <$> default [] w).
Proof.
  destruct w as [[|p ws]|]; [done| |done]. destruct (load_plans_spec (p :: ws) ∅) as [H1 H2].
  { intros id q. by rewrite lookup_empty. }
  split; [exact H1|]. intros c Hc. destruct (H2 c Hc) as [Hw Hd]. split; [done|].
  by rewrite Hd, dom_empty_L, (left_id_L ∅ (∪)).
Qed.
