(* ===== verification/BillingIntent.v ===== *)
(** * Durable idempotency of invoice creation

    The intents of the store over any interleaving of store calls, and what a repeated
    POST /v1/invoices with the same Idempotency-Key does. *)
From S2P Require Import Prelude GoBytes GoText GoFloat Contracts Money BillingClient BillingStore BillingLedger.
From S2P Require Import BillingActivator BillingProcessor BillingPoller BillingGateways BillingHttp BillingCredit BillingApi.

(** ** Intents over any interleaving of store calls *)
Section intents.
Context `{ord : !MapOrder}.

(** Two versions of an intent: only the state may differ, and it never goes back to "reserved". *)
Definition intent_step (i j : InvoiceIntent) : Prop :=
  j = with_it_State (it_State j) (it_CreatedAt i) i ∧ (it_State i ≠ "reserved" → it_State j ≠ "reserved").

Lemma intent_step_refl i : intent_step i i.
Proof. split; [by destruct i|done]. Qed.
Lemma intent_step_trans i j k : intent_step i j → intent_step j k → intent_step i k.
Proof. intros [Hij H1] [Hjk H2]. split; [|auto]. rewrite Hjk, Hij. by destruct i. Qed.
Lemma intent_step_state s i : s ≠ "reserved" → intent_step i (with_it_State s (it_CreatedAt i) i).
Proof. done. Qed.

Lemma intent_step_insert key i s k it (its : gmap string InvoiceIntent) :
  its !! key = Some i → s ≠ "reserved" → its !! k = Some it →
  ∃ it', <[key := with_it_State s (it_CreatedAt i) i]> its !! k = Some it' ∧ intent_step it it'.
Proof.
  intros Hi Hs Hk. destruct (decide (key = k)) as [->|Hne].
  - rewrite lookup_insert_eq. simplify_eq. eauto using intent_step_state.
  - rewrite lookup_insert_ne by done. eauto using intent_step_refl.
Qed.

Lemma exec_op_intent op m k it :
  invoiceIntents m !! k = Some it →
  ∃ it', invoiceIntents (exec_op op m) !! k = Some it' ∧ intent_step it it'.
Proof.
  intros Hk. assert (∃ it', invoiceIntents m !! k = Some it' ∧ intent_step it it') as Hid
    by eauto using intent_step_refl.
  destruct op; simpl; try exact Hid;
    try solve [unfold SetInvoiceStatus, ClaimSettlement, MarkSettlementActivated, AcquirePollLease, RenewPollLease,
      ReleasePollLease, RecordNegativeCheck, ClearNegativeCheck, StageInvoiceCredit, StageScheduleTransition,
      CompleteBillingDelivery; repeat case_match; exact Hid].
  - unfold ReserveInvoiceIntent. destruct (invoiceIntents m !! it_IdempotencyKey intent) eqn:E.
    { case_match; exact Hid. }
    cbn [snd invoiceIntents set_invoiceIntents it_IdempotencyKey with_it_State].
    rewrite lookup_insert_ne by congruence. exact Hid.
  - unfold BeginInvoiceCreate. repeat case_match; try exact Hid. by eapply intent_step_insert.
  - unfold CompleteInvoiceCreate. repeat case_match; try exact Hid. by eapply intent_step_insert.
  - unfold FailInvoiceCreate. repeat case_match; try exact Hid. by eapply intent_step_insert.
Qed.

Lemma run_intent ops : ∀ m k it, invoiceIntents m !! k = Some it →
  ∃ it', invoiceIntents (run ops m) !! k = Some it' ∧ intent_step it it'.
Proof.
  induction ops as [|op ops IH]; intros m k it Hk; [simpl; eauto using intent_step_refl|].
  destruct (exec_op_intent op m k it Hk) as (it1 & H1 & S1).
  destruct (IH _ _ _ H1) as (it2 & H2 & S2). eauto using intent_step_trans.
Qed.

(** How many calls of a run are a [BeginInvoiceCreate key] that returned true. *)
Definition begins (key : string) (op : repo_op) (m : Memory) : bool :=
  match op with
  | OpBeginInvoiceCreate k => bool_decide (k = key) && match (BeginInvoiceCreate k m).1 with Ok b => b | Err _ => false end
  | _ => false
  end.
Fixpoint begun (key : string) (ops : list repo_op) (m : Memory) : nat :=
  match ops with
  | [] => 0
  | op :: ops' => (if begins key op m then 1 else 0) + begun key ops' (exec_op op m)
  end.

Lemma begins_spec key op m : begins key op m = true →
  ∃ it, invoiceIntents (exec_op op m) !! key = Some it ∧ it_State it ≠ "reserved".
Proof.
  destruct op; simpl; try done. intros [->%bool_decide_eq_true Hb]%andb_true_iff.
  unfold BeginInvoiceCreate in *. destruct (invoiceIntents m !! key); [|done].
  destruct (negb _); [done|]. simpl. rewrite lookup_insert_eq. eexists. by split.
Qed.
Lemma begun_none key ops : ∀ m it, invoiceIntents m !! key = Some it → it_State it ≠ "reserved" → begun key ops m = 0%nat.
Proof.
  induction ops as [|op ops IH]; intros m it Hk Hs; [done|].
  assert (begins key op m = false) as Hb.
  { destruct op; simpl; try done. case_bool_decide; [subst|done]. unfold BeginInvoiceCreate.
    rewrite Hk, bool_decide_false by done. done. }
  destruct (exec_op_intent op m key it Hk) as (it1 & H1 & S1). cbn [begun]. rewrite Hb.
  eapply IH; [exact H1|]. by apply S1.
Qed.

Lemma begun_le key ops : ∀ m, (begun key ops m <= 1)%nat.
Proof.
  induction ops as [|op ops IH]; intros m; cbn [begun]; [lia|].
  destruct (begins key op m) eqn:Hb; [|apply IH].
  destruct (begins_spec _ _ _ Hb) as (it & Hk & Hs). rewrite (begun_none key ops _ it Hk Hs). lia.
Qed.

(** C12: one Idempotency-Key buys one invoice. Over any interleaving of store calls, the permission to ask the
    provider ([BeginInvoiceCreate]) is given at most once per key, and the order id, provider, account, plan,
    currency, amount and request hash reserved under a key never change. *)
Theorem intent_begun_once key ops m it :
  invoiceIntents m !! key = Some it →
  (begun key ops m <= 1)%nat ∧
  ∃ it', invoiceIntents (run ops m) !! key = Some it' ∧ it' = with_it_State (it_State it') (it_CreatedAt it) it ∧
         (begun key ops m = 1%nat → it_State it' ≠ "reserved").
Proof.
  intros Hk. split; [apply begun_le|]. destruct (run_intent ops m key it Hk) as (it' & H' & Hs).
  exists it'. split; [done|]. split; [apply Hs|]. clear Hs Hk it. revert m it' H'.
  induction ops as [|op ops IH]; intros m it' H'; cbn [begun]; [done|].
  destruct (begins key op m) eqn:Hb; [|exact (IH _ _ H')]. intros _.
  destruct (begins_spec _ _ _ Hb) as (it & Hk & Hs).
  destruct (run_intent ops _ key it Hk) as (it2 & H2 & [_ Hmono]).
  assert (it' = it2) as ->; [|by apply Hmono].
  change (invoiceIntents (run ops (exec_op op m)) !! key = Some it') in H'. congruence.
Qed.
End intents.

Definition demo_intent : InvoiceIntent := {|
  it_IdempotencyKey := "key-1";
  it_RequestHash := invoiceRequestHash {| ci_AnonUserID := "u1"; ci_Plan := "basic"; ci_Currency := "BTC"; ci_Provider := "" |} "0.01" "btcpay";
  it_OrderID := "i1"; it_Provider := "btcpay"; it_AnonUserID := "u1"; it_Plan := "basic";
  it_Currency := "BTC"; it_Amount := "0.01"; it_State := ""; it_CreatedAt := 5 |}.
Definition reserved_mem : Memory := run (ord := key_order) [OpReserveInvoiceIntent 5 demo_intent] NewMemory.
Lemma intent_begun_once_witness :
  let ops := [OpBeginInvoiceCreate "key-1"; OpBeginInvoiceCreate "key-1"; OpFailInvoiceCreate "key-1"; OpBeginInvoiceCreate "key-1"] in
  (begun (ord := key_order) "key-1" ops reserved_mem <= 1)%nat ∧ begun (ord := key_order) "key-1" ops reserved_mem = 1%nat.
Proof.
  split; [|vm_compute; reflexivity].
  apply (intent_begun_once (ord := key_order) "key-1" _ reserved_mem (with_it_State "reserved" 5 demo_intent)).
  vm_compute. reflexivity.
Defined.

(** ** A repeated request *)
Section replay.
Context {C E : Type} `{BC : !BillingClient C} (catalog : Catalog).
Context (registry : Registry (World C E)) (invoiceToken : string) (requireInvoiceAuth : bool).
Context (decode : string → option createInvoiceReq).
Abbreviation createInvoice := (createInvoice (E := E) catalog registry invoiceToken requireInvoiceAuth decode).

(** A well-formed, authorized request [r] whose key already holds [intent]. *)
Record keyed (r : Request) (req : createInvoiceReq) (intent : InvoiceIntent) (w : World C E) : Prop := {
  kd_post : rq_Method r = "POST";
  kd_auth : requireInvoiceAuth = false ∨ validBearer (Header_Get r "Authorization") invoiceToken = true;
  kd_key : TrimSpace (Header_Get r "Idempotency-Key") ≠ "";
  kd_len : (String.length (TrimSpace (Header_Get r "Idempotency-Key")) <= 200)%nat;
  kd_body : decode (rq_Body r) = Some req;
  kd_user : ci_AnonUserID req ≠ "";
  kd_plan : SubscriptionPlan_Valid (ci_Plan req) = true;
  kd_currency : ci_Currency req ≠ "";
  kd_intent : invoiceIntents (w_mem w) !! TrimSpace (Header_Get r "Idempotency-Key") = Some intent
}.
(** The request is the one the key was reserved for. *)
Definition same_request (req : createInvoiceReq) (intent : InvoiceIntent) : Prop :=
  (ci_Provider req = "" ∨ ci_Provider req = it_Provider intent) ∧
  it_RequestHash intent = invoiceRequestHash req (it_Amount intent) (it_Provider intent).

Lemma createInvoice_keyed r req intent w l : keyed r req intent w →
  createInvoice r (w, l) = answer_intent registry req (it_Amount intent) (Ok (intent, false)) (w, l).
Proof.
  intros [Hpost Hauth Hkey Hlen Hbody Huser Hplan Hcur Hit]. unfold BillingHttp.createInvoice.
  rewrite Hpost, bool_decide_true by done. cbn [negb].
  replace (requireInvoiceAuth && _) with false by (destruct Hauth as [->| ->]; [done|by rewrite andb_false_r]).
  rewrite (bool_decide_false _ Hkey). apply Nat.ltb_ge in Hlen. rewrite Hlen. cbn [orb].
  rewrite Hbody, (bool_decide_false _ Huser), Hplan, (bool_decide_false _ Hcur). cbn [negb].
  unfold mbind at 1, M_bind at 1, try at 1, on_world at 1, store at 1, zoom at 1, zoom at 1, GetInvoiceIntent.
  cbn [fst]. rewrite Hit. by destruct w.
Qed.

Lemma answer_same req intent a : same_request req intent →
  answer_intent registry req (it_Amount intent) (Ok (intent, false)) a =
    (inv ←! try (on_world (resolveInvoiceIntent registry intent)) ;
     mret (match inv with
           | Err _ => httpError 502 "gateway result unresolved"
           | Ok inv => httpWrite 200 (BInvoice (invoice_resp inv))
           end)) a.
Proof.
  intros [Hp Hh]. unfold answer_intent. rewrite (bool_decide_true (it_RequestHash _ = _)) by done.
  destruct Hp as [Hp|Hp]; rewrite (bool_decide_true _ Hp); rewrite ?andb_false_r; done.
Qed.
Lemma answer_differs req intent a : ¬ same_request req intent →
  answer_intent registry req (it_Amount intent) (Ok (intent, false)) a =
    (Ok (httpError 409 "Idempotency-Key already used with different parameters"), a).
Proof.
  intros Hn. unfold answer_intent. destruct (negb _ && negb _) eqn:Ep; [done|].
  destruct (decide (it_RequestHash intent = invoiceRequestHash req (it_Amount intent) (it_Provider intent))) as [Hh|Hh];
    [|by rewrite (bool_decide_false _ Hh)].
  exfalso. apply Hn. split; [|done].
  apply andb_false_iff in Ep as [Ep|Ep]; apply negb_false_iff, bool_decide_eq_true in Ep; auto.
Qed.

(** Retrying an invoice request is safe. Under a key that already holds an intent, a request with other
    parameters is refused (409) and a repetition of the request whose invoice exists answers that same
    invoice (200), both without touching the store, the gateways or the limiter; a repetition whose creation
    is under way never asks the provider to create again: it only looks the order up, and answers 502 when
    that finds nothing. *)
Theorem createInvoice_replay r req intent w l :
  keyed r req intent w →
  (¬ same_request req intent →
     createInvoice r (w, l) = (Ok (httpError 409 "Idempotency-Key already used with different parameters"), (w, l))) ∧
  (same_request req intent → it_State intent = "ready" →
     ∀ inv, invoices (w_mem w) !! it_OrderID intent = Some inv →
     createInvoice r (w, l) = (Ok (httpWrite 200 (BInvoice (invoice_resp inv))), (w, l))) ∧
  (same_request req intent → it_State intent = "creating" →
     ∀ gw w', Registry_Get registry (it_Provider intent) = Some gw →
     match g_LookupInvoice gw with
     | None => w' = w
     | Some lookup => lookup (create_request intent) w = (Ok None, w') ∨ ∃ e, lookup (create_request intent) w = (Err e, w')
     end →
     createInvoice r (w, l) = (Ok (httpError 502 "gateway result unresolved"), (w', l))).
Proof.
  intros Hk. pose proof (createInvoice_keyed r req intent w l Hk) as ->. split_and!.
  - apply answer_differs.
  - intros Hs Hst inv Hinv. rewrite answer_same by done.
    unfold mbind, M_bind, try, on_world, zoom. cbn [fst snd]. unfold resolveInvoiceIntent.
    rewrite (bool_decide_true _ Hst). unfold store, zoom, GetInvoice. rewrite Hinv. by destruct w.
  - intros Hs Hst gw w' Hg Hl. rewrite answer_same by done.
    assert (∃ e, resolveInvoiceIntent registry intent w = (Err e, w')) as [e He].
    { unfold resolveInvoiceIntent. rewrite Hst, Hg. cbn [bool_decide decide_rel].
      do 3 (rewrite bool_decide_false by done). unfold mbind, M_bind. cbn [mret M_ret]. unfold recover_intent.
      destruct (g_LookupInvoice gw) as [lookup|]; [|subst; by eexists].
      unfold mbind, M_bind. destruct Hl as [->|[e ->]]; by eexists. }
    unfold mbind, M_bind, try, on_world, zoom. cbn [fst snd]. by rewrite He.
Qed.
End replay.

(** One shop with a completed creation under "key-1", asked again. *)
Definition demo_req : createInvoiceReq := {| ci_AnonUserID := "u1"; ci_Plan := "basic"; ci_Currency := "BTC"; ci_Provider := "" |}.
Definition demo_create : Request := {|
  rq_Method := "POST"; rq_Path := "/v1/invoices"; rq_Header := {["Idempotency-Key" := " key-1 "]}; rq_Body := "{}" |}.
Definition ready_mem : Memory := run (ord := key_order) [OpReserveInvoiceIntent 5 demo_intent; OpBeginInvoiceCreate "key-1";
  OpCompleteInvoiceCreate "key-1" demo_invoice] NewMemory.
Definition ready_world : World Fake unit := set_mem ready_mem demo_shop.
Lemma createInvoice_replay_witness :
  createInvoice demo_catalog demo_registry "" false (λ _, Some demo_req) demo_create (ready_world, [])
    = (Ok (httpWrite 200 (BInvoice (invoice_resp demo_invoice))), (ready_world, [])).
Proof.
  apply (createInvoice_replay demo_catalog demo_registry "" false (λ _, Some demo_req) demo_create demo_req
    (with_it_State "ready" 5 demo_intent) ready_world []).
  - split; [reflexivity|left; reflexivity|discriminate|vm_compute; repeat constructor|reflexivity|discriminate|reflexivity
      |discriminate|vm_compute; reflexivity].
  - split; [left; reflexivity|vm_compute; reflexivity].
  - reflexivity.
  - vm_compute. reflexivity.
Defined.
