(* ===== verification/ControlStore.v ===== *)
(** * The control-plane's domain and its in-memory repositories (services/control-plane/internal: domain, secret, adapters/memory)

    The domain errors and records, plan limits and billing fingerprints, the generation of identifiers and secrets from
    random bytes; the store, which is the maps of every in-memory repository, with every method of the repositories as
    one atomic step on it. *)
From S2P Require Import Prelude GoBytes GoText Contracts.

(** ** domain/errors.go *)
Module Domain.
Definition ErrNotFound : error := Sentinel "not found".
Definition ErrConflict : error := Sentinel "conflict".
Definition ErrValidation : error := Sentinel "validation failed".
Definition ErrUnauthorized : error := Sentinel "unauthorized".
Definition ErrForbidden : error := Sentinel "forbidden".
End Domain.

(** ** domain/models.go, domain/launch.go *)
Record NodeFilter := { nf_Status : NodeStatus; nf_Role : NodeRole; nf_Region : string; nf_Limit : Z; nf_Cursor : string }.
Record RotationRecord := {
  rot_ID : string; rot_NodeID : string; rot_FromStatus : option NodeStatus; rot_ToStatus : NodeStatus;
  rot_Reason : string; rot_EntryIP : string; rot_Actor : string; rot_CreatedAt : Time }.
Record UserSecretRotation := {
  usr_ID : string; usr_UserID : string; usr_OldRealityShortID : string; usr_OldVlessUUID : string;
  usr_Reason : string; usr_CreatedAt : Time }.
Record SubscriptionBundle := { sb_User : User; sb_Nodes : list Node; sb_GeneratedAt : Time }.
Record SubscriptionSet := {
  set_UserID : string; set_Revision : Z; set_NodeIDs : list string; set_Bundle : SubscriptionBundle;
  set_Dirty : bool; set_GeneratedAt : Time }.
Definition with_Dirty (b : bool) (s : SubscriptionSet) : SubscriptionSet := {|
  set_UserID := set_UserID s; set_Revision := set_Revision s; set_NodeIDs := set_NodeIDs s;
  set_Bundle := set_Bundle s; set_Dirty := b; set_GeneratedAt := set_GeneratedAt s |}.
(** The averages of an aggregate are stored and never looked at. *)
Record SignalAggregate := {
  ag_NodeID : string; ag_Region : string; ag_WindowStart : Time; ag_WindowEnd : Time; ag_Total : Z;
  ag_BySignal : gmap string Z }.
Abbreviation Verdict := string (only parsing).
Definition VerdictHealthy : Verdict := "healthy".
Definition VerdictDegraded : Verdict := "degraded".
Definition VerdictBlocked : Verdict := "blocked".
Record NodeStatusChange := { ch_NodeID : string; ch_From : NodeStatus; ch_To : NodeStatus }.
Record DeliveryToken := { dt_Hash : string; dt_Ciphertext : list Z; dt_KeyID : string }.
Definition zero_token : DeliveryToken := {| dt_Hash := ""; dt_Ciphertext := []; dt_KeyID := "" |}.
Record SubscriptionTokenBinding := { tk_UserID : string; tk_SubscriptionID : string }.

(** ** Field updates of the contract records *)
Definition with_n_Status (s : NodeStatus) (n : Node) : Node := {|
  n_ID := n_ID n; n_Role := n_Role n; n_Status := s; n_EntryNodeID := n_EntryNodeID n; n_Provider := n_Provider n;
  n_Cloud := n_Cloud n; n_Region := n_Region n; n_EntryIP := n_EntryIP n; n_EphemeralEntryIP := n_EphemeralEntryIP n;
  n_Transports := n_Transports n; n_CapacityUsers := n_CapacityUsers n; n_RotateAfter := n_RotateAfter n;
  n_CreatedAt := n_CreatedAt n; n_ExpiresAt := n_ExpiresAt n; n_Labels := n_Labels n |}.
Definition with_n_EntryIP (ip : string) (n : Node) : Node := {|
  n_ID := n_ID n; n_Role := n_Role n; n_Status := n_Status n; n_EntryNodeID := n_EntryNodeID n; n_Provider := n_Provider n;
  n_Cloud := n_Cloud n; n_Region := n_Region n; n_EntryIP := ip; n_EphemeralEntryIP := n_EphemeralEntryIP n;
  n_Transports := n_Transports n; n_CapacityUsers := n_CapacityUsers n; n_RotateAfter := n_RotateAfter n;
  n_CreatedAt := n_CreatedAt n; n_ExpiresAt := n_ExpiresAt n; n_Labels := n_Labels n |}.
(** [n.ID = id; n.CreatedAt = t] *)
Definition with_n_identity (id : string) (t : Time) (n : Node) : Node := {|
  n_ID := id; n_Role := n_Role n; n_Status := n_Status n; n_EntryNodeID := n_EntryNodeID n; n_Provider := n_Provider n;
  n_Cloud := n_Cloud n; n_Region := n_Region n; n_EntryIP := n_EntryIP n; n_EphemeralEntryIP := n_EphemeralEntryIP n;
  n_Transports := n_Transports n; n_CapacityUsers := n_CapacityUsers n; n_RotateAfter := n_RotateAfter n;
  n_CreatedAt := t; n_ExpiresAt := n_ExpiresAt n; n_Labels := n_Labels n |}.
Definition with_u_link (subID : string) (updated : Time) (u : User) : User := {|
  u_ID := u_ID u; u_TelegramID := u_TelegramID u; u_Email := u_Email u; u_Status := u_Status u;
  u_RealityShortID := u_RealityShortID u; u_UUID := u_UUID u; u_Hysteria2Password := u_Hysteria2Password u;
  u_PrivateKey := u_PrivateKey u; u_SubscriptionID := Some subID; u_DeviceLimit := u_DeviceLimit u;
  u_QuotaBytes := u_QuotaBytes u; u_UsedBytes := u_UsedBytes u; u_CreatedAt := u_CreatedAt u; u_UpdatedAt := updated |}.
Definition with_u_secrets (shortID uuid privKey hy2 : string) (u : User) : User := {|
  u_ID := u_ID u; u_TelegramID := u_TelegramID u; u_Email := u_Email u; u_Status := u_Status u;
  u_RealityShortID := shortID; u_UUID := uuid; u_Hysteria2Password := hy2;
  u_PrivateKey := privKey; u_SubscriptionID := u_SubscriptionID u; u_DeviceLimit := u_DeviceLimit u;
  u_QuotaBytes := u_QuotaBytes u; u_UsedBytes := u_UsedBytes u; u_CreatedAt := u_CreatedAt u; u_UpdatedAt := u_UpdatedAt u |}.
Definition withoutPrivateKey (u : User) : User :=
  with_u_secrets (u_RealityShortID u) (u_UUID u) "" (u_Hysteria2Password u) u.
Definition with_s_Token (t : string) (s : Subscription) : Subscription := {|
  s_ID := s_ID s; s_UserID := s_UserID s; s_Plan := s_Plan s; s_Status := s_Status s; s_Token := t;
  s_TrafficLimitBytes := s_TrafficLimitBytes s; s_SpeedLimitMbps := s_SpeedLimitMbps s; s_DeviceLimit := s_DeviceLimit s;
  s_GraceUntil := s_GraceUntil s; s_BillingRevision := s_BillingRevision s; s_StartsAt := s_StartsAt s;
  s_ExpiresAt := s_ExpiresAt s; s_CreatedAt := s_CreatedAt s; s_UpdatedAt := s_UpdatedAt s |}.
Definition with_s_period (status : SubscriptionStatus) (expires : option Time) (updated : Time) (s : Subscription) : Subscription := {|
  s_ID := s_ID s; s_UserID := s_UserID s; s_Plan := s_Plan s; s_Status := status; s_Token := s_Token s;
  s_TrafficLimitBytes := s_TrafficLimitBytes s; s_SpeedLimitMbps := s_SpeedLimitMbps s; s_DeviceLimit := s_DeviceLimit s;
  s_GraceUntil := s_GraceUntil s; s_BillingRevision := s_BillingRevision s; s_StartsAt := s_StartsAt s;
  s_ExpiresAt := expires; s_CreatedAt := s_CreatedAt s; s_UpdatedAt := updated |}.
(** The assignments of ApplyBillingState's success branch, the plan limits apart *)
Definition with_s_billing (st : BillingState) (updated : Time) (s : Subscription) : Subscription := {|
  s_ID := s_ID s; s_UserID := s_UserID s; s_Plan := s_Plan s; s_Status := bs_Status st; s_Token := s_Token s;
  s_TrafficLimitBytes := s_TrafficLimitBytes s; s_SpeedLimitMbps := s_SpeedLimitMbps s; s_DeviceLimit := s_DeviceLimit s;
  s_GraceUntil := Some (bs_GraceUntil st); s_BillingRevision := bs_Revision st; s_StartsAt := s_StartsAt s;
  s_ExpiresAt := Some (bs_ExpiresAt st); s_CreatedAt := s_CreatedAt s; s_UpdatedAt := updated |}.
Definition with_s_plan (plan : SubscriptionPlan) (traffic speed devices : Z) (s : Subscription) : Subscription := {|
  s_ID := s_ID s; s_UserID := s_UserID s; s_Plan := plan; s_Status := s_Status s; s_Token := s_Token s;
  s_TrafficLimitBytes := traffic; s_SpeedLimitMbps := speed; s_DeviceLimit := devices;
  s_GraceUntil := s_GraceUntil s; s_BillingRevision := s_BillingRevision s; s_StartsAt := s_StartsAt s;
  s_ExpiresAt := s_ExpiresAt s; s_CreatedAt := s_CreatedAt s; s_UpdatedAt := s_UpdatedAt s |}.

(** ** domain/plan.go *)
Definition ApplyPlanLimits (sub : Subscription) (plan : SubscriptionPlan) : Subscription :=
  if bool_decide (plan = SubscriptionPlanBasic) then with_s_plan plan (100 * 1024 * 1024 * 1024) 50 2 sub
  else if bool_decide (plan = SubscriptionPlanUnlimited) then with_s_plan plan 0 0 5 sub
  else with_s_plan plan (s_TrafficLimitBytes sub) (s_SpeedLimitMbps sub) (s_DeviceLimit sub) sub.

(** ** domain/billing.go *)
Definition truncated (st : BillingState) : BillingState := {|
  bs_Plan := bs_Plan st; bs_Revision := bs_Revision st; bs_Status := bs_Status st;
  bs_ExpiresAt := Truncate (bs_ExpiresAt st) Microsecond; bs_GraceUntil := Truncate (bs_GraceUntil st) Microsecond |}.
Definition with_plan_of (currentPlan : SubscriptionPlan) (st : BillingState) : BillingState := {|
  bs_Plan := if bool_decide (bs_Plan st = "") then currentPlan else bs_Plan st; bs_Revision := bs_Revision st;
  bs_Status := bs_Status st; bs_ExpiresAt := bs_ExpiresAt st; bs_GraceUntil := bs_GraceUntil st |}.
(** A marshalling error leaves no bytes to hash. *)
Definition BillingFingerprint (state : BillingState) (currentPlan : SubscriptionPlan) : string :=
  sha256_hex (bytes_of (default "" (BillingState_json (truncated (with_plan_of currentPlan state))))).

(** ** secret/secret.go: from the bytes [rand.Read] delivered *)
Definition set_version (b : list Z) : list Z :=
  <[6%nat := Z.lor (Z.land (nth 6 b 0) 15) 64]> (<[8%nat := Z.lor (Z.land (nth 8 b 0) 63) 128]> b).
Definition slice (i j : nat) (b : list Z) : list Z := take (j - i) (drop i b).
Definition uuid_of (b : list Z) : string :=
  let b := set_version b in
  join "-" [hex_encode (slice 0 4 b); hex_encode (slice 4 6 b); hex_encode (slice 6 8 b);
            hex_encode (slice 8 10 b); hex_encode (slice 10 16 b)].
Definition HashToken (token : string) : string := sha256_hex (bytes_of token).

Example uuid_zero : uuid_of (replicate 16 0) = "00000000-0000-4000-8000-000000000000".
Proof. vm_compute. reflexivity. Qed.

(** ** The repositories' state *)
Record Store := mkStore {
  c_nodes : gmap string Node;
  c_users : gmap string User;
  c_subs : gmap string Subscription;
  c_billingHashes : gmap string string;
  c_delivery : gmap string DeliveryToken;
  c_hashes : gmap string string;
  c_nodeRecs : list RotationRecord;
  c_userRecs : list UserSecretRotation;
  c_sets : gmap string SubscriptionSet;
  c_aggregates : list SignalAggregate }.
Definition NewStore : Store := mkStore ∅ ∅ ∅ ∅ ∅ ∅ [] [] ∅ [].
Definition set_nodes f s := mkStore (f (c_nodes s)) (c_users s) (c_subs s) (c_billingHashes s) (c_delivery s) (c_hashes s) (c_nodeRecs s) (c_userRecs s) (c_sets s) (c_aggregates s).
Definition set_users f s := mkStore (c_nodes s) (f (c_users s)) (c_subs s) (c_billingHashes s) (c_delivery s) (c_hashes s) (c_nodeRecs s) (c_userRecs s) (c_sets s) (c_aggregates s).
Definition set_subs f s := mkStore (c_nodes s) (c_users s) (f (c_subs s)) (c_billingHashes s) (c_delivery s) (c_hashes s) (c_nodeRecs s) (c_userRecs s) (c_sets s) (c_aggregates s).
Definition set_billingHashes f s := mkStore (c_nodes s) (c_users s) (c_subs s) (f (c_billingHashes s)) (c_delivery s) (c_hashes s) (c_nodeRecs s) (c_userRecs s) (c_sets s) (c_aggregates s).
Definition set_delivery f s := mkStore (c_nodes s) (c_users s) (c_subs s) (c_billingHashes s) (f (c_delivery s)) (c_hashes s) (c_nodeRecs s) (c_userRecs s) (c_sets s) (c_aggregates s).
Definition set_hashes f s := mkStore (c_nodes s) (c_users s) (c_subs s) (c_billingHashes s) (c_delivery s) (f (c_hashes s)) (c_nodeRecs s) (c_userRecs s) (c_sets s) (c_aggregates s).
Definition set_nodeRecs f s := mkStore (c_nodes s) (c_users s) (c_subs s) (c_billingHashes s) (c_delivery s) (c_hashes s) (f (c_nodeRecs s)) (c_userRecs s) (c_sets s) (c_aggregates s).
Definition set_userRecs f s := mkStore (c_nodes s) (c_users s) (c_subs s) (c_billingHashes s) (c_delivery s) (c_hashes s) (c_nodeRecs s) (f (c_userRecs s)) (c_sets s) (c_aggregates s).
Definition set_sets f s := mkStore (c_nodes s) (c_users s) (c_subs s) (c_billingHashes s) (c_delivery s) (c_hashes s) (c_nodeRecs s) (c_userRecs s) (f (c_sets s)) (c_aggregates s).
Definition set_aggregates f s := mkStore (c_nodes s) (c_users s) (c_subs s) (c_billingHashes s) (c_delivery s) (c_hashes s) (c_nodeRecs s) (c_userRecs s) (c_sets s) (f (c_aggregates s)).

(** ** The control-plane's repositories (services/control-plane/internal/adapters/memory)

    Every method of the in-memory repositories, one definition each. A method holds its mutexes for its
    whole body and is one atomic step; [EligibleRealityUsers] alone takes the subscriptions' mutex once
    per user, and is modelled for the time in which no other call comes between. The store is wired with
    [WithUsers]. A reading of the clock or of the random source inside a method is an argument. *)
Import Domain.

Definition servable (s : SubscriptionStatus) : bool :=
  one_of s [SubscriptionStatusActive; SubscriptionStatusTrialing; SubscriptionStatusPastDue].
(** [sub.AccessUntil() != nil && !sub.AccessUntil().After(now)] *)
Definition lapsed (now : Time) (sub : Subscription) : bool :=
  match AccessUntil sub with Some t => negb (After t now) | None => false end.

(** ** Nodes *)
Module Nodes.
Section nodes.
Context `{ord : !MapOrder}.
Definition Create (n : Node) : M Store unit := λ s,
  match c_nodes s !! n_ID n with
  | Some _ => (Err ErrConflict, s)
  | None => (Ok tt, set_nodes <[n_ID n := n]> s)
  end.
Definition Get (id : string) : M Store Node := λ s,
  match c_nodes s !! id with None => (Err ErrNotFound, s) | Some n => (Ok n, s) end.
Definition matches (f : NodeFilter) (n : Node) : bool :=
  let ok want got := bool_decide (want = "") || bool_decide (got = want) in
  ok (nf_Status f) (n_Status n) && ok (nf_Role f) (n_Role n) && ok (nf_Region f) (n_Region n).
Definition List (f : NodeFilter) : M Store (list Node * string) :=
  gets (λ s, (filter (λ n, matches f n = true) (range (c_nodes s)).*2, "")).
Definition Update (n : Node) : M Store unit := λ s,
  match c_nodes s !! n_ID n with
  | None => (Err ErrNotFound, s)
  | Some _ => (Ok tt, set_nodes <[n_ID n := n]> s)
  end.
Definition SetStatus (id : string) (status : NodeStatus) : M Store NodeStatus := λ s,
  match c_nodes s !! id with
  | None => (Err ErrNotFound, s)
  | Some n => (Ok (n_Status n), set_nodes <[id := with_n_Status status n]> s)
  end.
(** The previous status, which the code also returns with the conflict, is not used there. *)
Definition Demote (id : string) : M Store NodeStatus := λ s,
  match c_nodes s !! id with
  | None => (Err ErrNotFound, s)
  | Some n =>
      if one_of (n_Status n) [NodeStatusDraining; NodeStatusRetired] then (Err ErrConflict, s)
      else (Ok (n_Status n), set_nodes <[id := with_n_Status NodeStatusProvisioning n]> s)
  end.
Definition SetEntryIP (id entryIP : string) : M Store unit := λ s,
  match c_nodes s !! id with
  | None => (Err ErrNotFound, s)
  | Some n => (Ok tt, set_nodes <[id := with_n_EntryIP entryIP n]> s)
  end.
Definition ListActive : M Store (list Node) :=
  gets (λ s, filter (λ n, n_Status n = NodeStatusActive) (range (c_nodes s)).*2).
End nodes.
End Nodes.

(** ** Users *)
Module Users.
Section users.
Context `{ord : !MapOrder}.
Definition has_telegram (id : Z) (kv : string * User) : bool := bool_decide (u_TelegramID kv.2 = Some id).
Definition Create (u : User) : M Store unit := λ s,
  match c_users s !! u_ID u with
  | Some _ => (Err ErrConflict, s)
  | None =>
      match u_TelegramID u with
      | Some t => if existsb (has_telegram t) (range (c_users s)) then (Err ErrConflict, s)
                  else (Ok tt, set_users <[u_ID u := u]> s)
      | None => (Ok tt, set_users <[u_ID u := u]> s)
      end
  end.
Definition Get (id : string) : M Store User := λ s,
  match c_users s !! id with None => (Err ErrNotFound, s) | Some u => (Ok u, s) end.
Definition Update (u : User) : M Store unit := λ s,
  match c_users s !! u_ID u with
  | None => (Err ErrNotFound, s)
  | Some _ => (Ok tt, set_users <[u_ID u := u]> s)
  end.
(** The token of each subscription of the user is replaced by a value no token hashes to. *)
Definition revoke_hashes (userID hy2 : string) (s : Store) : Store :=
  let mine := filter (λ kv : string * Subscription, s_UserID kv.2 = userID) (range (c_subs s)) in
  set_hashes (λ h, foldl (λ h kv, <[kv.1 := "revoked:" +:+ hy2]> h) h mine)
    (set_delivery (λ d, foldl (λ d kv, delete kv.1 d) d mine) s).
Definition RotateSecrets (id shortID uuid privKey : string) (token : result string) : M Store User := λ s,
  match c_users s !! id with
  | None => (Err ErrNotFound, s)
  | Some u =>
      match token with
      | Err e => (Err e, s)
      | Ok hy2 =>
          let u := with_u_secrets shortID uuid privKey hy2 u in
          (Ok u, set_users <[id := u]> (revoke_hashes id hy2 s))
      end
  end.
Definition AllActiveIDs : M Store (list string) :=
  gets (λ s, (filter (λ kv : string * User, u_Status kv.2 = UserStatusActive) (range (c_users s))).*1).
Definition GetByTelegram (id : Z) : M Store User := λ s,
  match list_find (λ kv, has_telegram id kv = true) (range (c_users s)) with
  | Some (_, (_, u)) => (Ok u, s)
  | None => (Err ErrNotFound, s)
  end.
End users.
End Users.

(** ** Subscriptions *)
Module Subscriptions.
Section subscriptions.
Context `{ord : !MapOrder}.
Definition CreateAndLink (sub : Subscription) (tokenHash tokenPrefix userID : string) : M Store unit := λ s,
  match c_users s !! userID with
  | None => (Err ErrNotFound, s)
  | Some u =>
      if ptr_set (u_SubscriptionID u) then (Err ErrConflict, s)
      else (Ok tt, set_users <[userID := with_u_link (s_ID sub) (s_UpdatedAt sub) u]>
             (set_hashes <[s_ID sub := tokenHash]> (set_subs <[s_ID sub := with_s_Token "" sub]> s)))
  end.
Definition Create (sub : Subscription) (tokenHash tokenPrefix : string) : M Store unit :=
  modify (λ s, set_hashes <[s_ID sub := tokenHash]> (set_subs <[s_ID sub := with_s_Token "" sub]> s)).
Definition Get (id : string) : M Store Subscription := λ s,
  match c_subs s !! id with None => (Err ErrNotFound, s) | Some sub => (Ok sub, s) end.
Definition Update (sub : Subscription) : M Store unit := λ s,
  match c_subs s !! s_ID sub with
  | None => (Err ErrNotFound, s)
  | Some stored => if 0 <? s_BillingRevision stored then (Err ErrConflict, s)
                   else (Ok tt, set_subs <[s_ID sub := with_s_Token "" sub]> s)
  end.
Definition UpdateTokenHash (id tokenHash tokenPrefix : string) : M Store unit := λ s,
  match c_subs s !! id with
  | None => (Err ErrNotFound, s)
  | Some _ => (Ok tt, set_delivery (delete id) (set_hashes <[id := tokenHash]> s))
  end.

(** At the same revision: the stored fingerprint decides, or the stored fields when there is none. *)
Definition same_revision_conflict (s : Store) (id : string) (sub : Subscription) (state : BillingState) : bool :=
  let fingerprint := default "" (c_billingHashes s !! id) in
  if negb (bool_decide (fingerprint = "")) then negb (bool_decide (fingerprint = BillingFingerprint state (s_Plan sub)))
  else negb (bool_decide (bs_Plan state = "")) && negb (bool_decide (s_Plan sub = bs_Plan state))
       || negb (bool_decide (bs_Status state = s_Status sub))
       || negb (match s_ExpiresAt sub with Some e => TEqual (bs_ExpiresAt state) e | None => false end)
       || negb (match s_GraceUntil sub with Some g => TEqual (bs_GraceUntil state) g | None => false end).
Definition ApplyBillingState (now : Time) (id : string) (state : BillingState) : M Store Subscription := λ s,
  match c_subs s !! id with
  | None => (Err ErrNotFound, s)
  | Some sub =>
      if (bs_Revision state =? s_BillingRevision sub) && same_revision_conflict s id sub state then (Err ErrConflict, s)
      else if s_BillingRevision sub <? bs_Revision state then
        let limited := if bool_decide (bs_Plan state = "") then sub else ApplyPlanLimits sub (bs_Plan state) in
        let updated := with_s_billing state now limited in
        (Ok updated, set_subs <[id := updated]>
           (set_billingHashes <[id := BillingFingerprint state (s_Plan sub)]> s))
      else (Ok sub, s)
  end.
Definition EnsureDeliveryToken (id : string) (candidate : DeliveryToken) : M Store DeliveryToken := λ s,
  match c_subs s !! id with
  | None => (Err ErrNotFound, s)
  | Some _ => match c_delivery s !! id with
              | Some d => (Ok d, s)
              | None => (Ok candidate, set_delivery <[id := candidate]> s)
              end
  end.

(** One iteration of the loop of ResolveTokenHash: the binding, when this subscription gives one. *)
Definition resolves (s : Store) (hash : string) (kv : string * Subscription) : bool :=
  (bool_decide (default "" (c_hashes s !! kv.1) = hash) || bool_decide (dt_Hash (default zero_token (c_delivery s !! kv.1)) = hash))
  && match c_users s !! s_UserID kv.2 with
     | Some u => bool_decide (u_Status u = UserStatusActive) && bool_decide (u_SubscriptionID u = Some kv.1)
     | None => false
     end.
Definition ResolveTokenHash (hash : string) : M Store SubscriptionTokenBinding := λ s,
  match list_find (λ kv, resolves s hash kv = true) (range (c_subs s)) with
  | Some (_, (id, sub)) => (Ok {| tk_UserID := s_UserID sub; tk_SubscriptionID := id |}, s)
  | None => (Err ErrNotFound, s)
  end.
Definition CancelSubscription (now : Time) (id : string) : M Store Subscription := λ s,
  match c_subs s !! id with
  | None => (Err ErrNotFound, s)
  | Some sub => let sub := with_s_period SubscriptionStatusCanceled (s_ExpiresAt sub) now sub in
                (Ok sub, set_subs <[id := sub]> s)
  end.
End subscriptions.
End Subscriptions.

(** ** Rotation history, built sets and signals *)
Module Rotations.
Definition AddNodeRotation (rec : RotationRecord) : M Store unit := modify (set_nodeRecs (λ l, l ++ [rec])).
Definition ListNodeRotations (nodeID : string) (limit : Z) : M Store (list RotationRecord) :=
  gets (λ s, take (Z.to_nat limit) (filter (λ r, rot_NodeID r = nodeID) (reverse (c_nodeRecs s)))).
Definition AddUserSecretRotation (rec : UserSecretRotation) : M Store unit := modify (set_userRecs (λ l, l ++ [rec])).
End Rotations.

Module Sets.
Section sets.
Context `{ord : !MapOrder}.
Definition Get (userID : string) : M Store SubscriptionSet := λ s,
  match c_sets s !! userID with None => (Err ErrNotFound, s) | Some x => (Ok x, s) end.
Definition Upsert (x : SubscriptionSet) : M Store unit := modify (set_sets <[set_UserID x := x]>).
Definition has_node (nodeID : string) (x : SubscriptionSet) : bool := bool_decide (nodeID ∈ set_NodeIDs x).
Definition UserIDsByNode (nodeID : string) : M Store (list string) :=
  gets (λ s, (filter (λ kv : string * SubscriptionSet, has_node nodeID kv.2 = true) (range (c_sets s))).*1).
Definition MarkDirtyByNode (nodeID : string) : M Store unit :=
  modify (set_sets (range_update (λ _ x, if has_node nodeID x then Some (with_Dirty true x) else None))).
End sets.
End Sets.

Module Signals.
Definition AddAggregate (a : SignalAggregate) (blockSignals : Z) (v : Verdict) : M Store unit :=
  modify (set_aggregates (λ l, l ++ [a])).
End Signals.

(** ** The allow-list *)
Module AllowList.
Section allow_list.
Context `{ord : !MapOrder}.
(** The subscription that admits a user at [now], if one does. *)
Definition entitled (s : Store) (now : Time) (u : User) : option Subscription :=
  if negb (bool_decide (u_Status u = UserStatusActive)) then None else
  subID ← u_SubscriptionID u; sub ← c_subs s !! subID;
  if servable (s_Status sub) && negb (lapsed now sub) then Some sub else None.
Definition EligibleRealityUsers (now : Time) : M Store (list RealityUser) := gets (λ s,
  omap (λ u, if is_set (entitled s now u) then Some {| ru_UUID := u_UUID u; ru_ShortID := u_RealityShortID u |} else None)
    (range (c_users s)).*2).

(** The loop over the users: the admitted users and the end of the lease, or a conflict. *)
Fixpoint collect (s : Store) (now : Time) (us : list User) (acc : list AccessUser) (validUntil : Time)
    : result (list AccessUser * Time) :=
  match us with
  | [] => Ok (acc, validUntil)
  | u :: us' =>
      match entitled s now u with
      | None => collect s now us' acc validUntil
      | Some sub =>
          if bool_decide (u_Hysteria2Password u = "") then Err ErrConflict
          else collect s now us' (acc ++ [{| au_UUID := u_UUID u; au_ShortID := u_RealityShortID u;
                                           au_Hysteria2Password := u_Hysteria2Password u |}])
                 (match AccessUntil sub with
                  | Some e => if Before e validUntil then e else validUntil
                  | None => validUntil
                  end)
      end
  end.
Definition EligibleAccessUsers (now : Time) : M Store NodeAccessUsers := λ s,
  (match collect s now (range (c_users s)).*2 [] (Add now (5 * Minute)) with
   | Err e => Err e
   | Ok (users, validUntil) =>
       Ok {| nau_Revision := AccessUsersRevision users; nau_ValidUntil := validUntil; nau_Users := users |}
   end, s).
End allow_list.
End AllowList.

(** ** Guarded activation *)
Module NodeActivator.
Section activator.
Context `{ord : !MapOrder}.
(** The first exit paired with [id] in the order of the iteration is active. *)
Definition exit_active (s : Store) (id : string) : bool :=
  match list_find (λ kv : string * Node, n_Role kv.2 = NodeRoleExit ∧ n_EntryNodeID kv.2 = Some id) (range (c_nodes s)) with
  | Some (_, (_, other)) => bool_decide (n_Status other = NodeStatusActive)
  | None => false
  end.
Definition needs_access (n : Node) (accessRevision : string) : bool :=
  negb (bool_decide (accessRevision = "")) ||
  existsb (λ t, t_Enabled t && bool_decide (t_Type t = TransportHysteria2)) (n_Transports n).
(** The revision check: of the combined credentials when the node needs them, of the REALITY list otherwise. *)
Definition revision_ok (now : Time) (n : Node) (expectedRevision accessRevision : string) : M Store bool :=
  if needs_access n accessRevision then
    snapshot ←! AllowList.EligibleAccessUsers now ;
    mret (negb (bool_decide (accessRevision = "")) && bool_decide (nau_Revision snapshot = accessRevision))
  else
    users ←! AllowList.EligibleRealityUsers now ;
    mret (bool_decide (RealityUsersRevision users = expectedRevision)).
Definition activate (now : Time) (id expectedRevision accessRevision evidence : string) : M Store (Node * NodeStatus) := λ s,
  match c_nodes s !! id with
  | None => (Err ErrNotFound, s)
  | Some n =>
      let commit : M Store (Node * NodeStatus) := λ s,
        (Ok (with_n_Status NodeStatusActive n, n_Status n), set_nodes <[id := with_n_Status NodeStatusActive n]> s) in
      if negb (bool_decide (n_Status n = NodeStatusProvisioning)) then (Err ErrConflict, s)
      else if bool_decide (n_Role n = NodeRoleExit) then
        if negb (ptr_set (n_EntryNodeID n)) then (Err ErrConflict, s)
        else if negb (bool_decide (evidence = ExitDataPlaneVerified)) then (Err ErrConflict, s)
        else commit s
      else if DistinctEnabledTransportTypes (n_Transports n) <? 2 then (Err ErrConflict, s)
      else if negb (exit_active s id) then (Err ErrConflict, s)
      else (ok ←! revision_ok now n expectedRevision accessRevision ;
            if negb ok then fail ErrConflict else commit) s
  end.
Definition Activate (now : Time) (id expectedRevision evidence : string) : M Store (Node * NodeStatus) :=
  activate now id expectedRevision "" evidence.
Definition ActivateAccess (now : Time) (id revision evidence : string) : M Store (Node * NodeStatus) :=
  activate now id "" revision evidence.
End activator.
End NodeActivator.
