(* ===== verification/ControlUse.v ===== *)
(** * The control-plane's use cases (services/control-plane/internal/usecase, adapters/rebuild)

    The services over the repositories, the clock, the random source, the notifier of the subscription
    service and the rebuild queue. A notification's failure is only logged, so the notifier is the list of
    the notifications sent ([cp_revoker]: whether one is configured); the queue is the list of pending jobs. *)
From S2P Require Import Prelude GoBytes GoText GoCodec GoFloat Contracts ControlStore.
Import Domain.

Inductive notice :=
| RevokeUser (userID : string)
| RevokeSubscription (subscriptionID : string)
| RegisterToken (token userID subscriptionID : string).
Inductive job := JobNode (id : string) | JobUser (id : string).

(** [cp_rand]: the bytes the coming [rand.Read] calls deliver; the source fails once they are used up. *)
Record Cp := mkCp {
  cp_store : Store; cp_clock : Time; cp_ticks : list Duration; cp_rand : list (list Z);
  cp_revoker : bool; cp_sent : list notice; cp_jobs : list job }.
Definition with_store (s : Store) (c : Cp) : Cp :=
  mkCp s (cp_clock c) (cp_ticks c) (cp_rand c) (cp_revoker c) (cp_sent c) (cp_jobs c).
Definition repo {A} (m : M Store A) : M Cp A := zoom cp_store with_store m.
Definition now : M Cp Time := λ c,
  (Ok (cp_clock c), mkCp (cp_store c) (cp_clock c + default 0 (head (cp_ticks c))) (tail (cp_ticks c)) (cp_rand c)
                         (cp_revoker c) (cp_sent c) (cp_jobs c)).
Definition notify (n : notice) : M Cp unit := λ c,
  (Ok tt, mkCp (cp_store c) (cp_clock c) (cp_ticks c) (cp_rand c) (cp_revoker c)
               (if cp_revoker c then cp_sent c ++ [n] else cp_sent c) (cp_jobs c)).
Definition enqueue (j : job) : M Cp unit := λ c,
  (Ok tt, mkCp (cp_store c) (cp_clock c) (cp_ticks c) (cp_rand c) (cp_revoker c) (cp_sent c) (cp_jobs c ++ [j])).

(** ** secret.go *)
Definition rand_Read (msg : string) (n : nat) : M Cp (list Z) := λ c,
  match cp_rand c with
  | [] => (Err (Errorf msg), c)
  | b :: bs => (Ok (resize n 0 b), mkCp (cp_store c) (cp_clock c) (cp_ticks c) bs (cp_revoker c) (cp_sent c) (cp_jobs c))
  end.
Definition UUIDv4 : M Cp string := b ←! rand_Read "secret: uuid" 16 ; mret (uuid_of b).
Definition RealityShortID : M Cp string := b ←! rand_Read "secret: short-id" 8 ; mret (hex_encode b).
Definition PrivateKey : M Cp string := b ←! rand_Read "secret: rand" 32 ; mret (base64 false b).
Definition Token : M Cp string := b ←! rand_Read "secret: rand" 32 ; mret (base64 true b).
Definition NodeID : M Cp string := b ←! rand_Read "secret: node id" 6 ; mret ("node-" +:+ hex_encode b).
Definition Prefix (token : string) (n : Z) : string :=
  if Z.of_nat (String.length token) <? n then token else String.substring 0 (Z.to_nat n) token.

(** [fmt.Errorf("%w: ...", domain.ErrX)] *)
Definition invalid {A} (r : result A) : option error :=
  match r with Err _ => Some (Wrap "" ErrValidation) | Ok _ => None end.

(** ** subscriptions.go, launch.go *)
Module SubscriptionService.
Record SubscriptionWithToken := { swt_Subscription : Subscription; swt_PlainToken : string }.
Definition tokenPrefixLen : Z := 8.

Definition Get (id : string) : M Cp Subscription :=
  sub ←! repo (Subscriptions.Get id) ; mret (with_s_Token "" sub).

Definition fresh (id userID plan token : string) (now : Time) (inactive : bool) : Subscription := {|
  s_ID := id; s_UserID := userID; s_Plan := plan;
  s_Status := if inactive then SubscriptionStatusExpired else SubscriptionStatusActive;
  s_Token := token; s_TrafficLimitBytes := 0; s_SpeedLimitMbps := 0; s_DeviceLimit := 0; s_GraceUntil := None;
  s_BillingRevision := 0; s_StartsAt := now; s_ExpiresAt := if inactive then Some now else None;
  s_CreatedAt := now; s_UpdatedAt := now |}.
Definition create (userID : string) (plan : SubscriptionPlan) (inactive : bool) : M Cp SubscriptionWithToken :=
  if negb (SubscriptionPlan_Valid plan) then fail (Wrap "unknown plan" ErrValidation) else
  repo (Users.Get userID) ;;!
  id ←! UUIDv4 ;
  token ←! Token ;
  t ←! now ;
  let sub := ApplyPlanLimits (fresh id userID plan token t inactive) plan in
  match invalid (Subscription_Validate sub) with
  | Some e => fail e
  | None =>
      repo (Subscriptions.CreateAndLink sub (HashToken token) (Prefix token tokenPrefixLen) userID) ;;!
      notify (RegisterToken token userID (s_ID sub)) ;;!
      mret {| swt_Subscription := sub; swt_PlainToken := token |}
  end.
Definition Create (userID : string) (plan : SubscriptionPlan) : M Cp SubscriptionWithToken := create userID plan false.

Definition Ensure (userID : string) (plan : SubscriptionPlan) : M Cp Subscription :=
  if negb (SubscriptionPlan_Valid plan) then fail ErrValidation else
  user ←! repo (Users.Get userID) ;
  match u_SubscriptionID user with
  | Some id => Get id
  | None =>
      res ←! try (create userID plan true) ;
      match res with
      | Ok result => mret (with_s_Token "" (swt_Subscription result))
      | Err e =>
          if errors_is e ErrConflict then
            user ←! repo (Users.Get userID) ;
            match u_SubscriptionID user with
            | Some id => Get id
            | None => mret zero_subscription
            end
          else fail e
      end
  end.

Definition ApplyBillingState (id : string) (state : BillingState) : M Cp Subscription :=
  match invalid (BillingState_Validate state) with
  | Some e => fail e
  | None => t ←! now ; repo (Subscriptions.ApplyBillingState t id (truncated state))
  end.

Definition Patch (id : string) (patch : SubscriptionPatch) : M Cp Subscription :=
  match invalid (SubscriptionPatch_Validate patch) with
  | Some e => fail e
  | None =>
      existing ←! repo (Subscriptions.Get id) ;
      if (0 <? s_BillingRevision existing) && negb (SubscriptionPatch_IsZero patch) then fail ErrConflict
      else if SubscriptionPatch_IsZero patch then mret (with_s_Token "" existing)
      else
        t ←! now ;
        let existing := with_s_period (default (s_Status existing) (p_Status patch))
          (match p_ExpiresAt patch with Some e => Some e | None => s_ExpiresAt existing end) t existing in
        repo (Subscriptions.Update existing) ;;!
        (match p_Status patch with
         | Some st => if negb (servable st) then notify (RevokeSubscription id) else mret tt
         | None => mret tt
         end) ;;!
        mret (with_s_Token "" existing)
  end.
Definition Cancel (id : string) : M Cp Subscription :=
  t ←! now ;
  sub ←! repo (Subscriptions.CancelSubscription t id) ;
  notify (RevokeSubscription id) ;;!
  mret sub.
Definition RotateToken (id : string) : M Cp SubscriptionWithToken :=
  existing ←! repo (Subscriptions.Get id) ;
  token ←! Token ;
  repo (Subscriptions.UpdateTokenHash id (HashToken token) (Prefix token tokenPrefixLen)) ;;!
  t ←! now ;
  notify (RevokeSubscription id) ;;!
  notify (RegisterToken token (s_UserID existing) id) ;;!
  mret {| swt_Subscription := with_s_Token token (with_s_period (s_Status existing) (s_ExpiresAt existing) t existing);
          swt_PlainToken := token |}.

(** *** Delivery links (secret/cipher.go)

    The AES-GCM of the standard library is an authenticated encryption: sealing a plaintext under a
    nonce and associated data, and opening it with the same. *)
Record TokenCipher := { aead : AEAD; cipher_ID : string }.
Definition NewTokenCipher (new_gcm : list Z → AEAD) (key : list Z) : result TokenCipher :=
  if negb (length key =? 32)%nat then Err (Errorf "subscription token key must contain exactly 32 bytes")
  else Ok {| aead := new_gcm key; cipher_ID := hex_encode (take 8 (Sha256.Sum256 key)) |}.
Definition Seal (c : TokenCipher) (subID token : string) : M Cp (list Z) :=
  nonce ←! rand_Read "unexpected EOF" (NonceSize (aead c)) ;
  mret (nonce ++ aead_Seal (aead c) nonce (bytes_of token) (bytes_of subID)).
Definition Open (c : TokenCipher) (subID keyID : string) (data : list Z) : result string :=
  let n := NonceSize (aead c) in
  if negb (bool_decide (keyID = cipher_ID c)) || (length data <? n)%nat
  then Err (Errorf "delivery token key unavailable or ciphertext invalid")
  else match aead_Open (aead c) (take n data) (drop n data) (bytes_of subID) with
       | None => Err (Errorf "delivery token authentication failed")
       | Some b => Ok (string_of_bytes b)
       end.
Definition lift {A} (r : result A) : M Cp A := λ c, (r, c).
(** The gate of DeliveryLink; the clock is read only when the subscription has an end. *)
Definition usable (user : User) (sub : Subscription) : M Cp bool :=
  if negb (bool_decide (u_Status user = UserStatusActive)) || negb (servable (s_Status sub)) then mret false
  else match AccessUntil sub with
       | None => mret true
       | Some e => t ←! now ; mret (After e t)
       end.
Definition DeliveryLink (cipher : option TokenCipher) (id : string) : M Cp (string * string) :=
  match cipher with
  | None => fail (Errorf "delivery token service unavailable")
  | Some c =>
      sub ←! Get id ;
      user ←! repo (Users.Get (s_UserID sub)) ;
      ok ←! usable user sub ;
      if negb ok then fail ErrConflict else
      token ←! Token ;
      encrypted ←! Seal c id token ;
      saved ←! repo (Subscriptions.EnsureDeliveryToken id
                 {| dt_Hash := HashToken token; dt_Ciphertext := encrypted; dt_KeyID := cipher_ID c |}) ;
      token ←! lift (Open c id (dt_KeyID saved) (dt_Ciphertext saved)) ;
      mret (token, id)
  end.
Definition ResolveToken `{ord : !MapOrder} (hash : string) : M Cp SubscriptionTokenBinding :=
  match hex_decode hash with
  | Some b => if (length b =? 32)%nat then repo (Subscriptions.ResolveTokenHash hash) else fail ErrValidation
  | None => fail ErrValidation
  end.
End SubscriptionService.

(** ** users.go *)
Module UserService.
Section users.
Context `{ord : !MapOrder}.
Definition defaultDeviceLimit : Z := 3.
Definition Create (telegramID : option Z) (email : option string) : M Cp User :=
  id ←! UUIDv4 ;
  shortID ←! RealityShortID ;
  uuid ←! UUIDv4 ;
  hy2 ←! Token ;
  privKey ←! PrivateKey ;
  t ←! now ;
  let u := {| u_ID := id; u_TelegramID := telegramID; u_Email := email; u_Status := UserStatusActive;
              u_RealityShortID := shortID; u_UUID := uuid; u_Hysteria2Password := hy2; u_PrivateKey := privKey;
              u_SubscriptionID := None; u_DeviceLimit := defaultDeviceLimit; u_QuotaBytes := 0; u_UsedBytes := 0;
              u_CreatedAt := t; u_UpdatedAt := t |} in
  match invalid (User_Validate u) with
  | Some e => fail e
  | None => repo (Users.Create u) ;;! mret u
  end.
Definition Get (id : string) : M Cp User := repo (Users.Get id).
Definition patched (patch existing : User) (t : Time) : User := {|
  u_ID := u_ID existing; u_TelegramID := u_TelegramID patch; u_Email := u_Email patch; u_Status := u_Status patch;
  u_RealityShortID := u_RealityShortID existing; u_UUID := u_UUID existing;
  u_Hysteria2Password := u_Hysteria2Password existing; u_PrivateKey := u_PrivateKey existing;
  u_SubscriptionID := match u_SubscriptionID patch with Some x => Some x | None => u_SubscriptionID existing end;
  u_DeviceLimit := u_DeviceLimit patch; u_QuotaBytes := u_QuotaBytes patch; u_UsedBytes := u_UsedBytes patch;
  u_CreatedAt := u_CreatedAt existing; u_UpdatedAt := t |}.
Definition Update (id : string) (patch : User) : M Cp User :=
  existing ←! repo (Users.Get id) ;
  t ←! now ;
  let existing := patched patch existing t in
  match invalid (User_Validate existing) with
  | Some e => fail e
  | None =>
      repo (Users.Update existing) ;;!
      (if negb (bool_decide (u_Status existing = UserStatusActive)) then notify (RevokeUser id) else mret tt) ;;!
      mret existing
  end.
Definition RotateSecrets (id reason : string) : M Cp User :=
  existing ←! repo (Users.Get id) ;
  shortID ←! RealityShortID ;
  uuid ←! UUIDv4 ;
  privKey ←! PrivateKey ;
  hy2 ←! try Token ;
  updated ←! repo (Users.RotateSecrets id shortID uuid privKey hy2) ;
  histID ←! UUIDv4 ;
  t ←! now ;
  repo (Rotations.AddUserSecretRotation {|
    usr_ID := histID; usr_UserID := id; usr_OldRealityShortID := u_RealityShortID existing;
    usr_OldVlessUUID := u_UUID existing;
    usr_Reason := if bool_decide (reason = "") then "rotate-secrets" else reason; usr_CreatedAt := t |}) ;;!
  notify (RevokeUser id) ;;!
  enqueue (JobUser id) ;;!
  mret updated.
Definition EnsureTelegram (id : Z) : M Cp User :=
  if id <=? 0 then fail ErrValidation else
  found ←! try (repo (Users.GetByTelegram id)) ;
  match found with
  | Ok u => mret u
  | Err e =>
      if negb (errors_is e ErrNotFound) then fail e else
      res ←! try (Create (Some id) None) ;
      match res with
      | Ok u => mret u
      | Err e => if errors_is e ErrConflict then repo (Users.GetByTelegram id) else fail e
      end
  end.
End users.
End UserService.
