(* ===== verification/ControlFleet.v ===== *)
(** * The fleet side of the control-plane (usecase: nodes.go, signals.go, bundle.go, allowlist.go; rebuild)

    The node registry with its history and rebuild jobs, the verdicts on telemetry aggregates, the
    per-user sets and the workers that rebuild them. *)
From S2P Require Import Prelude GoBytes GoText GoFloat Contracts ControlStore ControlUse.
Import Domain.

(** ** nodes.go *)
Module NodeService.
Section nodes.
Context `{ord : !MapOrder}.
Definition recordRotation (nodeID : string) (from : option NodeStatus) (to : NodeStatus) (reason entryIP actor : string) : M Cp unit :=
  id ←! UUIDv4 ;
  t ←! now ;
  wrapping "record rotation" (repo (Rotations.AddNodeRotation {|
    rot_ID := id; rot_NodeID := nodeID; rot_FromStatus := from; rot_ToStatus := to; rot_Reason := reason;
    rot_EntryIP := entryIP; rot_Actor := actor; rot_CreatedAt := t |})).

Definition after_activation (id actor : string) (np : Node * NodeStatus) : M Cp Node :=
  ignore (recordRotation id (Some np.2) (n_Status np.1) "activate" (n_EntryIP np.1) actor) ;;!
  enqueue (JobNode id) ;;!
  mret np.1.
Definition Activate (id expectedRevision evidence actor : string) : M Cp Node :=
  t ←! now ;
  np ←! repo (NodeActivator.Activate t id expectedRevision evidence) ;
  after_activation id actor np.
Definition ActivateAccess (id revision evidence actor : string) : M Cp Node :=
  t ←! now ;
  np ←! repo (NodeActivator.ActivateAccess t id revision evidence) ;
  after_activation id actor np.

Definition Register (n : Node) (actor : string) : M Cp Node :=
  id ←! (if bool_decide (n_ID n = "") then NodeID else mret (n_ID n)) ;
  let n := with_n_Status (if bool_decide (n_Status n = "") then NodeStatusProvisioning else n_Status n) n in
  if bool_decide (n_Status n = NodeStatusActive) then fail (Wrap "register" ErrConflict) else
  created ←! (if IsZero (n_CreatedAt n) then now else mret (n_CreatedAt n)) ;
  let n := with_n_identity id created n in
  match invalid (Node_Validate n) with
  | Some e => fail e
  | None =>
      repo (Nodes.Create n) ;;!
      recordRotation (n_ID n) None (n_Status n) "register" (n_EntryIP n) actor ;;!
      mret n
  end.
Definition Get (id : string) : M Cp Node := repo (Nodes.Get id).
Definition List (f : NodeFilter) : M Cp (list Node * string) :=
  let limit := if (nf_Limit f <=? 0) || (1000 <? nf_Limit f) then 100 else nf_Limit f in
  repo (Nodes.List {| nf_Status := nf_Status f; nf_Role := nf_Role f; nf_Region := nf_Region f; nf_Limit := limit; nf_Cursor := nf_Cursor f |}).
Definition Update (id : string) (n : Node) (actor : string) : M Cp Node :=
  existing ←! repo (Nodes.Get id) ;
  let n := with_n_identity (n_ID existing) (n_CreatedAt existing) n in
  if bool_decide (n_Status n = NodeStatusActive) && negb (bool_decide (n_Status existing = NodeStatusActive))
  then fail (Wrap "requires activate" ErrConflict)
  else match invalid (Node_Validate n) with
  | Some e => fail e
  | None =>
      repo (Nodes.Update n) ;;!
      (if negb (bool_decide (n_Status existing = n_Status n))
       then recordRotation id (Some (n_Status existing)) (n_Status n) "update" (n_EntryIP n) actor else mret tt) ;;!
      enqueue (JobNode id) ;;!
      mret n
  end.
Definition Rotate (id newEntryIP reason actor : string) : M Cp Node :=
  node ←! repo (Nodes.Get id) ;
  node ←! (if negb (bool_decide (newEntryIP = ""))
           then repo (Nodes.SetEntryIP id newEntryIP) ;;! mret (with_n_EntryIP newEntryIP node) else mret node) ;
  recordRotation id (Some (n_Status node)) (n_Status node) (if bool_decide (reason = "") then "rotate" else reason) (n_EntryIP node) actor ;;!
  enqueue (JobNode id) ;;!
  mret node.
Definition Retire (id actor : string) : M Cp unit :=
  prev ←! repo (Nodes.SetStatus id NodeStatusRetired) ;
  recordRotation id (Some prev) NodeStatusRetired "retire" "" actor ;;!
  enqueue (JobNode id).
Definition Demote (id actor : string) : M Cp Node :=
  prev ←! repo (Nodes.Demote id) ;
  ignore (recordRotation id (Some prev) NodeStatusProvisioning "demote" "" actor) ;;!
  enqueue (JobNode id) ;;!
  repo (Nodes.Get id).
Definition History (id : string) (limit : Z) : M Cp (list RotationRecord) :=
  repo (Rotations.ListNodeRotations id (if (limit <=? 0) || (500 <? limit) then 100 else limit)).
Definition setStatusIfChanged (id : string) (to : NodeStatus) (reason actor : string) : M Cp (NodeStatus * bool) :=
  prev ←! repo (Nodes.SetStatus id to) ;
  if bool_decide (prev = to) then mret (prev, false) else
  recordRotation id (Some prev) to reason "" actor ;;!
  enqueue (JobNode id) ;;!
  mret (prev, true).
End nodes.
End NodeService.

(** ** signals.go *)
Module SignalService.
Section signals.
Context `{ord : !MapOrder}.
Definition SignalOK : string := "ok".
Definition blockClassSignals : list string := ["reset"; "timeout"; "dpi_block"; "dns_poison"; "handshake_fail"; "probe"].
Definition blockedRatioThreshold : float64 := fdiv (of_int 5) (of_int 10).
Definition degradedRatioThreshold : float64 := fdiv (of_int 3) (of_int 10).

Definition block_signals (a : SignalAggregate) : Z :=
  foldl (λ n kv, if one_of kv.1 blockClassSignals then wrap64 (n + kv.2) else n) 0 (range (ag_BySignal a)).
Definition failures (a : SignalAggregate) : Z :=
  Z.max 0 (wrap64 (ag_Total a - default 0 (ag_BySignal a !! SignalOK))).
Definition verdict_of (block failed total : Z) : Verdict :=
  if fle blockedRatioThreshold (fdiv (of_int block) (of_int total)) then VerdictBlocked
  else if fle degradedRatioThreshold (fdiv (of_int failed) (of_int total)) then VerdictDegraded
  else VerdictHealthy.
Definition classify (a : SignalAggregate) : Z * Verdict :=
  (block_signals a, verdict_of (block_signals a) (failures a) (ag_Total a)).
Definition rank (v : Verdict) : Z :=
  if bool_decide (v = VerdictBlocked) then 2 else if bool_decide (v = VerdictDegraded) then 1 else 0.

Definition target_status (cur : NodeStatus) (verdict : Verdict) : option NodeStatus :=
  if negb (one_of cur [NodeStatusActive; NodeStatusDegraded; NodeStatusBlocked]) then None else
  if bool_decide (verdict = VerdictBlocked) then Some NodeStatusBlocked
  else if bool_decide (cur = NodeStatusBlocked) then None
  else if bool_decide (verdict = VerdictDegraded) then Some NodeStatusDegraded else Some NodeStatusActive.
Definition applyVerdict (nodeID : string) (verdict : Verdict) (actor : string) : M Cp (option NodeStatusChange) :=
  node ←! repo (Nodes.Get nodeID) ;
  match target_status (n_Status node) verdict with
  | None => mret None
  | Some target =>
      if bool_decide (target = n_Status node) then mret None else
      fc ←! NodeService.setStatusIfChanged nodeID target ("field-signal:" +:+ verdict) actor ;
      mret (if (fc.2 : bool) then Some {| ch_NodeID := nodeID; ch_From := fc.1; ch_To := target |} else None)
  end.

(** The first loop: store the aggregates, keep the worst verdict of each node. *)
Fixpoint collect (aggregates : list SignalAggregate) (worst : gmap string Verdict) : M Cp (gmap string Verdict) :=
  match aggregates with
  | [] => mret worst
  | a :: as' =>
      if ag_Total a <=? 0 then collect as' worst else
      let '(block, verdict) := classify a in
      repo (Signals.AddAggregate a block verdict) ;;!
      collect as' (if rank (default "" (worst !! ag_NodeID a)) <? rank verdict then <[ag_NodeID a := verdict]> worst else worst)
  end.
Fixpoint apply_all (verdicts : list (string * Verdict)) (actor : string) (changes : list NodeStatusChange) : M Cp (list NodeStatusChange) :=
  match verdicts with
  | [] => mret changes
  | (nodeID, verdict) :: vs =>
      res ←! try (applyVerdict nodeID verdict actor) ;
      match res with
      | Err e => if errors_is e ErrNotFound then apply_all vs actor changes else fail e
      | Ok change => apply_all vs actor (changes ++ option_list change)
      end
  end.
Definition Ingest (aggregates : list SignalAggregate) (actor : string) : M Cp (list NodeStatusChange) :=
  worst ←! collect aggregates ∅ ;
  apply_all (range worst) actor [].
End signals.
End SignalService.

(** ** bundle.go *)
Module BundleService.
Section bundle.
Context `{ord : !MapOrder}.
Definition Build (userID : string) : M Cp SubscriptionSet :=
  user ←! repo (Users.Get userID) ;
  nodes ←! repo Nodes.ListActive ;
  prev ←! try (repo (Sets.Get userID)) ;
  prevRev ←! (match prev with
              | Ok p => mret (set_Revision p)
              | Err e => if errors_is e ErrNotFound then mret 0 else fail e
              end) ;
  t ←! now ;
  t' ←! now ;
  let set := {| set_UserID := userID; set_Revision := wrap64 (prevRev + 1); set_NodeIDs := n_ID <$> nodes;
                set_Bundle := {| sb_User := withoutPrivateKey user; sb_Nodes := nodes; sb_GeneratedAt := t |};
                set_Dirty := false; set_GeneratedAt := t' |} in
  repo (Sets.Upsert set) ;;!
  mret set.
Definition GetForUser (userID : string) : M Cp SubscriptionSet :=
  res ←! try (repo (Sets.Get userID)) ;
  match res with
  | Err e => if errors_is e ErrNotFound then Build userID else fail e
  | Ok set => if set_Dirty set then Build userID else mret set
  end.
End bundle.
End BundleService.

(** ** allowlist.go *)
Module AllowListService.
Section allow.
Context `{ord : !MapOrder}.
Record NodeRealityUsers := { nru_Revision : string; nru_Users : list RealityUser }.
Definition ForNode (nodeID : string) : M Cp NodeRealityUsers :=
  repo (Nodes.Get nodeID) ;;!
  t ←! now ;
  users ←! repo (AllowList.EligibleRealityUsers t) ;
  mret {| nru_Revision := RealityUsersRevision users; nru_Users := users |}.
Definition AccessForNode (id : string) : M Cp NodeAccessUsers :=
  repo (Nodes.Get id) ;;!
  t ←! now ;
  repo (AllowList.EligibleAccessUsers t).
End allow.
End AllowListService.

(** ** rebuild/queue.go: what a worker does with a job *)
Module Queue.
Section queue.
Context `{ord : !MapOrder}.
Fixpoint build_all (users : list string) : M Cp unit :=
  match users with
  | [] => mret tt
  | uid :: us => ignore (BundleService.Build uid) ;;! build_all us
  end.
Definition process (j : job) : M Cp unit :=
  match j with
  | JobUser id => ignore (BundleService.Build id)
  | JobNode id =>
      ignore (repo (Sets.MarkDirtyByNode id)) ;;!
      users ←! repo (Sets.UserIDsByNode id) ;
      build_all users
  end.
(** A worker takes the oldest job of the channel. *)
Definition worker_step : M Cp unit := λ c,
  match cp_jobs c with
  | [] => (Ok tt, c)
  | j :: js => process j (mkCp (cp_store c) (cp_clock c) (cp_ticks c) (cp_rand c) (cp_revoker c) (cp_sent c) js)
  end.
End queue.
End Queue.
