(* ===== verification/ControlLaws.v ===== *)
(** * The control-plane keeps billing's contract

    [SubscriptionService] (Ensure, ApplyBillingState) over the in-memory repositories implements the
    interface billing relies on ([BillingClient]) and obeys its laws: revisions fence, an accepted push is
    in force, retries of an applied state never conflict. Every theorem of the outbox therefore holds of
    the two services together, also across a network that loses requests and responses. *)
From S2P Require Import Prelude GoBytes GoText GoCodec Contracts BillingClient BillingStore BillingLedger BillingOutbox.
From S2P Require Import ControlStore ControlUse.

#[export] Instance Cp_billing : BillingClient Cp := {|
  EnsureSubscription := SubscriptionService.Ensure; SetBillingState := SubscriptionService.ApplyBillingState |}.

Definition Cp_applied (c : Cp) (sub : string) : option BillingState := s ← c_subs (cp_store c) !! sub; billing_state_of s.

(** A subscription has never been billed, or carries a whole billing state and its fingerprint. *)
Definition billed_ok (s : Store) (id : string) (sub : Subscription) : Prop :=
  s_BillingRevision sub = 0 ∧ c_billingHashes s !! id = None ∨
  0 < s_BillingRevision sub ∧
    ∃ a, billing_state_of sub = Some a ∧ c_billingHashes s !! id = Some (BillingFingerprint a (s_Plan sub)).
(** The subscription id the random source's block [b] would give. *)
Definition block_id (b : list Z) : string := uuid_of (resize 16 0 b).
Record Cp_ok (c : Cp) : Prop := {
  ck_billed : ∀ id sub, c_subs (cp_store c) !! id = Some sub → billed_ok (cp_store c) id sub;
  ck_hashes : ∀ id, c_subs (cp_store c) !! id = None → c_billingHashes (cp_store c) !! id = None;
  ck_fresh : ∀ b, b ∈ cp_rand c → c_subs (cp_store c) !! block_id b = None;
  ck_distinct : NoDup (block_id <$> cp_rand c)
}.

(** ** Ensure creates at most one fresh, unbilled subscription *)
(** [c'] after a call that left the repositories alone, or linked a fresh subscription. *)
Definition ensured (c c' : Cp) : Prop :=
  ∃ n, cp_rand c' = drop n (cp_rand c) ∧
    (cp_store c' = cp_store c ∨
     ∃ b rest sub h pfx u, cp_rand c = b :: rest ∧ (1 <= n)%nat ∧ s_ID sub = block_id b ∧ s_UserID sub = u ∧ s_BillingRevision sub = 0 ∧
       cp_store c' = (Subscriptions.CreateAndLink sub h pfx u (cp_store c)).2).

Lemma ApplyPlanLimits_fields sub p :
  s_ID (ApplyPlanLimits sub p) = s_ID sub ∧ s_UserID (ApplyPlanLimits sub p) = s_UserID sub ∧
  s_Plan (ApplyPlanLimits sub p) = p ∧ s_Status (ApplyPlanLimits sub p) = s_Status sub ∧
  s_BillingRevision (ApplyPlanLimits sub p) = s_BillingRevision sub.
Proof. unfold ApplyPlanLimits. by repeat case_bool_decide. Qed.

Lemma ensured_same c c' n : cp_rand c' = drop n (cp_rand c) → cp_store c' = cp_store c → ensured c c'.
Proof. intros H1 H2. exists n. auto. Qed.

Lemma create_ensured u p inactive c : ensured c (SubscriptionService.create u p inactive c).2.
Proof.
  unfold SubscriptionService.create. destruct (negb _); [by apply (ensured_same _ _ 0)|].
  unfold mbind, M_bind, repo at 1, zoom at 1, Users.Get. destruct (c_users (cp_store c) !! u); [|by destruct c; apply (ensured_same _ _ 0)].
  unfold UUIDv4, Token, mbind, M_bind, rand_Read. cbn [cp_rand with_store].
  destruct (cp_rand c) as [|b [|b2 bs]] eqn:Er; cbn [mret M_ret cp_rand];
    [apply (ensured_same _ _ 0); [by rewrite Er|done]|apply (ensured_same _ _ 1); [by rewrite Er|done]|].
  unfold now. cbn [cp_clock cp_store cp_rand cp_ticks cp_revoker cp_sent cp_jobs with_store].
  set (sub := ApplyPlanLimits _ p). destruct (invalid _); [apply (ensured_same _ _ 2); [by rewrite Er|done]|].
  unfold repo, zoom. cbn [cp_store].
  destruct (Subscriptions.CreateAndLink sub _ _ u (cp_store c)) as [r s'] eqn:El.
  exists 2%nat.
  split; [by destruct r; rewrite Er|]. right. eexists b, (b2 :: bs), sub, _, _, u. split; [done|]. split; [lia|].
  destruct (ApplyPlanLimits_fields (SubscriptionService.fresh (uuid_of (resize 16 0 b)) u p (base64 true (resize 32 0 b2)) (cp_clock c) inactive) p)
    as (Hid & Hu & _ & _ & Hrev).
  split; [exact Hid|]. split; [exact Hu|]. split; [exact Hrev|]. rewrite El. by destruct r.
Qed.

Lemma Get_same id c : (SubscriptionService.Get id c).2 = c.
Proof.
  unfold SubscriptionService.Get, mbind, M_bind, repo, zoom, Subscriptions.Get.
  destruct (c_subs (cp_store c) !! id); by destruct c.
Qed.
Lemma Users_Get_repo u c : repo (Users.Get u) c =
  (match c_users (cp_store c) !! u with None => Err Domain.ErrNotFound | Some x => Ok x end, c).
Proof. unfold repo, zoom, Users.Get. destruct (c_users (cp_store c) !! u); by destruct c. Qed.

Lemma Ensure_ensured u p c : ensured c (SubscriptionService.Ensure u p c).2.
Proof.
  unfold SubscriptionService.Ensure. destruct (negb _); [by apply (ensured_same _ _ 0)|].
  unfold mbind at 1, M_bind at 1. rewrite Users_Get_repo.
  destruct (c_users (cp_store c) !! u) as [usr|]; [|by apply (ensured_same _ _ 0)].
  destruct (u_SubscriptionID usr); [rewrite Get_same; by apply (ensured_same _ _ 0)|].
  unfold mbind at 1, M_bind at 1, try. pose proof (create_ensured u p true c) as He.
  destruct (SubscriptionService.create u p true c) as [[r|e] c1]; [done|].
  destruct (errors_is e _); [|done]. unfold mbind, M_bind. rewrite Users_Get_repo.
  destruct (c_users (cp_store c1) !! u) as [usr1|]; [|done]. destruct (u_SubscriptionID usr1); [by rewrite Get_same|done].
Qed.

Lemma CreateAndLink_subs sub h pfx u s :
  let s' := (Subscriptions.CreateAndLink sub h pfx u s).2 in
  c_billingHashes s' = c_billingHashes s ∧ (c_subs s' = c_subs s ∨ c_subs s' = <[s_ID sub := with_s_Token "" sub]> (c_subs s)).
Proof.
  unfold Subscriptions.CreateAndLink. destruct (c_users s !! u); [|by auto]. destruct (ptr_set _); simpl; auto.
Qed.

(** What [ensured] says about the subscriptions, for a state with fresh ids to come. *)
Lemma ensured_subs c c' : Cp_ok c → ensured c c' →
  c_billingHashes (cp_store c') = c_billingHashes (cp_store c) ∧
  ∃ n, cp_rand c' = drop n (cp_rand c) ∧
    (c_subs (cp_store c') = c_subs (cp_store c) ∨
     ∃ b rest sub, cp_rand c = b :: rest ∧ (1 <= n)%nat ∧ s_BillingRevision sub = 0 ∧ c_subs (cp_store c) !! block_id b = None ∧
       c_subs (cp_store c') = <[block_id b := sub]> (c_subs (cp_store c))).
Proof.
  intros [_ _ Hf _] (n & Hr & [->|(b & rest & sub & h & pfx & u & Hb & Hn & Hid & _ & Hrev & ->)]); [eauto|].
  destruct (CreateAndLink_subs sub h pfx u (cp_store c)) as [-> [->| ->]]; [eauto|]. split; [done|]. exists n. split; [done|].
  right. exists b, rest, (with_s_Token "" sub). rewrite Hid. split_and!; try done. apply Hf. rewrite Hb. left.
Qed.

Lemma Ensure_keeps_ok u p c : Cp_ok c → Cp_ok (SubscriptionService.Ensure u p c).2.
Proof.
  intros Hok. destruct (ensured_subs _ _ Hok (Ensure_ensured u p c)) as (Eh & n & Er & Hs).
  pose proof Hok as [Hb Hh Hf Hd].
  set (c' := (SubscriptionService.Ensure u p c).2) in *. split.
  - intros id sub. unfold billed_ok. rewrite Eh. destruct Hs as [->|(b & rest & s0 & Hc & _ & Hrev & Hnone & ->)]; [apply Hb|].
    intros [[<- <-]|[_ Hs]]%lookup_insert_Some; [left; auto|by apply Hb].
  - intros id. rewrite Eh. destruct Hs as [->|(b & rest & s0 & Hc & _ & Hrev & Hnone & ->)]; [apply Hh|].
    intros [? _]%lookup_insert_None. by apply Hh.
  - intros b. rewrite Er. intros Hin. destruct Hs as [->|(b0 & rest & s0 & Hc & Hn & Hrev & Hnone & ->)].
    + apply Hf. by apply (subseteq_drop n).
    + assert (b ∈ rest) as Hrest. { destruct n; [lia|]. rewrite Hc in Hin. simpl in Hin. by apply (subseteq_drop n). }
      rewrite lookup_insert_ne; [apply Hf; rewrite Hc; by right|].
      intros Heq. rewrite Hc in Hd. apply NoDup_cons in Hd as [Hd _]. apply Hd. rewrite Heq. by apply list_elem_of_fmap_2.
  - rewrite Er, fmap_drop. rewrite <-(take_drop n (block_id <$> cp_rand c)) in Hd. by apply NoDup_app in Hd as (_ & _ & Hd).
Qed.

Lemma Ensure_keeps_applied u p c sub : Cp_ok c → Cp_applied (SubscriptionService.Ensure u p c).2 sub = Cp_applied c sub.
Proof.
  intros Hok. destruct (ensured_subs _ _ Hok (Ensure_ensured u p c)) as (_ & n & _ & Hs). unfold Cp_applied.
  destruct Hs as [->|(b & rest & s0 & _ & _ & Hrev & Hnone & ->)]; [done|].
  destruct (decide (sub = block_id b)) as [->|Hne]; [|by rewrite lookup_insert_ne].
  rewrite lookup_insert_eq, Hnone. cbn. unfold billing_state_of. by rewrite Hrev.
Qed.

(** The fingerprint depends on what the subscription shows after the state is applied. *)
Lemma fingerprint_agrees a st plan :
  bs_Plan a = plan → agrees a (truncated st) → BillingFingerprint (truncated st) plan = BillingFingerprint a plan.
Proof.
  intros Ha (Hr & Hs & He & Hg & Hp). unfold BillingFingerprint. do 4 f_equal. unfold truncated, with_plan_of.
  simpl in *. rewrite He, Hg, Hr, Hs. f_equal.
  destruct (decide (bs_Plan st = "")) as [E|E]; [|rewrite !(bool_decide_false _ E)].
  - rewrite (bool_decide_true _ E). case_bool_decide; congruence.
  - rewrite Hp by done. by rewrite (bool_decide_false _ E).
Qed.

(** The three things a push can do. *)
Lemma Set_cases id st c :
  let out := SubscriptionService.ApplyBillingState id st c in
  cp_rand out.2 = cp_rand c ∧
  ((cp_store out.2 = cp_store c ∧
     (∀ s, out.1 = Ok s → ∃ sub, c_subs (cp_store c) !! id = Some sub ∧ bs_Revision st <= s_BillingRevision sub) ∧
     (BillingState_Validate st = Ok tt → ∀ sub, c_subs (cp_store c) !! id = Some sub → is_ok out.1 = false →
        bs_Revision st = s_BillingRevision sub ∧ Subscriptions.same_revision_conflict (cp_store c) id sub (truncated st) = true))
   ∨ ∃ sub t, c_subs (cp_store c) !! id = Some sub ∧ s_BillingRevision sub < bs_Revision st ∧ 0 < bs_Revision st ∧
       let new := with_s_billing (truncated st) t (if bool_decide (bs_Plan st = "") then sub else ApplyPlanLimits sub (bs_Plan st)) in
       out.1 = Ok new ∧ c_subs (cp_store out.2) = <[id := new]> (c_subs (cp_store c)) ∧
       c_billingHashes (cp_store out.2) = <[id := BillingFingerprint (truncated st) (s_Plan sub)]> (c_billingHashes (cp_store c))).
Proof.
  cbv zeta. unfold SubscriptionService.ApplyBillingState. destruct (BillingState_Validate st) as [[]|e] eqn:Ev; simpl.
  2:{ split; [done|]. left. split_and!; done. }
  assert (0 < bs_Revision st) as Hpos.
  { revert Ev. unfold BillingState_Validate. destruct (_ || _) eqn:E; [done|]. intros _.
    rewrite !orb_false_iff in E. destruct E as [[[[_ E] _] _] _]. apply Z.leb_gt in E. lia. }
  unfold mbind, M_bind, now, repo, zoom, Subscriptions.ApplyBillingState. simpl.
  destruct (c_subs (cp_store c) !! id) as [sub|] eqn:Es; simpl; [|split; [done|]; left; split_and!; done].
  destruct (Z.eqb_spec (bs_Revision st) (s_BillingRevision sub)) as [Heq|Hne]; simpl.
  - destruct (Subscriptions.same_revision_conflict _ _ _ _) eqn:Ec; simpl.
    + split; [done|]. left. split_and!; [done..|]. intros _ sub' [= <-] _. done.
    + rewrite (proj2 (Z.ltb_ge _ _)) by lia. simpl. split; [done|]. left. split_and!; [done| |done].
      intros s _. exists sub. split; [done|lia].
  - destruct (Z.ltb_spec (s_BillingRevision sub) (bs_Revision st)); simpl; (split; [done|]).
    + right. exists sub, (cp_clock c). split_and!; done.
    + left. split_and!; [done| |done]. intros s _. exists sub. split; [done|lia].
Qed.

(** What a subscription shows after a state was applied to it. *)
Lemma applied_state st t sub :
  0 < bs_Revision st →
  let new := with_s_billing (truncated st) t (if bool_decide (bs_Plan st = "") then sub else ApplyPlanLimits sub (bs_Plan st)) in
  ∃ a, billing_state_of new = Some a ∧ agrees a (truncated st) ∧ bs_Plan a = s_Plan new ∧
       BillingFingerprint (truncated st) (s_Plan sub) = BillingFingerprint a (s_Plan new).
Proof.
  intros Hpos. cbv zeta. set (base := if bool_decide (bs_Plan st = "") then sub else _).
  assert (s_Plan base = if bool_decide (bs_Plan st = "") then s_Plan sub else bs_Plan st) as Hplan.
  { unfold base. case_bool_decide; [done|]. apply ApplyPlanLimits_fields. }
  unfold billing_state_of. simpl. rewrite (proj2 (Z.eqb_neq _ _)) by lia. simpl. eexists. split; [reflexivity|].
  assert (agrees {| bs_Plan := s_Plan base; bs_Revision := bs_Revision st; bs_Status := bs_Status st;
      bs_ExpiresAt := Truncate (bs_ExpiresAt st) Microsecond; bs_GraceUntil := Truncate (bs_GraceUntil st) Microsecond |} (truncated st)) as Hag.
  { split_and!; try done. simpl. intros Hne. rewrite Hplan. by rewrite (bool_decide_false _ Hne). }
  split; [done|]. split; [done|]. rewrite <-(fingerprint_agrees _ st (s_Plan base)); [|done|done].
  unfold BillingFingerprint. do 4 f_equal. unfold truncated, with_plan_of. simpl. f_equal.
  destruct (decide (bs_Plan st = "")) as [E|E]; [|by rewrite !(bool_decide_false _ E)].
  rewrite !(bool_decide_true _ E) in *. done.
Qed.

#[local] Opaque BillingFingerprint.

Lemma Cp_revision c id sub : Cp_ok c → c_subs (cp_store c) !! id = Some sub →
  revision_of (Cp_applied c id) = s_BillingRevision sub.
Proof.
  intros Hok Hs. unfold Cp_applied. rewrite Hs. cbn. destruct (ck_billed _ Hok _ _ Hs) as [[H0 _]|(Hpos & a & Ha & _)].
  - unfold billing_state_of. by rewrite H0.
  - rewrite Ha. revert Ha. unfold billing_state_of. destruct (_ =? _); [done|].
    destruct (s_ExpiresAt sub), (s_GraceUntil sub); simpl; try done. by intros [= <-].
Qed.

Lemma Set_keeps_ok id st c : Cp_ok c → Cp_ok (SubscriptionService.ApplyBillingState id st c).2.
Proof.
  intros Hok. pose proof Hok as [Hb Hh Hf Hd]. destruct (Set_cases id st c) as [Er Hcase].
  destruct (SubscriptionService.ApplyBillingState id st c) as [r c']. cbn [fst snd] in *.
  destruct Hcase as [(Es & _)|(sub & t & Hs & Hlt & Hpos & _ & Esub & Ehash)].
  - split; rewrite ?Es, ?Er; done.
  - destruct (applied_state st t sub Hpos) as (a & Ha & Hag & Hplan & Hfp).
    set (new := with_s_billing _ t _) in *. split; rewrite ?Er.
    + intros id' sub'. unfold billed_ok. rewrite Esub, Ehash.
      intros [[<- <-]|[Hne Hs']]%lookup_insert_Some.
      * right. rewrite lookup_insert_eq. split; [done|]. exists a. split; [done|]. by rewrite Hfp.
      * rewrite lookup_insert_ne by done. by apply Hb.
    + intros id'. rewrite Esub, Ehash. intros [? Hne]%lookup_insert_None. rewrite lookup_insert_ne by done. by apply Hh.
    + intros b Hin. rewrite Esub. rewrite lookup_insert_ne; [by apply Hf|]. intros ->. by rewrite (Hf b Hin) in Hs.
    + done.
Qed.

Lemma same_revision_accepts c id sub st a : Cp_ok c → c_subs (cp_store c) !! id = Some sub →
  billing_state_of sub = Some a → agrees a (truncated st) →
  Subscriptions.same_revision_conflict (cp_store c) id sub (truncated st) = false.
Proof.
  intros Hok Hs Ha Hag. destruct (ck_billed _ Hok _ _ Hs) as [[H0 _]|(Hpos & a' & Ha' & Hfp)].
  { unfold billing_state_of in Ha. rewrite H0 in Ha. done. }
  simplify_eq. unfold Subscriptions.same_revision_conflict. rewrite Hfp. simpl.
  assert (bs_Plan a = s_Plan sub ∧ s_ExpiresAt sub = Some (bs_ExpiresAt a) ∧ s_GraceUntil sub = Some (bs_GraceUntil a) ∧ bs_Status a = s_Status sub)
    as (Hp & He & Hg & Hst).
  { revert Ha. unfold billing_state_of. destruct (_ =? _); [done|].
    destruct (s_ExpiresAt sub), (s_GraceUntil sub); simpl; try done. by intros [= <-]. }
  rewrite (fingerprint_agrees a st (s_Plan sub)) by done. rewrite (bool_decide_true (_ = BillingFingerprint a _)) by done.
  destruct (bool_decide (BillingFingerprint a (s_Plan sub) = "")); [|done]. simpl.
  destruct Hag as (Hr' & Hs' & He' & Hg' & Hp'). rewrite He, Hg. unfold TEqual. simpl in *.
  rewrite <-He', <-Hg', !Z.eqb_refl, <-Hs', Hst. rewrite (bool_decide_true (s_Status sub = _)) by done. simpl. rewrite !orb_false_r.
  destruct (decide (bs_Plan st = "")) as [E|E]; [by rewrite (bool_decide_true _ E)|].
  rewrite (bool_decide_true (s_Plan sub = _)) by (rewrite <-Hp; auto). by rewrite andb_false_r.
Qed.

#[export, refine] Instance Cp_laws : BillingLaws Cp := {|
  applied := Cp_applied; norm := truncated; client_ok := Cp_ok; serving c sub := is_Some (c_subs (cp_store c) !! sub) |}.
Proof.
  - done.
  - done.
  - intros u p c. apply Ensure_keeps_ok.
  - intros u p c sub. apply Ensure_keeps_applied.
  - intros id st c. apply Set_keeps_ok.
  - intros id st c id' Hok Hne. simpl. destruct (Set_cases id st c) as [_ Hcase]. unfold Cp_applied.
    destruct Hcase as [(-> & _)|(sub & t & _ & _ & _ & _ & -> & _)]; [done|]. by rewrite lookup_insert_ne.
  - intros id st c Hok. simpl. destruct (Set_cases id st c) as [_ Hcase].
    destruct Hcase as [(Es & _)|(sub & t & Hs & Hlt & Hpos & _ & Esub & _)]; [left; unfold Cp_applied; by rewrite Es|].
    right. rewrite (Cp_revision c id sub Hok Hs). split; [done|].
    destruct (applied_state st t sub Hpos) as (a & Ha & Hag & _). exists a. split; [|done].
    unfold Cp_applied. rewrite Esub, lookup_insert_eq. cbn. exact Ha.
  - intros id st c s Hok. simpl. destruct (Set_cases id st c) as [_ Hcase]. intros Hres.
    destruct Hcase as [(Es & Hacc & _)|(sub & t & Hs & Hlt & Hpos & _ & Esub & _)].
    + destruct (Hacc s Hres) as (sub & Hs & Hle). unfold Cp_applied. rewrite Es. pose proof (Cp_revision c id sub Hok Hs) as Hrev.
      unfold Cp_applied in Hrev. lia.
    + destruct (applied_state st t sub Hpos) as (a & Ha & (Hr & _) & _). unfold Cp_applied. rewrite Esub, lookup_insert_eq.
      cbn. cbn in Ha. rewrite Ha. simpl. simpl in Hr. lia.
  - intros id st c Hok [sub Hs] Hval Hag. simpl in *. destruct (Set_cases id st c) as [_ Hcase].
    destruct Hcase as [(Es & _ & Hconf)|(sub' & t & _ & _ & _ & -> & _)]; [|done].
    destruct (SubscriptionService.ApplyBillingState id st c) as [[s|e] c']; [done|]. exfalso.
    destruct (Hconf Hval sub Hs eq_refl) as [Hrev Hc].
    pose proof (Cp_revision c id sub Hok Hs) as Hr. destruct (Cp_applied c id) as [a|] eqn:Ea.
    + rewrite (same_revision_accepts c id sub st a) in Hc; [done|done|done| |apply Hag; [done|simpl in Hr; congruence]].
      revert Ea. unfold Cp_applied. by rewrite Hs.
    + simpl in Hr. destruct (ck_billed _ Hok _ _ Hs) as [[H0 _]|(Hpos & _)]; [|lia].
      revert Hval. unfold BillingState_Validate. replace (bs_Revision st <=? 0) with true by (symmetry; apply Z.leb_le; lia).
      rewrite orb_true_r. done.
  - intros id st c id' Hok [s0 Hs0]. simpl. destruct (Set_cases id st c) as [_ Hcase].
    destruct Hcase as [(-> & _)|(sub & t & _ & _ & _ & _ & -> & _)]; [done|]. rewrite lookup_insert. by case_decide.
Defined.
