(* ===== verification/ControlAccess.v ===== *)
(** * The admission snapshot, and from payment to admission

    The outbox of billing over the control-plane's own SubscriptionService, across a lossy network: once
    the outbox is drained, the allow-list the nodes admit from follows billing's schedule. *)
From S2P Require Import Prelude GoBytes GoText Contracts BillingClient BillingStore BillingLedger BillingOutbox BillingRecover ControlStore ControlUse ControlFleet ControlLaws.

Section paid.
Context `{ord : !MapOrder}.

(** A billed subscription admits its user exactly while its status serves and its grace lasts. *)
Lemma entitled_billed (c : Cp) sub a u t :
  Cp_applied c sub = Some a → u_Status u = UserStatusActive → u_SubscriptionID u = Some sub →
  is_Some (AllowList.entitled (cp_store c) t u) ↔ servable (bs_Status a) = true ∧ t < bs_GraceUntil a.
Proof.
  unfold Cp_applied, AllowList.entitled. intros Ha Hact ->. rewrite (bool_decide_true _ Hact). cbn.
  destruct (c_subs (cp_store c) !! sub) as [s|]; [|done]. cbn in *. revert Ha. unfold billing_state_of.
  destruct (_ =? 0); [done|]. destruct (s_ExpiresAt s) as [e|]; [|done]. destruct (s_GraceUntil s) as [g|] eqn:Eg; [|done].
  intros [= <-]. simpl. unfold lapsed, AccessUntil. rewrite Eg. unfold After. rewrite negb_involutive.
  destruct (servable (s_Status s)); simpl; [|split; [intros [? ?]; done|by intros [? _]]].
  destruct (Z.ltb_spec t g); (split; [intros [? ?]|intros [_ ?]]); try done; lia.
Qed.

(** An administrator's cancellation takes the customer off the list, whatever billing believes. *)
Lemma canceled_off (c : Cp) sub u t : u_SubscriptionID u = Some sub →
  is_Some (c_subs (cp_store c) !! sub) → AllowList.entitled (cp_store (SubscriptionService.Cancel sub c).2) t u = None.
Proof.
  intros Hlink [s Hs]. unfold AllowList.entitled. rewrite Hlink. destruct (negb _); [done|]. cbn [mbind option_bind].
  unfold SubscriptionService.Cancel, notify, Subscriptions.CancelSubscription, repo, zoom, mbind, M_bind. cbn. rewrite Hs. cbn. by rewrite lookup_insert_eq.
Qed.

(** C3: what a customer paid for is what the nodes admit. In every state that billing's calls to the control-plane
    reach over a network losing requests and responses, once every ledger entry is delivered, an active user
    linked to a scheduled subscription is on the allow-list at an instant exactly when billing's schedule
    has a serving status and its grace period (to the microsecond) has not ended; and if the control-plane itself
    then cancels the subscription, which billing is not told of, the user is off the list at every instant. *)
Theorem drained_outbox_admits n m (c : Lossy Cp) sub sc u t :
  sys_reaches n (m, c) → Z.of_nat n <= max_int64 →
  (∀ k d, deliveries m !! k = Some d → d_DeliveredAt d ≠ zero_time) →
  schedules m !! sub = Some sc → u_Status u = UserStatusActive → u_SubscriptionID u = Some sub →
  (is_Some (AllowList.entitled (cp_store (l_client c)) t u) ↔
    servable (sc_Status sc) = true ∧ t < Truncate (sc_GraceUntil sc) Microsecond) ∧
  AllowList.entitled (cp_store (SubscriptionService.Cancel sub (l_client c)).2) t u = None.
Proof.
  intros Hr Hn Hall Hs Hact Hlink.
  destruct (drained_applied _ (m, c) sub sc (sys_reaches_inv _ _ Hr Hn) Hall Hs) as (a & Ha & (_ & Hst & _ & Hg & _)).
  rewrite (entitled_billed (l_client c) sub a u t) by done. simpl in Hst, Hg. rewrite Hst, Hg. split; [done|].
  apply canceled_off; [done|]. simpl in Ha. unfold Cp_applied in Ha. by destruct (c_subs _ !! sub).
Qed.
End paid.

(** One customer; the response to the first push is lost and the entry pushed again. *)
Definition paid_user : User := {|
  u_ID := "u1"; u_TelegramID := None; u_Email := None; u_Status := "active"; u_RealityShortID := "ab";
  u_UUID := "uuid"; u_Hysteria2Password := "pw"; u_PrivateKey := ""; u_SubscriptionID := None;
  u_DeviceLimit := 3; u_QuotaBytes := 0; u_UsedBytes := 0; u_CreatedAt := 1; u_UpdatedAt := 1 |}.
Definition paid_store : Store := set_users <["u1" := paid_user]> NewStore.
Definition paid_start : Lossy Cp :=
  mkLossy (mkCp paid_store 1000 [] [replicate 16 1; replicate 32 2] true [] []) [Healthy; LoseResponse].
Definition paid_sub : string := uuid_of (replicate 16 1).
Lemma paid_start_ok : sys_start paid_start.
Proof.
  split; [split|].
  - intros id s. simpl. by rewrite lookup_empty.
  - intros id _. simpl. by rewrite lookup_empty.
  - intros b _. simpl. by rewrite lookup_empty.
  - apply (bool_decide_unpack (NoDup (block_id <$> cp_rand (l_client paid_start)))). vm_compute. exact I.
  - intros sub. simpl. unfold Cp_applied. simpl. by rewrite lookup_empty.
Qed.
Definition paid_acts : list sys_act := [
  ActStore (OpCreateInvoice demo_invoice); ActEnsure "u1" "basic";
  ActStore (OpStageInvoiceCredit "i1" paid_sub "u1" 1000000 9000 5000);
  ActPush "invoice:i1"; ActPush "invoice:i1"; ActComplete 1000300 "invoice:i1"].
Definition paid_end : Memory * Lossy Cp :=
  default (NewMemory, paid_start) (perform_all (ord := key_order) paid_acts (NewMemory, paid_start)).
Lemma drained_outbox_admits_witness :
  let u := default paid_user (c_users (cp_store (l_client paid_end.2)) !! "u1") in
  (is_Some (AllowList.entitled (cp_store (l_client paid_end.2)) 1013999 u) ↔
    servable SubscriptionStatusActive = true ∧ 1013999 < Truncate 1014000 Microsecond) ∧
  AllowList.entitled (cp_store (SubscriptionService.Cancel paid_sub (l_client paid_end.2)).2) 1013999 u = None.
Proof.
  apply (drained_outbox_admits (ord := key_order) 6 paid_end.1 paid_end.2 paid_sub
    (schedule_of (credit_target None "i1" "basic" paid_sub "u1" 1000000 9000 5000))).
  - exists paid_start. split; [exact paid_start_ok|]. apply (perform_all_steps (ord := key_order) paid_acts). vm_compute. reflexivity.
  - vm_compute. discriminate.
  - assert (deliveries paid_end.1 = {["invoice:i1" := with_d_DeliveredAt 1000300 (credit_target None "i1" "basic" paid_sub "u1" 1000000 9000 5000)]}) as Hd
      by (vm_compute; reflexivity).
    intros k d Hk. rewrite Hd in Hk. apply lookup_singleton_Some in Hk as [_ <-]. discriminate.
  - vm_compute. reflexivity.
  - vm_compute. reflexivity.
  - vm_compute. reflexivity.
Defined.

(** ** The admission snapshot

    Who is on the allow-list, for how long the list may be used, and that the two lists of the
    control-plane (REALITY only, all transports) admit the same users. *)
Import Domain.

Section access.
Context `{ord : !MapOrder}.

Definition credentials (u : User) : AccessUser := {|
  au_UUID := u_UUID u; au_ShortID := u_RealityShortID u; au_Hysteria2Password := u_Hysteria2Password u |}.
Definition reality_of (a : AccessUser) : RealityUser := {| ru_UUID := au_UUID a; ru_ShortID := au_ShortID a |}.
(** The entitled users, in the order of the iteration. *)
Definition admitted (s : Store) (t : Time) (us : list User) : list User := filter (λ u, is_set (AllowList.entitled s t u) = true) us.

Lemma admitted_cons s t u us :
  admitted s t (u :: us) = match AllowList.entitled s t u with Some _ => u :: admitted s t us | None => admitted s t us end.
Proof. unfold admitted. rewrite filter_cons. by destruct (AllowList.entitled s t u). Qed.

Lemma entitled_ends s t u sub e : AllowList.entitled s t u = Some sub → AccessUntil sub = Some e → t < e.
Proof.
  unfold AllowList.entitled. destruct (negb (bool_decide _)); [done|]. destruct (u_SubscriptionID u) as [id|]; [|done]. cbn.
  destruct (c_subs s !! id) as [sub'|]; [|done]. cbn. destruct (servable _); [|done]. simpl.
  unfold lapsed. destruct (AccessUntil sub') as [e'|] eqn:Ea; simpl.
  - unfold After. rewrite negb_involutive. destruct (Z.ltb_spec t e'); [|done]. intros [= <-] He. congruence.
  - intros [= <-] He. congruence.
Qed.

(** The accumulating loop against its description. *)
Lemma collect_ok s t us : ∀ acc v acc' v', AllowList.collect s t us acc v = Ok (acc', v') → t < v →
  acc' = acc ++ (credentials <$> admitted s t us) ∧ t < v' <= v ∧
  (∀ u sub e, u ∈ us → AllowList.entitled s t u = Some sub → AccessUntil sub = Some e → v' <= e) ∧
  (v' = v ∨ ∃ u sub, u ∈ us ∧ AllowList.entitled s t u = Some sub ∧ AccessUntil sub = Some v').
Proof.
  induction us as [|u us IH]; intros acc v acc' v' Ha Hv; cbn [AllowList.collect] in Ha.
  { simplify_eq. split_and!; [by rewrite app_nil_r|lia|lia| |by left]. intros u ? ? Hu. by apply elem_of_nil in Hu. }
  rewrite admitted_cons. destruct (AllowList.entitled s t u) as [sub|] eqn:Eu.
  - destruct (bool_decide _); [done|].
    set (v1 := match AccessUntil sub with Some e => if Before e v then e else v | None => v end) in Ha.
    assert (t < v1 <= v ∧ (∀ e, AccessUntil sub = Some e → v1 <= e) ∧ (v1 = v ∨ AccessUntil sub = Some v1)) as (Hv1 & He1 & Hor).
    { unfold v1. destruct (AccessUntil sub) as [e|] eqn:Ee; [|split_and!; [lia|done|done|by left]].
      pose proof (entitled_ends _ _ _ _ _ Eu Ee). unfold Before.
      destruct (Z.ltb_spec e v); split_and!; try lia; try (intros e' [= <-]; lia); auto. }
    destruct (IH _ _ _ _ Ha ltac:(lia)) as (-> & Hle & Hall & Hor'). split_and!; [by rewrite <-app_assoc|lia|lia| |].
    + intros u' sub' e' [->|Hu']%elem_of_cons Hs' He'; [|by eapply Hall]. simplify_eq. specialize (He1 _ He'). lia.
    + destruct Hor' as [->|(u' & sub' & Hu' & Hs' & He')].
      * destruct Hor as [->|He]; [by left|]. right. exists u, sub. split_and!; [by left|done|done].
      * right. exists u', sub'. split_and!; [by right|done|done].
  - destruct (IH _ _ _ _ Ha Hv) as (-> & Hle & Hall & Hor). split_and!; [done|lia|lia| |].
    + intros u' sub' e' [->|Hu']%elem_of_cons Hs' He'; [congruence|by eapply Hall].
    + destruct Hor as [->|(u' & sub' & Hu' & Hs' & He')]; [by left|]. right. exists u', sub'. split_and!; [by right|done|done].
Qed.
Lemma collect_err s t us e : ∀ acc v, AllowList.collect s t us acc v = Err e →
  e = ErrConflict ∧ ∃ u, u ∈ admitted s t us ∧ u_Hysteria2Password u = "".
Proof.
  induction us as [|u us IH]; intros acc v Ha; cbn [AllowList.collect] in Ha; [done|]. rewrite admitted_cons.
  destruct (AllowList.entitled s t u) as [sub|]; [|by eapply IH].
  case_bool_decide as Hp; [injection Ha as <-; split; [done|]; exists u; split; [by left|done]|].
  destruct (IH _ _ Ha) as (-> & u' & Hu' & Hp'). split; [done|]. exists u'. split; [by right|done].
Qed.
Lemma reality_users_admitted s t :
  AllowList.EligibleRealityUsers t s = (Ok (reality_of <$> (credentials <$> admitted s t (range (c_users s)).*2)), s).
Proof.
  unfold AllowList.EligibleRealityUsers, gets. f_equal. f_equal. induction (range (c_users s)).*2 as [|u us IH]; [done|].
  rewrite admitted_cons. cbn [omap list_omap]. rewrite IH. by destruct (AllowList.entitled s t u).
Qed.

(** The admission snapshot a node works from is exact and never outlives anyone's access. It fails only
    when an entitled user has no Hysteria2 password; otherwise it lists exactly the entitled users, the same
    ones as the REALITY list, and its lease ends in the future, within five minutes, not after the access of
    any listed user, and as late as those bounds allow; asking changes nothing. *)
Theorem EligibleAccessUsers_exact t s :
  let users := admitted s t (range (c_users s)).*2 in
  (AllowList.EligibleAccessUsers t s).2 = s ∧
  ((∃ u, u ∈ users ∧ u_Hysteria2Password u = "") ∧ (AllowList.EligibleAccessUsers t s).1 = Err ErrConflict
   ∨ ∃ snap, (AllowList.EligibleAccessUsers t s).1 = Ok snap ∧
       nau_Users snap = credentials <$> users ∧ nau_Revision snap = AccessUsersRevision (nau_Users snap) ∧
       AllowList.EligibleRealityUsers t s = (Ok (reality_of <$> nau_Users snap), s) ∧
       t < nau_ValidUntil snap <= t + 5 * Minute ∧
       (∀ u sub e, u ∈ users → AllowList.entitled s t u = Some sub → AccessUntil sub = Some e → nau_ValidUntil snap <= e) ∧
       (nau_ValidUntil snap = t + 5 * Minute ∨
        ∃ u sub, u ∈ users ∧ AllowList.entitled s t u = Some sub ∧ AccessUntil sub = Some (nau_ValidUntil snap))).
Proof.
  cbv zeta. split; [done|]. unfold AllowList.EligibleAccessUsers. cbn [fst].
  destruct (AllowList.collect s t (range (c_users s)).*2 [] (Add t (5 * Minute))) as [[us v]|e] eqn:E.
  - right. eexists. split; [reflexivity|]. cbn [nau_Users nau_Revision nau_ValidUntil].
    destruct (collect_ok _ _ _ _ _ _ _ E) as (-> & Hv & Hall & Hor); [unfold Add, Minute, Second, Millisecond, Microsecond; lia|].
    simpl. split_and!; [done|done|apply reality_users_admitted|lia|unfold Add in Hv; lia| |].
    + intros u sub e [_ Hu]%list_elem_of_filter. by apply Hall.
    + destruct Hor as [->|(u & sub & Hu & Hs & He)]; [by left|]. right. exists u, sub. split; [|done].
      apply list_elem_of_filter. split; [by rewrite Hs|done].
  - left. destruct (collect_err _ _ _ _ _ _ E) as [-> Hu]. done.
Qed.
End access.
