(* ===== verification/ControlLifecycle.v ===== *)
(** * The life of a node

    Every operation of the fleet services as one step on the registry: what can make a node active, what
    telemetry can do to a node, and what a node's retirement does to the users' sets. *)
From S2P Require Import Prelude GoBytes GoText GoFloat Contracts ControlStore ControlUse ControlFleet.
Import Domain.

(** Calls that leave the node registry as it is. *)
Section frame.
Context {A : Type}.
Definition keeps_nodes (m : M Cp A) : Prop := ∀ c, c_nodes (cp_store (m c).2) = c_nodes (cp_store c).
End frame.

Lemma keeps_bind {A B} (m : M Cp A) (f : A → M Cp B) :
  keeps_nodes m → (∀ a, keeps_nodes (f a)) → keeps_nodes (mbind f m).
Proof.
  intros Hm Hf c. unfold mbind, M_bind. specialize (Hm c). destruct (m c) as [[a|e] c1]; simpl in *; [|done].
  rewrite Hf. done.
Qed.
Lemma keeps_ret {A} (a : A) : keeps_nodes (mret a).
Proof. by intros c. Qed.
Lemma keeps_fail {A} e : keeps_nodes (fail e : M Cp A).
Proof. by intros c. Qed.
Lemma keeps_now : keeps_nodes now.
Proof. by intros c. Qed.
Lemma keeps_rand msg n : keeps_nodes (rand_Read msg n).
Proof. intros c. unfold rand_Read. by destruct (cp_rand c). Qed.
Lemma keeps_enqueue j : keeps_nodes (enqueue j).
Proof. by intros c. Qed.
Lemma keeps_ignore {A} (m : M Cp A) : keeps_nodes m → keeps_nodes (ignore m).
Proof. intros H c. apply H. Qed.
Lemma keeps_try {A} (m : M Cp A) : keeps_nodes m → keeps_nodes (try m).
Proof. intros H c. specialize (H c). unfold try. by destruct (m c). Qed.
Lemma keeps_wrapping {A} msg (m : M Cp A) : keeps_nodes m → keeps_nodes (wrapping msg m).
Proof. intros H c. specialize (H c). unfold wrapping. by destruct (m c) as [[]]. Qed.
Lemma keeps_repo {A} (m : M Store A) : (∀ s, c_nodes (m s).2 = c_nodes s) → keeps_nodes (repo m).
Proof. intros H c. unfold repo, zoom. specialize (H (cp_store c)). by destruct (m (cp_store c)). Qed.
Create HintDb nodes.
#[export] Hint Resolve keeps_bind keeps_ret keeps_fail keeps_now keeps_rand keeps_enqueue keeps_ignore keeps_try
  keeps_wrapping : nodes.

Lemma keeps_UUIDv4 : keeps_nodes UUIDv4.
Proof. unfold UUIDv4. auto with nodes. Qed.
Lemma keeps_NodeID : keeps_nodes NodeID.
Proof. unfold NodeID. auto with nodes. Qed.
Lemma keeps_recordRotation nodeID from to reason ip actor : keeps_nodes (NodeService.recordRotation nodeID from to reason ip actor).
Proof. unfold NodeService.recordRotation. auto 10 using keeps_repo, keeps_UUIDv4 with nodes. Qed.
#[export] Hint Resolve keeps_UUIDv4 keeps_NodeID keeps_recordRotation : nodes.

Section lifecycle.
Context `{ord : !MapOrder}.

(** ** Operations *)
Inductive fleet_op :=
| FRegister (n : Node) (actor : string)
| FUpdate (id : string) (n : Node) (actor : string)
| FRotate (id newEntryIP reason actor : string)
| FRetire (id actor : string)
| FDemote (id actor : string)
| FActivate (id expectedRevision evidence actor : string)
| FActivateAccess (id revision evidence actor : string)
| FIngest (aggregates : list SignalAggregate) (actor : string).
Definition exec_fleet (op : fleet_op) (c : Cp) : Cp :=
  match op with
  | FRegister n actor => (NodeService.Register n actor c).2
  | FUpdate id n actor => (NodeService.Update id n actor c).2
  | FRotate id ip reason actor => (NodeService.Rotate id ip reason actor c).2
  | FRetire id actor => (NodeService.Retire id actor c).2
  | FDemote id actor => (NodeService.Demote id actor c).2
  | FActivate id rev ev actor => (NodeService.Activate id rev ev actor c).2
  | FActivateAccess id rev ev actor => (NodeService.ActivateAccess id rev ev actor c).2
  | FIngest aggs actor => (SignalService.Ingest aggs actor c).2
  end.

(** The registry is keyed by the nodes' own ids. *)
Definition keyed_nodes (ns : gmap string Node) : Prop := ∀ id n, ns !! id = Some n → n_ID n = id.
Definition nodes_of (c : Cp) : gmap string Node := c_nodes (cp_store c).

(** ** What activation demands *)
Definition guarded (s : Store) (t : Time) (id expectedRevision accessRevision evidence : string) : Prop :=
  ∃ n, c_nodes s !! id = Some n ∧ n_Status n = NodeStatusProvisioning ∧
    if bool_decide (n_Role n = NodeRoleExit) then
      ptr_set (n_EntryNodeID n) = true ∧ evidence = ExitDataPlaneVerified
    else
      2 <= DistinctEnabledTransportTypes (n_Transports n) ∧
      (∃ eid e, c_nodes s !! eid = Some e ∧ n_Role e = NodeRoleExit ∧ n_EntryNodeID e = Some id ∧ n_Status e = NodeStatusActive) ∧
      if NodeActivator.needs_access n accessRevision then
        accessRevision ≠ "" ∧ ∃ snap, (AllowList.EligibleAccessUsers t s).1 = Ok snap ∧ nau_Revision snap = accessRevision
      else ∃ us, (AllowList.EligibleRealityUsers t s).1 = Ok us ∧ RealityUsersRevision us = expectedRevision.

Lemma exit_active_spec s id : NodeActivator.exit_active s id = true →
  ∃ eid e, c_nodes s !! eid = Some e ∧ n_Role e = NodeRoleExit ∧ n_EntryNodeID e = Some id ∧ n_Status e = NodeStatusActive.
Proof.
  unfold NodeActivator.exit_active. destruct (list_find _ _) as [[i [eid e]]|] eqn:E; [|done].
  apply list_find_Some in E as (Hi & [Hr He] & _). intros Ha%bool_decide_eq_true. exists eid, e. split; [|done].
  apply elem_of_range. apply list_elem_of_lookup. eauto.
Qed.

Lemma activate_spec t id rev acc ev s :
  let out := NodeActivator.activate t id rev acc ev s in
  c_nodes out.2 = c_nodes s ∨
  (guarded s t id rev acc ev ∧ ∃ n, c_nodes s !! id = Some n ∧ c_nodes out.2 = <[id := with_n_Status NodeStatusActive n]> (c_nodes s)).
Proof.
  cbv zeta. unfold NodeActivator.activate. destruct (c_nodes s !! id) as [n|] eqn:En; [|by left].
  case_bool_decide as Hp; [|by left]. cbn [negb].
  destruct (decide (n_Role n = NodeRoleExit)) as [Hx|Hx]; [rewrite (bool_decide_true _ Hx)|rewrite (bool_decide_false _ Hx)].
  - destruct (ptr_set (n_EntryNodeID n)) eqn:Eptr; [|by left]. case_bool_decide as Hev; [|by left]. right. split; [|by exists n].
    exists n. rewrite (bool_decide_true _ Hx). done.
  - destruct (Z.ltb_spec (DistinctEnabledTransportTypes (n_Transports n)) 2); [by left|].
    destruct (NodeActivator.exit_active s id) eqn:Eexit; [|by left]. cbn [negb].
    unfold NodeActivator.revision_ok. unfold mbind, M_bind.
    assert (guarded s t id rev acc ev ↔
      (if NodeActivator.needs_access n acc then
        acc ≠ "" ∧ ∃ snap, (AllowList.EligibleAccessUsers t s).1 = Ok snap ∧ nau_Revision snap = acc
      else ∃ us, (AllowList.EligibleRealityUsers t s).1 = Ok us ∧ RealityUsersRevision us = rev)) as Hg.
    { unfold guarded. split.
      - intros (n' & Hn' & _ & Hrest). simplify_eq. rewrite (bool_decide_false _ Hx) in Hrest. by destruct Hrest as (_ & _ & ?).
      - intros Hrest. exists n. rewrite (bool_decide_false _ Hx). split_and!; try done. by apply exit_active_spec. }
    destruct (NodeActivator.needs_access n acc).
    + assert ((AllowList.EligibleAccessUsers t s).2 = s) as Es by done.
      destruct (AllowList.EligibleAccessUsers t s) as [[snap|e] s']; simpl in Es; subst s'; [|by left]. cbn.
      destruct (bool_decide (acc = "")) eqn:Ea; [by left|]. destruct (bool_decide (nau_Revision snap = acc)) eqn:Er; [|by left].
      right. split; [|by exists n]. apply Hg. apply bool_decide_eq_false in Ea. apply bool_decide_eq_true in Er. eauto.
    + assert ((AllowList.EligibleRealityUsers t s).2 = s) as Es by done.
      destruct (AllowList.EligibleRealityUsers t s) as [[us|e] s']; simpl in Es; subst s'; [|by left]. cbn.
      destruct (bool_decide (RealityUsersRevision us = rev)) eqn:Er; [|by left].
      right. split; [|by exists n]. apply Hg. apply bool_decide_eq_true in Er. eauto.
Qed.

(** ** The effect of each operation on the registry *)
Lemma nodes_bind {A B} (m : M Cp A) (f : A → M Cp B) c :
  (∀ a, keeps_nodes (f a)) → nodes_of (mbind f m c).2 = nodes_of (m c).2.
Proof. intros Hf. unfold mbind, M_bind. destruct (m c) as [[a|e] c1]; [apply Hf|done]. Qed.
Lemma nodes_repo {A} (m : M Store A) c : nodes_of (repo m c).2 = c_nodes (m (cp_store c)).2.
Proof. unfold repo, zoom. by destruct (m (cp_store c)). Qed.
(** Past a step that leaves the nodes alone. *)
Lemma nodes_bind_pre {A B} (m : M Cp A) (f : A → M Cp B) c a c1 :
  m c = (Ok a, c1) → (mbind f m c) = f a c1.
Proof. unfold mbind, M_bind. by intros ->. Qed.

(** The entry of [id] changed from [n] to [n']. *)
Definition node_changed (ns ns' : gmap string Node) (id : string) (n : option Node) (n' : Node) : Prop :=
  ns !! id = n ∧ ns' = <[id := n']> ns.

(** What registering, updating, ... may do to the registry, besides nothing. *)
Definition registers (ns ns' : gmap string Node) : Prop := ns' = ns ∨
  ∃ n', n_Status n' ≠ NodeStatusActive ∧ node_changed ns ns' (n_ID n') None n'.
Definition updates (id : string) (ns ns' : gmap string Node) : Prop := ns' = ns ∨
  ∃ existing n' old, ns !! id = Some existing ∧ n_ID n' = n_ID existing ∧
    (n_Status n' = NodeStatusActive → n_Status existing = NodeStatusActive) ∧ node_changed ns ns' (n_ID n') (Some old) n'.
Definition rotates (id ip : string) (ns ns' : gmap string Node) : Prop := ns' = ns ∨
  ∃ n, node_changed ns ns' id (Some n) (with_n_EntryIP ip n).
Definition sets_status (id : string) (to : NodeStatus) (ok : NodeStatus → Prop) (ns ns' : gmap string Node) : Prop := ns' = ns ∨
  ∃ n, ok (n_Status n) ∧ node_changed ns ns' id (Some n) (with_n_Status to n).

Lemma Register_effect n actor c : registers (nodes_of c) (nodes_of (NodeService.Register n actor c).2).
Proof.
  unfold NodeService.Register.
  assert (keeps_nodes (if bool_decide (n_ID n = "") then NodeID else mret (n_ID n))) as Hid by (destruct (bool_decide _); auto with nodes).
  specialize (Hid c). unfold mbind at 1, M_bind at 1.
  destruct ((if bool_decide (n_ID n = "") then NodeID else mret (n_ID n)) c) as [[id|e] c1]; [|by left].
  change (nodes_of c1 = nodes_of c) in Hid. rewrite <-Hid. set (n1 := with_n_Status _ n).
  destruct (bool_decide (n_Status n1 = NodeStatusActive)) eqn:Est; [by left|]. apply bool_decide_eq_false in Est.
  unfold mbind at 1, M_bind at 1.
  assert (∃ t c2, (if IsZero (n_CreatedAt n1) then now else mret (n_CreatedAt n1)) c1 = (Ok t, c2) ∧ nodes_of c2 = nodes_of c1) as (t & c2 & -> & Es).
  { destruct (IsZero _); eexists _, _; (split; [reflexivity|done]). }
  rewrite <-Es. destruct (invalid _); [by left|]. rewrite nodes_bind by (intros []; auto with nodes).
  rewrite nodes_repo. unfold Nodes.Create, nodes_of. set (n2 := with_n_identity id t n1).
  destruct (c_nodes (cp_store c2) !! n_ID n2) eqn:El; [by left|]. right. exists n2. done.
Qed.

Lemma Get_node id c : repo (Nodes.Get id) c = (match nodes_of c !! id with None => Err ErrNotFound | Some n => Ok n end, c).
Proof. unfold repo, zoom, Nodes.Get, nodes_of. destruct (c_nodes (cp_store c) !! id); by destruct c. Qed.

Lemma Update_effect id n actor c : updates id (nodes_of c) (nodes_of (NodeService.Update id n actor c).2).
Proof.
  unfold NodeService.Update. unfold mbind at 1, M_bind at 1. rewrite Get_node.
  destruct (nodes_of c !! id) as [existing|] eqn:Ee; [|by left]. set (n1 := with_n_identity _ _ n).
  destruct (bool_decide _ && negb _) eqn:Eg; [by left|]. destruct (invalid _); [by left|].
  rewrite nodes_bind.
  2:{ intros ?. apply keeps_bind.
      - destruct (negb (bool_decide (n_Status existing = n_Status n1))); [apply keeps_recordRotation|apply keeps_ret].
      - intros ?. auto with nodes. }
  rewrite nodes_repo. unfold Nodes.Update. destruct (c_nodes (cp_store c) !! n_ID n1) as [old|] eqn:Eo; [|by left].
  right. exists existing, n1, old. split_and!; try done. intros Hact. rewrite (bool_decide_true _ Hact) in Eg. simpl in Eg.
  by apply negb_false_iff, bool_decide_eq_true in Eg.
Qed.

Lemma Rotate_effect id ip reason actor c : rotates id ip (nodes_of c) (nodes_of (NodeService.Rotate id ip reason actor c).2).
Proof.
  unfold NodeService.Rotate. unfold mbind at 1, M_bind at 1. rewrite Get_node.
  destruct (nodes_of c !! id) as [n|] eqn:En; [|by left].
  rewrite nodes_bind by (intros n1; auto 10 with nodes). destruct (negb _); [|by left].
  rewrite nodes_bind by (intros []; auto with nodes). rewrite nodes_repo. unfold Nodes.SetEntryIP, nodes_of in *. rewrite En.
  right. by exists n.
Qed.

Lemma SetStatus_effect {A} id to c (f : NodeStatus → M Cp A) : (∀ prev, keeps_nodes (f prev)) →
  sets_status id to (λ _, True) (nodes_of c) (nodes_of (mbind f (repo (Nodes.SetStatus id to)) c).2).
Proof.
  intros Hf. rewrite nodes_bind by done. rewrite nodes_repo. unfold Nodes.SetStatus, nodes_of.
  destruct (c_nodes (cp_store c) !! id) as [n|] eqn:En; [|by left]. right. by exists n.
Qed.
Lemma Retire_effect id actor c :
  sets_status id NodeStatusRetired (λ _, True) (nodes_of c) (nodes_of (NodeService.Retire id actor c).2).
Proof. apply SetStatus_effect. intros prev. auto with nodes. Qed.
Lemma Demote_effect id actor c :
  sets_status id NodeStatusProvisioning (λ st, st ≠ NodeStatusRetired ∧ st ≠ NodeStatusDraining)
    (nodes_of c) (nodes_of (NodeService.Demote id actor c).2).
Proof.
  unfold NodeService.Demote. rewrite nodes_bind.
  2:{ intros prev. apply keeps_bind; [auto with nodes|]. intros []. apply keeps_bind; [auto with nodes|]. intros [] c'.
      by rewrite Get_node. }
  rewrite nodes_repo. unfold Nodes.Demote, nodes_of. destruct (c_nodes (cp_store c) !! id) as [n|] eqn:En; [|by left].
  destruct (one_of _ _) eqn:Eo; [by left|]. right. exists n. unfold one_of in Eo. apply bool_decide_eq_false in Eo.
  split; [|done]. split; set_solver.
Qed.

Definition activates (s : Store) (t : Time) (id rev acc ev : string) (ns ns' : gmap string Node) : Prop := ns' = ns ∨
  (guarded s t id rev acc ev ∧ ∃ n, node_changed ns ns' id (Some n) (with_n_Status NodeStatusActive n)).
Lemma activation_effect id rev acc ev actor c :
  activates (cp_store c) (cp_clock c) id rev acc ev (nodes_of c)
    (nodes_of ((t ←! now ; np ←! repo (NodeActivator.activate t id rev acc ev) ; NodeService.after_activation id actor np) c).2).
Proof.
  rewrite (nodes_bind_pre now _ c (cp_clock c) (now c).2) by done.
  rewrite nodes_bind by (intros np; unfold NodeService.after_activation; auto 10 with nodes).
  rewrite nodes_repo. cbn [now snd cp_store]. destruct (activate_spec (cp_clock c) id rev acc ev (cp_store c)) as [H|(Hg & n & Hn & H)]; [by left|].
  right. split; [done|]. exists n. split; [done|exact H].
Qed.

(** ** Telemetry *)
Definition worse (st st' : NodeStatus) : Prop :=
  st' = st ∨ (st = NodeStatusActive ∧ (st' = NodeStatusDegraded ∨ st' = NodeStatusBlocked)) ∨
  (st = NodeStatusDegraded ∧ st' = NodeStatusBlocked).
Definition worsens (ns ns' : gmap string Node) : Prop := ∀ id,
  match ns !! id with
  | None => ns' !! id = None
  | Some n => ∃ st, ns' !! id = Some (with_n_Status st n) ∧ worse (n_Status n) st
  end.

Lemma worsens_refl ns : worsens ns ns.
Proof. intros id. destruct (ns !! id) as [n|]; [|done]. exists (n_Status n). split; [by destruct n|by left]. Qed.
Lemma worse_trans a b c : worse a b → worse b c → worse a c.
Proof. unfold worse. intros H1 H2. naive_solver. Qed.
Lemma worsens_trans ns1 ns2 ns3 : worsens ns1 ns2 → worsens ns2 ns3 → worsens ns1 ns3.
Proof.
  intros H1 H2 id. specialize (H1 id). specialize (H2 id). destruct (ns1 !! id) as [n|].
  - destruct H1 as (st & Hn & Hw). rewrite Hn in H2. destruct H2 as (st' & Hn' & Hw'). exists st'. split; [done|]. by eapply worse_trans.
  - by rewrite H1 in H2.
Qed.

Lemma target_worse cur v target :
  v = VerdictBlocked ∨ v = VerdictDegraded → SignalService.target_status cur v = Some target → worse cur target.
Proof.
  unfold SignalService.target_status, one_of. intros Hv. case_bool_decide as Hc; [|done]. cbn [negb].
  destruct Hv as [->| ->]; simpl.
  - intros [= <-]. unfold worse. set_solver.
  - destruct (decide (cur = NodeStatusBlocked)) as [Hb|Hb]; [by rewrite (bool_decide_true _ Hb)|]. rewrite (bool_decide_false _ Hb).
    simpl. intros [= <-]. unfold worse. set_solver.
Qed.
Lemma applyVerdict_worsens id v actor c : v = VerdictBlocked ∨ v = VerdictDegraded →
  worsens (nodes_of c) (nodes_of (SignalService.applyVerdict id v actor c).2).
Proof.
  intros Hv. unfold SignalService.applyVerdict. unfold mbind at 1, M_bind at 1. rewrite Get_node.
  destruct (nodes_of c !! id) as [n|] eqn:En; [|apply worsens_refl].
  destruct (SignalService.target_status (n_Status n) v) as [target|] eqn:Et; [|apply worsens_refl].
  destruct (bool_decide _); [apply worsens_refl|]. rewrite nodes_bind by (intros fc; auto with nodes).
  unfold NodeService.setStatusIfChanged.
  destruct (SetStatus_effect id target c (λ prev, if bool_decide (prev = target) then mret (prev, false) else
    NodeService.recordRotation id (Some prev) target ("field-signal:" +:+ v) "" actor ;;! enqueue (JobNode id) ;;! mret (prev, true)))
    as [->|(n' & _ & Hn' & ->)].
  { intros prev. destruct (bool_decide _); auto 10 with nodes. }
  { apply worsens_refl. }
  simplify_eq. intros id'. destruct (decide (id' = id)) as [->|Hne].
  - rewrite En, lookup_insert_eq. exists target. split; [done|]. by eapply target_worse.
  - rewrite lookup_insert_ne by done. apply worsens_refl.
Qed.

Definition impaired (worst : gmap string Verdict) : Prop := map_Forall (λ _ v, v = VerdictBlocked ∨ v = VerdictDegraded) worst.
Lemma rank_impaired v w : SignalService.rank w < SignalService.rank v → 0 <= SignalService.rank w → v = VerdictBlocked ∨ v = VerdictDegraded.
Proof. unfold SignalService.rank at 2. repeat case_bool_decide; auto. lia. Qed.
Lemma rank_nonneg v : 0 <= SignalService.rank v.
Proof. unfold SignalService.rank. by repeat case_bool_decide. Qed.
Lemma collect_impaired aggs : ∀ worst c, impaired worst →
  ∃ worst', (SignalService.collect aggs worst c).1 = Ok worst' ∧ impaired worst' ∧
    nodes_of (SignalService.collect aggs worst c).2 = nodes_of c.
Proof.
  induction aggs as [|a aggs IH]; intros worst c Hw; cbn [SignalService.collect]; [eauto|].
  destruct (_ <=? _); [by apply IH|]. destruct (SignalService.classify a) as [block v].
  unfold mbind, M_bind, repo, zoom, Signals.AddAggregate, modify.
  edestruct IH as (worst' & H1 & H2 & H3); [|exists worst'; split; [exact H1|]; split; [done|]; rewrite H3; done].
  destruct (Z.ltb_spec (SignalService.rank (default "" (worst !! ag_NodeID a))) (SignalService.rank v)); [|done].
  apply map_Forall_insert_2; [|done]. eapply rank_impaired; [done|apply rank_nonneg].
Qed.
Lemma apply_all_worsens actor vs : ∀ changes c, (∀ id v, (id, v) ∈ vs → v = VerdictBlocked ∨ v = VerdictDegraded) →
  worsens (nodes_of c) (nodes_of (SignalService.apply_all vs actor changes c).2).
Proof.
  induction vs as [|[id v] vs IH]; intros changes c Hvs; cbn [SignalService.apply_all]; [apply worsens_refl|].
  pose proof (applyVerdict_worsens id v actor c (Hvs id v ltac:(by left))) as Hw.
  unfold mbind, M_bind, try. destruct (SignalService.applyVerdict id v actor c) as [[change|e] c1]; simpl in Hw.
  - eapply worsens_trans; [exact Hw|]. apply IH. intros i w Hi. apply (Hvs i w). by right.
  - destruct (errors_is _ _); [|done]. eapply worsens_trans; [exact Hw|]. apply IH. intros i w Hi. apply (Hvs i w). by right.
Qed.
Lemma Ingest_effect aggs actor c : worsens (nodes_of c) (nodes_of (SignalService.Ingest aggs actor c).2).
Proof.
  unfold SignalService.Ingest. destruct (collect_impaired aggs ∅ c) as (worst & H1 & H2 & H3); [apply map_Forall_empty|].
  unfold mbind, M_bind. destruct (SignalService.collect aggs ∅ c) as [r c1]. simpl in *. subst r. rewrite <-H3.
  apply apply_all_worsens. intros id v Hv%elem_of_range. by apply (H2 id v).
Qed.

(** Telemetry can take a node out of service and never brings one back. Ingesting any aggregates leaves
    every node's record but its status alone; the status stays, or goes from active to degraded or blocked, or
    from degraded to blocked. So the field verdict "healthy" never restores a degraded node to active. *)
Theorem Ingest_only_worsens aggs actor c id n :
  c_nodes (cp_store c) !! id = Some n →
  ∃ st, c_nodes (cp_store (SignalService.Ingest aggs actor c).2) !! id = Some (with_n_Status st n) ∧
    (st = n_Status n ∨ (n_Status n = NodeStatusActive ∧ (st = NodeStatusDegraded ∨ st = NodeStatusBlocked)) ∨
     (n_Status n = NodeStatusDegraded ∧ st = NodeStatusBlocked)).
Proof. intros Hn. pose proof (Ingest_effect aggs actor c id) as H. unfold nodes_of in H. by rewrite Hn in H. Qed.

(** ** Only guarded activation makes a node active *)
Lemma changed_active ns ns' id0 n0 n0' id n :
  node_changed ns ns' id0 n0 n0' → ns' !! id = Some n → (id = id0 ∧ n = n0') ∨ ns !! id = Some n.
Proof.
  intros [Hn ->] Hid. destruct (decide (id = id0)) as [->|Hne]; [left|right; by rewrite lookup_insert_ne in Hid].
  rewrite lookup_insert_eq in Hid. by injection Hid.
Qed.
Definition was_active (c : Cp) (id : string) : Prop := ∃ n, nodes_of c !! id = Some n ∧ n_Status n = NodeStatusActive.

Lemma keyed_changed ns ns' id n n' : keyed_nodes ns → node_changed ns ns' id n n' → n_ID n' = id → keyed_nodes ns'.
Proof. intros Hk [_ ->] Hid i m [[<- <-]|[_ Hm]]%lookup_insert_Some; [done|by apply Hk]. Qed.
Lemma exec_fleet_keyed op c : keyed_nodes (nodes_of c) → keyed_nodes (nodes_of (exec_fleet op c)).
Proof.
  intros Hk. destruct op as [n0 a|i n0 a|i ip r a|i a|i a|i rev ev a|i rev ev a|aggs a]; cbn [exec_fleet].
  - destruct (Register_effect n0 a c) as [->|(n' & _ & Hch)]; [done|by eapply keyed_changed].
  - destruct (Update_effect i n0 a c) as [->|(ex & n' & old & _ & _ & _ & Hch)]; [done|by eapply keyed_changed].
  - destruct (Rotate_effect i ip r a c) as [->|(n' & Hch)]; [done|]. eapply keyed_changed; [done|exact Hch|]. exact (Hk _ _ (proj1 Hch)).
  - destruct (Retire_effect i a c) as [->|(n' & _ & Hch)]; [done|]. eapply keyed_changed; [done|exact Hch|]. exact (Hk _ _ (proj1 Hch)).
  - destruct (Demote_effect i a c) as [->|(n' & _ & Hch)]; [done|]. eapply keyed_changed; [done|exact Hch|]. exact (Hk _ _ (proj1 Hch)).
  - destruct (activation_effect i rev "" ev a c) as [E|(_ & n' & Hch)]; [by rewrite <-E in Hk|].
    eapply keyed_changed; [exact Hk|exact Hch|]. exact (Hk _ _ (proj1 Hch)).
  - destruct (activation_effect i "" rev ev a c) as [E|(_ & n' & Hch)]; [by rewrite <-E in Hk|].
    eapply keyed_changed; [exact Hk|exact Hch|]. exact (Hk _ _ (proj1 Hch)).
  - intros id n Hn. pose proof (Ingest_effect aggs a c id) as H. destruct (nodes_of c !! id) as [n1|] eqn:E; [|congruence].
    destruct H as (st & Hst & _). rewrite Hst in Hn. simplify_eq. by apply Hk in E.
Qed.

Lemma active_guarded op c id n :
  keyed_nodes (nodes_of c) → nodes_of (exec_fleet op c) !! id = Some n → n_Status n = NodeStatusActive →
  was_active c id ∨
  match op with
  | FActivate i rev ev _ => i = id ∧ guarded (cp_store c) (cp_clock c) id rev "" ev
  | FActivateAccess i rev ev _ => i = id ∧ guarded (cp_store c) (cp_clock c) id "" rev ev
  | _ => False
  end.
Proof.
  intros Hk Hn Hact.
  assert (nodes_of c !! id = Some n → was_active c id) as Hsame by (by exists n).
  destruct op as [n0 a|i n0 a|i ip r a|i a|i a|i rev ev a|i rev ev a|aggs a]; cbn [exec_fleet] in Hn.
  - left. destruct (Register_effect n0 a c) as [E|(n' & Hst & Hch)]; [rewrite E in Hn; auto|].
    destruct (changed_active _ _ _ _ _ _ _ Hch Hn) as [[-> ->]|H]; [done|auto].
  - left. destruct (Update_effect i n0 a c) as [E|(ex & n' & old & Hex & Hid & Hst & Hch)]; [rewrite E in Hn; auto|].
    destruct (changed_active _ _ _ _ _ _ _ Hch Hn) as [[-> ->]|H]; [|auto].
    exists ex. rewrite Hid, (Hk _ _ Hex). auto.
  - left. destruct (Rotate_effect i ip r a c) as [E|(n' & Hch)]; [rewrite E in Hn; auto|].
    destruct (changed_active _ _ _ _ _ _ _ Hch Hn) as [[-> ->]|H]; [|auto]. exists n'. split; [apply Hch|done].
  - left. destruct (Retire_effect i a c) as [E|(n' & _ & Hch)]; [rewrite E in Hn; auto|].
    destruct (changed_active _ _ _ _ _ _ _ Hch Hn) as [[-> ->]|H]; [done|auto].
  - left. destruct (Demote_effect i a c) as [E|(n' & _ & Hch)]; [rewrite E in Hn; auto|].
    destruct (changed_active _ _ _ _ _ _ _ Hch Hn) as [[-> ->]|H]; [done|auto].
  - destruct (activation_effect i rev "" ev a c) as [E|(Hg & n' & Hch)].
    { left. apply Hsame. rewrite <-E. exact Hn. }
    destruct (changed_active _ _ _ _ _ _ _ Hch Hn) as [[-> ->]|H]; auto.
  - destruct (activation_effect i "" rev ev a c) as [E|(Hg & n' & Hch)].
    { left. apply Hsame. rewrite <-E. exact Hn. }
    destruct (changed_active _ _ _ _ _ _ _ Hch Hn) as [[-> ->]|H]; auto.
  - left. pose proof (Ingest_effect aggs a c id) as H. destruct (nodes_of c !! id) as [n1|] eqn:E; [|congruence].
    destruct H as (st & Hst & Hw). exists n1. split; [done|]. rewrite Hst in Hn. simplify_eq. simpl in Hact. subst st.
    unfold worse in Hw. naive_solver.
Qed.

(** The recovery the documents of the control-plane describe: a degraded node some reported window finds healthy. *)
Definition recovers (c : Cp) (aggs : list SignalAggregate) (id : string) : Prop :=
  (∃ n0, c_nodes (cp_store c) !! id = Some n0 ∧ n_Status n0 = NodeStatusDegraded) ∧
  ∃ a, a ∈ aggs ∧ ag_NodeID a = id ∧ (SignalService.classify a).2 = VerdictHealthy.

(** C13: no node serves customers unchecked. Whatever operation the fleet services perform (registration, full
    update, rotation, retirement, demotion, activation, telemetry), a node that is active afterwards was
    active before, or recovered from degraded on a healthy signal window, as the documents allow (the code never gets
    there: [Ingest_only_worsens]), or was just promoted by an activation whose guard held: it was provisioning and, as
    an exit, paired with data-plane evidence; otherwise with two transport types, an active exit, and an allow-list
    whose revision is still the one it was synced to. *)
Theorem active_only_guarded op c :
  keyed_nodes (c_nodes (cp_store c)) →
  keyed_nodes (c_nodes (cp_store (exec_fleet op c))) ∧
  ∀ id n, c_nodes (cp_store (exec_fleet op c)) !! id = Some n → n_Status n = NodeStatusActive →
    was_active c id ∨
    match op with
    | FActivate i rev ev _ => i = id ∧ guarded (cp_store c) (cp_clock c) id rev "" ev
    | FActivateAccess i rev ev _ => i = id ∧ guarded (cp_store c) (cp_clock c) id "" rev ev
    | FIngest aggs _ => recovers c aggs id
    | _ => False
    end.
Proof.
  intros Hk. split; [by apply exec_fleet_keyed|]. intros id n Hn Hact. destruct (active_guarded op c id n Hk Hn Hact) as [?|H]; [by left|right].
  by destruct op.
Qed.
End lifecycle.

(** ** A small fleet: a provisioning entry with two transports and its active exit *)
Definition demo_transport (type : TransportType) : Transport := {|
  t_Tag := type; t_Type := type; t_Version := "v1"; t_Port := 443; t_Enabled := true; t_Priority := 0;
  t_VlessReality := None; t_AmneziaWG := None; t_Hysteria2 := None; t_Shadowsocks2022 := None |}.
Definition demo_node (id : string) (role : NodeRole) (status : NodeStatus) (entry : option string) (ts : list Transport) : Node := {|
  n_ID := id; n_Role := role; n_Status := status; n_EntryNodeID := entry; n_Provider := "p"; n_Cloud := "c"; n_Region := "r";
  n_EntryIP := "10.0.0.1"; n_EphemeralEntryIP := false; n_Transports := ts; n_CapacityUsers := 10; n_RotateAfter := None;
  n_CreatedAt := 1; n_ExpiresAt := None; n_Labels := ∅ |}.
Definition demo_entry : Node := demo_node "e1" NodeRoleEntry NodeStatusProvisioning None
  [demo_transport TransportVlessReality; demo_transport TransportAmneziaWG].
Definition demo_exit : Node := demo_node "x1" NodeRoleExit NodeStatusActive (Some "e1") [].
Definition demo_fleet : Cp :=
  mkCp (set_nodes (λ _, <["e1" := demo_entry]> {["x1" := demo_exit]}) NewStore) 1000 [] [replicate 16 1; replicate 16 2] false [] [].
Lemma demo_fleet_keyed : keyed_nodes (c_nodes (cp_store demo_fleet)).
Proof.
  intros id n Hn. change (c_nodes (cp_store demo_fleet)) with (<["e1" := demo_entry]> ({["x1" := demo_exit]} : gmap string Node)) in Hn.
  apply lookup_insert_Some in Hn as [[<- <-]|[_ [<- <-]%lookup_singleton_Some]]; done.
Qed.

Lemma active_only_guarded_witness :
  let op := FActivate "e1" (RealityUsersRevision []) "" "orchestrator" in
  (n_Status <$> c_nodes (cp_store (exec_fleet (ord := key_order) op demo_fleet)) !! "e1") = Some NodeStatusActive ∧
  (was_active demo_fleet "e1" ∨ "e1" = "e1" ∧
     guarded (ord := key_order) (cp_store demo_fleet) 1000 "e1" (RealityUsersRevision []) "" "").
Proof.
  cbv zeta. split; [vm_compute; reflexivity|].
  apply (proj2 (active_only_guarded (ord := key_order) (FActivate "e1" (RealityUsersRevision []) "" "orchestrator") demo_fleet demo_fleet_keyed)
    "e1" (with_n_Status NodeStatusActive demo_entry)); [vm_compute; reflexivity|reflexivity].
Defined.

(** A healthy window for a degraded node changes nothing. *)
Definition demo_degraded : Cp := with_store (set_nodes <["e1" := with_n_Status NodeStatusDegraded demo_entry]> (cp_store demo_fleet)) demo_fleet.
Definition healthy_window : SignalAggregate := {|
  ag_NodeID := "e1"; ag_Region := "r"; ag_WindowStart := 0; ag_WindowEnd := 1; ag_Total := 100; ag_BySignal := {["ok" := 100]} |}.
Lemma Ingest_only_worsens_witness :
  SignalService.classify (ord := key_order) healthy_window = (0, VerdictHealthy) ∧
  (SignalService.Ingest (ord := key_order) [healthy_window] "telemetry" demo_degraded).1 = Ok [] ∧
  ∃ st, c_nodes (cp_store (SignalService.Ingest (ord := key_order) [healthy_window] "telemetry" demo_degraded).2) !! "e1"
          = Some (with_n_Status st (with_n_Status NodeStatusDegraded demo_entry)) ∧
    (st = NodeStatusDegraded ∨ (NodeStatusDegraded = NodeStatusActive ∧ (st = NodeStatusDegraded ∨ st = NodeStatusBlocked)) ∨
     (NodeStatusDegraded = NodeStatusDegraded ∧ st = NodeStatusBlocked)).
Proof.
  split; [vm_compute; reflexivity|]. split; [vm_compute; reflexivity|].
  apply (Ingest_only_worsens (ord := key_order) [healthy_window] "telemetry" demo_degraded "e1" (with_n_Status NodeStatusDegraded demo_entry)).
  vm_compute. reflexivity.
Defined.
