(* ===== verification/ControlTokens.v ===== *)
(** * Subscription links

    Which links resolve, and that rotating a token or a user's secrets kills the old links at once. *)
From S2P Require Import Prelude GoBytes GoText GoCodec Contracts ControlStore ControlUse.
Import Domain.

Lemma hex_decode_revoked s : hex_decode ("revoked:" +:+ s) = None.
Proof. done. Qed.
Lemma hex_decode_nonempty s b : hex_decode s = Some b → length b = 32%nat → s ≠ "".
Proof. intros Hd Hb ->. injection Hd as <-. done. Qed.
Lemma HashToken_decodes token : ∃ b, hex_decode (HashToken token) = Some b ∧ length b = 32%nat.
Proof.
  exists (Sha256.Sum256 (bytes_of token)). split; [|apply length_Sum256]. apply hex_decode_encode, Sum256_bound.
Qed.

Section tokens.
Context `{ord : !MapOrder}.
Abbreviation ResolveToken := SubscriptionService.ResolveToken.

(** The subscription [id] answers to the digest [hash]. *)
Definition answers (s : Store) (id hash : string) : Prop :=
  c_hashes s !! id = Some hash ∨ ∃ d, c_delivery s !! id = Some d ∧ dt_Hash d = hash.
(** Its user is active and linked to it. *)
Definition live_link (s : Store) (id : string) (sub : Subscription) : Prop :=
  c_subs s !! id = Some sub ∧
  ∃ u, c_users s !! s_UserID sub = Some u ∧ u_Status u = UserStatusActive ∧ u_SubscriptionID u = Some id.

Lemma resolves_spec s hash id sub : hash ≠ "" → c_subs s !! id = Some sub →
  Subscriptions.resolves s hash (id, sub) = true ↔ answers s id hash ∧ live_link s id sub.
Proof.
  intros Hne Hsub. unfold Subscriptions.resolves, answers, live_link. cbn [fst snd]. rewrite andb_true_iff, orb_true_iff, !bool_decide_eq_true.
  assert ((default "" (c_hashes s !! id) = hash ∨ dt_Hash (default zero_token (c_delivery s !! id)) = hash) ↔
    (c_hashes s !! id = Some hash ∨ ∃ d, c_delivery s !! id = Some d ∧ dt_Hash d = hash)) as ->.
  { destruct (c_hashes s !! id) as [h|], (c_delivery s !! id) as [d|]; simpl; naive_solver. }
  assert (match c_users s !! s_UserID sub with
     | Some u => bool_decide (u_Status u = UserStatusActive) && bool_decide (u_SubscriptionID u = Some id)
     | None => false end = true ↔ ∃ u, c_users s !! s_UserID sub = Some u ∧ u_Status u = UserStatusActive ∧ u_SubscriptionID u = Some id) as ->.
  { destruct (c_users s !! s_UserID sub) as [u|]; [rewrite andb_true_iff, !bool_decide_eq_true|]; naive_solver. }
  naive_solver.
Qed.

Lemma ResolveToken_sound hash c b : (ResolveToken hash c).1 = Ok b →
  (∃ k, hex_decode hash = Some k ∧ length k = 32%nat) ∧
  ∃ sub, answers (cp_store c) (tk_SubscriptionID b) hash ∧ live_link (cp_store c) (tk_SubscriptionID b) sub ∧ tk_UserID b = s_UserID sub.
Proof.
  unfold ResolveToken. destruct (hex_decode hash) as [k|] eqn:Eh; [|done]. destruct (Nat.eqb_spec (length k) 32) as [Hl|]; [|done].
  unfold repo, zoom, Subscriptions.ResolveTokenHash. destruct (list_find _ _) as [[i [id sub]]|] eqn:E; [|done]. intros [= <-].
  split; [eauto|]. apply list_find_Some in E as (Hi & Hr & _). exists sub. cbn [tk_SubscriptionID tk_UserID].
  assert (c_subs (cp_store c) !! id = Some sub) as Hs by (apply elem_of_range, list_elem_of_lookup; eauto).
  apply resolves_spec in Hr as [? ?]; [done|by eapply hex_decode_nonempty|done].
Qed.
Lemma ResolveToken_complete hash k c id sub :
  hex_decode hash = Some k → length k = 32%nat → answers (cp_store c) id hash → live_link (cp_store c) id sub →
  (∀ id', answers (cp_store c) id' hash → id' = id) →
  (ResolveToken hash c).1 = Ok {| tk_UserID := s_UserID sub; tk_SubscriptionID := id |}.
Proof.
  intros Hh Hk Ha Hl Hu. unfold ResolveToken. rewrite Hh, Hk. cbn. unfold repo, zoom, Subscriptions.ResolveTokenHash.
  assert (hash ≠ "") as Hne by (by eapply hex_decode_nonempty).
  destruct (list_find _ _) as [[i [id' sub']]|] eqn:E; cbn [fst].
  - apply list_find_Some in E as (Hi & Hr & _).
    assert (c_subs (cp_store c) !! id' = Some sub') as Hs by (apply elem_of_range, list_elem_of_lookup; eauto).
    apply resolves_spec in Hr as [Ha' Hl']; [|done|done]. rewrite (Hu id' Ha') in *. destruct Hl as [Hs' _]. by simplify_eq.
  - exfalso. apply list_find_None in E. rewrite Forall_forall in E. destruct Hl as [Hs Hrest].
    apply (E (id, sub)); [by apply elem_of_range|]. apply resolves_spec; [done|done|]. by split.
Qed.

(** ** Rotation *)
Lemma RotateToken_store id c swt c' : SubscriptionService.RotateToken id c = (Ok swt, c') →
  ∃ sub, c_subs (cp_store c) !! id = Some sub ∧
    cp_store c' = set_delivery (delete id) (set_hashes <[id := HashToken (SubscriptionService.swt_PlainToken swt)]> (cp_store c)).
Proof.
  unfold SubscriptionService.RotateToken, mbind, M_bind, repo, zoom, Subscriptions.Get.
  destruct (c_subs (cp_store c) !! id) as [sub|] eqn:Es; [|done].
  unfold Token, mbind, M_bind, rand_Read. cbn [cp_rand with_store]. destruct (cp_rand c) as [|b bs]; [done|].
  cbn [mret M_ret cp_store with_store]. unfold Subscriptions.UpdateTokenHash.
  rewrite Es. intros [= <- <-]. by exists sub.
Qed.

(** rotating a token kills the old link and only it. After RotateToken, the subscription resolves from the
    digest of the new token, if its user is active and linked to it and no other subscription answers to that
    digest, and from no other digest: neither the old token nor a delivery alias issued before still works. *)
Theorem RotateToken_replaces id c swt c' :
  SubscriptionService.RotateToken id c = (Ok swt, c') →
  let hash := HashToken (SubscriptionService.swt_PlainToken swt) in
  (∀ h b, (ResolveToken h c').1 = Ok b → tk_SubscriptionID b = id → h = hash) ∧
  (∀ sub, live_link (cp_store c) id sub → (∀ id', id' ≠ id → ¬ answers (cp_store c) id' hash) →
     (ResolveToken hash c').1 = Ok {| tk_UserID := s_UserID sub; tk_SubscriptionID := id |}).
Proof.
  intros Hrot. cbv zeta. destruct (RotateToken_store _ _ _ _ Hrot) as (sub0 & Hs0 & Est).
  destruct (HashToken_decodes (SubscriptionService.swt_PlainToken swt)) as (k & Hk & Hlen).
  set (hash := HashToken _) in *. clearbody hash. split.
  - intros h b Hres Hid. apply ResolveToken_sound in Hres as (_ & sub & Ha & _). rewrite Hid, Est in Ha. unfold answers in Ha. simpl in Ha.
    rewrite lookup_insert_eq, lookup_delete_eq in Ha. destruct Ha as [Ha|(d & Ha & _)]; [congruence|done].
  - intros sub [Hs Hlive] Hother. apply (ResolveToken_complete hash k); [exact Hk|exact Hlen| | |].
    + rewrite Est. left. simpl. by rewrite lookup_insert_eq.
    + rewrite Est. split; [exact Hs|exact Hlive].
    + intros id' Ha. destruct (decide (id' = id)) as [->|Hne]; [done|]. exfalso. apply (Hother id' Hne). rewrite Est in Ha.
      unfold answers in *. simpl in Ha. by rewrite lookup_insert_ne, lookup_delete_ne in Ha by done.
Qed.

(** Revoking the hashes of every subscription of a user. *)
Lemma foldl_insert_const (l : list (string * Subscription)) (v : string) : ∀ (h : gmap string string) k,
  foldl (λ h kv, <[kv.1 := v]> h) h l !! k = if decide (k ∈ l.*1) then Some v else h !! k.
Proof.
  induction l as [|[k0 x] l IH]; intros h k; simpl; [done|]. rewrite IH. destruct (decide (k ∈ l.*1)) as [Hin|Hnin].
  - by rewrite decide_True by (by right).
  - destruct (decide (k = k0)) as [->|Hne]; [rewrite decide_True by left; by rewrite lookup_insert_eq|].
    rewrite decide_False by (intros [?|?]%elem_of_cons; done). by rewrite lookup_insert_ne.
Qed.
Lemma foldl_delete_keys (l : list (string * Subscription)) : ∀ (d : gmap string DeliveryToken) k,
  foldl (λ d kv, delete kv.1 d) d l !! k = if decide (k ∈ l.*1) then None else d !! k.
Proof.
  induction l as [|[k0 x] l IH]; intros d k; simpl; [done|]. rewrite IH. destruct (decide (k ∈ l.*1)) as [Hin|Hnin].
  - by rewrite decide_True by (by right).
  - destruct (decide (k = k0)) as [->|Hne]; [rewrite decide_True by left; by rewrite lookup_delete_eq|].
    rewrite decide_False by (intros [?|?]%elem_of_cons; done). by rewrite lookup_delete_ne.
Qed.

Lemma revoke_hashes_answers userID hy2 s id sub hash :
  c_subs s !! id = Some sub → s_UserID sub = userID → answers (Users.revoke_hashes userID hy2 s) id hash → hash = "revoked:" +:+ hy2.
Proof.
  intros Hs Hu. unfold answers, Users.revoke_hashes. cbn [c_hashes c_delivery set_hashes set_delivery].
  rewrite foldl_insert_const, foldl_delete_keys.
  assert (id ∈ (filter (λ kv : string * Subscription, s_UserID kv.2 = userID) (range (c_subs s))).*1) as Hin.
  { apply list_elem_of_fmap. exists (id, sub). split; [done|]. apply list_elem_of_filter. split; [done|]. by apply elem_of_range. }
  rewrite !decide_True by done. intros [[= <-]|(d & ? & _)]; done.
Qed.

(** The state a successful RotateSecrets leaves: the repository's rotation, then only history and queue. *)
Lemma RotateSecrets_store id reason c u c' : UserService.RotateSecrets id reason c = (Ok u, c') →
  ∃ hy2, c_users (cp_store c') = <[id := u]> (c_users (cp_store c)) ∧ c_subs (cp_store c') = c_subs (cp_store c) ∧
    c_hashes (cp_store c') = c_hashes (Users.revoke_hashes id hy2 (cp_store c)) ∧
    c_delivery (cp_store c') = c_delivery (Users.revoke_hashes id hy2 (cp_store c)).
Proof.
  unfold UserService.RotateSecrets, RealityShortID, UUIDv4, PrivateKey, Token, try, mbind, M_bind, rand_Read, repo, zoom, Users.Get, now, notify, enqueue.
  destruct (c_users (cp_store c) !! id) as [u0|] eqn:Eu; [|done]. cbn [cp_rand with_store cp_store].
  destruct (cp_rand c) as [|b1 [|b2 [|b3 [|b4 [|b5 bs]]]]]; cbn [mret M_ret cp_rand cp_store]; try done;
    unfold Users.RotateSecrets; rewrite Eu; try done.
  cbn. intros [= <- <-]. eexists. split_and!; reflexivity.
Qed.

(** The abuse response cuts off every link of the account. After RotateSecrets no token whatever resolves
    to a subscription of that user, neither subscription tokens nor delivery aliases, until new ones are
    issued. *)
Theorem RotateSecrets_kills_links id reason c u c' :
  UserService.RotateSecrets id reason c = (Ok u, c') →
  ∀ hash b, (ResolveToken hash c').1 = Ok b → tk_UserID b ≠ id.
Proof.
  intros Hrot hash b Hres Hid. destruct (RotateSecrets_store _ _ _ _ _ Hrot) as (hy2 & _ & Esub & Ehash & Edel).
  destruct (ResolveToken_sound _ _ _ Hres) as ((k & Hk & _) & sub & Ha & [Hs _] & Hu). rewrite Esub in Hs.
  assert (hash = "revoked:" +:+ hy2) as ->.
  { apply (revoke_hashes_answers id hy2 (cp_store c) (tk_SubscriptionID b) sub); [done|congruence|].
    unfold answers in *. by rewrite <-Ehash, <-Edel. }
  by rewrite hex_decode_revoked in Hk.
Qed.
End tokens.

(** ** One linked account *)
Definition link_user : User := {|
  u_ID := "u1"; u_TelegramID := None; u_Email := None; u_Status := "active"; u_RealityShortID := "ab";
  u_UUID := "uuid"; u_Hysteria2Password := "pw"; u_PrivateKey := ""; u_SubscriptionID := Some "s1";
  u_DeviceLimit := 3; u_QuotaBytes := 0; u_UsedBytes := 0; u_CreatedAt := 1; u_UpdatedAt := 1 |}.
Definition link_sub : Subscription := with_s_Token "" (SubscriptionService.fresh "s1" "u1" "basic" "t" 5 false).
Definition link_store : Store :=
  set_hashes <["s1" := HashToken "t"]> (set_delivery <["s1" := {| dt_Hash := HashToken "alias"; dt_Ciphertext := []; dt_KeyID := "" |}]>
    (set_subs <["s1" := link_sub]> (set_users <["u1" := link_user]> NewStore))).
Definition link_cp : Cp := mkCp link_store 10 [] (replicate 5 (replicate 32 7)) true [] [].
Definition rotated : Cp := (SubscriptionService.RotateToken "s1" link_cp).2.
Definition new_token : string := base64 true (replicate 32 7).

Example old_links_resolve :
  (SubscriptionService.ResolveToken (ord := key_order) (HashToken "t") link_cp).1 = Ok {| tk_UserID := "u1"; tk_SubscriptionID := "s1" |} ∧
  (SubscriptionService.ResolveToken (ord := key_order) (HashToken "alias") link_cp).1 = Ok {| tk_UserID := "u1"; tk_SubscriptionID := "s1" |}.
Proof. split; vm_compute; reflexivity. Qed.
Lemma RotateToken_replaces_witness :
  (SubscriptionService.ResolveToken (ord := key_order) (HashToken new_token) rotated).1 = Ok {| tk_UserID := "u1"; tk_SubscriptionID := "s1" |} ∧
  (SubscriptionService.ResolveToken (ord := key_order) (HashToken "t") rotated).1 = Err ErrNotFound.
Proof.
  split; [|vm_compute; reflexivity].
  destruct (RotateToken_replaces (ord := key_order) "s1" link_cp
    {| SubscriptionService.swt_Subscription := with_s_Token new_token (with_s_period "active" None 10 link_sub);
       SubscriptionService.swt_PlainToken := new_token |} rotated) as [_ H]; [vm_compute; reflexivity|].
  apply (H link_sub).
  - split; [reflexivity|]. exists link_user. split_and!; reflexivity.
  - intros id' Hne [Ha|(d & Ha & _)]; unfold link_cp, link_store in Ha; simpl in Ha; rewrite lookup_insert_ne in Ha by done; by rewrite lookup_empty in Ha.
Defined.
Definition secrets_rotated : result User * Cp := UserService.RotateSecrets (ord := key_order) "u1" "abuse" link_cp.
Definition rotated_user : User := with_u_secrets (hex_encode (replicate 8 7)) (uuid_of (replicate 16 7))
  (base64 false (replicate 32 7)) (base64 true (replicate 32 7)) link_user.
Lemma RotateSecrets_kills_links_witness :
  cp_jobs secrets_rotated.2 = [JobUser "u1"] ∧
  ((SubscriptionService.ResolveToken (ord := key_order) (HashToken "t") secrets_rotated.2).1
     ≠ Ok {| tk_UserID := "u1"; tk_SubscriptionID := "s1" |}).
Proof.
  split; [vm_compute; reflexivity|]. intros H.
  apply (RotateSecrets_kills_links (ord := key_order) "u1" "abuse" link_cp rotated_user secrets_rotated.2
    ltac:(vm_compute; reflexivity) (HashToken "t") {| tk_UserID := "u1"; tk_SubscriptionID := "s1" |} H). reflexivity.
Defined.
