(* ===== verification/ControlRebuild.v ===== *)
(** * Rebuilding users' sets

    What the workers make of the job a fleet change enqueues: a node that left service leaves the sets of
    all its users. *)
From S2P Require Import Prelude GoBytes GoText Contracts ControlStore ControlUse ControlFleet ControlLifecycle.
Import Domain.

Section rebuild.
Context `{ord : !MapOrder}.
Abbreviation sets_of c := (c_sets (cp_store c)).
Abbreviation users_of c := (c_users (cp_store c)).

Definition active_ids (c : Cp) : list string := n_ID <$> filter (λ n, n_Status n = NodeStatusActive) (range (c_nodes (cp_store c))).*2.

(** Building the set of one user: nothing for an unknown one, else a fresh set of the active nodes. *)
Lemma Build_effect uid c :
  let c' := (BundleService.Build uid c).2 in
  nodes_of c' = nodes_of c ∧ users_of c' = users_of c ∧ cp_jobs c' = cp_jobs c ∧
  match users_of c !! uid with
  | None => sets_of c' = sets_of c
  | Some u => ∃ x, sets_of c' = <[uid := x]> (sets_of c) ∧ set_NodeIDs x = active_ids c ∧ set_Dirty x = false ∧
                   u_PrivateKey (sb_User (set_Bundle x)) = ""
  end.
Proof.
  cbv zeta. unfold BundleService.Build, mbind, M_bind, repo, zoom, Users.Get, try, Sets.Get, Nodes.ListActive, gets, now, Sets.Upsert, modify.
  destruct (users_of c !! uid) as [u|] eqn:Eu; [|done]. cbn [cp_store with_store c_sets].
  destruct (sets_of c !! uid) as [prev|] eqn:Es; cbn; split_and!; try done; eexists; split_and!; reflexivity.
Qed.

Lemma active_ids_notin c id : keyed_nodes (nodes_of c) → (∀ n, nodes_of c !! id = Some n → n_Status n ≠ NodeStatusActive) → id ∉ active_ids c.
Proof.
  intros Hk Hna (n & -> & [Hact ([k n'] & -> & Hin%elem_of_range)%list_elem_of_fmap]%list_elem_of_filter)%list_elem_of_fmap. simpl in *.
  pose proof (Hk _ _ Hin) as Hid. rewrite Hid in Hna. by apply (Hna n').
Qed.

(** The sets after building for several users. *)
Lemma build_all_effect us : ∀ c,
  let c' := (Queue.build_all us c).2 in
  nodes_of c' = nodes_of c ∧ users_of c' = users_of c ∧
  ∀ uid x, sets_of c' !! uid = Some x →
    (uid ∈ us ∧ is_Some (users_of c !! uid) ∧ set_NodeIDs x = active_ids c ∧ set_Dirty x = false) ∨
    (¬ (uid ∈ us ∧ is_Some (users_of c !! uid)) ∧ sets_of c !! uid = Some x).
Proof.
  induction us as [|u us IH]; intros c; cbv zeta.
  { split_and!; [done..|]. intros uid x Hx. right. split; [|done]. intros [[]%elem_of_nil _]. }
  cbn [Queue.build_all]. unfold mbind, M_bind, ignore.
  destruct (Build_effect u c) as (En & Eu & _ & Hset). set (c1 := (BundleService.Build u c).2) in *.
  destruct (IH c1) as (En' & Eu' & Hx). split; [congruence|]. split; [congruence|]. intros uid x Hin.
  assert (active_ids c1 = active_ids c) as Eact by (unfold active_ids, nodes_of in *; by rewrite En).
  destruct (Hx uid x Hin) as [(Hu & Hs & Hn & Hd)|(Hnot & Hold)].
  - left. rewrite Eu in Hs. rewrite Eact in Hn. split_and!; [by right|done|done|done].
  - rewrite Eu in Hnot. destruct (decide (uid = u)) as [->|Hne].
    + destruct (users_of c !! u) as [usr|] eqn:Eusr.
      * destruct Hset as (x' & Es & Hn & Hd & _). rewrite Es, lookup_insert_eq in Hold. simplify_eq.
        left. split_and!; [by left|by eexists|done|done].
      * right. rewrite Hset in Hold. split; [|done]. intros [_ [? ?]]. done.
    + assert (sets_of c !! uid = Some x) as Hold'.
      { destruct (users_of c !! u); [destruct Hset as (x' & Es & _); by rewrite Es, lookup_insert_ne in Hold|by rewrite Hset in Hold]. }
      right. split; [|done]. intros [[->|Hu]%elem_of_cons Hs]; [done|]. by apply Hnot.
Qed.

Lemma process_node_effect id c :
  keyed_nodes (nodes_of c) → (∀ n, nodes_of c !! id = Some n → n_Status n ≠ NodeStatusActive) →
  ∀ uid x, sets_of (Queue.process (JobNode id) c).2 !! uid = Some x → id ∈ set_NodeIDs x →
    users_of c !! uid = None ∧ set_Dirty x = true.
Proof.
  intros Hk Hna uid x. cbn [Queue.process]. unfold mbind, M_bind, ignore, repo at 1, zoom at 1, Sets.MarkDirtyByNode, modify. cbn [snd].
  set (c1 := with_store (set_sets (range_update (λ _ x, if Sets.has_node id x then Some (with_Dirty true x) else None)) (cp_store c)) c).
  unfold repo, zoom, Sets.UserIDsByNode, gets. cbn [fst snd].
  replace (with_store (cp_store c1) c1) with c1 by (by destruct c).
  set (us := (filter _ _).*1). destruct (build_all_effect us c1) as (_ & _ & Hx). intros Hin Hid.
  assert (∀ y, sets_of c1 !! uid = Some y → ∃ y0, sets_of c !! uid = Some y0 ∧
     y = if Sets.has_node id y0 then with_Dirty true y0 else y0) as Hmark.
  { unfold c1. cbn [cp_store with_store c_sets set_sets]. intros y. rewrite range_update_lookup.
    destruct (sets_of c !! uid) as [y0|]; [|done]. intros [= <-]. exists y0. split; [done|]. by destruct (Sets.has_node id y0). }
  destruct (Hx uid x Hin) as [(_ & _ & Hn & _)|(Hnot & Hold)].
  - exfalso. rewrite Hn in Hid. revert Hid. by apply active_ids_notin.
  - destruct (Hmark x Hold) as (y0 & Hy0 & Ey). destruct (Sets.has_node id y0) eqn:Eh.
    + split; [|by rewrite Ey]. destruct (users_of c !! uid) as [u|] eqn:Eu; [|done]. exfalso. apply Hnot. split; [|by exists u].
      unfold us. apply list_elem_of_fmap. exists (uid, x). split; [done|]. apply list_elem_of_filter. cbn [snd]. split.
      * rewrite Ey. exact Eh.
      * by apply elem_of_range.
    + exfalso. unfold Sets.has_node in Eh. apply bool_decide_eq_false in Eh. apply Eh. by rewrite <-Ey.
Qed.

(** Retiring a node: its status, its history and the job. *)
Lemma Retire_ok id actor c c1 : NodeService.Retire id actor c = (Ok tt, c1) →
  (∃ n, nodes_of c !! id = Some n ∧ nodes_of c1 = <[id := with_n_Status NodeStatusRetired n]> (nodes_of c)) ∧
  users_of c1 = users_of c ∧ sets_of c1 = sets_of c ∧ cp_jobs c1 = cp_jobs c ++ [JobNode id].
Proof.
  unfold NodeService.Retire, mbind, M_bind, repo, zoom, Nodes.SetStatus. unfold nodes_of.
  destruct (c_nodes (cp_store c) !! id) as [n|] eqn:En; [|done].
  unfold NodeService.recordRotation, UUIDv4, mbind, M_bind, rand_Read. cbn [cp_rand with_store]. destruct (cp_rand c) as [|b bs]; [done|].
  cbn. intros [= <-]. cbn. split_and!; [|done..]. by exists n.
Qed.

(** Customers are moved off a node that leaves service. When a retirement succeeds and a worker processes
    the job it enqueued, no customer's set contains the node any more: only a set whose user is gone may still
    name it, and that one is marked stale. *)
Theorem retired_node_leaves_sets id actor c c1 :
  keyed_nodes (c_nodes (cp_store c)) → cp_jobs c = [] →
  NodeService.Retire id actor c = (Ok tt, c1) →
  ∀ uid x, c_sets (cp_store (Queue.worker_step c1).2) !! uid = Some x → id ∈ set_NodeIDs x →
    c_users (cp_store c) !! uid = None ∧ set_Dirty x = true.
Proof.
  intros Hk Hj Hret uid x. destruct (Retire_ok _ _ _ _ Hret) as ((n & Hn & En) & Eu & Es & Ej).
  unfold Queue.worker_step. rewrite Ej, Hj. cbn [app]. rewrite <-Eu.
  apply (process_node_effect id (mkCp (cp_store c1) (cp_clock c1) (cp_ticks c1) (cp_rand c1) (cp_revoker c1) (cp_sent c1) [])).
  - change (keyed_nodes (nodes_of c1)). rewrite En. apply (keyed_changed (nodes_of c) _ id (Some n) (with_n_Status NodeStatusRetired n)); [done|done|].
    exact (Hk _ _ Hn).
  - change (∀ n0, nodes_of c1 !! id = Some n0 → n_Status n0 ≠ NodeStatusActive). rewrite En. intros n0. rewrite lookup_insert_eq. by intros [= <-].
Qed.
End rebuild.

(** A customer on the exit and the entry of the small fleet; the exit is retired. *)
Definition served_user : User := {|
  u_ID := "u1"; u_TelegramID := None; u_Email := None; u_Status := "active"; u_RealityShortID := "ab";
  u_UUID := "uuid"; u_Hysteria2Password := "pw"; u_PrivateKey := "key"; u_SubscriptionID := None;
  u_DeviceLimit := 3; u_QuotaBytes := 0; u_UsedBytes := 0; u_CreatedAt := 1; u_UpdatedAt := 1 |}.
Definition served_fleet : Cp :=
  (BundleService.Build (ord := key_order) "u1" (with_store (set_users <["u1" := served_user]> (cp_store demo_fleet)) demo_fleet)).2.
Definition served_after : Cp := (Queue.worker_step (ord := key_order) (NodeService.Retire "x1" "admin" served_fleet).2).2.
Lemma retired_node_leaves_sets_witness :
  (set_NodeIDs <$> c_sets (cp_store served_fleet) !! "u1") = Some ["x1"] ∧
  (set_NodeIDs <$> c_sets (cp_store served_after) !! "u1") = Some [] ∧
  (∀ x, c_sets (cp_store served_after) !! "u1" = Some x → "x1" ∈ set_NodeIDs x →
     c_users (cp_store served_fleet) !! "u1" = None ∧ set_Dirty x = true).
Proof.
  split; [vm_compute; reflexivity|]. split; [vm_compute; reflexivity|].
  apply (retired_node_leaves_sets (ord := key_order) "x1" "admin" served_fleet (NodeService.Retire "x1" "admin" served_fleet).2).
  - exact demo_fleet_keyed.
  - vm_compute. reflexivity.
  - vm_compute. reflexivity.
Defined.
