(* ===== verification/ControlLinks.v ===== *)
(** * One account, one subscription

    The operations that create, bill, patch and cancel subscriptions keep every subscription linked from its
    own user, so no account ever holds two. *)
From S2P Require Import Prelude GoBytes GoText Contracts BillingClient ControlStore ControlUse ControlLaws.
Import Domain.

(** The operations of the subscription service that write. *)
Inductive sub_op :=
| SCreate (userID : string) (plan : SubscriptionPlan)
| SEnsure (userID : string) (plan : SubscriptionPlan)
| SBill (id : string) (state : BillingState)
| SPatch (id : string) (patch : SubscriptionPatch)
| SCancel (id : string)
| SRotate (id : string).
Definition exec_sub (op : sub_op) (c : Cp) : Cp :=
  match op with
  | SCreate u p => (SubscriptionService.Create u p c).2
  | SEnsure u p => (SubscriptionService.Ensure u p c).2
  | SBill id st => (SubscriptionService.ApplyBillingState id st c).2
  | SPatch id patch => (SubscriptionService.Patch id patch c).2
  | SCancel id => (SubscriptionService.Cancel id c).2
  | SRotate id => (SubscriptionService.RotateToken id c).2
  end.

(** Every subscription is filed under its id and linked from its user; the ids to come are fresh. *)
Record linked (c : Cp) : Prop := {
  lk_link : ∀ id sub, c_subs (cp_store c) !! id = Some sub → s_ID sub = id ∧ id ≠ "" ∧
    ∃ u, c_users (cp_store c) !! s_UserID sub = Some u ∧ u_SubscriptionID u = Some id;
  lk_fresh : ∀ b, b ∈ cp_rand c → c_subs (cp_store c) !! block_id b = None;
  lk_distinct : NoDup (block_id <$> cp_rand c)
}.

(** [c'] keeps users and subscriptions' identities: it may rewrite subscriptions in place. *)
Definition rewrites (c c' : Cp) : Prop :=
  c_users (cp_store c') = c_users (cp_store c) ∧ (∃ n, cp_rand c' = drop n (cp_rand c)) ∧
  ∀ id, match c_subs (cp_store c') !! id with
        | None => c_subs (cp_store c) !! id = None
        | Some s' => ∃ s, c_subs (cp_store c) !! id = Some s ∧ s_ID s' = s_ID s ∧ s_UserID s' = s_UserID s
        end.

Lemma rewrites_same c c' n : cp_store c' = cp_store c → cp_rand c' = drop n (cp_rand c) → rewrites c c'.
Proof.
  intros Es Er. split; [by rewrite Es|]. split; [by exists n|]. intros id. rewrite Es.
  destruct (c_subs (cp_store c) !! id) as [s|]; [by exists s|done].
Qed.
Lemma rewrites_one c c' id s s' n :
  c_users (cp_store c') = c_users (cp_store c) → cp_rand c' = drop n (cp_rand c) → c_subs (cp_store c) !! id = Some s →
  c_subs (cp_store c') = <[id := s']> (c_subs (cp_store c)) → s_ID s' = s_ID s → s_UserID s' = s_UserID s → rewrites c c'.
Proof.
  intros Eu Er Hs Es Hid Hu. split; [done|]. split; [by exists n|]. intros i. rewrite Es, lookup_insert.
  case_decide as Hi; [subst; eauto|]. destruct (c_subs (cp_store c) !! i) as [x|]; [by exists x|done].
Qed.

Lemma fresh_drop c c' n : linked c → cp_rand c' = drop n (cp_rand c) →
  (∀ b, b ∈ cp_rand c' → c_subs (cp_store c) !! block_id b = None) ∧ NoDup (block_id <$> cp_rand c').
Proof.
  intros [_ Hf Hd] ->. split; [intros b Hb; apply Hf; by apply (subseteq_drop n)|].
  rewrite fmap_drop. rewrite <-(take_drop n (block_id <$> cp_rand c)) in Hd. by apply NoDup_app in Hd as (_ & _ & ?).
Qed.

Lemma rewrites_linked c c' : linked c → rewrites c c' → linked c'.
Proof.
  intros Hl (Eu & (n & Er) & Hsub). destruct (fresh_drop c c' n Hl Er) as [Hf Hd]. pose proof Hl as [Hk _ _]. split.
  - intros id s' Hs'. specialize (Hsub id). rewrite Hs' in Hsub. destruct Hsub as (s & Hs & Hid & Hu). rewrite Eu, Hu, Hid. by apply Hk.
  - intros b Hb. specialize (Hsub (block_id b)). destruct (c_subs (cp_store c') !! block_id b) as [s'|]; [|done].
    destruct Hsub as (s & Hs & _). by rewrite (Hf b Hb) in Hs.
  - done.
Qed.

Lemma uuid_nonempty b : uuid_of b ≠ "".
Proof. unfold uuid_of. cbn [join]. destruct (hex_encode (slice 0 4 (set_version b))); done. Qed.

Lemma ensured_linked c c' : linked c → ensured c c' → linked c'.
Proof.
  intros Hl (n & Er & Hcase). destruct Hcase as [Es|(b & rest & sub & h & pfx & u & Hb & Hn & Hid & Hu & _ & Es)].
  { eapply rewrites_linked; [exact Hl|]. by apply (rewrites_same c c' n). }
  destruct (fresh_drop c c' n Hl Er) as [Hf Hd]. pose proof Hl as [Hk Hfr Hdist].
  unfold Subscriptions.CreateAndLink in Es. destruct (c_users (cp_store c) !! u) as [usr|] eqn:Eusr.
  2:{ eapply rewrites_linked; [exact Hl|]. by apply (rewrites_same c c' n). }
  destruct (ptr_set (u_SubscriptionID usr)) eqn:Eptr.
  { eapply rewrites_linked; [exact Hl|]. by apply (rewrites_same c c' n). }
  cbn [snd] in Es. split; [|intros b' Hb'|done]; rewrite Es; cbn [c_subs c_users set_users set_subs set_hashes].
  - intros id s [[<- <-]|[Hne Hs]]%lookup_insert_Some.
    + cbn [s_ID s_UserID with_s_Token]. split; [done|]. split; [rewrite Hid; apply uuid_nonempty|].
      rewrite Hu, lookup_insert_eq. eexists. split; [reflexivity|done].
    + destruct (Hk _ _ Hs) as (Hsid & Hne' & u' & Hu' & Hlink). split; [done|]. split; [done|]. exists u'. split; [|done].
      rewrite lookup_insert_ne; [done|]. intros Heq. rewrite <-Heq in Hu'. simplify_eq. rewrite Hlink in Eptr. simpl in Eptr.
      by rewrite bool_decide_false in Eptr.
  - rewrite lookup_insert_ne; [by apply Hf|]. rewrite Hid. intros Heq.
    rewrite Hb in Hdist. apply NoDup_cons in Hdist as [Hnot _]. apply Hnot. rewrite Heq. apply list_elem_of_fmap_2.
    rewrite Er, Hb in Hb'. destruct n; [lia|]. simpl in Hb'. by apply (subseteq_drop n).
Qed.

Lemma Get_sub id c : repo (Subscriptions.Get id) c =
  (match c_subs (cp_store c) !! id with None => Err ErrNotFound | Some s => Ok s end, c).
Proof. unfold repo, zoom, Subscriptions.Get. destruct (c_subs (cp_store c) !! id); by destruct c. Qed.

Lemma ApplyPlanLimits_user sub p : s_UserID (ApplyPlanLimits sub p) = s_UserID sub ∧ s_ID (ApplyPlanLimits sub p) = s_ID sub.
Proof. unfold ApplyPlanLimits. by repeat case_bool_decide. Qed.

Lemma Bill_rewrites id st c : rewrites c (SubscriptionService.ApplyBillingState id st c).2.
Proof.
  unfold SubscriptionService.ApplyBillingState. destruct (invalid _); [by apply (rewrites_same _ _ 0)|].
  unfold mbind, M_bind, now, repo, zoom, Subscriptions.ApplyBillingState. cbn [cp_store].
  destruct (c_subs (cp_store c) !! id) as [sub|] eqn:Es; [|by apply (rewrites_same _ _ 0)].
  destruct (_ && _); [by apply (rewrites_same _ _ 0)|]. destruct (_ <? _); [|by apply (rewrites_same _ _ 0)]. cbn [snd].
  eapply (rewrites_one _ _ id sub _ 0); [done|done|done|reflexivity| |]; cbn [s_ID s_UserID with_s_billing];
    destruct (bool_decide _); try done; apply ApplyPlanLimits_user.
Qed.
Lemma Cancel_rewrites id c : rewrites c (SubscriptionService.Cancel id c).2.
Proof.
  unfold SubscriptionService.Cancel, mbind, M_bind, now, repo, zoom, Subscriptions.CancelSubscription. cbn [cp_store].
  destruct (c_subs (cp_store c) !! id) as [sub|] eqn:Es; [|by apply (rewrites_same _ _ 0)].
  by eapply (rewrites_one _ _ id sub _ 0).
Qed.
Lemma Patch_rewrites id patch c : linked c → rewrites c (SubscriptionService.Patch id patch c).2.
Proof.
  intros Hl. unfold SubscriptionService.Patch. destruct (invalid _); [by apply (rewrites_same _ _ 0)|].
  unfold mbind at 1, M_bind at 1. rewrite Get_sub.
  destruct (c_subs (cp_store c) !! id) as [sub|] eqn:Es; [|by apply (rewrites_same _ _ 0)].
  destruct (_ && _); [by apply (rewrites_same _ _ 0)|]. destruct (SubscriptionPatch_IsZero patch); [by apply (rewrites_same _ _ 0)|].
  destruct (lk_link _ Hl _ _ Es) as (Hid & _ & _).
  unfold mbind, M_bind, now, repo, zoom, Subscriptions.Update, notify. cbn [cp_store s_ID with_s_period]. rewrite Hid, Es.
  destruct (_ <? _); [by apply (rewrites_same _ _ 0)|].
  destruct (p_Status patch) as [st|]; [destruct (negb (servable st))|]; by eapply (rewrites_one _ _ id sub _ 0).
Qed.
Lemma RotateToken_rewrites id c : rewrites c (SubscriptionService.RotateToken id c).2.
Proof.
  unfold SubscriptionService.RotateToken. unfold mbind at 1, M_bind at 1. rewrite Get_sub.
  destruct (c_subs (cp_store c) !! id) as [sub|] eqn:Es; [|by apply (rewrites_same _ _ 0)].
  unfold Token, mbind, M_bind, rand_Read, now, notify. destruct (cp_rand c) as [|b bs] eqn:Er; [apply (rewrites_same _ _ 0); [done|by rewrite Er]|].
  unfold repo, zoom, Subscriptions.UpdateTokenHash. cbn [cp_store mret M_ret]. rewrite Es. cbn.
  split; [done|]. split; [exists 1%nat; by rewrite Er|]. cbn. intros i. destruct (c_subs (cp_store c) !! i) as [s|]; [by exists s|done].
Qed.

Lemma exec_sub_linked op c : linked c → linked (exec_sub op c).
Proof.
  intros Hl. destruct op; cbn [exec_sub].
  - apply (ensured_linked c); [done|apply create_ensured].
  - apply (ensured_linked c); [done|apply Ensure_ensured].
  - apply (rewrites_linked c); [done|apply Bill_rewrites].
  - apply (rewrites_linked c); [done|by apply Patch_rewrites].
  - apply (rewrites_linked c); [done|apply Cancel_rewrites].
  - apply (rewrites_linked c); [done|apply RotateToken_rewrites].
Qed.

(** C40: an account holds at most one subscription, and it is reachable from the account. From a state where
    every subscription is linked and the random ids to come are fresh, after any sequence of creations,
    ensures, billing pushes, patches, cancellations and token rotations, every subscription is still linked
    from its own user, and two subscriptions of one user are the same. *)
Theorem one_subscription_per_user ops c :
  linked c →
  let c' := foldl (λ c op, exec_sub op c) c ops in
  (∀ id sub, c_subs (cp_store c') !! id = Some sub → ∃ u, c_users (cp_store c') !! s_UserID sub = Some u ∧ u_SubscriptionID u = Some id) ∧
  (∀ id1 id2 s1 s2, c_subs (cp_store c') !! id1 = Some s1 → c_subs (cp_store c') !! id2 = Some s2 →
     s_UserID s1 = s_UserID s2 → id1 = id2).
Proof.
  intros Hl. cbv zeta. assert (linked (foldl (λ c op, exec_sub op c) c ops)) as [Hk _ _].
  { revert c Hl. induction ops as [|op ops IH]; intros c Hl; [done|]. simpl. apply IH. by apply exec_sub_linked. }
  set (c' := foldl _ c ops) in *. split.
  - intros id sub Hs. by destruct (Hk _ _ Hs) as (_ & _ & ?).
  - intros id1 id2 s1 s2 H1 H2 Hu. destruct (Hk _ _ H1) as (_ & _ & u1 & Hu1 & L1). destruct (Hk _ _ H2) as (_ & _ & u2 & Hu2 & L2).
    rewrite Hu in Hu1. simplify_eq. congruence.
Qed.

Definition solo_user : User := {|
  u_ID := "u1"; u_TelegramID := None; u_Email := None; u_Status := "active"; u_RealityShortID := "ab";
  u_UUID := "uuid"; u_Hysteria2Password := "pw"; u_PrivateKey := ""; u_SubscriptionID := None;
  u_DeviceLimit := 3; u_QuotaBytes := 0; u_UsedBytes := 0; u_CreatedAt := 1; u_UpdatedAt := 1 |}.
Definition solo_cp : Cp :=
  mkCp (set_users <["u1" := solo_user]> NewStore) 10 [] [replicate 16 1; replicate 16 2; replicate 16 3; replicate 16 4] true [] [].
Definition solo_ops : list sub_op := [SCreate "u1" "basic"; SEnsure "u1" "unlimited"; SCreate "u1" "basic"].
Lemma one_subscription_per_user_witness :
  let c' := foldl (λ c op, exec_sub op c) solo_cp solo_ops in
  size (c_subs (cp_store c')) = 1%nat ∧
  (∀ id sub, c_subs (cp_store c') !! id = Some sub → ∃ u, c_users (cp_store c') !! s_UserID sub = Some u ∧ u_SubscriptionID u = Some id).
Proof.
  split; [vm_compute; reflexivity|]. apply (one_subscription_per_user solo_ops solo_cp). split.
  - intros id sub. simpl. by rewrite lookup_empty.
  - intros b _. simpl. by rewrite lookup_empty.
  - apply (bool_decide_unpack (NoDup (block_id <$> cp_rand solo_cp))). vm_compute. exact I.
Defined.
