(* ===== verification/ControlDurable.v ===== *)
(** * The durable rebuild queue (services/control-plane/internal/adapters/rebuild/durable.go)

    The queue over a job store, the set repository and the rebuilder, each an interface over the environment
    [E]; a deadline that passes is an error of the call it bounds. Every call is recorded. One poller's tick is
    a definition; the ticker and the number of pollers are not modelled. *)
From S2P Require Import Prelude GoBytes GoTrace Contracts ControlStore ControlUse ControlFleet.
From S2P Require ControlTokens.

Module Durable.
Definition errUnknownKind : error := Sentinel "rebuild(durable): unknown job kind".
Abbreviation JobKind := string (only parsing).
Definition JobKindNode : JobKind := "node".
Definition JobKindUser : JobKind := "user".
Record Job := { j_ID : Z; j_Kind : JobKind; j_TargetID : string; j_Attempts : Z }.
Record JobStore (E : Type) := {
  js_Enqueue : JobKind → string → M E unit; js_Claim : Z → Duration → M E (list Job);
  js_Complete : Z → M E unit; js_Retry : Z → Duration → M E unit }.
Arguments js_Enqueue {E}. Arguments js_Claim {E}. Arguments js_Complete {E}. Arguments js_Retry {E}.
Record SetRepo (E : Type) := { sr_UserIDsByNode : string → M E (list string); sr_MarkDirtyByNode : string → M E unit }.
Arguments sr_UserIDsByNode {E}. Arguments sr_MarkDirtyByNode {E}.
Record DurableConfig := {
  dc_Workers : Z; dc_PollInterval : Duration; dc_BatchSize : Z; dc_Lease : Duration; dc_JobTTL : Duration; dc_MaxAttempts : Z;
  dc_RetryBackoff : Duration }.
(** NewDurable's defaults *)
Definition NewDurable (cfg : DurableConfig) : DurableConfig :=
  let or_else (x d : Z) := if x <=? 0 then d else x in
  let workers := or_else (dc_Workers cfg) 4 in
  {| dc_Workers := workers; dc_PollInterval := or_else (dc_PollInterval cfg) Second; dc_BatchSize := or_else (dc_BatchSize cfg) workers;
     dc_Lease := or_else (dc_Lease cfg) Minute; dc_JobTTL := or_else (dc_JobTTL cfg) (30 * Second);
     dc_MaxAttempts := or_else (dc_MaxAttempts cfg) 5; dc_RetryBackoff := or_else (dc_RetryBackoff cfg) (10 * Second) |}.

Inductive event :=
| QEnqueue (kind : JobKind) (id : string) (ok : bool)
| QClaim (r : result (list Job))
| QDirty (nodeID : string) (r : result unit)
| QUsers (nodeID : string) (r : result (list string))
| QBuild (userID : string) (r : result unit)
| QComplete (id : Z) (ok : bool)
| QRetry (id : Z) (after : Duration) (ok : bool).

Section queue.
Context {E : Type} (q : DurableConfig) (store : JobStore E) (sets : SetRepo E) (build : string → M E unit).
Abbreviation QM := (M (Traced E event)).
Definition rebuild (userID : string) : QM unit := call (QBuild userID) (build userID).
Fixpoint rebuild_all (users : list string) : QM unit :=
  match users with
  | [] => mret tt
  | uid :: users' => rebuild uid ;;! rebuild_all users'
  end.
Definition run (j : Job) : QM unit :=
  if bool_decide (j_Kind j = JobKindUser) then rebuild (j_TargetID j)
  else if bool_decide (j_Kind j = JobKindNode) then
    call (QDirty (j_TargetID j)) (sr_MarkDirtyByNode sets (j_TargetID j)) ;;!
    users ←! call (QUsers (j_TargetID j)) (sr_UserIDsByNode sets (j_TargetID j)) ;
    rebuild_all users
  else fail errUnknownKind.
Definition complete (id : Z) : QM unit := ignore (call (λ r, QComplete id (is_ok r)) (js_Complete store id)).
Definition retry (id : Z) : QM unit := ignore (call (λ r, QRetry id (dc_RetryBackoff q) (is_ok r)) (js_Retry store id (dc_RetryBackoff q))).
Definition handle (j : Job) : QM unit :=
  r ←! try (run j) ;
  match r with
  | Err _ => if dc_MaxAttempts q <=? j_Attempts j then complete (j_ID j) else retry (j_ID j)
  | Ok _ => complete (j_ID j)
  end.
Fixpoint handle_all (jobs : list Job) : QM unit :=
  match jobs with
  | [] => mret tt
  | j :: jobs' => handle j ;;! handle_all jobs'
  end.
Definition claimAndProcess : QM Z :=
  jobs ←! call QClaim (js_Claim store (dc_BatchSize q) (dc_Lease q)) ;
  handle_all jobs ;;!
  mret (Z.of_nat (length jobs)).
(** One tick: batches until a claim fails or yields nothing, or [n] of them were processed (the code goes on;
    it stops early only when its context ends) *)
Fixpoint drain (n : nat) : QM unit :=
  match n with
  | O => mret tt
  | S n => got ←! try claimAndProcess ;
           match got with
           | Err _ => mret tt
           | Ok k => if k =? 0 then mret tt else drain n
           end
  end.
Definition enqueue (kind : JobKind) (id : string) : QM unit := ignore (call (λ r, QEnqueue kind id (is_ok r)) (js_Enqueue store kind id)).
Definition EnqueueNode (nodeID : string) : QM unit := enqueue JobKindNode nodeID.
Definition EnqueueUser (userID : string) : QM unit := enqueue JobKindUser userID.
End queue.
End Durable.

(** ** What a batch does *)
Section laws.
Import Durable.
Context {E : Type} (q : DurableConfig) (store : JobStore E) (sets : SetRepo E) (build : string → M E unit).
(** The users in their order, up to the first that fails *)
Fixpoint built (users : list string) (t : list event) (r : result unit) : Prop :=
  match users with
  | [] => t = [] ∧ r = Ok tt
  | uid :: users' => (∃ e, t = [QBuild uid (Err e)] ∧ r = Err e) ∨ ∃ t', t = QBuild uid (Ok tt) :: t' ∧ built users' t' r
  end.
Definition ran (j : Job) (t : list event) (r : result unit) : Prop :=
  if bool_decide (j_Kind j = JobKindUser) then t = [QBuild (j_TargetID j) r]
  else if bool_decide (j_Kind j = JobKindNode) then
    (∃ e, t = [QDirty (j_TargetID j) (Err e)] ∧ r = Err e) ∨
    (∃ e, t = [QDirty (j_TargetID j) (Ok tt); QUsers (j_TargetID j) (Err e)] ∧ r = Err e) ∨
    (∃ users t', t = QDirty (j_TargetID j) (Ok tt) :: QUsers (j_TargetID j) (Ok users) :: t' ∧ built users t' r)
  else t = [] ∧ r = Err errUnknownKind.
(** How the job is settled, given how it went *)
Definition settlement (j : Job) (r : result unit) (ev : event) : Prop :=
  if is_ok r || (dc_MaxAttempts q <=? j_Attempts j) then ∃ ok, ev = QComplete (j_ID j) ok
  else ∃ ok, ev = QRetry (j_ID j) (dc_RetryBackoff q) ok.
Definition settled (j : Job) (t : list event) : Prop := ∃ t' r ev, t = t' ++ [ev] ∧ ran j t' r ∧ settlement j r ev.

Lemma emits_rebuild_all users : emits (rebuild_all build users) (built users).
Proof.
  induction users as [|uid users IH]; cbn [rebuild_all].
  - eapply emits_mono; [apply emits_ret|]. intros t r [-> ->]. done.
  - eapply emits_then; [apply emits_call| |].
    + intros t1 [] ->. eapply emits_mono; [apply IH|]. intros t r H. right. by exists t.
    + intros t e ->. left. by exists e.
Qed.
Lemma emits_run j : emits (run sets build j) (ran j).
Proof.
  unfold run, ran. case_bool_decide; [apply emits_call|]. case_bool_decide.
  - eapply emits_then; [apply emits_call| |intros t e ->; left; by exists e]. intros t1 [] ->.
    eapply emits_then; [apply emits_call| |intros t e ->; right; left; by exists e]. intros t1 users ->.
    eapply emits_mono; [apply emits_rebuild_all|]. intros t r Hb. right. right. by exists users, t.
  - eapply emits_mono; [apply emits_fail|]. done.
Qed.
Lemma emits_handle j : emits (handle q store sets build j) (λ t r, r = Ok tt ∧ settled j t).
Proof.
  unfold handle. eapply emits_then; [apply emits_try, emits_run| |by intros t e (? & [=] & _)]. intros t1 r0 (r & [= ->] & Hr).
  assert (∀ ev, settlement j r ev → settled j (t1 ++ [ev])) as Hs by (intros ev H; by exists t1, r, ev).
  unfold settlement in Hs. destruct r as [[]|e]; cbn [is_ok orb] in Hs; [|destruct (dc_MaxAttempts q <=? j_Attempts j)].
  all: unfold complete, retry; eapply emits_mono; [apply emits_ignore, emits_call|]; intros t r [-> [r0 ->]]; split; [done|]; apply Hs; by eexists.
Qed.
Lemma emits_handle_all jobs : emits (handle_all q store sets build jobs) (λ t r, r = Ok tt ∧ ∃ ts, t = concat ts ∧ Forall2 settled jobs ts).
Proof.
  induction jobs as [|j jobs IH]; cbn [handle_all].
  - eapply emits_mono; [apply emits_ret|]. intros t r [-> ->]. split; [done|]. by exists [].
  - eapply emits_then; [apply emits_handle| |by intros t e [[=] _]]. intros t1 [] [_ Hj].
    eapply emits_mono; [apply IH|]. intros t r [-> (ts & -> & Hts)]. split; [done|]. exists (t1 :: ts). split; [done|]. by constructor.
Qed.
End laws.

(** No rebuild is lost or run twice within a batch. A batch is one claim; then every claimed job is run, in
    order, and settled exactly once right after its run: completed when the run succeeded, completed as well once
    its attempts are used up, and otherwise released for another try after the backoff, whatever fails. *)
Theorem claimAndProcess_settles {E} q (store : Durable.JobStore E) sets build :
  emits (Durable.claimAndProcess q store sets build) (λ t r,
    match r with
    | Err e => t = [Durable.QClaim (Err e)]
    | Ok n => ∃ jobs ts, n = Z.of_nat (length jobs) ∧ t = Durable.QClaim (Ok jobs) :: concat ts ∧ Forall2 (settled q) jobs ts
    end).
Proof.
  unfold Durable.claimAndProcess. eapply emits_then; [apply emits_call| |intros t e ->; done]. intros t1 jobs ->.
  eapply emits_then; [apply emits_handle_all| |by intros t e [[=] _]]. intros t2 [] [_ (ts & -> & Hts)].
  eapply emits_mono; [apply emits_ret|]. intros t r [-> ->]. rewrite app_nil_r. by exists jobs, ts.
Qed.

(** ** Against the queue in memory *)
Section memory.
Context `{ord : !MapOrder}.
Definition memory_sets : Durable.SetRepo Cp := {|
  Durable.sr_UserIDsByNode := λ id, repo (Sets.UserIDsByNode id); Durable.sr_MarkDirtyByNode := λ id, repo (Sets.MarkDirtyByNode id) |}.
Definition memory_build (id : string) : M Cp unit := BundleService.Build id ;;! mret tt.
Definition durable_job (j : job) : Durable.Job :=
  match j with
  | JobNode id => {| Durable.j_ID := 0; Durable.j_Kind := Durable.JobKindNode; Durable.j_TargetID := id; Durable.j_Attempts := 1 |}
  | JobUser id => {| Durable.j_ID := 0; Durable.j_Kind := Durable.JobKindUser; Durable.j_TargetID := id; Durable.j_Attempts := 1 |}
  end.
Lemma memory_build_state id c : (memory_build id c).2 = (BundleService.Build id c).2.
Proof. unfold memory_build, mbind, M_bind. by destruct (BundleService.Build id c) as [[]]. Qed.
Lemma call_env {F Ev A} (f : result A → Ev) (m : M F A) w : (call f m w).1 = (m (tw_env w)).1 ∧ tw_env (call f m w).2 = (m (tw_env w)).2.
Proof. unfold call. by destruct (m (tw_env w)). Qed.
Lemma Queue_process_node id c : (Queue.process (JobNode id) c).2 =
  let c1 := (repo (Sets.MarkDirtyByNode id) c).2 in
  match repo (Sets.UserIDsByNode id) c1 with (Ok users, c2) => (Queue.build_all users c2).2 | (Err _, c2) => c2 end.
Proof. cbn [Queue.process]. unfold mbind, M_bind, ignore. by destruct (repo (Sets.UserIDsByNode id) _) as [[]]. Qed.
Lemma rebuild_all_memory users : ∀ w w', Durable.rebuild_all memory_build users w = (Ok tt, w') →
  tw_env w' = (Queue.build_all users (tw_env w)).2.
Proof.
  induction users as [|uid users IH]; intros w w'; cbn [Durable.rebuild_all Queue.build_all]; [by intros [= <-]|].
  intros ([] & w1 & H1 & H2)%bind_runs. apply IH in H2 as ->. unfold Durable.rebuild in H1.
  destruct (call_env (Durable.QBuild uid) (memory_build uid) w) as [_ He]. rewrite H1 in He. cbn in He.
  unfold mbind, M_bind, ignore. by rewrite He, memory_build_state.
Qed.
End memory.

(** The durable queue does what the queue in memory does. Over the repositories in memory, a job that
    succeeds leaves the control-plane exactly as the in-memory worker leaves it. *)
Theorem durable_run_agrees `{ord : !MapOrder} j w w' :
  Durable.run memory_sets memory_build (durable_job j) w = (Ok tt, w') → tw_env w' = (Queue.process j (tw_env w)).2.
Proof.
  unfold Durable.run. destruct j as [id|id]; cbn [durable_job Durable.j_Kind Durable.j_TargetID].
  - rewrite bool_decide_eq_false_2, bool_decide_eq_true_2 by done. intros ([] & w1 & H1 & (users & w2 & H2 & H3)%bind_runs)%bind_runs.
    apply rebuild_all_memory in H3 as ->. rewrite Queue_process_node. cbv zeta.
    destruct (call_env (Durable.QDirty id) (repo (Sets.MarkDirtyByNode id)) w) as [_ He1].
    cbn [memory_sets Durable.sr_MarkDirtyByNode Durable.sr_UserIDsByNode] in H1, H2. rewrite H1 in He1. cbn [fst snd] in He1.
    destruct (call_env (Durable.QUsers id) (repo (Sets.UserIDsByNode id)) w1) as [Hr2 He2]. rewrite H2 in Hr2, He2. cbn [fst snd] in Hr2, He2.
    rewrite <-He1. destruct (repo (Sets.UserIDsByNode id) (tw_env w1)) as [r c2]. cbn [fst snd] in Hr2, He2. subst r. by rewrite <-He2.
  - rewrite bool_decide_eq_true_2 by done. unfold Durable.rebuild. intros H. cbn [Queue.process]. unfold ignore.
    destruct (call_env (Durable.QBuild id) (memory_build id) w) as [_ He]. rewrite H in He. cbn in He. cbn. by rewrite He, memory_build_state.
Qed.
Definition durable_world : Traced Cp Durable.event := mkTraced ControlTokens.link_cp [].
Lemma durable_run_agrees_witness :
  tw_env (Durable.run (memory_sets (ord := key_order)) (memory_build (ord := key_order)) (durable_job (JobUser "u1")) durable_world).2
  = (Queue.process (ord := key_order) (JobUser "u1") ControlTokens.link_cp).2.
Proof.
  apply (durable_run_agrees (ord := key_order) (JobUser "u1") durable_world
    (Durable.run (memory_sets (ord := key_order)) (memory_build (ord := key_order)) (durable_job (JobUser "u1")) durable_world).2).
  vm_compute. reflexivity.
Defined.
