(* ===== verification/OrchestratorPolicy.v ===== *)
(** * The orchestrator's policy (services/orchestrator/internal/policy/policy.go)

    [Plan] turns recommendations, the node registry and own-probe verdicts into a list of actions. It is pure, and so is
    its model: one definition per function and one per loop body; then what the gate lets through. *)
From S2P Require Import Prelude GoBytes GoText GoFloat GoTime Contracts.

Definition ActionNoop : string := "noop".
Definition ActionMarkDegraded : string := "mark_degraded".
Definition ActionRotate : string := "rotate".
Definition ActionReplace : string := "replace".
Definition ActionRetire : string := "retire".
Definition sideEffecting (a : string) : bool := one_of a [ActionRotate; ActionReplace; ActionRetire].

Record Action := { a_Type : string; a_NodeID : string; a_Regions : list string; a_Reason : text }.
Record Thresholds := {
  th_RecommendationMaxAge : Duration; th_ProbeMaxAge : Duration; th_DrainGrace : Duration; th_MaxActionsPerCycle : Z }.
Definition DrainStartedLabel : string := "orchestrator.drain_started_at".
Record Input := {
  in_Now : Time; in_Recs : Recommendations; in_Nodes : list Node; in_Probes : gmap string HealthEvent }.

(** [byID[n.ID] = n] over a list of nodes *)
Definition by_id (nodes : list Node) : gmap string Node := foldl (λ acc n, <[n_ID n := n]> acc) ∅ nodes.

Definition gatePassed (b : NodeBlock) (probes : gmap string HealthEvent) (now : Time) (probeMaxAge : Duration)
    : bool * text :=
  if bool_decide (nb_Confidence b = RecommendationAuthoritative) then (true, Lit "")
  else if bool_decide (nb_Confidence b = RecommendationCorroborated) then
    match probes !! nb_NodeID b with
    | None => (false, Lit "anti-poisoning: corroborated field verdict without own-probe confirmation — degrade only")
    | Some ev =>
        if probeMaxAge <? Sub now (he_ObservedAt ev) then
          (false, Sprintf "anti-poisoning: own probe too old (%s > %s) — degrade only"
                    [DurArg (Round (Sub now (he_ObservedAt ev)) Second); DurArg probeMaxAge])
        else if negb (bool_decide (he_Status ev = HealthBlocked)) && negb (bool_decide (he_Status ev = HealthUnreachable)) then
          (false, Sprintf "anti-poisoning: own probe says %q, not blocked — degrade only" [Lit (he_Status ev)])
        else (true, Lit "")
    end
  else (false, Sprintf "anti-poisoning: unknown confidence %q — degrade only" [Lit (nb_Confidence b)]).

Definition replaceOrRotate (n : Node) : string := if n_EphemeralEntryIP n then ActionRotate else ActionReplace.

Definition rank (t : string) : Z :=
  if bool_decide (t = ActionRetire) then 0
  else if bool_decide (t = ActionRotate) then 1
  else if bool_decide (t = ActionReplace) then 2
  else 3.
(** The comparison closure: harmless first, then by rank. *)
Definition cap_less (x y : Action) : bool :=
  if negb (Bool.eqb (sideEffecting (a_Type x)) (sideEffecting (a_Type y))) then negb (sideEffecting (a_Type x))
  else rank (a_Type x) <? rank (a_Type y).
Definition deferred (max : Z) (a : Action) : Action := {|
  a_Type := ActionNoop; a_NodeID := a_NodeID a; a_Regions := a_Regions a;
  a_Reason := Sprintf "deferred (max %d side-effecting actions per cycle): wanted %s — %s"
                [IntArg max; Lit (a_Type a); a_Reason a] |}.
Fixpoint keep (max side : Z) (actions : list Action) : list Action :=
  match actions with
  | [] => []
  | a :: l =>
      if sideEffecting (a_Type a) then
        if max <=? side then deferred max a :: keep max side l else a :: keep max (side + 1) l
      else a :: keep max side l
  end.
Definition capSideEffects (actions : list Action) (max : Z) : list Action :=
  let max := if max <=? 0 then 1 else max in
  keep max 0 (slice_stable cap_less actions).

(** ** Plan: the nodes already decided and the actions so far *)
Record Draft := { planned : gset string; out : list Action }.
Definition add (a : Action) (d : Draft) : Draft := {| planned := {[a_NodeID a]} ∪ planned d; out := out d ++ [a] |}.

Definition recsFresh (i : Input) (th : Thresholds) : bool :=
  negb (IsZero (rc_GeneratedAt (in_Recs i))) && (Sub (in_Now i) (rc_GeneratedAt (in_Recs i)) <=? th_RecommendationMaxAge th).

Definition plan_block (i : Input) (th : Thresholds) (d : Draft) (b : NodeBlock) : Draft :=
  let act ty reason := add {| a_Type := ty; a_NodeID := nb_NodeID b; a_Regions := nb_Regions b; a_Reason := reason |} d in
  match NodeBlock_Validate b with
  | Err _ => d
  | Ok _ =>
      match by_id (in_Nodes i) !! nb_NodeID b with
      | None => act ActionNoop (Lit "recommendation for unknown node — ignored")
      | Some node =>
          if negb (recsFresh i th) then
            act ActionNoop (Sprintf "recommendations stale (generated_at=%s, max age %s) — no action"
                              [TimeArg (rc_GeneratedAt (in_Recs i)); DurArg (th_RecommendationMaxAge th)])
          else if one_of (n_Status node) [NodeStatusDraining; NodeStatusRetired; NodeStatusProvisioning] then
            act ActionNoop (Sprintf "node already %s — no action" [Lit (n_Status node)])
          else
            let '(ok, why) := gatePassed b (in_Probes i) (in_Now i) (th_ProbeMaxAge th) in
            if negb ok then
              if bool_decide (n_Status node = NodeStatusDegraded)
              then act ActionNoop (Sprintf "already degraded; %s" [why])
              else act ActionMarkDegraded why
            else act (replaceOrRotate node)
                   (Sprintf "blocked in %v (confidence=%s): %s" [Strs (nb_Regions b); Lit (nb_Confidence b); Lit (nb_Reason b)])
      end
  end.

Definition plan_rotation (i : Input) (d : Draft) (n : Node) : Draft :=
  match n_RotateAfter n with
  | None => d
  | Some after =>
      if bool_decide (n_ID n ∈ planned d) || Before (in_Now i) after then d
      else if negb (bool_decide (n_Status n = NodeStatusActive)) && negb (bool_decide (n_Status n = NodeStatusDegraded)) then d
      else add {| a_Type := ActionRotate; a_NodeID := n_ID n; a_Regions := [];
                  a_Reason := Sprintf "scheduled rotation: rotate_after=%s elapsed" [TimeArg after] |} d
  end.

Definition plan_retire (i : Input) (th : Thresholds) (d : Draft) (n : Node) : Draft :=
  if bool_decide (n_ID n ∈ planned d) || negb (bool_decide (n_Status n = NodeStatusDraining)) then d
  else match parse_rfc3339 (default "" (n_Labels n !! DrainStartedLabel)) with
       | None => add {| a_Type := ActionNoop; a_NodeID := n_ID n; a_Regions := [];
                        a_Reason := Lit ("draining without valid " +:+ DrainStartedLabel +:+ " label — operator attention required") |} d
       | Some started =>
           if th_DrainGrace th <=? Sub (in_Now i) started
           then add {| a_Type := ActionRetire; a_NodeID := n_ID n; a_Regions := [];
                       a_Reason := Sprintf "drain grace %s elapsed (draining since %s)" [DurArg (th_DrainGrace th); TimeArg started] |} d
           else d
       end.

(** The three passes, before the cap *)
Definition draft (i : Input) (th : Thresholds) : list Action :=
  let d := foldl (plan_block i th) {| planned := ∅; out := [] |} (rc_NodeBlocks (in_Recs i)) in
  let d := foldl (plan_rotation i) d (in_Nodes i) in
  out (foldl (plan_retire i th) d (in_Nodes i)).
Definition Plan (i : Input) (th : Thresholds) : list Action := capSideEffects (draft i th) (th_MaxActionsPerCycle th).

(** ** What the policy can and cannot plan

    The anti-poisoning gate, the cap on side effects, and one action per node: for every input, however
    hostile the recommendations in it. *)
(** Why a side-effecting action may be planned: its scheduled rotation is due, *)
Definition scheduled (i : Input) (a : Action) : Prop := ∃ n after,
  n ∈ in_Nodes i ∧ a_NodeID a = n_ID n ∧ a_Type a = ActionRotate ∧ n_RotateAfter n = Some after ∧ after <= in_Now i ∧
  (n_Status n = NodeStatusActive ∨ n_Status n = NodeStatusDegraded).
(** its node has drained for the grace period, *)
Definition drained (i : Input) (th : Thresholds) (a : Action) : Prop := ∃ n started,
  n ∈ in_Nodes i ∧ a_NodeID a = n_ID n ∧ a_Type a = ActionRetire ∧ n_Status n = NodeStatusDraining ∧
  parse_rfc3339 (default "" (n_Labels n !! DrainStartedLabel)) = Some started ∧ th_DrainGrace th <= Sub (in_Now i) started.
(** an own probe confirms the block, *)
Definition confirmed (i : Input) (th : Thresholds) (b : NodeBlock) : Prop := ∃ ev,
  in_Probes i !! nb_NodeID b = Some ev ∧ Sub (in_Now i) (he_ObservedAt ev) <= th_ProbeMaxAge th ∧
  (he_Status ev = HealthBlocked ∨ he_Status ev = HealthUnreachable).
(** or a fresh, well-formed recommendation blocks a node in service, authoritative or so confirmed. *)
Record blocked (i : Input) (th : Thresholds) (a : Action) (b : NodeBlock) (node : Node) : Prop := {
  bl_block : b ∈ rc_NodeBlocks (in_Recs i) ∧ NodeBlock_Validate b = Ok tt ∧ a_NodeID a = nb_NodeID b;
  bl_node : node ∈ in_Nodes i ∧ n_ID node = nb_NodeID b;
  bl_remedy : a_Type a = replaceOrRotate node;
  bl_service : n_Status node ∉ [NodeStatusDraining; NodeStatusRetired; NodeStatusProvisioning];
  bl_fresh : rc_GeneratedAt (in_Recs i) ≠ zero_time ∧
             Sub (in_Now i) (rc_GeneratedAt (in_Recs i)) <= th_RecommendationMaxAge th;
  bl_gate : nb_Confidence b = RecommendationAuthoritative ∨ confirmed i th b
}.
Definition justified (i : Input) (th : Thresholds) (a : Action) : Prop :=
  (∃ b node, blocked i th a b node) ∨ scheduled i a ∨ drained i th a.

Definition side (a : Action) : Prop := sideEffecting (a_Type a) = true.
#[export] Instance side_dec a : Decision (side a).
Proof. unfold side. apply _. Defined.

Lemma foldl_inv {A B} (P : B → Prop) (f : B → A → B) l : ∀ b, P b → (∀ b x, x ∈ l → P b → P (f b x)) → P (foldl f b l).
Proof.
  induction l as [|x l IH]; intros b Hb Hf; simpl; [done|].
  apply IH; [apply Hf; [by left|done]|]. intros b' y Hy. apply Hf. by right.
Qed.

Lemma by_id_elem nodes id n : by_id nodes !! id = Some n → n ∈ nodes ∧ n_ID n = id.
Proof.
  unfold by_id. cut (∀ m : gmap string Node, foldl (λ acc n, <[n_ID n := n]> acc) m nodes !! id = Some n →
    n ∈ nodes ∧ n_ID n = id ∨ m !! id = Some n).
  { intros H Hl. destruct (H _ Hl) as [?|He]; [done|]. by rewrite lookup_empty in He. }
  induction nodes as [|x nodes IH]; intros m Hl; simpl in *; [by right|].
  destruct (IH _ Hl) as [[? ?]|Hx]; [left; split; [by right|done]|].
  destruct (decide (n_ID x = id)) as [He|Hne].
  - rewrite He, lookup_insert_eq in Hx. simplify_eq. left. split; [by left|done].
  - rewrite lookup_insert_ne in Hx by done. by right.
Qed.

Lemma gatePassed_true b probes now age why :
  gatePassed b probes now age = (true, why) →
  nb_Confidence b = RecommendationAuthoritative ∨
  ∃ ev, probes !! nb_NodeID b = Some ev ∧ Sub now (he_ObservedAt ev) <= age ∧
        (he_Status ev = HealthBlocked ∨ he_Status ev = HealthUnreachable).
Proof.
  unfold gatePassed. case_bool_decide; [by left|]. case_bool_decide; [|done].
  destruct (probes !! nb_NodeID b) as [ev|]; [|done]. destruct (Z.ltb_spec age (Sub now (he_ObservedAt ev))); [done|].
  destruct (bool_decide (he_Status ev = HealthBlocked)) eqn:E1.
  { apply bool_decide_eq_true in E1. intros _. right. exists ev. auto. }
  destruct (bool_decide (he_Status ev = HealthUnreachable)) eqn:E2; [|done].
  apply bool_decide_eq_true in E2. intros _. right. exists ev. auto.
Qed.

(** Each pass only adds justified side effects. *)
Section passes.
Context (i : Input) (th : Thresholds).
Definition sound (d : Draft) : Prop := ∀ a, a ∈ out d → side a → justified i th a.

Lemma sound_add a d : sound d → (side a → justified i th a) → sound (add a d).
Proof. intros Hd Ha x Hx. apply elem_of_app in Hx as [Hx|Hx%list_elem_of_singleton]; [by apply Hd|by subst]. Qed.

Lemma sound_block d b : b ∈ rc_NodeBlocks (in_Recs i) → sound d → sound (plan_block i th d b).
Proof.
  intros Hb Hd. unfold plan_block. destruct (NodeBlock_Validate b) as [[]|] eqn:Hv; [|done].
  destruct (by_id (in_Nodes i) !! nb_NodeID b) as [node|] eqn:Hn; [|by apply sound_add].
  destruct (recsFresh i th) eqn:Hf; cbn [negb]; [|by apply sound_add].
  destruct (one_of (n_Status node) _) eqn:Hs; [by apply sound_add|].
  destruct (gatePassed b (in_Probes i) (in_Now i) (th_ProbeMaxAge th)) as [[] why] eqn:Hg; cbn [negb].
  - apply sound_add; [done|]. intros _. apply by_id_elem in Hn as [Hn Hid].
    unfold recsFresh in Hf. apply andb_true_iff in Hf as [Hz Hage].
    left. exists b, node. split; try done.
    + unfold one_of in Hs. by apply bool_decide_eq_false in Hs.
    + split; [intros Hz0; by rewrite Hz0 in Hz|by apply Z.leb_le].
    + by eapply gatePassed_true.
  - destruct (bool_decide (n_Status node = NodeStatusDegraded)); by apply sound_add.
Qed.

Lemma sound_rotation d n : n ∈ in_Nodes i → sound d → sound (plan_rotation i d n).
Proof.
  intros Hn Hd. unfold plan_rotation. destruct (n_RotateAfter n) as [after|] eqn:Ha; [|done].
  destruct (bool_decide (n_ID n ∈ planned d)); [done|]. unfold Before. destruct (Z.ltb_spec (in_Now i) after); [done|].
  cbn [orb]. destruct (bool_decide (n_Status n = NodeStatusActive)) eqn:E1; [|destruct (bool_decide (n_Status n = NodeStatusDegraded)) eqn:E2; [|done]].
  all: apply sound_add; [done|]; intros _; right; left; exists n, after; split_and!; try done.
  - left. by apply bool_decide_eq_true in E1.
  - right. by apply bool_decide_eq_true in E2.
Qed.

Lemma sound_retire d n : n ∈ in_Nodes i → sound d → sound (plan_retire i th d n).
Proof.
  intros Hn Hd. unfold plan_retire. destruct (bool_decide (n_ID n ∈ planned d)); [done|].
  destruct (bool_decide (n_Status n = NodeStatusDraining)) eqn:Es; [|done]. cbn [orb negb].
  apply bool_decide_eq_true in Es. destruct (parse_rfc3339 _) as [started|] eqn:Hp; [|by apply sound_add].
  destruct (Z.leb_spec (th_DrainGrace th) (Sub (in_Now i) started)); [|done].
  apply sound_add; [done|]. intros _. right; right. by exists n, started.
Qed.

Lemma draft_sound a : a ∈ draft i th → side a → justified i th a.
Proof.
  unfold draft. revert a. apply (foldl_inv sound); [|intros; by apply sound_retire].
  apply (foldl_inv sound); [|intros; by apply sound_rotation].
  apply (foldl_inv sound); [|intros; by apply sound_block]. intros a Ha. by apply elem_of_nil in Ha.
Qed.
End passes.

(** ** The cap *)
Definition cap_key (a : Action) : Z := if sideEffecting (a_Type a) then rank (a_Type a) else -1.
Lemma rank_bound t : 0 <= rank t <= 3.
Proof. unfold rank. repeat case_bool_decide; lia. Qed.
Lemma rank_harmless t : sideEffecting t = false → rank t = 3.
Proof.
  unfold sideEffecting, one_of, rank. rewrite bool_decide_eq_false, !not_elem_of_cons. intros (? & ? & ? & _).
  by rewrite !bool_decide_false by done.
Qed.
Lemma cap_less_key x y : cap_less x y = (cap_key x <? cap_key y).
Proof.
  unfold cap_less, cap_key. pose proof (rank_bound (a_Type x)). pose proof (rank_bound (a_Type y)).
  destruct (sideEffecting (a_Type x)) eqn:Ex, (sideEffecting (a_Type y)) eqn:Ey; simpl; try done.
  - symmetry. apply Z.ltb_ge. lia.
  - symmetry. apply Z.ltb_lt. lia.
  - by rewrite !rank_harmless by done.
Qed.
Lemma cap_less_weak : strict_weak cap_less.
Proof.
  split; intros *; rewrite !cap_less_key, ?Z.ltb_lt, ?Z.ltb_ge; lia.
Qed.

Lemma deferred_harmless max a : ¬ side (deferred max a).
Proof. unfold side. by vm_compute. Qed.

Lemma keep_elem max l : ∀ s a, a ∈ keep max s l → side a → a ∈ l.
Proof.
  induction l as [|x l IH]; intros s a Ha Hs; [done|]. simpl in Ha.
  destruct (sideEffecting (a_Type x)); [destruct (max <=? s)|];
    apply elem_of_cons in Ha as [->|Ha].
  all: first [by apply deferred_harmless in Hs|by left|right; by eapply IH].
Qed.
Lemma keep_full max l s k : max <= s → k ∈ keep max s l → ¬ side k.
Proof.
  intros Hs. induction l as [|x l IH]; simpl; [by intros ?%elem_of_nil|].
  destruct (sideEffecting (a_Type x)) eqn:E; [rewrite (proj2 (Z.leb_le _ _) Hs)|];
    intros [->|Hk]%elem_of_cons; auto using deferred_harmless. unfold side. by rewrite E.
Qed.
Lemma keep_count max l : ∀ s, s <= max → s + Z.of_nat (length (filter side (keep max s l))) <= max.
Proof.
  induction l as [|x l IH]; intros s Hs; simpl; [lia|].
  destruct (sideEffecting (a_Type x)) eqn:E; [destruct (Z.leb_spec max s)|].
  - rewrite filter_cons_False by apply deferred_harmless. by apply IH.
  - rewrite filter_cons_True by done. specialize (IH (s + 1) ltac:(lia)). simpl. lia.
  - rewrite filter_cons_False; [by apply IH|]. unfold side. by rewrite E.
Qed.
Lemma keep_nodes max l : ∀ s, a_NodeID <$> keep max s l = a_NodeID <$> l.
Proof.
  induction l as [|x l IH]; intros s; simpl; [done|].
  destruct (sideEffecting (a_Type x)); [destruct (max <=? s)|]; cbn [fmap list_fmap]; by rewrite <-(IH s) || rewrite IH.
Qed.
(** What is put off ranks no better than what is kept, and the budget is then used up. *)
Lemma keep_or_full max l : ∀ s a, StronglySorted (not_after cap_less) l → s <= max → a ∈ l → side a →
  a ∈ keep max s l ∨
  s + Z.of_nat (length (filter side (keep max s l))) = max ∧ ∀ k, k ∈ keep max s l → side k → rank (a_Type k) <= rank (a_Type a).
Proof.
  induction l as [|x l IH]; intros s a Hl Hs Ha Hside; [by apply elem_of_nil in Ha|]. apply StronglySorted_inv in Hl as [Hl Hx].
  simpl in *. destruct (sideEffecting (a_Type x)) eqn:E; [destruct (Z.leb_spec max s)|].
  - assert (s = max) as -> by lia. right. rewrite filter_cons_False by apply deferred_harmless. split.
    + assert (filter side (keep max max l) = []) as ->; [|simpl; lia].
      destruct (filter side (keep max max l)) as [|k ks] eqn:Ek; [done|].
      assert (k ∈ filter side (keep max max l)) as Hk by (rewrite Ek; by left).
      apply list_elem_of_filter in Hk as [Hk1 Hk2]. by apply keep_full in Hk2.
    + intros k [->|Hk]%elem_of_cons Hk'; [by apply deferred_harmless in Hk'|]. by apply keep_full in Hk.
  - apply elem_of_cons in Ha as [->|Ha]; [left; by left|].
    destruct (IH (s + 1) a Hl ltac:(lia) Ha Hside) as [Hin|[Hc Hk]]; [left; by right|right].
    rewrite filter_cons_True by done. split; [simpl; lia|].
    intros k [->|Hk0]%elem_of_cons Hk'; [|by apply Hk]. rewrite Forall_forall in Hx. specialize (Hx a Ha).
    unfold not_after in Hx. rewrite cap_less_key in Hx. unfold cap_key in Hx. rewrite E, Hside in Hx. lia.
  - assert (¬ side x) as Hnx by (unfold side; by rewrite E). apply elem_of_cons in Ha as [->|Ha]; [by destruct Hnx|].
    destruct (IH s a Hl Hs Ha Hside) as [Hin|[Hc Hk]]; [left; by right|right].
    rewrite filter_cons_False by done. split; [done|].
    intros k [->|Hk0]%elem_of_cons Hk'; [done|by apply Hk].
Qed.

Definition budget (th : Thresholds) : Z := Z.max 1 (th_MaxActionsPerCycle th).
Lemma Plan_keep i th : Plan i th = keep (budget th) 0 (slice_stable cap_less (draft i th)).
Proof. unfold Plan, capSideEffects, budget. destruct (Z.leb_spec (th_MaxActionsPerCycle th) 0); f_equal; lia. Qed.

(** ** One action per node *)
Section unique.
Context (i : Input) (th : Thresholds).
Record tidy (d : Draft) : Prop := {
  ti_planned : ∀ id, id ∈ planned d ↔ id ∈ a_NodeID <$> out d;
  ti_unique : NoDup (a_NodeID <$> out d)
}.
Lemma tidy_add a d : tidy d → a_NodeID a ∉ a_NodeID <$> out d → tidy (add a d).
Proof.
  intros [Hp Hu] Ha. split; simpl.
  - intros id. rewrite fmap_app, elem_of_app, <-Hp. cbn [fmap list_fmap]. set_solver.
  - rewrite fmap_app. apply NoDup_app. cbn [fmap list_fmap]. split_and!; [done| |apply NoDup_singleton].
    intros x Hx ->%list_elem_of_singleton. done.
Qed.

(** A pass over one recommendation decides its node or does nothing. *)
Lemma plan_block_cases d b :
  plan_block i th d b = d ∨ ∃ a, a_NodeID a = nb_NodeID b ∧ plan_block i th d b = add a d.
Proof.
  unfold plan_block. destruct (NodeBlock_Validate b); [right|by left].
  destruct (by_id (in_Nodes i) !! nb_NodeID b) as [node|]; [|by eexists (Build_Action _ _ _ _)].
  destruct (recsFresh i th); [|by eexists (Build_Action _ _ _ _)]. cbn [negb].
  destruct (one_of (n_Status node) _); [by eexists (Build_Action _ _ _ _)|].
  destruct (gatePassed _ _ _ _) as [[] why]; [by eexists (Build_Action _ _ _ _)|]. cbn [negb].
  destruct (bool_decide (n_Status node = NodeStatusDegraded)); by eexists (Build_Action _ _ _ _).
Qed.
Lemma tidy_blocks bs : ∀ d, tidy d → NoDup (nb_NodeID <$> bs) → (∀ b, b ∈ bs → nb_NodeID b ∉ a_NodeID <$> out d) →
  tidy (foldl (plan_block i th) d bs).
Proof.
  induction bs as [|b bs IH]; intros d Hd Hn Hb; simpl; [done|]. apply NoDup_cons in Hn as [Hnb Hn].
  destruct (plan_block_cases d b) as [->|(a & Ha & ->)].
  { apply IH; [done..|]. intros b' Hb'. apply Hb. by right. }
  apply IH; [|done|].
  - apply tidy_add; [done|]. rewrite Ha. apply Hb. by left.
  - intros b' Hb'. simpl. rewrite fmap_app, not_elem_of_app. split; [apply Hb; by right|].
    cbn [fmap list_fmap]. rewrite Ha. intros He%list_elem_of_singleton.
    apply Hnb. rewrite <-He. by apply list_elem_of_fmap_2.
Qed.
Lemma tidy_rotation d n : tidy d → tidy (plan_rotation i d n).
Proof.
  intros Hd. unfold plan_rotation. destruct (n_RotateAfter n) as [t|]; [|done].
  destruct (bool_decide (n_ID n ∈ planned d)) eqn:E; [done|]. cbn [orb].
  destruct (Before _ _); [done|]. destruct (_ && _); [done|]. apply bool_decide_eq_false in E.
  apply tidy_add; [done|]. simpl. by rewrite <-(ti_planned _ Hd).
Qed.
Lemma tidy_retire d n : tidy d → tidy (plan_retire i th d n).
Proof.
  intros Hd. unfold plan_retire. destruct (bool_decide (n_ID n ∈ planned d)) eqn:E; [done|]. cbn [orb].
  destruct (negb _); [done|]. apply bool_decide_eq_false in E. rewrite (ti_planned _ Hd) in E.
  destruct (parse_rfc3339 _); [destruct (_ <=? _); [|done]|]; by apply tidy_add.
Qed.
Lemma draft_unique : NoDup (nb_NodeID <$> rc_NodeBlocks (in_Recs i)) → NoDup (a_NodeID <$> draft i th).
Proof.
  intros Hn. unfold draft. refine (ti_unique _ _).
  apply (foldl_inv tidy); [|intros; by apply tidy_retire]. apply (foldl_inv tidy); [|intros; by apply tidy_rotation].
  apply tidy_blocks; [|done|].
  - split; [|constructor]. intros id. simpl. set_solver.
  - intros b _. apply not_elem_of_nil.
Qed.
End unique.

(** ** The plan *)
Lemma Plan_sound i th a : a ∈ Plan i th → side a → justified i th a.
Proof.
  rewrite Plan_keep. intros Ha Hs. apply (draft_sound i th); [|done]. apply keep_elem in Ha; [|done].
  by rewrite slice_stable_perm in Ha.
Qed.
Lemma keep_or_noop max l : ∀ s a, a ∈ keep max s l → a ∈ l ∨ a_Type a = ActionNoop.
Proof.
  induction l as [|x l IH]; intros s a Ha; [by left|]. simpl in Ha.
  destruct (sideEffecting (a_Type x)); [destruct (max <=? s)|];
    apply elem_of_cons in Ha as [->|Ha]; try (by right); try (by left; left);
    (destruct (IH _ _ Ha) as [?|?]; [left; by right|by right]).
Qed.
Lemma Plan_elem i th a : a ∈ Plan i th → a ∈ draft i th ∨ a_Type a = ActionNoop.
Proof. rewrite Plan_keep. intros Ha. destruct (keep_or_noop _ _ _ _ Ha) as [Hd|?]; [left|by right]. by rewrite slice_stable_perm in Hd. Qed.
Lemma Plan_nodes i th : a_NodeID <$> Plan i th ≡ₚ a_NodeID <$> draft i th.
Proof. by rewrite Plan_keep, keep_nodes, slice_stable_perm. Qed.

Lemma Plan_count i th : Z.of_nat (length (filter side (Plan i th))) <= budget th.
Proof. rewrite Plan_keep. apply (keep_count _ _ 0). unfold budget. lia. Qed.

Lemma Plan_or_full i th a : a ∈ draft i th → side a → a ∈ Plan i th ∨
  Z.of_nat (length (filter side (Plan i th))) = budget th ∧ ∀ k, k ∈ Plan i th → side k → rank (a_Type k) <= rank (a_Type a).
Proof.
  rewrite Plan_keep. intros Ha Hs. apply (keep_or_full _ _ 0 a); [apply slice_stable_sorted, cap_less_weak|unfold budget; lia| |done].
  by rewrite slice_stable_perm.
Qed.

(** The anti-poisoning gate. Whatever is in its input, the policy plans a rotation, replacement or
    retirement only for a reason: a due rotation, an elapsed drain grace, or a fresh valid recommendation
    that is authoritative or confirmed by a fresh own probe. A plan has at most the budgeted number of such
    actions, and one that is put off is put off because the budget is spent on actions at least as urgent. *)
Theorem Plan_gated i th :
  (∀ a, a ∈ Plan i th → side a → justified i th a) ∧
  Z.of_nat (length (filter side (Plan i th))) <= budget th ∧
  (∀ a, a ∈ draft i th → side a → a ∉ Plan i th →
     Z.of_nat (length (filter side (Plan i th))) = budget th ∧
     ∀ k, k ∈ Plan i th → side k → rank (a_Type k) <= rank (a_Type a)).
Proof.
  split_and!; [intros a; apply Plan_sound|apply Plan_count|].
  intros a Ha Hs Hna. by destruct (Plan_or_full i th a Ha Hs).
Qed.
