(* ===== verification/TelemetryAggregate.v ===== *)
(** * The telemetry store (services/telemetry/internal/store/memory.go) and its aggregates

    Every method of [MemoryStore], one atomic step each, and [sort.Slice], which promises an ordered
    permutation of its input and nothing about the order of ties: the class [SortSlice]. *)
From S2P Require Import Prelude GoBytes GoText GoTime GoFloat Contracts.

Record MemoryStore := { ms_signals : list FieldSignal; ms_health : list HealthEvent; ms_maxLen : Z }.
Definition set_ms_signals (l : list FieldSignal) (m : MemoryStore) : MemoryStore :=
  {| ms_signals := l; ms_health := ms_health m; ms_maxLen := ms_maxLen m |}.
Definition set_ms_health (l : list HealthEvent) (m : MemoryStore) : MemoryStore :=
  {| ms_signals := ms_signals m; ms_health := l; ms_maxLen := ms_maxLen m |}.
Definition NewMemoryStore (maxLen : Z) : MemoryStore := {| ms_signals := []; ms_health := []; ms_maxLen := maxLen |}.

Section store.
Context `{SS : !SortSlice}.

(** [s = s[len(s)-max:]] when the series is longer than a positive cap *)
Definition capped {A} (max : Z) (l : list A) : list A :=
  if (0 <? max) && (max <? Z.of_nat (length l)) then drop (length l - Z.to_nat max) l else l.

Definition WriteSignals (sigs : list FieldSignal) : M MemoryStore unit := λ m,
  if Nat.eqb (length sigs) 0 then (Ok tt, m)
  else (Ok tt, set_ms_signals (capped (ms_maxLen m)
         (sort_Slice (λ x y, Before (fs_ObservedAt x) (fs_ObservedAt y)) (ms_signals m ++ sigs))) m).
Definition WriteHealth (events : list HealthEvent) : M MemoryStore unit := λ m,
  if Nat.eqb (length events) 0 then (Ok tt, m)
  else (Ok tt, set_ms_health (capped (ms_maxLen m)
         (sort_Slice (λ x y, Before (he_ObservedAt x) (he_ObservedAt y)) (ms_health m ++ events))) m).
Definition SignalsSince (t : Time) : M MemoryStore (list FieldSignal) := λ m,
  (Ok (filter (λ s, Before (fs_ObservedAt s) t = false) (ms_signals m)), m).
Definition HealthSince (t : Time) : M MemoryStore (list HealthEvent) := λ m,
  (Ok (filter (λ e, Before (he_ObservedAt e) t = false) (ms_health m)), m).
Definition Prune (before : Time) : M MemoryStore Z := λ m,
  let keptSig := filter (λ s, Before (fs_ObservedAt s) before = false) (ms_signals m) in
  let keptHealth := filter (λ e, Before (he_ObservedAt e) before = false) (ms_health m) in
  (Ok (Z.of_nat (length (ms_signals m) - length keptSig) + Z.of_nat (length (ms_health m) - length keptHealth)),
   set_ms_health keptHealth (set_ms_signals keptSig m)).
End store.

(** ** Aggregates and recommendations (services/telemetry/internal/aggregate)

    source.go, aggregator.go, detector.go and recommend.go: the rollup of anonymous signals per region
    and transport with its dead/degraded verdict, and the node blocks derived from probe events. Shares
    and rates are float64. The formatted reasons are kept as format and arguments. *)
(** ** config.go: VerdictParams *)
Record VerdictParams := {
  vp_MinSources : Z; vp_MinBlockedSources : Z; vp_DeadShareThresh : float64; vp_MaxOKShareForDead : float64;
  vp_DegradedThresh : float64; vp_SpikeDelta : float64; vp_SpikeMinSources : Z }.

(** ** source.go *)
Definition sourceKey (s : FieldSignal) : string :=
  if 0 <? fs_ASN s then "asn:" +:+ itoa (fs_ASN s)
  else if negb (bool_decide (fs_ISP s = "")) then "isp:" +:+ fs_Region s +:+ "|" +:+ fs_ISP s
  else "geo:" +:+ fs_Region s +:+ "|" +:+ fs_Platform s.

(** [iota]: the order of the constants is the order [observe] compares by. *)
Definition outcomeOK : Z := 0.
Definition outcomeDegraded : Z := 1.
Definition outcomeBlocked : Z := 2.
Definition classify (s : FieldSignal) : Z :=
  if bool_decide (fs_SignalType s = SignalThrottle) then outcomeDegraded
  else if one_of (fs_SignalType s) [SignalReset; SignalTimeout; SignalDPIBlock; SignalActiveProbe; SignalHandshakeFail; SignalDNSPoison]
  then outcomeBlocked
  else if bool_decide (fs_SignalType s = SignalOK) then outcomeOK
  else if fs_Success s then outcomeOK
  else outcomeBlocked.

(** ** aggregator.go *)
Record Aggregate := {
  ag_Region : string; ag_Transport : string; ag_WindowSeconds : Z; ag_Total : Z; ag_BySignal : gmap string Z;
  ag_DistinctSources : Z; ag_BlockedSources : Z; ag_DegradedSources : Z; ag_OKSources : Z;
  ag_BlockedShare : float64; ag_DegradedShare : float64; ag_OKShare : float64;
  ag_ResetRate : float64; ag_ProbeRate : float64; ag_AvgRTTms : float64; ag_AvgLossPct : float64;
  ag_Trend : float64; ag_Spike : bool; ag_Dead : bool; ag_Degraded : bool; ag_Reason : text }.
Definition with_verdict (dead degraded : bool) (reason : text) (a : Aggregate) : Aggregate := {|
  ag_Region := ag_Region a; ag_Transport := ag_Transport a; ag_WindowSeconds := ag_WindowSeconds a;
  ag_Total := ag_Total a; ag_BySignal := ag_BySignal a; ag_DistinctSources := ag_DistinctSources a;
  ag_BlockedSources := ag_BlockedSources a; ag_DegradedSources := ag_DegradedSources a; ag_OKSources := ag_OKSources a;
  ag_BlockedShare := ag_BlockedShare a; ag_DegradedShare := ag_DegradedShare a; ag_OKShare := ag_OKShare a;
  ag_ResetRate := ag_ResetRate a; ag_ProbeRate := ag_ProbeRate a; ag_AvgRTTms := ag_AvgRTTms a;
  ag_AvgLossPct := ag_AvgLossPct a; ag_Trend := ag_Trend a; ag_Spike := ag_Spike a; ag_Dead := dead;
  ag_Degraded := degraded; ag_Reason := reason |}.

(** The worst outcome of each source *)
Abbreviation sources := (gmap string Z) (only parsing).
Definition observeInto (m : sources) (sk : string) (o : Z) : sources := <[sk := Z.max (default outcomeOK (m !! sk)) o]> m.
Definition count_worst (o : Z) (m : sources) : Z := Z.of_nat (size (filter (λ kv, kv.2 = o) m)).
(** distinct, blocked, degraded, ok *)
Definition tally (m : sources) : Z * Z * Z * Z :=
  (Z.of_nat (size m), count_worst outcomeBlocked m, count_worst outcomeDegraded m, count_worst outcomeOK m).
Definition blockedShare (m : sources) : float64 :=
  let '(distinct, blocked, _, _) := tally m in
  if distinct =? 0 then of_int 0 else fdiv (of_int blocked) (of_int distinct).

(** The accumulator [acc] of one key *)
Record acc := {
  ac_total : Z; ac_bySignal : gmap string Z; ac_sources : sources; ac_firstHalf : sources; ac_secondHalf : sources;
  ac_rttSum : float64; ac_rttCount : Z; ac_lossSum : float64; ac_lossCount : Z; ac_resetCount : Z; ac_probeCount : Z }.
Definition new_acc : acc := {|
  ac_total := 0; ac_bySignal := ∅; ac_sources := ∅; ac_firstHalf := ∅; ac_secondHalf := ∅; ac_rttSum := of_int 0;
  ac_rttCount := 0; ac_lossSum := of_int 0; ac_lossCount := 0; ac_resetCount := 0; ac_probeCount := 0 |}.
Definition incr_if (b : bool) (z : Z) : Z := if b then z + 1 else z.
Definition accumulate (mid : Time) (s : FieldSignal) (g : acc) : acc :=
  let o := classify s in let sk := sourceKey s in
  let rtt := 0 <? fs_RTTms s in let loss := flt (of_int 0) (fs_LossPct s) in
  let early := Before (fs_ObservedAt s) mid in {|
    ac_total := ac_total g + 1;
    ac_bySignal := <[fs_SignalType s := default 0 (ac_bySignal g !! fs_SignalType s) + 1]> (ac_bySignal g);
    ac_sources := observeInto (ac_sources g) sk o;
    ac_firstHalf := if early then observeInto (ac_firstHalf g) sk o else ac_firstHalf g;
    ac_secondHalf := if early then ac_secondHalf g else observeInto (ac_secondHalf g) sk o;
    ac_rttSum := if rtt then fadd (ac_rttSum g) (of_int (fs_RTTms s)) else ac_rttSum g;
    ac_rttCount := incr_if rtt (ac_rttCount g);
    ac_lossSum := if loss then fadd (ac_lossSum g) (fs_LossPct s) else ac_lossSum g;
    ac_lossCount := incr_if loss (ac_lossCount g);
    ac_resetCount := incr_if (bool_decide (fs_SignalType s = SignalReset)) (ac_resetCount g);
    ac_probeCount := incr_if (bool_decide (fs_SignalType s = SignalActiveProbe)) (ac_probeCount g) |}.

Abbreviation Key := (string * string)%type (only parsing).
Definition signal_key (s : FieldSignal) : Key := (fs_Region s, fs_TransportType s).
Definition group (from mid now : Time) (groups : gmap Key acc) (s : FieldSignal) : gmap Key acc :=
  if Before (fs_ObservedAt s) from || After (fs_ObservedAt s) now then groups
  else <[signal_key s := accumulate mid s (default new_acc (groups !! signal_key s))]> groups.

(** ** detector.go *)
Definition spikeNote (spike : bool) : string := if spike then " [SPIKE]" else "".
Definition applyVerdict (p : VerdictParams) (a : Aggregate) : Aggregate :=
  if ag_DistinctSources a <? vp_MinSources p then
    with_verdict (ag_Dead a) (ag_Degraded a)
      (Sprintf "insufficient sources: %d < %d (verdict withheld)" [IntArg (ag_DistinctSources a); IntArg (vp_MinSources p)]) a
  else if fle (vp_DeadShareThresh p) (ag_BlockedShare a) && (vp_MinBlockedSources p <=? ag_BlockedSources a)
          && fle (ag_OKShare a) (vp_MaxOKShareForDead p) then
    with_verdict true (ag_Degraded a)
      (Sprintf "DEAD: %d/%d sources blocked (share %.2f≥%.2f), ok-share %.2f≤%.2f%s"
         [IntArg (ag_BlockedSources a); IntArg (ag_DistinctSources a); FloatArg (ag_BlockedShare a); FloatArg (vp_DeadShareThresh p);
          FloatArg (ag_OKShare a); FloatArg (vp_MaxOKShareForDead p); Lit (spikeNote (ag_Spike a))]) a
  else if fle (vp_DegradedThresh p) (fadd (ag_BlockedShare a) (ag_DegradedShare a)) then
    with_verdict (ag_Dead a) true
      (Sprintf "DEGRADED: impaired share %.2f≥%.2f across %d sources%s"
         [FloatArg (fadd (ag_BlockedShare a) (ag_DegradedShare a)); FloatArg (vp_DegradedThresh p);
          IntArg (ag_DistinctSources a); Lit (spikeNote (ag_Spike a))]) a
  else with_verdict (ag_Dead a) (ag_Degraded a)
         (Sprintf "healthy: blocked-share %.2f across %d sources" [FloatArg (ag_BlockedShare a); IntArg (ag_DistinctSources a)]) a.

Section compute.
Context (p : VerdictParams) (now : Time) (window : Duration).
Definition share (n d : Z) : float64 := if 0 <? d then fdiv (of_int n) (of_int d) else of_int 0.
Definition aggregate_of (k : Key) (g : acc) : Aggregate :=
  let '(distinct, blocked, degraded, ok) := tally (ac_sources g) in
  let '(_, secondBlocked, _, _) := tally (ac_secondHalf g) in
  let trend := fsub (blockedShare (ac_secondHalf g)) (blockedShare (ac_firstHalf g)) in
  {| ag_Region := k.1; ag_Transport := k.2; ag_WindowSeconds := Z.quot window Second; ag_Total := ac_total g;
     ag_BySignal := ac_bySignal g; ag_DistinctSources := distinct; ag_BlockedSources := blocked;
     ag_DegradedSources := degraded; ag_OKSources := ok; ag_BlockedShare := share blocked distinct;
     ag_DegradedShare := share degraded distinct; ag_OKShare := share ok distinct;
     ag_ResetRate := share (ac_resetCount g) (ac_total g); ag_ProbeRate := share (ac_probeCount g) (ac_total g);
     ag_AvgRTTms := if 0 <? ac_rttCount g then fdiv (ac_rttSum g) (of_int (ac_rttCount g)) else of_int 0;
     ag_AvgLossPct := if 0 <? ac_lossCount g then fdiv (ac_lossSum g) (of_int (ac_lossCount g)) else of_int 0;
     ag_Trend := trend; ag_Spike := fle (vp_SpikeDelta p) trend && (vp_SpikeMinSources p <=? secondBlocked);
     ag_Dead := false; ag_Degraded := false; ag_Reason := Lit "" |}.
Definition groups (signals : list FieldSignal) : gmap Key acc :=
  foldl (group (Add now (- window)) (Add now (Z.quot (- window) 2)) now) ∅ signals.
Definition Compute (signals : list FieldSignal) : gmap Key Aggregate :=
  map_imap (λ k g, Some (applyVerdict p (aggregate_of k g))) (groups signals).
End compute.

(** ** recommend.go *)
Definition ConfidenceAuthoritative : string := "authoritative".
Definition ConfidenceCorroborated : string := "corroborated".
(** The maps [regions] and [reasons] *)
Abbreviation Blocks := (gmap string (gmap string string) * gmap string string)%type (only parsing).
Definition add_block (node region c reason : string) (b : Blocks) : Blocks :=
  if bool_decide (region = "") then b
  else
    let cur := default ∅ (b.1 !! node) in
    let regions := match cur !! region with
                   | None => <[region := c]> cur
                   | Some old => if bool_decide (c = ConfidenceAuthoritative) && negb (bool_decide (old = ConfidenceAuthoritative))
                                 then <[region := c]> cur else cur
                   end in
    (<[node := regions]> b.1, match b.2 !! node with None => <[node := reason]> b.2 | Some _ => b.2 end).
Definition block_event (from now : Time) (b : Blocks) (e : HealthEvent) : Blocks :=
  if Before (he_ObservedAt e) from || After (he_ObservedAt e) now then b
  else if negb (bool_decide (he_Status e = HealthBlocked)) && negb (bool_decide (he_Status e = HealthUnreachable)) then b
  else foldl (λ b r, add_block (he_NodeID e) r ConfidenceAuthoritative ("probe " +:+ he_ProbeSource e +:+ " reports " +:+ he_Status e) b)
         b (he_BlockedFromRegions e).

Section recommend.
Context `{ord : !MapOrder}.
(** [sort.Strings] of the keys of a map *)
Definition sorted_keys {V} (m : gmap string V) : list string := sort_slice str_lt (range m).*1.
Definition node_block (b : Blocks) (n : string) : NodeBlock :=
  let regs := default ∅ (b.1 !! n) in
  {| nb_Action := RecommendationMarkNodeBlocked; nb_NodeID := n; nb_Regions := sorted_keys regs;
     nb_Confidence := foldl (λ conf rc, if bool_decide (rc.2 = ConfidenceAuthoritative) then ConfidenceAuthoritative else conf)
                        ConfidenceCorroborated (range regs);
     nb_Reason := default "" (b.2 !! n) |}.
Definition nodeBlocks (health : list HealthEvent) (now : Time) (window : Duration) : list NodeBlock :=
  let b := foldl (block_event (Add now (- window)) now) (∅, ∅) health in
  node_block b <$> sorted_keys b.1.
Definition Recommend (signals : list FieldSignal) (health : list HealthEvent) (now : Time) (window : Duration)
    (p : VerdictParams) : Recommendations := {|
  rc_GeneratedAt := now; rc_WindowSeconds := Z.quot window Second; rc_NodeBlocks := nodeBlocks health now window;
  rc_RegionPriorities := [] |}.
End recommend.
