(* ===== verification/TelemetryIngest.v ===== *)
(** * Telemetry: ingest, queries and the router (services/telemetry/internal: ingest, query, api)

    A request is handled on the service's state and the readings of the clock it makes; the JSON decoder
    of a request body is a parameter, and so are the two verbs of fmt it prints with. *)
From S2P Require Import Prelude GoBytes GoText GoTime GoFloat GoCodec GoUrl Contracts TelemetryAggregate.

(** ** anonymize.go *)
Definition maxISPLen : nat := 64.
Definition maxClientVersionLen : nat := 32.
Definition maxRegionLen : nat := 8.
Definition maxRTTms : Z := 60000.
Definition maxLossPct : float64 := of_int 100.
Definition maxASN : Z := 4294967295.
Definition futureSkew : Duration := 2 * Minute.
Definition clockCoarse : Duration := Minute.

Definition isUpper (b : Z) : bool := (65 <=? b) && (b <=? 90).
(** [^[A-Z]{2}(-[A-Z0-9]{1,4})?$] *)
Definition regionRe (l : list Z) : bool :=
  match l with
  | a :: b :: l' =>
      isUpper a && isUpper b &&
      match l' with
      | [] => true
      | c :: sub => (c =? 45) && negb (Nat.eqb (length sub) 0) && (length sub <=? 4)%nat &&
                    forallb (λ x, isUpper x || isDigit x) sub
      end
  | _ => false
  end.
(** [ctrlChars.ReplaceAllString(s, "")]: the class is ASCII, so bytes and runes agree *)
Definition strip_ctrl (s : string) : string :=
  string_of_bytes (filter (λ b, ((b <? 32) || (b =? 127)) = false) (bytes_of s)).
Definition clip (s : string) (max : nat) : string := string_of_bytes (take max (bytes_of (TrimSpace s))).
(** [^[vV]?(\d+)(?:\.(\d+))?] *)
Definition coarsenVersion (v : string) : string :=
  let l := bytes_of (TrimSpace v) in
  let l := match l with b :: l' => if (b =? 118) || (b =? 86) then l' else l | [] => l end in
  let '(major, rest) := span_digits l in
  if bool_decide (major = []) then ""
  else match rest with
       | 46 :: rest' =>
           let '(minor, _) := span_digits rest' in
           if bool_decide (minor = []) then string_of_bytes major
           else string_of_bytes major +:+ "." +:+ string_of_bytes minor
       | _ => string_of_bytes major
       end.

Definition Sanitize (s : FieldSignal) (now : Time) (maxAge : Duration) : result FieldSignal :=
  let region := ToUpper (TrimSpace (fs_Region s)) in
  if (maxRegionLen <? length (bytes_of region))%nat || negb (regionRe (bytes_of region)) then Err (Errorf "invalid region")
  else
    let asn := if (fs_ASN s <? 0) || (maxASN <? fs_ASN s) then 0 else fs_ASN s in
    let isp := clip (strip_ctrl (fs_ISP s)) maxISPLen in
    let isp := if 0 <? asn then "" else isp in
    let version := coarsenVersion (clip (strip_ctrl (fs_ClientVersion s)) maxClientVersionLen) in
    let rtt := if (fs_RTTms s <? 0) || (maxRTTms <? fs_RTTms s) then 0 else fs_RTTms s in
    let loss := if flt (fs_LossPct s) (of_int 0) then of_int 0 else fs_LossPct s in
    let loss := if flt maxLossPct loss then maxLossPct else loss in
    let platform := if negb (bool_decide (fs_Platform s = "")) && negb (Platform_Valid (fs_Platform s)) then "" else fs_Platform s in
    let observed := if IsZero (fs_ObservedAt s) then now else fs_ObservedAt s in
    if After observed (Add now futureSkew) then Err (Errorf "timestamp in the future")
    else if Before observed (Add now (- maxAge)) then Err (Errorf "timestamp older than retention")
    else
      let clean := {|
        fs_SignalID := fs_SignalID s; fs_NodeID := fs_NodeID s; fs_TransportType := fs_TransportType s;
        fs_TransportVersion := fs_TransportVersion s; fs_Region := region; fs_ASN := asn; fs_ISP := isp;
        fs_SignalType := fs_SignalType s; fs_Success := fs_Success s; fs_RTTms := rtt; fs_LossPct := loss;
        fs_ClientVersion := version; fs_Platform := platform; fs_ObservedAt := Truncate observed clockCoarse |} in
      match FieldSignal_Validate clean with Err e => Err e | Ok _ => Ok clean end.

(** ** dedup.go *)
Record Deduper := { dd_seen : gmap string Time; dd_ttl : Duration }.
Definition sweepLocked (now : Time) (d : Deduper) : Deduper :=
  if (size (dd_seen d) <? 4096)%nat then d
  else {| dd_seen := filter (λ kv, (dd_ttl d <=? Sub now kv.2) = false) (dd_seen d); dd_ttl := dd_ttl d |}.
Definition Fresh (id : string) (now : Time) (d : Deduper) : bool * Deduper :=
  if bool_decide (id = "") then (false, d)
  else
    let stale := match dd_seen d !! id with Some ts => Sub now ts <? dd_ttl d | None => false end in
    if stale then (false, d)
    else (true, sweepLocked now {| dd_seen := <[id := now]> (dd_seen d); dd_ttl := dd_ttl d |}).

(** ** ratelimit.go *)
Record bucket := { bk_tokens : float64; bk_lastSeen : Time }.
Record RateLimiter := {
  rl_buckets : gmap string bucket; rl_global : bucket; rl_salt : list Z; rl_ratePerSec : float64; rl_burst : float64;
  rl_globalRate : float64; rl_globalBurst : float64; rl_ttl : Duration }.
Definition set_buckets (b : gmap string bucket) (g : bucket) (r : RateLimiter) : RateLimiter := {|
  rl_buckets := b; rl_global := g; rl_salt := rl_salt r; rl_ratePerSec := rl_ratePerSec r; rl_burst := rl_burst r;
  rl_globalRate := rl_globalRate r; rl_globalBurst := rl_globalBurst r; rl_ttl := rl_ttl r |}.
Definition NewRateLimiter (ratePerSec burst globalRate globalBurst : Z) (salt : list Z) (now : Time) : RateLimiter := {|
  rl_buckets := ∅; rl_global := {| bk_tokens := of_int globalBurst; bk_lastSeen := now |}; rl_salt := salt;
  rl_ratePerSec := of_int ratePerSec; rl_burst := of_int burst; rl_globalRate := of_int globalRate;
  rl_globalBurst := of_int globalBurst; rl_ttl := 10 * Minute |}.
Definition SourceToken (raw : string) (r : RateLimiter) : string :=
  String.substring 0 16 (hex_encode (Sha256.hmac (rl_salt r) (bytes_of raw))).
Definition refill_bucket (rate max : float64) (now : Time) (b : bucket) : bucket :=
  let elapsed := Seconds (Sub now (bk_lastSeen b)) in
  if flt (of_int 0) elapsed then
    let t := fadd (bk_tokens b) (fmul elapsed rate) in
    {| bk_tokens := if flt max t then max else t; bk_lastSeen := now |}
  else b.
Definition charge (cost : float64) (lastSeen : Time) (b : bucket) : bucket :=
  {| bk_tokens := fsub (bk_tokens b) cost; bk_lastSeen := lastSeen |}.
Definition evictLocked (now : Time) (ttl : Duration) (m : gmap string bucket) : gmap string bucket :=
  filter (λ kv, (ttl <? Sub now (bk_lastSeen kv.2)) = false) m.
Definition Allow (token : string) (n : Z) (now : Time) (r : RateLimiter) : bool * RateLimiter :=
  let cost := of_int n in
  let g := refill_bucket (rl_globalRate r) (rl_globalBurst r) now (rl_global r) in
  if flt (bk_tokens g) cost then (false, set_buckets (rl_buckets r) g r)
  else
    let b := default {| bk_tokens := rl_burst r; bk_lastSeen := now |} (rl_buckets r !! token) in
    let b := refill_bucket (rl_ratePerSec r) (rl_burst r) now b in
    if flt (bk_tokens b) cost then (false, set_buckets (<[token := b]> (rl_buckets r)) g r)
    else (true, set_buckets (evictLocked now (rl_ttl r) (<[token := charge cost now b]> (rl_buckets r)))
                  (charge cost (bk_lastSeen g) g) r).

(** ** net.SplitHostPort, for the host alone; [None] is an error *)
Definition last_index (c : Z) (l : list Z) : option nat :=
  fst <$> last (filter (λ kv, kv.2 = c) (imap pair l)).
Definition index_byte (c : Z) (l : list Z) : option nat := fst <$> list_find (λ b, b = c) l.
Definition split_host (l : list Z) : option (list Z) :=
  match last_index 58 l with
  | None => None
  | Some i =>
      match l with
      | 91 :: _ =>
          match index_byte 93 l with
          | None => None
          | Some e =>
              if negb (Nat.eqb (e + 1) i) then None
              else if is_Some_dec (index_byte 91 (drop 1 l)) then None
              else if is_Some_dec (index_byte 93 (drop (e + 1) l)) then None
              else Some (take (e - 1) (drop 1 l))
          end
      | _ =>
          let host := take i l in
          if is_Some_dec (index_byte 58 host) then None
          else if is_Some_dec (index_byte 91 l) then None
          else if is_Some_dec (index_byte 93 l) then None
          else Some host
      end
  end.
Definition clientOrigin (remoteAddr : string) : string :=
  match split_host (bytes_of remoteAddr) with Some host => string_of_bytes host | None => remoteAddr end.

(** ** metrics/prometheus.go

    The counters and the text they are exposed as *)
(** The formats of [fmt] the service prints with: a number for the verb %g, a quoted string for %q *)
Class Verbs := { verb_g : float64 → string; verb_q : string → string }.
Module Metrics.
Record Collector := { co_ingested : gmap string float64; co_rejected : gmap string float64; co_rateLimited : float64; co_healthTotal : float64 }.
Definition NewCollector : Collector := {| co_ingested := ∅; co_rejected := ∅; co_rateLimited := of_int 0; co_healthTotal := of_int 0 |}.
Definition bump (k : string) (m : gmap string float64) : gmap string float64 := <[k := fadd (default (of_int 0) (m !! k)) (of_int 1)]> m.
Definition ingested_key (transport region signalType : string) : string := transport +:+ "|" +:+ region +:+ "|" +:+ signalType.
Definition IncIngested (transport region signalType : string) (c : Collector) : Collector := {|
  co_ingested := bump (ingested_key transport region signalType) (co_ingested c); co_rejected := co_rejected c;
  co_rateLimited := co_rateLimited c; co_healthTotal := co_healthTotal c |}.
Definition IncRejected (reason : string) (c : Collector) : Collector := {|
  co_ingested := co_ingested c; co_rejected := bump reason (co_rejected c); co_rateLimited := co_rateLimited c; co_healthTotal := co_healthTotal c |}.
Definition IncRateLimited (c : Collector) : Collector := {|
  co_ingested := co_ingested c; co_rejected := co_rejected c; co_rateLimited := fadd (co_rateLimited c) (of_int 1); co_healthTotal := co_healthTotal c |}.
Definition AddHealth (n : Z) (c : Collector) : Collector := {|
  co_ingested := co_ingested c; co_rejected := co_rejected c; co_rateLimited := co_rateLimited c; co_healthTotal := fadd (co_healthTotal c) (of_int n) |}.
(** [strings.ReplaceAll] of one byte *)
Fixpoint replace_byte (b : Z) (by_ v : string) : string :=
  match v with "" => "" | String a v' => if ord a =? b then by_ +:+ replace_byte b by_ v' else String a (replace_byte b by_ v') end.
Definition escapeLabel (v : string) : string :=
  replace_byte 10 (backslash +:+ "n") (replace_byte 34 (backslash +:+ quote) (replace_byte 92 (backslash +:+ backslash) v)).
Definition labels (kv : list (string * string)) : string := join "," ((λ x, x.1 +:+ "=" +:+ quote +:+ escapeLabel x.2 +:+ quote) <$> kv).
Section render.
Context `{SS : !SortSlice} `{VB : !Verbs}.
Definition sample (name lbl : string) (v : float64) : string := name +:+ "{" +:+ lbl +:+ "} " +:+ verb_g v +:+ newline.
Definition described (name help kind : string) : string :=
  "# HELP " +:+ name +:+ " " +:+ help +:+ newline +:+ "# TYPE " +:+ name +:+ " " +:+ kind +:+ newline.
(** Labels of a key that cannot be made are an index out of range. *)
Definition writeCounter (name help : string) (vals : gmap string float64) (lbl : string → option string) : option string :=
  l ← mapM (λ kv : string * float64, x ← lbl kv.1; Some (sample name x kv.2)) (sorted_entries vals);
  Some (described name help "counter" +:+ join "" l).
(** [strings.SplitN(k, "|", 3)] *)
Definition ingested_labels (k : string) : option string :=
  '(t, rest) ← Cut k 124; '(r, s) ← Cut rest 124; Some (labels [("transport", t); ("region", r); ("signal_type", s)]).
Definition b2f (v : bool) : float64 := if v then of_int 1 else of_int 0.
Definition gauges : list (string * string * (Aggregate → float64)) := [
  ("telemetry_blocked_share", "Blocked-source share per region/transport.", ag_BlockedShare);
  ("telemetry_degraded_share", "Degraded-source share.", ag_DegradedShare);
  ("telemetry_ok_share", "Healthy-source share.", ag_OKShare);
  ("telemetry_distinct_sources", "Distinct coarse sources observed.", λ a, of_int (ag_DistinctSources a));
  ("telemetry_avg_rtt_ms", "Mean RTT in ms.", ag_AvgRTTms);
  ("telemetry_avg_loss_pct", "Mean packet loss percent.", ag_AvgLossPct);
  ("telemetry_transport_dead", "1 when transport declared dead in region.", λ a, b2f (ag_Dead a));
  ("telemetry_transport_degraded", "1 when transport degraded in region.", λ a, b2f (ag_Degraded a))].
Definition before_key (a b : Key) : bool := if bool_decide (a.1 = b.1) then str_lt a.2 b.2 else str_lt a.1 b.1.
Definition gauge_sample (name : string) (val : Aggregate → float64) (x : Key * Aggregate) : string :=
  sample name (labels [("region", x.1.1); ("transport", x.1.2)]) (val x.2).
Definition writeGauges (aggs : gmap Key Aggregate) : string :=
  let keys := sort_Slice (λ a b : Key * Aggregate, before_key a.1 b.1) (map_to_list aggs) in
  join "" ((λ q : string * string * (Aggregate → float64), described q.1.1 q.1.2 "gauge" +:+ join "" (gauge_sample q.1.1 q.2 <$> keys)) <$> gauges).
Definition plain_counter (name : string) (v : float64) : string := "# TYPE " +:+ name +:+ " counter" +:+ newline +:+ name +:+ " " +:+ verb_g v +:+ newline.
Definition Render (c : Collector) (aggs : gmap Key Aggregate) : option string :=
  a ← writeCounter "telemetry_signals_ingested_total" "Accepted anonymous field signals." (co_ingested c) ingested_labels;
  b ← writeCounter "telemetry_signals_rejected_total" "Rejected field signals by reason." (co_rejected c) (λ k, Some (labels [("reason", k)]));
  Some (a +:+ b +:+ plain_counter "telemetry_batches_rate_limited_total" (co_rateLimited c)
    +:+ plain_counter "telemetry_health_events_total" (co_healthTotal c) +:+ writeGauges aggs).
End render.
End Metrics.

(** ** handler.go, query/handler.go, router.go *)
Definition bucketReason (reason : string) : string :=
  if Contains reason "region" then "invalid_region"
  else if Contains reason "timestamp" then "stale_or_future"
  else if Contains reason "signal_id" then "missing_signal_id"
  else "invalid".
(** What [Sanitize] says of a signal it rejects: the message of its error, with the value an unknown constant has *)
Definition reject_reason `{VB : !Verbs} (raw : FieldSignal) (e : error) : string :=
  match e with
  | Errorf msg =>
      if bool_decide (msg = "contracts: unknown transport type") then msg +:+ " " +:+ verb_q (fs_TransportType raw)
      else if bool_decide (msg = "contracts: unknown signal type") then msg +:+ " " +:+ verb_q (fs_SignalType raw)
      else msg
  | _ => ""
  end.

Record TelRequest := { tq_Method : string; tq_Path : string; tq_Authorization : string; tq_RemoteAddr : string; tq_Body : string }.
Inductive tel_body :=
| TError (msg : string)
| TCounts (accepted rejected : Z)
| TAggregates (generated : Time) (aggs : gmap Key Aggregate)
| TRecommendations (r : Recommendations)
| TMetrics (text : string)
| THealthz.
Record TelResponse := { tp_Code : Z; tp_Body : tel_body }.
Definition tel_error (code : Z) (msg : string) : TelResponse := {| tp_Code := code; tp_Body := TError msg |}.
Definition tel_write (code : Z) (b : tel_body) : TelResponse := {| tp_Code := code; tp_Body := b |}.

Record Tel := { t_store : MemoryStore; t_limiter : RateLimiter; t_dedup : Deduper; t_metrics : Metrics.Collector }.
Record TelConfig := {
  tc_Window : Duration; tc_Retention : Duration; tc_MaxBatch : Z; tc_InternalToken : string; tc_Verdict : VerdictParams }.
(** The state of a request: the service and the clock readings to come *)
Abbreviation TelM := (M (Tel * list Time)).

Section handlers.
Context `{ord : !MapOrder} `{SS : !SortSlice} `{VB : !Verbs}.
Context (cfg : TelConfig).
(** The JSON decoder: a body of at most so many bytes, without unknown fields and trailing data, or the
    status of the error. *)
Context (decodeSignals : Z → string → (Z * string) + list FieldSignal).
Context (decodeHealth : Z → string → (Z * string) + list HealthEvent).

Definition tel_now : TelM Time := λ s, (Ok (default zero_time (head s.2)), (s.1, tail s.2)).
Definition tel_store {A} (m : M MemoryStore A) : TelM A := λ s,
  let '(r, st) := m (t_store s.1) in
  (r, ({| t_store := st; t_limiter := t_limiter s.1; t_dedup := t_dedup s.1; t_metrics := t_metrics s.1 |}, s.2)).
Definition tel_allow (token : string) (n : Z) : TelM bool :=
  t ←! tel_now ;
  λ s, let '(ok, l) := Allow token n t (t_limiter s.1) in
       (Ok ok, ({| t_store := t_store s.1; t_limiter := l; t_dedup := t_dedup s.1; t_metrics := t_metrics s.1 |}, s.2)).
Definition tel_fresh (id : string) : TelM bool :=
  if bool_decide (id = "") then mret false
  else
    t ←! tel_now ;
    λ s, let '(ok, d) := Fresh id t (t_dedup s.1) in
         (Ok ok, ({| t_store := t_store s.1; t_limiter := t_limiter s.1; t_dedup := d; t_metrics := t_metrics s.1 |}, s.2)).
Definition tel_count (f : Metrics.Collector → Metrics.Collector) : TelM unit := modify (λ s : Tel * list Time,
  ({| t_store := t_store s.1; t_limiter := t_limiter s.1; t_dedup := t_dedup s.1; t_metrics := f (t_metrics s.1) |}, s.2)).

Definition approxSignalBytes : Z := 512.
Definition maxBodyBytes : Z := tc_MaxBatch cfg * approxSignalBytes + 1024.

Fixpoint accept (now : Time) (raws accepted : list FieldSignal) (rejected : Z) : TelM (list FieldSignal * Z) :=
  match raws with
  | [] => mret (accepted, rejected)
  | raw :: raws' =>
      match Sanitize raw now (tc_Retention cfg) with
      | Err e => tel_count (Metrics.IncRejected (bucketReason (reject_reason raw e))) ;;! accept now raws' accepted (rejected + 1)
      | Ok clean =>
          fresh ←! tel_fresh (fs_SignalID clean) ;
          if negb fresh then tel_count (Metrics.IncRejected "duplicate") ;;! accept now raws' accepted (rejected + 1)
          else
            tel_count (Metrics.IncIngested (fs_TransportType clean) (fs_Region clean) (fs_SignalType clean)) ;;!
            accept now raws' (accepted ++ [clean]) rejected
      end
  end.

Definition HandleSignals (r : TelRequest) : TelM TelResponse :=
  if negb (bool_decide (tq_Method r = "POST")) then mret (tel_error 405 "method not allowed")
  else match decodeSignals maxBodyBytes (tq_Body r) with
  | inl (code, msg) => mret (tel_error code msg)
  | inr sigs =>
      if Nat.eqb (length sigs) 0 then mret (tel_error 400 "empty batch")
      else if tc_MaxBatch cfg <? Z.of_nat (length sigs) then mret (tel_error 413 "batch too large")
      else
        limiter ←! gets (λ s : Tel * list Time, t_limiter s.1) ;
        ok ←! tel_allow (SourceToken (clientOrigin (tq_RemoteAddr r)) limiter) (Z.of_nat (length sigs)) ;
        if negb ok then tel_count Metrics.IncRateLimited ;;! mret (tel_error 429 "rate limited")
        else
          now ←! tel_now ;
          out ←! accept now sigs [] 0 ;
          let '(accepted, rejected) := out in
          let reply := tel_write 202 (TCounts (Z.of_nat (length accepted)) rejected) in
          if Nat.eqb (length accepted) 0 then mret reply
          else
            w ←! try (tel_store (WriteSignals accepted)) ;
            match w with Err _ => mret (tel_error 500 "storage error") | Ok _ => mret reply end
  end.

(** [e.ObservedAt] defaults to now; invalid events are dropped. *)
Definition stamp (now : Time) (e : HealthEvent) : HealthEvent :=
  if IsZero (he_ObservedAt e) then {|
    he_NodeID := he_NodeID e; he_Status := he_Status e; he_ProbeSource := he_ProbeSource e;
    he_BlockedFromRegions := he_BlockedFromRegions e; he_LatencyMs := he_LatencyMs e; he_Detail := he_Detail e;
    he_ObservedAt := now |}
  else e.
Definition valid_event (e : HealthEvent) : bool := is_ok (HealthEvent_Validate e).
Definition HandleHealth (r : TelRequest) : TelM TelResponse :=
  if negb (bool_decide (tq_Method r = "POST")) then mret (tel_error 405 "method not allowed")
  else match decodeHealth maxBodyBytes (tq_Body r) with
  | inl (code, msg) => mret (tel_error code msg)
  | inr events =>
      if Nat.eqb (length events) 0 then mret (tel_error 400 "empty batch")
      else if tc_MaxBatch cfg <? Z.of_nat (length events) then mret (tel_error 413 "batch too large")
      else
        now ←! tel_now ;
        let accepted := filter (λ e, valid_event e = true) (stamp now <$> events) in
        let rejected := Z.of_nat (length events - length accepted) in
        let reply := tel_write 202 (TCounts (Z.of_nat (length accepted)) rejected) in
        if Nat.eqb (length accepted) 0 then mret reply
        else
          w ←! try (tel_store (WriteHealth accepted)) ;
          match w with
          | Err _ => mret (tel_error 500 "storage error")
          | Ok _ => tel_count (Metrics.AddHealth (Z.of_nat (length accepted))) ;;! mret reply
          end
  end.

Definition Aggregates : TelM (gmap Key Aggregate) :=
  now ←! tel_now ;
  sigs ←! tel_store (SignalsSince (Add now (- tc_Window cfg))) ;
  mret (Compute (tc_Verdict cfg) now (tc_Window cfg) sigs).
Definition HandleAggregates (r : TelRequest) : TelM TelResponse :=
  if negb (bool_decide (tq_Method r = "GET")) then mret (tel_error 405 "method not allowed")
  else
    aggs ←! try Aggregates ;
    match aggs with
    | Err _ => mret (tel_error 500 "storage error")
    | Ok aggs => now ←! tel_now ; mret (tel_write 200 (TAggregates now aggs))
    end.
Definition HandleRecommendations (r : TelRequest) : TelM TelResponse :=
  if negb (bool_decide (tq_Method r = "GET")) then mret (tel_error 405 "method not allowed")
  else
    now ←! tel_now ;
    let from := Add now (- tc_Window cfg) in
    sigs ←! try (tel_store (SignalsSince from)) ;
    match sigs with
    | Err _ => mret (tel_error 500 "storage error")
    | Ok sigs =>
        health ←! try (tel_store (HealthSince from)) ;
        match health with
        | Err _ => mret (tel_error 500 "storage error")
        | Ok health => mret (tel_write 200 (TRecommendations (Recommend sigs health now (tc_Window cfg) (tc_Verdict cfg))))
        end
    end.
Definition metricsHandler (r : TelRequest) : TelM TelResponse :=
  aggs ←! try Aggregates ;
  match aggs with
  | Err _ => mret (tel_error 500 "storage error")
  | Ok aggs =>
      c ←! gets (λ s : Tel * list Time, t_metrics s.1) ;
      match Metrics.Render c aggs with Some text => mret (tel_write 200 (TMetrics text)) | None => fail panic_index end
  end.

Definition authMiddleware (next : TelRequest → TelM TelResponse) (r : TelRequest) : TelM TelResponse :=
  if bool_decide (tc_InternalToken cfg = "") then mret (tel_error 403 "internal API disabled: TELEMETRY_INTERNAL_TOKEN is not set")
  else if negb (HasPrefix (tq_Authorization r) "Bearer ")
          || negb (bool_decide (TrimPrefix (tq_Authorization r) "Bearer " = tc_InternalToken cfg))
  then mret (tel_error 401 "unauthorized")
  else next r.
Definition Router (r : TelRequest) : TelM TelResponse :=
  if bool_decide (tq_Path r = "/healthz") then mret (tel_write 200 THealthz)
  else if bool_decide (tq_Path r = "/v1/signals") then HandleSignals r
  else if bool_decide (tq_Path r = "/v1/health") then authMiddleware HandleHealth r
  else if bool_decide (tq_Path r = "/v1/aggregates") then authMiddleware HandleAggregates r
  else if bool_decide (tq_Path r = "/v1/recommendations") then authMiddleware HandleRecommendations r
  else if bool_decide (tq_Path r = "/metrics") then authMiddleware metricsHandler r
  else mret (tel_error 404 "404 page not found").
End handlers.

(** ** The exposition *)
Module Exposition.
Import Metrics.
(** What a reader of the exposition format makes of a label's value: a backslash escapes, the first bare quote ends it. *)
Fixpoint read_label (s : string) : option (string * string) :=
  match s with
  | "" => None
  | String a s' =>
      if ord a =? 34 then Some ("", s')
      else if ord a =? 92 then
        match s' with
        | "" => None
        | String b s'' => '(v, rest) ← read_label s''; Some (String (if ord b =? 110 then chr 10 else b) v, rest)
        end
      else if ord a =? 10 then None
      else '(v, rest) ← read_label s'; Some (String a v, rest)
  end.
Definition escape_ch (a : Ascii.ascii) : string :=
  if ord a =? 92 then backslash +:+ backslash else if ord a =? 34 then backslash +:+ quote
  else if ord a =? 10 then backslash +:+ "n" else String a "".
Lemma escapeLabel_cons a v : escapeLabel (String a v) = escape_ch a +:+ escapeLabel v.
Proof.
  unfold escapeLabel, escape_ch. cbn [replace_byte].
  destruct (Z.eqb_spec (ord a) 92) as [|H92]; [done|]. cbn [replace_byte]. destruct (Z.eqb_spec (ord a) 34) as [|H34]; [done|]. cbn [replace_byte].
  by destruct (Z.eqb_spec (ord a) 10).
Qed.
Lemma ord_eq a b : ord a = b → a = chr b.
Proof. intros <-. by rewrite chr_ord. Qed.
(** A label's value, whatever it holds, is read back as it was and ends where it was closed. *)
Theorem label_reads_back v rest : read_label (escapeLabel v +:+ quote +:+ rest) = Some (v, rest).
Proof.
  induction v as [|a v IH]; [done|]. rewrite escapeLabel_cons, <-string_app_assoc. unfold escape_ch.
  destruct (Z.eqb_spec (ord a) 92) as [->%ord_eq|H92]; [|destruct (Z.eqb_spec (ord a) 34) as [->%ord_eq|H34];
    [|destruct (Z.eqb_spec (ord a) 10) as [->%ord_eq|H10]]].
  - transitivity ('(v, rest) ← read_label (escapeLabel v +:+ quote +:+ rest); Some (String (chr 92) v, rest)); [done|by rewrite IH].
  - transitivity ('(v, rest) ← read_label (escapeLabel v +:+ quote +:+ rest); Some (String (chr 34) v, rest)); [done|by rewrite IH].
  - transitivity ('(v, rest) ← read_label (escapeLabel v +:+ quote +:+ rest); Some (String (chr 10) v, rest)); [done|by rewrite IH].
  - transitivity (read_label (String a (escapeLabel v +:+ quote +:+ rest))); [done|]. cbn [read_label]. rewrite !(proj2 (Z.eqb_neq _ _)) by done. by rewrite IH.
Qed.
(** The labels of a counted signal are its own, when no bar is in its transport and region. *)
Lemma ingested_labels_own t r s : 124 ∉ bytes_of t → 124 ∉ bytes_of r →
  ingested_labels (ingested_key t r s) = Some (labels [("transport", t); ("region", r); ("signal_type", s)]).
Proof.
  intros Ht Hr. unfold ingested_labels, ingested_key. change 124 with (ord (chr 124)). change ("|" +:+ r +:+ "|" +:+ s) with (String (chr 124) (r +:+ String (chr 124) s)).
  rewrite Cut_app by done. cbn [mbind option_bind]. by rewrite Cut_app.
Qed.
Lemma regionRe_no_bar l : regionRe l = true → 124 ∉ l.
Proof.
  assert (∀ x, isUpper x = true → x ≠ 124) as Hu by (unfold isUpper; intros x; rewrite andb_true_iff, !Z.leb_le; lia).
  assert (∀ x, isDigit x = true → x ≠ 124) as Hdg by (unfold isDigit; intros x; rewrite andb_true_iff, !Z.leb_le; lia).
  destruct l as [|a [|b l]]; try done. unfold regionRe. rewrite !andb_true_iff. intros [[Ha Hb] Hl].
  assert (124 ∉ l) as Hrest; [|pose proof (Hu a Ha); pose proof (Hu b Hb); rewrite !not_elem_of_cons; repeat split; [by symmetry|by symmetry|done]].
  destruct l as [|c sub]; [set_solver|]. rewrite !andb_true_iff, Z.eqb_eq in Hl. destruct Hl as [[[-> _] _] Hall].
  rewrite not_elem_of_cons. split; [done|]. intros Hin. rewrite forallb_forall in Hall. apply list_elem_of_In in Hin. apply Hall in Hin.
  apply orb_true_iff in Hin as [Hx|Hx]; [by apply Hu in Hx|by apply Hdg in Hx].
Qed.
(** An accepted signal can be counted so. *)
Lemma sanitized_countable raw now age s : Sanitize raw now age = Ok s →
  (124 ∉ bytes_of (fs_TransportType s)) ∧ (124 ∉ bytes_of (fs_Region s)).
Proof.
  unfold Sanitize. cbv zeta. destruct (_ || negb (regionRe _)) eqn:Hr; [discriminate|]. apply orb_false_iff in Hr as [_ Hr%negb_false_iff].
  repeat match goal with |- (if ?b then Err _ else _) = _ → _ => destruct b; [discriminate|] end.
  destruct (FieldSignal_Validate _) eqn:Hv; [|discriminate]. intros [= <-]. cbn [fs_TransportType fs_Region]. split; [|by apply regionRe_no_bar].
  unfold FieldSignal_Validate in Hv. cbn [fs_SignalID fs_NodeID fs_TransportType] in Hv. do 2 (case_bool_decide; [discriminate|]).
  destruct (TransportType_Valid (fs_TransportType raw)) eqn:Ht; [|discriminate]. unfold TransportType_Valid, one_of in Ht.
  apply bool_decide_eq_true in Ht. revert Ht. generalize (fs_TransportType raw). apply Forall_forall. apply (bool_decide_unpack _). vm_compute. exact I.
Qed.
(** What a history of the counters leaves *)
Inductive counted : Collector → Prop :=
| counted_new : counted NewCollector
| counted_ingested t r s c : 124 ∉ bytes_of t → 124 ∉ bytes_of r → counted c → counted (IncIngested t r s c)
| counted_rejected reason c : counted c → counted (IncRejected reason c)
| counted_limited c : counted c → counted (IncRateLimited c)
| counted_health n c : counted c → counted (AddHealth n c).
Lemma counted_keys c : counted c → map_Forall (λ k _, is_Some (ingested_labels k)) (co_ingested c).
Proof.
  induction 1 as [|t r s c Ht Hr _ IH|reason c _ IH|c _ IH|n c _ IH]; try done.
  apply map_Forall_insert_2; [|done]. rewrite ingested_labels_own by done. by eexists.
Qed.
Lemma writeCounter_total `{VB : !Verbs} name help vals lbl : map_Forall (λ k _, is_Some (lbl k)) vals → is_Some (writeCounter name help vals lbl).
Proof.
  intros Hv. unfold writeCounter. assert (is_Some (mapM (λ kv : string * float64, x ← lbl kv.1; Some (sample name x kv.2)) (sorted_entries vals))) as [l ->]; [|by eexists].
  apply mapM_is_Some. apply Forall_forall. intros [k v] Hkv. unfold sorted_entries in Hkv. rewrite elem_of_sort_slice, elem_of_map_to_list in Hkv.
  destruct (Hv k v Hkv) as [x Hx]. cbn. rewrite Hx. by eexists.
Qed.
(** The exposition never runs out of a key's parts. *)
Theorem Render_total `{SS : !SortSlice} `{VB : !Verbs} c aggs : counted c → is_Some (Render c aggs).
Proof.
  intros Hc. unfold Render. destruct (writeCounter_total "telemetry_signals_ingested_total" "Accepted anonymous field signals." (co_ingested c) ingested_labels) as [a ->]; [by apply counted_keys|].
  destruct (writeCounter_total "telemetry_signals_rejected_total" "Rejected field signals by reason." (co_rejected c) (λ k, Some (labels [("reason", k)]))) as [b ->].
  - intros k v _. by eexists.
  - by eexists.
Qed.
End Exposition.
