(* ===== verification/TelemetryLaws.v ===== *)
(** * Who can move the fleet: telemetry's trust boundary

    Any history of requests to the telemetry service, public and internal, and of retention runs. What
    the orchestrator is told depends on the authenticated part of the history alone, and every block it
    is told about stems from a probe event posted with the internal token. The counters a history leaves can
    always be exposed. *)
From S2P Require Import Prelude GoBytes GoText GoTime GoFloat Contracts OrchestratorPolicy.
From S2P Require Import TelemetryAggregate TelemetryIngest.

(** ** What every handler but that of probe events keeps

    A relation of the service before a request and after it, which the single accesses to the state respect *)
Create HintDb steps.
Definition steps (R : Tel → Tel → Prop) {A} (m : TelM A) : Prop := ∀ s, R s.1 (m s).2.1.
Section steps.
Context `{ord : !MapOrder} `{SS : !SortSlice} `{VB : !Verbs}.
Context (cfg : TelConfig) (decodeSignals : Z → string → (Z * string) + list FieldSignal).
Context (R : Tel → Tel → Prop) `{!PreOrder R}.
Context (Rallow : ∀ s l, R s {| t_store := t_store s; t_limiter := l; t_dedup := t_dedup s; t_metrics := t_metrics s |}).
Context (Rfresh : ∀ s d, R s {| t_store := t_store s; t_limiter := t_limiter s; t_dedup := d; t_metrics := t_metrics s |}).
Context (Rrejected : ∀ reason, steps R (tel_count (Metrics.IncRejected reason))).
Context (Rlimited : steps R (tel_count Metrics.IncRateLimited)).
Context (Ringested : ∀ raw now clean, Sanitize raw now (tc_Retention cfg) = Ok clean →
  steps R (tel_count (Metrics.IncIngested (fs_TransportType clean) (fs_Region clean) (fs_SignalType clean)))).
Context (Rwrite : ∀ sigs, steps R (tel_store (WriteSignals sigs))).
Lemma steps_ret {A} (a : A) : steps R (mret (M := M _) a).
Proof. intros s. cbn. reflexivity. Qed.
Lemma steps_fail {A} e : steps R (fail (A := A) e).
Proof. intros s. cbn. reflexivity. Qed.
Lemma steps_bind {A B} (m : TelM A) (f : A → TelM B) : steps R m → (∀ a, steps R (f a)) → steps R (m ≫= f).
Proof.
  intros Hm Hf s. specialize (Hm s). unfold mbind, M_bind. destruct (m s) as [[a|e] s']; [|done].
  etransitivity; [exact Hm|apply (Hf a s')].
Qed.
Lemma steps_now : steps R tel_now.
Proof. intros s. cbn. reflexivity. Qed.
Lemma steps_gets {A} (f : Tel * list Time → A) : steps R (gets f).
Proof. intros s. cbn. reflexivity. Qed.
Lemma steps_try {A} (m : TelM A) : steps R m → steps R (try m).
Proof. intros Hm s. specialize (Hm s). unfold try. by destruct (m s). Qed.
#[local] Hint Resolve steps_ret steps_fail steps_bind steps_now steps_gets steps_try : steps.
Lemma steps_allow token n : steps R (tel_allow token n).
Proof. apply steps_bind; [auto with steps|]. intros t s. destruct (Allow _ _ _ _). apply Rallow. Qed.
Lemma steps_fresh id : steps R (tel_fresh id).
Proof.
  unfold tel_fresh. case_bool_decide; [auto with steps|]. apply steps_bind; [auto with steps|]. intros t s. destruct (Fresh _ _ _). apply Rfresh.
Qed.
Lemma steps_signals_since t : steps R (tel_store (SignalsSince t)).
Proof. intros [[] ?]. cbn. reflexivity. Qed.
Lemma steps_health_since t : steps R (tel_store (HealthSince t)).
Proof. intros [[] ?]. cbn. reflexivity. Qed.
#[local] Hint Resolve steps_allow steps_fresh steps_signals_since steps_health_since Rrejected Rlimited Rwrite : steps.
Lemma steps_accept now raws : ∀ accepted rejected, steps R (accept cfg now raws accepted rejected).
Proof.
  induction raws as [|raw raws IH]; intros accepted rejected; simpl; [auto with steps|].
  destruct (Sanitize _ _ _) eqn:Hs; [|apply steps_bind; auto with steps]. apply steps_bind; [auto with steps|].
  intros []; apply steps_bind; eauto with steps.
Qed.
Lemma steps_HandleSignals r : steps R (HandleSignals cfg decodeSignals r).
Proof.
  unfold HandleSignals. destruct (negb _); [auto with steps|]. destruct (decodeSignals _ _) as [[]|sigs]; [auto with steps|].
  destruct (Nat.eqb _ _); [auto with steps|]. destruct (_ <? _); [auto with steps|].
  apply steps_bind; [auto with steps|]. intros l. apply steps_bind; [auto with steps|]. intros []; [|auto with steps].
  apply steps_bind; [auto with steps|]. intros now. apply steps_bind; [apply steps_accept|]. intros [acc rej].
  destruct (Nat.eqb _ _); [auto with steps|]. apply steps_bind; [auto with steps|]. intros []; auto with steps.
Qed.
Lemma steps_Aggregates : steps R (Aggregates cfg).
Proof. unfold Aggregates. auto 10 with steps. Qed.
Lemma steps_queries r : steps R (HandleAggregates cfg r) ∧ steps R (HandleRecommendations cfg r) ∧ steps R (metricsHandler cfg r).
Proof.
  pose proof steps_Aggregates. unfold HandleAggregates, HandleRecommendations, metricsHandler. split_and!.
  - destruct (negb _); [auto with steps|]. apply steps_bind; [auto with steps|]. intros []; auto with steps.
  - destruct (negb _); [auto with steps|]. apply steps_bind; [auto with steps|]. intros now.
    apply steps_bind; [auto with steps|]. intros []; [|auto with steps]. apply steps_bind; [auto with steps|]. intros []; auto with steps.
  - apply steps_bind; [auto with steps|]. intros []; [|auto with steps]. apply steps_bind; [auto with steps|]. intros c.
    destruct (Metrics.Render _ _); auto with steps.
Qed.
End steps.

Section trust.
Context `{ord : !MapOrder} `{SS : !SortSlice} `{VB : !Verbs}.
Context (cfg : TelConfig).
Context (decodeSignals : Z → string → (Z * string) + list FieldSignal).
Context (decodeHealth : Z → string → (Z * string) + list HealthEvent).
#[local] Abbreviation Router := (Router cfg decodeSignals decodeHealth).

(** A request with the clock readings made while it is handled, or a run of the retention loop *)
Inductive tel_op :=
| OpRequest (r : TelRequest) (times : list Time)
| OpPrune (before : Time).
Definition tel_step (s : Tel) (o : tel_op) : Tel :=
  match o with
  | OpRequest r times => (Router r (s, times)).2.1
  | OpPrune before => {| t_store := (Prune before (t_store s)).2; t_limiter := t_limiter s; t_dedup := t_dedup s; t_metrics := t_metrics s |}
  end.
Definition tel_run (s : Tel) (ops : list tel_op) : Tel := foldl tel_step s ops.

(** The request carries the configured token. *)
Definition authentic (r : TelRequest) : bool :=
  negb (bool_decide (tc_InternalToken cfg = "")) && HasPrefix (tq_Authorization r) "Bearer "
  && bool_decide (TrimPrefix (tq_Authorization r) "Bearer " = tc_InternalToken cfg).
Definition trusted (o : tel_op) : Prop := match o with OpRequest r _ => authentic r = true | OpPrune _ => True end.
#[export] Instance trusted_dec o : Decision (trusted o).
Proof. destruct o; apply _. Defined.

(** The part of the state recommendations are made of *)
Definition health_part (s : Tel) : list HealthEvent * Z := (ms_health (t_store s), ms_maxLen (t_store s)).
(** A computation that never touches it *)
Definition deafness (s s' : Tel) : Prop := health_part s' = health_part s.
#[local] Instance deafness_preorder : PreOrder deafness.
Proof. split; [done|]. intros s s' s'' H1 H2. unfold deafness in *. congruence. Qed.
Lemma deaf_write_signals sigs : steps deafness (tel_store (WriteSignals sigs)).
Proof. intros s. unfold tel_store, WriteSignals. by destruct (Nat.eqb _ _). Qed.
#[local] Hint Resolve steps_ret : steps.

Lemma authMiddleware_cases next r : authMiddleware cfg next r = next r ∧ authentic r = true
  ∨ authentic r = false ∧ ∃ p, authMiddleware cfg next r = mret p.
Proof.
  unfold authMiddleware, authentic. destruct (bool_decide (tc_InternalToken cfg = "")); [right; split; [done|by eexists]|].
  destruct (HasPrefix _ _); [|right; split; [done|by eexists]]. cbn [negb orb andb].
  destruct (bool_decide (TrimPrefix _ _ = _)); [by left|right; split; [done|by eexists]].
Qed.
(** All but an authenticated POST of probe events respects the relation of [steps]. *)
Lemma steps_Router R `{!PreOrder R} r :
  steps R (HandleSignals cfg decodeSignals r) →
  steps R (HandleAggregates cfg r) ∧ steps R (HandleRecommendations cfg r) ∧ steps R (metricsHandler cfg r) →
  steps R (Router r) ∨ authentic r = true ∧ Router r = HandleHealth cfg decodeHealth r ∧ tq_Path r = "/v1/health".
Proof.
  intros H4 (H1 & H2 & H3). unfold TelemetryIngest.Router.
  case_bool_decide; [left; auto with steps|]. case_bool_decide; [by left|].
  case_bool_decide as Hp; [destruct (authMiddleware_cases (HandleHealth cfg decodeHealth) r) as [[-> ?]|[? [p ->]]]; [by right|left; auto with steps]|].
  left. case_bool_decide.
  { destruct (authMiddleware_cases (HandleAggregates cfg) r) as [[-> ?]|[? [p ->]]]; auto with steps. }
  case_bool_decide.
  { destruct (authMiddleware_cases (HandleRecommendations cfg) r) as [[-> ?]|[? [p ->]]]; auto with steps. }
  case_bool_decide; [|auto with steps].
  destruct (authMiddleware_cases (metricsHandler cfg) r) as [[-> ?]|[? [p ->]]]; auto with steps.
Qed.
Lemma deaf_Router r : steps deafness (Router r) ∨ authentic r = true ∧ Router r = HandleHealth cfg decodeHealth r ∧ tq_Path r = "/v1/health".
Proof.
  apply (steps_Router deafness); [apply steps_HandleSignals|apply steps_queries]; auto using deaf_write_signals with typeclass_instances; done.
Qed.

(** ** What an authenticated POST of probe events does *)
Definition posted (r : TelRequest) : list HealthEvent :=
  match decodeHealth (maxBodyBytes cfg) (tq_Body r) with inr events => events | inl _ => [] end.
Definition push (events : list HealthEvent) (h : list HealthEvent * Z) : list HealthEvent * Z :=
  if Nat.eqb (length events) 0 then h
  else (capped h.2 (sort_Slice (λ x y, Before (he_ObservedAt x) (he_ObservedAt y)) (h.1 ++ events)), h.2).
Definition accepted_at (r : TelRequest) (times : list Time) : list HealthEvent :=
  let events := posted r in
  if negb (bool_decide (tq_Method r = "POST")) || (tc_MaxBatch cfg <? Z.of_nat (length events)) then []
  else filter (λ e, valid_event e = true) (stamp (default zero_time (head times)) <$> events).

Lemma HandleHealth_effect r s times :
  health_part (HandleHealth cfg decodeHealth r (s, times)).2.1 = push (accepted_at r times) (health_part s).
Proof.
  unfold HandleHealth, accepted_at, posted. destruct (bool_decide (tq_Method r = "POST")); [|done]. cbn [negb orb].
  destruct (decodeHealth _ _) as [[code msg]|events]; [by destruct (_ <? _)|].
  destruct events as [|e events]; [by destruct (_ <? _)|]. cbn [length Nat.eqb].
  destruct (tc_MaxBatch cfg <? Z.of_nat (S (length events))); [done|]. cbn [mbind M_bind tel_now fst snd].
  set (accepted := filter _ _). unfold mbind, M_bind, tel_now. cbn [fst snd]. change (default zero_time (head (_, times).2)) with (default zero_time (head times)).
  fold accepted. unfold push. destruct (Nat.eqb (length accepted) 0) eqn:E; [done|].
  unfold try, tel_store, WriteHealth. cbn [fst snd]. by rewrite E.
Qed.

Lemma stamp_fields t e : he_NodeID (stamp t e) = he_NodeID e ∧ he_Status (stamp t e) = he_Status e ∧
  he_BlockedFromRegions (stamp t e) = he_BlockedFromRegions e.
Proof. unfold stamp. by destruct (IsZero _). Qed.
Lemma accepted_posted r times e : e ∈ accepted_at r times →
  ∃ e0, e0 ∈ posted r ∧ he_NodeID e = he_NodeID e0 ∧ he_Status e = he_Status e0 ∧
        he_BlockedFromRegions e = he_BlockedFromRegions e0.
Proof.
  unfold accepted_at. destruct (_ || _); [by intros ?%elem_of_nil|].
  intros [_ (e0 & -> & He0)%list_elem_of_fmap]%list_elem_of_filter. exists e0. split; [done|]. apply stamp_fields.
Qed.
Lemma elem_of_push e events h : e ∈ (push events h).1 → e ∈ h.1 ∨ e ∈ events.
Proof.
  unfold push. destruct (Nat.eqb _ _); [by left|]. unfold capped. simpl. intros He.
  assert (e ∈ sort_Slice (λ x y, Before (he_ObservedAt x) (he_ObservedAt y)) (h.1 ++ events)) as Hs.
  { destruct (_ && _); [|done]. set (l := sort_Slice _ _) in *.
    rewrite <-(take_drop (length l - Z.to_nat h.2) l). apply elem_of_app. by right. }
  rewrite sort_Slice_perm in Hs. by apply elem_of_app.
Qed.

(** ** Histories *)
Lemma health_part_step s s' o : health_part s = health_part s' → health_part (tel_step s o) = health_part (tel_step s' o).
Proof.
  intros Hs. destruct o as [r times|before]; simpl.
  - destruct (deaf_Router r) as [Hd|(_ & -> & _)]; [by rewrite (Hd (s, times)), (Hd (s', times))|].
    by rewrite !HandleHealth_effect, Hs.
  - injection Hs as H1 H2. unfold health_part. simpl. by rewrite H1, H2.
Qed.
Lemma health_part_untrusted s o : ¬ trusted o → health_part (tel_step s o) = health_part s.
Proof.
  intros Ho. destruct o as [r times|]; [|by destruct Ho]. simpl.
  destruct (deaf_Router r) as [Hd|[Ha _]]; [by rewrite (Hd (s, times))|by destruct Ho].
Qed.
Lemma health_part_run ops : ∀ s s', health_part s = health_part s' →
  health_part (tel_run s ops) = health_part (tel_run s' (filter trusted ops)).
Proof.
  induction ops as [|o ops IH]; intros s s' Hs; [done|]. simpl. destruct (decide (trusted o)) as [Ho|Ho].
  - rewrite filter_cons_True by done. by apply IH, health_part_step.
  - rewrite filter_cons_False by done. apply IH. by rewrite health_part_untrusted.
Qed.

(** Every stored event was there before or was posted with the token. *)
Lemma stored_event_posted ops e : ∀ s, e ∈ ms_health (t_store (tel_run s ops)) →
  e ∈ ms_health (t_store s) ∨
  ∃ r times e0, OpRequest r times ∈ ops ∧ authentic r = true ∧ tq_Path r = "/v1/health" ∧ e0 ∈ posted r ∧
    he_NodeID e = he_NodeID e0 ∧ he_Status e = he_Status e0 ∧ he_BlockedFromRegions e = he_BlockedFromRegions e0.
Proof.
  induction ops as [|o ops IH]; intros s He; [by left|]. destruct (IH _ He) as [Hs|(r & times & e0 & Hin & Hrest)].
  2:{ right. exists r, times, e0. split; [by right|done]. }
  destruct o as [r times|before]; simpl in Hs.
  - destruct (deaf_Router r) as [Hd|(Ha & HR & Hp)].
    + pose proof (Hd (s, times)) as [= Hh _]. rewrite Hh in Hs. by left.
    + rewrite HR in Hs. change (ms_health _) with (health_part (HandleHealth cfg decodeHealth r (s, times)).2.1).1 in Hs.
      rewrite HandleHealth_effect in Hs. apply elem_of_push in Hs as [Hs|Hs]; [by left|]. right.
      destruct (accepted_posted _ _ _ Hs) as (e0 & ? & ? & ? & ?). exists r, times, e0. split; [by left|done].
  - left. apply list_elem_of_filter in Hs as [_ ?]. done.
Qed.

(** The payload of GET /v1/recommendations, read at [t] *)
Definition recommended (s : Tel) (t : Time) : Recommendations :=
  Recommend [] (filter (λ e, Before (he_ObservedAt e) (Add t (- tc_Window cfg)) = false) (ms_health (t_store s)))
    t (tc_Window cfg) (tc_Verdict cfg).
Lemma HandleRecommendations_answer r s t times : tq_Method r = "GET" → tq_Path r = "/v1/recommendations" → authentic r = true →
  (Router r (s, t :: times)).1 = Ok (tel_write 200 (TRecommendations (recommended s t))).
Proof.
  intros Hm Hp Ha. unfold TelemetryIngest.Router. rewrite Hp.
  do 4 (rewrite bool_decide_false by done). rewrite bool_decide_true by done.
  destruct (authMiddleware_cases (HandleRecommendations cfg) r) as [[-> _]|[? _]]; [|congruence].
  unfold HandleRecommendations. rewrite Hm. done.
Qed.

(** ** The counters *)
Definition counting (s s' : Tel) : Prop := Exposition.counted (t_metrics s) → Exposition.counted (t_metrics s').
#[local] Instance counting_preorder : PreOrder counting.
Proof. split; [intros s Hs; exact Hs|]. intros s s' s'' H1 H2 H. by apply H2, H1. Qed.
Lemma counting_ret {A} (a : A) : steps counting (mret (M := M _) a).
Proof. apply steps_ret, _. Qed.
#[local] Hint Resolve counting_ret : steps.
Lemma counting_write_signals sigs : steps counting (tel_store (WriteSignals sigs)).
Proof. intros s. unfold tel_store, WriteSignals. destruct (Nat.eqb _ _); exact (λ H, H). Qed.
Lemma counting_HandleHealth r : steps counting (HandleHealth cfg decodeHealth r).
Proof.
  unfold HandleHealth. destruct (negb _); [auto with steps|]. destruct (decodeHealth _ _) as [[]|events]; [auto with steps|].
  destruct (Nat.eqb _ _); [auto with steps|]. destruct (tc_MaxBatch cfg <? _); [auto with steps|].
  apply steps_bind; [apply _|intros s Hs; exact Hs|]. intros now. cbv zeta. destruct (Nat.eqb _ _); [auto with steps|].
  apply steps_bind; [apply _| |].
  - intros s. unfold try, tel_store, WriteHealth. destruct (Nat.eqb _ _); exact (λ H, H).
  - intros []; [|auto with steps]. apply steps_bind; [apply _| |auto with steps]. intros s Hs. by apply Exposition.counted_health.
Qed.
Lemma counting_Router r : steps counting (Router r).
Proof.
  destruct (steps_Router counting r) as [H|(_ & -> & _)]; [| |exact H|apply counting_HandleHealth].
  - apply steps_HandleSignals; auto using counting_write_signals with typeclass_instances.
    1, 2: intros s x H; exact H.
    + intros reason s Hs. by apply Exposition.counted_rejected.
    + intros s Hs. by apply Exposition.counted_limited.
    + intros raw now clean [Ht Hr]%Exposition.sanitized_countable s Hs. by apply Exposition.counted_ingested.
  - apply steps_queries; apply _.
Qed.
Lemma counted_run ops : ∀ s, Exposition.counted (t_metrics s) → Exposition.counted (t_metrics (tel_run s ops)).
Proof.
  induction ops as [|o ops IH]; intros s Hs; [done|]. apply IH. destruct o as [r times|before]; [|done]. by apply (counting_Router r (s, times)).
Qed.
(** After any history of requests, an authenticated GET /metrics is answered with the counters it left: no key of
    theirs, whatever the signals held, is one the exposition cannot split. *)
Theorem metrics_answer s ops r t times : Exposition.counted (t_metrics s) → tq_Path r = "/metrics" → authentic r = true →
  ∃ text aggs, (Router r (tel_run s ops, t :: times)).1 = Ok (tel_write 200 (TMetrics text)) ∧
    Metrics.Render (t_metrics (tel_run s ops)) aggs = Some text.
Proof.
  intros Hs Hp Ha. unfold TelemetryIngest.Router. rewrite Hp. do 5 (rewrite bool_decide_false by done). rewrite bool_decide_true by done.
  destruct (authMiddleware_cases (metricsHandler cfg) r) as [[-> _]|[? _]]; [|congruence].
  pose proof (counted_run ops s Hs) as Hc. unfold metricsHandler, try, Aggregates, tel_store, mbind, M_bind, gets. cbn.
  match goal with |- context [Metrics.Render _ ?a] => destruct (Exposition.Render_total _ a Hc) as [text Ht]; exists text, a end. by rewrite Ht.
Qed.

(** Anonymous data never reaches the orchestrator. Whatever requests without the internal token are mixed
    into a history of the telemetry service (field signals by the thousand, forged probe events, malformed
    bodies), the answer to an authenticated GET /v1/recommendations is the one the service gives when none of
    them was ever sent. *)
Theorem recommendations_ignore_anonymous s ops r t times :
  tq_Method r = "GET" → tq_Path r = "/v1/recommendations" → authentic r = true →
  (Router r (tel_run s ops, t :: times)).1 = (Router r (tel_run s (filter trusted ops), t :: times)).1.
Proof.
  intros Hm Hp Ha. rewrite !HandleRecommendations_answer by done. do 3 f_equal. unfold recommended.
  pose proof (health_part_run ops s s eq_refl) as [= Hh _]. by rewrite Hh.
Qed.
End trust.
