(* ===== verification/TelemetryBlocks.v ===== *)
(** * From a probe event to a block, and from a block to an action

    The node blocks telemetry recommends are exactly the blocked or unreachable verdicts of its window;
    and through the orchestrator's policy, nobody without the internal token can have a node rotated or
    replaced. *)
From S2P Require Import Prelude GoBytes GoText GoTime GoFloat GoUrl Contracts OrchestratorPolicy.
From S2P Require Import TelemetryAggregate TelemetryIngest TelemetryLaws.

(** An event that reports its node blocked, seen in the window *)
Record reports (from now : Time) (e : HealthEvent) : Prop := {
  rp_seen : from <= he_ObservedAt e <= now;
  rp_status : he_Status e = HealthBlocked ∨ he_Status e = HealthUnreachable
}.
Definition evidence (from now : Time) (health : list HealthEvent) (node region : string) : Prop :=
  region ≠ "" ∧ ∃ e, e ∈ health ∧ reports from now e ∧ he_NodeID e = node ∧ region ∈ he_BlockedFromRegions e.

(** The map of regions: exactly the nodes and regions with evidence, all authoritative. *)
Definition regions_of (b : gmap string (gmap string string) * gmap string string) (node : string) : gmap string string :=
  default ∅ (b.1 !! node).
Record blocks_ok (P : string → string → Prop) (b : gmap string (gmap string string) * gmap string string) : Prop := {
  bo_evidence : ∀ n r, is_Some (regions_of b n !! r) ↔ P n r;
  bo_confidence : ∀ n r c, regions_of b n !! r = Some c → c = ConfidenceAuthoritative;
  bo_nonempty : ∀ n regs, b.1 !! n = Some regs → regs ≠ ∅
}.

Lemma regions_of_add b node region reason n : region ≠ "" →
  regions_of (add_block node region ConfidenceAuthoritative reason b) n =
  if decide (n = node) then
    match regions_of b node !! region with
    | Some old => if bool_decide (old = ConfidenceAuthoritative) then regions_of b node
                  else <[region := ConfidenceAuthoritative]> (regions_of b node)
    | None => <[region := ConfidenceAuthoritative]> (regions_of b node)
    end
  else regions_of b n.
Proof.
  intros Hr. unfold add_block, regions_of. rewrite bool_decide_false by done. simpl. case_decide as Hn.
  - subst n. rewrite lookup_insert_eq. simpl. destruct (default ∅ (b.1 !! node) !! region) as [old|] eqn:E; [|done].
    by destruct (bool_decide (old = ConfidenceAuthoritative)).
  - by rewrite lookup_insert_ne by done.
Qed.

Lemma add_block_ok P b node region reason :
  blocks_ok P b → blocks_ok (λ n r, P n r ∨ (n = node ∧ r = region ∧ region ≠ "")) (add_block node region ConfidenceAuthoritative reason b).
Proof.
  intros [He Hc Hn]. destruct (decide (region = "")) as [->|Hr].
  { unfold add_block. rewrite bool_decide_true by done. split; [|done|done]. intros n r. rewrite He. naive_solver. }
  pose proof (λ n, regions_of_add b node region reason n Hr) as Hro. split.
  - intros n r. rewrite Hro. case_decide as Hd; [|rewrite He; naive_solver]. subst n.
    destruct (regions_of b node !! region) as [old|] eqn:E.
    + rewrite (Hc _ _ _ E), bool_decide_true by done. rewrite He. split; [by left|].
      intros [?|(_ & -> & _)]; [done|]. apply He. by eexists.
    + rewrite lookup_insert_is_Some', He. naive_solver.
  - intros n r c. rewrite Hro. case_decide as Hd; [|apply Hc]. subst n.
    destruct (regions_of b node !! region) as [old|] eqn:E.
    + rewrite (Hc _ _ _ E), bool_decide_true by done. apply Hc.
    + destruct (decide (r = region)) as [->|]; [rewrite lookup_insert_eq; congruence|rewrite lookup_insert_ne by done; apply Hc].
  - intros n regs Hl. pose proof (Hro n) as Hx. unfold regions_of at 1 in Hx. rewrite Hl in Hx. simpl in Hx.
    unfold add_block in Hl. rewrite bool_decide_false in Hl by done. simpl in Hl.
    destruct (decide (n = node)) as [->|]; [|rewrite lookup_insert_ne in Hl by done; by apply (Hn n)].
    subst regs. destruct (regions_of b node !! region) as [old|] eqn:E; [|apply insert_non_empty].
    destruct (bool_decide _); [|apply insert_non_empty]. intros Hemp. by rewrite Hemp, lookup_empty in E.
Qed.

Lemma blocks_ok_iff P Q b : (∀ n r, P n r ↔ Q n r) → blocks_ok P b → blocks_ok Q b.
Proof. intros HPQ [He Hc Hn]. split; [|done|done]. intros n r. by rewrite He, HPQ. Qed.

Lemma add_regions_ok node reason regions : ∀ P b, blocks_ok P b →
  blocks_ok (λ n r, P n r ∨ (n = node ∧ r ∈ regions ∧ r ≠ ""))
    (foldl (λ b r, add_block node r ConfidenceAuthoritative reason b) b regions).
Proof.
  induction regions as [|x regions IH]; intros P b Hb; simpl.
  { eapply blocks_ok_iff; [|exact Hb]. intros n r. rewrite elem_of_nil. naive_solver. }
  eapply blocks_ok_iff; [|apply IH, (add_block_ok P b node x reason Hb)].
  intros n r. rewrite elem_of_cons. simpl. naive_solver.
Qed.

Lemma block_event_ok from now P b e :
  blocks_ok P b →
  blocks_ok (λ n r, P n r ∨ (reports from now e ∧ he_NodeID e = n ∧ r ∈ he_BlockedFromRegions e ∧ r ≠ "")) (block_event from now b e).
Proof.
  intros Hb. unfold block_event, Before, After.
  destruct (Z.ltb_spec (he_ObservedAt e) from); [|destruct (Z.ltb_spec now (he_ObservedAt e))]; cbn [orb];
    try (eapply blocks_ok_iff; [|exact Hb]; intros n r; split; [by left|intros [?|([] & _)]; [done|lia]]).
  destruct (negb (bool_decide (he_Status e = HealthBlocked)) && negb (bool_decide (he_Status e = HealthUnreachable))) eqn:E.
  - apply andb_true_iff in E as [E1 E2]. rewrite negb_true_iff, bool_decide_eq_false in E1, E2.
    eapply blocks_ok_iff; [|exact Hb]; intros n r; split; [by left|intros [?|([_ []] & _)]; done].
  - eapply blocks_ok_iff; [|by apply add_regions_ok]. intros n r. simpl.
    assert (reports from now e) as Hrep.
    { split; [lia|]. destruct (bool_decide (he_Status e = HealthBlocked)) eqn:E1; [left; by apply bool_decide_eq_true in E1|].
      destruct (bool_decide (he_Status e = HealthUnreachable)) eqn:E2; [right; by apply bool_decide_eq_true in E2|done]. }
    naive_solver.
Qed.

Lemma fold_events_ok from now health : ∀ P b, blocks_ok P b →
  blocks_ok (λ n r, P n r ∨ evidence from now health n r) (foldl (block_event from now) b health).
Proof.
  induction health as [|e health IH]; intros P b Hb; simpl.
  - eapply blocks_ok_iff; [|exact Hb]. intros n r. split; [by left|]. intros [?|(_ & e & He & _)]; [done|]. by apply elem_of_nil in He.
  - eapply blocks_ok_iff; [|apply IH, (block_event_ok from now P b e Hb)]. intros n r. unfold evidence. simpl.
    setoid_rewrite elem_of_cons. naive_solver.
Qed.

Section recommend.
Context `{ord : !MapOrder}.

Lemma elem_of_sorted_keys {V} (m : gmap string V) k : k ∈ sorted_keys m ↔ is_Some (m !! k).
Proof.
  unfold sorted_keys. rewrite elem_of_sort_slice, list_elem_of_fmap. split.
  - intros ([k' v] & -> & Hk). apply elem_of_range in Hk. by eexists.
  - intros [v Hv]. exists (k, v). split; [done|]. by apply elem_of_range.
Qed.
Lemma NoDup_sorted_keys {V} (m : gmap string V) : NoDup (sorted_keys m).
Proof. unfold sorted_keys. rewrite sort_slice_perm. apply NoDup_fst_range. Qed.

Lemma conf_fold l (conf : string) : (∀ rc, rc ∈ l → rc.2 = ConfidenceAuthoritative) → l ≠ [] →
  foldl (λ conf (rc : string * string), if bool_decide (rc.2 = ConfidenceAuthoritative) then ConfidenceAuthoritative else conf) conf l
  = ConfidenceAuthoritative.
Proof.
  revert conf. induction l as [|rc l IH]; intros conf Hl Hne; [done|]. simpl.
  rewrite bool_decide_true by (apply Hl; by left). destruct l as [|rc' l]; [done|].
  apply IH; [|done]. intros x Hx. apply Hl. by right.
Qed.

Section window.
Context (health : list HealthEvent) (now : Time) (window : Duration).
Definition block_map := foldl (block_event (Add now (- window)) now) (∅, ∅) health.
Lemma block_map_ok : blocks_ok (evidence (Add now (- window)) now health) block_map.
Proof.
  eapply blocks_ok_iff; [|apply (fold_events_ok _ _ health (λ _ _, False))].
  - naive_solver.
  - split; unfold regions_of; simpl; intros *; rewrite !lookup_empty; [|done..]. split; [by intros []|done].
Qed.
Lemma node_block_regions n r : r ∈ nb_Regions (node_block block_map n) ↔ evidence (Add now (- window)) now health n r.
Proof. simpl. rewrite elem_of_sorted_keys. apply (bo_evidence _ _ block_map_ok). Qed.
Lemma block_map_dom n : n ∈ sorted_keys block_map.1 ↔ ∃ r, evidence (Add now (- window)) now health n r.
Proof.
  rewrite elem_of_sorted_keys. split.
  - intros [regs Hr]. destruct (map_choose regs (bo_nonempty _ _ block_map_ok _ _ Hr)) as (r & c & Hrc).
    exists r. apply (bo_evidence _ _ block_map_ok). unfold regions_of. rewrite Hr. by exists c.
  - intros [r Hr]. apply (bo_evidence _ _ block_map_ok) in Hr. unfold regions_of in Hr.
    destruct (block_map.1 !! n) as [regs|]; [by eexists|]. simpl in Hr. rewrite lookup_empty in Hr. by destruct Hr.
Qed.
Lemma node_block_authoritative n : n ∈ sorted_keys block_map.1 → nb_Confidence (node_block block_map n) = ConfidenceAuthoritative.
Proof.
  intros Hn. simpl. apply conf_fold.
  - intros [r c] Hrc. apply elem_of_range in Hrc. by apply (bo_confidence _ _ block_map_ok n r c).
  - apply block_map_dom in Hn as [r Hr]. apply (bo_evidence _ _ block_map_ok) in Hr as [c Hc].
    apply elem_of_range in Hc. intros He. unfold regions_of in Hc. rewrite He in Hc. by apply elem_of_nil in Hc.
Qed.
End window.

(** Telemetry recommends what the probes report, all of it and nothing else. For any probe events, there is
    one block per node, in the order of the node ids; it is authoritative, its regions are exactly the
    regions some event of the window reports the node blocked or unreachable from; and every such node has
    its block. *)
Theorem nodeBlocks_exact health now window :
  let from := Add now (- window) in
  let blocks := nodeBlocks health now window in
  StronglySorted (not_after str_lt) (nb_NodeID <$> blocks) ∧ NoDup (nb_NodeID <$> blocks) ∧
  (∀ b, b ∈ blocks → nb_Confidence b = RecommendationAuthoritative ∧ nb_Regions b ≠ [] ∧ NoDup (nb_Regions b) ∧
     ∀ r, r ∈ nb_Regions b ↔ evidence from now health (nb_NodeID b) r) ∧
  (∀ n r, evidence from now health n r → ∃ b, b ∈ blocks ∧ nb_NodeID b = n).
Proof.
  cbv zeta. unfold nodeBlocks. fold (block_map health now window).
  assert (nb_NodeID <$> (node_block (block_map health now window) <$> sorted_keys (block_map health now window).1)
          = sorted_keys (block_map health now window).1) as ->.
  { rewrite <-list_fmap_compose. apply list_fmap_id. }
  split_and!.
  - apply sort_slice_sorted, str_lt_weak.
  - apply NoDup_sorted_keys.
  - intros b (n & -> & Hn)%list_elem_of_fmap. split_and!.
    + by apply node_block_authoritative.
    + apply block_map_dom in Hn as [r Hr]. apply node_block_regions in Hr. intros He. rewrite He in Hr. by apply elem_of_nil in Hr.
    + apply NoDup_sorted_keys.
    + intros r. apply node_block_regions.
  - intros n r Hr. exists (node_block (block_map health now window) n). split; [|done].
    apply list_elem_of_fmap_2, block_map_dom. by exists r.
Qed.
End recommend.

Section act.
Context `{ord : !MapOrder} `{SS : !SortSlice} `{VB : !Verbs}.
Context (cfg : TelConfig).
Context (decodeSignals : Z → string → (Z * string) + list FieldSignal).
Context (decodeHealth : Z → string → (Z * string) + list HealthEvent).

(** Some holder of the token posted that [node] is blocked. *)
Definition denounced (ops : list tel_op) (node : string) : Prop := ∃ r times e,
  OpRequest r times ∈ ops ∧ authentic cfg r = true ∧ tq_Path r = "/v1/health" ∧ e ∈ posted cfg decodeHealth r ∧
  he_NodeID e = node ∧ (he_Status e = HealthBlocked ∨ he_Status e = HealthUnreachable) ∧ he_BlockedFromRegions e ≠ [].

Lemma recommended_denounced s ops t b :
  ms_health (t_store s) = [] → b ∈ rc_NodeBlocks (recommended cfg (tel_run cfg decodeSignals decodeHealth s ops) t) →
  denounced ops (nb_NodeID b).
Proof.
  intros Hs (n & -> & Hn)%list_elem_of_fmap. apply block_map_dom in Hn as (r & _ & e & He & [_ Hst] & Hid & Hr).
  apply list_elem_of_filter in He as [_ He]. apply stored_event_posted in He as [He|(rq & times & e0 & Hop & Ha & Hp & He0 & H1 & H2 & H3)].
  { rewrite Hs in He. by apply elem_of_nil in He. }
  exists rq, times, e0. split_and!; try done; [simpl; congruence|by rewrite <-H2|].
  intros Hnil. rewrite H3, Hnil in Hr. by apply elem_of_nil in Hr.
Qed.

(** C18: nobody without the internal token can move a node. Let the orchestrator plan from what the telemetry
    service answers after any history of requests. A rotation, replacement or retirement in the plan is due by
    schedule, is the end of a drain, or replaces a node that an authenticated probe event of the history
    reports blocked; and no node gets two actions. *)
Theorem only_probes_act s ops t i th :
  ms_health (t_store s) = [] →
  in_Recs i = recommended cfg (tel_run cfg decodeSignals decodeHealth s ops) t →
  (∀ a, a ∈ Plan i th → side a → denounced ops (a_NodeID a) ∨ scheduled i a ∨ drained i th a) ∧
  NoDup (a_NodeID <$> Plan i th).
Proof.
  intros Hs Hi. split.
  - intros a Ha Hside. destruct (Plan_sound i th a Ha Hside) as [(b & node & Hb)|[?|?]]; [left|by right; left|by right; right].
    destruct (bl_block _ _ _ _ _ Hb) as (Hin & _ & ->). rewrite Hi in Hin. by eapply recommended_denounced.
  - rewrite Plan_nodes. apply draft_unique. rewrite Hi. simpl. unfold nodeBlocks. rewrite <-list_fmap_compose.
    erewrite list_fmap_ext; [rewrite list_fmap_id; apply NoDup_sorted_keys|]. done.
Qed.
End act.

(** ** A concrete night: a flood of anonymous signals, one forged probe event, one genuine *)
Definition demo_config : TelConfig := {|
  tc_Window := 15 * Minute; tc_Retention := 72 * Hour; tc_MaxBatch := 10; tc_InternalToken := "s3cret";
  tc_Verdict := {| vp_MinSources := 5; vp_MinBlockedSources := 4; vp_DeadShareThresh := of_int 0; vp_MaxOKShareForDead := of_int 1;
                   vp_DegradedThresh := of_int 0; vp_SpikeDelta := of_int 0; vp_SpikeMinSources := 3 |} |}.
Definition demo_now : Time := 63922898645 * Second.
Definition demo_signal (node : string) : FieldSignal := {|
  fs_SignalID := "s1"; fs_NodeID := node; fs_TransportType := "vless-reality"; fs_TransportVersion := "v1"; fs_Region := "ru-mow";
  fs_ASN := 12389; fs_ISP := "isp"; fs_SignalType := "reset"; fs_Success := false; fs_RTTms := 0; fs_LossPct := of_int 0;
  fs_ClientVersion := "1.4.2"; fs_Platform := "ios"; fs_ObservedAt := demo_now |}.
Definition demo_event (node : string) : HealthEvent := {|
  he_NodeID := node; he_Status := HealthBlocked; he_ProbeSource := "ru-probe-1"; he_BlockedFromRegions := ["RU-MOW"];
  he_LatencyMs := 0; he_Detail := ""; he_ObservedAt := demo_now |}.
(** A body names the node it is about. *)
Definition demo_signals (max : Z) (body : string) : (Z * string) + list FieldSignal := inr [demo_signal body].
Definition demo_health (max : Z) (body : string) : (Z * string) + list HealthEvent := inr [demo_event body].
Definition demo_request (method path auth body : string) : TelRequest := {|
  tq_Method := method; tq_Path := path; tq_Authorization := auth; tq_RemoteAddr := "192.0.2.1:4711"; tq_Body := body |}.
Definition demo_ops : list tel_op := [
  OpRequest (demo_request "POST" "/v1/signals" "" "n2") [demo_now; demo_now; demo_now];
  OpRequest (demo_request "POST" "/v1/health" "Bearer guess" "n2") [demo_now];
  OpRequest (demo_request "POST" "/v1/health" "Bearer s3cret" "n1") [demo_now]].
(** Whole numbers in decimal, strings between quotes *)
#[local] Instance demo_verbs : Verbs := {|
  verb_g f := itoa (float_trunc f);
  verb_q s := quote +:+ s +:+ quote |}.
Definition demo_tel : Tel := {|
  t_store := NewMemoryStore 500000; t_limiter := NewRateLimiter 5 50 2000 5000 [1; 2; 3] demo_now;
  t_dedup := {| dd_seen := ∅; dd_ttl := 30 * Minute |}; t_metrics := Metrics.NewCollector |}.
Definition demo_node (id : string) : Node := {|
  n_ID := id; n_Role := NodeRoleEntry; n_Status := NodeStatusActive; n_EntryNodeID := None; n_Provider := "p"; n_Cloud := "c";
  n_Region := "eu"; n_EntryIP := "192.0.2.10"; n_EphemeralEntryIP := true; n_Transports := []; n_CapacityUsers := 1;
  n_RotateAfter := None; n_CreatedAt := 1; n_ExpiresAt := None; n_Labels := ∅ |}.
Definition demo_thresholds : Thresholds := {|
  th_RecommendationMaxAge := 15 * Minute; th_ProbeMaxAge := 10 * Minute; th_DrainGrace := 30 * Minute; th_MaxActionsPerCycle := 5 |}.
Definition demo_after : Tel :=
  tel_run (ord := key_order) (SS := merge_sorting) demo_config demo_signals demo_health demo_tel demo_ops.
Definition demo_input : Input := {|
  in_Now := demo_now; in_Recs := recommended (ord := key_order) demo_config demo_after demo_now;
  in_Nodes := [demo_node "n1"; demo_node "n2"]; in_Probes := ∅ |}.

Lemma only_probes_act_witness :
  (λ a, (a_Type a, a_NodeID a)) <$> Plan demo_input demo_thresholds = [(ActionRotate, "n1")] ∧
  length (ms_signals (t_store demo_after)) = 1%nat ∧ NoDup (a_NodeID <$> Plan demo_input demo_thresholds).
Proof.
  split_and!; [vm_compute; reflexivity|vm_compute; reflexivity|].
  apply (only_probes_act (ord := key_order) (SS := merge_sorting) demo_config demo_signals demo_health demo_tel demo_ops demo_now);
    reflexivity.
Defined.

Lemma recommendations_ignore_anonymous_witness :
  let q := demo_request "GET" "/v1/recommendations" "Bearer s3cret" "" in
  let history := tel_run (ord := key_order) (SS := merge_sorting) demo_config demo_signals demo_health demo_tel in
  let answer := TelemetryIngest.Router (ord := key_order) (SS := merge_sorting) demo_config demo_signals demo_health q in
  length (filter (trusted demo_config) demo_ops) = 1%nat ∧
  (answer (history demo_ops, [demo_now])).1 = (answer (history (filter (trusted demo_config) demo_ops), [demo_now])).1.
Proof.
  split; [vm_compute; reflexivity|].
  by apply (recommendations_ignore_anonymous (ord := key_order) (SS := merge_sorting) demo_config demo_signals demo_health).
Defined.
(** The one accepted signal of the history is counted, and the service exposes it. *)
Example demo_counters :
  map_to_list (Metrics.co_ingested (t_metrics demo_after)) = [("vless-reality|RU-MOW|reset", of_int 1)] ∧
  Metrics.writeCounter "c" "h" (Metrics.co_ingested (t_metrics demo_after)) Metrics.ingested_labels =
    Some ("# HELP c h" +:+ newline +:+ "# TYPE c counter" +:+ newline +:+
      "c{transport=" +:+ quote +:+ "vless-reality" +:+ quote +:+ ",region=" +:+ quote +:+ "RU-MOW" +:+ quote +:+
      ",signal_type=" +:+ quote +:+ "reset" +:+ quote +:+ "} 1" +:+ newline).
Proof. split; vm_compute; reflexivity. Qed.
(** A rejected signal's reason is sorted by what it mentions, and what it mentions may be the sender's own text. *)
Definition strange_signal : FieldSignal := {|
  fs_SignalID := "s2"; fs_NodeID := "n2"; fs_TransportType := "my region"; fs_TransportVersion := "v1"; fs_Region := "ru-mow";
  fs_ASN := 12389; fs_ISP := "isp"; fs_SignalType := "reset"; fs_Success := false; fs_RTTms := 0; fs_LossPct := of_int 0;
  fs_ClientVersion := "1.4.2"; fs_Platform := "ios"; fs_ObservedAt := demo_now |}.
Example reason_mentions :
  Sanitize strange_signal demo_now Hour = Err (Errorf "contracts: unknown transport type") ∧
  bucketReason (reject_reason strange_signal (Errorf "contracts: unknown transport type")) = "invalid_region".
Proof. split; vm_compute; reflexivity. Qed.
