(* ===== verification/OrchestratorLoop.v ===== *)
(** * The reconcile loop (services/orchestrator/internal: reconcile/reconcile.go, ports/ports.go)

    One cycle observes, plans and acts through the interfaces of ports.go: the record [Deps], over any
    environment [E]. Every call leaves an event with its outcome in a ghost trace, which the theorems
    speak about. Log lines are not modelled. *)
From S2P Require Import Prelude GoTrace GoBytes GoText GoTime GoFloat Contracts OrchestratorPolicy.

Record ProvisionedPair := { pp_RunID : string; pp_EntryID : string; pp_ExitID : string }.

(** ** ports.go: TelemetryClient, ControlPlaneClient, Provisioner, Prober and Clock *)
Record Deps (E : Type) := {
  dep_Now : E → Time * E;
  dep_Recommendations : M E Recommendations; dep_ReportHealth : HealthEvent → M E unit;
  dep_ListNodes : M E (list Node); dep_GetNode : string → M E Node; dep_UpdateNode : Node → M E Node;
  dep_AccessUsers : string → M E NodeAccessUsers;
  dep_NodeUp : string → string → M E ProvisionedPair; dep_NodeRotate : Node → M E unit; dep_NodeDown : Node → M E unit;
  dep_SyncAccess : Node → NodeAccessUsers → M E unit;
  dep_Probe : option (Node → M E HealthEvent) }.
Arguments dep_Now {E}. Arguments dep_Recommendations {E}. Arguments dep_ReportHealth {E}. Arguments dep_ListNodes {E}.
Arguments dep_GetNode {E}. Arguments dep_UpdateNode {E}. Arguments dep_AccessUsers {E}. Arguments dep_NodeUp {E}.
Arguments dep_NodeRotate {E}. Arguments dep_NodeDown {E}. Arguments dep_SyncAccess {E}. Arguments dep_Probe {E}.

(** What was called, with what, and what came of it *)
Inductive event :=
| ENow (r : result Time)
| EList (r : result (list Node))
| ERecommendations (r : result Recommendations)
| EProbe (n : Node) (r : result HealthEvent)
| EAccess (id : string) (r : result NodeAccessUsers)
| EGet (id : string) (r : result Node)
| EReport (ev : HealthEvent)
| EUpdate (n : Node) (ok : bool)
| EUp (region cloud : string) (r : result ProvisionedPair)
| ERotate (n : Node) (ok : bool)
| EDown (n : Node) (ok : bool)
| ESync (n : Node) (snapshot : NodeAccessUsers) (ok : bool).

Abbreviation LoopWorld E := (Traced E event).

Record Options := {
  op_DryRun : bool; op_Thresholds : Thresholds; op_ProbeEnabled : bool; op_DefaultRegion : string; op_DefaultCloud : string;
  op_RotationInterval : Duration; op_AccessSyncEnabled : bool }.
Record Report := { rep_Plan : list Action; rep_Executed : Z; rep_AccessSynced : Z; rep_DryRun : bool }.
Definition zero_report : Report := {| rep_Plan := []; rep_Executed := 0; rep_AccessSynced := 0; rep_DryRun := false |}.

Definition zero_node : Node := {|
  n_ID := ""; n_Role := ""; n_Status := ""; n_EntryNodeID := None; n_Provider := ""; n_Cloud := ""; n_Region := "";
  n_EntryIP := ""; n_EphemeralEntryIP := false; n_Transports := []; n_CapacityUsers := 0; n_RotateAfter := None;
  n_CreatedAt := zero_time; n_ExpiresAt := None; n_Labels := ∅ |}.
Definition with_lifecycle (status : string) (rotate : option Time) (labels : gmap string string) (n : Node) : Node := {|
  n_ID := n_ID n; n_Role := n_Role n; n_Status := status; n_EntryNodeID := n_EntryNodeID n; n_Provider := n_Provider n;
  n_Cloud := n_Cloud n; n_Region := n_Region n; n_EntryIP := n_EntryIP n; n_EphemeralEntryIP := n_EphemeralEntryIP n;
  n_Transports := n_Transports n; n_CapacityUsers := n_CapacityUsers n; n_RotateAfter := rotate;
  n_CreatedAt := n_CreatedAt n; n_ExpiresAt := n_ExpiresAt n; n_Labels := labels |}.
Definition set_status (status : string) (n : Node) : Node := with_lifecycle status (n_RotateAfter n) (n_Labels n) n.
Definition set_rotate_after (t : Time) (n : Node) : Node := with_lifecycle (n_Status n) (Some t) (n_Labels n) n.
Definition set_labels (l : gmap string string) (n : Node) : Node := with_lifecycle (n_Status n) (n_RotateAfter n) l n.

Section loop.
Context `{ord : !MapOrder} {E : Type} (deps : Deps E) (opts : Options).
Abbreviation LM := (M (LoopWorld E)).

(** The calls, each recorded *)
Definition Now : LM Time := call ENow (λ e, let '(t, e') := dep_Now deps e in (Ok t, e')).
Definition ListNodes : LM (list Node) := call EList (dep_ListNodes deps).
Definition GetNode (id : string) : LM Node := call (EGet id) (dep_GetNode deps id).
Definition UpdateNode (n : Node) : LM Node := call (λ r, EUpdate n (is_ok r)) (dep_UpdateNode deps n).
Definition AccessUsers (id : string) : LM NodeAccessUsers := call (EAccess id) (dep_AccessUsers deps id).
Definition NodeUp (region cloud : string) : LM ProvisionedPair := call (EUp region cloud) (dep_NodeUp deps region cloud).
Definition NodeRotate (n : Node) : LM unit := call (λ r, ERotate n (is_ok r)) (dep_NodeRotate deps n).
Definition NodeDown (n : Node) : LM unit := call (λ r, EDown n (is_ok r)) (dep_NodeDown deps n).
Definition SyncAccess (n : Node) (s : NodeAccessUsers) : LM unit := call (λ r, ESync n s (is_ok r)) (dep_SyncAccess deps n s).
Definition GetRecommendations : LM Recommendations := call ERecommendations (dep_Recommendations deps).
Definition ReportHealth (ev : HealthEvent) : LM unit := call (λ _, EReport ev) (dep_ReportHealth deps ev).

(** The number of synced entries comes back beside the error. *)
Fixpoint syncFleetAccess (nodes : list Node) (now : Time) (count : Z) : LM (Z * option error) :=
  match nodes with
  | [] => mret (count, None)
  | node :: nodes' =>
      if negb (bool_decide (n_Role node = NodeRoleEntry)) || negb (bool_decide (n_Status node = NodeStatusActive))
      then syncFleetAccess nodes' now count
      else
        snapshot ←! try (AccessUsers (n_ID node)) ;
        match snapshot with
        | Err e => mret (count, Some (wrap_err "reconcile: access snapshot" e))
        | Ok snapshot =>
            if negb (After (nau_ValidUntil snapshot) now) then mret (count, Some (Errorf "reconcile: access snapshot expired"))
            else
              synced ←! try (SyncAccess node snapshot) ;
              match synced with
              | Err e => mret (count, Some (wrap_err "reconcile: access sync" e))
              | Ok _ => syncFleetAccess nodes' now (count + 1)
              end
        end
  end.

Fixpoint confirm (probe : Node → M E HealthEvent) (fleet : gmap string Node) (blocks : list NodeBlock)
    (out : gmap string HealthEvent) : LM (gmap string HealthEvent) :=
  match blocks with
  | [] => mret out
  | b :: blocks' =>
      match fleet !! nb_NodeID b with
      | None => confirm probe fleet blocks' out
      | Some node =>
          if negb (bool_decide (he_NodeID (default zero_health (out !! nb_NodeID b)) = "")) then confirm probe fleet blocks' out
          else
            ev ←! try (call (EProbe node) (probe node)) ;
            match ev with
            | Err _ => confirm probe fleet blocks' out
            | Ok ev =>
                (if op_DryRun opts then mret tt else ignore (ReportHealth ev)) ;;!
                confirm probe fleet blocks' (<[nb_NodeID b := ev]> out)
            end
      end
  end.
Definition confirmSuspects (recs : Recommendations) (nodes : list Node) : LM (gmap string HealthEvent) :=
  match dep_Probe deps with
  | None => mret ∅
  | Some probe => if negb (op_ProbeEnabled opts) then mret ∅ else confirm probe (by_id nodes) (rc_NodeBlocks recs) ∅
  end.

(** The first exit paired with the entry in map order, or the exit's entry *)
Definition oldPair (node : Node) (fleet : gmap string Node) : list Node :=
  if bool_decide (n_Role node = NodeRoleEntry) then
    node :: match list_find (λ kv : string * Node, n_Role kv.2 = NodeRoleExit ∧ n_EntryNodeID kv.2 = Some (n_ID node)) (range fleet) with
            | Some (_, (_, candidate)) => [candidate]
            | None => []
            end
  else if bool_decide (n_Role node = NodeRoleExit) && ptr_set (n_EntryNodeID node) then
    node :: match fleet !! default "" (n_EntryNodeID node) with Some entry => [entry] | None => [] end
  else [node].

(** [old.Labels[k] = v] writes the map the fleet's copy of the node shares; a nil map (no labels, the
    field is omitted on the wire) is replaced for [old] alone. *)
Definition share_label (old : Node) (v : string) (fleet : gmap string Node) : gmap string Node :=
  if bool_decide (n_Labels old = ∅) then fleet
  else match fleet !! n_ID old with
       | Some n => <[n_ID old := set_labels (<[DrainStartedLabel := v]> (n_Labels n)) n]> fleet
       | None => fleet
       end.
Fixpoint drain (olds : list Node) (now : Time) (fleet : gmap string Node) : LM (gmap string Node) :=
  match olds with
  | [] => mret fleet
  | old :: olds' =>
      let draining := set_labels (<[DrainStartedLabel := rfc3339 now]> (n_Labels old)) (set_status NodeStatusDraining old) in
      wrapping "replacement active but failed to drain old node" (UpdateNode draining) ;;!
      drain olds' now (share_label old (rfc3339 now) fleet)
  end.

(** [if err != nil || n.Status != active { return fmt.Errorf(...) }] without %w *)
Definition require_active (msg id : string) : LM Node :=
  n ←! try (GetNode id) ;
  match n with
  | Err _ => fail (Errorf msg)
  | Ok n => if bool_decide (n_Status n = NodeStatusActive) then mret n else fail (Errorf msg)
  end.

Definition execute (a : Action) (node : Node) (fleet : gmap string Node) (now : Time) : LM (gmap string Node) :=
  if bool_decide (a_Type a = ActionMarkDegraded) then
    UpdateNode (set_status NodeStatusDegraded node) ;;! mret fleet
  else if bool_decide (a_Type a = ActionRotate) then
    NodeRotate node ;;!
    after ←! wrapping "rotate succeeded but verification failed" (GetNode (a_NodeID a)) ;
    if bool_decide (n_EntryIP after = n_EntryIP node) then fail (Errorf "rotate returned without changing entry_ip in control-plane")
    else if negb (bool_decide (n_Status after = NodeStatusActive)) then fail (Errorf "rotate returned before guarded activation")
    else
      let interval := if op_RotationInterval opts <=? 0 then 24 * Hour else op_RotationInterval opts in
      UpdateNode (set_rotate_after (Add now interval) after) ;;! mret fleet
  else if bool_decide (a_Type a = ActionReplace) then
    let region := if bool_decide (n_Region node = "") then op_DefaultRegion opts else n_Region node in
    let cloud := if bool_decide (n_Cloud node = "") then op_DefaultCloud opts else n_Cloud node in
    pair ←! NodeUp region cloud ;
    require_active "replacement entry not active" (pp_EntryID pair) ;;!
    require_active "replacement exit not active" (pp_ExitID pair) ;;!
    drain (oldPair node fleet) now fleet
  else if bool_decide (a_Type a = ActionRetire) then
    NodeDown node ;;!
    after ←! try (GetNode (a_NodeID a)) ;
    match after with
    | Err _ => mret fleet
    | Ok after =>
        if bool_decide (n_Status after = NodeStatusRetired) then mret fleet
        else wrapping "node down succeeded but retire mark failed" (UpdateNode (set_status NodeStatusRetired after)) ;;! mret fleet
    end
  else fail (Errorf "unknown action").

(** The rest of the plan, stopping at the first failure; the number executed so far comes back either way. *)
Fixpoint act (plan : list Action) (fleet : gmap string Node) (now : Time) (executed : Z) : LM (Z * option error) :=
  match plan with
  | [] => mret (executed, None)
  | a :: plan' =>
      if bool_decide (a_Type a = ActionNoop) then act plan' fleet now executed
      else
        r ←! try (execute a (default zero_node (fleet !! a_NodeID a)) fleet now) ;
        match r with
        | Err e => mret (executed, Some (wrap_err "reconcile: stopping this cycle" e))
        | Ok fleet' =>
            act plan' fleet' now (if bool_decide (a_Type a = ActionMarkDegraded) then executed else executed + 1)
        end
  end.

Definition Cycle : LM (Report * option error) :=
  now ←! Now ;
  listed ←! try ListNodes ;
  match listed with
  | Err e => mret (zero_report, Some (wrap_err "reconcile: fleet state unavailable" e))
  | Ok nodes =>
      synced ←! (if negb (op_DryRun opts) && op_AccessSyncEnabled opts then syncFleetAccess nodes now 0 else mret (0, None)) ;
      let '(count, err) := synced in
      let rep plan executed := {| rep_Plan := plan; rep_Executed := executed; rep_AccessSynced := count; rep_DryRun := op_DryRun opts |} in
      match err with
      | Some e => mret (rep [] 0, Some e)
      | None =>
          recs ←! try GetRecommendations ;
          let recs := match recs with Ok r => r | Err _ => zero_recommendations end in
          probes ←! confirmSuspects recs nodes ;
          let plan := Plan {| in_Now := now; in_Recs := recs; in_Nodes := nodes; in_Probes := probes |} (op_Thresholds opts) in
          if op_DryRun opts then mret (rep plan 0, None)
          else
            done ←! act plan (by_id nodes) now 0 ;
            let '(executed, err) := done in
            mret (rep plan executed, err)
      end
  end.
End loop.
