(* ===== verification/OrchestratorSafety.v ===== *)
(** * What one reconcile cycle can do

    Over any environment, however it answers and fails: a small logic of traces over the loop's monad,
    and the safety of the cycle it gives. *)
From S2P Require Import Prelude GoTrace GoBytes GoText GoTime GoFloat Contracts OrchestratorPolicy OrchestratorLoop.

(** ** The events of observing *)
Definition lifecycle (c : event) : Prop := match c with EUp _ _ _ | ERotate _ _ | EDown _ _ => True | _ => False end.
#[export] Instance lifecycle_dec c : Decision (lifecycle c).
Proof. destruct c; apply _. Defined.
Definition is_read (c : event) : Prop :=
  match c with ENow _ | EList _ | ERecommendations _ | EProbe _ _ | EAccess _ _ => True | _ => False end.
Definition reporting (c : event) : Prop := match c with EReport _ => True | _ => is_read c end.
Definition observing (c : event) : Prop := match c with EReport _ | ESync _ _ _ => True | _ => is_read c end.

Section observe.
Context {E : Type} (deps : Deps E) (opts : Options).

Lemma emits_sync nodes now : ∀ count, emits (syncFleetAccess deps nodes now count) (all_events observing).
Proof.
  induction nodes as [|n nodes IH]; intros count; simpl; [auto with trace|].
  destruct (_ || _); [apply IH|]. apply emits_all_bind; [apply emits_all_try, emits_all_call; done|].
  intros [s|e]; [|auto with trace]. destruct (negb _); [auto with trace|].
  apply emits_all_bind; [apply emits_all_try, emits_all_call; done|]. intros []; [apply IH|auto with trace].
Qed.
Lemma emits_confirm probe fleet blocks : ∀ out,
  emits (confirm deps opts probe fleet blocks out) (all_events (λ c, if op_DryRun opts then is_read c else reporting c)).
Proof.
  induction blocks as [|b blocks IH]; intros out; simpl; [auto with trace|].
  destruct (fleet !! nb_NodeID b) as [node|]; [|apply IH]. destruct (negb _); [apply IH|].
  apply emits_all_bind; [apply emits_all_try, emits_all_call; by destruct (op_DryRun opts)|]. intros [ev|e]; [|apply IH].
  apply emits_all_bind; [|intros _; apply IH]. destruct (op_DryRun opts); [auto with trace|].
  by apply emits_all_ignore, emits_all_call.
Qed.
Lemma emits_confirmSuspects recs nodes :
  emits (confirmSuspects deps opts recs nodes) (all_events (λ c, if op_DryRun opts then is_read c else reporting c)).
Proof.
  unfold confirmSuspects. destruct (dep_Probe deps) as [probe|]; [|auto with trace].
  destruct (negb _); [auto with trace|]. apply emits_confirm.
Qed.
End observe.

(** ** The events of acting *)
Definition draining_update (c : event) : Prop :=
  match c with EUpdate n _ => n_Status n = NodeStatusDraining | _ => False end.
#[export] Instance draining_update_dec c : Decision (draining_update c).
Proof. destruct c; apply _. Defined.
(** Where the replacement of a node is provisioned *)
Definition region_of (opts : Options) (node : Node) : string := if bool_decide (n_Region node = "") then op_DefaultRegion opts else n_Region node.
Definition cloud_of (opts : Options) (node : Node) : string := if bool_decide (n_Cloud node = "") then op_DefaultCloud opts else n_Cloud node.
(** A pair of nodes provisioned where the replaced node is, both seen active *)
Definition prepared (opts : Options) (node : Node) (u : list event) : Prop := ∃ pair entry exit,
  u = [EUp (region_of opts node) (cloud_of opts node) (Ok pair); EGet (pp_EntryID pair) (Ok entry); EGet (pp_ExitID pair) (Ok exit)] ∧
  n_Status entry = NodeStatusActive ∧ n_Status exit = NodeStatusActive.
(** [n] is the node [old] set to drain since [now], whatever its other labels *)
Definition drained_form (now : Time) (old n : Node) : Prop :=
  set_labels ∅ n = set_labels ∅ (set_status NodeStatusDraining old) ∧ n_Labels n !! DrainStartedLabel = Some (rfc3339 now).
(** The other node of a pair, as [oldPair] finds it *)
Definition peers (fleet : gmap string Node) (node peer : Node) : Prop :=
  (n_Role node = NodeRoleEntry ∧ n_Role peer = NodeRoleExit ∧ n_EntryNodeID peer = Some (n_ID node) ∧ ∃ id, fleet !! id = Some peer) ∨
  (n_Role node = NodeRoleExit ∧ ∃ id, n_EntryNodeID node = Some id ∧ fleet !! id = Some peer).
(** What immediately precedes an update that sets [n] to drain, when [node] is being replaced: its prepared pair if
    [n] is the node itself; the pair and the node's own update if [n] is its peer *)
Definition replaced (opts : Options) (now : Time) (fleet : gmap string Node) (node : Node) (v : list event) (n : Node) : Prop := ∃ u, prepared opts node u ∧
  (v = u ∧ drained_form now node n ∨
   ∃ n1 peer, v = u ++ [EUpdate n1 true] ∧ drained_form now node n1 ∧ peers fleet node peer ∧ drained_form now peer n).
Definition safe_drain (P : list event → Node → Prop) (t : list event) : Prop := ∀ t1 n ok t2, t = t1 ++ EUpdate n ok :: t2 →
  n_Status n = NodeStatusDraining → ∃ u0 v, t1 = u0 ++ v ∧ P v n.
(** What an action may do to the fleet, and to which node *)
Definition acts_for (a : Action) (node : Node) (c : event) : Prop :=
  match c with
  | ERotate n _ => a_Type a = ActionRotate ∧ n = node
  | EDown n _ => a_Type a = ActionRetire ∧ n = node
  | EUp _ _ _ => a_Type a = ActionReplace
  | _ => True
  end.
Definition lifecycles (t : list event) : Z := Z.of_nat (length (filter lifecycle t)).

Lemma safe_drain_none P t : Forall (λ c, ¬ draining_update c) t → safe_drain P t.
Proof. intros Ht t1 n ok t2 -> Hc. apply Forall_app in Ht as [_ Ht]. by apply Forall_cons in Ht as [[] _]. Qed.
Lemma safe_drain_mono (P Q : list event → Node → Prop) t : (∀ v n, P v n → Q v n) → safe_drain P t → safe_drain Q t.
Proof. intros HPQ H t1 n ok t2 Ht Hc. destruct (H t1 n ok t2 Ht Hc) as (u0 & v & ? & ?). exists u0, v. auto. Qed.
Lemma safe_drain_app P t t' : safe_drain P t → safe_drain P t' → safe_drain P (t ++ t').
Proof.
  intros H H' t1 n ok t2 Ht Hc. apply app_eq_inv in Ht as [(k & -> & Hk)|(k & -> & Hk)].
  - destruct k as [|c' k]; simpl in Hk.
    + destruct (H' [] n ok t2) as (u0 & v & He & Hv); [done..|]. symmetry in He. apply app_eq_nil in He as [-> ->].
      exists t1, []. by rewrite app_nil_r.
    + injection Hk as <- ->. by apply (H t1 n ok k).
  - destruct (H' k n ok t2) as (u0 & v & -> & ?); [done..|]. exists (t ++ u0), v. by rewrite <-app_assoc.
Qed.
(** The updates of a drain: each succeeds but for the last *)
Fixpoint drain_trace (now : Time) (olds : list Node) (t : list event) : Prop :=
  match olds with
  | [] => t = []
  | old :: olds' => ∃ n ok t', t = EUpdate n ok :: t' ∧ drained_form now old n ∧ if ok then drain_trace now olds' t' else t' = []
  end.
Lemma drain_trace_draining now olds : ∀ t, drain_trace now olds t → Forall draining_update t.
Proof.
  induction olds as [|old olds IH]; intros t Ht; simpl in Ht; [by subst t|].
  destruct Ht as (n & ok & t' & -> & Hn & Ht). constructor; [simpl; by injection (proj1 Hn)|]. destruct ok; [by apply IH|by subst t'].
Qed.
Lemma app_singleton_inv {A} (l : list A) x l' y l2 : l = [y] → l = l' ++ x :: l2 → l' = [] ∧ x = y ∧ l2 = [].
Proof. intros -> He. destruct l' as [|? [|]]; by simplify_eq/=. Qed.
(** A prepared pair, then the node, then the peer it has *)
Lemma safe_drain_prepared opts now fleet node peer u v : prepared opts node u →
  (∀ x, peer = Some x → peers fleet node x) → drain_trace now (node :: option_list peer) v →
  safe_drain (replaced opts now fleet node) (u ++ v).
Proof.
  intros Hu Hpeer (n & ok & v' & -> & Hn & Hv) t1 n0 ok0 t2 Ht Hc. apply app_eq_inv in Ht as [(k & -> & Hk)|(k & -> & Hk)].
  - destruct k as [|c k]; simpl in Hk.
    + injection Hk as <- <- <-. exists [], t1. rewrite app_nil_r in Hu. split; [done|]. exists t1. auto.
    + injection Hk as <- _. exfalso. destruct Hu as (? & ? & ? & Hu & _). destruct t1 as [|? [|? [|? [|]]]]; simplify_eq/=; done.
  - destruct k as [|c k]; simpl in Hk; [injection Hk as <- <- <-; exists [], u; rewrite app_nil_r; split; [done|]; exists u; auto|].
    injection Hk as <- Hk. destruct ok; [|subst v'; by destruct k]. destruct peer as [x|]; simpl in Hv; [|subst v'; by destruct k].
    destruct Hv as (n1 & ok1 & v1 & -> & Hn1 & Hv). assert (v1 = []) as -> by (by destruct ok1).
    destruct (app_singleton_inv _ _ _ _ _ eq_refl Hk) as (-> & [= -> ->] & ->).
    exists [], (u ++ [EUpdate n true]). split; [done|]. exists u. split; [done|]. right. exists n, x. auto.
Qed.

Lemma lifecycles_app t t' : lifecycles (t ++ t') = lifecycles t + lifecycles t'.
Proof. unfold lifecycles. rewrite filter_app, length_app. lia. Qed.
Lemma lifecycles_none t : Forall (λ c, ¬ lifecycle c) t → lifecycles t = 0.
Proof. unfold lifecycles. induction 1 as [|c t Hc Ht IH]; [done|]. by rewrite filter_cons_False. Qed.

Section acting.
Context `{ord : !MapOrder} {E : Type} (deps : Deps E) (opts : Options).

(** The shape of an action's trace *)
Record proper (now : Time) (fleet : gmap string Node) (a : Action) (node : Node) (t : list event) : Prop := {
  pr_count : lifecycles t <= (if sideEffecting (a_Type a) then 1 else 0);
  pr_acts : Forall (acts_for a node) t;
  pr_drain : safe_drain (λ v n, a_Type a = ActionReplace ∧ replaced opts now fleet node v n) t
}.
(** An update that is no drain *)
Definition settling (c : event) : Prop := ¬ draining_update c ∧ ¬ lifecycle c ∧ match c with EGet _ _ | EUpdate _ _ => True | _ => False end.
Lemma settling_get id r : settling (EGet id r).
Proof. unfold settling. naive_solver. Qed.
Lemma settling_update n ok : n_Status n ≠ NodeStatusDraining → settling (EUpdate n ok).
Proof. intros Hn. split_and!; [done|by intros []|done]. Qed.
Lemma proper_head now fleet a node c t :
  (lifecycle c → sideEffecting (a_Type a) = true) → acts_for a node c → ¬ draining_update c → Forall settling t → proper now fleet a node (c :: t).
Proof.
  intros Hl Ha Hd Ht. split.
  - change (c :: t) with ([c] ++ t). rewrite lifecycles_app, (lifecycles_none t).
    + unfold lifecycles. rewrite filter_cons. destruct (decide (lifecycle c)) as [Hc|]; simpl; [rewrite (Hl Hc); lia|].
      destruct (sideEffecting _); lia.
    + eapply Forall_impl; [exact Ht|]. by intros x (_ & ? & _).
  - constructor; [done|]. eapply Forall_impl; [exact Ht|]. intros [] (_ & Hn & Hk); simpl in *; try done; destruct Hn; done.
  - apply safe_drain_none. constructor; [done|]. eapply Forall_impl; [exact Ht|]. by intros x (? & _).
Qed.

Lemma emits_drain olds now : ∀ fleet, emits (drain deps olds now fleet) (λ t _, drain_trace now olds t).
Proof.
  induction olds as [|old olds IH]; intros fleet; simpl; [eapply emits_mono; [apply emits_ret|by intros t r [-> _]]|].
  eapply emits_bind; [apply emits_wrapping, emits_call|intros x; apply IH| |].
  - intros t e [e0 ->]. do 3 eexists. split; [done|]. split; [split; [done|apply lookup_insert_eq]|done].
  - intros t1 t2 x r -> Ht. do 3 eexists. split; [done|]. split; [split; [done|apply lookup_insert_eq]|done].
Qed.
(** [oldPair] is the node and at most its peer. *)
Lemma oldPair_shape node fleet : ∃ peer, oldPair node fleet = node :: option_list peer ∧ ∀ x, peer = Some x → peers fleet node x.
Proof.
  unfold oldPair. case_bool_decide as He; [|case_bool_decide as Hx; [destruct (n_EntryNodeID node) as [id|] eqn:Ep|]]; simpl.
  - destruct (list_find _ _) as [[k [key x]]|] eqn:Hf; [|by exists None]. exists (Some x). split; [done|]. intros y [= <-].
    apply list_find_Some in Hf as (Hin & [Hrole Hent] & _). left. split_and!; [done..|]. exists key.
    apply elem_of_range. by apply list_elem_of_lookup_2 in Hin.
  - destruct (negb _); [|by exists None]. destruct (fleet !! id) as [x|] eqn:Hl; [|by exists None]. exists (Some x). split; [done|]. intros y [= <-]. right. eauto.
  - by exists None.
  - by exists None.
Qed.
Lemma emits_require msg id :
  emits (require_active deps msg id) (λ t r, ∃ r0, t = [EGet id r0] ∧ ∀ n, r = Ok n → r0 = Ok n ∧ n_Status n = NodeStatusActive).
Proof.
  unfold require_active. eapply emits_bind; [apply emits_try, emits_call|intros r; apply (emits_mono _ (λ t r', t = [] ∧ ∀ n, r' = Ok n → r = Ok n ∧ n_Status n = NodeStatusActive))| |].
  - destruct r as [n|e]; [|eapply emits_mono; [apply emits_fail|by intros t r [-> ->]]].
    destruct (bool_decide (n_Status n = NodeStatusActive)) eqn:Es; [|eapply emits_mono; [apply emits_fail|by intros t r [-> ->]]].
    apply bool_decide_eq_true in Es. eapply emits_mono; [apply emits_ret|]. intros t r [-> ->]. split; [done|]. intros n' [= <-]. done.
  - intros t r' Hr. exact Hr.
  - intros t e (r0 & ? & _). done.
  - intros t1 t2 r r' (r0 & [= ->] & ->) [-> Hr]. exists r0. by rewrite app_nil_r.
Qed.

(** Calls of which the first touches the infrastructure and the others settle the registry *)
Lemma emits_head {A B} now fleet a node (f : result A → event) (m : M E A) (k : A → M (LoopWorld E) B) :
  (∀ r, (lifecycle (f r) → sideEffecting (a_Type a) = true) ∧ acts_for a node (f r) ∧ ¬ draining_update (f r)) →
  (∀ x, emits (k x) (all_events settling)) →
  emits (call f m ≫= k) (λ t _, proper now fleet a node t).
Proof.
  intros Hf Hk. eapply emits_bind; [apply emits_call|exact Hk| |].
  - intros t e ->. destruct (Hf (Err e)) as (? & ? & ?). by apply proper_head.
  - intros t1 t2 x r -> Ht. destruct (Hf (Ok x)) as (? & ? & ?). by apply proper_head.
Qed.

(** Replacing: the pair first, then the drains *)
Lemma emits_replace a node now fleet :
  a_Type a = ActionReplace →
  emits (pair ←! NodeUp deps (region_of opts node) (cloud_of opts node) ;
         require_active deps "replacement entry not active" (pp_EntryID pair) ;;!
         require_active deps "replacement exit not active" (pp_ExitID pair) ;;!
         drain deps (oldPair node fleet) now fleet) (λ t _, proper now fleet a node t).
Proof.
  intros Ha. assert (sideEffecting (a_Type a) = true) as Hs by (by rewrite Ha).
  set (after_pair := λ (pair : ProvisionedPair) (t : list event), ∃ g v, t = g ++ v ∧ Forall settling g ∧ Forall draining_update v ∧
     (v = [] ∨ drain_trace now (oldPair node fleet) v ∧ ∃ e x, g = [EGet (pp_EntryID pair) (Ok e); EGet (pp_ExitID pair) (Ok x)] ∧
               n_Status e = NodeStatusActive ∧ n_Status x = NodeStatusActive)).
  eapply emits_bind; [apply emits_call|intros pair; apply (emits_mono _ (λ t _, after_pair pair t))| |].
  - eapply emits_bind; [apply emits_require|intros e; apply (emits_mono _ (λ t (_ : result (gmap string Node)), ∃ r0 v, t = EGet (pp_ExitID pair) r0 :: v ∧
      (v = [] ∨ drain_trace now (oldPair node fleet) v ∧ ∃ x, r0 = Ok x ∧ n_Status x = NodeStatusActive)))| |].
    + eapply emits_bind; [apply emits_require|intros x; apply emits_drain| |].
      * intros t e0 (r0 & -> & _). exists r0, []. auto.
      * intros t1 t2 x r (r0 & -> & Hr) Hv. destruct (Hr x eq_refl) as [-> Hx]. exists (Ok x), t2. eauto 8.
    + intros t r Hr. exact Hr.
    + intros t e (r0 & -> & _). exists [EGet (pp_EntryID pair) r0], []. split_and!; [done| |constructor|by left].
      repeat constructor; apply settling_get.
    + intros t1 t2 e r (r0 & -> & Hr) (r1 & v & -> & Hx). destruct (Hr e eq_refl) as [-> He].
      exists [EGet (pp_EntryID pair) (Ok e); EGet (pp_ExitID pair) r1], v. split_and!; [done| |by destruct Hx as [->|[?%drain_trace_draining _]]|].
      * repeat constructor; apply settling_get.
      * destruct Hx as [->|(Hv & x & -> & Hx)]; [by left|right; split; [done|eauto 8]].
  - intros t r Hr. exact Hr.
  - intros t e ->. apply proper_head; [done|done|by intros []|constructor].
  - intros t1 t2 pair r -> (g & v & -> & Hg & Hv & Hp).
    destruct (proper_head now fleet a node (EUp (region_of opts node) (cloud_of opts node) (Ok pair)) g) as [Hc Hacts Hd]; [done|done|by intros []|done|].
    assert (Forall (λ c, ¬ lifecycle c ∧ acts_for a node c) v) as Hv'.
    { eapply Forall_impl; [exact Hv|]. intros []; simpl; naive_solver. }
    rewrite app_assoc. change ([EUp (region_of opts node) (cloud_of opts node) (Ok pair)] ++ g) with (EUp (region_of opts node) (cloud_of opts node) (Ok pair) :: g). split.
    + rewrite lifecycles_app, (lifecycles_none v); [lia|]. eapply Forall_impl; [exact Hv'|]. by intros c [].
    + apply Forall_app. split; [done|]. eapply Forall_impl; [exact Hv'|]. by intros c [].
    + destruct Hp as [->|(Hdt & e & x & -> & He & Hx)]; [by rewrite app_nil_r|].
      destruct (oldPair_shape node fleet) as (peer & Hold & Hpeer). rewrite Hold in Hdt.
      eapply safe_drain_mono, (safe_drain_prepared opts now fleet node peer); [|by exists pair, e, x|done..]. auto.
Qed.

Lemma emits_execute a node fleet now : emits (execute deps opts a node fleet now) (λ t _, proper now fleet a node t).
Proof.
  unfold execute. destruct (bool_decide (a_Type a = ActionMarkDegraded)) eqn:E1.
  { apply emits_head; [intros r; split_and!; [by intros []|done|done]|]. intros _. apply emits_all_ret. }
  destruct (bool_decide (a_Type a = ActionRotate)) eqn:E2.
  { apply bool_decide_eq_true in E2. apply emits_head; [intros r; split_and!; [by rewrite E2|done|by intros []]|]. intros _.
    apply emits_all_bind; [apply emits_all_wrapping, emits_all_call; intros r; apply settling_get|]. intros after.
    destruct (bool_decide (n_EntryIP after = _)); [apply emits_all_fail|].
    destruct (bool_decide (n_Status after = NodeStatusActive)) eqn:Es; [|apply emits_all_fail]. apply bool_decide_eq_true in Es.
    apply emits_all_bind; [|intros _; apply emits_all_ret]. apply emits_all_call. intros r. apply settling_update. simpl. by rewrite Es. }
  destruct (bool_decide (a_Type a = ActionReplace)) eqn:E3.
  { apply bool_decide_eq_true in E3. by apply emits_replace. }
  destruct (bool_decide (a_Type a = ActionRetire)) eqn:E4.
  { apply bool_decide_eq_true in E4. apply emits_head; [intros r; split_and!; [by rewrite E4|done|by intros []]|]. intros _.
    apply emits_all_bind; [apply emits_all_try, emits_all_call; intros r; apply settling_get|]. intros [after|e]; [|apply emits_all_ret].
    destruct (bool_decide (n_Status after = NodeStatusRetired)); [apply emits_all_ret|].
    apply emits_all_bind; [|intros _; apply emits_all_ret]. apply emits_all_wrapping, emits_all_call.
    intros r. by apply settling_update. }
  eapply emits_mono; [apply emits_fail|]. intros t r [-> _].
  split; [unfold lifecycles; simpl; destruct (sideEffecting _); lia|constructor|by apply safe_drain_none].
Qed.
End acting.

(** ** The first failure is the last call *)
Definition failed (c : event) : Prop :=
  match c with
  | EUpdate _ ok | ERotate _ ok | EDown _ ok | ESync _ _ ok => ok = false
  | EUp _ _ r => is_ok r = false
  | _ => False
  end.
Definition halts_if (stop : Prop) (t : list event) : Prop := ∃ u v,
  t = u ++ v ∧ Forall (λ c, ¬ failed c) u ∧ (v = [] ∨ stop ∧ ∃ c, v = [c]).
Definition halts {A} (t : list event) (r : result A) : Prop := halts_if (∃ e, r = Err e) t.

Lemma halts_if_mono (P Q : Prop) t : (P → Q) → halts_if P t → halts_if Q t.
Proof. intros HPQ (u & v & Ht & Hu & Hv). exists u, v. naive_solver. Qed.
Lemma halts_if_none P t : Forall (λ c, ¬ failed c) t → halts_if P t.
Proof. intros Ht. exists t, []. rewrite app_nil_r. auto. Qed.
Lemma halts_if_app (P Q : Prop) t1 t2 : ¬ P → halts_if P t1 → halts_if Q t2 → halts_if Q (t1 ++ t2).
Proof.
  intros HP (u1 & v1 & -> & Hu1 & [->|[? _]]) (u2 & v2 & -> & Hu2 & Hv2); [|done].
  exists (u1 ++ u2), v2. rewrite app_nil_r, app_assoc. split_and!; [done|by apply Forall_app|done].
Qed.
Lemma ok_not_err {A} (x : A) : ¬ ∃ e, Ok x = Err e.
Proof. by intros [? ?]. Qed.

Section halting.
Context {E : Type}.
Lemma emits_halts_bind {A B} (m : M (LoopWorld E) A) (f : A → M (LoopWorld E) B) :
  emits m halts → (∀ a, emits (f a) halts) → emits (m ≫= f) halts.
Proof.
  intros Hm Hf. apply (emits_bind m f _ _ _ Hm Hf).
  - intros t e. apply halts_if_mono. intros _. by eexists.
  - intros t1 t2 a r. apply halts_if_app, ok_not_err.
Qed.
Lemma emits_halts_all {A} (m : M (LoopWorld E) A) : emits m (all_events (λ c, ¬ failed c)) → emits m halts.
Proof. intros Hm. eapply emits_mono; [exact Hm|]. intros t r. apply halts_if_none. Qed.
Lemma emits_halts_call {A} (f : result A → event) (m : M E A) : (∀ x, ¬ failed (f (Ok x))) → emits (call f m) halts.
Proof.
  intros Hf. eapply emits_mono; [apply emits_call|]. intros t [x|e] ->.
  - apply halts_if_none. by repeat constructor.
  - exists [], [f (Err e)]. split_and!; [done|constructor|]. right. split; by eexists.
Qed.
Lemma emits_halts_wrapping {A} msg (m : M (LoopWorld E) A) : emits m halts → emits (wrapping msg m) halts.
Proof.
  intros Hm. eapply emits_mono; [by apply emits_wrapping|]. intros t [x|e]; [done|]. intros [e0 He].
  eapply halts_if_mono; [|exact He]. by eexists.
Qed.

Context `{ord : !MapOrder} (deps : Deps E) (opts : Options).
#[local] Hint Resolve emits_halts_all emits_halts_call emits_halts_wrapping emits_halts_bind : trace.
Lemma emits_halts_drain olds now : ∀ fleet, emits (drain deps olds now fleet) halts.
Proof.
  induction olds as [|old olds IH]; intros fleet; simpl; [auto with trace|].
  apply emits_halts_bind; [|intros _; apply IH]. apply emits_halts_wrapping, emits_halts_call. by intros x.
Qed.
Lemma emits_halts_require msg id : emits (require_active deps msg id) halts.
Proof.
  apply emits_halts_all. unfold require_active. apply emits_all_bind; [apply emits_all_try, emits_all_call; by intros r []|].
  intros [n|e]; [destruct (bool_decide _)|]; auto with trace.
Qed.
Lemma emits_halts_get id : emits (GetNode deps id) halts.
Proof. apply emits_halts_all, emits_all_call. by intros r []. Qed.
Lemma emits_halts_update n : emits (UpdateNode deps n) halts.
Proof. apply emits_halts_call. by intros x. Qed.

Lemma emits_halts_execute a node fleet now : emits (execute deps opts a node fleet now) halts.
Proof.
  unfold execute. destruct (bool_decide (a_Type a = ActionMarkDegraded)).
  { apply emits_halts_bind; [apply emits_halts_update|auto with trace]. }
  destruct (bool_decide (a_Type a = ActionRotate)).
  { apply emits_halts_bind; [apply emits_halts_call; by intros x|]. intros _.
    apply emits_halts_bind; [apply emits_halts_wrapping, emits_halts_get|]. intros after.
    destruct (bool_decide _); [auto with trace|]. destruct (negb _); [auto with trace|].
    apply emits_halts_bind; [apply emits_halts_update|auto with trace]. }
  destruct (bool_decide (a_Type a = ActionReplace)).
  { apply emits_halts_bind; [apply emits_halts_call; by intros x|]. intros pair.
    apply emits_halts_bind; [apply emits_halts_require|]. intros _.
    apply emits_halts_bind; [apply emits_halts_require|]. intros _. apply emits_halts_drain. }
  destruct (bool_decide (a_Type a = ActionRetire)); [|auto with trace].
  apply emits_halts_bind; [apply emits_halts_call; by intros x|]. intros _.
  apply emits_halts_bind; [apply emits_halts_all, emits_all_try, emits_all_call; by intros r []|]. intros [after|e]; [|auto with trace].
  destruct (bool_decide _); [auto with trace|].
  apply emits_halts_bind; [apply emits_halts_wrapping, emits_halts_update|auto with trace].
Qed.
End halting.

(** ** Acting on a plan *)
Section returns.
Context {E : Type}.
Abbreviation LM := (M (LoopWorld E)).
Definition returns {A} (m : LM A) (Q : A → Prop) : Prop := ∀ w x, (m w).1 = Ok x → Q x.
Lemma returns_ret {A} (a : A) (Q : A → Prop) : Q a → returns (mret a) Q.
Proof. by intros HQ w x [= <-]. Qed.
Lemma returns_fail {A} e (Q : A → Prop) : returns (fail e) Q.
Proof. by intros w x. Qed.
Lemma returns_bind {A B} (m : LM A) (f : A → LM B) Q : (∀ a, returns (f a) Q) → returns (m ≫= f) Q.
Proof. intros Hf w x. unfold mbind, M_bind. destruct (m w) as [[a|e] w1]; [apply Hf|]. discriminate. Qed.
Lemma emits_and {A} (m : LM A) P P' Q : emits m P → emits m P' → returns m Q →
  emits m (λ t r, P t r ∧ P' t r ∧ ∀ x, r = Ok x → Q x).
Proof.
  intros H H' HQ w. destruct (H w) as (t & Ht & HP), (H' w) as (t' & Ht' & HP'). exists t. split; [done|].
  rewrite Ht in Ht'. apply app_inv_head in Ht' as <-. split_and!; [done..|]. apply HQ.
Qed.
End returns.
Create HintDb returns.
#[export] Hint Resolve returns_ret returns_fail returns_bind : returns.

(** The registry view of a cycle, but for the labels a drain writes into it *)
Definition unlabelled (fleet : gmap string Node) : gmap string Node := set_labels ∅ <$> fleet.
Lemma unlabelled_share old v fleet : unlabelled (share_label old v fleet) = unlabelled fleet.
Proof.
  unfold share_label, unlabelled. destruct (bool_decide _); [done|]. destruct (fleet !! n_ID old) as [n|] eqn:En; [|done].
  rewrite fmap_insert. apply insert_id. by rewrite lookup_fmap, En.
Qed.

(** What the event [c] does, read against the fleet the cycle listed *)
Definition acts_on (fleet : gmap string Node) (a : Action) (c : event) : Prop :=
  ∃ node, set_labels ∅ node = set_labels ∅ (default zero_node (fleet !! a_NodeID a)) ∧ acts_for a node c.
Lemma unlabelled_lookup f f' id : unlabelled f = unlabelled f' →
  set_labels ∅ (default zero_node (f !! id)) = set_labels ∅ (default zero_node (f' !! id)).
Proof.
  intros Hf. assert (unlabelled f !! id = unlabelled f' !! id) as Hl by (by rewrite Hf).
  unfold unlabelled in Hl. rewrite !lookup_fmap in Hl. destruct (f !! id), (f' !! id); simpl in *; congruence.
Qed.

(** Labels do not matter to what is drained. *)
Lemma set_labels_core l node node' : set_labels l node = set_labels l node' →
  n_ID node = n_ID node' ∧ n_Role node = n_Role node' ∧ n_EntryNodeID node = n_EntryNodeID node' ∧ n_Region node = n_Region node' ∧
  n_Cloud node = n_Cloud node' ∧ ∀ now n, drained_form now node n → drained_form now node' n.
Proof.
  destruct node, node'. unfold set_labels, with_lifecycle. cbn. intros [= -> -> -> -> -> -> -> -> -> -> -> -> -> ->]. split_and!; done.
Qed.
Lemma replaced_unlabelled opts now fleet fleet0 node node0 v n : unlabelled fleet = unlabelled fleet0 →
  set_labels ∅ node = set_labels ∅ node0 → replaced opts now fleet node v n → replaced opts now fleet0 node0 v n.
Proof.
  intros Hf Hn (u & Hu & Hv). destruct (set_labels_core _ _ _ Hn) as (Hid & Hrole & Hent & Hreg & Hcl & Hform). exists u. split.
  { unfold prepared, region_of, cloud_of in *. by rewrite <-Hreg, <-Hcl. }
  destruct Hv as [[-> Hv]|(n1 & peer & -> & Hn1 & Hpeer & Hv)]; [left; auto|right]. exists n1.
  assert (∀ id, fleet !! id = Some peer → ∃ peer0, fleet0 !! id = Some peer0 ∧ set_labels ∅ peer = set_labels ∅ peer0) as Hlook.
  { intros id Hl. assert (unlabelled fleet !! id = unlabelled fleet0 !! id) as He by (by rewrite Hf). unfold unlabelled in He.
    rewrite !lookup_fmap, Hl in He. destruct (fleet0 !! id) as [peer0|]; [|done]. injection He as He. exists peer0. split; [done|].
    destruct peer, peer0. unfold set_labels, with_lifecycle. cbn in *. by simplify_eq. }
  destruct Hpeer as [(Hr & Hrp & Hep & id & Hl)|(Hr & id & Hid' & Hl)]; destruct (Hlook id Hl) as (peer0 & Hl0 & Hp);
    destruct (set_labels_core _ _ _ Hp) as (Hidp & Hrolep & Hentp & _ & _ & Hformp); exists peer0; (split_and!; [done|auto| |auto]).
  - left. rewrite <-Hrole, <-Hrolep, <-Hentp, <-Hid. eauto.
  - right. rewrite <-Hrole, <-Hent. eauto.
Qed.

Section act.
Context `{ord : !MapOrder} {E : Type} (deps : Deps E) (opts : Options).

Lemma returns_drain olds now : ∀ fleet, returns (drain deps olds now fleet) (λ f, unlabelled f = unlabelled fleet).
Proof.
  induction olds as [|old olds IH]; intros fleet; simpl; [by apply returns_ret|]. apply returns_bind. intros _ w x Hx.
  apply IH in Hx. by rewrite Hx, unlabelled_share.
Qed.
Lemma returns_execute a node fleet now : returns (execute deps opts a node fleet now) (λ f, unlabelled f = unlabelled fleet).
Proof.
  unfold execute. destruct (bool_decide (a_Type a = ActionMarkDegraded)); [auto with returns|].
  destruct (bool_decide (a_Type a = ActionRotate)).
  { apply returns_bind. intros _. apply returns_bind. intros after. destruct (bool_decide _); [auto with returns|].
    destruct (negb _); auto with returns. }
  destruct (bool_decide (a_Type a = ActionReplace)).
  { do 3 (apply returns_bind; intros ?). apply returns_drain. }
  destruct (bool_decide (a_Type a = ActionRetire)); [|auto with returns].
  apply returns_bind. intros _. apply returns_bind. intros [after|e]; [|auto with returns].
  destruct (bool_decide _); auto with returns.
Qed.

Record enacts (now : Time) (fleet : gmap string Node) (plan : list Action) (t : list event) (stop : Prop) : Prop := {
  en_count : lifecycles t <= Z.of_nat (length (filter side plan));
  en_acts : Forall (λ c, lifecycle c → ∃ a, a ∈ plan ∧ side a ∧ acts_on fleet a c) t;
  en_drain : safe_drain (λ v n, ∃ a, a ∈ plan ∧ a_Type a = ActionReplace ∧ replaced opts now fleet (default zero_node (fleet !! a_NodeID a)) v n) t;
  en_halts : halts_if stop t
}.
Definition stopped {B} (r : result (B * option error)) : Prop := ∃ x e, r = Ok (x, Some e).

Lemma enacts_nil now fleet plan stop : enacts now fleet plan [] stop.
Proof. split; [unfold lifecycles; simpl; lia|constructor|by apply safe_drain_none|by apply halts_if_none]. Qed.

Lemma proper_acts now fleet1 fleet a node t : proper opts now fleet1 a node t → set_labels ∅ node = set_labels ∅ (default zero_node (fleet !! a_NodeID a)) →
  Forall (λ c, lifecycle c → side a ∧ acts_on fleet a c) t.
Proof.
  intros [Hc Ha _] Hn. apply Forall_forall. intros c Hin Hl. rewrite Forall_forall in Ha.
  split; [|exists node; auto]. unfold side. destruct (sideEffecting (a_Type a)); [done|]. exfalso.
  assert (c ∈ filter lifecycle t) as Hf by (by apply list_elem_of_filter). unfold lifecycles in Hc.
  destruct (filter lifecycle t); [by apply elem_of_nil in Hf|simpl in Hc; lia].
Qed.

Lemma emits_act fleet0 plan now : ∀ fleet executed, unlabelled fleet = unlabelled fleet0 →
  emits (act deps opts plan fleet now executed) (λ t r, is_ok r = true ∧ enacts now fleet0 plan t (stopped r)).
Proof.
  induction plan as [|a plan IH]; intros fleet executed Hf; simpl.
  { eapply emits_mono; [apply emits_ret|]. intros t r [-> ->]. split; [done|apply enacts_nil]. }
  assert (∀ t stop, enacts now fleet0 plan t stop → enacts now fleet0 (a :: plan) t stop) as Hweak.
  { intros t stop [Hc Ha Hd Hh]. split; [|eapply Forall_impl; [exact Ha|]|eapply safe_drain_mono; [|exact Hd]|done].
    - rewrite filter_cons. destruct (decide (side a)); simpl; lia.
    - intros c Hl Hlc. destruct (Hl Hlc) as (b & ? & ?). exists b. split; [by right|done].
    - intros v n (b & ? & ?). exists b. split; [by right|done]. }
  destruct (bool_decide (a_Type a = ActionNoop)).
  { eapply emits_mono; [by apply IH|]. intros t r [? ?]. split; [done|by apply Hweak]. }
  set (node := default zero_node (fleet !! a_NodeID a)).
  pose proof (unlabelled_lookup _ _ (a_NodeID a) Hf) as Hnode. fold node in Hnode.
  pose proof (emits_and _ _ _ _ (emits_execute deps opts a node fleet now) (emits_halts_execute deps opts a node fleet now)
    (returns_execute a node fleet now)) as Hex.
  assert (∀ t, proper opts now fleet a node t → Forall (λ c, lifecycle c → ∃ b, b ∈ a :: plan ∧ side b ∧ acts_on fleet0 b c) t) as Hacts.
  { intros t Ht. eapply Forall_impl; [apply (proper_acts now fleet fleet0 _ _ _ Ht Hnode)|]. intros c Hc Hl.
    exists a. split; [by left|auto]. }
  assert (∀ t, proper opts now fleet a node t → safe_drain (λ v n, ∃ b, b ∈ a :: plan ∧ a_Type b = ActionReplace ∧
    replaced opts now fleet0 (default zero_node (fleet0 !! a_NodeID b)) v n) t) as Hdrains.
  { intros t Ht. eapply safe_drain_mono; [|exact (pr_drain _ _ _ _ _ _ Ht)]. intros v n [Hty Hr]. exists a. split; [by left|]. split; [done|].
    by eapply replaced_unlabelled. }
  eapply emits_then; [apply emits_try, Hex| |by intros t e (r0 & ? & _)].
  intros t1 r (r0 & [= <-] & Hproper & Hhalts & Hret). pose proof (pr_count _ _ _ _ _ _ Hproper) as Hcount.
  assert (lifecycles t1 <= (if decide (side a) then 1 else 0)) as Hcount1.
  { unfold side. destruct (decide _) as [|Hs]; [destruct (sideEffecting _); lia|]. destruct (sideEffecting _); [by destruct Hs|lia]. }
  destruct r as [fleet'|e].
  - eapply emits_mono; [apply (IH fleet'); by rewrite (Hret fleet' eq_refl)|]. intros t2 r' [Hr' [Hc Ha Hd Hh]]. split; [done|]. split.
    + rewrite lifecycles_app, filter_cons. destruct (decide (side a)); simpl in *; lia.
    + apply Forall_app. split; [by apply Hacts|]. eapply Forall_impl; [exact Ha|]. intros c Hl Hlc.
      destruct (Hl Hlc) as (b & ? & ?). exists b. split; [by right|done].
    + apply safe_drain_app; [by apply Hdrains|]. eapply safe_drain_mono; [|exact Hd]. intros v n (b & ? & ?). exists b. split; [by right|done].
    + eapply halts_if_app; [|exact Hhalts|exact Hh]. apply ok_not_err.
  - eapply emits_mono; [apply emits_ret|]. intros t2 r' [-> ->]. rewrite app_nil_r. split; [done|]. split.
    + rewrite filter_cons. destruct (decide (side a)); simpl in *; lia.
    + by apply Hacts.
    + by apply Hdrains.
    + eapply halts_if_mono; [|exact Hhalts]. intros _. by do 2 eexists.
Qed.
End act.

(** ** The cycle *)
Section cycle.
Context `{ord : !MapOrder} {E : Type} (deps : Deps E) (opts : Options).

(** The input [i] is what the calls of the trace gave: the clock, the registry, the recommendations (none, if they
    could not be had) and the probes of listed nodes. *)
Record observed (t : list event) (i : Input) : Prop := {
  ob_now : ENow (Ok (in_Now i)) ∈ t;
  ob_nodes : EList (Ok (in_Nodes i)) ∈ t;
  ob_recs : ∃ r, ERecommendations r ∈ t ∧ in_Recs i = match r with Ok recs => recs | Err _ => zero_recommendations end;
  ob_probes : ∀ id ev, in_Probes i !! id = Some ev → ∃ node, by_id (in_Nodes i) !! id = Some node ∧ EProbe node (Ok ev) ∈ t
}.
(** [a] is in the plan of an input with [obs], and rightly so. *)
Definition rightly (obs : Input → Prop) (rep : Report) (i : Input) (a : Action) : Prop :=
  obs i ∧ rep_Plan rep = Plan i (op_Thresholds opts) ∧ a ∈ rep_Plan rep ∧ justified i (op_Thresholds opts) a.
Definition replacement (obs : Input → Prop) (rep : Report) (v : list event) (n : Node) : Prop := ∃ i a old,
  rightly obs rep i a ∧ a_Type a = ActionReplace ∧ old = default zero_node (by_id (in_Nodes i) !! a_NodeID a) ∧
  replaced opts (in_Now i) (by_id (in_Nodes i)) old v n.
Record cycle_ok (obs : Input → Prop) (t : list event) (rep : Report) (err : option error) : Prop := {
  cy_dry : op_DryRun opts = true → Forall is_read t;
  cy_count : lifecycles t <= budget (op_Thresholds opts);
  cy_acts : Forall (λ c, lifecycle c → ∃ i a, rightly obs rep i a ∧ side a ∧ acts_on (by_id (in_Nodes i)) a c) t;
  cy_drain : safe_drain (replacement obs rep) t;
  cy_halts : halts_if (is_Some err) t
}.
Definition cycle_post (obs : Input → Prop) (t : list event) (r : result (Report * option error)) : Prop :=
  ∃ rep err, r = Ok (rep, err) ∧ cycle_ok obs t rep err.

(** Observation before the plan *)
Record quiet (stop : Prop) (t : list event) : Prop := {
  qu_dry : op_DryRun opts = true → Forall is_read t;
  qu_observing : Forall observing t;
  qu_halts : halts_if stop t
}.
Lemma quiet_effects stop t : quiet stop t →
  lifecycles t = 0 ∧ Forall (λ c, ¬ lifecycle c) t ∧ Forall (λ c, ¬ draining_update c) t.
Proof.
  intros [_ Ho _]. assert (Forall (λ c, ¬ lifecycle c ∧ ¬ draining_update c) t) as H.
  { eapply Forall_impl; [exact Ho|]. intros []; simpl; naive_solver. }
  split_and!; [apply lifecycles_none|..]; (eapply Forall_impl; [exact H|]; by intros c []).
Qed.
Lemma quiet_cycle obs t stop rep err : quiet stop t → (stop → is_Some err) → cycle_ok obs t rep err.
Proof.
  intros Hq Hs. destruct (quiet_effects _ _ Hq) as (Hl & Hn & Hd). split; [apply Hq|unfold budget; lia| |by apply safe_drain_none|].
  - eapply Forall_impl; [exact Hn|]. by intros c ? ?.
  - eapply halts_if_mono; [exact Hs|apply Hq].
Qed.
Lemma quiet_then (obs obs' : Input → Prop) t1 t2 rep err : quiet False t1 → (∀ i, obs i → obs' i) →
  cycle_ok obs t2 rep err → cycle_ok obs' (t1 ++ t2) rep err.
Proof.
  intros Hq Hobs [Hdry Hc Ha Hd Hh]. destruct (quiet_effects _ _ Hq) as (Hl & Hn & Hd1).
  assert (∀ i a, rightly obs rep i a → rightly obs' rep i a) as Hp by (intros i a (? & ?); split; auto). split.
  - intros Ho. apply Forall_app. split; [by apply Hq|by apply Hdry].
  - rewrite lifecycles_app. lia.
  - apply Forall_app. split; [eapply Forall_impl; [exact Hn|]; by intros c ? ?|]. eapply Forall_impl; [exact Ha|].
    intros c Hlc Hc'. destruct (Hlc Hc') as (i & a & ? & ?). exists i, a. auto.
  - apply safe_drain_app; [by apply safe_drain_none|]. eapply safe_drain_mono; [|exact Hd].
    intros v n (i & a & old & ? & ?). exists i, a, old. auto.
  - eapply halts_if_app; [|apply Hq|exact Hh]. by intros [].
Qed.
Lemma quiet_nil stop : quiet stop [].
Proof. split; [constructor|constructor|by apply halts_if_none]. Qed.
Lemma quiet_app stop t1 t2 : quiet False t1 → quiet stop t2 → quiet stop (t1 ++ t2).
Proof.
  intros [Hd1 Ho1 Hh1] [Hd2 Ho2 Hh2]. split; [intros Hd; apply Forall_app; auto|by apply Forall_app|].
  eapply halts_if_app; [|exact Hh1|exact Hh2]. by intros [].
Qed.
Lemma quiet_read c : is_read c → quiet False [c].
Proof.
  intros Hc. split; [intros _; by repeat constructor|repeat constructor; by destruct c|].
  apply halts_if_none. constructor; [|constructor]. intros Hf. by destruct c.
Qed.
Lemma emits_observed {A} (f : result A → event) (m : M E A) : (∀ r, is_read (f r)) → emits (call f m) (λ t r, t = [f r] ∧ quiet False t).
Proof. intros Hf. eapply emits_mono; [apply emits_call|]. intros t r ->. split; [done|]. apply quiet_read, Hf. Qed.

Lemma emits_quiet_sync nodes now : op_DryRun opts = false → ∀ count,
  emits (syncFleetAccess deps nodes now count) (λ t r, ∃ n err, r = Ok (n, err) ∧ quiet (is_Some err) t).
Proof.
  intros Hdry.
  assert (∀ count e, emits (mret (count, e) : M (LoopWorld E) (Z * option error)) (λ t r, ∃ n err, r = Ok (n, err) ∧ quiet (is_Some err) t)) as Hret.
  { intros count e. eapply emits_mono; [apply emits_ret|]. intros t r [-> ->]. do 2 eexists. split; [done|apply quiet_nil]. }
  induction nodes as [|n nodes IH]; intros count; simpl; [apply Hret|].
  destruct (_ || _); [apply IH|].
  eapply emits_then; [apply emits_try, emits_observed; done| |by intros t e (? & ? & _)].
  intros t1 s (r1 & _ & _ & Hq1).
  assert (∀ c e, emits (mret (c, e) : M (LoopWorld E) (Z * option error)) (λ t r, ∃ n err, r = Ok (n, err) ∧ quiet (is_Some err) (t1 ++ t))) as Hret1.
  { intros c e. eapply emits_mono; [apply Hret|]. intros t2 r (n' & err & -> & Hq2). exists n', err. split; [done|]. by apply quiet_app. }
  destruct s as [snapshot|e]; [|apply Hret1]. destruct (negb _); [apply Hret1|].
  eapply emits_then; [apply emits_try, emits_call| |by intros t e (? & ? & _)].
  intros t2 s (r0 & [= <-] & ->). destruct s as [[]|e].
  - eapply emits_mono; [apply IH|]. intros t3 r (? & ? & -> & Hq2). do 2 eexists. split; [done|]. rewrite app_assoc.
    apply quiet_app; [|done]. apply quiet_app; [done|]. split; [congruence|by repeat constructor|]. apply halts_if_none. by repeat constructor.
  - eapply emits_mono; [apply emits_ret|]. intros t3 r [-> ->]. do 2 eexists. split; [done|]. rewrite app_nil_r. apply quiet_app; [done|].
    split; [congruence|by repeat constructor|]. exists [], [ESync n snapshot false]. split_and!; [done|constructor|]. right. split; by eexists.
Qed.
(** The probes kept are the answers of probes of listed nodes. *)
Definition probed (fleet : gmap string Node) (t : list event) (out : gmap string HealthEvent) : Prop :=
  ∀ id ev, out !! id = Some ev → ∃ node, fleet !! id = Some node ∧ EProbe node (Ok ev) ∈ t.
Lemma quiet_report ev : op_DryRun opts = false → quiet False [EReport ev].
Proof. intros Hd. split; [congruence|by repeat constructor|]. apply halts_if_none. constructor; [by intros []|constructor]. Qed.
Lemma emits_probed probe fleet blocks : ∀ out pre, probed fleet pre out →
  emits (confirm deps opts probe fleet blocks out) (λ t r, ∃ probes, r = Ok probes ∧ quiet False t ∧ probed fleet (pre ++ t) probes).
Proof.
  induction blocks as [|b blocks IH]; intros out pre Hout; simpl.
  { eapply emits_mono; [apply emits_ret|]. intros t r [-> ->]. exists out. rewrite app_nil_r. split_and!; [done|apply quiet_nil|done]. }
  destruct (fleet !! nb_NodeID b) as [node|] eqn:Hnode; [|by apply IH]. destruct (negb _); [by apply IH|].
  eapply emits_then; [by apply emits_try, emits_observed| |by intros t e (? & ? & _)].
  intros t1 r (r0 & [= <-] & -> & Hq1). destruct r as [ev|e].
  - assert (probed fleet (pre ++ [EProbe node (Ok ev)]) (<[nb_NodeID b := ev]> out)) as Hout'.
    { intros id x [[<- <-]|[_ Hx]]%lookup_insert_Some; [exists node; split; [done|set_solver]|].
      destruct (Hout _ _ Hx) as (n & ? & ?). exists n. split; [done|set_solver]. }
    eapply (emits_then _ _ (λ t r, r = Ok tt ∧ quiet False t)); [|intros t2 [] [_ Hq2]|by intros t e [? _]].
    + destruct (op_DryRun opts) eqn:Hdry; [eapply emits_mono; [apply emits_ret|]; intros t r [-> ->]; split; [done|apply quiet_nil]|].
      eapply emits_mono; [apply emits_ignore, emits_call|]. intros t r [-> [_ ->]]. split; [done|by apply quiet_report].
    + eapply emits_mono; [apply (IH _ (pre ++ [EProbe node (Ok ev)] ++ t2))|].
      * intros id x Hx. destruct (Hout' _ _ Hx) as (n & ? & ?). exists n. split; [done|set_solver].
      * intros t3 r (probes & -> & Hq3 & Hp). exists probes. split; [done|]. split; [by repeat apply quiet_app|].
        by rewrite <-!app_assoc in Hp.
  - eapply emits_mono; [apply (IH _ (pre ++ [EProbe node (Err e)]))|].
    + intros id x Hx. destruct (Hout _ _ Hx) as (n & ? & ?). exists n. split; [done|set_solver].
    + intros t2 r (probes & -> & Hq2 & Hp). exists probes. split; [done|]. split; [by apply quiet_app|]. by rewrite <-!app_assoc in Hp.
Qed.
Lemma emits_confirmed recs nodes : emits (confirmSuspects deps opts recs nodes)
  (λ t r, ∃ probes, r = Ok probes ∧ quiet False t ∧ probed (by_id nodes) t probes).
Proof.
  assert (emits (mret ∅ : M (LoopWorld E) (gmap string HealthEvent)) (λ t r, ∃ probes, r = Ok probes ∧ quiet False t ∧ probed (by_id nodes) t probes)) as Hnone.
  { eapply emits_mono; [apply emits_ret|]. intros t r [-> ->]. exists ∅. split_and!; [done|apply quiet_nil|]. intros id ev He. by rewrite lookup_empty in He. }
  unfold confirmSuspects. destruct (dep_Probe deps) as [probe|]; [|exact Hnone]. destruct (negb _); [exact Hnone|].
  apply (emits_probed probe (by_id nodes) (rc_NodeBlocks recs) ∅ []). intros id ev He. by rewrite lookup_empty in He.
Qed.

(** Acting on the plan of [i] *)
Lemma emits_act_cycle i count executed : op_DryRun opts = false →
  let plan := Plan i (op_Thresholds opts) in
  emits (done ←! act deps opts plan (by_id (in_Nodes i)) (in_Now i) executed ;
         let '(executed, err) := done in
         mret ({| rep_Plan := plan; rep_Executed := executed; rep_AccessSynced := count; rep_DryRun := op_DryRun opts |}, err))
    (cycle_post (eq i)).
Proof.
  intros Hdry plan.
  pose proof (emits_act deps opts (by_id (in_Nodes i)) plan (in_Now i) (by_id (in_Nodes i)) executed eq_refl) as Hact.
  eapply emits_then; [exact Hact| |by intros t e [? _]].
  intros t1 [n err] [_ [Hc Ha Hd Hh]]. eapply emits_mono; [apply emits_ret|]. intros t2 r [-> ->]. do 2 eexists. split; [done|].
  rewrite app_nil_r. split; [congruence|..].
  - pose proof (Plan_count i (op_Thresholds opts)). fold plan in H. lia.
  - eapply Forall_impl; [exact Ha|]. intros c Hl Hlc. destruct (Hl Hlc) as (a & Hin & Hs & Hon). exists i, a.
    split; [|done]. split_and!; [done..|]. by apply Plan_sound.
  - eapply safe_drain_mono; [|exact Hd]. intros v n0 (a & Hin & Hty & Hr). exists i, a, (default zero_node (by_id (in_Nodes i) !! a_NodeID a)).
    split; [|done]. split_and!; [done..|]. apply Plan_sound; [done|]. unfold side. by rewrite Hty.
  - eapply halts_if_mono; [|exact Hh]. intros (x & e & [= _ ->]). by eexists.
Qed.

(** The rest of a cycle, after the observations [pre] *)
Definition after (pre t : list event) (r : result (Report * option error)) : Prop := cycle_post (observed (pre ++ t)) (pre ++ t) r.
Lemma quietly_then {A} pre (m : M (LoopWorld E) A) (f : A → M (LoopWorld E) (Report * option error)) (P : A → list event → Prop) :
  quiet False pre → emits m (λ t r, ∃ a, r = Ok a ∧ quiet False t ∧ P a t) →
  (∀ a t1, quiet False (pre ++ t1) → P a t1 → emits (f a) (after (pre ++ t1))) → emits (m ≫= f) (after pre).
Proof.
  intros Hpre Hm Hf. eapply emits_then; [exact Hm| |by intros t e (? & ? & _)].
  intros t1 a (? & [= <-] & Hq & HP). eapply emits_mono; [apply Hf; [by apply quiet_app|done]|].
  intros t2 r. unfold after. by rewrite <-app_assoc.
Qed.
Lemma emits_report pre rep err : quiet (is_Some err) pre → emits (mret (rep, err) : M (LoopWorld E) _) (after pre).
Proof.
  intros Hpre. eapply emits_mono; [apply emits_ret|]. intros t r [-> ->]. do 2 eexists. split; [done|]. rewrite app_nil_r.
  by eapply quiet_cycle.
Qed.
Lemma emits_try_read {A} (f : result A → event) (m : M E A) : (∀ r, is_read (f r)) →
  emits (try (call f m)) (λ t r, ∃ a, r = Ok a ∧ quiet False t ∧ t = [f a]).
Proof. intros Hf. eapply emits_mono; [by apply emits_try, emits_observed|]. intros t r (r0 & -> & -> & Hq). by exists r0. Qed.

Lemma emits_Cycle : emits (Cycle deps opts) (λ t r, cycle_post (observed t) t r).
Proof.
  apply (emits_mono _ (after [])); [|done]. unfold Cycle, Now, ListNodes, GetRecommendations.
  apply (quietly_then _ _ _ (λ now t, t = [ENow (Ok now)])); [apply quiet_nil| |].
  { intros w. unfold call. destruct (dep_Now deps (tw_env w)) as [now e]. exists [ENow (Ok now)]. split; [done|].
    exists now. split_and!; [done|by apply quiet_read|done]. }
  intros now t1 Hq1 ->. apply (quietly_then _ _ _ (λ r t, t = [EList r])); [done|by apply emits_try_read|].
  intros [nodes|e] t2 Hq2 ->; [|apply emits_report; by destruct Hq2 as [? ? ?%(halts_if_mono _ (is_Some (Some (wrap_err "reconcile: fleet state unavailable" e))))]].
  set (pre := ([] ++ [ENow (Ok now)]) ++ [EList (Ok nodes)]) in *.
  assert (∀ count pre', quiet False (pre ++ pre') → emits (recs ←! try (call ERecommendations (dep_Recommendations deps)) ;
    let recs := match recs with Ok r => r | Err _ => zero_recommendations end in
    probes ←! confirmSuspects deps opts recs nodes ;
    let plan := Plan {| in_Now := now; in_Recs := recs; in_Nodes := nodes; in_Probes := probes |} (op_Thresholds opts) in
    if op_DryRun opts then mret ({| rep_Plan := plan; rep_Executed := 0; rep_AccessSynced := count; rep_DryRun := op_DryRun opts |}, None)
    else
      done ←! act deps opts plan (by_id nodes) now 0 ;
      let '(executed, err) := done in
      mret ({| rep_Plan := plan; rep_Executed := executed; rep_AccessSynced := count; rep_DryRun := op_DryRun opts |}, err)) (after (pre ++ pre'))) as Hrest.
  { intros count pre' Hq. apply (quietly_then _ _ _ (λ r t, t = [ERecommendations r])); [done|by apply emits_try_read|].
    intros rr t3 Hq3 ->. cbv zeta. set (recs := match rr with Ok r => r | Err _ => zero_recommendations end).
    apply (quietly_then _ _ _ (λ probes t, probed (by_id nodes) t probes)); [done|apply emits_confirmed|].
    intros probes t4 Hq4 Hp. destruct (op_DryRun opts) eqn:Hdry.
    { rewrite <-Hdry. apply emits_report. destruct Hq4 as [? ? Hh]. split; [done..|]. eapply halts_if_mono; [|exact Hh]. done. }
    rewrite <-Hdry. set (i := {| in_Now := now; in_Recs := recs; in_Nodes := nodes; in_Probes := probes |}).
    eapply emits_mono; [exact (emits_act_cycle i count 0 Hdry)|]. intros t r (rep & err & -> & Hok). exists rep, err. split; [done|].
    eapply quiet_then; [exact Hq4| |exact Hok]. intros ? <-. unfold pre. split; cbn [in_Now in_Nodes in_Recs in_Probes i].
    - set_solver.
    - set_solver.
    - exists rr. split; [set_solver|done].
    - intros id ev He. destruct (Hp id ev He) as (node & ? & ?). exists node. split; [done|set_solver]. }
  destruct (negb (op_DryRun opts) && op_AccessSyncEnabled opts) eqn:Esync.
  - apply andb_true_iff in Esync as [Hdry _]. apply negb_true_iff in Hdry.
    eapply emits_then; [by apply emits_quiet_sync| |by intros t e (? & ? & ? & _)].
    intros t1 [count err] (? & ? & [= <- <-] & Hq). destruct err as [e|].
    + eapply emits_mono; [apply (emits_report (pre ++ t1)); by apply quiet_app|]. intros t r. unfold after. by rewrite <-app_assoc.
    + eapply emits_mono; [apply (Hrest count t1); apply quiet_app; [done|]|].
      * destruct Hq as [? ? Hh]. split; [done..|]. eapply halts_if_mono; [|exact Hh]. by intros [].
      * intros t r. unfold after. by rewrite <-app_assoc.
  - specialize (Hrest 0 []). rewrite app_nil_r in Hrest. by apply Hrest.
Qed.

(** C14: one cycle of the orchestrator is safe, whatever the control-plane, telemetry, probes and scripts answer.
    In dry-run it only reads. Otherwise it provisions, rotates and tears down at most the budgeted number of
    times, each time for an action of its plan, on the node that action names, and the action is justified by what the
    cycle itself observed: the clock it read, the registry it was listed, the recommendations it was given and the
    answers to its own probes. *)
Theorem Cycle_gated w : ∃ rep err t,
  (Cycle deps opts w).1 = Ok (rep, err) ∧ tw_trace (Cycle deps opts w).2 = tw_trace w ++ t ∧
  (op_DryRun opts = true → Forall is_read t) ∧ lifecycles t <= budget (op_Thresholds opts) ∧
  (∀ c, c ∈ t → lifecycle c → ∃ i a, observed t i ∧ rep_Plan rep = Plan i (op_Thresholds opts) ∧ a ∈ rep_Plan rep ∧ side a ∧
     justified i (op_Thresholds opts) a ∧ acts_on (by_id (in_Nodes i)) a c).
Proof.
  destruct (emits_Cycle w) as (t & Ht & rep & err & Hr & [Hd Hc Ha _ _]). exists rep, err, t. split_and!; try done.
  rewrite Forall_forall in Ha. intros c Hin Hl. destruct (Ha c Hin Hl) as (i & a & (? & ? & ? & ?) & ? & ?). exists i, a. auto 8.
Qed.

(** C15: no half-done cascade. In one cycle every update that sets a node to drain immediately follows either the
    provisioning of a pair, where the replaced node is, with both its nodes then seen active, and concerns the node
    that a justified replacement of the plan names; or that very update, and concerns the node's peer in its pair. It
    changes nothing of the node but its status and its labels, the drain label telling the cycle's time. And the first
    call that fails to change something is the last call of the cycle, which reports an error. *)
Theorem Cycle_replaces_first w : ∃ rep err t,
  (Cycle deps opts w).1 = Ok (rep, err) ∧ tw_trace (Cycle deps opts w).2 = tw_trace w ++ t ∧
  (∀ t1 n ok t2, t = t1 ++ EUpdate n ok :: t2 → n_Status n = NodeStatusDraining →
     ∃ i a old u0 v, observed t i ∧ rep_Plan rep = Plan i (op_Thresholds opts) ∧ a ∈ rep_Plan rep ∧ a_Type a = ActionReplace ∧
       justified i (op_Thresholds opts) a ∧ old = default zero_node (by_id (in_Nodes i) !! a_NodeID a) ∧
       t1 = u0 ++ v ∧ replaced opts (in_Now i) (by_id (in_Nodes i)) old v n) ∧
  (∀ t1 c t2, t = t1 ++ c :: t2 → failed c → t2 = [] ∧ is_Some err).
Proof.
  destruct (emits_Cycle w) as (t & Ht & rep & err & Hr & [_ _ _ Hd Hh]). exists rep, err, t. split_and!; try done.
  - intros t1 n ok t2 He Hn. destruct (Hd t1 n ok t2 He Hn) as (u0 & v & Hv & i & a & old & (? & ? & ? & ?) & ? & ? & ?).
    exists i, a, old, u0, v. auto 10.
  - intros t1 c t2 -> Hc. destruct Hh as (u & v & He & Hu & Hv). apply app_eq_inv in He as [(k & -> & Hk)|(k & -> & Hk)].
    + destruct Hv as [->|[Hs [c' ->]]]; [by destruct k|]. destruct k as [|? k]; [by simplify_eq/=|by destruct k].
    + destruct k as [|c' k].
      * destruct Hv as [->|[Hs [c' ->]]]; by simplify_eq/=.
      * injection Hk as -> _. apply Forall_app in Hu as [_ Hu]. by inversion Hu.
Qed.
End cycle.
