(* ===== verification/OrchestratorDrain.v ===== *)
(** * How long a drained node coexists with its replacement

    The label the loop writes when a node starts draining, read back by the policy of a later cycle or of
    a restarted orchestrator; and a run of the loop over a concrete fleet. *)
From S2P Require Import Prelude GoTrace GoBytes GoText GoTime GoFloat Contracts OrchestratorPolicy.
From S2P Require Import OrchestratorLoop OrchestratorSafety.

Section grace.
Context (i : Input) (th : Thresholds) (now : Time) (n : Node).
Hypothesis now_year : 0 <= year (civil_of (Truncate now Second)) <= 9999.
Hypothesis draining : n_Status n = NodeStatusDraining.
Hypothesis labelled : n_Labels n !! DrainStartedLabel = Some (rfc3339 now).
Hypothesis listed : n ∈ in_Nodes i.
Hypothesis unique_ids : NoDup (n_ID <$> in_Nodes i).

(** A well-formed recommendation is about the node. *)
Definition named : Prop := ∃ b, b ∈ rc_NodeBlocks (in_Recs i) ∧ NodeBlock_Validate b = Ok tt ∧ nb_NodeID b = n_ID n.
Definition due : bool := th_DrainGrace th <=? Sub (in_Now i) (Truncate now Second).
Definition retirement : Action := {|
  a_Type := ActionRetire; a_NodeID := n_ID n; a_Regions := [];
  a_Reason := Sprintf "drain grace %s elapsed (draining since %s)" [DurArg (th_DrainGrace th); TimeArg (Truncate now Second)] |}.

Lemma label_read_back : parse_rfc3339 (default "" (n_Labels n !! DrainStartedLabel)) = Some (Truncate now Second).
Proof. rewrite labelled. simpl. by apply parse_format. Qed.
Lemma same_node m : m ∈ in_Nodes i → n_ID m = n_ID n → m = n.
Proof.
  intros Hm Hid. apply list_elem_of_lookup in Hm as [x Hx]. pose proof listed as Hl. apply list_elem_of_lookup in Hl as [y Hy].
  assert (x = y) as ->; [|congruence]. eapply (NoDup_lookup (n_ID <$> in_Nodes i)); [exact unique_ids|..].
  - rewrite list_lookup_fmap, Hx. reflexivity.
  - rewrite list_lookup_fmap, Hy. simpl. by f_equal.
Qed.
Lemma rotation_other d m : m ∈ in_Nodes i → plan_rotation i d m = d ∨ n_ID m ≠ n_ID n ∧ ∃ a, a_NodeID a = n_ID m ∧ plan_rotation i d m = add a d.
Proof.
  intros Hm. unfold plan_rotation. destruct (n_RotateAfter m); [|by left]. destruct (_ || _); [by left|].
  destruct (negb (bool_decide (n_Status m = NodeStatusActive)) && negb (bool_decide (n_Status m = NodeStatusDegraded))) eqn:E; [by left|].
  right. split; [|by eexists (Build_Action _ _ _ _)]. intros He. by rewrite (same_node m Hm He), draining in E.
Qed.

(** Until the grace has passed, or as long as it is recommended something about, the node gets no action but a noop. *)
Definition quiet (d : Draft) : Prop := ∀ a, a ∈ out d → a_NodeID a = n_ID n → a_Type a = ActionNoop.
Lemma quiet_add a d : quiet d → (a_NodeID a = n_ID n → a_Type a = ActionNoop) → quiet (add a d).
Proof. intros Hd Ha x [Hx|Hx%list_elem_of_singleton]%elem_of_app; [by apply Hd|by subst x]. Qed.
Lemma quiet_block d b : quiet d → quiet (plan_block i th d b).
Proof.
  intros Hd. destruct (decide (nb_NodeID b = n_ID n)) as [He|Hne].
  2:{ destruct (plan_block_cases i th d b) as [->|(a & Ha & ->)]; [done|]. apply quiet_add; [done|]. congruence. }
  unfold plan_block. destruct (NodeBlock_Validate b); [|done]. destruct (by_id (in_Nodes i) !! nb_NodeID b) as [node|] eqn:Hn; [|by apply quiet_add].
  destruct (negb (recsFresh i th)); [by apply quiet_add|]. apply by_id_elem in Hn as [Hin Hid].
  rewrite (same_node node Hin) by congruence. rewrite draining. by apply quiet_add.
Qed.
Lemma quiet_retire d m : m ∈ in_Nodes i → quiet d → (due = true → n_ID n ∈ planned d) → quiet (plan_retire i th d m).
Proof.
  intros Hm Hd Hdue. unfold plan_retire. destruct (bool_decide (n_ID m ∈ planned d)) eqn:Hp; [done|]. cbn [orb].
  destruct (negb _); [done|]. destruct (decide (n_ID m = n_ID n)) as [He|Hne].
  - rewrite (same_node m Hm He) in *. rewrite label_read_back. fold due. destruct due eqn:E; [|done].
    by rewrite bool_decide_true in Hp by auto.
  - destruct (parse_rfc3339 _); [destruct (_ <=? _); [|done]|]; apply quiet_add; done.
Qed.
Lemma planned_add a d id : id ∈ planned d → id ∈ planned (add a d).
Proof. simpl. set_solver. Qed.
Lemma planned_block d b id : id ∈ planned d → id ∈ planned (plan_block i th d b).
Proof. intros Hd. destruct (plan_block_cases i th d b) as [->|(a & _ & ->)]; [done|by apply planned_add]. Qed.
Lemma planned_named bs : ∀ d, (∃ b, b ∈ bs ∧ NodeBlock_Validate b = Ok tt ∧ nb_NodeID b = n_ID n) →
  n_ID n ∈ planned (foldl (plan_block i th) d bs).
Proof.
  induction bs as [|b bs IH]; intros d (b0 & Hb & Hv & He); [by apply elem_of_nil in Hb|]. simpl.
  apply elem_of_cons in Hb as [<-|Hb]; [|apply IH; eauto].
  assert (n_ID n ∈ planned (plan_block i th d b0)) as Hp; [|apply (foldl_inv (λ d, n_ID n ∈ planned d)); [done|]; intros; by apply planned_block].
  unfold plan_block. rewrite Hv. destruct (by_id (in_Nodes i) !! nb_NodeID b0); [|simpl; set_solver].
  destruct (negb _); [simpl; set_solver|]. destruct (one_of _ _); [simpl; set_solver|]. destruct (gatePassed _ _ _ _) as [[] why]; [simpl; set_solver|].
  destruct (bool_decide _); simpl; set_solver.
Qed.
Lemma draft_quiet a : due = false ∨ named → a ∈ draft i th → a_NodeID a = n_ID n → a_Type a = ActionNoop.
Proof.
  intros Hor. unfold draft. set (d := foldl (plan_rotation i) _ _).
  assert (quiet d ∧ (due = true → n_ID n ∈ planned d)) as Hd.
  { unfold d. apply (foldl_inv (λ d, quiet d ∧ (due = true → n_ID n ∈ planned d))).
    - split; [apply (foldl_inv quiet); [intros x Hx; by apply elem_of_nil in Hx|intros; by apply quiet_block]|].
      intros Hdue. destruct Hor as [?|Hn]; [congruence|]. by apply planned_named.
    - intros d' m Hm [Hq Hp]. destruct (rotation_other d' m Hm) as [->|(Hne & x & Hx & ->)]; [done|]. split; [|intros; by apply planned_add; auto].
      apply quiet_add; [done|]. congruence. }
  revert a. apply (foldl_inv (λ d, quiet d ∧ (due = true → n_ID n ∈ planned d)) (plan_retire i th)); [exact Hd|].
  intros d' m Hm [Hq Hp]. split; [by apply quiet_retire|]. intros Hdue. specialize (Hp Hdue). unfold plan_retire.
  destruct (_ || _); [done|]. destruct (parse_rfc3339 _); [destruct (_ <=? _); [|done]|]; by apply planned_add.
Qed.

(** The first two passes leave alone a draining node nothing is recommended about. *)
Hypothesis unnamed : ¬ named.
Definition untouched (d : Draft) : Prop := n_ID n ∉ a_NodeID <$> out d.
Lemma untouched_add a d : untouched d → a_NodeID a ≠ n_ID n → untouched (add a d).
Proof.
  unfold untouched. intros Hd Ha. simpl. rewrite fmap_app, not_elem_of_app. split; [done|].
  cbn [fmap list_fmap]. intros ?%list_elem_of_singleton. by destruct Ha.
Qed.
Lemma untouched_block d b : b ∈ rc_NodeBlocks (in_Recs i) → untouched d → untouched (plan_block i th d b).
Proof.
  intros Hb Hd. destruct (NodeBlock_Validate b) as [[]|e] eqn:Hv; [|by unfold plan_block; rewrite Hv].
  destruct (plan_block_cases i th d b) as [->|(a & Ha & ->)]; [done|]. apply untouched_add; [done|].
  rewrite Ha. intros He. apply unnamed. by exists b.
Qed.
Lemma untouched_rotation d m : m ∈ in_Nodes i → untouched d → untouched (plan_rotation i d m).
Proof.
  intros Hm Hd. destruct (rotation_other d m Hm) as [->|(Hne & x & Hx & ->)]; [done|]. apply untouched_add; [done|congruence].
Qed.

(** The third pass decides it when it comes to it. *)
Lemma retire_other d m : m ∈ in_Nodes i → n_ID m ≠ n_ID n → untouched d → untouched (plan_retire i th d m).
Proof.
  intros Hm Hne Hd. unfold plan_retire. destruct (_ || _); [done|].
  destruct (parse_rfc3339 _); [destruct (_ <=? _); [|done]|]; by apply untouched_add.
Qed.
Lemma retire_self d : tidy d → untouched d → plan_retire i th d n = if due then add retirement d else d.
Proof.
  intros Ht Hd. unfold plan_retire. rewrite bool_decide_false by (by rewrite (ti_planned _ Ht)).
  rewrite (bool_decide_true (n_Status n = NodeStatusDraining)) by done. cbn [negb orb].
  rewrite label_read_back. unfold due. destruct (_ <=? _); done.
Qed.
Definition decided (d : Draft) : Prop := if due then retirement ∈ out d else untouched d.
Lemma decided_retire d m : m ∈ in_Nodes i → tidy d → decided d → decided (plan_retire i th d m).
Proof.
  intros Hm Ht. unfold decided. destruct due eqn:E.
  - intros Hd. unfold plan_retire. destruct (_ || _); [done|]. destruct (parse_rfc3339 _); [destruct (_ <=? _); [|done]|]; simpl;
      apply elem_of_app; by left.
  - intros Hd. destruct (decide (n_ID m = n_ID n)) as [He|Hne]; [|by apply retire_other].
    rewrite (same_node m Hm He), retire_self, E by done. done.
Qed.

Lemma retire_pass ns : ∀ d, (∀ m, m ∈ ns → m ∈ in_Nodes i) → tidy d → (n ∈ ns ∧ untouched d ∨ decided d) →
  decided (foldl (plan_retire i th) d ns).
Proof.
  induction ns as [|m ns IH]; intros d Hns Ht Hd; simpl.
  { destruct Hd as [[Hn _]|Hd]; [by apply elem_of_nil in Hn|done]. }
  assert (m ∈ in_Nodes i) as Hm by (apply Hns; by left).
  apply IH; [intros m' ?; apply Hns; by right|by apply tidy_retire|]. destruct Hd as [[Hn Hd]|Hd]; [|right; by apply decided_retire].
  destruct (decide (n_ID m = n_ID n)) as [He|Hne].
  - right. rewrite (same_node m Hm He), retire_self by done. unfold decided. destruct due; [|done].
    simpl. apply elem_of_app. right. by apply list_elem_of_singleton.
  - left. split; [|by apply retire_other]. apply elem_of_cons in Hn as [Hn|Hn]; [|done]. destruct Hne. by rewrite <-Hn.
Qed.
Lemma tidy_first_passes : NoDup (nb_NodeID <$> rc_NodeBlocks (in_Recs i)) →
  tidy (foldl (plan_rotation i) (foldl (plan_block i th) {| planned := ∅; out := [] |} (rc_NodeBlocks (in_Recs i))) (in_Nodes i)).
Proof.
  intros Hn. apply (foldl_inv tidy); [|intros; by apply tidy_rotation]. apply tidy_blocks; [|done|].
  - split; [|constructor]. intros id. simpl. set_solver.
  - intros b _. apply not_elem_of_nil.
Qed.
Lemma draft_decided : NoDup (nb_NodeID <$> rc_NodeBlocks (in_Recs i)) →
  if due then retirement ∈ draft i th else n_ID n ∉ a_NodeID <$> draft i th.
Proof.
  intros Hnb. apply (retire_pass (in_Nodes i)); [done|by apply tidy_first_passes|]. left. split; [done|].
  apply (foldl_inv untouched); [|intros; by apply untouched_rotation].
  apply (foldl_inv untouched); [|intros; by apply untouched_block]. apply not_elem_of_nil.
Qed.
End grace.

Lemma rank_retire a : side a → rank (a_Type a) <= 0 → a_Type a = ActionRetire.
Proof. intros _. unfold rank. repeat case_bool_decide; lia || done. Qed.
Lemma retires_only l : (∀ k, k ∈ l → side k → a_Type k = ActionRetire) →
  Z.of_nat (length (filter (λ a, a_Type a = ActionRetire) l)) = Z.of_nat (length (filter side l)).
Proof.
  induction l as [|x l IH]; intros Hl; [done|]. rewrite !filter_cons.
  specialize (IH ltac:(intros k Hk; apply Hl; by right)). destruct (decide (side x)) as [Hs|Hs].
  - rewrite decide_True by (apply Hl; [by left|done]). simpl. lia.
  - rewrite decide_False; [done|]. intros He. apply Hs. unfold side. by rewrite He.
Qed.

(** What a cycle sent the control-plane when a node started draining *)
Lemma cycle_drains `{ord : !MapOrder} {E} (deps : Deps E) opts w t n ok :
  tw_trace (Cycle deps opts w).2 = tw_trace w ++ t → EUpdate n ok ∈ t → n_Status n = NodeStatusDraining →
  ∃ now, ENow (Ok now) ∈ t ∧ n_Labels n !! DrainStartedLabel = Some (rfc3339 now).
Proof.
  intros Ht Hin Hd. destruct (emits_Cycle deps opts w) as (t' & Ht' & rep & err & _ & Hok). rewrite Ht in Ht'. apply app_inv_head in Ht' as <-.
  apply list_elem_of_split in Hin as (t1 & t2 & He). destruct (cy_drain _ _ _ _ _ Hok t1 n ok t2 He Hd) as (u0 & v & _ & i & a & old & [Hobs _] & _ & _ & Hr).
  exists (in_Now i). split; [apply Hobs|]. destruct Hr as (u & _ & [[_ Hf]|(? & ? & _ & _ & _ & Hf)]); apply Hf.
Qed.

(** C17: the drain grace survives restarts. Take a node as a cycle of the loop sent it to the control-plane when it
    started draining, at the time that cycle read; any later registry that lists a node with its id, still draining and
    with that label; and a plan made by any instance from it. Before the grace has passed (to the second the label keeps)
    the node gets no action but a noop, and neither does it as long as a well-formed recommendation is about it; once it
    has passed, and without such a recommendation, the plan retires the node, unless the budget is spent on other
    retirements. *)
Theorem drain_grace_kept `{ord : !MapOrder} {E} (deps : Deps E) opts w t n ok :
  tw_trace (Cycle deps opts w).2 = tw_trace w ++ t → EUpdate n ok ∈ t → n_Status n = NodeStatusDraining →
  ∃ now, ENow (Ok now) ∈ t ∧ (0 <= year (civil_of (Truncate now Second)) <= 9999 → ∀ i th m,
    m ∈ in_Nodes i → n_ID m = n_ID n → n_Status m = NodeStatusDraining →
    n_Labels m !! DrainStartedLabel = n_Labels n !! DrainStartedLabel →
    NoDup (n_ID <$> in_Nodes i) → NoDup (nb_NodeID <$> rc_NodeBlocks (in_Recs i)) →
    (Sub (in_Now i) (Truncate now Second) < th_DrainGrace th ∨ named i n →
       ∀ a, a ∈ Plan i th → a_NodeID a = n_ID n → a_Type a = ActionNoop) ∧
    (th_DrainGrace th <= Sub (in_Now i) (Truncate now Second) → ¬ named i n →
       (∃ a, a ∈ Plan i th ∧ a_NodeID a = n_ID n ∧ a_Type a = ActionRetire) ∨
       Z.of_nat (length (filter (λ a, a_Type a = ActionRetire) (Plan i th))) = budget th)).
Proof.
  intros Ht Hin Hd. destruct (cycle_drains deps opts w t n ok Ht Hin Hd) as (now & Hnow & Hlab). exists now. split; [done|].
  intros Hy i th m Hm Hid Hst Hl Hu Hnb. rewrite Hlab in Hl. unfold named. rewrite <-!Hid. fold (named i m). split.
  - intros Hor a Ha Hn. apply Plan_elem in Ha as [Ha|?]; [|done]. apply (draft_quiet i th now m Hy Hst Hl Hm Hu a); [|done..].
    unfold due. destruct Hor as [?|?]; [left; by apply Z.leb_gt|by right].
  - intros Hg Hno. pose proof (draft_decided i th now m Hy Hst Hl Hm Hu Hno Hnb) as Hdec. unfold due in Hdec.
    rewrite (proj2 (Z.leb_le _ _) Hg) in Hdec.
    destruct (Plan_or_full i th _ Hdec eq_refl) as [Hp|[<- Hk]]; [left; by eexists|right].
    apply retires_only. intros k Hk' Hs. apply rank_retire; [done|]. by apply Hk.
Qed.

(** ** A concrete fleet *)
Definition fleet_now : Time := 63922898645 * Second + 250 * Millisecond.
Definition fleet_node (id role status : string) (entry : option string) : Node := {|
  n_ID := id; n_Role := role; n_Status := status; n_EntryNodeID := entry; n_Provider := "p"; n_Cloud := "cloud-a";
  n_Region := "eu-central"; n_EntryIP := "192.0.2.10"; n_EphemeralEntryIP := false; n_Transports := []; n_CapacityUsers := 1;
  n_RotateAfter := None; n_CreatedAt := 1; n_ExpiresAt := None; n_Labels := ∅ |}.
Definition fleet_thresholds : Thresholds := {|
  th_RecommendationMaxAge := 15 * Minute; th_ProbeMaxAge := 10 * Minute; th_DrainGrace := 30 * Minute; th_MaxActionsPerCycle := 5 |}.
Definition blocked_recs : Recommendations := {|
  rc_GeneratedAt := fleet_now; rc_WindowSeconds := 900; rc_RegionPriorities := [];
  rc_NodeBlocks := [{| nb_Action := RecommendationMarkNodeBlocked; nb_NodeID := "old-entry"; nb_Regions := ["RU-MOW"];
                       nb_Confidence := RecommendationAuthoritative; nb_Reason := "probe" |}] |}.
Definition registry_get (id : string) : M (gmap string Node) Node := λ m,
  (match m !! id with Some n => Ok n | None => Err (Sentinel "not found") end, m).
(** A registry and a provisioner that works. *)
Definition working : Deps (gmap string Node) := {|
  dep_Now := λ m, (fleet_now, m);
  dep_Recommendations := mret blocked_recs; dep_ReportHealth := λ _, mret tt;
  dep_ListNodes := gets (λ m, (map_to_list m).*2); dep_GetNode := registry_get;
  dep_UpdateNode := λ n m, (Ok n, <[n_ID n := n]> m);
  dep_AccessUsers := λ _, fail (Sentinel "no access"); 
  dep_NodeUp := λ region cloud m,
    (Ok {| pp_RunID := "run"; pp_EntryID := "new-entry"; pp_ExitID := "new-exit" |},
     <["new-entry" := fleet_node "new-entry" NodeRoleEntry NodeStatusActive None]>
       (<["new-exit" := fleet_node "new-exit" NodeRoleExit NodeStatusActive (Some "new-entry")]> m));
  dep_NodeRotate := λ _, mret tt; dep_NodeDown := λ _, mret tt; dep_SyncAccess := λ _ _, mret tt; dep_Probe := None |}.
Definition fleet_options (dry : bool) : Options := {|
  op_DryRun := dry; op_Thresholds := fleet_thresholds; op_ProbeEnabled := false; op_DefaultRegion := ""; op_DefaultCloud := "";
  op_RotationInterval := 0; op_AccessSyncEnabled := false |}.
Definition old_fleet : gmap string Node :=
  {["old-entry" := fleet_node "old-entry" NodeRoleEntry NodeStatusActive None;
    "old-exit" := fleet_node "old-exit" NodeRoleExit NodeStatusActive (Some "old-entry")]}.
Definition after_cycle (dry : bool) : gmap string Node * Z :=
  let '(r, w) := Cycle (ord := key_order) working (fleet_options dry) (mkTraced old_fleet []) in
  (tw_env w, match r with Ok (rep, None) => rep_Executed rep | _ => -1 end).

(** The pair is replaced: both old nodes drain, both new ones are active. *)
Example replaced_pair :
  ((λ id, n_Status <$> (after_cycle false).1 !! id) <$> ["old-entry"; "old-exit"; "new-entry"; "new-exit"], (after_cycle false).2) =
  ([Some NodeStatusDraining; Some NodeStatusDraining; Some NodeStatusActive; Some NodeStatusActive], 1).
Proof. vm_compute. reflexivity. Qed.
Example dry_run_changes_nothing : after_cycle true = (old_fleet, 0).
Proof. vm_compute. reflexivity. Qed.

Definition draining_node : Node :=
  set_labels {[DrainStartedLabel := rfc3339 fleet_now]} (set_status NodeStatusDraining (fleet_node "old-entry" NodeRoleEntry NodeStatusActive None)).
Definition after_grace (later : Duration) : Input := {|
  in_Now := fleet_now + later; in_Recs := zero_recommendations; in_Probes := ∅;
  in_Nodes := [draining_node; fleet_node "new-entry" NodeRoleEntry NodeStatusActive None] |}.

Lemma drain_grace_kept_witness :
  (λ a, (a_Type a, a_NodeID a)) <$> Plan (after_grace (30 * Minute)) fleet_thresholds = [(ActionRetire, "old-entry")] ∧
  ∃ now, ENow (Ok now) ∈ tw_trace (Cycle (ord := key_order) working (fleet_options false) (mkTraced old_fleet [])).2 ∧
    (0 <= year (civil_of (Truncate now Second)) <= 9999 → ∀ i th m,
      m ∈ in_Nodes i → n_ID m = "old-entry" → n_Status m = NodeStatusDraining →
      n_Labels m !! DrainStartedLabel = Some (rfc3339 fleet_now) →
      NoDup (n_ID <$> in_Nodes i) → NoDup (nb_NodeID <$> rc_NodeBlocks (in_Recs i)) →
      (Sub (in_Now i) (Truncate now Second) < th_DrainGrace th ∨ named i draining_node →
         ∀ a, a ∈ Plan i th → a_NodeID a = "old-entry" → a_Type a = ActionNoop) ∧
      (th_DrainGrace th <= Sub (in_Now i) (Truncate now Second) → ¬ named i draining_node →
         (∃ a, a ∈ Plan i th ∧ a_NodeID a = "old-entry" ∧ a_Type a = ActionRetire) ∨
         Z.of_nat (length (filter (λ a, a_Type a = ActionRetire) (Plan i th))) = budget th)).
Proof.
  split; [vm_compute; reflexivity|].
  apply (drain_grace_kept (ord := key_order) working (fleet_options false) (mkTraced old_fleet []) _ draining_node true).
  - reflexivity.
  - apply (list_elem_of_lookup_2 _ 6). vm_compute. reflexivity.
  - reflexivity.
Defined.
(** As long as telemetry keeps naming the node, it is not retired. *)
Example named_node_kept :
  (λ a, (a_Type a, a_NodeID a)) <$> Plan {| in_Now := fleet_now + 60 * Minute; in_Probes := ∅; in_Nodes := in_Nodes (after_grace 0);
    in_Recs := {| rc_GeneratedAt := fleet_now + 60 * Minute; rc_WindowSeconds := 900; rc_RegionPriorities := []; rc_NodeBlocks := rc_NodeBlocks blocked_recs |} |}
    fleet_thresholds = [(ActionNoop, "old-entry")].
Proof. vm_compute. reflexivity. Qed.
