(* ===== verification/SubscriptionOutput.v ===== *)
(** * The subscription output formats (packages/contracts/subscription_output.go, services/subscription/internal/render)

    One set of nodes rendered three ways: a base64 list of share URIs, sing-box outbounds and a Clash-Meta proxy list,
    every proxy stamped with the user's personal secrets; and around them the routing policy, the negotiation of the
    format, the headers and the documents the service answers with. *)
From S2P Require Import Prelude GoBytes GoText GoFloat GoTime GoCodec Contracts GoUrl.

Record SubscriptionBundle := { sb_User : User; sb_Nodes : list Node; sb_GeneratedAt : Time }.
Definition with_nodes (nodes : list Node) (b : SubscriptionBundle) : SubscriptionBundle :=
  {| sb_User := sb_User b; sb_Nodes := nodes; sb_GeneratedAt := sb_GeneratedAt b |}.

Definition proxyAddr (n : Node) : string := n_EntryIP n.
Definition enabledTransports (n : Node) : list Transport := filter (λ t, t_Enabled t = true) (n_Transports n).
Definition boolQ (b : bool) : string := if b then "1" else "0".
Definition first_name (p : VlessRealityParams) : string := default "" (head (vr_ServerNames p)).
Definition nonempty (s : string) : bool := negb (bool_decide (s = "")).

(** ** 1. The base64 URI list; an empty string is an unrepresentable transport. *)
Definition transportURI (b : SubscriptionBundle) (t : Transport) (addr : string) : string :=
  let u := sb_User b in
  let tag := PathEscape (t_Tag t) in
  if bool_decide (t_Type t = TransportVlessReality) then
    match t_VlessReality t with
    | None => ""
    | Some p =>
        let q : Values :=
          <["type" := "tcp"]> (<["flow" := vr_Flow p]> (<["sid" := u_RealityShortID u]> (<["pbk" := vr_PublicKey p]>
          (<["sni" := first_name p]> (<["security" := "reality"]> (<["encryption" := "none"]> ∅)))))) in
        let q := if nonempty (vr_Fingerprint p) then <["fp" := vr_Fingerprint p]> q else q in
        "vless://" +:+ u_UUID u +:+ "@" +:+ addr +:+ ":" +:+ itoa (t_Port t) +:+ "?" +:+ Values_Encode q +:+ "#" +:+ tag
    end
  else if bool_decide (t_Type t = TransportHysteria2) then
    match t_Hysteria2 t with
    | None => ""
    | Some p =>
        if bool_decide (u_Hysteria2Password u = "") then ""
        else
          let q : Values := <["sni" := hy_SNI p]> ∅ in
          let q := if nonempty (hy_Obfs p) then <["obfs-password" := hy_ObfsPassword p]> (<["obfs" := hy_Obfs p]> q) else q in
          let q := <["insecure" := boolQ (hy_Insecure p)]> q in
          "hysteria2://" +:+ QueryEscape (u_Hysteria2Password u) +:+ "@" +:+ addr +:+ ":" +:+ itoa (t_Port t) +:+ "?" +:+
          Values_Encode q +:+ "#" +:+ tag
    end
  else if bool_decide (t_Type t = TransportShadowsocks2022) then
    match t_Shadowsocks2022 t with
    | None => ""
    | Some p => "ss://" +:+ base64 true (bytes_of (ss_Method p +:+ ":" +:+ ss_PSK p)) +:+ "@" +:+ addr +:+ ":" +:+
                itoa (t_Port t) +:+ "#" +:+ tag
    end
  else "".
(** The transports a renderer visits, each with its node's address, in order *)
Definition visited (b : SubscriptionBundle) : list (Transport * string) :=
  concat ((λ n, (λ t, (t, proxyAddr n)) <$> enabledTransports n) <$> sb_Nodes b).
Definition uri_lines (b : SubscriptionBundle) : list string :=
  filter (λ uri, uri ≠ "") ((λ ta, transportURI b ta.1 ta.2) <$> visited b).
Definition ToBase64List (b : SubscriptionBundle) : string := base64 false (bytes_of (join newline (uri_lines b))).

(** ** 2. sing-box *)
Definition gomap_of (l : list (string * json)) : gomap := list_to_map l.
Definition singBoxOutbound (b : SubscriptionBundle) (t : Transport) (addr : string) : option gomap :=
  let u := sb_User b in
  if bool_decide (t_Type t = TransportVlessReality) then
    p ← t_VlessReality t;
    Some (gomap_of [("type", JStr "vless"); ("tag", JStr (t_Tag t)); ("server", JStr addr); ("server_port", JInt (t_Port t));
      ("uuid", JStr (u_UUID u)); ("flow", JStr (vr_Flow p));
      ("tls", JMap (gomap_of [("enabled", JBool true); ("server_name", JStr (first_name p));
        ("utls", JMap (gomap_of [("enabled", JBool (nonempty (vr_Fingerprint p))); ("fingerprint", JStr (vr_Fingerprint p))]));
        ("reality", JMap (gomap_of [("enabled", JBool true); ("public_key", JStr (vr_PublicKey p));
           ("short_id", JStr (u_RealityShortID u))]))]))])
  else if bool_decide (t_Type t = TransportHysteria2) then
    p ← t_Hysteria2 t;
    if bool_decide (u_Hysteria2Password u = "") then None
    else
      let o := gomap_of [("type", JStr "hysteria2"); ("tag", JStr (t_Tag t)); ("server", JStr addr);
        ("server_port", JInt (t_Port t)); ("password", JStr (u_Hysteria2Password u));
        ("tls", JMap (gomap_of [("enabled", JBool true); ("server_name", JStr (hy_SNI p)); ("insecure", JBool (hy_Insecure p))]))] in
      Some (if nonempty (hy_Obfs p)
            then <["obfs" := JMap (gomap_of [("type", JStr (hy_Obfs p)); ("password", JStr (hy_ObfsPassword p))])]> o else o)
  else if bool_decide (t_Type t = TransportShadowsocks2022) then
    p ← t_Shadowsocks2022 t;
    Some (gomap_of [("type", JStr "shadowsocks"); ("tag", JStr (t_Tag t)); ("server", JStr addr);
      ("server_port", JInt (t_Port t)); ("method", JStr (ss_Method p)); ("password", JStr (ss_PSK p))])
  else if bool_decide (t_Type t = TransportAmneziaWG) then
    p ← t_AmneziaWG t;
    Some (gomap_of [("type", JStr "wireguard"); ("tag", JStr (t_Tag t)); ("server", JStr addr);
      ("server_port", JInt (t_Port t)); ("peer_public_key", JStr (awg_PublicKey p)); ("mtu", JInt (awg_MTU p));
      ("jc", JInt (awg_Jc p)); ("jmin", JInt (awg_Jmin p)); ("jmax", JInt (awg_Jmax p)); ("s1", JInt (awg_S1 p));
      ("s2", JInt (awg_S2 p)); ("h1", JInt (awg_H1 p)); ("h2", JInt (awg_H2 p)); ("h3", JInt (awg_H3 p)); ("h4", JInt (awg_H4 p))])
  else None.
Definition ToSingBox (b : SubscriptionBundle) : list gomap := omap (λ ta, singBoxOutbound b ta.1 ta.2) (visited b).
Definition ToSingBoxJSON (b : SubscriptionBundle) : string :=
  MarshalIndent (JObj [("outbounds", JSlice (JMap <$> ToSingBox b))]).

(** ** 3. Clash-Meta *)
(** [strings.NewReplacer] of the backslash and the double quote *)
Definition yq_char (b : Z) : list Z := if (b =? 92) || (b =? 34) then [92; b] else [b].
Definition yq (s : string) : string := quote +:+ string_of_bytes (concat (yq_char <$> bytes_of s)) +:+ quote.
Definition line (indent k v : string) : string := indent +:+ k +:+ ": " +:+ v +:+ newline.
Definition clashProxy (b : SubscriptionBundle) (t : Transport) (addr : string) : string :=
  let u := sb_User b in
  let head ty := line "  - " "name" (yq (t_Tag t)) +:+ line "    " "type" ty +:+ line "    " "server" (yq addr) +:+
                 line "    " "port" (itoa (t_Port t)) in
  let field := line "    " in
  let inner := line "      " in
  if bool_decide (t_Type t = TransportVlessReality) then
    match t_VlessReality t with
    | None => ""
    | Some p =>
        head "vless" +:+ field "uuid" (yq (u_UUID u)) +:+ field "flow" (yq (vr_Flow p)) +:+ field "tls" "true" +:+
        field "servername" (yq (first_name p)) +:+
        (if nonempty (vr_Fingerprint p) then field "client-fingerprint" (yq (vr_Fingerprint p)) else "") +:+
        "    reality-opts:" +:+ newline +:+ inner "public-key" (yq (vr_PublicKey p)) +:+ inner "short-id" (yq (u_RealityShortID u))
    end
  else if bool_decide (t_Type t = TransportHysteria2) then
    match t_Hysteria2 t with
    | None => ""
    | Some p =>
        if bool_decide (u_Hysteria2Password u = "") then ""
        else
          head "hysteria2" +:+ field "password" (yq (u_Hysteria2Password u)) +:+ field "sni" (yq (hy_SNI p)) +:+
          (if nonempty (hy_Obfs p) then field "obfs" (yq (hy_Obfs p)) +:+ field "obfs-password" (yq (hy_ObfsPassword p)) else "") +:+
          field "skip-cert-verify" (if hy_Insecure p then "true" else "false")
    end
  else if bool_decide (t_Type t = TransportShadowsocks2022) then
    match t_Shadowsocks2022 t with
    | None => ""
    | Some p => head "ss" +:+ field "cipher" (yq (ss_Method p)) +:+ field "password" (yq (ss_PSK p))
    end
  else if bool_decide (t_Type t = TransportAmneziaWG) then
    match t_AmneziaWG t with
    | None => ""
    | Some p =>
        head "wireguard" +:+ field "public-key" (yq (awg_PublicKey p)) +:+
        (if 0 <? awg_MTU p then field "mtu" (itoa (awg_MTU p)) else "") +:+
        "    amnezia-wg-option:" +:+ newline +:+ inner "jc" (itoa (awg_Jc p)) +:+ inner "jmin" (itoa (awg_Jmin p)) +:+
        inner "jmax" (itoa (awg_Jmax p)) +:+ inner "s1" (itoa (awg_S1 p)) +:+ inner "s2" (itoa (awg_S2 p)) +:+
        inner "h1" (itoa (awg_H1 p)) +:+ inner "h2" (itoa (awg_H2 p)) +:+ inner "h3" (itoa (awg_H3 p)) +:+ inner "h4" (itoa (awg_H4 p))
    end
  else "".
Definition clash_blocks (b : SubscriptionBundle) : list string := (λ ta, clashProxy b ta.1 ta.2) <$> visited b.
Definition ToClashMetaYAML (b : SubscriptionBundle) : string := "proxies:" +:+ newline +:+ join "" (clash_blocks b).

(** ** The JSON form of the entities, field by field

    A time outside the years 0 to 9999 is an error; an empty list is taken for a nil slice. *)
Definition JTime (t : Time) : option json := JNum <$> json_time t.
Definition jopt {A} (name : string) (f : A → json) (o : option A) : list (string * json) :=
  match o with Some a => [(name, f a)] | None => [] end.
Definition jnonzero (name : string) (z : Z) : list (string * json) := if z =? 0 then [] else [(name, JInt z)].
Definition jnonempty (name s : string) : list (string * json) := if bool_decide (s = "") then [] else [(name, JStr s)].
Definition joptime (name : string) (o : option Time) : option (list (string * json)) :=
  match o with None => Some [] | Some t => v ← JTime t; Some [(name, v)] end.
Definition User_json (u : User) : option json :=
  c ← JTime (u_CreatedAt u); m ← JTime (u_UpdatedAt u);
  Some (JObj ([("id", JStr (u_ID u))] ++ jopt "telegram_id" JInt (u_TelegramID u) ++ jopt "email" JStr (u_Email u) ++
    [("status", JStr (u_Status u)); ("reality_short_id", JStr (u_RealityShortID u)); ("uuid", JStr (u_UUID u))] ++
    jnonempty "hysteria2_password" (u_Hysteria2Password u) ++ jnonempty "private_key" (u_PrivateKey u) ++
    jopt "subscription_id" JStr (u_SubscriptionID u) ++
    [("device_limit", JInt (u_DeviceLimit u)); ("quota_bytes", JInt (u_QuotaBytes u)); ("used_bytes", JInt (u_UsedBytes u));
     ("created_at", c); ("updated_at", m)])).
Definition Transport_json (t : Transport) : json :=
  let vless p := JObj ([("server_names", JSlice (JStr <$> vr_ServerNames p)); ("dest", JStr (vr_Dest p)); ("public_key", JStr (vr_PublicKey p));
    ("short_ids", JSlice (JStr <$> vr_ShortIDs p)); ("flow", JStr (vr_Flow p))] ++ jnonempty "fingerprint" (vr_Fingerprint p) ++
    jnonempty "spider_x" (vr_SpiderX p)) in
  let awg p := JObj ([("public_key", JStr (awg_PublicKey p))] ++ jnonzero "mtu" (awg_MTU p) ++
    [("jc", JInt (awg_Jc p)); ("jmin", JInt (awg_Jmin p)); ("jmax", JInt (awg_Jmax p)); ("s1", JInt (awg_S1 p));
     ("s2", JInt (awg_S2 p)); ("h1", JInt (awg_H1 p)); ("h2", JInt (awg_H2 p)); ("h3", JInt (awg_H3 p)); ("h4", JInt (awg_H4 p))]) in
  let hy p := JObj (jnonempty "obfs" (hy_Obfs p) ++ jnonempty "obfs_password" (hy_ObfsPassword p) ++
    [("password", JStr (hy_Password p)); ("sni", JStr (hy_SNI p))] ++ jnonzero "up_mbps" (hy_UpMbps p) ++
    jnonzero "down_mbps" (hy_DownMbps p) ++ (if hy_Insecure p then [("insecure", JBool true)] else [])) in
  let ss p := JObj [("method", JStr (ss_Method p)); ("psk", JStr (ss_PSK p))] in
  JObj ([("tag", JStr (t_Tag t)); ("type", JStr (t_Type t)); ("version", JStr (t_Version t)); ("port", JInt (t_Port t));
    ("enabled", JBool (t_Enabled t)); ("priority", JInt (t_Priority t))] ++ jopt "vless_reality" vless (t_VlessReality t) ++
    jopt "amneziawg" awg (t_AmneziaWG t) ++ jopt "hysteria2" hy (t_Hysteria2 t) ++ jopt "shadowsocks_2022" ss (t_Shadowsocks2022 t)).
Definition Node_json (n : Node) : option json :=
  r ← joptime "rotate_after" (n_RotateAfter n); c ← JTime (n_CreatedAt n); e ← joptime "expires_at" (n_ExpiresAt n);
  Some (JObj ([("id", JStr (n_ID n)); ("role", JStr (n_Role n)); ("status", JStr (n_Status n))] ++
    jopt "entry_node_id" JStr (n_EntryNodeID n) ++
    [("provider", JStr (n_Provider n)); ("cloud", JStr (n_Cloud n)); ("region", JStr (n_Region n))] ++
    jnonempty "entry_ip" (n_EntryIP n) ++
    [("ephemeral_entry_ip", JBool (n_EphemeralEntryIP n)); ("transports", JSlice (Transport_json <$> n_Transports n))] ++
    jnonzero "capacity_users" (n_CapacityUsers n) ++ r ++ [("created_at", c)] ++ e ++
    (if decide (n_Labels n = ∅) then [] else [("labels", JMap (JStr <$> n_Labels n))]))).
Definition SubscriptionBundle_json (b : SubscriptionBundle) : option json :=
  u ← User_json (sb_User b); ns ← mapM Node_json (sb_Nodes b); g ← JTime (sb_GeneratedAt b);
  Some (JObj [("user", u); ("nodes", JSlice ns); ("generated_at", g)]).
Definition Subscription_json (s : Subscription) : option json :=
  g ← joptime "grace_until" (s_GraceUntil s); st ← JTime (s_StartsAt s); e ← joptime "expires_at" (s_ExpiresAt s);
  c ← JTime (s_CreatedAt s); m ← JTime (s_UpdatedAt s);
  Some (JObj ([("id", JStr (s_ID s)); ("user_id", JStr (s_UserID s)); ("plan", JStr (s_Plan s)); ("status", JStr (s_Status s));
    ("token", JStr (s_Token s)); ("traffic_limit_bytes", JInt (s_TrafficLimitBytes s)); ("speed_limit_mbps", JInt (s_SpeedLimitMbps s));
    ("device_limit", JInt (s_DeviceLimit s))] ++ g ++ jnonzero "billing_revision" (s_BillingRevision s) ++ [("starts_at", st)] ++ e ++
    [("created_at", c); ("updated_at", m)])).

(** ** Subscription service: formats, headers and documents

    services/subscription/internal: config/routing.go, render/format.go, render/happ.go, render/routing.go,
    render/render.go. A routing policy is the decoded file: its engine-native fragments are JSON trees. *)
(** ** config/routing.go *)
Definition TagDirect : string := "direct".
Definition TagProxy : string := "proxy".
Definition TagAuto : string := "auto".
Definition ClashProxyGroup : string := "PROXY".
Definition ClashAutoGroup : string := "AUTO".
(** [sr_DNS] is verbatim; [None] is an absent fragment. *)
Record SingBoxRouting := {
  sr_DNS : option json; sr_DefaultDomainResolver : gomap; sr_RuleSets : list gomap; sr_Rules : list gomap; sr_Final : string }.
Record ClashRouting := { cr_DNS : gomap; cr_RuleProviders : gomap; cr_Rules : list string }.
Record RoutingPolicy := { rp_ProbeURL : string; rp_ProbeInterval : string; rp_SingBox : SingBoxRouting; rp_Clash : ClashRouting }.
Definition RoutingPolicy_Validate (r : RoutingPolicy) : result RoutingPolicy :=
  if bool_decide (rp_ProbeURL r = "") then Err (Errorf "config: routing policy requires probe_url")
  else
    let s := rp_SingBox r in
    Ok {| rp_ProbeURL := rp_ProbeURL r;
          rp_ProbeInterval := if bool_decide (rp_ProbeInterval r = "") then "3m" else rp_ProbeInterval r;
          rp_SingBox := {| sr_DNS := sr_DNS s; sr_DefaultDomainResolver := sr_DefaultDomainResolver s;
                           sr_RuleSets := sr_RuleSets s; sr_Rules := sr_Rules s;
                           sr_Final := if bool_decide (sr_Final s = "") then TagProxy else sr_Final s |};
          rp_Clash := rp_Clash r |}.

(** ** render/format.go *)
Abbreviation Format := string (only parsing).
Definition FormatBase64 : Format := "base64".
Definition FormatSingBox : Format := "singbox".
Definition FormatClash : Format := "clash".
Definition contains_any (s : string) (l : list string) : bool := existsb (Contains s) l.
Definition Negotiate (formatParam accept userAgent : string) : Format :=
  let f := ToLower (TrimSpace formatParam) in
  let a := ToLower accept in
  let ua := ToLower userAgent in
  if bool_decide (f = "base64") then FormatBase64
  else if one_of f ["singbox"; "sing-box"] then FormatSingBox
  else if one_of f ["clash"; "clash-meta"; "mihomo"] then FormatClash
  else if Contains a "application/json" then FormatSingBox
  else if contains_any a ["application/yaml"; "text/yaml"; "application/x-yaml"] then FormatClash
  else if Contains a "text/plain" then FormatBase64
  else if contains_any ua ["clash"; "mihomo"; "meta"] then FormatClash
  else if contains_any ua ["sing-box"; "singbox"] then FormatSingBox
  else if contains_any ua ["happ"; "v2ray"; "nekobox"; "streisand"; "shadowrocket"] then FormatBase64
  else FormatBase64.

(** ** render/happ.go *)
Record HappMeta := {
  hm_ProfileUpdateHours : Z; hm_ProfileTitle : string; hm_Announce : string; hm_SupportURL : string; hm_WebPageURL : string;
  hm_UsedBytes : Z; hm_TotalBytes : Z; hm_ExpireUnix : Z }.
Definition b64 (s : string) : string := base64 false (bytes_of s).
Definition userinfo (used total expireUnix : Z) : string :=
  join "; " (["upload=0"; "download=" +:+ itoa used; "total=" +:+ itoa total] ++
             if 0 <? expireUnix then ["expire=" +:+ itoa expireUnix] else []).
Definition WriteHappHeaders (m : HappMeta) (h : gmap string string) : gmap string string :=
  let opt (name v value : string) (h : gmap string string) := if bool_decide (v = "") then h else <[name := value]> h in
  let h := if 0 <? hm_ProfileUpdateHours m then <["Profile-Update-Interval" := itoa (hm_ProfileUpdateHours m)]> h else h in
  let h := <["Subscription-Userinfo" := userinfo (hm_UsedBytes m) (hm_TotalBytes m) (hm_ExpireUnix m)]> h in
  let h := <["Routing-Enable" := "1"]> h in
  let h := opt "Profile-Title" (hm_ProfileTitle m) ("base64:" +:+ b64 (hm_ProfileTitle m)) h in
  let h := opt "Announce" (hm_Announce m) ("base64:" +:+ b64 (hm_Announce m)) h in
  let h := opt "Support-Url" (hm_SupportURL m) (hm_SupportURL m) h in
  opt "Profile-Web-Page-Url" (hm_WebPageURL m) (hm_WebPageURL m) h.
Definition HappMetaFor (sub : Subscription) (user : User) (updateHours : Z) (title announce supportURL webURL : string) : HappMeta := {|
  hm_ProfileUpdateHours := updateHours; hm_ProfileTitle := title; hm_Announce := announce; hm_SupportURL := supportURL;
  hm_WebPageURL := webURL; hm_UsedBytes := u_UsedBytes user; hm_TotalBytes := s_TrafficLimitBytes sub;
  hm_ExpireUnix := match AccessUntil sub with Some t => Unix t | None => 0 end |}.
Definition HappAddDeepLink (subscriptionURL : string) : string := "happ://add/" +:+ b64 subscriptionURL.

(** ** render/routing.go *)
Definition outbound_tag (o : gomap) : string := match o !! "tag" with Some (JStr s) => s | _ => "" end.
Definition reserved (tag : string) : bool := one_of tag [TagDirect; TagProxy; TagAuto].
Definition singBoxProxyTags (outbounds : list gomap) : list string :=
  filter (λ tag, tag ≠ "" ∧ reserved tag = false) (outbound_tag <$> outbounds).
Definition unless_empty (k : string) (v : json) (empty : bool) (m : gomap) : gomap := if empty then m else <[k := v]> m.
Definition direct_outbound : gomap := gomap_of [("type", JStr "direct"); ("tag", JStr TagDirect)].
Definition singbox_outbounds (proxies : list gomap) (tags : list string) (p : RoutingPolicy) : list gomap :=
  match tags with
  | [] => proxies ++ [direct_outbound]
  | _ => proxies ++
      [gomap_of [("type", JStr "urltest"); ("tag", JStr TagAuto); ("outbounds", JStrs tags); ("url", JStr (rp_ProbeURL p));
                 ("interval", JStr (rp_ProbeInterval p))];
       gomap_of [("type", JStr "selector"); ("tag", JStr TagProxy); ("outbounds", JStrs (TagAuto :: tags)); ("default", JStr TagAuto)];
       direct_outbound]
  end.
Definition singbox_route (tags : list string) (p : RoutingPolicy) : gomap :=
  let s := rp_SingBox p in
  let route : gomap := <["auto_detect_interface" := JBool true]> ∅ in
  match tags with
  | [] => <["final" := JStr TagDirect]> route
  | _ =>
      unless_empty "rule_set" (JArr (JMap <$> sr_RuleSets s)) (Nat.eqb (length (sr_RuleSets s)) 0)
        (unless_empty "rules" (JArr (JMap <$> sr_Rules s)) (Nat.eqb (length (sr_Rules s)) 0)
          (unless_empty "default_domain_resolver" (JMap (sr_DefaultDomainResolver s)) (bool_decide (sr_DefaultDomainResolver s = ∅))
            (<["final" := JStr (sr_Final s)]> route)))
  end.
Definition singbox_doc (b : SubscriptionBundle) (p : RoutingPolicy) : gomap :=
  let proxies := ToSingBox b in
  let tags := singBoxProxyTags proxies in
  let doc := gomap_of [("log", JMap (<["level" := JStr "warn"]> ∅)); ("outbounds", JArr (JMap <$> singbox_outbounds proxies tags p));
                       ("route", JMap (singbox_route tags p))] in
  match tags, sr_DNS (rp_SingBox p) with
  | _ :: _, Some dns => <["dns" := dns]> doc
  | _, _ => doc
  end.
Definition singBoxDocument (b : SubscriptionBundle) (p : RoutingPolicy) : string := MarshalIndent (JMap (singbox_doc b p)).

Definition clashProxyNames (b : SubscriptionBundle) : list string := t_Tag <$> concat (enabledTransports <$> sb_Nodes b).
Definition intervalSeconds (d : string) : Z :=
  match ParseDuration d with Some dur => if dur <=? 0 then 180 else Z.quot dur Second | None => 180 end.
Definition clash_groups (names : list string) (p : RoutingPolicy) : json :=
  JArr [JMap (gomap_of [("name", JStr ClashProxyGroup); ("type", JStr "select"); ("proxies", JStrs (ClashAutoGroup :: names))]);
        JMap (gomap_of [("name", JStr ClashAutoGroup); ("type", JStr "url-test"); ("url", JStr (rp_ProbeURL p));
                        ("interval", JInt (intervalSeconds (rp_ProbeInterval p))); ("proxies", JStrs names)])].
Definition clashDocument (b : SubscriptionBundle) (p : RoutingPolicy) : string :=
  let names := clashProxyNames b in
  let section name v := name +:+ ": " +:+ Marshal v +:+ newline in
  let none := Nat.eqb (length names) 0 in
  ToClashMetaYAML b +:+
  (if none then "" else section "proxy-groups" (clash_groups names p)) +:+
  (if decide (cr_RuleProviders (rp_Clash p) = ∅) then "" else section "rule-providers" (JMap (cr_RuleProviders (rp_Clash p)))) +:+
  (if decide (cr_DNS (rp_Clash p) = ∅) then "" else section "dns" (JMap (cr_DNS (rp_Clash p)))) +:+
  "rules:" +:+ newline +:+
  join "" ((λ r, "  - " +:+ r +:+ newline) <$> cr_Rules (rp_Clash p)) +:+
  "  - MATCH," +:+ (if none then "DIRECT" else ClashProxyGroup) +:+ newline.

(** ** render/render.go *)
Definition ErrUnavailable : error := Sentinel "render: no usable personal VPN transports".
Definition CTBase64 : string := "text/plain; charset=utf-8".
Definition CTSingBox : string := "application/json; charset=utf-8".
Definition CTClash : string := "application/yaml; charset=utf-8".
Definition available (f : Format) (b : SubscriptionBundle) : bool :=
  existsb (λ n, existsb (λ t, t_Enabled t && (negb (bool_decide (f = FormatBase64)) || negb (bool_decide (t_Type t = TransportAmneziaWG))))
    (n_Transports n)) (sb_Nodes b).
Definition Render (policy : RoutingPolicy) (f : Format) (b : SubscriptionBundle) : result (string * string) :=
  if negb (available f b) then Err ErrUnavailable
  else if bool_decide (f = FormatBase64) then Ok (ToBase64List b, CTBase64)
  else if bool_decide (f = FormatSingBox) then Ok (singBoxDocument b policy, CTSingBox)
  else if bool_decide (f = FormatClash) then Ok (clashDocument b policy, CTClash)
  else Err (Errorf "render: unknown format").
