(* ===== verification/OrchestratorAdapters.v ===== *)
(** * The orchestrator's adapters (services/orchestrator/internal: provision/script.go, probe/probe.go, cpclient, telemetryclient)

    The provisioner that runs the lifecycle scripts, over an interface of the operating system whose calls are
    recorded; the TCP prober over a dialer; the HTTP clients over the shared client. A script is its name and
    the variables added to the environment it inherits. *)
From S2P Require Import Prelude GoBytes GoText GoTime GoTrace Contracts GoUrl OrchestratorPolicy OrchestratorLoop Platform SubscriptionOutput.

(** ** provision/script.go *)
Module Provision.
(** What one run of a command gave: its exit code, its output, its error, and whether its deadline passed *)
Record outcome := { oc_Exit : Z; oc_Output : list Z; oc_Err : option error; oc_TimedOut : bool }.
(** Files, processes, randomness, clock and environment. [os_RunDir] is the absolute default directory of the
    manifests, which path/filepath computes from the working directory. *)
Record OS (E : Type) := {
  os_Stat : string → M E unit; os_Exec : string → gmap string string → E → outcome * E; os_Rand : nat → M E (list Z); os_Now : E → Time * E;
  os_CreateTemp : M E string; os_Chmod : string → M E unit; os_Write : string → NodeAccessUsers → M E unit; os_Close : string → M E unit;
  os_Remove : string → M E unit; os_ReadFile : string → M E (list Z); os_Getenv : string → E → string * E; os_RunDir : E → string * E }.
Arguments os_Stat {E}. Arguments os_Exec {E}. Arguments os_Rand {E}. Arguments os_Now {E}. Arguments os_CreateTemp {E}.
Arguments os_Chmod {E}. Arguments os_Write {E}. Arguments os_Close {E}. Arguments os_Remove {E}. Arguments os_ReadFile {E}.
Arguments os_Getenv {E}. Arguments os_RunDir {E}.
Inductive event :=
| SExec (script : string) (vars : gmap string string) (ok : bool)
| SCreate (r : result string)
| SWrite (path : string) (snapshot : NodeAccessUsers) (ok : bool)
| SClose (path : string) (ok : bool)
| SRemove (path : string)
| SRead (path : string) (r : result (list Z)).
Record manifest := { mf_RunID : string; mf_Entry : string; mf_Exit : string }.

Definition runIDLabel : string := "orchestrator.run_id".
Definition workspaceLabel : string := "orchestrator.tf_workspace".
Definition tailBytes : nat := 4096.
Definition tail_of (b : list Z) : string := string_of_bytes (drop (length b - tailBytes) b).
Definition label (n : Node) (k : string) : string := TrimSpace (default "" (n_Labels n !! k)).
Definition lifecycleIdentity (n : Node) : result string :=
  let runID := label n runIDLabel in
  let workspace := label n workspaceLabel in
  if bool_decide (runID = "") || bool_decide (workspace = "") then Err (Errorf "provision: node lacks labels")
  else if negb (bool_decide (runID = workspace)) then Err (Errorf "provision: node identity mismatch")
  else Ok runID.
(** The last enabled transport of each kind wins. *)
Definition transport_context (acc : string * string * string) (t : Transport) : string * string * string :=
  let '(names, dest, sni) := acc in
  if negb (t_Enabled t) then acc
  else if bool_decide (t_Type t = TransportVlessReality) then
    match t_VlessReality t with Some p => (join "," (vr_ServerNames p), TrimSpace (vr_Dest p), sni) | None => acc end
  else if bool_decide (t_Type t = TransportHysteria2) then
    match t_Hysteria2 t with Some p => (names, dest, TrimSpace (hy_SNI p)) | None => acc end
  else acc.
Definition nodeTransportContext (n : Node) : result (string * string * string) :=
  let '(names, dest, sni) := foldl transport_context ("", "", "") (n_Transports n) in
  if bool_decide (names = "") || bool_decide (dest = "") || bool_decide (sni = "")
  then Err (Errorf "provision: active node lacks transport context") else Ok (names, dest, sni).
(** [t.UTC().Format("20060102-150405")] *)
Definition stamp (t : Time) : string :=
  let c := civil_of t in
  digits 4 (year c) +:+ digits 2 (month c) +:+ digits 2 (day c) +:+ "-" +:+ digits 2 (hour c) +:+ digits 2 (minute c) +:+ digits 2 (second c).

Section runner.
Context {E : Type} (os : OS E) (dir : string) (env : gmap string string) (decode : list Z → option manifest).
Abbreviation SM := (M (Traced E event)).
(** A call that leaves no event *)
Definition silently {A} (m : M E A) : SM A := λ w, let '(r, e) := m (tw_env w) in (r, mkTraced e (tw_trace w)).
Definition of_result {A} (r : result A) : SM A := λ w, (r, w).
Definition runDir : SM string :=
  let v := TrimSpace (default "" (env !! "RUN_DIR")) in
  if negb (bool_decide (v = "")) then mret v
  else
    inherited ←! reading (os_Getenv os "RUN_DIR") ;
    if negb (bool_decide (TrimSpace inherited = "")) then mret (TrimSpace inherited) else reading (os_RunDir os).
Definition script_error (script : string) (o : outcome) (cause : error) : error :=
  Typed "*provision.Error" script (tail_of (oc_Output o)) cause.
Definition run (script : string) (vars : gmap string string) : SM unit :=
  wrapping "provision: script" (silently (os_Stat os (dir +:+ "/" +:+ script))) ;;!
  call (λ r, SExec script vars (is_ok r)) (λ e,
    let '(o, e) := os_Exec os script (vars ∪ env) e in
    let err := if oc_TimedOut o then Some (Wrap "timed out" (Sentinel "context deadline exceeded")) else oc_Err o in
    (match err with Some cause => Err (script_error script o cause) | None => Ok tt end, e)).
Definition freshRunID : SM string :=
  suffix ←! wrapping "provision: generate run id" (silently (os_Rand os 6)) ;
  t ←! reading (os_Now os) ;
  mret ("run-" +:+ stamp t +:+ "-" +:+ hex_encode suffix).
Definition readPair (runID : string) : SM ProvisionedPair :=
  dir ←! runDir ;
  let path := dir +:+ "/" +:+ runID +:+ ".json" in
  b ←! wrapping "provision: read run manifest" (call (SRead path) (os_ReadFile os path)) ;
  match decode b with
  | None => fail (Errorf "provision: decode run manifest")
  | Some m =>
      if negb (bool_decide (mf_RunID m = runID)) || bool_decide (mf_Entry m = "") || bool_decide (mf_Exit m = "")
      then fail (Errorf "provision: incomplete or mismatched run manifest")
      else mret {| pp_RunID := runID; pp_EntryID := mf_Entry m; pp_ExitID := mf_Exit m |}
  end.
Definition run_vars (l : list (string * string)) : gmap string string := list_to_map l.
Definition NodeUp (region cloud : string) : SM ProvisionedPair :=
  if bool_decide (region = "") || bool_decide (cloud = "") then fail (Errorf "provision: node up requires region and cloud")
  else
    runID ←! freshRunID ;
    d ←! runDir ;
    run "node_up.sh" (run_vars [("REGION", region); ("CLOUD", cloud); ("RUN_ID", runID); ("TF_WORKSPACE", runID); ("RUN_DIR", d)]) ;;!
    pair ←! readPair runID ;
    d ←! runDir ;
    wrapping "provision: replacement run failed guarded activation" (run "reconcile_live.sh" (run_vars [("RUN_ID", runID); ("RUN_DIR", d)])) ;;!
    mret pair.
Definition NodeRotate (n : Node) : SM unit :=
  if bool_decide (n_ID n = "") then fail (Errorf "provision: node rotate requires a node id")
  else
    runID ←! of_result (lifecycleIdentity n) ;
    d ←! runDir ;
    run "node_rotate.sh" (run_vars [("RUN_ID", runID); ("RUN_DIR", d); ("NODE", n_ID n)]) ;;!
    d ←! runDir ;
    wrapping "provision: rotate run failed guarded activation" (run "reconcile_live.sh" (run_vars [("RUN_ID", runID); ("RUN_DIR", d)])).
Definition NodeDown (n : Node) : SM unit :=
  if bool_decide (n_ID n = "") then fail (Errorf "provision: node down requires a node id")
  else
    runID ←! of_result (lifecycleIdentity n) ;
    d ←! runDir ;
    run "node_down.sh" (run_vars [("RUN_ID", runID); ("RUN_DIR", d); ("NODE", n_ID n)]).
(** What is done with the temporary file, which is removed on every way out *)
Definition with_snapshot (n : Node) (snapshot : NodeAccessUsers) (runID path : string) : SM unit :=
  (mode ←! try (silently (os_Chmod os path)) ;
   match mode with
   | Err e => ignore (call (λ r, SClose path (is_ok r)) (os_Close os path)) ;;! fail (wrap_err "provision: chmod access snapshot" e)
   | Ok _ =>
       written ←! try (call (λ r, SWrite path snapshot (is_ok r)) (os_Write os path snapshot)) ;
       match written with
       | Err e => ignore (call (λ r, SClose path (is_ok r)) (os_Close os path)) ;;! fail (wrap_err "provision: encode access snapshot" e)
       | Ok _ =>
           wrapping "provision: close access snapshot" (call (λ r, SClose path (is_ok r)) (os_Close os path)) ;;!
           ctx ←! of_result (nodeTransportContext n) ;
           let '(names, dest, sni) := ctx : string * string * string in
           d ←! runDir ;
           run "access_sync.sh" (run_vars [("RUN_ID", runID); ("RUN_DIR", d); ("NODE", n_ID n); ("ACCESS_SNAPSHOT_FILE", path);
             ("HY2_SNI", sni); ("REALITY_SERVER_NAMES", names); ("REALITY_DEST", dest)])
       end
   end).
Definition removing {A} (path : string) (m : SM A) : SM A :=
  r ←! try m ;
  ignore (call (λ _, SRemove path) (os_Remove os path)) ;;!
  of_result r.
Definition SyncAccess (n : Node) (snapshot : NodeAccessUsers) : SM unit :=
  if bool_decide (n_ID n = "") || bool_decide (nau_Revision snapshot = "") || IsZero (nau_ValidUntil snapshot)
  then fail (Errorf "provision: access sync requires node id, revision and valid_until")
  else
    t ←! reading (os_Now os) ;
    if negb (After (nau_ValidUntil snapshot) t) then fail (Errorf "provision: access snapshot already expired")
    else
      runID ←! of_result (lifecycleIdentity n) ;
      path ←! wrapping "provision: create access snapshot" (call SCreate (os_CreateTemp os)) ;
      removing path (with_snapshot n snapshot runID path).
End runner.
End Provision.

(** ** probe/probe.go *)
Module Probe.
Definition probePort (n : Node) : Z :=
  match list_find (λ t, (t_Enabled t && (0 <? t_Port t)) = true) (n_Transports n) with Some (_, t) => t_Port t | None => 0 end.
(** [net.JoinHostPort]: a host with a colon is put in brackets. *)
Definition JoinHostPort (host port : string) : string :=
  if Contains host ":" then "[" +:+ host +:+ "]:" +:+ port else host +:+ ":" +:+ port.
Section prober.
Context {E : Type} (source : string) (now : E → Time * E) (dial : string → M E unit) (text : error → string).
Definition Probe (n : Node) : M E HealthEvent := λ e,
  let '(observed, e) := now e in
  let verdict (status detail : string) (latency : Z) : HealthEvent := {|
    he_NodeID := n_ID n; he_Status := status; he_ProbeSource := source; he_BlockedFromRegions := []; he_LatencyMs := latency;
    he_Detail := detail; he_ObservedAt := observed |} in
  let port := probePort n in
  if bool_decide (n_EntryIP n = "") || (port =? 0) then (Ok (verdict HealthUnreachable "no advertised entry_ip/port to probe" 0), e)
  else
    let '(start, e) := now e in
    match dial (JoinHostPort (n_EntryIP n) (itoa port)) e with
    | (Err err, e) => (Ok (verdict HealthUnreachable ("tcp dial failed: " +:+ text err) 0), e)
    | (Ok _, e) => let '(finish, e) := now e in (Ok (verdict HealthHealthy "" (Z.quot (Sub finish start) Millisecond)), e)
    end.
End prober.
End Probe.

(** ** cpclient/client.go, telemetryclient/client.go *)
Module Clients.
Record PortFilter := { pt_Status : string; pt_Role : string; pt_Region : string }.
Definition maxPages : nat := 100.
Definition HealthEvent_json (ev : HealthEvent) : option json :=
  t ← JTime (he_ObservedAt ev);
  Some (JObj ([("node_id", JStr (he_NodeID ev)); ("status", JStr (he_Status ev)); ("probe_source", JStr (he_ProbeSource ev))] ++
    (match he_BlockedFromRegions ev with [] => [] | l => [("blocked_from_regions", JStrs l)] end) ++
    jnonzero "latency_ms" (he_LatencyMs ev) ++ jnonempty "detail" (he_Detail ev) ++ [("observed_at", t)])).
Definition payload (j : option json) : result (option string) :=
  match j with Some j => Ok (Some (Marshal j)) | None => Err (Errorf "json") end.
Record Decoders := {
  cd_page : list Z → option (list Node * string); cd_node : list Z → option Node; cd_access : list Z → option NodeAccessUsers;
  cd_recommendations : list Z → option Recommendations }.
Section clients.
Context {E : Type} (attempt : Httpx.exchange → M E (Z * list Z)) (pause : E → result unit * E) (dec : Decoders).
Abbreviation XM := (M (Traced E (Httpx.exchange * result (Z * list Z)))).
Definition zero_or {A} (zero : A) (o : option A) : A := default zero o.
Definition page_query (f : PortFilter) (cursor : string) : Values :=
  let set (k v : string) (q : Values) : Values := if bool_decide (v = "") then q else <[k := v]> q in
  set "cursor" cursor (set "region" (pt_Region f) (set "role" (pt_Role f) (set "status" (pt_Status f) ∅))).
Definition nodes_path (f : PortFilter) (cursor : string) : string :=
  let enc := Values_Encode (page_query f cursor) in
  if bool_decide (enc = "") then "/v1/nodes" else "/v1/nodes?" +:+ enc.
Fixpoint list_from (budget : nat) (f : PortFilter) (cursor : string) (nodes : list Node) : XM (list Node) :=
  match budget with
  | O => fail (Errorf "control-plane: list nodes: pagination exceeded pages")
  | S budget =>
      pg ←! wrapping "control-plane: list nodes" (Httpx.GetJSON attempt pause (nodes_path f cursor) (cd_page dec)) ;
      let '(items, next) := default ([], "") pg : list Node * string in
      if bool_decide (next = "") then mret (nodes ++ items) else list_from budget f next (nodes ++ items)
  end.
Definition ListNodes (f : PortFilter) : XM (list Node) := list_from maxPages f "" [].
Definition node_path (id : string) : string := "/v1/nodes/" +:+ PathEscape id.
Definition some_or {A} (o : option A) : XM A := match o with Some a => mret a | None => fail (Errorf "no body") end.
Definition GetNode (id : string) : XM Node :=
  n ←! wrapping "control-plane: get node" (Httpx.GetJSON attempt pause (node_path id) (cd_node dec)) ; some_or n.
Definition UpdateNode (n : Node) : XM Node :=
  match Node_Validate n with
  | Err e => fail (wrap_err "control-plane: refusing to send invalid node" e)
  | Ok _ =>
      out ←! wrapping "control-plane: update node" (Httpx.PatchJSON attempt pause (node_path (n_ID n)) (payload (Node_json n)) (Some (cd_node dec))) ;
      some_or out
  end.
Definition AccessUsers (id : string) : XM NodeAccessUsers :=
  out ←! wrapping "control-plane: access users" (Httpx.GetJSON attempt pause (node_path id +:+ "/access-users") (cd_access dec)) ;
  out ←! some_or out ;
  if bool_decide (nau_Revision out = "") || IsZero (nau_ValidUntil out) then fail (Errorf "control-plane: incomplete snapshot") else mret out.
Definition Recommendations_ : XM Recommendations :=
  out ←! wrapping "telemetry: recommendations" (Httpx.GetJSON attempt pause "/v1/recommendations" (cd_recommendations dec)) ; some_or out.
Definition ReportHealth (ev : HealthEvent) : XM unit :=
  match HealthEvent_Validate ev with
  | Err e => fail (wrap_err "telemetry: refusing to send invalid health event" e)
  | Ok _ =>
      wrapping "telemetry: report health"
        (Httpx.PostJSON attempt pause "/v1/health" (payload (HealthEvent_json ev)) (None : option (list Z → option unit))) ;;!
      mret tt
  end.
End clients.
End Clients.

(** ** What the provisioner guarantees (services/orchestrator/internal/provision/script.go)

    A proxied access snapshot reaches the script only once it is written and closed, and its temporary file is
    removed on every way out; a new pair is activated only after its own manifest was read. *)
Import Provision.

Section provisioner.
Context {E : Type} (os : OS E) (dir : string) (env : gmap string string) (decode : list Z → option manifest).

Lemma emits_silently {A} (m : M E A) : emits (silently m) (λ (t : list event) _, t = []).
Proof. intros w. exists []. unfold silently. destruct (m (tw_env w)). by rewrite app_nil_r. Qed.
Lemma emits_of_result {A} (r : result A) : emits (of_result r : M (Traced E event) A) (λ t r', t = [] ∧ r' = r).
Proof. intros w. exists []. by rewrite app_nil_r. Qed.
Lemma emits_read {X} (g : E → X * E) : emits (reading g : M (Traced E event) X) (λ t r, t = [] ∧ ∃ x, r = Ok x).
Proof. intros w. exists []. unfold reading. destruct (g (tw_env w)). rewrite app_nil_r. split; [done|]. split; [done|by eexists]. Qed.
Lemma emits_runDir : emits (runDir os env) (λ t r, t = [] ∧ ∃ d, r = Ok d).
Proof.
  unfold runDir. destruct (negb _).
  - eapply emits_mono; [apply emits_ret|]. intros t r [-> ->]. split; [done|by eexists].
  - apply emits_reading. intros x. destruct (negb _); [|apply emits_read].
    eapply emits_mono; [apply emits_ret|]. intros t r [-> ->]. split; [done|by eexists].
Qed.
(** A script is run at most once, and its run decides the answer. *)
Lemma emits_script script vars :
  emits (run os dir env script vars) (λ t r, (t = [] ∧ is_ok r = false) ∨ t = [SExec script vars (is_ok r)]).
Proof.
  unfold run. eapply emits_then; [apply emits_wrapping, emits_silently| |].
  - intros t1 a H1. simpl in H1. subst t1. eapply emits_mono; [apply emits_call|]. intros t r ->. by right.
  - intros t e [e' ->]. by left.
Qed.

(** *** access_sync.sh *)
(** The snapshot was written whole before the script saw it. *)
Definition synced (snapshot : NodeAccessUsers) (path : string) (t : list event) (r : result unit) : Prop :=
  ∃ t1, Forall (λ e, match e with SExec _ _ _ | SCreate _ | SRemove _ => False | _ => True end) t1 ∧
    ((t = t1 ∧ is_ok r = false) ∨
     (t1 = [SWrite path snapshot true; SClose path true] ∧
      ∃ vars, vars !! "ACCESS_SNAPSHOT_FILE" = Some path ∧ t = t1 ++ [SExec "access_sync.sh" vars (is_ok r)])).
Lemma emits_with_snapshot n snapshot runID path : emits (with_snapshot os dir env n snapshot runID path) (synced snapshot path).
Proof.
  assert (Hearly : ∀ (P : list event → result unit → Prop) msg e t1,
    (∀ ok e', P (t1 ++ [SClose path ok]) (Err e')) →
    emits (ignore (call (λ r, SClose path (is_ok r)) (os_Close os path)) ;;! fail (wrap_err msg e)) (λ t r, P (t1 ++ t) r)).
  { intros P msg e t1 HP. eapply emits_bind; [apply emits_ignore, emits_call|intros a; apply emits_fail| |].
    - intros t e' [? _]. done.
    - intros t t2 a r (_ & r0 & ->) [-> ->]. rewrite app_nil_r. apply HP. }
  unfold with_snapshot. eapply emits_then; [apply emits_try, emits_silently| |intros t e (r0 & Hr & _); done].
  intros t1 mode (r0 & [= ->] & ->). destruct r0 as [[]|e].
  2: { apply (Hearly (synced snapshot path)). intros ok e'. exists [SClose path ok]. split; [by repeat constructor|by left]. }
  eapply emits_then; [apply emits_try, emits_call| |intros t e (r0 & Hr & _); done].
  intros t1 written (r0 & [= ->] & ->). destruct r0 as [[]|e].
  2: { apply (Hearly (λ t, synced snapshot path t) _ _ [SWrite path snapshot false]). intros ok e'.
       exists [SWrite path snapshot false; SClose path ok]. split; [by repeat constructor|by left]. }
  assert (Hstop : ∀ ok e', synced snapshot path [SWrite path snapshot true; SClose path ok] (Err e')).
  { intros ok e'. eexists. split; [|by left]. by repeat constructor. }
  eapply emits_then; [apply emits_wrapping, emits_call| |].
  2: { intros t e [e' ->]. apply Hstop. }
  intros t1 [] H1. simpl in H1. subst t1. eapply emits_then; [apply emits_of_result| |].
  2: { intros t e [-> _]. apply Hstop. }
  intros t1 [[names dest] sni] [-> _]. eapply emits_then; [apply emits_runDir| |].
  2: { intros t e [-> _]. apply Hstop. }
  intros t1 d [-> _]. eapply emits_mono; [apply emits_script|]. intros t r [[-> Hr]| ->].
  - eexists. split; [|left; by split]. by repeat constructor.
  - exists [SWrite path snapshot true; SClose path true]. split; [by repeat constructor|]. right. split; [done|]. eexists. split; [|done]. done.
Qed.
Lemma emits_removing path (m : M (Traced E event) unit) P : emits m P →
  emits (removing os path m) (λ t r, ∃ t1, t = t1 ++ [SRemove path] ∧ P t1 r).
Proof.
  intros Hm. unfold removing. eapply emits_then; [by apply emits_try| |intros t e (r0 & Hr & _); done].
  intros t1 r0 (r & [= ->] & HP). eapply emits_then; [apply emits_ignore, emits_call| |intros t e [? _]; done].
  intros t [] (_ & x & ->). eapply emits_mono; [apply emits_of_result|]. intros t2 r' [-> ->]. rewrite app_nil_r. by eexists.
Qed.
(** What a synchronisation leaves in the trace, given what it answers. *)
Definition snapshot_handled (snapshot : NodeAccessUsers) (t : list event) (r : result unit) : Prop :=
  (∀ path, SCreate (Ok path) ∈ t → last t = Some (SRemove path)) ∧
  (∀ script vars ok, SExec script vars ok ∈ t → ok = is_ok r ∧ script = "access_sync.sh" ∧ ∃ path,
     vars !! "ACCESS_SNAPSHOT_FILE" = Some path ∧
     t = [SCreate (Ok path); SWrite path snapshot true; SClose path true; SExec script vars ok; SRemove path]) ∧
  (r = Ok tt → ∃ vars, SExec "access_sync.sh" vars true ∈ t).
Lemma handled_quiet snapshot t e :
  Forall (λ ev, match ev with SExec _ _ _ | SCreate (Ok _) => False | _ => True end) t → snapshot_handled snapshot t (Err e).
Proof.
  intros Ht. rewrite Forall_forall in Ht. split_and!; [|by intros script vars ok Hin%Ht|done].
  intros path Hin. by destruct (Ht _ Hin).
Qed.
Lemma handled_synced snapshot path t r :
  synced snapshot path t r → snapshot_handled snapshot (SCreate (Ok path) :: t ++ [SRemove path]) r.
Proof.
  intros (t1 & H1 & Hshape). rewrite Forall_forall in H1.
  assert (Hlast : ∀ x l, last (x :: l ++ [SRemove path]) = Some (SRemove path)).
  { intros x l. by rewrite app_comm_cons, last_snoc. }
  destruct Hshape as [[-> Hr]|(-> & vars & Hv & ->)].
  - split_and!.
    + intros p' Hin. rewrite Hlast. apply elem_of_cons in Hin as [[= ->]|Hin]; [done|].
      apply elem_of_app in Hin as [Hin|Hin]; [by apply H1 in Hin|]. apply list_elem_of_singleton in Hin. done.
    + intros script v ok Hin. apply elem_of_cons in Hin as [|Hin]; [done|].
      apply elem_of_app in Hin as [Hin|Hin]; [by apply H1 in Hin|]. apply list_elem_of_singleton in Hin. done.
    + by intros ->.
  - split_and!.
    + intros p' Hin. rewrite Hlast. by apply elem_of_cons in Hin as [[= ->]|Hin]; [|set_solver].
    + intros script v ok Hin. assert (Heq : SExec script v ok = SExec "access_sync.sh" vars (is_ok r)) by set_solver.
      injection Heq as -> -> ->. split; [done|]. split; [done|]. by exists path.
    + intros ->. exists vars. simpl. set_solver.
Qed.

Lemma fails_quietly snapshot (m : M (Traced E event) unit) (Q : Prop) w :
  is_ok (m w).1 = false → tw_trace (m w).2 = tw_trace w →
  ∃ t, tw_trace (m w).2 = tw_trace w ++ t ∧ snapshot_handled snapshot t (m w).1 ∧ (t ≠ [] → Q).
Proof.
  intros Hr Ht. exists []. rewrite app_nil_r. split; [done|]. split; [|done]. destruct (m w).1 as [[]|]; [done|]. by apply handled_quiet.
Qed.
Lemma emits_fresh_snapshot n snapshot runID :
  emits (path ←! wrapping "provision: create access snapshot" (call SCreate (os_CreateTemp os)) ;
         removing os path (with_snapshot os dir env n snapshot runID path)) (snapshot_handled snapshot).
Proof.
  eapply emits_then; [apply emits_wrapping, emits_call| |].
  - intros t1 path H1. simpl in H1. subst t1. eapply emits_mono; [apply emits_removing, emits_with_snapshot|].
    intros t r (t1 & -> & Hs). by apply handled_synced.
  - intros t e [e' ->]. apply handled_quiet. by repeat constructor.
Qed.
(** A proxied access snapshot reaches a node only whole, unexpired and under the node's own identity, and
    never outlives the call. From any environment, SyncAccess runs at most one script, access_sync.sh, with the
    path of a temporary file it created, wrote with this very snapshot and closed without an error just before;
    it does so only when the snapshot is still valid by the clock, the node and the revision are named and the
    node's labels agree on its run; it answers success exactly when that run succeeded; and whenever the
    temporary file was created, removing it is the last thing done. *)
Theorem SyncAccess_handled (n : Node) (snapshot : NodeAccessUsers) (w : Traced E event) :
  ∃ t, tw_trace (SyncAccess os dir env n snapshot w).2 = tw_trace w ++ t ∧
    snapshot_handled snapshot t (SyncAccess os dir env n snapshot w).1 ∧
    (t ≠ [] → n_ID n ≠ "" ∧ nau_Revision snapshot ≠ "" ∧
      After (nau_ValidUntil snapshot) (os_Now os (tw_env w)).1 = true ∧ is_ok (lifecycleIdentity n) = true).
Proof.
  unfold SyncAccess. destruct (decide (n_ID n = "")) as [H1|H1]; [rewrite (bool_decide_true _ H1); by apply fails_quietly|].
  destruct (decide (nau_Revision snapshot = "")) as [H2|H2];
    [rewrite (bool_decide_true _ H2), orb_true_r; by apply fails_quietly|].
  rewrite (bool_decide_false _ H1), (bool_decide_false _ H2). simpl.
  destruct (IsZero (nau_ValidUntil snapshot)); [by apply fails_quietly|].
  rewrite bind_reading. destruct (os_Now os (tw_env w)) as [now e]. simpl.
  destruct (After (nau_ValidUntil snapshot) now) eqn:Hlive; simpl; [|by apply (fails_quietly _ (fail _) _ (mkTraced e (tw_trace w)))].
  destruct (lifecycleIdentity n) as [runID|err];
    [|by apply (fails_quietly _ (of_result (Err err)) _ (mkTraced e (tw_trace w)))].
  destruct (emits_fresh_snapshot n snapshot runID (mkTraced e (tw_trace w))) as (t & Ht & Hh). by exists t.
Qed.

(** *** node_up.sh, then reconcile_live.sh *)
Lemma emits_readPair runID :
  emits (readPair os env decode runID) (λ t r, ∃ path rd, t = [SRead path rd] ∧ match r with
    | Err _ => True
    | Ok pr => ∃ b m, rd = Ok b ∧ decode b = Some m ∧ mf_RunID m = runID ∧ mf_Entry m ≠ "" ∧ mf_Exit m ≠ "" ∧
        pr = {| pp_RunID := mf_RunID m; pp_EntryID := mf_Entry m; pp_ExitID := mf_Exit m |} end).
Proof.
  unfold readPair. eapply emits_then; [apply emits_runDir| |by intros t e [_ [? ?]]].
  intros t1 d [-> _]. simpl. eapply emits_then; [apply emits_wrapping, emits_call| |].
  - intros t1 b H1. simpl in H1. subst t1. destruct (decode b) as [m|] eqn:Hm.
    2: { eapply emits_mono; [apply emits_fail|]. intros t r [-> ->]. by eexists _, _. }
    destruct (decide (mf_RunID m = runID)) as [H1|H1];
      [|rewrite (bool_decide_false _ H1); simpl; eapply emits_mono; [apply emits_fail|]; intros t r [-> ->]; by eexists _, _].
    destruct (decide (mf_Entry m = "")) as [H2|H2];
      [rewrite (bool_decide_true _ H2), orb_true_r; simpl; eapply emits_mono; [apply emits_fail|]; intros t r [-> ->]; by eexists _, _|].
    destruct (decide (mf_Exit m = "")) as [H3|H3];
      [rewrite (bool_decide_true _ H3), orb_true_r; simpl; eapply emits_mono; [apply emits_fail|]; intros t r [-> ->]; by eexists _, _|].
    rewrite (bool_decide_true _ H1), (bool_decide_false _ H2), (bool_decide_false _ H3). simpl.
    eapply emits_mono; [apply emits_ret|]. intros t r [-> ->]. eexists _, _. split; [done|]. exists b, m. by rewrite <- H1.
  - intros t e [e' ->]. by eexists _, _.
Qed.
Lemma emits_freshRunID : emits (freshRunID os) (λ t r, t = [] ∧ True).
Proof.
  unfold freshRunID. eapply emits_then; [apply emits_wrapping, emits_silently| |by intros t e [e' ->]].
  intros t1 b H1. simpl in H1. subst t1. apply emits_reading. intros now. eapply emits_mono; [apply emits_ret|]. by intros t r [-> _].
Qed.
Definition activated (t : list event) (r : result ProvisionedPair) : Prop :=
  (∀ script vars ok, SExec script vars ok ∈ t → script = "node_up.sh" ∨ script = "reconcile_live.sh") ∧
  (∀ vars ok, SExec "reconcile_live.sh" vars ok ∈ t → ok = is_ok r ∧ ∃ up path b m,
     t = [SExec "node_up.sh" up true; SRead path (Ok b); SExec "reconcile_live.sh" vars ok] ∧ decode b = Some m ∧
     mf_Entry m ≠ "" ∧ mf_Exit m ≠ "" ∧
     up !! "RUN_ID" = Some (mf_RunID m) ∧ up !! "TF_WORKSPACE" = Some (mf_RunID m) ∧ vars !! "RUN_ID" = Some (mf_RunID m)) ∧
  (∀ pr, r = Ok pr → ∃ up path b m vars,
     t = [SExec "node_up.sh" up true; SRead path (Ok b); SExec "reconcile_live.sh" vars true] ∧ decode b = Some m ∧
     pr = {| pp_RunID := mf_RunID m; pp_EntryID := mf_Entry m; pp_ExitID := mf_Exit m |}).
Lemma activated_early t e :
  Forall (λ ev, match ev with SExec script _ _ => script = "node_up.sh" | _ => True end) t → activated t (Err e).
Proof.
  intros Ht. rewrite Forall_forall in Ht. split_and!; [|intros vars ok Hin%Ht; discriminate|done].
  intros script vars ok Hin%Ht. by left.
Qed.

Lemma activated_run up path b m vars (r : result ProvisionedPair) :
  decode b = Some m → mf_Entry m ≠ "" → mf_Exit m ≠ "" →
  up !! "RUN_ID" = Some (mf_RunID m) → up !! "TF_WORKSPACE" = Some (mf_RunID m) → vars !! "RUN_ID" = Some (mf_RunID m) →
  (∀ pr, r = Ok pr → pr = {| pp_RunID := mf_RunID m; pp_EntryID := mf_Entry m; pp_ExitID := mf_Exit m |}) →
  activated [SExec "node_up.sh" up true; SRead path (Ok b); SExec "reconcile_live.sh" vars (is_ok r)] r.
Proof.
  intros Hm He Hx H1 H2 H3 Hr. split_and!.
  - intros s v ok Hin. rewrite !elem_of_cons, elem_of_nil in Hin. naive_solver.
  - intros v ok Hin. assert (Heq : SExec "reconcile_live.sh" v ok = SExec "reconcile_live.sh" vars (is_ok r)).
    { rewrite !elem_of_cons, elem_of_nil in Hin. naive_solver. }
    injection Heq as -> ->. split; [done|]. by exists up, path, b, m.
  - intros pr ->. exists up, path, b, m, vars. split; [done|]. split; [done|]. by apply Hr.
Qed.

(** C19: A new pair goes live only after its own manifest was read. From any environment, NodeUp runs at most
    node_up.sh and then reconcile_live.sh; it runs the second only when the first succeeded and the manifest it
    then read decodes to an entry and an exit of the very run both scripts and the Terraform workspace were
    given; it answers success exactly when that second run succeeded, and then with the pair of that manifest. *)
Theorem NodeUp_activated (region cloud : string) :
  emits (NodeUp os dir env decode region cloud) activated.
Proof.
  unfold NodeUp. destruct (_ || _).
  { eapply emits_mono; [apply emits_fail|]. intros t r [-> ->]. by apply activated_early. }
  eapply emits_then; [apply emits_freshRunID| |intros t e [-> _]; by apply activated_early].
  intros t1 runID [-> _]. eapply emits_then; [apply emits_runDir| |intros t e [-> _]; by apply activated_early].
  intros t1 d [-> _]. eapply emits_then; [apply emits_script| |].
  2: { intros t e [[-> _]| ->]; apply activated_early; by repeat constructor. }
  intros t1 [] [[-> Hok]| ->]; [done|]. eapply emits_then; [apply emits_readPair| |].
  2: { intros t e (path & rd & -> & _). apply activated_early. by repeat constructor. }
  intros t1 pr (path & rd & -> & b & m & -> & Hm & <- & He & Hx & ->).
  assert (Hstop : ∀ e v, v = run_vars [("REGION", region); ("CLOUD", cloud); ("RUN_ID", mf_RunID m); ("TF_WORKSPACE", mf_RunID m); ("RUN_DIR", d)] →
    activated [SExec "node_up.sh" v true; SRead path (Ok b)] (Err e)).
  { intros e v ->. apply activated_early. by repeat constructor. }
  eapply emits_then; [apply emits_runDir| |intros t e [-> _]; by apply Hstop].
  intros t1 d' [-> _]. eapply emits_then; [apply emits_wrapping, emits_script| |].
  - intros t1 [] [[-> Hok]| ->]; [done|]. eapply emits_mono; [apply emits_ret|]. intros t r [-> ->].
    apply (activated_run _ _ _ m _ (Ok _)); [done..|]. by intros pr [= ->].
  - intros t e [e' [[-> _]| ->]]; [by apply Hstop|]. by apply (activated_run _ _ _ m _ (Err _)).
Qed.
End provisioner.
