(* ===== verification/ControlHttp.v ===== *)
(** * The control-plane's HTTP API (services/control-plane/internal: authz, adapters/httpapi, adapters/memory/operator.go)

    Roles and tokens, the table of routes with the roles each admits, and every handler as a computation on the
    control-plane's state. What the chi router matches (an entry of a table and the parameter [id]) and the JSON
    decoders of the request bodies are parameters; the text of an error is one too. *)
From S2P Require Import Prelude GoBytes GoText GoCodec GoUrl Contracts ControlStore ControlUse ControlFleet Platform.
From S2P Require SubscriptionOutput.
Import Domain.

(** ** authz/authz.go *)
Abbreviation Role := string (only parsing).
Definition RoleAdmin : Role := "admin".
Definition RoleOrchestrator : Role := "orchestrator".
Definition RoleTelemetry : Role := "telemetry".
Definition RoleSubscription : Role := "subscription".
Definition RoleBilling : Role := "billing".
Definition RoleDelivery : Role := "delivery".
Definition ParseRole (s : string) : option Role :=
  if one_of s [RoleAdmin; RoleOrchestrator; RoleTelemetry; RoleSubscription; RoleBilling; RoleDelivery] then Some s else None.
Definition TokenStore : Type := gmap string Role.
Definition NewTokenStore (tokens : gmap string Role) : TokenStore := tokens.
Definition TokenStore_Empty (s : TokenStore) : bool := (size s =? 0)%nat.
(** Every configured token is compared. *)
Definition TokenStore_Resolve `{ord : !MapOrder} (s : TokenStore) (presented : string) : option Role :=
  foldl (λ found kv, if bool_decide (kv.1 = presented) then Some kv.2 else found) None (range s).
Definition Allows (role : Role) (allowed : list Role) : bool := existsb (λ a, bool_decide (role = a)) allowed.

(** ** adapters/memory/operator.go *)
Record OperatorAccount := {
  oa_ID : string; oa_Status : UserStatus; oa_SubscriptionID : option string; oa_Plan : SubscriptionPlan;
  oa_SubscriptionStatus : SubscriptionStatus; oa_ExpiresAt : option Time; oa_GraceUntil : option Time; oa_UpdatedAt : Time }.
Record ControlPlaneOperatorSummary := {
  os_Users : gmap string Z; os_Subscriptions : gmap string Z; os_Recent : list OperatorAccount }.
Definition count_up (k : string) (m : gmap string Z) : gmap string Z := <[k := default 0 (m !! k) + 1]> m.
Definition operator_account (s : Store) (u : User) : OperatorAccount :=
  let sub := id ← u_SubscriptionID u; sub ← c_subs s !! id; if bool_decide (s_UserID sub = u_ID u) then Some sub else None in
  {| oa_ID := u_ID u; oa_Status := u_Status u; oa_SubscriptionID := u_SubscriptionID u;
     oa_Plan := default "" (s_Plan <$> sub); oa_SubscriptionStatus := default "" (s_Status <$> sub);
     oa_ExpiresAt := sub ≫= s_ExpiresAt; oa_GraceUntil := sub ≫= s_GraceUntil; oa_UpdatedAt := u_UpdatedAt u |}.
Definition OperatorAccount_less (a b : OperatorAccount) : bool :=
  if TEqual (oa_UpdatedAt a) (oa_UpdatedAt b) then str_lt (oa_ID b) (oa_ID a) else After (oa_UpdatedAt a) (oa_UpdatedAt b).
Definition OperatorReader_Read `{ord : !MapOrder} (s : Store) : ControlPlaneOperatorSummary := {|
  os_Users := foldl (λ m kv, count_up (u_Status kv.2) m)
    (list_to_map ((λ st, (st, 0)) <$> [UserStatusActive; UserStatusSuspended; UserStatusExpired; UserStatusBanned])) (range (c_users s));
  os_Subscriptions := foldl (λ m kv, count_up (s_Status kv.2) m)
    (list_to_map ((λ st, (st, 0)) <$> [SubscriptionStatusTrialing; SubscriptionStatusActive; SubscriptionStatusPastDue;
                                       SubscriptionStatusCanceled; SubscriptionStatusExpired])) (range (c_subs s));
  os_Recent := take 50 (sort_slice OperatorAccount_less (operator_account s <$> (range (c_users s)).*2)) |}.

(** ** dto.go, errors.go: what is answered *)
Record aggregateDTO := {
  dto_NodeID : string; dto_Region : string; dto_WindowStart : Time; dto_WindowEnd : Time; dto_Total : Z; dto_BySignal : gmap string Z }.
Record NodeActivation := { na_ExpectedAccessRevision : string; na_ExpectedRevision : string; na_Evidence : string }.
Inductive detail := DText (s : string) | DErr (e : error).
Inductive body :=
| BNone
| BText (s : string)
| BError (code : string) (d : detail)
| BStatus (m : gmap string string)
| BUser (u : User)
| BNode (n : Node)
| BNodes (items : list Node) (next : string)
| BSubscription (s : Subscription)
| BSet (revision : Z) (generated : Time) (u : User) (nodes : list Node)
| BLink (token subscriptionID : string)
| BBinding (b : SubscriptionTokenBinding)
| BAccess (a : NodeAccessUsers)
| BReality (r : AllowListService.NodeRealityUsers)
| BSignals (applied : Z) (changes : list NodeStatusChange)
| BSummary (s : ControlPlaneOperatorSummary).
Record answer := { an_Status : Z; an_NoStore : bool; an_Body : body }.
Definition writeJSON (status : Z) (b : body) : answer := {| an_Status := status; an_NoStore := false; an_Body := b |}.
Definition no_store (a : answer) : answer := {| an_Status := an_Status a; an_NoStore := true; an_Body := an_Body a |}.
Definition writeError (status : Z) (code : string) (d : detail) : answer := writeJSON status (BError code d).
Definition writeDomainError (e : error) : answer :=
  if errors_is e ErrNotFound then writeError 404 "not_found" (DErr e)
  else if errors_is e ErrConflict then writeError 409 "conflict" (DErr e)
  else if errors_is e ErrValidation then writeError 422 "unprocessable" (DErr e)
  else if errors_is e ErrForbidden then writeError 403 "forbidden" (DErr e)
  else if errors_is e ErrUnauthorized then writeError 401 "unauthorized" (DErr e)
  else writeError 500 "internal" (DText "internal error").
Definition withoutKey (u : User) : User := withoutPrivateKey u.
Definition writeUser (status : Z) (u : User) : answer := writeJSON status (BUser (withoutKey u)).
(** No aggregate with a signal that is not known *)
Definition toAggregates (l : list aggregateDTO) : result (list SignalAggregate) :=
  if forallb (λ a, forallb (λ kv, SignalType_Valid kv.1) (map_to_list (dto_BySignal a))) l then
    Ok ((λ a, {| ag_NodeID := dto_NodeID a; ag_Region := dto_Region a; ag_WindowStart := dto_WindowStart a;
                 ag_WindowEnd := dto_WindowEnd a; ag_Total := dto_Total a; ag_BySignal := dto_BySignal a |}) <$> l)
  else Err (Wrap "unknown signal type" ErrValidation).

(** *** As JSON; [None] where a time cannot be written *)
Section json.
Context (text : error → string).
Import SubscriptionOutput.
Definition detail_text (d : detail) : string := match d with DText s => s | DErr e => text e end.
Definition OperatorAccount_json (a : OperatorAccount) : option json :=
  e ← joptime "expires_at" (oa_ExpiresAt a); g ← joptime "grace_until" (oa_GraceUntil a); u ← JTime (oa_UpdatedAt a);
  Some (JObj ([("id", JStr (oa_ID a)); ("status", JStr (oa_Status a))] ++ jopt "subscription_id" JStr (oa_SubscriptionID a) ++
    jnonempty "plan" (oa_Plan a) ++ jnonempty "subscription_status" (oa_SubscriptionStatus a) ++ e ++ g ++ [("updated_at", u)])).
Definition AccessUser_obj (u : AccessUser) : json :=
  JObj [("uuid", JStr (au_UUID u)); ("short_id", JStr (au_ShortID u)); ("hysteria2_password", JStr (au_Hysteria2Password u))].
Definition NodeStatusChange_json (c : NodeStatusChange) : json :=
  JObj [("node_id", JStr (ch_NodeID c)); ("from", JStr (ch_From c)); ("to", JStr (ch_To c))].
Definition body_json (b : body) : option json :=
  match b with
  | BNone | BText _ => None
  | BError code d => Some (JObj ([("error", JStr code)] ++ jnonempty "detail" (detail_text d)))
  | BStatus m => Some (JMap (JStr <$> m))
  | BUser u => User_json u
  | BNode n => Node_json n
  | BNodes items next => l ← mapM Node_json items; Some (JObj ([("items", JArr l)] ++ jnonempty "next_cursor" next))
  | BSubscription s => Subscription_json s
  | BSet rev t u nodes => t ← JTime t; u ← User_json u; l ← mapM Node_json nodes;
      Some (JObj [("revision", JInt rev); ("generated_at", t); ("user", u); ("nodes", JSlice l)])
  | BLink token id => Some (JObj [("token", JStr token); ("subscription_id", JStr id)])
  | BBinding b => Some (JObj [("user_id", JStr (tk_UserID b)); ("subscription_id", JStr (tk_SubscriptionID b))])
  | BAccess a => t ← JTime (nau_ValidUntil a);
      Some (JObj [("revision", JStr (nau_Revision a)); ("valid_until", t); ("users", JArr (AccessUser_obj <$> nau_Users a))])
  | BReality r => Some (JObj [("revision", JStr (AllowListService.nru_Revision r));
      ("users", JArr ((λ u, JObj [("uuid", JStr (ru_UUID u)); ("short_id", JStr (ru_ShortID u))]) <$> AllowListService.nru_Users r))])
  | BSignals n changes => Some (JObj [("applied", JInt n); ("changes", JSlice (NodeStatusChange_json <$> changes))])
  | BSummary s => l ← mapM OperatorAccount_json (os_Recent s);
      Some (JObj [("users", JMap (JInt <$> os_Users s)); ("subscriptions", JMap (JInt <$> os_Subscriptions s)); ("recent", JArr l)])
  end.
Definition response (a : answer) : Response :=
  let cache : gmap string string := if an_NoStore a then <["Cache-Control" := "no-store"]> ∅ else ∅ in
  match an_Body a with
  | BNone => {| rsp_Status := an_Status a; rsp_Header := cache; rsp_Body := "" |}
  | BText s => {| rsp_Status := an_Status a; rsp_Header := <["Content-Type" := "text/plain; charset=utf-8"]>
                    (<["X-Content-Type-Options" := "nosniff"]> cache); rsp_Body := s |}
  | b => {| rsp_Status := an_Status a; rsp_Header := <["Content-Type" := "application/json"]> cache;
            rsp_Body := match body_json b with Some j => Marshal j +:+ newline | None => "" end |}
  end.
End json.

(** ** The handlers *)
Record ApiDecoders := {
  ad_node : list Z → option Node; ad_rotate : list Z → option (string * string); ad_activation : list Z → option NodeActivation;
  ad_aggregates : list Z → option (list aggregateDTO); ad_createUser : list Z → option (option Z * option string);
  ad_patchUser : User → list Z → option User; ad_createSubscription : list Z → option (string * SubscriptionPlan);
  ad_patchSubscription : list Z → option SubscriptionPatch; ad_ensureTelegram : list Z → option Z;
  ad_ensureSubscription : list Z → option SubscriptionPlan; ad_billingState : list Z → option BillingState;
  ad_resolve : list Z → option string }.
(** The body is read up to a mebibyte. *)
Definition decodeJSON {A} (dec : list Z → option A) (r : Request) : option A := dec (take (Z.to_nat (2 ^ 20)) (rq_Body r)).
Definition respond {A} (m : M Cp A) (k : A → answer) : M Cp answer :=
  x ←! try m ; mret (match x with Ok a => k a | Err e => writeDomainError e end).
Definition bad_request (d : detail) : answer := writeError 400 "bad_request" d.
Definition json_error : detail := DErr (Errorf "json").
Definition decoded {A} (dec : list Z → option A) (d : detail) (r : Request) (k : A → M Cp answer) : M Cp answer :=
  match decodeJSON dec r with None => mret (bad_request d) | Some a => k a end.
Section api.
Context `{ord : !MapOrder} (dec : ApiDecoders) (cipher : option SubscriptionService.TokenCipher).

Section nodes.
Context (actor id : string) (r : Request).
Definition node_filter : NodeFilter := {|
  nf_Status := query r "status"; nf_Role := query r "role"; nf_Region := query r "region";
  nf_Limit := if bool_decide (query r "limit" = "") then 0 else default 0 (Atoi (query r "limit")); nf_Cursor := query r "cursor" |}.
Definition listNodes : M Cp answer := respond (NodeService.List node_filter) (λ l, writeJSON 200 (BNodes l.1 l.2)).
Definition createNode : M Cp answer :=
  decoded (ad_node dec) json_error r (λ n, respond (NodeService.Register n actor) (λ n, writeJSON 201 (BNode n))).
Definition getNode : M Cp answer := respond (NodeService.Get id) (λ n, writeJSON 200 (BNode n)).
Definition updateNode : M Cp answer :=
  decoded (ad_node dec) json_error r (λ n, respond (NodeService.Update id n actor) (λ n, writeJSON 200 (BNode n))).
Definition deleteNode : M Cp answer := respond (NodeService.Retire id actor) (λ _, writeJSON 204 BNone).
Definition demoteNode : M Cp answer := respond (NodeService.Demote id actor) (λ n, writeJSON 200 (BNode n)).
Definition rotateNode : M Cp answer :=
  decoded (ad_rotate dec) json_error r (λ q, respond (NodeService.Rotate id q.1 q.2 actor) (λ n, writeJSON 200 (BNode n))).
Definition getNodeRealityUsers : M Cp answer := respond (AllowListService.ForNode id) (λ x, no_store (writeJSON 200 (BReality x))).
Definition accessUsers : M Cp answer := respond (AllowListService.AccessForNode id) (λ x, no_store (writeJSON 200 (BAccess x))).
Definition activateNode : M Cp answer :=
  a ←! decoded (ad_activation dec) json_error r (λ q,
    respond (if negb (bool_decide (na_ExpectedAccessRevision q = ""))
             then NodeService.ActivateAccess id (na_ExpectedAccessRevision q) (na_Evidence q) actor
             else NodeService.Activate id (na_ExpectedRevision q) (na_Evidence q) actor) (λ n, writeJSON 200 (BNode n))) ;
  mret (no_store a).
Definition ingestSignalAggregates : M Cp answer :=
  decoded (ad_aggregates dec) json_error r (λ l,
    match l with
    | [] => mret (bad_request (DText "no aggregates"))
    | _ => match toAggregates l with
           | Err e => mret (writeDomainError e)
           | Ok aggs => respond (SignalService.Ingest aggs actor) (λ changes, writeJSON 202 (BSignals (Z.of_nat (length aggs)) changes))
           end
    end).
End nodes.

Section accounts.
Context (id : string) (r : Request).
Definition invalid_request : detail := DText "invalid request".
Definition ensureTelegram : M Cp answer :=
  decoded (ad_ensureTelegram dec) invalid_request r (λ t,
    respond (UserService.EnsureTelegram t) (λ u, writeJSON 200 (BUser (with_u_secrets "" "" "" "" u)))).
Definition ensureSubscription : M Cp answer :=
  decoded (ad_ensureSubscription dec) invalid_request r (λ plan,
    respond (SubscriptionService.Ensure id plan) (λ s, writeJSON 200 (BSubscription s))).
Definition billingState : M Cp answer :=
  decoded (ad_billingState dec) invalid_request r (λ st,
    respond (SubscriptionService.ApplyBillingState id st) (λ s, writeJSON 200 (BSubscription s))).
Definition deliveryLink : M Cp answer :=
  respond (SubscriptionService.DeliveryLink cipher id) (λ l, no_store (writeJSON 200 (BLink l.1 l.2))).
Definition resolveToken : M Cp answer :=
  decoded (ad_resolve dec) invalid_request r (λ h,
    respond (SubscriptionService.ResolveToken h) (λ b, no_store (writeJSON 200 (BBinding b)))).
Definition createUser : M Cp answer :=
  decoded (ad_createUser dec) json_error r (λ q, respond (UserService.Create q.1 q.2) (writeUser 201)).
Definition getUser : M Cp answer := respond (UserService.Get id) (writeUser 200).
Definition updateUser : M Cp answer :=
  x ←! try (UserService.Get id) ;
  match x with
  | Err e => mret (writeDomainError e)
  | Ok patch => decoded (ad_patchUser dec patch) json_error r (λ patch, respond (UserService.Update id patch) (writeUser 200))
  end.
Definition rotateUserSecrets : M Cp answer := respond (UserService.RotateSecrets id (query r "reason")) (writeUser 200).
Definition getSubscriptionSet : M Cp answer :=
  respond (BundleService.GetForUser id) (λ x,
    let b := set_Bundle x in writeJSON 200 (BSet (set_Revision x) (sb_GeneratedAt b) (withoutKey (sb_User b)) (sb_Nodes b))).
Definition createSubscription : M Cp answer :=
  decoded (ad_createSubscription dec) json_error r (λ q,
    respond (SubscriptionService.Create q.1 q.2) (λ x, writeJSON 201 (BSubscription (SubscriptionService.swt_Subscription x)))).
Definition getSubscription : M Cp answer := respond (SubscriptionService.Get id) (λ s, writeJSON 200 (BSubscription s)).
Definition patchSubscription : M Cp answer :=
  decoded (ad_patchSubscription dec) json_error r (λ p, respond (SubscriptionService.Patch id p) (λ s, writeJSON 200 (BSubscription s))).
Definition rotateSubscriptionToken : M Cp answer :=
  respond (SubscriptionService.RotateToken id) (λ x, writeJSON 200 (BSubscription (SubscriptionService.swt_Subscription x))).
Definition cancelSubscription : M Cp answer := respond (SubscriptionService.Cancel id) (λ s, writeJSON 200 (BSubscription s)).
End accounts.

(** *** handler.go, launch.go, operator.go *)
Context (tokens : TokenStore) (ready : option (result unit)) (operator : option (Store → result ControlPlaneOperatorSummary)).
Definition healthz : answer := writeJSON 200 (BStatus (<["status" := "ok"]> (<["service" := "control-plane"]> ∅))).
Definition readyz : answer :=
  match ready with
  | None => writeError 503 "not_ready" (DText "readiness not configured")
  | Some (Err _) => writeError 503 "not_ready" (DText "database unavailable")
  | Some (Ok _) => writeJSON 200 (BStatus (<["status" := "ready"]> ∅))
  end.
Definition operatorSummary : M Cp answer := λ c,
  (Ok (no_store match operator with
                | None => writeError 503 "unavailable" (DText "operator overview unavailable")
                | Some read => match read (cp_store c) with
                               | Err _ => writeError 503 "unavailable" (DText "operator overview unavailable")
                               | Ok s => writeJSON 200 (BSummary s)
                               end
                end), c).

(** ** auth.go *)
Definition bearerToken (r : Request) : string :=
  let h := header r "Authorization" in
  if (7 <? String.length h)%nat && bool_decide (ToLower (String.substring 0 7 h) = "bearer ")
  then TrimSpace (String.substring 7 (String.length h - 7) h) else "".
Definition authenticate (next : Role → M Cp answer) (r : Request) : M Cp answer :=
  let token := bearerToken r in
  if bool_decide (token = "") then mret (writeError 401 "unauthorized" (DText "missing bearer token"))
  else match TokenStore_Resolve tokens token with
       | None => mret (writeError 401 "unauthorized" (DText "invalid token"))
       | Some role => next role
       end.
Definition requireRole (allowed : list Role) (next : Role → M Cp answer) (role : Role) : M Cp answer :=
  if negb (Allows role allowed) then mret (writeError 403 "forbidden" (DText "role not permitted for this operation")) else next role.

(** ** router.go *)
Record route := { rt_Method : string; rt_Pattern : string; rt_Roles : list Role; rt_Handler : Role → string → Request → M Cp answer }.
Definition anyService : list Role := [RoleAdmin; RoleOrchestrator; RoleTelemetry; RoleSubscription; RoleBilling].
Definition nodeWriters : list Role := [RoleAdmin; RoleOrchestrator].
Definition accountWriters : list Role := [RoleAdmin].
Definition accountReaders : list Role := [RoleAdmin; RoleBilling; RoleSubscription].
Definition v1 : list route :=
  let on (m p : string) (roles : list Role) (h : Role → string → Request → M Cp answer) : route :=
    {| rt_Method := m; rt_Pattern := p; rt_Roles := roles; rt_Handler := h |} in
  [on "GET" "/operator/summary" [RoleAdmin] (λ _ _ _, operatorSummary);
   on "POST" "/users/ensure-telegram" [RoleAdmin; RoleDelivery] (λ _ _ r, ensureTelegram r);
   on "POST" "/users/{id}/ensure-subscription" [RoleAdmin; RoleBilling] (λ _ id r, ensureSubscription id r);
   on "PUT" "/subscriptions/{id}/billing-state" [RoleAdmin; RoleBilling] (λ _ id r, billingState id r);
   on "POST" "/subscriptions/{id}/delivery-link" [RoleAdmin; RoleDelivery] (λ _ id _, deliveryLink id);
   on "POST" "/subscription-tokens/resolve" [RoleAdmin; RoleSubscription] (λ _ _ r, resolveToken r);
   on "GET" "/nodes/{id}/access-users" [RoleAdmin; RoleOrchestrator] (λ _ id _, accessUsers id);
   on "GET" "/nodes" anyService (λ _ _ r, listNodes r);
   on "GET" "/nodes/{id}" anyService (λ _ id _, getNode id);
   on "POST" "/nodes" nodeWriters (λ actor _ r, createNode actor r);
   on "PATCH" "/nodes/{id}" nodeWriters (λ actor id r, updateNode actor id r);
   on "DELETE" "/nodes/{id}" nodeWriters (λ actor id _, deleteNode actor id);
   on "POST" "/nodes/{id}/rotate" nodeWriters (λ actor id r, rotateNode actor id r);
   on "POST" "/nodes/{id}/demote" [RoleOrchestrator; RoleAdmin] (λ actor id _, demoteNode actor id);
   on "GET" "/nodes/{id}/reality-users" [RoleOrchestrator; RoleAdmin] (λ _ id _, getNodeRealityUsers id);
   on "POST" "/nodes/{id}/activate" [RoleOrchestrator; RoleAdmin] (λ actor id r, activateNode actor id r);
   on "POST" "/users" accountWriters (λ _ _ r, createUser r);
   on "GET" "/users/{id}" accountReaders (λ _ id _, getUser id);
   on "PATCH" "/users/{id}" accountWriters (λ _ id r, updateUser id r);
   on "POST" "/users/{id}/rotate-secrets" accountWriters (λ _ id r, rotateUserSecrets id r);
   on "GET" "/users/{id}/subscription-set" [RoleSubscription; RoleAdmin] (λ _ id _, getSubscriptionSet id);
   on "POST" "/subscriptions" accountWriters (λ _ _ r, createSubscription r);
   on "GET" "/subscriptions/{id}" [RoleAdmin; RoleBilling; RoleSubscription; RoleDelivery] (λ _ id _, getSubscription id);
   on "PATCH" "/subscriptions/{id}" accountWriters (λ _ id r, patchSubscription id r);
   on "POST" "/subscriptions/{id}/rotate-token" accountWriters (λ _ id _, rotateSubscriptionToken id);
   on "POST" "/subscriptions/{id}/cancel" accountWriters (λ _ id _, cancelSubscription id);
   on "POST" "/signals/aggregate" [RoleTelemetry; RoleAdmin] (λ actor _ r, ingestSignalAggregates actor r)].
(** What the router matches: an entry of the table it is given with the parameter [id], a path only, or nothing *)
Inductive matching := Matched (i : nat) (id : string) | OtherMethod | Unmatched.
Context (chi : list (string * string) → Request → matching).
Definition not_found : answer := writeJSON 404 (BText ("404 page not found" +:+ newline)).
Definition other_method : answer := writeJSON 405 BNone.
Definition serve_v1 (r : Request) (role : Role) : M Cp answer :=
  match chi ((λ x, (rt_Method x, "/v1" +:+ rt_Pattern x)) <$> v1) r with
  | Matched i id => match v1 !! i with
                    | Some x => requireRole (rt_Roles x) (λ role, rt_Handler x role id r) role
                    | None => mret (not_found)
                    end
  | OtherMethod => mret (other_method)
  | Unmatched => mret (not_found)
  end.
Definition Router (r : Request) : M Cp answer :=
  match chi [("GET", "/healthz"); ("GET", "/readyz"); ("*", "/v1/*")] r with
  | Matched 0 _ => mret healthz
  | Matched 1 _ => mret readyz
  | Matched _ _ => authenticate (serve_v1 r) r
  | OtherMethod => mret (other_method)
  | Unmatched => mret (not_found)
  end.
End api.
