(* ===== verification/ControlApi.v ===== *)
(** * What a service token can do and see at the control-plane

    One request, for each role: what it may change in the store and which answers it may get, from the roles of the
    route table and the effects of the use cases behind it; billing's HTTP client in front of the router; and the
    demonstration data (internal/seed). *)
From S2P Require Import Prelude GoBytes GoText GoCodec GoUrl Contracts ControlStore ControlUse ControlFleet ControlLifecycle Platform ControlHttp.
From S2P Require ControlTokens BillingClient.
Import Domain.

(** ** Effects on the store *)
(** A computation that stays within [R], whatever it returns *)
Definition within (R : relation Store) {A} (m : M Cp A) : Prop := ∀ c, R (cp_store c) (cp_store (m c).2).
Section within.
Context (R : relation Store) `{!PreOrder R}.
Lemma within_bind {A B} (m : M Cp A) (f : A → M Cp B) : within R m → (∀ a, within R (f a)) → within R (mbind f m).
Proof.
  intros Hm Hf c. specialize (Hm c). unfold mbind, M_bind. destruct (m c) as [[a|e] c1]; cbn in *; [|done]. etrans; [done|apply Hf].
Qed.
Lemma within_same {A} (m : M Cp A) : (∀ c, cp_store (m c).2 = cp_store c) → within R m.
Proof. intros H c. by rewrite H. Qed.
Lemma within_ret {A} (a : A) : within R (mret a).
Proof. by apply within_same. Qed.
Lemma within_fail {A} e : within R (fail e : M Cp A).
Proof. by apply within_same. Qed.
Lemma within_now : within R now.
Proof. by apply within_same. Qed.
Lemma within_notify n : within R (notify n).
Proof. by apply within_same. Qed.
Lemma within_enqueue j : within R (enqueue j).
Proof. by apply within_same. Qed.
Lemma within_rand msg n : within R (rand_Read msg n).
Proof. apply within_same. intros c. unfold rand_Read. by destruct (cp_rand c). Qed.
Lemma within_lift {A} (r : result A) : within R (SubscriptionService.lift r).
Proof. by apply within_same. Qed.
Lemma within_try {A} (m : M Cp A) : within R m → within R (try m).
Proof. intros H c. specialize (H c). unfold try. by destruct (m c). Qed.
Lemma within_ignore {A} (m : M Cp A) : within R m → within R (ignore m).
Proof. intros H c. apply H. Qed.
Lemma within_wrapping {A} msg (m : M Cp A) : within R m → within R (wrapping msg m).
Proof. intros H c. specialize (H c). unfold wrapping. by destruct (m c) as [[]]. Qed.
Lemma within_repo {A} (m : M Store A) : (∀ s, R s (m s).2) → within R (repo m).
Proof. intros H c. unfold repo, zoom. specialize (H (cp_store c)). by destruct (m (cp_store c)). Qed.
(** A method that only reads *)
Lemma within_read {A} (m : M Store A) : (∀ s, (m s).2 = s) → within R (repo m).
Proof. intros H. apply within_repo. intros s. by rewrite H. Qed.
End within.
Lemma within_weaken {A} (R R' : relation Store) (m : M Cp A) : (∀ s s', R s s' → R' s s') → within R m → within R' m.
Proof. intros H Hm c. apply H, Hm. Qed.
(** Through the code of a use case: sequences, conditionals, reads *)
Ltac stays := repeat match goal with
  | |- within _ (mbind _ _) => apply within_bind; [apply _| |intros ?]
  | |- within _ (mret _) => apply within_ret; apply _
  | |- within _ (fail _) => apply within_fail; apply _
  | |- within _ now => apply within_now; apply _
  | |- within _ (notify _) => apply within_notify; apply _
  | |- within _ (enqueue _) => apply within_enqueue; apply _
  | |- within _ (rand_Read _ _) => apply within_rand; apply _
  | |- within _ (SubscriptionService.lift _) => apply within_lift; apply _
  | |- within _ (try _) => apply within_try
  | |- within _ (ignore _) => apply within_ignore
  | |- within _ (wrapping _ _) => apply within_wrapping
  | |- within _ UUIDv4 => unfold UUIDv4
  | |- within _ NodeID => unfold NodeID
  | |- within _ RealityShortID => unfold RealityShortID
  | |- within _ PrivateKey => unfold PrivateKey
  | |- within _ Token => unfold Token
  | _ => case_match
  end.
Ltac open_repo := unfold Nodes.Create, Nodes.Get, Nodes.List, Nodes.Update, Nodes.SetStatus, Nodes.Demote, Nodes.SetEntryIP, Nodes.ListActive,
  Users.Create, Users.Get, Users.Update, Users.RotateSecrets, Users.GetByTelegram, Subscriptions.CreateAndLink, Subscriptions.Get,
  Subscriptions.Update, Subscriptions.UpdateTokenHash, Subscriptions.ApplyBillingState, Subscriptions.EnsureDeliveryToken,
  Subscriptions.ResolveTokenHash, Subscriptions.CancelSubscription, Rotations.AddNodeRotation, Rotations.AddUserSecretRotation,
  Sets.Get, Sets.Upsert, Signals.AddAggregate, AllowList.EligibleAccessUsers, AllowList.EligibleRealityUsers, modify, gets.
(** A method that only reads *)
Ltac reads := apply within_read; [apply _|]; intros ?; open_repo; repeat case_match; done.

(** ** What the use cases leave alone *)
Definition accounts (s : Store) := (c_users s, c_subs s, c_billingHashes s, c_delivery s, c_hashes s, c_userRecs s).
Definition fleet (s : Store) := (c_nodes s, c_nodeRecs s, c_aggregates s).
(** No plaintext token in the store *)
Definition untokened (s : Store) : Prop := map_Forall (λ _ sub, s_Token sub = "") (c_subs s).
Definition keeps_accounts (s s' : Store) : Prop := accounts s' = accounts s.
Definition keeps_fleet (s s' : Store) : Prop := fleet s' = fleet s.
Definition keeps_untokened (s s' : Store) : Prop := untokened s → untokened s'.
#[export] Instance keeps_accounts_preorder : PreOrder keeps_accounts.
Proof. split; [done|]. intros x y z H1 H2. unfold keeps_accounts in *. congruence. Qed.
#[export] Instance keeps_fleet_preorder : PreOrder keeps_fleet.
Proof. split; [done|]. intros x y z H1 H2. unfold keeps_fleet in *. congruence. Qed.
#[export] Instance keeps_untokened_preorder : PreOrder keeps_untokened.
Proof. split; [by intros x ?|]. intros x y z H1 H2 H. by apply H2, H1. Qed.
(** A method that writes other parts of the store only *)
Ltac elsewhere := apply within_repo; intros ?; hnf; open_repo; repeat case_match; done.

Section usecases.
Context `{ord : !MapOrder}.
Lemma accounts_record nodeID from to reason ip actor : within keeps_accounts (NodeService.recordRotation nodeID from to reason ip actor).
Proof. unfold NodeService.recordRotation, UUIDv4. stays. all: elsewhere. Qed.
Lemma activate_accounts t id rev acc ev : within keeps_accounts (repo (NodeActivator.activate t id rev acc ev)).
Proof.
  apply within_repo. intros s.
  assert (∀ n, (NodeActivator.revision_ok t n rev acc s).2 = s) as Hr.
  { intros n. unfold NodeActivator.revision_ok, mbind, M_bind. case_match; cbn; [|done]. unfold AllowList.EligibleAccessUsers. by repeat case_match. }
  unfold NodeActivator.activate. repeat (case_match; try done). unfold mbind, M_bind. specialize (Hr n).
  destruct (NodeActivator.revision_ok t n rev acc s) as [[[]|e] s']; cbn in *; by subst s'.
Qed.
Lemma Register_accounts n actor : within keeps_accounts (NodeService.Register n actor).
Proof. unfold NodeService.Register, NodeID. stays; first [by apply accounts_record|elsewhere]. Qed.
Lemma Update_accounts id n actor : within keeps_accounts (NodeService.Update id n actor).
Proof. unfold NodeService.Update. stays; first [by apply accounts_record|elsewhere]. Qed.
Lemma Rotate_accounts id ip reason actor : within keeps_accounts (NodeService.Rotate id ip reason actor).
Proof. unfold NodeService.Rotate. stays; first [by apply accounts_record|elsewhere]. Qed.
Lemma Retire_accounts id actor : within keeps_accounts (NodeService.Retire id actor).
Proof. unfold NodeService.Retire. stays; first [by apply accounts_record|elsewhere]. Qed.
Lemma Demote_accounts id actor : within keeps_accounts (NodeService.Demote id actor).
Proof. unfold NodeService.Demote. stays; first [by apply accounts_record|elsewhere]. Qed.
Lemma Activate_accounts id rev ev actor : within keeps_accounts (NodeService.Activate id rev ev actor).
Proof. unfold NodeService.Activate, NodeService.after_activation. stays; first [by apply accounts_record|by apply activate_accounts|elsewhere]. Qed.
Lemma ActivateAccess_accounts id rev ev actor : within keeps_accounts (NodeService.ActivateAccess id rev ev actor).
Proof. unfold NodeService.ActivateAccess, NodeService.after_activation. stays; first [by apply accounts_record|by apply activate_accounts|elsewhere]. Qed.
Lemma applyVerdict_accounts id v actor : within keeps_accounts (SignalService.applyVerdict id v actor).
Proof. unfold SignalService.applyVerdict, NodeService.setStatusIfChanged. stays; first [by apply accounts_record|elsewhere]. Qed.
Lemma Ingest_accounts aggs actor : within keeps_accounts (SignalService.Ingest aggs actor).
Proof.
  unfold SignalService.Ingest. apply within_bind; [apply _| |].
  - generalize (∅ : gmap string Verdict). induction aggs as [|a aggs IH]; intros worst; cbn [SignalService.collect]; [apply within_ret; apply _|].
    stays; first [apply IH|elsewhere].
  - intros worst. generalize (range worst), (@nil NodeStatusChange). intros l.
    induction l as [|[id v] l IH]; intros changes; cbn [SignalService.apply_all]; [apply within_ret; apply _|].
    stays; first [apply IH|by apply applyVerdict_accounts].
Qed.
Lemma Build_within (R : relation Store) `{!PreOrder R} id : (∀ x s, R s (set_sets <[set_UserID x := x]> s)) → within R (BundleService.Build id).
Proof.
  intros HR. unfold BundleService.Build. stays; try reads.
  apply within_repo. intros s. apply HR.
Qed.
Lemma GetForUser_within (R : relation Store) `{!PreOrder R} id : (∀ x s, R s (set_sets <[set_UserID x := x]> s)) → within R (BundleService.GetForUser id).
Proof.
  intros HR. unfold BundleService.GetForUser. stays; first [by apply Build_within|reads].
Qed.
End usecases.

(** ** What delivery, billing and telemetry may do *)
Definition delivery_may (s s' : Store) : Prop :=
  keeps_fleet s s' ∧ (c_subs s', c_billingHashes s', c_hashes s', c_userRecs s', c_sets s') = (c_subs s, c_billingHashes s, c_hashes s, c_userRecs s, c_sets s) ∧
  c_users s ⊆ c_users s' ∧ c_delivery s ⊆ c_delivery s'.
Definition linked_once (u u' : User) : Prop := u' = u ∨ ptr_set (u_SubscriptionID u) = false ∧ ∃ id t, u' = with_u_link id t u.
Definition billing_may (s s' : Store) : Prop :=
  keeps_fleet s s' ∧ (c_delivery s', c_userRecs s', c_sets s') = (c_delivery s, c_userRecs s, c_sets s) ∧ keeps_untokened s s' ∧
  ∀ id, option_Forall2 linked_once (c_users s !! id) (c_users s' !! id).
Definition telemetry_may (s s' : Store) : Prop := keeps_accounts s s' ∧ worsens (c_nodes s) (c_nodes s').
#[export] Instance delivery_may_preorder : PreOrder delivery_may.
Proof.
  split; [by intros x|]. intros x y z (H1 & H2 & H3 & H4) (K1 & K2 & K3 & K4). split_and!; [by etrans|congruence|by etrans|by etrans].
Qed.
#[export] Instance linked_once_preorder : PreOrder linked_once.
Proof. split; [by left|]. intros x y z [->|(Hx & id & t & ->)] [->|(Hy & id' & t' & ->)]; [by left|right; eauto..]. Qed.
#[export] Instance billing_may_preorder : PreOrder billing_may.
Proof.
  split.
  - intros x. split_and!; [done..|by intros ?|]. intros id. destruct (c_users x !! id); by constructor.
  - intros x y z (H1 & H2 & H3 & H4) (K1 & K2 & K3 & K4). split_and!; [by etrans|congruence|by etrans|]. intros id. etrans; [apply H4|apply K4].
Qed.

Section account_usecases.
Context `{ord : !MapOrder}.
Lemma Create_delivery t e : within delivery_may (UserService.Create t e).
Proof.
  unfold UserService.Create. stays. apply within_repo. intros s. unfold Users.Create. repeat (case_match; try done).
  all: split_and!; [done..|by apply insert_subseteq|done].
Qed.
Lemma EnsureTelegram_delivery t : within delivery_may (UserService.EnsureTelegram t).
Proof. unfold UserService.EnsureTelegram. stays; first [by apply Create_delivery|reads]. Qed.
Lemma Get_reads (R : relation Store) `{!PreOrder R} id : within R (SubscriptionService.Get id).
Proof. unfold SubscriptionService.Get. stays. reads. Qed.
Lemma DeliveryLink_delivery cipher id : within delivery_may (SubscriptionService.DeliveryLink cipher id).
Proof.
  unfold SubscriptionService.DeliveryLink, SubscriptionService.usable, SubscriptionService.Seal. stays; first [by apply Get_reads; apply _|reads|idtac].
  all: apply within_repo; intros s; unfold Subscriptions.EnsureDeliveryToken; repeat (case_match; try done).
  all: split_and!; [done..|by apply insert_subseteq].
Qed.
Lemma CreateAndLink_billing sub h p id : within billing_may (repo (Subscriptions.CreateAndLink sub h p id)).
Proof.
  apply within_repo. intros s. unfold Subscriptions.CreateAndLink. destruct (c_users s !! id) as [u|] eqn:Hu; [|done].
  destruct (ptr_set (u_SubscriptionID u)) eqn:Hs; [done|]. split_and!; [done..|intros H; by apply map_Forall_insert_2|]. intros id'. cbn.
  destruct (decide (id' = id)) as [->|Hne]; [rewrite lookup_insert_eq, Hu; constructor; right; eauto|rewrite lookup_insert_ne by done].
  destruct (c_users s !! id'); by constructor.
Qed.
Lemma create_billing u p i : within billing_may (SubscriptionService.create u p i).
Proof. unfold SubscriptionService.create. stays; first [by apply CreateAndLink_billing|reads]. Qed.
Lemma Ensure_billing u p : within billing_may (SubscriptionService.Ensure u p).
Proof. unfold SubscriptionService.Ensure. stays; first [by apply create_billing|by apply Get_reads; apply _|reads]. Qed.
Lemma limits_token sub p : s_Token (ApplyPlanLimits sub p) = s_Token sub.
Proof. unfold ApplyPlanLimits. by repeat case_match. Qed.
Lemma ApplyBillingState_billing id st : within billing_may (SubscriptionService.ApplyBillingState id st).
Proof.
  unfold SubscriptionService.ApplyBillingState. stays. apply within_repo. intros s. unfold Subscriptions.ApplyBillingState.
  destruct (c_subs s !! id) as [sub|] eqn:Hs; [|done]. case_match; [done|]. case_match; [|done]. cbn.
  split_and!; [done..| |intros i; cbn; destruct (c_users s !! i); by constructor].
  intros Hall. apply map_Forall_insert_2; [|done]. cbn. case_match; [by apply (Hall id)|]. rewrite limits_token. by apply (Hall id).
Qed.
Lemma Ingest_telemetry aggs actor : within telemetry_may (SignalService.Ingest aggs actor).
Proof. intros c. split; [apply Ingest_accounts|apply Ingest_effect]. Qed.
End account_usecases.

Section admin_usecases.
Context `{ord : !MapOrder}.
Lemma within_any {A} (R : relation Store) (m : M Cp A) : within R m → (∀ s s', R s s' → keeps_untokened s s') → within keeps_untokened m.
Proof. intros H HR. by eapply within_weaken. Qed.
Lemma accounts_untokened s s' : keeps_accounts s s' → keeps_untokened s s'.
Proof. unfold keeps_accounts, accounts, keeps_untokened, untokened. intros [= _ -> _ _ _ _]. done. Qed.
Lemma delivery_untokened s s' : delivery_may s s' → keeps_untokened s s'.
Proof. unfold keeps_untokened, untokened. intros (_ & [= -> _ _ _ _] & _). done. Qed.
Lemma UserUpdate_untokened id p : within keeps_untokened (UserService.Update id p).
Proof. unfold UserService.Update. stays; first [elsewhere|reads]. Qed.
Lemma RotateSecrets_untokened id reason : within keeps_untokened (UserService.RotateSecrets id reason).
Proof. unfold UserService.RotateSecrets. stays; elsewhere. Qed.
Lemma Patch_untokened id p : within keeps_untokened (SubscriptionService.Patch id p).
Proof.
  unfold SubscriptionService.Patch. stays; try reads. all: apply within_repo; intros s Hs; unfold Subscriptions.Update.
  all: repeat (case_match; try done); by apply map_Forall_insert_2.
Qed.
Lemma Cancel_untokened id : within keeps_untokened (SubscriptionService.Cancel id).
Proof.
  unfold SubscriptionService.Cancel. stays. apply within_repo. intros s Hs. unfold Subscriptions.CancelSubscription.
  destruct (c_subs s !! id) as [sub|] eqn:Hsub; [|done]. apply map_Forall_insert_2; [|done]. cbn. by apply (Hs id).
Qed.
Lemma RotateToken_untokened id : within keeps_untokened (SubscriptionService.RotateToken id).
Proof. unfold SubscriptionService.RotateToken. stays; first [elsewhere|reads]. Qed.
End admin_usecases.

(** ** What each role may do and see *)
Definition may (role : Role) (s s' : Store) : Prop :=
  keeps_untokened s s' ∧
  if bool_decide (role = RoleAdmin) then True
  else if bool_decide (role = RoleOrchestrator) then keeps_accounts s s'
  else if bool_decide (role = RoleTelemetry) then telemetry_may s s'
  else if bool_decide (role = RoleSubscription) then keeps_accounts s s' ∧ keeps_fleet s s'
  else if bool_decide (role = RoleBilling) then billing_may s s'
  else if bool_decide (role = RoleDelivery) then delivery_may s s'
  else s' = s.
Definition sees (role : Role) (b : body) : Prop :=
  match b with
  | BNone | BText _ | BError _ _ | BStatus _ => True
  | BNode _ | BNodes _ _ => role ∈ anyService
  | BUser u => u_PrivateKey u = "" ∧ (role ∈ accountReaders ∨ role = RoleDelivery ∧ u_UUID u = "" ∧ u_RealityShortID u = "" ∧ u_Hysteria2Password u = "")
  | BSubscription s => role ∈ [RoleAdmin; RoleBilling; RoleSubscription; RoleDelivery] ∧ (role ≠ RoleAdmin → s_Token s = "")
  | BSet _ _ u _ => role ∈ [RoleSubscription; RoleAdmin] ∧ u_PrivateKey u = ""
  | BLink _ _ => role ∈ [RoleAdmin; RoleDelivery]
  | BBinding _ => role ∈ [RoleAdmin; RoleSubscription]
  | BAccess _ | BReality _ => role ∈ nodeWriters
  | BSignals _ _ => role ∈ [RoleTelemetry; RoleAdmin]
  | BSummary _ => role = RoleAdmin
  end.
Definition harmless (b : body) : Prop := match b with BNone | BText _ | BError _ _ | BStatus _ => True | _ => False end.
Lemma harmless_sees role b : harmless b → sees role b.
Proof. by destruct b. Qed.
#[export] Instance telemetry_may_preorder : PreOrder telemetry_may.
Proof.
  split; [intros x; split; [done|apply worsens_refl]|]. intros x y z [H1 H2] [K1 K2]. split; [by etrans|by eapply worsens_trans].
Qed.
#[export] Instance may_preorder role : PreOrder (may role).
Proof.
  unfold may. split.
  - intros x. split; [done|]. repeat case_bool_decide; done.
  - intros x y z [H1 H2] [K1 K2]. split; [by etrans|]. destruct (bool_decide (role = RoleAdmin)); [done|].
    destruct (bool_decide (role = RoleOrchestrator)); [by etrans|]. destruct (bool_decide (role = RoleTelemetry)); [by etrans|].
    destruct (bool_decide (role = RoleSubscription)); [destruct H2, K2; split; by etrans|].
    destruct (bool_decide (role = RoleBilling)); [by etrans|]. destruct (bool_decide (role = RoleDelivery)); [by etrans|congruence].
Qed.
(** The weaker permissions from the stronger *)
Lemma may_admin s s' : keeps_untokened s s' → may RoleAdmin s s'.
Proof. by split. Qed.
Lemma may_fleet role s s' : role ∈ nodeWriters → keeps_accounts s s' → may role s s'.
Proof. intros [->|[->|[]%elem_of_nil]%elem_of_cons]%elem_of_cons H; (split; [by apply accounts_untokened|done]). Qed.
Lemma may_telemetry role s s' : role ∈ [RoleTelemetry; RoleAdmin] → telemetry_may s s' → may role s s'.
Proof. intros [->|[->|[]%elem_of_nil]%elem_of_cons]%elem_of_cons H; (split; [by apply accounts_untokened, H|done]). Qed.
Lemma may_sets role s s' : role ∈ [RoleSubscription; RoleAdmin] → keeps_accounts s s' → keeps_fleet s s' → may role s s'.
Proof. intros [->|[->|[]%elem_of_nil]%elem_of_cons]%elem_of_cons H1 H2; (split; [by apply accounts_untokened|done]). Qed.
Lemma may_billing role s s' : role ∈ [RoleAdmin; RoleBilling] → billing_may s s' → may role s s'.
Proof. intros [->|[->|[]%elem_of_nil]%elem_of_cons]%elem_of_cons H; (split; [apply H|done]). Qed.
Lemma may_delivery role s s' : role ∈ [RoleAdmin; RoleDelivery] → delivery_may s s' → may role s s'.
Proof. intros [->|[->|[]%elem_of_nil]%elem_of_cons]%elem_of_cons H; (split; [by apply delivery_untokened|done]). Qed.

(** ** Tokens *)
Lemma find_last_spec (k : string) (v : Role) l : NoDup l.*1 →
  foldl (λ found kv, if bool_decide (kv.1 = k) then Some kv.2 else found) None l = Some v ↔ (k, v) ∈ l.
Proof.
  induction l as [|[k' v'] l IH] using rev_ind; [split; [done|by intros ?%elem_of_nil]|]. rewrite fmap_app, foldl_snoc. cbn.
  intros (Hl & Hd & _)%NoDup_app. specialize (IH Hl). rewrite elem_of_app, list_elem_of_singleton. case_bool_decide as Hk.
  - subst k'. split; [intros [= ->]; by right|intros [Hin|[= ->]]; [|done]]. exfalso. apply (Hd k).
    + apply list_elem_of_fmap. by exists (k, v).
    + by left.
  - rewrite IH. split; [by left|intros [?|[= -> ->]]; done].
Qed.
Lemma TokenStore_Resolve_lookup `{ord : !MapOrder} (s : TokenStore) presented : TokenStore_Resolve s presented = s !! presented.
Proof.
  apply option_eq. intros v. unfold TokenStore_Resolve. rewrite find_last_spec by apply NoDup_fst_range. by rewrite elem_of_range.
Qed.

(** ** Handlers *)
(** From a store without plaintext tokens, [m] answers, and what it does and shows is as [R] and [V] allow. *)
Definition does (R : relation Store) (V : body → Prop) (m : M Cp answer) : Prop := ∀ c, untokened (cp_store c) →
  ∃ a c', m c = (Ok a, c') ∧ R (cp_store c) (cp_store c') ∧ V (an_Body a).
Section does.
Context (role : Role).
Abbreviation DO := (does (may role) (sees role)).
Lemma does_ret a : harmless (an_Body a) → DO (mret a).
Proof. intros H c _. exists a, c. split; [done|]. split; [done|by apply harmless_sees]. Qed.
Lemma domain_error_harmless e : harmless (an_Body (writeDomainError e)).
Proof. unfold writeDomainError. by repeat case_match. Qed.
(** [shows V m]: what [m] returns, from a store without plaintext tokens *)
Definition shows {A} (V : A → Prop) (m : M Cp A) : Prop := ∀ c a c', untokened (cp_store c) → m c = (Ok a, c') → V a.
Lemma does_respond {A} (m : M Cp A) (k : A → answer) : within (may role) m → shows (λ a, sees role (an_Body (k a))) m → DO (respond m k).
Proof.
  intros Hm Hk c Hc. specialize (Hm c). specialize (Hk c). unfold respond, mbind, M_bind, try. destruct (m c) as [[a|e] c']; cbn in *.
  - eexists _, _. split; [reflexivity|]. split; [done|]. by eapply Hk.
  - eexists _, _. split; [reflexivity|]. split; [done|]. apply harmless_sees, domain_error_harmless.
Qed.
Lemma shows_all {A} (V : A → Prop) (m : M Cp A) : (∀ a, V a) → shows V m.
Proof. by intros H c a c' _ _. Qed.
Lemma does_decoded {A} (d : list Z → option A) e r k : (∀ a, DO (k a)) → DO (decoded d e r k).
Proof. intros H. unfold decoded. destruct (decodeJSON d r); [apply H|by apply does_ret]. Qed.
Lemma does_no_store m : DO m → DO (a ←! m ; mret (no_store a)).
Proof. intros H c Hc. destruct (H c Hc) as (a & c' & Hm & HR & HV). exists (no_store a), c'. unfold mbind, M_bind. by rewrite Hm. Qed.
End does.

Section handlers.
Context `{ord : !MapOrder} (dec : ApiDecoders) (cipher : option SubscriptionService.TokenCipher) (role : Role).
Abbreviation DO := (does (may role) (sees role)).
(** *** Nodes *)
Lemma listNodes_does r : role ∈ anyService → DO (listNodes r).
Proof. intros H. apply does_respond; [unfold NodeService.List; reads|by apply shows_all]. Qed.
Lemma getNode_does id : role ∈ anyService → DO (getNode id).
Proof. intros H. apply does_respond; [unfold NodeService.Get; reads|by apply shows_all]. Qed.
Lemma nodeWriters_any : role ∈ nodeWriters → role ∈ anyService.
Proof. unfold nodeWriters, anyService. set_solver. Qed.
(** A handler of the node writers *)
Lemma writer_does {A} (m : M Cp A) (k : A → answer) : role ∈ nodeWriters → within keeps_accounts m →
  (∀ a, sees role (an_Body (k a))) → DO (respond m k).
Proof. intros H Hm Hk. apply does_respond; [|by apply shows_all]. eapply within_weaken; [|exact Hm]. intros. by apply may_fleet. Qed.
Lemma createNode_does actor r : role ∈ nodeWriters → DO (createNode dec actor r).
Proof. intros H. apply does_decoded. intros n. apply writer_does; [done|apply Register_accounts|]. intros; by apply nodeWriters_any. Qed.
Lemma updateNode_does actor id r : role ∈ nodeWriters → DO (updateNode dec actor id r).
Proof. intros H. apply does_decoded. intros n. apply writer_does; [done|apply Update_accounts|]. intros; by apply nodeWriters_any. Qed.
Lemma deleteNode_does actor id : role ∈ nodeWriters → DO (deleteNode actor id).
Proof. intros H. by apply writer_does; [|apply Retire_accounts|]. Qed.
Lemma demoteNode_does actor id : role ∈ nodeWriters → DO (demoteNode actor id).
Proof. intros H. apply writer_does; [done|apply Demote_accounts|]. intros; by apply nodeWriters_any. Qed.
Lemma rotateNode_does actor id r : role ∈ nodeWriters → DO (rotateNode dec actor id r).
Proof. intros H. apply does_decoded. intros q. apply writer_does; [done|apply Rotate_accounts|]. intros; by apply nodeWriters_any. Qed.
Lemma getNodeRealityUsers_does id : role ∈ nodeWriters → DO (getNodeRealityUsers id).
Proof. intros H. apply writer_does; [done|unfold AllowListService.ForNode; stays; reads|done]. Qed.
Lemma accessUsers_does id : role ∈ nodeWriters → DO (accessUsers id).
Proof. intros H. apply writer_does; [done|unfold AllowListService.AccessForNode; stays; reads|done]. Qed.
Lemma activateNode_does actor id r : role ∈ nodeWriters → DO (activateNode dec actor id r).
Proof.
  intros H. apply does_no_store, does_decoded. intros q. apply writer_does; [done| |intros; by apply nodeWriters_any].
  case_match; [apply ActivateAccess_accounts|apply Activate_accounts].
Qed.
Lemma ingest_does actor r : role ∈ [RoleTelemetry; RoleAdmin] → DO (ingestSignalAggregates dec actor r).
Proof.
  intros H. apply does_decoded. intros [|d l]; [by apply does_ret|]. destruct (toAggregates (d :: l)) as [aggs|e].
  - apply does_respond; [|by apply shows_all]. eapply within_weaken; [|apply Ingest_telemetry]. intros. by apply may_telemetry.
  - apply does_ret, domain_error_harmless.
Qed.
End handlers.

(** *** Accounts and subscriptions *)
Section account_handlers.
Context `{ord : !MapOrder} (dec : ApiDecoders) (cipher : option SubscriptionService.TokenCipher).
Lemma Get_token id c a c' : SubscriptionService.Get id c = (Ok a, c') → s_Token a = "".
Proof. intros (sub & c1 & _ & H)%bind_runs. by injection H as <- _. Qed.
Lemma Ensure_token u p c a c' : SubscriptionService.Ensure u p c = (Ok a, c') → s_Token a = "".
Proof.
  unfold SubscriptionService.Ensure. case_match; [done|]. intros (user & c1 & _ & H1)%bind_runs. case_match; [by eapply Get_token|].
  apply bind_runs in H1 as (res & c2 & _ & H1). destruct res as [x|e]; [by injection H1 as <- _|]. case_match; [|done].
  apply bind_runs in H1 as (user' & c3 & _ & H1). case_match; [by eapply Get_token|]. by injection H1 as <- _.
Qed.
Lemma ApplyBillingState_token id st c a c' : untokened (cp_store c) →
  SubscriptionService.ApplyBillingState id st c = (Ok a, c') → s_Token a = "".
Proof.
  intros Hu. unfold SubscriptionService.ApplyBillingState. case_match; [done|]. intros (t & c1 & Ht & H1)%bind_runs.
  injection Ht as <- <-. unfold repo, zoom, Subscriptions.ApplyBillingState in H1. cbn [cp_store] in H1.
  destruct (c_subs (cp_store c) !! id) as [sub|] eqn:Hs; [|done]. apply Hu in Hs as Htok. repeat case_match; simplify_eq/=; try done.
  by rewrite limits_token.
Qed.
Section role.
Context (role : Role).
Abbreviation DO := (does (may role) (sees role)).
Lemma ensureTelegram_does r : role ∈ [RoleAdmin; RoleDelivery] → DO (ensureTelegram dec r).
Proof.
  intros H. apply does_decoded. intros t. apply does_respond.
  - eapply within_weaken; [|apply EnsureTelegram_delivery]. intros. by apply may_delivery.
  - apply shows_all. intros u. cbn. split; [done|]. unfold accountReaders. set_solver.
Qed.
Lemma deliveryLink_does id : role ∈ [RoleAdmin; RoleDelivery] → DO (deliveryLink cipher id).
Proof.
  intros H. apply does_respond; [|by apply shows_all]. eapply within_weaken; [|apply DeliveryLink_delivery]. intros. by apply may_delivery.
Qed.
Lemma resolveToken_does r : role ∈ [RoleAdmin; RoleSubscription] → DO (resolveToken dec r).
Proof.
  intros H. apply does_decoded. intros h. apply does_respond; [|by apply shows_all].
  unfold SubscriptionService.ResolveToken. stays. reads.
Qed.
Lemma getUser_does id : role ∈ accountReaders → DO (getUser id).
Proof. intros H. apply does_respond; [unfold UserService.Get; reads|]. apply shows_all. intros u. cbn. auto. Qed.
Lemma getSubscription_does id : role ∈ [RoleAdmin; RoleBilling; RoleSubscription; RoleDelivery] → DO (getSubscription id).
Proof. intros H. apply does_respond; [apply Get_reads; apply _|]. intros c a c' _ Hg. cbn. split; [done|]. intros _. by eapply Get_token. Qed.
Lemma billing_sub : role ∈ [RoleAdmin; RoleBilling] → role ∈ [RoleAdmin; RoleBilling; RoleSubscription; RoleDelivery].
Proof. set_solver. Qed.
Lemma ensureSubscription_does id r : role ∈ [RoleAdmin; RoleBilling] → DO (ensureSubscription dec id r).
Proof.
  intros H. apply does_decoded. intros p. apply does_respond.
  - eapply within_weaken; [|apply Ensure_billing]. intros. by apply may_billing.
  - intros c a c' _ He. cbn. split; [by apply billing_sub|]. intros _. by eapply Ensure_token.
Qed.
Lemma billingState_does id r : role ∈ [RoleAdmin; RoleBilling] → DO (billingState dec id r).
Proof.
  intros H. apply does_decoded. intros st. apply does_respond.
  - eapply within_weaken; [|apply ApplyBillingState_billing]. intros. by apply may_billing.
  - intros c a c' Hu He. cbn. split; [by apply billing_sub|]. intros _. by eapply ApplyBillingState_token.
Qed.
Lemma getSubscriptionSet_does id : role ∈ [RoleSubscription; RoleAdmin] → DO (getSubscriptionSet id).
Proof. intros H. apply does_respond; [|by apply shows_all]. apply GetForUser_within; [apply _|]. intros x s. by apply may_sets. Qed.
End role.
(** The administrator *)
Abbreviation ADMIN := (does (may RoleAdmin) (sees RoleAdmin)).
Lemma admin_does {A} (m : M Cp A) (k : A → answer) : within keeps_untokened m → (∀ a, sees RoleAdmin (an_Body (k a))) → ADMIN (respond m k).
Proof. intros Hm Hk. apply does_respond; [|by apply shows_all]. eapply within_weaken; [|exact Hm]. intros. by apply may_admin. Qed.
Lemma writeUser_sees n u : sees RoleAdmin (an_Body (writeUser n u)).
Proof. cbn. split; [done|]. left. by left. Qed.
Lemma sub_sees n s : sees RoleAdmin (an_Body (writeJSON n (BSubscription s))).
Proof. cbn. split; [by left|done]. Qed.
Lemma createUser_does r : ADMIN (createUser dec r).
Proof.
  apply does_decoded. intros q. apply admin_does; [|intros; apply writeUser_sees].
  eapply within_any; [apply Create_delivery|apply delivery_untokened].
Qed.
Lemma updateUser_does id r : ADMIN (updateUser dec id r).
Proof.
  intros c Hc. unfold updateUser, mbind, M_bind, try, UserService.Get, repo, zoom, Users.Get. assert (with_store (cp_store c) c = c) as Heta by by destruct c.
  destruct (c_users (cp_store c) !! id) as [patch|]; rewrite Heta; [|by apply does_ret; [apply domain_error_harmless|]].
  apply does_decoded; [|done]. intros p. apply admin_does; [apply UserUpdate_untokened|intros; apply writeUser_sees].
Qed.
Lemma rotateUserSecrets_does id r : ADMIN (rotateUserSecrets id r).
Proof. apply admin_does; [apply RotateSecrets_untokened|intros; apply writeUser_sees]. Qed.
Lemma createSubscription_does r : ADMIN (createSubscription dec r).
Proof.
  apply does_decoded. intros q. apply admin_does; [|intros; apply sub_sees]. eapply within_any; [apply create_billing|]. by intros ? ? (_ & _ & ? & _).
Qed.
Lemma patchSubscription_does id r : ADMIN (patchSubscription dec id r).
Proof. apply does_decoded. intros p. apply admin_does; [apply Patch_untokened|intros; apply sub_sees]. Qed.
Lemma rotateSubscriptionToken_does id : ADMIN (rotateSubscriptionToken id).
Proof. apply admin_does; [apply RotateToken_untokened|intros; apply sub_sees]. Qed.
Lemma cancelSubscription_does id : ADMIN (cancelSubscription id).
Proof. apply admin_does; [apply Cancel_untokened|intros; apply sub_sees]. Qed.
Lemma operatorSummary_does operator : ADMIN (operatorSummary operator).
Proof. intros c Hc. eexists _, _. split; [reflexivity|]. split; [done|]. destruct operator as [read|]; [|done]. cbn. by destruct (read (cp_store c)). Qed.
End account_handlers.

(** ** The table and the router *)
Section router.
Context `{ord : !MapOrder} (dec : ApiDecoders) (cipher : option SubscriptionService.TokenCipher).
Context (tokens : TokenStore) (ready : option (result unit)) (operator : option (Store → result ControlPlaneOperatorSummary)).
Context (chi : list (string * string) → Request → matching).
Definition within_role (x : route) : Prop := ∀ role, role ∈ rt_Roles x → ∀ id r, does (may role) (sees role) (rt_Handler x role id r).
Lemma admin_only role : role ∈ [RoleAdmin] → role = RoleAdmin.
Proof. intros [?|?%elem_of_nil]%elem_of_cons; done. Qed.
Lemma v1_within_role : Forall within_role (v1 dec cipher operator).
Proof.
  unfold v1. repeat apply Forall_cons_2; [..|by apply Forall_nil]; intros role; cbn [rt_Roles rt_Handler]; intros Hr id r.
  all: first [ by apply ensureTelegram_does | by apply ensureSubscription_does | by apply billingState_does | by apply deliveryLink_does
    | by apply resolveToken_does | by apply accessUsers_does | by apply listNodes_does | by apply getNode_does | by apply createNode_does
    | by apply updateNode_does | by apply deleteNode_does | by apply rotateNode_does | by apply getUser_does | by apply getSubscriptionSet_does
    | by apply getSubscription_does | by apply ingest_does | by apply admin_only in Hr as ->; first [apply operatorSummary_does
    | apply createUser_does | apply updateUser_does | apply rotateUserSecrets_does | apply createSubscription_does
    | apply patchSubscription_does | apply rotateSubscriptionToken_does | apply cancelSubscription_does] | idtac ].
  - apply demoteNode_does. unfold nodeWriters. set_solver.
  - apply getNodeRealityUsers_does. unfold nodeWriters. set_solver.
  - apply activateNode_does. unfold nodeWriters. set_solver.
Qed.
Lemma Allows_spec role allowed : Allows role allowed = true ↔ role ∈ allowed.
Proof.
  unfold Allows. rewrite existsb_exists. split.
  - intros (a & Ha%list_elem_of_In & Heq%bool_decide_eq_true). by subst a.
  - intros Hin. exists role. split; [by apply list_elem_of_In|by apply bool_decide_eq_true].
Qed.
Lemma serve_v1_does role r : does (may role) (sees role) (serve_v1 dec cipher operator chi r role).
Proof.
  unfold serve_v1. destruct (chi _ r) as [i id| |]; [|by apply does_ret..].
  destruct (v1 dec cipher operator !! i) as [x|] eqn:Hx; [|by apply does_ret]. unfold requireRole.
  destruct (Allows role (rt_Roles x)) eqn:Ha; cbn [negb]; [|by apply does_ret]. apply Allows_spec in Ha.
  pose proof v1_within_role as Hall. rewrite Forall_forall in Hall. apply Hall; [|done]. by apply list_elem_of_lookup_2 in Hx.
Qed.
Definition caller (r : Request) : option Role := if bool_decide (bearerToken r = "") then None else tokens !! bearerToken r.
End router.

(** C29: least privilege. Whatever the router matches and the request says, a request without a configured token
    changes nothing and is shown nothing; and a token can change and show only what its role is for: telemetry
    can only take nodes down a step, the orchestrator touches no account, the subscription service nothing but
    the cache of sets, billing no node and no user but for linking a first subscription, delivery no existing
    account; no one is ever shown a private key, delivery no credential of a user, nobody but the
    administrator the token of a subscription's record, and nobody but the administrator and delivery a personal
    link, whose token opens a subscription just as well. *)
Theorem least_privilege `{ord : !MapOrder} dec cipher tokens ready operator chi r c : untokened (cp_store c) →
  ∃ a c', Router dec cipher tokens ready operator chi r c = (Ok a, c') ∧ untokened (cp_store c') ∧
    match caller tokens r with
    | None => c' = c ∧ harmless (an_Body a)
    | Some role => may role (cp_store c) (cp_store c') ∧ sees role (an_Body a)
    end.
Proof.
  intros Hc.
  assert (∀ a, harmless (an_Body a) → ∃ a' c', (mret a : M Cp answer) c = (Ok a', c') ∧ untokened (cp_store c') ∧
    match caller tokens r with
    | None => c' = c ∧ harmless (an_Body a')
    | Some role => may role (cp_store c) (cp_store c') ∧ sees role (an_Body a')
    end) as Hret.
  { intros a Ha. exists a, c. split; [done|]. split; [done|]. destruct (caller tokens r); [split; [done|by apply harmless_sees]|done]. }
  assert (harmless (an_Body (readyz ready))) as Hready by (by destruct ready as [[]|]).
  unfold Router. destruct (chi _ r) as [[|[|i]] id| |]; try (by apply Hret).
  unfold authenticate, caller in *. rewrite TokenStore_Resolve_lookup. case_bool_decide; [by apply Hret|].
  destruct (tokens !! bearerToken r) as [role|]; [|by apply Hret].
  destruct (serve_v1_does dec cipher operator chi role r c Hc) as (a & c' & Hm & HR & HV). exists a, c'. split; [done|].
  split; [by apply HR|done].
Qed.

(** ** A concrete router and one request *)
Fixpoint match_segments (pattern path : list string) (id : string) : option string :=
  match pattern, path with
  | [], [] => Some id
  | p :: ps, x :: xs => if bool_decide (p = "{id}") then match_segments ps xs x
                        else if bool_decide (p = x) then match_segments ps xs id else None
  | _, _ => None
  end.
Fixpoint match_table (table : list (string * string)) (i : nat) (r : Request) : matching :=
  match table with
  | [] => Unmatched
  | (m, p) :: table => if bool_decide (m = "*") then Matched i "" else
      match match_segments (Split p 47) (Split (rq_Path r) 47) "" with
      | Some id => if bool_decide (rq_Method r = m) then Matched i id else match_table table (S i) r
      | None => match_table table (S i) r
      end
  end.
Definition demo_tokens : TokenStore := <["cp-delivery" := RoleDelivery]> (<["cp-telemetry" := RoleTelemetry]> ∅).
Definition demo_decoders : ApiDecoders := {|
  ad_node := λ _, None; ad_rotate := λ _, None; ad_activation := λ _, None; ad_aggregates := λ _, None; ad_createUser := λ _, None;
  ad_patchUser := λ _ _, None; ad_createSubscription := λ _, None; ad_patchSubscription := λ _, None; ad_ensureTelegram := λ _, Some 7;
  ad_ensureSubscription := λ _, None; ad_billingState := λ _, None; ad_resolve := λ _, None |}.
Definition demo_call (method path token : string) : Request := {|
  rq_Method := method; rq_Path := path; rq_Query := ∅; rq_Header := <["Authorization" := ["bearer " +:+ token]]> ∅; rq_TLS := false;
  rq_Host := ""; rq_RemoteAddr := ""; rq_Body := [] |}.
Abbreviation demo_router :=
  (Router (ord := key_order) demo_decoders None demo_tokens (Some (Ok tt)) None (λ table r, match_table table 0 r)).
Definition demo_status (x : result answer * Cp) : Z := match x.1 with Ok a => an_Status a | Err _ => 0 end.
Example demo_answers :
  (λ x, demo_status (demo_router (demo_call x.1.1 x.1.2 x.2) ControlTokens.link_cp)) <$>
    [("GET", "/healthz", ""); ("GET", "/v1/nodes", "cp-telemetry"); ("GET", "/v1/nodes", "other"); ("GET", "/v1/users/u1", "cp-telemetry");
     ("GET", "/v1/subscriptions/s1", "cp-delivery"); ("POST", "/v1/subscriptions/s1/cancel", "cp-delivery"); ("POST", "/v1/users/ensure-telegram", "cp-delivery")]
  = [200; 200; 401; 403; 200; 403; 200].
Proof. vm_compute. reflexivity. Qed.
Lemma least_privilege_witness : ∃ a c', demo_router (demo_call "POST" "/v1/users/ensure-telegram" "cp-delivery") ControlTokens.link_cp = (Ok a, c') ∧
  an_Status a = 200 ∧ delivery_may (cp_store ControlTokens.link_cp) (cp_store c') ∧ sees RoleDelivery (an_Body a).
Proof.
  destruct (least_privilege (ord := key_order) demo_decoders None demo_tokens (Some (Ok tt)) None (λ table r, match_table table 0 r)
    (demo_call "POST" "/v1/users/ensure-telegram" "cp-delivery") ControlTokens.link_cp) as (a & c' & Hr & _ & Hm & Hs).
  { apply map_Forall_insert_2; [reflexivity|apply map_Forall_empty]. }
  exists a, c'. split; [exact Hr|]. split; [|split; [exact (proj2 Hm)|exact Hs]].
  assert (demo_status (demo_router (demo_call "POST" "/v1/users/ensure-telegram" "cp-delivery") ControlTokens.link_cp) = 200) as H by (vm_compute; reflexivity).
  rewrite Hr in H. exact H.
Defined.

(** The token of a header a client of ours writes *)
Lemma bearerToken_header r token : header r "Authorization" = "Bearer " +:+ token → token ≠ "" → TrimSpace token = token → bearerToken r = token.
Proof.
  intros Hh Hne Ht. unfold bearerToken. rewrite Hh, string_length_app. change (String.length "Bearer ") with 7%nat.
  replace (7 <? 7 + String.length token)%nat with true by (destruct token; [done|symmetry; apply Nat.ltb_lt; cbn; lia]).
  change (String.substring 0 7 ("Bearer " +:+ token)) with (String.substring 0 (String.length "Bearer ") ("Bearer " +:+ token)). rewrite substring_whole.
  change (String.substring 7 ?n ("Bearer " +:+ token)) with (String.substring 0 n token). cbn [andb].
  rewrite bool_decide_eq_true_2 by (vm_compute; reflexivity). rewrite Nat.add_comm, Nat.add_sub, substring_all. exact Ht.
Qed.

(** ** Billing's client in front of this router

    [arrive] is the request an exchange of billing's adapter arrives as, [serve] the router's answer to it, and
    [BillingClient.over_network] the network between them. *)
Import BillingClient.HTTP.
Definition arrive (baseURL : string) (x : exchange) : Request := {|
  rq_Method := ex_Method x; rq_Path := TrimPrefix (ex_URL x) (TrimRight_slash baseURL); rq_Query := ∅;
  rq_Header := if bool_decide (ex_Authorization x = "") then ∅ else <["Authorization" := [ex_Authorization x]]> ∅; rq_TLS := false;
  rq_Host := ""; rq_RemoteAddr := ""; rq_Body := bytes_of (default "" (ex_Body x)) |}.
Inductive billing_call := CallEnsure (userID : string) (plan : SubscriptionPlan) | CallSet (subID : string) (st : BillingState).
Definition call_method (q : billing_call) : string := match q with CallEnsure _ _ => "POST" | CallSet _ _ => "PUT" end.
Definition call_path (q : billing_call) : string :=
  match q with
  | CallEnsure u _ => "/v1/users/" +:+ u +:+ "/ensure-subscription"
  | CallSet id _ => "/v1/subscriptions/" +:+ id +:+ "/billing-state"
  end.
Definition call_body (q : billing_call) : option string :=
  match q with CallEnsure _ p => Some (ensure_body p) | CallSet _ st => BillingState_json st end.
(** The entry of the route table, and its parameter *)
Definition call_route (q : billing_call) : nat := match q with CallEnsure _ _ => 2 | CallSet _ _ => 3 end%nat.
Definition call_id (q : billing_call) : string := match q with CallEnsure u _ => u | CallSet id _ => id end.
Section billing_http.
Context `{ord : !MapOrder} (dec : ApiDecoders) (cipher : option SubscriptionService.TokenCipher).
Context (tokens : TokenStore) (ready : option (result unit)) (operator : option (Store → result ControlPlaneOperatorSummary)).
Context (chi : list (string * string) → Request → matching) (text : error → string).
Context (baseURL token : string) (decode_subscription : list Z → option Subscription).
Definition serve (x : exchange) : M Cp (Z * option (list Z)) :=
  a ←! Router dec cipher tokens ready operator chi (arrive baseURL x) ;
  let r := response text a in mret (rsp_Status r, Some (bytes_of (rsp_Body r))).
Definition Do (x : exchange) : M (BillingClient.Lossy Cp) (Z * option (list Z)) := BillingClient.over_network (serve x).
Definition over_http (q : billing_call) : M (BillingClient.Lossy Cp) Subscription :=
  match q with
  | CallEnsure u p => EnsureSubscription Do baseURL token decode_subscription u p
  | CallSet id st => SetBillingState Do baseURL token decode_subscription id st
  end.
Definition direct (q : billing_call) : M Cp Subscription :=
  match q with
  | CallEnsure u p => SubscriptionService.Ensure u p
  | CallSet id st => SubscriptionService.ApplyBillingState id st
  end.
(** The router matches the call's path to its route. *)
Definition routed (q : billing_call) : Prop := ∀ r, rq_Method r = call_method q → rq_Path r = call_path q →
  chi [("GET", "/healthz"); ("GET", "/readyz"); ("*", "/v1/*")] r = Matched 2 "" ∧
  chi ((λ x, (rt_Method x, "/v1" +:+ rt_Pattern x)) <$> v1 dec cipher operator) r = Matched (call_route q) (call_id q).
(** The body is written, and the control-plane's decoder reads back what was written. *)
Definition carried (q : billing_call) : Prop := ∃ b, call_body q = Some b ∧
  let l := take (Z.to_nat (2 ^ 20)) (bytes_of b) in
  match q with CallEnsure _ p => ad_ensureSubscription dec l = Some p | CallSet _ st => ad_billingState dec l = Some st end.
(** Billing's decoder reads back the subscription the control-plane answers in state [c]. *)
Definition readable (q : billing_call) (c : Cp) : Prop := ∀ s c', direct q c = (Ok s, c') →
  Httpx.DecodeJSON decode_subscription (Some (bytes_of (rsp_Body (response text (writeJSON 200 (BSubscription s)))))) = Some s.
Definition same_outcome (r r' : result Subscription) : Prop :=
  match r, r' with Ok s, Ok s' => s = s' | Err _, Err _ => True | _, _ => False end.

Lemma bearer_of_billing x : ex_Authorization x = "Bearer " +:+ token → token ≠ "" → TrimSpace token = token → bearerToken (arrive baseURL x) = token.
Proof.
  intros Hx Hne Ht. apply bearerToken_header; [|done..]. unfold header, arrive. cbn [rq_Header].
  rewrite bool_decide_eq_false_2 by (rewrite Hx; done). by rewrite lookup_insert_eq, <-Hx.
Qed.
Context (Htok : TokenStore_Resolve tokens token = Some RoleBilling) (Hne : token ≠ "") (Htrim : TrimSpace token = token).
Definition sent (q : billing_call) (b : string) : exchange := {|
  ex_Method := call_method q; ex_URL := TrimRight_slash baseURL +:+ call_path q; ex_Authorization := "Bearer " +:+ token; ex_Body := Some b |}.
(** The router answers a call with what the use case behind its route does. *)
Lemma serve_call q b c : routed q → call_body q = Some b → carried q →
  serve (sent q b) c = (λ out : result Subscription * Cp, (Ok (let r := response text (match out.1 with Ok s => writeJSON 200 (BSubscription s) | Err e => writeDomainError e end) in
    (rsp_Status r, Some (bytes_of (rsp_Body r)))), out.2)) (direct q c).
Proof.
  intros Hr Hb (b' & Hb' & Hd). rewrite Hb in Hb'. injection Hb' as <-.
  destruct (Hr (arrive baseURL (sent q b))) as [H1 H2]; [done|unfold arrive, sent; cbn; apply TrimPrefix_app|].
  unfold serve, mbind, M_bind, Router. rewrite H1. unfold authenticate. rewrite bearer_of_billing by done. rewrite bool_decide_eq_false_2 by done.
  rewrite Htok. unfold serve_v1. rewrite H2. destruct q as [u p|id st]; cbn [call_route lookup]; cbn [direct];
    unfold v1; cbn [list_lookup lookup nth_error rt_Roles rt_Handler]; unfold requireRole; cbn [negb Allows existsb];
    unfold ensureSubscription, billingState, decoded, decodeJSON, respond, mbind, M_bind, try, mret; cbn [rq_Body arrive sent ex_Body default call_id].
  - rewrite (bool_decide_eq_true_2 (RoleBilling = RoleBilling)), orb_true_l, orb_true_r by done. cbn in Hd; unfold Datatypes.id. rewrite Hd. cbn [negb].
    by destruct (SubscriptionService.Ensure u p c) as [[] ?].
  - rewrite (bool_decide_eq_true_2 (RoleBilling = RoleBilling)), orb_true_l, orb_true_r by done. cbn in Hd; unfold Datatypes.id. rewrite Hd. cbn [negb].
    by destruct (SubscriptionService.ApplyBillingState id st c) as [[] ?].
Qed.
Lemma error_status e : Z.quot (rsp_Status (response text (writeDomainError e))) 100 ≠ 2.
Proof. unfold writeDomainError. repeat case_match; done. Qed.
Lemma over_http_sent q b : call_body q = Some b → over_http q = do Do baseURL token (call_method q) (call_path q) (Some (Some b)) decode_subscription.
Proof. intros Hb. destruct q as [u p|id st]; cbn in Hb; [by injection Hb as <-|]. unfold over_http, SetBillingState. by rewrite Hb. Qed.
(** C32: Billing's HTTP client in front of the control-plane's router, over a network that loses requests and responses,
    is the lossy client the theorems of the outbox are about: with a token of the billing role, a path the router
    matches and bodies the two ends decode as they were written, each exchange leaves the control-plane as the
    use case itself over that network does, a success comes back as the same subscription, and a lost exchange and
    every refusal (404, 409, 422, ...) as an error. *)
Theorem billing_over_http q c faults : routed q → carried q → readable q c →
  let '(r, w) := over_http q (BillingClient.mkLossy c faults) in
  let '(r', w') := BillingClient.over_network (direct q) (BillingClient.mkLossy c faults) in
  w = w' ∧ same_outcome r r'.
Proof.
  intros Hr Hc Hs. destruct (Hc) as (b & Hb & _). rewrite (over_http_sent q b Hb). pose proof (serve_call q b c Hr Hb Hc) as Hserve.
  unfold do, mbind, M_bind, wrapping, Do. rewrite (bool_decide_eq_false_2 (token = "")) by done. change (default None (Some (Some b))) with (Some b). fold (sent q b).
  unfold BillingClient.over_network. cbn [BillingClient.l_faults BillingClient.l_client]. rewrite Hserve.
  destruct (direct q c) as [out c'] eqn:Hd. destruct (head faults) as [[]|]; [|done..|]; cbn [fst snd]; destruct out as [s|e]; try done.
  all: try (rewrite (proj2 (Z.eqb_neq _ _)) by apply error_status; cbn; done).
  all: change (Z.quot (rsp_Status (response text (writeJSON 200 (BSubscription s)))) 100 =? 2) with true; cbn [negb]; rewrite (Hs s c' Hd); done.
Qed.
End billing_http.

(** ** A payment pushed over HTTP; the control-plane's answer is lost *)
Definition pushed : BillingState := {|
  bs_Plan := SubscriptionPlanBasic; bs_Revision := 1; bs_Status := SubscriptionStatusActive; bs_ExpiresAt := 2 * Hour; bs_GraceUntil := 3 * Hour |}.
Definition push_call : billing_call := CallSet "s1" pushed.
Definition only {A} (text : string) (a : option A) (l : list Z) : option A := if bool_decide (l = bytes_of text) then a else None.
Definition push_decoders : ApiDecoders := {|
  ad_node := λ _, None; ad_rotate := λ _, None; ad_activation := λ _, None; ad_aggregates := λ _, None; ad_createUser := λ _, None;
  ad_patchUser := λ _ _, None; ad_createSubscription := λ _, None; ad_patchSubscription := λ _, None; ad_ensureTelegram := λ _, None;
  ad_ensureSubscription := λ _, None; ad_billingState := only (default "" (BillingState_json pushed)) (Some pushed); ad_resolve := λ _, None |}.
Definition push_answer : option Subscription := match (direct push_call ControlTokens.link_cp).1 with Ok s => Some s | Err _ => None end.
Definition push_decode : list Z → option Subscription := λ _, push_answer.
Definition billing_tokens : TokenStore := <["cp-billing" := RoleBilling]> ∅.
Example push_answered : is_Some push_answer.
Proof. vm_compute. eauto. Qed.
Lemma billing_over_http_witness :
  let '(r, w) := over_http (ord := key_order) push_decoders None billing_tokens (Some (Ok tt)) None (λ table r, match_table table 0 r) (λ _, "")
    "http://control-plane:8081/" "cp-billing" push_decode push_call (BillingClient.mkLossy ControlTokens.link_cp [BillingClient.LoseResponse]) in
  let '(r', w') := BillingClient.over_network (direct push_call) (BillingClient.mkLossy ControlTokens.link_cp [BillingClient.LoseResponse]) in
  w = w' ∧ same_outcome r r'.
Proof.
  refine (billing_over_http (ord := key_order) push_decoders None billing_tokens (Some (Ok tt)) None (λ table r, match_table table 0 r) (λ _, "")
    "http://control-plane:8081/" "cp-billing" push_decode _ _ _ push_call ControlTokens.link_cp [BillingClient.LoseResponse] _ _ _).
  - vm_compute. reflexivity.
  - discriminate.
  - vm_compute. reflexivity.
  - intros [m path qs hs tls host addr body] Hm Hp. cbn in Hm, Hp. subst m path. split; vm_compute; reflexivity.
  - exists (default "" (BillingState_json pushed)). split; vm_compute; reflexivity.
  - intros s c' Hs. assert (push_answer = Some s) as Ha by (unfold push_answer; rewrite Hs; reflexivity).
    unfold push_decode. by rewrite Ha.
Defined.

(** ** The demonstration data (services/control-plane/internal/seed/seed.go)

    The file and the JSON decoder of its nodes are parameters. *)
Module Seed.
Section seed.
Context `{ord : !MapOrder} (ReadFile : string → result (list Z)) (Unmarshal : list Z → option (list Node)).
Definition stamped (t : Time) (n : Node) : Node := if IsZero (n_CreatedAt n) then with_n_identity (n_ID n) t n else n.
Fixpoint valid_nodes (nodes : list Node) : result (list Node) :=
  match nodes with
  | [] => Ok []
  | n :: nodes =>
      match Node_Validate n with
      | Err e => Err (wrap_err ("seed: invalid node " +:+ n_ID n) e)
      | Ok _ => match valid_nodes nodes with Ok l => Ok (n :: l) | Err e => Err e end
      end
  end.
Definition loadNodes (path : string) : M Cp (list Node) :=
  match ReadFile path with
  | Err e => fail (wrap_err "seed: read nodes file" e)
  | Ok raw =>
      match Unmarshal raw with
      | None => fail (Errorf ("seed: parse " +:+ path))
      | Some nodes =>
          if Nat.eqb (length nodes) 0 then fail (Errorf ("seed: " +:+ path +:+ " contains no nodes"))
          else t ←! now ; λ c, (valid_nodes (stamped t <$> nodes), c)
      end
  end.
Fixpoint create_nodes (nodes : list Node) : M Cp unit :=
  match nodes with
  | [] => mret tt
  | n :: nodes => wrapping ("seed: create node " +:+ n_ID n) (repo (Nodes.Create n)) ;;! create_nodes nodes
  end.
Definition first_page : NodeFilter := {| nf_Status := ""; nf_Role := ""; nf_Region := ""; nf_Limit := 1; nf_Cursor := "" |}.
Definition Run (nodesFile : string) : M Cp unit :=
  if bool_decide (nodesFile = "") then fail (Errorf "seed: SEED_NODES_FILE not set (mimicry domains/IPs are data, not code)")
  else
    nodes ←! loadNodes nodesFile ;
    existing ←! wrapping "seed: probe nodes" (NodeService.List first_page) ;
    if negb (Nat.eqb (length existing.1) 0) then mret tt
    else
      create_nodes nodes ;;!
      user ←! wrapping "seed: create user" (UserService.Create (Some 1000001) None) ;
      wrapping "seed: create subscription" (SubscriptionService.Create (u_ID user) SubscriptionPlanUnlimited) ;;!
      wrapping "seed: build set" (BundleService.Build (u_ID user)) ;;!
      mret tt.

Lemma loadNodes_store path c : cp_store (loadNodes path c).2 = cp_store c.
Proof. unfold loadNodes. repeat case_match; try done. Qed.
Lemma probed c : ∃ l, NodeService.List first_page c = (Ok (l, ""), c) ∧ length l = size (c_nodes (cp_store c)).
Proof.
  exists (range (c_nodes (cp_store c))).*2. split; [|by rewrite length_fmap, length_range].
  unfold NodeService.List, repo, zoom, Nodes.List, gets. replace (with_store (cp_store c) c) with c by (by destruct c). do 3 f_equal.
  induction (range (c_nodes (cp_store c))).*2 as [|n l IH]; [done|]. rewrite filter_cons_True; [by rewrite IH|]. vm_compute. done.
Qed.
(** A fleet that has a node is left alone, whatever is seeded: Run answers what reading the file does. *)
Theorem Run_leaves_fleet nodesFile c : c_nodes (cp_store c) ≠ ∅ →
  cp_store (Run nodesFile c).2 = cp_store c ∧
  is_ok (Run nodesFile c).1 = negb (bool_decide (nodesFile = "")) && is_ok (loadNodes nodesFile c).1.
Proof.
  intros Hne. unfold Run. case_bool_decide; [done|]. unfold mbind, M_bind, wrapping. pose proof (loadNodes_store nodesFile c) as Hs.
  destruct (loadNodes nodesFile c) as [[nodes|e] c1]; [|done]. cbn in Hs. destruct (probed c1) as (l & Hl & Hn). rewrite Hl. cbn [fst].
  assert (length l ≠ 0%nat) as Hl0 by (rewrite Hn, Hs; by intros E%map_size_empty_inv).
  rewrite (proj2 (Nat.eqb_neq _ _)) by done. done.
Qed.
End seed.
(** A first run that fails once the nodes are there (here the random source gives out at the user) leaves a fleet without
    its user, and no later run adds one. *)
Example interrupted_seed : let file (_ : string) : result (list Z) := Ok [] in let nodes (_ : list Z) := Some [demo_exit] in
  let c := mkCp NewStore 10 [] [] true [] [] in let c1 := (Run (ord := key_order) file nodes "seed.json" c).2 in
  is_ok (Run (ord := key_order) file nodes "seed.json" c).1 = false ∧
  let '(r, c2) := Run (ord := key_order) file nodes "seed.json" c1 in r = Ok tt ∧ c_users (cp_store c2) = ∅.
Proof. vm_compute. done. Qed.
End Seed.
