(* ===== verification/ControlPostgres.v ===== *)
(** * The control-plane's stores in Postgres (services/control-plane/internal/adapters/postgres)

    The tables of the migrations as maps from primary keys to rows, every statement as a step on them (unique and
    foreign keys and CHECKs included), every method of the stores as the statements it runs, on the pool or inside
    a transaction. [now] is the clock of the server; a reading of the random source is an argument. *)
From S2P Require Import Prelude GoBytes GoText GoFloat Sql Contracts ControlStore ControlFleet ControlDurable ControlHttp.
Import Domain.

(** ** internal/migrate/migrations *)
(** A subscription without what other columns hold: the token is stored as its hash. *)
Record sub_row := { sr_subscription : Subscription; sr_token_hash : string; sr_token_prefix : string; sr_billing_state_hash : string }.
(** The columns type and params together; JSON null is the parameters of a nil pointer. *)
Inductive params :=
| PVlessReality (p : option VlessRealityParams) | PAmneziaWG (p : option AmneziaWGParams)
| PHysteria2 (p : option Hysteria2Params) | PShadowsocks2022 (p : option Shadowsocks2022Params).
Record transport_row := {
  tr_node_id : string; tr_tag : string; tr_version : string; tr_port : Z; tr_enabled : bool; tr_priority : Z; tr_params : params }.
Record aggregate_row := {
  ar_node_id : string; ar_region : string; ar_window_start : Time; ar_window_end : Time; ar_total : Z; ar_failures : Z;
  ar_block_signals : Z; ar_verdict : Verdict }.
Record job_row := {
  jr_kind : string; jr_target_id : string; jr_attempts : Z; jr_available_at : Time; jr_claimed_at : option Time }.
(** [q_nodes]: the nodes without their transports; [q_job_seq]: the last id drawn from the sequence of rebuild_jobs *)
Record CpDb := mkCpDb {
  q_users : gmap string User; q_subs : gmap string sub_row; q_delivery : gmap string DeliveryToken; q_nodes : gmap string Node;
  q_transports : gmap string transport_row; q_node_history : gmap string RotationRecord; q_user_history : gmap string UserSecretRotation;
  q_sets : gmap string SubscriptionSet; q_aggregates : gmap string aggregate_row; q_jobs : gmap Z job_row; q_job_seq : Z }.
Definition empty_cp_db : CpDb := mkCpDb ∅ ∅ ∅ ∅ ∅ ∅ ∅ ∅ ∅ ∅ 0.
Definition on_users f d := mkCpDb (f (q_users d)) (q_subs d) (q_delivery d) (q_nodes d) (q_transports d) (q_node_history d) (q_user_history d) (q_sets d) (q_aggregates d) (q_jobs d) (q_job_seq d).
Definition on_subs f d := mkCpDb (q_users d) (f (q_subs d)) (q_delivery d) (q_nodes d) (q_transports d) (q_node_history d) (q_user_history d) (q_sets d) (q_aggregates d) (q_jobs d) (q_job_seq d).
Definition on_delivery f d := mkCpDb (q_users d) (q_subs d) (f (q_delivery d)) (q_nodes d) (q_transports d) (q_node_history d) (q_user_history d) (q_sets d) (q_aggregates d) (q_jobs d) (q_job_seq d).
Definition on_nodes f d := mkCpDb (q_users d) (q_subs d) (q_delivery d) (f (q_nodes d)) (q_transports d) (q_node_history d) (q_user_history d) (q_sets d) (q_aggregates d) (q_jobs d) (q_job_seq d).
Definition on_transports f d := mkCpDb (q_users d) (q_subs d) (q_delivery d) (q_nodes d) (f (q_transports d)) (q_node_history d) (q_user_history d) (q_sets d) (q_aggregates d) (q_jobs d) (q_job_seq d).
Definition on_node_history f d := mkCpDb (q_users d) (q_subs d) (q_delivery d) (q_nodes d) (q_transports d) (f (q_node_history d)) (q_user_history d) (q_sets d) (q_aggregates d) (q_jobs d) (q_job_seq d).
Definition on_user_history f d := mkCpDb (q_users d) (q_subs d) (q_delivery d) (q_nodes d) (q_transports d) (q_node_history d) (f (q_user_history d)) (q_sets d) (q_aggregates d) (q_jobs d) (q_job_seq d).
Definition on_sets f d := mkCpDb (q_users d) (q_subs d) (q_delivery d) (q_nodes d) (q_transports d) (q_node_history d) (q_user_history d) (f (q_sets d)) (q_aggregates d) (q_jobs d) (q_job_seq d).
Definition on_aggregates f d := mkCpDb (q_users d) (q_subs d) (q_delivery d) (q_nodes d) (q_transports d) (q_node_history d) (q_user_history d) (q_sets d) (f (q_aggregates d)) (q_jobs d) (q_job_seq d).
Definition on_jobs f d := mkCpDb (q_users d) (q_subs d) (q_delivery d) (q_nodes d) (q_transports d) (q_node_history d) (q_user_history d) (q_sets d) (q_aggregates d) (f (q_jobs d)) (q_job_seq d).
Definition on_job_seq f d := mkCpDb (q_users d) (q_subs d) (q_delivery d) (q_nodes d) (q_transports d) (q_node_history d) (q_user_history d) (q_sets d) (q_aggregates d) (q_jobs d) (f (q_job_seq d)).

(** ** Columns *)
Definition time_column (t : option Time) : option Time := timestamptz <$> t.
Definition with_u_columns (id : string) (sub : option string) (u : User) : User := {|
  u_ID := id; u_TelegramID := u_TelegramID u; u_Email := u_Email u; u_Status := u_Status u;
  u_RealityShortID := u_RealityShortID u; u_UUID := u_UUID u; u_Hysteria2Password := u_Hysteria2Password u;
  u_PrivateKey := u_PrivateKey u; u_SubscriptionID := sub; u_DeviceLimit := u_DeviceLimit u;
  u_QuotaBytes := wrap64 (u_QuotaBytes u); u_UsedBytes := wrap64 (u_UsedBytes u);
  u_CreatedAt := timestamptz (u_CreatedAt u); u_UpdatedAt := timestamptz (u_UpdatedAt u) |}.
(** The columns of an INSERT; the others have their defaults. *)
Definition with_s_columns (id user : string) (s : Subscription) : Subscription := {|
  s_ID := id; s_UserID := user; s_Plan := s_Plan s; s_Status := s_Status s; s_Token := "";
  s_TrafficLimitBytes := wrap64 (s_TrafficLimitBytes s); s_SpeedLimitMbps := s_SpeedLimitMbps s; s_DeviceLimit := s_DeviceLimit s;
  s_GraceUntil := None; s_BillingRevision := 0; s_StartsAt := timestamptz (s_StartsAt s);
  s_ExpiresAt := time_column (s_ExpiresAt s); s_CreatedAt := timestamptz (s_CreatedAt s); s_UpdatedAt := timestamptz (s_UpdatedAt s) |}.
Definition with_s_row (s : Subscription) (r : sub_row) : sub_row := {|
  sr_subscription := s; sr_token_hash := sr_token_hash r; sr_token_prefix := sr_token_prefix r; sr_billing_state_hash := sr_billing_state_hash r |}.
Definition with_s_hash (hash prefix : string) (s : Subscription) (r : sub_row) : sub_row := {|
  sr_subscription := s; sr_token_hash := hash; sr_token_prefix := prefix; sr_billing_state_hash := sr_billing_state_hash r |}.
Definition with_s_updated (t : Time) (s : Subscription) : Subscription := with_s_period (s_Status s) (s_ExpiresAt s) t s.
Definition with_u_updated (t : Time) (u : User) : User := {|
  u_ID := u_ID u; u_TelegramID := u_TelegramID u; u_Email := u_Email u; u_Status := u_Status u;
  u_RealityShortID := u_RealityShortID u; u_UUID := u_UUID u; u_Hysteria2Password := u_Hysteria2Password u;
  u_PrivateKey := u_PrivateKey u; u_SubscriptionID := u_SubscriptionID u; u_DeviceLimit := u_DeviceLimit u;
  u_QuotaBytes := u_QuotaBytes u; u_UsedBytes := u_UsedBytes u; u_CreatedAt := u_CreatedAt u; u_UpdatedAt := t |}.
(** The columns of nodes, [created] apart *)
Definition node_columns (created : Time) (n : Node) : Node := {|
  n_ID := n_ID n; n_Role := n_Role n; n_Status := n_Status n; n_EntryNodeID := n_EntryNodeID n; n_Provider := n_Provider n;
  n_Cloud := n_Cloud n; n_Region := n_Region n; n_EntryIP := n_EntryIP n; n_EphemeralEntryIP := n_EphemeralEntryIP n;
  n_Transports := []; n_CapacityUsers := n_CapacityUsers n; n_RotateAfter := time_column (n_RotateAfter n);
  n_CreatedAt := created; n_ExpiresAt := time_column (n_ExpiresAt n); n_Labels := n_Labels n |}.
Definition with_n_Transports (ts : list Transport) (n : Node) : Node := {|
  n_ID := n_ID n; n_Role := n_Role n; n_Status := n_Status n; n_EntryNodeID := n_EntryNodeID n; n_Provider := n_Provider n;
  n_Cloud := n_Cloud n; n_Region := n_Region n; n_EntryIP := n_EntryIP n; n_EphemeralEntryIP := n_EphemeralEntryIP n;
  n_Transports := ts; n_CapacityUsers := n_CapacityUsers n; n_RotateAfter := n_RotateAfter n;
  n_CreatedAt := n_CreatedAt n; n_ExpiresAt := n_ExpiresAt n; n_Labels := n_Labels n |}.

(** ** db.go, errmap.go *)
Section postgres.
Context `{ord : !MapOrder, pg : !Postgres}.
Abbreviation Stmt := (M CpDb).
Abbreviation PM := (M (Session CpDb)).
Definition querier : Type := ∀ A : Type, Stmt A → PM A.
Definition pool : querier := λ A st, autocommit st.
Definition tx : querier := λ A st, in_tx st.
Definition withTx {A} (fn : querier → PM A) : PM A :=
  transaction_with (wrap_err "postgres: begin") (wrap_err "postgres: commit") (fn tx).
Definition withSerializableTx {A} (fn : querier → PM A) : PM A :=
  transaction_with (wrap_err "postgres: begin serializable") (wrap_err "postgres: commit") (fn tx).
Definition isSerializationFailure (e : error) : bool := has_code "40001" e.
Definition isUniqueViolation (e : error) : bool := has_code "23505" e.

Definition scanned (msg : string) (e : error) : error := if no_rows e then ErrNotFound else wrap_err msg e.
Definition absent (e : error) : error := if no_rows e then ErrNotFound else e.
Definition taken (msg : string) (e : error) : error := if isUniqueViolation e then ErrConflict else wrap_err msg e.
(** QueryRow *)
Definition query_row {A} (f : CpDb → option A) : Stmt A := λ d, match f d with Some a => (Ok a, d) | None => (Err ErrNoRows, d) end.
Definition affected_one (tag : Z) : PM unit := if tag =? 0 then fail ErrNotFound else mret tt.

(** *** What the server checks *)
Definition uuid (s : string) : Stmt string := match uuid_in s with Some u => mret u | None => fail ErrSyntax end.
Definition uuid_ptr (o : option string) : Stmt (option string) :=
  match o with None => mret None | Some s => u ←! uuid s ; mret (Some u) end.
Definition int4 (z : Z) : Stmt unit :=
  if (- 2 ^ 31 <=? z) && (z <? 2 ^ 31) then mret tt else fail (Errorf "pgx: value out of range for int4").

(** ** users.go *)
Definition ptr_clash {A} `{EqDecision A} (a b : option A) : bool := is_set a && bool_decide (a = b).
(** telegram_id, email, reality_short_id and vless_uuid are unique. *)
Definition user_clash (u : User) (kv : string * User) : bool :=
  negb (bool_decide (kv.1 = u_ID u)) &&
  (ptr_clash (u_TelegramID u) (u_TelegramID kv.2) || ptr_clash (u_Email u) (u_Email kv.2) ||
   bool_decide (u_RealityShortID u = u_RealityShortID kv.2) || bool_decide (u_UUID u = u_UUID kv.2)).
Definition user_checks (u : User) : bool := (0 <=? u_DeviceLimit u) && (0 <=? u_QuotaBytes u) && (0 <=? u_UsedBytes u).
Definition subscription_exists (d : CpDb) (sub : option string) : bool :=
  match sub with Some id => is_set (q_subs d !! id) | None => true end.
(** A new version of a row of users *)
Definition put_user (u : User) : Stmt unit := λ d, (
  require (user_checks u) ErrCheck ;;!
  require (negb (existsb (user_clash u) (range (q_users d)))) ErrUnique ;;!
  require (subscription_exists d (u_SubscriptionID u)) ErrForeignKey ;;!
  modify (on_users <[u_ID u := u]>)) d.
Definition user_row (u : User) : Stmt User :=
  id ←! uuid (u_ID u) ; sub ←! uuid_ptr (u_SubscriptionID u) ; int4 (u_DeviceLimit u) ;;! mret (with_u_columns id sub u).
Definition insert_user (u : User) : Stmt unit :=
  row ←! user_row u ; taken_id ←! gets (λ d, is_set (q_users d !! u_ID row)) ;
  require (negb taken_id) ErrUnique ;;! put_user row.
Definition user_by_id (id : string) : Stmt User := u ←! uuid id ; query_row (λ d, q_users d !! u).
Definition PgUserCreate (u : User) : PM unit := on_error (taken "postgres: insert user") (pool _ (insert_user u)).
Definition PgUserGet (id : string) : PM User := on_error (scanned "postgres: scan user") (pool _ (user_by_id id)).
(** The secrets and created_at stay. *)
Definition merge_user (row cur : User) : User := {|
  u_ID := u_ID cur; u_TelegramID := u_TelegramID row; u_Email := u_Email row; u_Status := u_Status row;
  u_RealityShortID := u_RealityShortID cur; u_UUID := u_UUID cur; u_Hysteria2Password := u_Hysteria2Password cur;
  u_PrivateKey := u_PrivateKey cur; u_SubscriptionID := u_SubscriptionID row; u_DeviceLimit := u_DeviceLimit row;
  u_QuotaBytes := u_QuotaBytes row; u_UsedBytes := u_UsedBytes row; u_CreatedAt := u_CreatedAt cur; u_UpdatedAt := u_UpdatedAt row |}.
Definition update_user (u : User) : Stmt Z :=
  row ←! user_row u ; cur ←! gets (λ d, q_users d !! u_ID row) ;
  match cur with None => mret 0 | Some cur => put_user (merge_user row cur) ;;! mret 1 end.
Definition PgUserUpdate (u : User) : PM unit := tag ←! wrapping "postgres: update user" (pool _ (update_user u)) ; affected_one tag.
Definition rotate_secrets_row (now : Time) (id shortID uuid_ privKey hy2 : string) : Stmt User :=
  cur ←! user_by_id id ;
  let u := with_u_updated now (with_u_secrets shortID uuid_ privKey hy2 cur) in
  put_user u ;;! mret u.
(** [token]: what secret.Token() gives; [stamp]: the text of clock_timestamp() when a row is written *)
Definition revoked_hash (id stamp : string) : string := "revoked:" +:+ id +:+ ":" +:+ stamp.
Definition of_user (id : string) (_ : string) (r : sub_row) : bool := bool_decide (s_UserID (sr_subscription r) = id).
Definition revoke_rows (stamp : string → string) (user : string) : Stmt unit := modify (on_subs (map_imap (λ id r,
  Some (if of_user user id r then with_s_hash (revoked_hash id (stamp id)) (sr_token_prefix r) (sr_subscription r) r else r)))).
Definition delete_tokens (user : string) : Stmt unit := modify (λ d, on_delivery (map_imap (λ id t,
  if match q_subs d !! id with Some r => of_user user id r | None => false end then None else Some t)) d).
Definition PgRotateSecrets (now : Time) (stamp : string → string) (token : result string) (id shortID uuid_ privKey : string) : PM User :=
  match token with
  | Err e => fail e
  | Ok hy2 => withTx (λ q,
      u ←! on_error (scanned "postgres: scan user") (q _ (rotate_secrets_row now id shortID uuid_ privKey hy2)) ;
      q _ (user ←! uuid id ; revoke_rows stamp user) ;;!
      q _ (user ←! uuid id ; delete_tokens user) ;;!
      mret u)
  end.
Definition PgAllActiveIDs : PM (list string) := wrapping "postgres: active user ids"
  (pool _ (gets (λ d, (rows (λ _ u, bool_decide (u_Status u = UserStatusActive)) (q_users d)).*1))).
(** The WHERE both admission queries share: the subscription that admits the user *)
Definition admitting (d : CpDb) (now : Time) (u : User) : option Subscription :=
  id ← u_SubscriptionID u; r ← q_subs d !! id;
  if bool_decide (u_Status u = UserStatusActive) && servable (s_Status (sr_subscription r)) && negb (lapsed now (sr_subscription r))
  then Some (sr_subscription r) else None.
Definition uuid_order (a b : User) : bool := text_lt (u_UUID a) (u_UUID b).
(** The rows of the join, ORDER BY u.vless_uuid *)
Definition admitted_rows (d : CpDb) (now : Time) : list (User * Subscription) :=
  omap (λ u, (λ s, (u, s)) <$> admitting d now u) (sort_slice uuid_order (range (q_users d)).*2).
Definition queryEligibleRealityUsers (q : querier) (now : Time) : PM (list RealityUser) := wrapping "postgres: eligible reality users"
  (q _ (gets (λ d, (λ us : User * Subscription, {| ru_UUID := u_UUID us.1; ru_ShortID := u_RealityShortID us.1 |}) <$> admitted_rows d now))).
Definition PgEligibleRealityUsers (now : Time) : PM (list RealityUser) := queryEligibleRealityUsers pool now.
Definition PgGetByTelegram (id : Z) : PM User := on_error (scanned "postgres: scan user")
  (pool _ (query_row (λ d, head (rows (λ _ u, bool_decide (u_TelegramID u = Some id)) (q_users d)).*2))).

(** ** subscriptions.go *)
Definition valid_grace (s : Subscription) : bool :=
  match s_GraceUntil s, s_ExpiresAt s with None, _ => true | Some g, Some e => e <=? g | Some _, None => false end.
Definition sub_checks (s : Subscription) : bool :=
  (0 <=? s_TrafficLimitBytes s) && (0 <=? s_SpeedLimitMbps s) && (0 <=? s_DeviceLimit s) && (0 <=? s_BillingRevision s) && valid_grace s.
Definition hash_clash (id : string) (r : sub_row) (kv : string * sub_row) : bool :=
  negb (bool_decide (kv.1 = id)) && bool_decide (sr_token_hash kv.2 = sr_token_hash r).
(** A new version of a row of subscriptions *)
Definition put_sub (id : string) (r : sub_row) : Stmt unit := λ d, (
  require (sub_checks (sr_subscription r)) ErrCheck ;;!
  require (negb (existsb (hash_clash id r) (range (q_subs d)))) ErrUnique ;;!
  modify (on_subs <[id := r]>)) d.
(** A statement that fails leaves no trace. *)
Definition statement {A} (st : Stmt A) : Stmt A := λ d, match st d with (Err e, _) => (Err e, d) | out => out end.
Definition insert_sub (sub : Subscription) (tokenHash tokenPrefix : string) : Stmt unit := statement (
  id ←! uuid (s_ID sub) ; user ←! uuid (s_UserID sub) ; int4 (s_SpeedLimitMbps sub) ;;! int4 (s_DeviceLimit sub) ;;!
  d ←! gets (λ d, d) ;
  require (negb (is_set (q_subs d !! id))) ErrUnique ;;!
  put_sub id {| sr_subscription := with_s_columns id user sub; sr_token_hash := tokenHash; sr_token_prefix := tokenPrefix; sr_billing_state_hash := "" |} ;;!
  require (is_set (q_users d !! user)) ErrForeignKey).
(** UPDATE .. WHERE id=$1 AND [where_] *)
Definition update_sub (id : string) (where_ : sub_row → bool) (set : sub_row → sub_row) : Stmt Z :=
  id ←! uuid id ; cur ←! gets (λ d, q_subs d !! id) ;
  match cur with
  | Some r => if where_ r then put_sub id (set r) ;;! mret 1 else mret 0
  | None => mret 0
  end.
Definition row_by_id (id : string) : Stmt sub_row := u ←! uuid id ; query_row (λ d, q_subs d !! u).
Definition lock_subscription_of (userID : string) : Stmt (option string) := u ←! user_by_id userID ; mret (u_SubscriptionID u).
Definition link_user (userID subID : string) (updated : Time) : Stmt Z :=
  user ←! uuid userID ; sub ←! uuid subID ; cur ←! gets (λ d, q_users d !! user) ;
  match cur with None => mret 0 | Some u => put_user (with_u_link sub (timestamptz updated) u) ;;! mret 1 end.
Definition subscriptionCreateAndLink (q : querier) (sub : Subscription) (tokenHash tokenPrefix userID : string) : PM unit :=
  existing ←! on_error (scanned "postgres: lock user") (q _ (lock_subscription_of userID)) ;
  if ptr_set existing then fail ErrConflict
  else
    on_error (taken "postgres: insert subscription") (q _ (insert_sub sub tokenHash tokenPrefix)) ;;!
    tag ←! wrapping "postgres: link subscription" (q _ (link_user userID (s_ID sub) (s_UpdatedAt sub))) ;
    affected_one tag.
Definition PgCreateAndLink (sub : Subscription) (tokenHash tokenPrefix userID : string) : PM unit :=
  withTx (λ q, subscriptionCreateAndLink q sub tokenHash tokenPrefix userID).
Definition PgSubCreate (sub : Subscription) (tokenHash tokenPrefix : string) : PM unit :=
  on_error (taken "postgres: insert subscription") (pool _ (insert_sub sub tokenHash tokenPrefix)).
Definition sub_get (q : querier) (id : string) : PM Subscription :=
  on_error (scanned "postgres: scan subscription") (q _ (r ←! row_by_id id ; mret (sr_subscription r))).
Definition PgSubGet (id : string) : PM Subscription := sub_get pool id.
Definition set_period (status : SubscriptionStatus) (expires : option Time) (updated : Time) (r : sub_row) : sub_row :=
  with_s_row (with_s_period status (time_column expires) (timestamptz updated) (sr_subscription r)) r.
Definition PgSubUpdate (sub : Subscription) : PM unit :=
  tag ←! wrapping "postgres: update subscription" (pool _ (update_sub (s_ID sub) (λ r, s_BillingRevision (sr_subscription r) =? 0)
    (set_period (s_Status sub) (s_ExpiresAt sub) (s_UpdatedAt sub)))) ;
  if tag =? 0 then PgSubGet (s_ID sub) ;;! fail ErrConflict else mret tt.
Definition delete_token (id : string) : Stmt unit := id ←! uuid id ; modify (on_delivery (delete id)).
Definition set_hash (now : Time) (tokenHash tokenPrefix : string) (r : sub_row) : sub_row :=
  with_s_hash tokenHash tokenPrefix (with_s_updated now (sr_subscription r)) r.
Definition PgUpdateTokenHash (now : Time) (id tokenHash tokenPrefix : string) : PM unit := withTx (λ q,
  tag ←! q _ (update_sub id (λ _, true) (set_hash now tokenHash tokenPrefix)) ;
  affected_one tag ;;!
  q _ (delete_token id)).

(** ** launch.go *)
Definition same_revision (fingerprint incoming : string) (current : Subscription) (state : BillingState) : bool :=
  if negb (bool_decide (fingerprint = "")) then negb (bool_decide (fingerprint = incoming))
  else negb (bool_decide (bs_Plan state = "")) && negb (bool_decide (s_Plan current = bs_Plan state))
       || negb (bool_decide (s_Status current = bs_Status state))
       || negb (match s_ExpiresAt current with Some e => TEqual e (bs_ExpiresAt state) | None => false end)
       || negb (match s_GraceUntil current with Some g => TEqual g (bs_GraceUntil state) | None => false end).
Definition billing_columns (now : Time) (state : BillingState) (current : Subscription) (incoming : string) (r : sub_row) : sub_row :=
  let s := with_s_plan (s_Plan current) (wrap64 (s_TrafficLimitBytes current)) (s_SpeedLimitMbps current) (s_DeviceLimit current) (sr_subscription r) in
  let st := {| bs_Plan := bs_Plan state; bs_Revision := bs_Revision state; bs_Status := bs_Status state;
               bs_ExpiresAt := timestamptz (bs_ExpiresAt state); bs_GraceUntil := timestamptz (bs_GraceUntil state) |} in
  {| sr_subscription := with_s_billing st now s; sr_token_hash := sr_token_hash r; sr_token_prefix := sr_token_prefix r;
     sr_billing_state_hash := incoming |}.
Definition PgApplyBillingState (now : Time) (id : string) (state : BillingState) : PM Subscription := withTx (λ q,
  fingerprint ←! on_error absent (q _ (r ←! row_by_id id ; mret (sr_billing_state_hash r))) ;
  current ←! sub_get q id ;
  let incoming := BillingFingerprint state (s_Plan current) in
  (if s_BillingRevision current =? bs_Revision state then
     if same_revision fingerprint incoming current state then fail ErrConflict else mret tt
   else if s_BillingRevision current <? bs_Revision state then
     let current := if bool_decide (bs_Plan state = "") then current else ApplyPlanLimits current (bs_Plan state) in
     q _ (int4 (s_SpeedLimitMbps current) ;;! int4 (s_DeviceLimit current) ;;!
          update_sub id (λ _, true) (billing_columns now state current incoming)) ;;! mret tt
   else mret tt) ;;!
  sub_get q id).
(** ON CONFLICT(subscription_id) DO NOTHING; token_hash is unique as well. *)
Definition insert_token (id : string) (candidate : DeliveryToken) : Stmt unit := id ←! uuid id ; λ d,
  match q_delivery d !! id with
  | Some _ => (Ok tt, d)
  | None =>
      if existsb (λ kv, bool_decide (dt_Hash kv.2 = dt_Hash candidate)) (range (q_delivery d)) then (Err ErrUnique, d)
      else if is_set (q_subs d !! id) then (Ok tt, on_delivery <[id := candidate]> d) else (Err ErrForeignKey, d)
  end.
Definition PgEnsureDeliveryToken (id : string) (candidate : DeliveryToken) : PM DeliveryToken := withTx (λ q,
  on_error absent (q _ (row_by_id id)) ;;!
  q _ (insert_token id candidate) ;;!
  q _ (u ←! uuid id ; query_row (λ d, q_delivery d !! u))).
(** The WHERE of the join of subscriptions with their users *)
Definition resolved_by (d : CpDb) (hash : string) (id : string) (r : sub_row) : bool :=
  (bool_decide (sr_token_hash r = hash) || match q_delivery d !! id with Some t => bool_decide (dt_Hash t = hash) | None => false end) &&
  match q_users d !! s_UserID (sr_subscription r) with
  | Some u => bool_decide (u_SubscriptionID u = Some id) && bool_decide (u_Status u = UserStatusActive)
  | None => false
  end.
Definition PgResolveTokenHash (hash : string) : PM SubscriptionTokenBinding := on_error absent (pool _ (query_row (λ d,
  (λ kv : string * sub_row, {| tk_UserID := s_UserID (sr_subscription kv.2); tk_SubscriptionID := kv.1 |})
    <$> head (rows (resolved_by d hash) (q_subs d))))).
(** The loop over the rows *)
Fixpoint access_rows (l : list (User * Subscription)) (acc : list AccessUser) (validUntil : Time) : result (list AccessUser * Time) :=
  match l with
  | [] => Ok (acc, validUntil)
  | (u, sub) :: l' =>
      if bool_decide (u_Hysteria2Password u = "") then Err ErrConflict
      else access_rows l' (acc ++ [{| au_UUID := u_UUID u; au_ShortID := u_RealityShortID u; au_Hysteria2Password := u_Hysteria2Password u |}])
             (match AccessUntil sub with Some e => if Before e validUntil then e else validUntil | None => validUntil end)
  end.
(** [clock]: clock_timestamp() *)
Definition queryEligibleAccessUsers (q : querier) (clock : Time) : PM NodeAccessUsers :=
  now ←! q _ (mret clock) ;
  l ←! q _ (gets (λ d, admitted_rows d now)) ;
  match access_rows l [] (Add now (5 * Minute)) with
  | Err e => fail e
  | Ok (users, validUntil) => mret {| nau_Revision := AccessUsersRevision users; nau_ValidUntil := validUntil; nau_Users := users |}
  end.
Definition PgEligibleAccessUsers (clock : Time) : PM NodeAccessUsers := queryEligibleAccessUsers pool clock.
Definition set_canceled (now : Time) (r : sub_row) : sub_row :=
  with_s_row (with_s_period SubscriptionStatusCanceled (s_ExpiresAt (sr_subscription r)) now (sr_subscription r)) r.
Definition PgCancelSubscription (now : Time) (id : string) : PM Subscription := withTx (λ q,
  tag ←! q _ (update_sub id (λ _, true) (set_canceled now)) ;
  affected_one tag ;;!
  sub_get q id).

(** ** transports.go *)
Definition marshalTransportParams (t : Transport) : result params :=
  if bool_decide (t_Type t = TransportVlessReality) then Ok (PVlessReality (t_VlessReality t))
  else if bool_decide (t_Type t = TransportAmneziaWG) then Ok (PAmneziaWG (t_AmneziaWG t))
  else if bool_decide (t_Type t = TransportHysteria2) then Ok (PHysteria2 (t_Hysteria2 t))
  else if bool_decide (t_Type t = TransportShadowsocks2022) then Ok (PShadowsocks2022 (t_Shadowsocks2022 t))
  else Err (Errorf "postgres: unknown transport type").
(** Decoding null leaves the zero value. *)
Definition zero_vless : VlessRealityParams := {|
  vr_ServerNames := []; vr_Dest := ""; vr_PublicKey := ""; vr_ShortIDs := []; vr_Flow := ""; vr_Fingerprint := ""; vr_SpiderX := "" |}.
Definition zero_awg : AmneziaWGParams := {|
  awg_PublicKey := ""; awg_MTU := 0; awg_Jc := 0; awg_Jmin := 0; awg_Jmax := 0; awg_S1 := 0; awg_S2 := 0;
  awg_H1 := 0; awg_H2 := 0; awg_H3 := 0; awg_H4 := 0 |}.
Definition zero_hysteria2 : Hysteria2Params := {|
  hy_Obfs := ""; hy_ObfsPassword := ""; hy_Password := ""; hy_SNI := ""; hy_UpMbps := 0; hy_DownMbps := 0; hy_Insecure := false |}.
Definition zero_ss : Shadowsocks2022Params := {| ss_Method := ""; ss_PSK := "" |}.
Definition unmarshalTransportParams (r : transport_row) : Transport :=
  let t type vless awg hy ss := {|
    t_Tag := tr_tag r; t_Type := type; t_Version := tr_version r; t_Port := tr_port r; t_Enabled := tr_enabled r; t_Priority := tr_priority r;
    t_VlessReality := vless; t_AmneziaWG := awg; t_Hysteria2 := hy; t_Shadowsocks2022 := ss |} in
  match tr_params r with
  | PVlessReality p => t TransportVlessReality (Some (default zero_vless p)) None None None
  | PAmneziaWG p => t TransportAmneziaWG None (Some (default zero_awg p)) None None
  | PHysteria2 p => t TransportHysteria2 None None (Some (default zero_hysteria2 p)) None
  | PShadowsocks2022 p => t TransportShadowsocks2022 None None None (Some (default zero_ss p))
  end.
(** id is the primary key, (node_id, tag) is unique. *)
Definition transport_clash (id : string) (r : transport_row) (kv : string * transport_row) : bool :=
  bool_decide (kv.1 = id) || (bool_decide (tr_node_id kv.2 = tr_node_id r) && bool_decide (tr_tag kv.2 = tr_tag r)).
Definition insert_transport (id nodeID : string) (t : Transport) (p : params) : Stmt unit :=
  id ←! uuid id ; int4 (t_Port t) ;;! int4 (t_Priority t) ;;!
  let r := {| tr_node_id := nodeID; tr_tag := t_Tag t; tr_version := t_Version t; tr_port := t_Port t; tr_enabled := t_Enabled t;
              tr_priority := t_Priority t; tr_params := p |} in
  d ←! gets (λ d, d) ;
  require (negb (existsb (transport_clash id r) (range (q_transports d)))) ErrUnique ;;!
  require (is_set (q_nodes d !! nodeID)) ErrForeignKey ;;!
  modify (on_transports <[id := r]>).
(** [uuids i]: what the [i]-th secret.UUIDv4() gives *)
Fixpoint insertTransports (q : querier) (uuids : nat → result string) (nodeID : string) (transports : list Transport) : PM unit :=
  match transports with
  | [] => mret tt
  | t :: transports' =>
      match marshalTransportParams t, uuids O with
      | Err e, _ | _, Err e => fail e
      | Ok p, Ok id =>
          wrapping "postgres: insert transport" (q _ (insert_transport id nodeID t p)) ;;!
          insertTransports q (λ i, uuids (S i)) nodeID transports'
      end
  end.
(** ORDER BY priority, tag *)
Definition transport_order (a b : transport_row) : bool :=
  if tr_priority a =? tr_priority b then text_lt (tr_tag a) (tr_tag b) else tr_priority a <? tr_priority b.
Definition transport_rows (nodeIDs : list string) (d : CpDb) : list transport_row :=
  sort_slice transport_order (rows (λ _ r, bool_decide (tr_node_id r ∈ nodeIDs)) (q_transports d)).*2.
Definition loadTransports (q : querier) (nodeIDs : list string) : PM (gmap string (list Transport)) :=
  if bool_decide (nodeIDs = []) then mret ∅
  else
    l ←! wrapping "postgres: query transports" (q _ (gets (transport_rows nodeIDs))) ;
    mret (foldl (λ out r, <[tr_node_id r := default [] (out !! tr_node_id r) ++ [unmarshalTransportParams r]]> out) ∅ l).

(** ** nodes.go *)
Definition entry_exists (d : CpDb) (n : Node) : bool :=
  match n_EntryNodeID n with Some id => is_set (q_nodes d !! id) || bool_decide (id = n_ID n) | None => true end.
Definition insert_node (n : Node) : Stmt unit :=
  int4 (n_CapacityUsers n) ;;! d ←! gets (λ d, d) ;
  require (negb (is_set (q_nodes d !! n_ID n))) ErrUnique ;;!
  require (entry_exists d n) ErrForeignKey ;;!
  modify (on_nodes <[n_ID n := node_columns (timestamptz (n_CreatedAt n)) n]>).
Definition PgNodeCreate (uuids : nat → result string) (n : Node) : PM unit := withTx (λ q,
  on_error (taken "postgres: insert node") (q _ (insert_node n)) ;;!
  insertTransports q uuids (n_ID n) (n_Transports n)).
Definition attach (tr : gmap string (list Transport)) (n : Node) : Node := with_n_Transports (default [] (tr !! n_ID n)) n.
Definition node_by_id (id : string) : Stmt Node := query_row (λ d, q_nodes d !! id).
Definition PgNodeGet (id : string) : PM Node :=
  n ←! on_error absent (pool _ (node_by_id id)) ;
  tr ←! loadTransports pool [id] ;
  mret (with_n_Transports (default [] (tr !! id)) n).
Definition attachTransports (nodes : list Node) : PM (list Node) :=
  tr ←! loadTransports pool (n_ID <$> nodes) ; mret (attach tr <$> nodes).
Definition node_order (a b : Node) : bool := text_lt (n_ID a) (n_ID b).
(** WHERE id > $1 AND .. ORDER BY id LIMIT $n *)
Definition listed (f : NodeFilter) (id : string) (n : Node) : bool := text_lt (nf_Cursor f) id && Nodes.matches f n.
Definition list_rows (f : NodeFilter) (limit : Z) : Stmt (list Node) :=
  require (0 <=? limit) (Errorf "LIMIT must not be negative") ;;!
  gets (λ d, take (Z.to_nat limit) (sort_slice node_order (rows (listed f) (q_nodes d)).*2)).
(** A page that is full has an element at [limit-1], unless [limit] is 0: an index out of range panics. *)
Definition PgNodeList (f : NodeFilter) : PM (list Node * string) :=
  let limit := nf_Limit f in
  nodes ←! wrapping "postgres: list nodes" (pool _ (list_rows f (limit + 1))) ;
  page ←! (if limit <? Z.of_nat (length nodes) then
             match nodes !! Z.to_nat (limit - 1) with
             | Some n => if 0 <? limit then mret (take (Z.to_nat limit) nodes, n_ID n) else fail panic_index
             | None => fail panic_index
             end
           else mret (nodes, "")) ;
  out ←! attachTransports page.1 ;
  mret (out, page.2).
Definition update_node (n : Node) : Stmt Z :=
  int4 (n_CapacityUsers n) ;;! d ←! gets (λ d, d) ;
  match q_nodes d !! n_ID n with
  | None => mret 0
  | Some cur => require (entry_exists d n) ErrForeignKey ;;! modify (on_nodes <[n_ID n := node_columns (n_CreatedAt cur) n]>) ;;! mret 1
  end.
Definition clear_transports (nodeID : string) : Stmt unit :=
  modify (on_transports (filter (λ kv, tr_node_id kv.2 ≠ nodeID))).
Definition PgNodeUpdate (uuids : nat → result string) (n : Node) : PM unit := withTx (λ q,
  tag ←! wrapping "postgres: update node" (q _ (update_node n)) ;
  affected_one tag ;;!
  wrapping "postgres: clear transports" (q _ (clear_transports (n_ID n))) ;;!
  insertTransports q uuids (n_ID n) (n_Transports n)).
Definition set_node (id : string) (set : Node → Node) : Stmt Z := update_key on_nodes q_nodes id (λ _, true) set.
Definition status_of (id : string) : Stmt NodeStatus := query_row (λ d, n_Status <$> q_nodes d !! id).
Definition PgSetStatus (id : string) (status : NodeStatus) : PM NodeStatus := withTx (λ q,
  cur ←! on_error absent (q _ (status_of id)) ;
  q _ (set_node id (with_n_Status status)) ;;!
  mret cur).
Definition conflict (what : string) : error := wrap_err what ErrConflict.
Definition exit_status (id : string) : Stmt NodeStatus := query_row (λ d,
  n_Status <$> head (rows (λ _ n, bool_decide (n_EntryNodeID n = Some id) && bool_decide (n_Role n = NodeRoleExit)) (q_nodes d)).*2).
(** The guards of an entry, with its transports *)
Definition entry_guards (q : querier) (now : Time) (id expectedRevision accessRevision : string) (n : Node) : PM Node :=
  tr ←! loadTransports q [id] ;
  let n := with_n_Transports (default [] (tr !! id)) n in
  if DistinctEnabledTransportTypes (n_Transports n) <? 2 then fail (conflict "fewer than 2 distinct enabled client transports")
  else
    exitStatus ←! on_error (λ e, if no_rows e then conflict "no paired exit" else e) (q _ (exit_status id)) ;
    if negb (bool_decide (exitStatus = NodeStatusActive)) then fail (conflict "paired exit is not active")
    else if NodeActivator.needs_access n accessRevision then
      snapshot ←! queryEligibleAccessUsers q now ;
      if bool_decide (accessRevision = "") || negb (bool_decide (nau_Revision snapshot = accessRevision)) then fail ErrConflict else mret n
    else
      users ←! queryEligibleRealityUsers q now ;
      if negb (bool_decide (RealityUsersRevision users = expectedRevision)) then fail ErrConflict else mret n.
Definition activation (q : querier) (now : Time) (id expectedRevision accessRevision evidence : string) : PM (Node * NodeStatus) :=
  n ←! q _ (node_by_id id) ;
  if negb (bool_decide (n_Status n = NodeStatusProvisioning)) then fail (conflict "not provisioning")
  else
    m ←! (if bool_decide (n_Role n = NodeRoleExit) then
            if negb (ptr_set (n_EntryNodeID n)) then fail (conflict "exit has no paired entry")
            else if negb (bool_decide (evidence = ExitDataPlaneVerified)) then fail (conflict "exit activation requires valid data-plane evidence")
            else mret n
          else entry_guards q now id expectedRevision accessRevision n) ;
    q _ (set_node id (with_n_Status NodeStatusActive)) ;;!
    mret (with_n_Status NodeStatusActive m, n_Status n).
Definition PgActivate (now : Time) (id expectedRevision accessRevision evidence : string) : PM (Node * NodeStatus) :=
  on_error (λ e, if isSerializationFailure e then conflict "activation lost a serialization race" else e)
    (withSerializableTx (λ q, activation q now id expectedRevision accessRevision evidence)).
Definition PgDemote (id : string) : PM NodeStatus := withTx (λ q,
  prev ←! on_error absent (q _ (status_of id)) ;
  if one_of prev [NodeStatusDraining; NodeStatusRetired] then fail (conflict "refusing to demote a terminal state")
  else q _ (set_node id (with_n_Status NodeStatusProvisioning)) ;;! mret prev).
Definition PgSetEntryIP (id entryIP : string) : PM unit :=
  tag ←! wrapping "postgres: set entry ip" (pool _ (set_node id (with_n_EntryIP entryIP))) ; affected_one tag.
Definition active_rows (d : CpDb) : list Node :=
  sort_slice node_order (rows (λ _ n, bool_decide (n_Status n = NodeStatusActive)) (q_nodes d)).*2.
Definition PgListActive : PM (list Node) :=
  nodes ←! wrapping "postgres: list active" (pool _ (gets active_rows)) ; attachTransports nodes.

(** ** sets.go *)
Definition set_by_user (userID : string) : Stmt SubscriptionSet := u ←! uuid userID ; query_row (λ d, q_sets d !! u).
Definition PgSetGet (userID : string) : PM SubscriptionSet := on_error (scanned "postgres: get set") (pool _ (set_by_user userID)).
Definition set_columns (user : string) (x : SubscriptionSet) : SubscriptionSet := {|
  set_UserID := user; set_Revision := set_Revision x; set_NodeIDs := set_NodeIDs x; set_Bundle := set_Bundle x;
  set_Dirty := set_Dirty x; set_GeneratedAt := timestamptz (set_GeneratedAt x) |}.
Definition upsert_set (x : SubscriptionSet) : Stmt unit :=
  user ←! uuid (set_UserID x) ; d ←! gets (λ d, d) ;
  require (is_set (q_users d !! user)) ErrForeignKey ;;!
  modify (on_sets <[user := set_columns user x]>).
Definition PgSetUpsert (x : SubscriptionSet) : PM unit := wrapping "postgres: upsert set" (pool _ (upsert_set x)).
Definition PgUserIDsByNode (nodeID : string) : PM (list string) := wrapping "postgres: users by node"
  (pool _ (gets (λ d, (rows (λ _ x, Sets.has_node nodeID x) (q_sets d)).*1))).
Definition PgMarkDirtyByNode (nodeID : string) : PM unit := wrapping "postgres: mark dirty"
  (pool _ (modify (on_sets (fmap (λ x, if Sets.has_node nodeID x then with_Dirty true x else x))))).

(** ** rotations.go *)
(** An empty address is stored as NULL and read back as empty. *)
Definition insert_node_rotation (rec : RotationRecord) : Stmt unit :=
  id ←! uuid (rot_ID rec) ; d ←! gets (λ d, d) ;
  require (negb (is_set (q_node_history d !! id))) ErrUnique ;;!
  modify (on_node_history <[id := {| rot_ID := id; rot_NodeID := rot_NodeID rec; rot_FromStatus := rot_FromStatus rec;
    rot_ToStatus := rot_ToStatus rec; rot_Reason := rot_Reason rec; rot_EntryIP := rot_EntryIP rec; rot_Actor := rot_Actor rec;
    rot_CreatedAt := timestamptz (rot_CreatedAt rec) |}]>).
Definition PgAddNodeRotation (rec : RotationRecord) : PM unit := wrapping "postgres: insert node rotation" (pool _ (insert_node_rotation rec)).
(** ORDER BY created_at DESC *)
Definition rotation_order (a b : RotationRecord) : bool := rot_CreatedAt b <? rot_CreatedAt a.
Definition rotation_rows (nodeID : string) (limit : Z) : Stmt (list RotationRecord) :=
  require (0 <=? limit) (Errorf "LIMIT must not be negative") ;;!
  gets (λ d, take (Z.to_nat limit) (sort_slice rotation_order (rows (λ _ r, bool_decide (rot_NodeID r = nodeID)) (q_node_history d)).*2)).
Definition PgListNodeRotations (nodeID : string) (limit : Z) : PM (list RotationRecord) :=
  wrapping "postgres: list node rotations" (pool _ (rotation_rows nodeID limit)).
Definition insert_user_rotation (rec : UserSecretRotation) : Stmt unit :=
  id ←! uuid (usr_ID rec) ; user ←! uuid (usr_UserID rec) ; d ←! gets (λ d, d) ;
  require (negb (is_set (q_user_history d !! id))) ErrUnique ;;!
  require (is_set (q_users d !! user)) ErrForeignKey ;;!
  modify (on_user_history <[id := {| usr_ID := id; usr_UserID := user; usr_OldRealityShortID := usr_OldRealityShortID rec;
    usr_OldVlessUUID := usr_OldVlessUUID rec; usr_Reason := usr_Reason rec; usr_CreatedAt := timestamptz (usr_CreatedAt rec) |}]>).
Definition PgAddUserSecretRotation (rec : UserSecretRotation) : PM unit :=
  wrapping "postgres: insert user secret rotation" (pool _ (insert_user_rotation rec)).

(** ** signals.go *)
Definition insert_aggregate (id : string) (r : aggregate_row) : Stmt unit :=
  id ←! uuid id ; int4 (ar_total r) ;;! int4 (ar_failures r) ;;! int4 (ar_block_signals r) ;;! d ←! gets (λ d, d) ;
  require (negb (is_set (q_aggregates d !! id))) ErrUnique ;;!
  require (is_set (q_nodes d !! ar_node_id r)) ErrForeignKey ;;!
  modify (on_aggregates <[id := r]>).
Definition PgAddAggregate (newID : result string) (a : SignalAggregate) (blockSignals : Z) (verdict : Verdict) : PM unit :=
  match newID with
  | Err e => fail e
  | Ok id =>
      wrapping "postgres: insert signal aggregate" (pool _ (insert_aggregate id {|
        ar_node_id := ag_NodeID a; ar_region := ag_Region a; ar_window_start := timestamptz (ag_WindowStart a);
        ar_window_end := timestamptz (ag_WindowEnd a); ar_total := ag_Total a;
        ar_failures := Z.max 0 (wrap64 (ag_Total a - default 0 (ag_BySignal a !! SignalService.SignalOK)));
        ar_block_signals := blockSignals; ar_verdict := verdict |}))
  end.

(** ** operator.go *)
(** SELECT status, count( * ) .. GROUP BY status, and the loop that stores the counts *)
Definition count_by {V} (status : V → string) (t : gmap string V) : gmap string Z :=
  foldl (λ m kv, count_up (status kv.2) m) ∅ (range t).
Definition counted (zeros : list string) (counts : gmap string Z) : gmap string Z :=
  map_fold (λ k n m, <[k := n]> m) (list_to_map ((λ st, (st, 0)) <$> zeros)) counts.
(** ORDER BY u.updated_at DESC, u.id DESC *)
Definition recent_order (a b : User) : bool :=
  if TEqual (u_UpdatedAt a) (u_UpdatedAt b) then text_lt (u_ID b) (u_ID a) else After (u_UpdatedAt a) (u_UpdatedAt b).
(** A row of the LEFT JOIN *)
Definition account_row (d : CpDb) (u : User) : OperatorAccount :=
  let sub := id ← u_SubscriptionID u; r ← q_subs d !! id;
             if bool_decide (s_UserID (sr_subscription r) = u_ID u) then Some (sr_subscription r) else None in
  {| oa_ID := u_ID u; oa_Status := u_Status u; oa_SubscriptionID := u_SubscriptionID u;
     oa_Plan := default "" (s_Plan <$> sub); oa_SubscriptionStatus := default "" (s_Status <$> sub);
     oa_ExpiresAt := sub ≫= s_ExpiresAt; oa_GraceUntil := sub ≫= s_GraceUntil; oa_UpdatedAt := u_UpdatedAt u |}.
Definition PgOperatorRead : PM ControlPlaneOperatorSummary := transaction (
  users ←! in_tx (gets (λ d, count_by u_Status (q_users d))) ;
  subs ←! in_tx (gets (λ d, count_by (λ r, s_Status (sr_subscription r)) (q_subs d))) ;
  recent ←! in_tx (gets (λ d, account_row d <$> take 50 (sort_slice recent_order (range (q_users d)).*2))) ;
  mret {| os_Users := counted [UserStatusActive; UserStatusSuspended; UserStatusExpired; UserStatusBanned] users;
          os_Subscriptions := counted [SubscriptionStatusTrialing; SubscriptionStatusActive; SubscriptionStatusPastDue;
                                       SubscriptionStatusCanceled; SubscriptionStatusExpired] subs;
          os_Recent := recent |}).

(** ** rebuildjobs.go *)
Section jobs.
Context (now : Time).
Definition insert_job (kind targetID : string) : Stmt unit :=
  require (one_of kind [Durable.JobKindNode; Durable.JobKindUser]) ErrCheck ;;! λ d,
  let id := q_job_seq d + 1 in
  (Ok tt, on_job_seq (λ _, id) (on_jobs <[id := {| jr_kind := kind; jr_target_id := targetID; jr_attempts := 0;
                                                   jr_available_at := now; jr_claimed_at := None |}]> d)).
Definition PgEnqueue (kind : Durable.JobKind) (targetID : string) : PM unit :=
  wrapping "postgres: enqueue rebuild job" (pool _ (insert_job kind targetID)).
(** The WHERE of the inner SELECT: due, and not claimed within the lease *)
Definition claimable (lease : Duration) (r : job_row) : bool :=
  (jr_available_at r <=? now) && match jr_claimed_at r with None => true | Some t => t <? now - lease end.
Definition claim_row (r : job_row) : job_row := {|
  jr_kind := jr_kind r; jr_target_id := jr_target_id r; jr_attempts := jr_attempts r + 1; jr_available_at := jr_available_at r;
  jr_claimed_at := Some now |}.
Definition job_of (kv : Z * job_row) : Durable.Job := {|
  Durable.j_ID := kv.1; Durable.j_Kind := jr_kind kv.2; Durable.j_TargetID := jr_target_id kv.2; Durable.j_Attempts := jr_attempts kv.2 |}.
Definition id_order (a b : Z * job_row) : bool := a.1 <? b.1.
(** [locked]: the rows another session holds locked, which SKIP LOCKED passes over *)
Definition selected (locked : Z → bool) (max : Z) (lease : Duration) (d : CpDb) : list (Z * job_row) :=
  take (Z.to_nat max) (filter (λ kv, negb (locked kv.1) = true)
    (sort_slice id_order (filter (λ kv, claimable lease kv.2 = true) (map_to_list (q_jobs d))))).
Definition claim_jobs (locked : Z → bool) (max : Z) (leaseFor : Duration) : Stmt (list Durable.Job) :=
  require (0 <=? max) (Errorf "LIMIT must not be negative") ;;! λ d,
  let chosen := prod_map id claim_row <$> selected locked max (make_interval (Seconds leaseFor)) d in
  (Ok (job_of <$> returning chosen), on_jobs (λ t, foldl (λ t kv, <[kv.1 := kv.2]> t) t chosen) d).
Definition PgClaim (locked : Z → bool) (max : Z) (leaseFor : Duration) : PM (list Durable.Job) :=
  wrapping "postgres: claim rebuild jobs" (pool _ (claim_jobs locked max leaseFor)).
Definition PgComplete (jobID : Z) : PM unit :=
  wrapping "postgres: complete rebuild job" (pool _ (modify (on_jobs (delete jobID)))).
Definition release_row (retryAfter : Duration) (r : job_row) : job_row := {|
  jr_kind := jr_kind r; jr_target_id := jr_target_id r; jr_attempts := jr_attempts r;
  jr_available_at := now + make_interval (Seconds retryAfter); jr_claimed_at := None |}.
Definition PgRetry (jobID : Z) (retryAfter : Duration) : PM unit :=
  wrapping "postgres: retry rebuild job" (pool _ (modify (on_jobs (alter (release_row retryAfter) jobID)))).
End jobs.
End postgres.
