(* ===== verification/ControlQueue.v ===== *)
(** * The durable rebuild queue over Postgres

    The rebuild jobs of ControlPostgres as the job store of ControlDurable. Whatever the link loses and however many
    instances share the table, a job is claimed by one worker per lease and leaves the table only when it is
    completed; over a reliable link one tick works off every job that is due. *)
From S2P Require Import Prelude GoTrace GoFloat Sql Contracts ControlStore ControlDurable ControlPostgres.

(** ** One call on the table *)
Inductive job_op :=
| JEnqueue (kind : Durable.JobKind) (targetID : string)
| JClaim (locked : Z → bool) (max : Z) (leaseFor : Duration)
| JComplete (jobID : Z)
| JRetry (jobID : Z) (retryAfter : Duration).
(** A call with its time and what it answered *)
Abbreviation entry := (Time * job_op * result (list Durable.Job))%type.
Section table.
Context `{pg : !Postgres}.
Definition no_jobs {S} (m : M S unit) : M S (list Durable.Job) := m ;;! mret [].
Definition exec_job (now : Time) (op : job_op) : M (Session CpDb) (list Durable.Job) :=
  match op with
  | JEnqueue kind targetID => no_jobs (PgEnqueue now kind targetID)
  | JClaim locked max leaseFor => PgClaim now locked max leaseFor
  | JComplete jobID => no_jobs (PgComplete jobID)
  | JRetry jobID retryAfter => no_jobs (PgRetry now jobID retryAfter)
  end.
(** The statement behind the call, on the tables *)
Definition stmt_job (now : Time) (op : job_op) : M CpDb (list Durable.Job) :=
  match op with
  | JEnqueue kind targetID => no_jobs (insert_job now kind targetID)
  | JClaim locked max leaseFor => claim_jobs now locked max leaseFor
  | JComplete jobID => no_jobs (modify (on_jobs (delete jobID)))
  | JRetry jobID retryAfter => no_jobs (modify (on_jobs (alter (release_row now retryAfter) jobID)))
  end.
Lemma no_jobs_modify {S} (f : S → S) s : no_jobs (modify f) s = (Ok [], f s).
Proof. done. Qed.
(** What a call over a lossy link does to the table *)
Lemma exec_job_effect now op s :
  (ss_db (exec_job now op s).2 = ss_db s ∨ ss_db (exec_job now op s).2 = (stmt_job now op (ss_db s)).2) ∧
  (∀ js, (exec_job now op s).1 = Ok js → stmt_job now op (ss_db s) = (Ok js, ss_db (exec_job now op s).2)).
Proof.
  destruct op; cbn [exec_job stmt_job]; unfold no_jobs, PgEnqueue, PgClaim, PgComplete, PgRetry, wrapping, pool, autocommit, mbind, M_bind;
    destruct (fate s); try (destruct (insert_job _ _ _ _) as [[[]|]]); try (destruct (claim_jobs _ _ _ _ _) as [[]]); cbn; (split; [by auto|naive_solver]).
Qed.
(** The rows a claim takes, and what it makes of them *)
Lemma elem_of_selected now locked max lease d id r : (id, r) ∈ selected now locked max lease d →
  q_jobs d !! id = Some r ∧ claimable now lease r = true ∧ locked id = false.
Proof.
  unfold selected. intros (i & Hin & _)%elem_of_take. apply list_elem_of_lookup_2, list_elem_of_filter in Hin as [Hl Hin].
  rewrite elem_of_sort_slice in Hin. apply list_elem_of_filter in Hin as [Hc Hin]. apply elem_of_map_to_list in Hin.
  apply negb_true_iff in Hl. done.
Qed.
Definition taken_ids (now : Time) (locked : Z → bool) (max : Z) (leaseFor : Duration) (d : CpDb) : list Z :=
  (selected now locked max (make_interval (Seconds leaseFor)) d).*1.
Lemma elem_of_taken now locked max leaseFor d id : id ∈ taken_ids now locked max leaseFor d →
  ∃ r, (id, r) ∈ selected now locked max (make_interval (Seconds leaseFor)) d ∧ q_jobs d !! id = Some r ∧
       claimable now (make_interval (Seconds leaseFor)) r = true.
Proof. intros ([id' r] & -> & Hin)%list_elem_of_fmap. exists r. by destruct (elem_of_selected _ _ _ _ _ _ _ Hin) as (? & ? & _). Qed.
Lemma claim_effect now locked max leaseFor d js d' : claim_jobs now locked max leaseFor d = (Ok js, d') →
  js ≡ₚ (λ kv, job_of (prod_map id (claim_row now) kv)) <$> selected now locked max (make_interval (Seconds leaseFor)) d ∧
  (∀ id, q_jobs d' !! id = if bool_decide (id ∈ taken_ids now locked max leaseFor d) then claim_row now <$> q_jobs d !! id else q_jobs d !! id) ∧
  q_job_seq d' = q_job_seq d.
Proof.
  unfold claim_jobs, require, mbind, M_bind. destruct (0 <=? max); cbn; [|done]. intros [= <- <-]. split_and!; [|intros id|done].
  - by rewrite returning_perm, <-list_fmap_compose.
  - cbn. case_bool_decide as Hid.
    + destruct (elem_of_taken _ _ _ _ _ _ Hid) as (r & Hin & Hr & _). rewrite Hr. cbn.
      apply (foldl_insert_in fst snd _ _ (id, claim_row now r)).
      * intros [id' r'] ([i2 r2] & [= -> ->] & Hin2)%list_elem_of_fmap Hfst. cbn in *. subst i2.
        apply elem_of_selected in Hin2 as [Hr2 _]. by simplify_eq.
      * apply (list_elem_of_fmap_2' _ _ (id, r)); [done|done].
    + apply foldl_insert_notin. by rewrite <-list_fmap_compose.
Qed.
Lemma claim_refused now locked max leaseFor d e d' : claim_jobs now locked max leaseFor d = (Err e, d') → d' = d.
Proof. unfold claim_jobs, require, mbind, M_bind. destruct (0 <=? max); cbn; by intros [= _ <-]. Qed.

(** ** Runs of calls, by any number of instances *)
Inductive history : Session CpDb → list entry → Session CpDb → Prop :=
| history_nil s : history s [] s
| history_cons now op r h s s1 s2 : exec_job now op s = (r, s1) → history s1 h s2 → history s ((now, op, r) :: h) s2.
(** Ids come from the sequence. *)
Definition numbered (d : CpDb) : Prop := ∀ id r, q_jobs d !! id = Some r → id <= q_job_seq d.
Lemma stmt_job_numbered now op d : numbered d → numbered (stmt_job now op d).2.
Proof.
  intros Hd. destruct op as [kind target|locked max lease|jid|jid after]; cbn [stmt_job].
  - unfold no_jobs, insert_job, require, mbind, M_bind. destruct (one_of _ _); cbn; [|done]. intros id r. cbn.
    intros [[<- _]|[_ Hr]]%lookup_insert_Some; [lia|]. specialize (Hd _ _ Hr). lia.
  - destruct (claim_jobs now locked max lease d) as [[js|e] d'] eqn:Hc; cbn.
    + destruct (claim_effect _ _ _ _ _ _ _ Hc) as (_ & Hq & Hs). intros id r. rewrite Hq, Hs.
      case_bool_decide; [|by apply Hd]. intros (r0 & Hr0 & _)%fmap_Some. by apply (Hd id r0).
    + by rewrite (claim_refused _ _ _ _ _ _ _ Hc).
  - rewrite no_jobs_modify. intros id r. cbn. intros [_ Hr]%lookup_delete_Some. by apply (Hd id r).
  - rewrite no_jobs_modify. intros id r. cbn. intros Hr. destruct (decide (jid = id)) as [->|Hne].
    + rewrite lookup_alter_eq in Hr. apply fmap_Some in Hr as (r0 & Hr0 & _). by apply (Hd id r0).
    + rewrite lookup_alter_ne in Hr by done. by apply (Hd id r).
Qed.
(** A property of the table that every statement satisfying [ok] keeps holds throughout a run of such calls. *)
Lemma history_invariant (P : CpDb → Prop) (ok : Time → job_op → Prop) s h s2 :
  (∀ now op d, ok now op → P d → P (stmt_job now op d).2) → history s h s2 → Forall (λ e, ok e.1.1 e.1.2) h → P (ss_db s) → P (ss_db s2).
Proof.
  intros Hstep. induction 1 as [|now op r h s s1 s2 Hex _ IH]; [done|]. intros [Hok Hall]%Forall_cons HP. apply IH; [done|].
  destruct (exec_job_effect now op s) as [[Heq|Heq] _]; rewrite Hex in Heq; cbn in Heq; rewrite Heq; [done|]. by apply Hstep.
Qed.
Lemma history_app s h1 h2 s2 : history s (h1 ++ h2) s2 → ∃ s1, history s h1 s1 ∧ history s1 h2 s2.
Proof.
  revert s. induction h1 as [|[[now op] r] h1 IH]; intros s; cbn; [intros; by exists s; split; [constructor|]|].
  inversion 1; subst. edestruct IH as (s3 & ? & ?); [done|]. exists s3. split; [by econstructor|done].
Qed.

(** The lease of [id] taken at [t]: until the row is released or gone it is claimed no earlier. *)
Definition held (id : Z) (t : Time) (d : CpDb) : Prop :=
  numbered d ∧ id <= q_job_seq d ∧ ∀ r, q_jobs d !! id = Some r → ∃ t', jr_claimed_at r = Some t' ∧ t <= t'.
Definition keeps_lease (id : Z) (op : job_op) : Prop :=
  match op with
  | JRetry jobID _ => jobID ≠ id
  | JClaim _ _ leaseFor => 0 <= make_interval (Seconds leaseFor)
  | _ => True
  end.
Lemma claimable_after now lease t r : claimable now lease r = true → jr_claimed_at r = Some t → t < now - lease.
Proof. unfold claimable. intros [_ H]%andb_true_iff Hr. rewrite Hr in H. lia. Qed.
Lemma stmt_job_held id t now op d : keeps_lease id op → held id t d → held id t (stmt_job now op d).2.
Proof.
  intros Hop (Hn & Hs & Hr). split; [by apply stmt_job_numbered|]. destruct op as [kind target|locked max lease|jid|jid after]; cbn [stmt_job].
  - unfold no_jobs, insert_job, require, mbind, M_bind. destruct (one_of _ _); cbn; [|done]. split; [lia|]. intros r.
    rewrite lookup_insert_ne by lia. apply Hr.
  - destruct (claim_jobs now locked max lease d) as [[js|e] d'] eqn:Hc; cbn.
    + destruct (claim_effect _ _ _ _ _ _ _ Hc) as (_ & Hq & ->). split; [done|]. intros r. rewrite Hq. case_bool_decide as Hid; [|apply Hr].
      destruct (elem_of_taken _ _ _ _ _ _ Hid) as (r0 & _ & Hr0 & Hc0). rewrite Hr0. intros [= <-]. exists now. split; [done|].
      destruct (Hr r0 Hr0) as (t' & Ht' & Hle). pose proof (claimable_after _ _ _ _ Hc0 Ht'). cbn in Hop. lia.
    + by rewrite (claim_refused _ _ _ _ _ _ _ Hc).
  - rewrite no_jobs_modify. cbn. split; [done|]. intros r [_ ?]%lookup_delete_Some. by apply Hr.
  - rewrite no_jobs_modify. cbn. split; [done|]. intros r. rewrite lookup_alter_ne by done. apply Hr.
Qed.
Lemma claimed_row now locked max lease d js d' j : claim_jobs now locked max lease d = (Ok js, d') → j ∈ js →
  ∃ r, q_jobs d !! Durable.j_ID j = Some r ∧ claimable now (make_interval (Seconds lease)) r = true ∧
       q_jobs d' !! Durable.j_ID j = Some (claim_row now r) ∧ j = job_of (Durable.j_ID j, claim_row now r).
Proof.
  intros Hc Hj. destruct (claim_effect _ _ _ _ _ _ _ Hc) as (Hjs & Hq & _). rewrite Hjs in Hj.
  apply list_elem_of_fmap in Hj as ([id r] & -> & Hin). cbn. destruct (elem_of_selected _ _ _ _ _ _ _ Hin) as (Hr & Hcl & _).
  exists r. split_and!; [done..| |done]. rewrite Hq, bool_decide_eq_true_2, Hr; [done|]. apply list_elem_of_fmap. by exists (id, r).
Qed.
(** What a row keeps while it is in the table *)
Definition same_job (r r' : job_row) : Prop := jr_kind r' = jr_kind r ∧ jr_target_id r' = jr_target_id r ∧ jr_attempts r <= jr_attempts r'.
Lemma stmt_job_keeps id r now op d : op ≠ JComplete id → numbered d ∧ (∃ r', q_jobs d !! id = Some r' ∧ same_job r r') →
  numbered (stmt_job now op d).2 ∧ ∃ r', q_jobs (stmt_job now op d).2 !! id = Some r' ∧ same_job r r'.
Proof.
  intros Hop [Hn (r' & Hr & Hs)]. split; [by apply stmt_job_numbered|]. pose proof (Hn id r' Hr) as Hle. destruct op as [kind target|locked max lease|jid|jid after]; cbn [stmt_job].
  - unfold no_jobs, insert_job, require, mbind, M_bind. destruct (one_of _ _); cbn; [|by eauto].
    rewrite lookup_insert_ne by lia. eauto.
  - destruct (claim_jobs now locked max lease d) as [[js|e] d'] eqn:Hc; cbn.
    + destruct (claim_effect _ _ _ _ _ _ _ Hc) as (_ & Hq & _). rewrite Hq, Hr. case_bool_decide; [|by eauto]. cbn. eexists. split; [done|].
      destruct Hs as (? & ? & ?). split_and!; cbn; [done..|lia].
    + rewrite (claim_refused _ _ _ _ _ _ _ Hc). eauto.
  - rewrite no_jobs_modify. cbn. rewrite lookup_delete_ne by congruence. eauto.
  - rewrite no_jobs_modify. cbn. destruct (decide (jid = id)) as [->|Hne]; [|rewrite lookup_alter_ne by done; eauto]. rewrite lookup_alter_eq, Hr. cbn. eexists. by split; [done|].
Qed.
End table.

(** C8: rebuild jobs are leased to one worker at a time and are never lost, whatever calls any number of instances
    make and whichever of them the link loses. A job that is claimed again, without having been released by a retry
    in between, was claimed more than a lease earlier; and a job in the table is still there afterwards, with its
    target and no fewer attempts, unless it was completed. *)
Theorem rebuild_jobs_leased `{pg : !Postgres} s h s2 : history s h s2 → numbered (ss_db s) →
  (∀ pre t1 lk1 max1 lease1 js1 mid t2 lk2 max2 lease2 js2 post j1 j2,
     h = pre ++ (t1, JClaim lk1 max1 lease1, Ok js1) :: mid ++ (t2, JClaim lk2 max2 lease2, Ok js2) :: post →
     j1 ∈ js1 → j2 ∈ js2 → Durable.j_ID j1 = Durable.j_ID j2 → Forall (λ e, keeps_lease (Durable.j_ID j1) e.1.2) mid →
     t1 + make_interval (Seconds lease2) < t2) ∧
  (∀ id r, q_jobs (ss_db s) !! id = Some r → Forall (λ e, e.1.2 ≠ JComplete id) h →
     ∃ r', q_jobs (ss_db s2) !! id = Some r' ∧ same_job r r').
Proof.
  intros Hh Hn. split.
  - intros * -> Hj1 Hj2 Hid Hmid. apply history_app in Hh as (sa & Hpre & Hh). inversion Hh as [|? ? ? ? ? sb ? Hc1 Hh']; subst.
    apply history_app in Hh' as (sc & Hh' & Hpost). inversion Hpost as [|? ? ? ? ? sd ? Hc2 _]; subst.
    assert (Hna : numbered (ss_db sa)).
    { eapply (history_invariant numbered (λ _ _, True)); [intros; by apply stmt_job_numbered|done| |done]. by apply Forall_true. }
    destruct (exec_job_effect t1 (JClaim lk1 max1 lease1) sa) as [_ He1]. rewrite Hc1 in He1. specialize (He1 _ eq_refl). cbn in He1.
    destruct (exec_job_effect t2 (JClaim lk2 max2 lease2) sc) as [_ He2]. rewrite Hc2 in He2. specialize (He2 _ eq_refl). cbn in He2.
    destruct (claimed_row _ _ _ _ _ _ _ _ He1 Hj1) as (r1 & Hr1 & _ & Hr1' & _).
    destruct (claimed_row _ _ _ _ _ _ _ _ He2 Hj2) as (r2 & Hr2 & Hcl & _ & _). rewrite <-Hid in Hr2.
    assert (held (Durable.j_ID j1) t1 (ss_db sc)) as (_ & _ & Hheld).
    { eapply (history_invariant (held (Durable.j_ID j1) t1) (λ _ op, keeps_lease (Durable.j_ID j1) op)); [|done..|].
      { intros now op d. apply stmt_job_held. }
      destruct (claim_effect _ _ _ _ _ _ _ He1) as (_ & _ & Hs). split_and!.
      - pose proof (stmt_job_numbered t1 (JClaim lk1 max1 lease1) (ss_db sa) Hna) as H1. cbn [stmt_job] in H1. by rewrite He1 in H1.
      - rewrite Hs. by apply (Hna _ r1).
      - intros r Hr. rewrite Hr1' in Hr. injection Hr as <-. exists t1. split; [done|lia]. }
    destruct (Hheld r2 Hr2) as (t' & Ht' & Hle). pose proof (claimable_after _ _ _ _ Hcl Ht'). lia.
  - intros id r Hr Hall.
    eapply (history_invariant (λ d, numbered d ∧ ∃ r', q_jobs d !! id = Some r' ∧ same_job r r') (λ _ op, op ≠ JComplete id)); [|done..|].
    + intros now op d. apply stmt_job_keeps.
    + split; [done|]. exists r. split; [done|]. by split_and!.
Qed.

(** ** A worker of the queue on the table *)
(** What a worker runs in: the connection, the number of statements so far (which the readings of the server's clock
    and the rows other sessions hold locked go by), and what the rebuilder works on *)
Record QueueEnv (X : Type) := mkEnv { qe_db : Session CpDb; qe_calls : nat; qe_rest : X }.
Arguments mkEnv {X}. Arguments qe_db {X}. Arguments qe_calls {X}. Arguments qe_rest {X}.
Definition env_jobs {X} (e : QueueEnv X) : gmap Z job_row := q_jobs (ss_db (qe_db e)).
Section worker.
Context `{ord : !MapOrder, pg : !Postgres} {X : Type} (clock : nat → Time) (locked : nat → Z → bool).
Definition on_db {A} (f : Time → (Z → bool) → M (Session CpDb) A) : M (QueueEnv X) A := λ e,
  let '(r, s) := f (clock (qe_calls e)) (locked (qe_calls e)) (qe_db e) in (r, mkEnv s (S (qe_calls e)) (qe_rest e)).
Definition pg_jobs : Durable.JobStore (QueueEnv X) := {|
  Durable.js_Enqueue := λ kind id, on_db (λ now _, PgEnqueue now kind id);
  Durable.js_Claim := λ max lease, on_db (λ now locked, PgClaim now locked max lease);
  Durable.js_Complete := λ id, on_db (λ _ _, PgComplete id);
  Durable.js_Retry := λ id after, on_db (λ now _, PgRetry now id after) |}.
Definition pg_sets : Durable.SetRepo (QueueEnv X) := {|
  Durable.sr_UserIDsByNode := λ id, on_db (λ _ _, PgUserIDsByNode id);
  Durable.sr_MarkDirtyByNode := λ id, on_db (λ _ _, PgMarkDirtyByNode id) |}.
(** A reliable link stays reliable and the table of jobs as it is. *)
Definition leaves_queue {A} (m : M (QueueEnv X) A) : Prop := ∀ e, ss_link (qe_db e) = [] →
  ss_link (qe_db (m e).2) = [] ∧ env_jobs (m e).2 = env_jobs e.
Lemma pg_sets_leave : (∀ id, leaves_queue (Durable.sr_UserIDsByNode pg_sets id)) ∧ (∀ id, leaves_queue (Durable.sr_MarkDirtyByNode pg_sets id)).
Proof.
  split; intros id [[d link] n x] Hl; cbn in Hl; subst link; unfold env_jobs; cbn; done.
Qed.

Section tick.
Context (q : Durable.DurableConfig) (sets : Durable.SetRepo (QueueEnv X)) (build : string → M (QueueEnv X) unit) (start : Time).
Abbreviation backoff := (make_interval (Seconds (Durable.dc_RetryBackoff q))).
Abbreviation lease := (make_interval (Seconds (Durable.dc_Lease q))).
Abbreviation World := (Traced (QueueEnv X) Durable.event).
(** The tick is over before a backoff has passed, no other session holds rows, and the rebuilds leave the queue alone. *)
Hypothesis Hclock : ∀ n, start <= clock n < start + backoff.
Hypothesis Hlocked : ∀ n id, locked n id = false.
Hypothesis Hbatch : 0 < Durable.dc_BatchSize q.
Hypothesis Husers : ∀ id, leaves_queue (Durable.sr_UserIDsByNode sets id).
Hypothesis Hdirty : ∀ id, leaves_queue (Durable.sr_MarkDirtyByNode sets id).
Hypothesis Hbuild : ∀ id, leaves_queue (build id).
Abbreviation jobs_of := (λ w : World, env_jobs (tw_env w)).
Abbreviation reliable := (λ w : World, ss_link (qe_db (tw_env w)) = []).

Definition leaves {A} (m : M World A) : Prop := ∀ w, reliable w → reliable (m w).2 ∧ jobs_of (m w).2 = jobs_of w.
Lemma leaves_call {A} f (m : M (QueueEnv X) A) : leaves_queue m → leaves (call f m).
Proof. intros Hm w Hw. unfold call. specialize (Hm (tw_env w) Hw). by destruct (m (tw_env w)). Qed.
Lemma leaves_ret {A} (a : A) : leaves (mret a).
Proof. by intros w Hw. Qed.
Lemma leaves_bind {A B} (m : M World A) (f : A → M World B) : leaves m → (∀ a, leaves (f a)) → leaves (m ≫= f).
Proof.
  intros Hm Hf w Hw. destruct (Hm w Hw) as [H1 H2]. unfold mbind, M_bind. destruct (m w) as [[a|e] w1]; cbn in *; [|done].
  destruct (Hf a w1 H1) as [H3 H4]. split; [done|]. by rewrite H4.
Qed.
Lemma leaves_run j : leaves (Durable.run sets build j).
Proof.
  unfold Durable.run. case_bool_decide; [by apply leaves_call|]. case_bool_decide; [|by intros w Hw].
  apply leaves_bind; [by apply leaves_call|intros _]. apply leaves_bind; [by apply leaves_call|intros users].
  induction users as [|uid users IH]; cbn [Durable.rebuild_all]; [apply leaves_ret|]. apply leaves_bind; [by apply leaves_call|done].
Qed.

(** *** One job *)
Definition finished (j : Durable.Job) (r : result unit) : bool := is_ok r || (Durable.dc_MaxAttempts q <=? Durable.j_Attempts j).
(** What becomes of the row of a job that was run *)
Definition settles (j : Durable.Job) (r : result unit) (o o' : option job_row) : Prop :=
  if finished j r then o' = None else ∃ now, start <= now ∧ o' = release_row now (Durable.dc_RetryBackoff q) <$> o.
(** The job is run in the trace, and settled right afterwards. *)
Definition worked_off (j : Durable.Job) (t : list Durable.event) (o o' : option job_row) : Prop :=
  ∃ pre tr r ev post, t = pre ++ tr ++ ev :: post ∧ ran j tr r ∧ settlement q j r ev ∧ settles j r o o'.
Lemma worked_off_app j t1 t2 t3 o o' : worked_off j t2 o o' → worked_off j (t1 ++ t2 ++ t3) o o'.
Proof.
  intros (pre & tr & r & ev & post & -> & ?). exists (t1 ++ pre), tr, r, ev, (post ++ t3). split; [|done].
  by rewrite <-!app_assoc.
Qed.
Lemma handle_effect j w : reliable w → ∃ t w', Durable.handle q pg_jobs sets build j w = (Ok tt, w') ∧
  tw_trace w' = tw_trace w ++ t ∧ reliable w' ∧ (∀ id, id ≠ Durable.j_ID j → jobs_of w' !! id = jobs_of w !! id) ∧
  worked_off j t (jobs_of w !! Durable.j_ID j) (jobs_of w' !! Durable.j_ID j).
Proof.
  intros Hw. unfold Durable.handle. destruct (leaves_run j w Hw) as [Hl Hj]. destruct (emits_run sets build j w) as (t1 & Ht1 & Hran).
  unfold mbind at 1, M_bind at 1, try at 1. destruct (Durable.run sets build j w) as [r w1] eqn:Hrun. cbn [fst snd] in *.
  assert (Hset : ∃ ev w', (match r with
      | Ok _ => Durable.complete pg_jobs (Durable.j_ID j)
      | Err _ => if Durable.dc_MaxAttempts q <=? Durable.j_Attempts j then Durable.complete pg_jobs (Durable.j_ID j) else Durable.retry q pg_jobs (Durable.j_ID j)
      end) w1 = (Ok tt, w') ∧ tw_trace w' = tw_trace w1 ++ [ev] ∧ reliable w' ∧ settlement q j r ev ∧
      (∀ id, id ≠ Durable.j_ID j → jobs_of w' !! id = jobs_of w1 !! id) ∧
      settles j r (jobs_of w1 !! Durable.j_ID j) (jobs_of w' !! Durable.j_ID j)).
  { destruct w1 as [[[d link] n x] tr1]. cbn in Hl. subst link. unfold settles, settlement, finished.
    assert (Hc : ∃ ev w', Durable.complete pg_jobs (Durable.j_ID j) (mkTraced (mkEnv (mkSession d []) n x) tr1) = (Ok tt, w') ∧
        tw_trace w' = tr1 ++ [ev] ∧ reliable w' ∧ (∃ ok, ev = Durable.QComplete (Durable.j_ID j) ok) ∧ jobs_of w' = delete (Durable.j_ID j) (q_jobs d)).
    { do 2 eexists. split; [done|]. cbn. split_and!; [done..|by eexists|done]. }
    destruct Hc as (ev & w' & Hc & Htr & Hrel & Hev & Hdel).
    assert (Hfin : ∃ ev w', Durable.complete pg_jobs (Durable.j_ID j) (mkTraced (mkEnv (mkSession d []) n x) tr1) = (Ok tt, w') ∧
      tw_trace w' = tr1 ++ [ev] ∧ reliable w' ∧ (∃ ok, ev = Durable.QComplete (Durable.j_ID j) ok) ∧
      (∀ id, id ≠ Durable.j_ID j → jobs_of w' !! id = q_jobs d !! id) ∧ jobs_of w' !! Durable.j_ID j = None).
    { exists ev, w'. rewrite Hdel. split_and!; [done..| |by rewrite lookup_delete_eq]. intros id Hne. by rewrite lookup_delete_ne. }
    destruct r as [[]|e]; cbn [is_ok orb]; [exact Hfin|]. destruct (Durable.dc_MaxAttempts q <=? Durable.j_Attempts j); [exact Hfin|].
    do 2 eexists. split; [done|]. cbn. split_and!; [done|done|by eexists|intros id Hne; by rewrite lookup_alter_ne|].
    exists (clock n). split; [apply Hclock|]. by rewrite lookup_alter_eq. }
  destruct Hset as (ev & w' & Hrun' & Htr & Hrel & Hev & Hother & Hsettles). exists (t1 ++ [ev]), w'. rewrite Hj in Hsettles, Hother.
  split_and!; [done|by rewrite Htr, Ht1, app_assoc|done|done|]. exists [], t1, r, ev, []. by split_and!.
Qed.
Lemma handle_all_effect jobs : ∀ w, reliable w → NoDup (Durable.j_ID <$> jobs) →
  ∃ t w', Durable.handle_all q pg_jobs sets build jobs w = (Ok tt, w') ∧ tw_trace w' = tw_trace w ++ t ∧ reliable w' ∧
    (∀ id, id ∉ Durable.j_ID <$> jobs → jobs_of w' !! id = jobs_of w !! id) ∧
    (∀ j, j ∈ jobs → worked_off j t (jobs_of w !! Durable.j_ID j) (jobs_of w' !! Durable.j_ID j)).
Proof.
  induction jobs as [|j jobs IH]; intros w Hw; cbn [Durable.handle_all fmap list_fmap].
  - intros _. exists [], w. rewrite app_nil_r. split_and!; [done..|]. intros j []%elem_of_nil.
  - intros [Hj Hnd]%NoDup_cons. destruct (handle_effect j w Hw) as (t1 & w1 & H1 & Htr1 & Hw1 & Ho1 & Hd1).
    destruct (IH w1 Hw1 Hnd) as (t2 & w2 & H2 & Htr2 & Hw2 & Ho2 & Hd2). exists (t1 ++ t2), w2. unfold mbind, M_bind. rewrite H1.
    split_and!; [done|by rewrite Htr2, Htr1, app_assoc|done| |].
    + intros id [? ?]%not_elem_of_cons. by rewrite Ho2, Ho1.
    + intros j' [->|Hj']%elem_of_cons.
      * rewrite Ho2 by done. by apply (worked_off_app j [] t1 t2).
      * rewrite <-(app_nil_r t2). apply worked_off_app. rewrite <-Ho1; [by apply Hd2|]. intros Heq. apply Hj. rewrite <-Heq. by apply list_elem_of_fmap_2.
Qed.

(** *** One batch *)
Lemma NoDup_selected now lk max l d : NoDup (selected now lk max l d).*1.
Proof.
  unfold selected. eapply sublist_NoDup; [|apply fmap_sublist, sublist_take].
  eapply sublist_NoDup; [|apply fmap_sublist, sublist_filter]. rewrite sort_slice_perm.
  eapply sublist_NoDup; [|apply fmap_sublist, sublist_filter]. apply NoDup_fst_map_to_list.
Qed.
Lemma selected_none now max l d id r : 0 < max → q_jobs d !! id = Some r → claimable now l r = true → selected now (λ _, false) max l d ≠ [].
Proof.
  intros Hmax Hr Hc Hsel. unfold selected in Hsel.
  assert (Hin : (id, r) ∈ filter (λ kv : Z * job_row, negb false = true) (sort_slice id_order (filter (λ kv, claimable now l kv.2 = true) (map_to_list (q_jobs d))))).
  { apply list_elem_of_filter. split; [done|]. rewrite elem_of_sort_slice. apply list_elem_of_filter. split; [done|]. by apply elem_of_map_to_list. }
  destruct (filter _ (sort_slice _ _)) as [|x l']; [by apply elem_of_nil in Hin|]. destruct (Z.to_nat max) eqn:Hm; [lia|done].
Qed.
Lemma claimable_mono now l r : start <= now → claimable start l r = true → claimable now l r = true.
Proof. unfold claimable. intros Hle. destruct (jr_claimed_at r); lia. Qed.
(** The job is claimed, run and settled. *)
Definition attempted (id : Z) (r0 : job_row) (t : list Durable.event) (o' : option job_row) : Prop :=
  ∃ now, worked_off (job_of (id, claim_row now r0)) t (Some (claim_row now r0)) o'.
Lemma attempted_app id r0 t1 t2 t3 o' : attempted id r0 t2 o' → attempted id r0 (t1 ++ t2 ++ t3) o'.
Proof. intros [now H]. exists now. by apply worked_off_app. Qed.
(** Out of reach until the tick is over *)
Definition parked (o : option job_row) : Prop := match o with Some r => start + backoff <= jr_available_at r | None => True end.
#[local] Instance parked_dec o : Decision (parked o).
Proof. destruct o; apply _. Qed.
Lemma attempted_parked id r0 t o' : attempted id r0 t o' → parked o'.
Proof.
  intros (now & pre & tr & r & ev & post & _ & _ & _ & Hs). unfold settles in Hs. destruct (finished _ _); [by subst o'|].
  destruct Hs as (now' & Hle & ->). cbn. lia.
Qed.
Lemma claim_batch w : reliable w → ∃ js w1 now,
  call Durable.QClaim (Durable.js_Claim pg_jobs (Durable.dc_BatchSize q) (Durable.dc_Lease q)) w = (Ok js, w1) ∧
  tw_trace w1 = tw_trace w ++ [Durable.QClaim (Ok js)] ∧ reliable w1 ∧ NoDup (Durable.j_ID <$> js) ∧
  (∀ id, id ∉ Durable.j_ID <$> js → jobs_of w1 !! id = jobs_of w !! id) ∧
  (∀ j, j ∈ js → ∃ r0, jobs_of w !! Durable.j_ID j = Some r0 ∧ ¬ parked (Some r0) ∧
    jobs_of w1 !! Durable.j_ID j = Some (claim_row now r0) ∧ j = job_of (Durable.j_ID j, claim_row now r0)) ∧
  (js = [] → ∀ id r0, jobs_of w !! id = Some r0 → claimable start lease r0 = true → False).
Proof.
  intros Hw. destruct w as [[[d link] n x] tr]. cbn in Hw. subst link. pose proof (Hclock n) as Hnow.
  destruct (claim_jobs (clock n) (locked n) (Durable.dc_BatchSize q) (Durable.dc_Lease q) d) as [[js|e] d1] eqn:Hc.
  2: { unfold claim_jobs, require, mbind, M_bind in Hc. replace (0 <=? Durable.dc_BatchSize q) with true in Hc by lia. done. }
  exists js, (mkTraced (mkEnv (mkSession d1 []) (S n) x) (tr ++ [Durable.QClaim (Ok js)])), (clock n).
  destruct (claim_effect _ _ _ _ _ _ _ Hc) as (Hjs & Hq & _).
  assert (Hids : Durable.j_ID <$> js ≡ₚ taken_ids (clock n) (locked n) (Durable.dc_BatchSize q) (Durable.dc_Lease q) d).
  { rewrite Hjs, <-list_fmap_compose. done. }
  split_and!; [|done|done| | | |].
  - unfold call, pg_jobs, on_db, PgClaim, wrapping, pool, autocommit. cbn. by rewrite Hc.
  - rewrite Hids. apply NoDup_selected.
  - intros id Hid. unfold env_jobs. cbn. rewrite Hq, bool_decide_eq_false_2; [done|]. by rewrite <-Hids.
  - intros j Hj. destruct (claimed_row _ _ _ _ _ _ _ _ Hc Hj) as (r & Hr & Hcl & Hr' & Hjob). exists r. split_and!; [done| |done|done].
    cbn. unfold claimable in Hcl. lia.
  - intros -> id r0 Hr0 Hcl. apply Permutation_nil_l, eq_sym, fmap_nil_inv in Hjs.
    apply (selected_none (clock n) (Durable.dc_BatchSize q) lease d id r0); [done|done|apply claimable_mono; [lia|done]|].
    rewrite <-Hjs. unfold selected. f_equal. apply list_filter_iff. intros kv. by rewrite Hlocked.
Qed.
Lemma batch_effect w : reliable w → ∃ js t w',
  Durable.claimAndProcess q pg_jobs sets build w = (Ok (Z.of_nat (length js)), w') ∧ tw_trace w' = tw_trace w ++ t ∧ reliable w' ∧
  (∀ id, id ∉ Durable.j_ID <$> js → jobs_of w' !! id = jobs_of w !! id) ∧
  (∀ id, id ∈ Durable.j_ID <$> js → ∃ r0, jobs_of w !! id = Some r0 ∧ ¬ parked (Some r0) ∧ attempted id r0 t (jobs_of w' !! id)) ∧
  (js = [] → ∀ id r0, jobs_of w !! id = Some r0 → claimable start lease r0 = true → False).
Proof.
  intros Hw. destruct (claim_batch w Hw) as (js & w1 & now & Hc & Htr1 & Hw1 & Hnd & Ho1 & Hj1 & Hnil).
  destruct (handle_all_effect js w1 Hw1 Hnd) as (t & w2 & Hh & Htr2 & Hw2 & Ho2 & Hj2).
  exists js, (Durable.QClaim (Ok js) :: t), w2. unfold Durable.claimAndProcess, mbind, M_bind. rewrite Hc, Hh.
  split_and!; [done|by rewrite Htr2, Htr1, <-app_assoc|done|intros id Hid; by rewrite Ho2, Ho1| |done].
  intros id (j & -> & Hj)%list_elem_of_fmap. destruct (Hj1 j Hj) as (r0 & Hr0 & Hp & Hr1 & Hjob). exists r0. split_and!; [done|done|].
  exists now. specialize (Hj2 j Hj). rewrite Hr1 in Hj2. rewrite <-Hjob, <-(app_nil_r t). by apply (worked_off_app j [_]).
Qed.

(** *** A tick *)
(** The jobs still within reach of the tick *)
Definition pending_ids (jobs : gmap Z job_row) : gset Z := dom (filter (λ kv, ¬ parked (Some kv.2)) jobs).
Lemma elem_of_pending jobs id : id ∈ pending_ids jobs ↔ ∃ r, jobs !! id = Some r ∧ ¬ parked (Some r).
Proof.
  unfold pending_ids. rewrite elem_of_dom. split.
  - intros [r Hr]. apply map_lookup_filter_Some in Hr as [? ?]. by exists r.
  - intros (r & ? & ?). exists r. by apply map_lookup_filter_Some.
Qed.
Lemma drain_works_off n : ∀ w, reliable w → (size (pending_ids (jobs_of w)) < n)%nat →
  ∃ t w', Durable.drain q pg_jobs sets build n w = (Ok tt, w') ∧ tw_trace w' = tw_trace w ++ t ∧ reliable w' ∧
    (∀ id, parked (jobs_of w !! id) → jobs_of w' !! id = jobs_of w !! id) ∧
    (∀ id r0, jobs_of w !! id = Some r0 → claimable start lease r0 = true → attempted id r0 t (jobs_of w' !! id)).
Proof.
  induction n as [|n IH]; intros w Hw Hsize; [lia|]. cbn [Durable.drain].
  destruct (batch_effect w Hw) as (js & t1 & w1 & H1 & Htr1 & Hw1 & Ho1 & Hj1 & Hnil). unfold mbind at 1, M_bind at 1, try. rewrite H1.
  destruct js as [|j js']; [|rewrite (proj2 (Z.eqb_neq _ 0)) by (cbn [length]; lia)].
  - exists t1, w1. split_and!; [done..|intros id _; by apply Ho1, not_elem_of_nil|]. intros id r0 Hr0 Hcl. destruct (Hnil eq_refl id r0 Hr0 Hcl).
  - set (ids := Durable.j_ID <$> j :: js') in *.
    assert (Hsub : pending_ids (jobs_of w1) ⊂ pending_ids (jobs_of w)).
    { split.
      - intros id (r & Hr & Hp)%elem_of_pending. apply elem_of_pending. destruct (decide (id ∈ ids)) as [Hin|Hni].
        + destruct (Hj1 id Hin) as (r0 & Hr0 & Hp0 & _). by exists r0.
        + exists r. by rewrite <-Ho1.
      - intros Hle. destruct (Hj1 (Durable.j_ID j)) as (r0 & Hr0 & Hp0 & Hat); [by left|].
        assert (Hin : Durable.j_ID j ∈ pending_ids (jobs_of w)) by (apply elem_of_pending; eauto).
        apply Hle, elem_of_pending in Hin as (r & Hr & Hp). apply attempted_parked in Hat. by rewrite Hr in Hat. }
    apply subset_size in Hsub. destruct (IH w1 Hw1) as (t2 & w2 & H2 & Htr2 & Hw2 & Hp2 & Hd2); [eapply Nat.lt_le_trans; [exact Hsub|by apply Nat.lt_succ_r]|].
    exists (t1 ++ t2), w2. split_and!; [done|by rewrite Htr2, Htr1, app_assoc|done| |].
    + intros id Hp. assert (Hni : id ∉ ids).
      { intros Hin. destruct (Hj1 id Hin) as (r0 & Hr0 & Hp0 & _). by rewrite Hr0 in Hp. }
      rewrite Hp2; [by apply Ho1|]. by rewrite Ho1.
    + intros id r0 Hr0 Hcl. destruct (decide (id ∈ ids)) as [Hin|Hni].
      * destruct (Hj1 id Hin) as (r0' & Hr0' & _ & Hat). assert (r0' = r0) as -> by congruence.
        rewrite Hp2 by (by eapply attempted_parked). by apply (attempted_app id r0 [] t1 t2).
      * rewrite <-(app_nil_r t2). apply attempted_app, Hd2; [|done]. by rewrite Ho1.
Qed.
End tick.
End worker.

(** C20: one tick of the durable queue over Postgres works off every job that is due. Over a reliable link, with no
    other instance holding rows and the tick over before a retry's backoff is, a worker that may take as many batches
    as there are jobs ends without an error, and every job that was due when it began has been run and, right
    afterwards, settled: its row is gone when the rebuild succeeded or its attempts are used up, and is otherwise
    released for a later try, one attempt older. *)
Theorem tick_works_off `{ord : !MapOrder, pg : !Postgres} {X} clock locked q
    (sets : Durable.SetRepo (QueueEnv X)) build start n (w : Traced (QueueEnv X) Durable.event) :
  (∀ k, start <= clock k < start + make_interval (Seconds (Durable.dc_RetryBackoff q))) → (∀ k id, locked k id = false) →
  0 < Durable.dc_BatchSize q →
  (∀ id, leaves_queue (Durable.sr_UserIDsByNode sets id)) → (∀ id, leaves_queue (Durable.sr_MarkDirtyByNode sets id)) →
  (∀ id, leaves_queue (build id)) →
  ss_link (qe_db (tw_env w)) = [] → (size (env_jobs (tw_env w)) < n)%nat →
  ∃ t w', Durable.drain q (pg_jobs clock locked) sets build n w = (Ok tt, w') ∧ tw_trace w' = tw_trace w ++ t ∧
    ∀ id r0, env_jobs (tw_env w) !! id = Some r0 → claimable start (make_interval (Seconds (Durable.dc_Lease q))) r0 = true →
      attempted q start id r0 t (env_jobs (tw_env w') !! id).
Proof.
  intros Hclock Hlocked Hbatch Husers Hdirty Hbuild Hw Hn.
  edestruct (drain_works_off clock locked q sets build start) as (t & w' & H1 & Htr & _ & _ & Hd); [done..| |by exists t, w'].
  unfold pending_ids. rewrite size_dom. eapply Nat.le_lt_trans; [|exact Hn]. apply map_subseteq_size, map_filter_subseteq.
Qed.

(** ** Two instances, and one tick *)
Fixpoint run_jobs `{pg : !Postgres} (ops : list (Time * job_op)) (s : Session CpDb) : list entry * Session CpDb :=
  match ops with
  | [] => ([], s)
  | (now, op) :: ops' => let '(r, s1) := exec_job now op s in let '(h, s2) := run_jobs ops' s1 in ((now, op, r) :: h, s2)
  end.
Lemma run_jobs_history `{pg : !Postgres} ops : ∀ s, history s (run_jobs ops s).1 (run_jobs ops s).2.
Proof.
  induction ops as [|[now op] ops IH]; intros s; cbn [run_jobs]; [constructor|].
  destruct (exec_job now op s) as [r s1] eqn:H1. specialize (IH s1). destruct (run_jobs ops s1). by econstructor.
Qed.
Definition free (_ : Z) : bool := false.
Definition first_claim : job_op := JClaim free 4 Minute.
Definition second_claim : job_op := JClaim free 2 (30 * Second).
(** The first instance claims and is not heard of again; its COMPLETE is lost on the way. *)
Definition shared_ops : list (Time * job_op) := [
  (Second, JEnqueue Durable.JobKindNode "n1"); (2 * Second, first_claim); (3 * Second, JComplete 1); (Minute, second_claim)].
Definition shared_start : Session CpDb := mkSession empty_cp_db [Runs; Runs; LostBefore].
Definition shared_end : Session CpDb := (run_jobs (pg := c_server) shared_ops shared_start).2.
Definition n1_job (attempts : Z) : Durable.Job := {|
  Durable.j_ID := 1; Durable.j_Kind := Durable.JobKindNode; Durable.j_TargetID := "n1"; Durable.j_Attempts := attempts |}.
Lemma rebuild_jobs_leased_witness :
  2 * Second + make_interval (Postgres := c_server) (Seconds (30 * Second)) < Minute.
Proof.
  destruct (rebuild_jobs_leased (pg := c_server) shared_start _ shared_end (run_jobs_history (pg := c_server) shared_ops shared_start)) as [H _].
  { intros id r Hr. exfalso. revert Hr. unfold shared_start. cbn. by rewrite lookup_empty. }
  eapply (H [(Second, JEnqueue Durable.JobKindNode "n1", Ok [])] (2 * Second) free 4 Minute [n1_job 1]
    [(3 * Second, JComplete 1, Err (wrap_err "postgres: complete rebuild job" ErrConn))] Minute free 2 (30 * Second) [n1_job 2] [] (n1_job 1) (n1_job 2)).
  - vm_compute. reflexivity.
  - by left.
  - by left.
  - reflexivity.
  - repeat constructor.
Defined.

Definition tick_db : CpDb := on_job_seq (λ _, 2) (on_jobs (λ _, <[1 := {| jr_kind := Durable.JobKindNode; jr_target_id := "n1"; jr_attempts := 0;
  jr_available_at := 0; jr_claimed_at := None |}]> {[2 := {| jr_kind := Durable.JobKindUser; jr_target_id := "u2"; jr_attempts := 4;
  jr_available_at := 0; jr_claimed_at := Some 0 |}]}) empty_cp_db).
Definition tick_world : Traced (QueueEnv unit) Durable.event := mkTraced (mkEnv (mkSession tick_db []) 0 tt) [].
Definition tick_config : Durable.DurableConfig := Durable.NewDurable {|
  Durable.dc_Workers := 1; Durable.dc_PollInterval := 0; Durable.dc_BatchSize := 0; Durable.dc_Lease := 0; Durable.dc_JobTTL := 0;
  Durable.dc_MaxAttempts := 0; Durable.dc_RetryBackoff := 0 |}.
Definition tick_clock (n : nat) : Time := Hour.
Definition tick_build (id : string) : M (QueueEnv unit) unit := fail (Errorf "no bundle").
(** The last attempt at the second job fails, and the job is dropped. *)
Lemma tick_works_off_witness : ∃ (t : list Durable.event) w', Durable.drain tick_config (pg_jobs (pg := c_server) tick_clock (λ _, free)) (pg_sets (ord := key_order) tick_clock (λ _, free))
    tick_build 3 tick_world = (Ok tt, w') ∧
  env_jobs (tw_env w') !! 2 = None ∧ Durable.QBuild "u2" (Err (Errorf "no bundle")) ∈ t.
Proof.
  destruct (tick_works_off (ord := key_order) (pg := c_server) tick_clock (λ _, free) tick_config
    (pg_sets (ord := key_order) tick_clock (λ _, free)) tick_build Hour 3 tick_world) as (t & w' & Hrun & Htr & Hd).
  - intros k. vm_compute. done.
  - done.
  - vm_compute. done.
  - apply (pg_sets_leave (ord := key_order)).
  - apply (pg_sets_leave (ord := key_order)).
  - by intros id e Hl.
  - done.
  - vm_compute. lia.
  - exists t, w'. split; [exact Hrun|]. split.
    + destruct (Hd 2 {| jr_kind := Durable.JobKindUser; jr_target_id := "u2"; jr_attempts := 4; jr_available_at := 0; jr_claimed_at := Some 0 |})
        as (now & pre & tr & r & ev & post & _ & _ & _ & Hs); [reflexivity|vm_compute; reflexivity|].
      unfold settles, finished in Hs. by rewrite orb_true_r in Hs.
    + vm_compute in Hrun. injection Hrun as <-. cbn in Htr. subst t. vm_compute. set_solver.
Defined.
