(* ===== verification/ControlPersist.v ===== *)
(** * The control-plane's stores in Postgres refine the ones in memory

    One call of a repository on Postgres does what the same call does in memory: [models] relates the tables to
    the maps, up to the times of the last update, and [respects] says what a caller has to respect (canonical and
    fresh ids, whole microseconds, sizes). Over a link that loses calls, a call that reports the loss has done all
    of its work or none of it. *)
From S2P Require Import Prelude GoBytes GoText GoFloat Sql Contracts ControlStore ControlFleet ControlAccess ControlTokens ControlPostgres.
Import Domain.

(** ** The statements' combinators *)
Lemma gave_up_unique e : gave_up e = true → isUniqueViolation e = false.
Proof.
  intros He. destruct (isUniqueViolation e) eqn:Hn; [|done]. unfold isUniqueViolation, has_code, PgError in Hn. unfold gave_up, ErrConn, ErrSerialization, PgError in He.
  apply orb_true_iff in He as [He|He]; by pose proof (errors_is_one _ _ _ Hn He).
Qed.
Lemma gave_up_scanned msg e : gave_up e = true → gave_up (scanned msg e) = true.
Proof. intros He. unfold scanned. rewrite gave_up_rows by done. by apply gave_up_wrap. Qed.
Lemma gave_up_absent e : gave_up e = true → gave_up (absent e) = true.
Proof. intros He. unfold absent. by rewrite gave_up_rows. Qed.
Lemma gave_up_taken msg e : gave_up e = true → gave_up (taken msg e) = true.
Proof. intros He. unfold taken. rewrite gave_up_unique by done. by apply gave_up_wrap. Qed.
Lemma gave_up_no_exit e : gave_up e = true → gave_up (if no_rows e then conflict "no paired exit" else e) = true.
Proof. intros He. by rewrite gave_up_rows. Qed.
Lemma steady_withTx {A} (fn : querier → M (Session CpDb) A) d : tx_ok (fn tx) →
  steady (withTx fn) d = match steady (fn tx) d with (Ok a, d') => (Ok a, d') | (Err e, _) => (Err e, d) end.
Proof. apply steady_transaction_with. Qed.
Lemma all_or_nothing_withTx {A} (fn : querier → M (Session CpDb) A) : tx_ok (fn tx) → all_or_nothing (withTx fn).
Proof. intros H. by apply all_or_nothing_transaction_with; [apply gave_up_wrap..|]. Qed.
(** Everything a transaction of these stores is made of *)
Ltac tx_tac := repeat (apply tx_ok_in_tx || apply tx_ok_ret || apply tx_ok_fail || apply tx_ok_wrapping
  || (apply tx_ok_on_error; [first [apply gave_up_scanned|apply gave_up_absent|apply gave_up_taken|apply gave_up_no_exit]|])
  || (apply tx_ok_bind; [|intros ?]) || case_match).

Section constraints.
Context `{ord : !MapOrder, pg : !Postgres}.
(** ** The constraints of the tables *)
Record constraints (d : CpDb) : Prop := {
  ct_user : ∀ id u, q_users d !! id = Some u → u_ID u = id ∧ user_checks u = true ∧ subscription_exists d (u_SubscriptionID u) = true;
  ct_user_unique : ∀ i j u v, q_users d !! i = Some u → q_users d !! j = Some v → user_clash u (j, v) = false;
  ct_sub : ∀ id r, q_subs d !! id = Some r → s_ID (sr_subscription r) = id ∧ s_Token (sr_subscription r) = "" ∧ sub_checks (sr_subscription r) = true;
  ct_sub_unique : ∀ i j r r', q_subs d !! i = Some r → q_subs d !! j = Some r' → hash_clash i r (j, r') = false }.
Lemma ptr_clash_sym {A} `{EqDecision A} (a b : option A) : ptr_clash a b = ptr_clash b a.
Proof. unfold ptr_clash. destruct a, b; cbn; try done; by apply bool_decide_ext. Qed.
Lemma user_clash_sym u v : user_clash u (u_ID v, v) = user_clash v (u_ID u, u).
Proof.
  unfold user_clash. cbn. rewrite (ptr_clash_sym (u_TelegramID v)), (ptr_clash_sym (u_Email v)).
  rewrite !(bool_decide_ext (u_ID u = u_ID v) (u_ID v = u_ID u)) by done.
  rewrite (bool_decide_ext (u_RealityShortID u = _) (u_RealityShortID v = u_RealityShortID u)) by done.
  by rewrite (bool_decide_ext (u_UUID u = _) (u_UUID v = u_UUID u)) by done.
Qed.
Lemma put_user_ok u d : user_checks u = true → (∀ j v, q_users d !! j = Some v → user_clash u (j, v) = false) →
  subscription_exists d (u_SubscriptionID u) = true → put_user u d = (Ok tt, on_users <[u_ID u := u]> d).
Proof.
  intros Hc Hu Hs. unfold put_user, require, mbind, M_bind. rewrite Hc, Hs. by rewrite (proj2 (existsb_range_false _ _) Hu).
Qed.
Lemma constraints_put_user u d : constraints d → user_checks u = true → (∀ j v, q_users d !! j = Some v → user_clash u (j, v) = false) →
  subscription_exists d (u_SubscriptionID u) = true → constraints (on_users <[u_ID u := u]> d).
Proof.
  intros [H1 H2 H3 H4] Hc Hu Hs. split; [| |done..]; cbn.
  - intros id v [[<- <-]|[_ Hv]]%lookup_insert_Some; [done|by apply H1].
  - intros i j v w [[<- <-]|[_ Hv]]%lookup_insert_Some [[<- <-]|[_ Hw]]%lookup_insert_Some.
    + unfold user_clash. cbn. by rewrite bool_decide_eq_true_2.
    + by apply Hu.
    + rewrite user_clash_sym. destruct (H1 i v Hv) as [-> _]. by apply Hu.
    + by eapply H2.
Qed.
Lemma put_sub_ok id r d : sub_checks (sr_subscription r) = true → (∀ j r', q_subs d !! j = Some r' → hash_clash id r (j, r') = false) →
  put_sub id r d = (Ok tt, on_subs <[id := r]> d).
Proof.
  intros Hc Hu. unfold put_sub, require, mbind, M_bind. rewrite Hc. by rewrite (proj2 (existsb_range_false _ _) Hu).
Qed.
Lemma hash_clash_sym i j r r' : hash_clash i r (j, r') = hash_clash j r' (i, r).
Proof. unfold hash_clash. cbn. f_equal; [f_equal|]; by apply bool_decide_ext. Qed.
Lemma constraints_put_sub id r d : constraints d → s_ID (sr_subscription r) = id → s_Token (sr_subscription r) = "" →
  sub_checks (sr_subscription r) = true → (∀ j r', q_subs d !! j = Some r' → hash_clash id r (j, r') = false) →
  constraints (on_subs <[id := r]> d).
Proof.
  intros [H1 H2 H3 H4] Hid Htok Hc Hu. split; [|done| |]; cbn.
  - intros i u Hi. destruct (H1 i u Hi) as (? & ? & Hs). split_and!; [done..|]. unfold subscription_exists in *. cbn.
    destruct (u_SubscriptionID u) as [sid|]; [|done]. destruct (decide (id = sid)) as [->|Hne]; [by rewrite lookup_insert_eq|by rewrite lookup_insert_ne].
  - intros i r' [[<- <-]|[_ Hr]]%lookup_insert_Some; [done|by apply H3].
  - intros i j r1 r2 [[<- <-]|[_ Hr1]]%lookup_insert_Some [[<- <-]|[_ Hr2]]%lookup_insert_Some.
    + unfold hash_clash. cbn. by rewrite bool_decide_eq_true_2.
    + by apply Hu.
    + rewrite hash_clash_sym. by apply Hu.
    + by eapply H4.
Qed.
End constraints.

(** ** One call, on either store *)
Inductive access_op :=
| OUserCreate (u : User) | OUserGet (id : string) | OUserUpdate (u : User)
| ORotateSecrets (now : Time) (stamp : string → string) (hy2 : string) (id shortID uuid_ privKey : string) | OAllActiveIDs
| OCreateAndLink (sub : Subscription) (tokenHash tokenPrefix userID : string) | OSubGet (id : string) | OSubUpdate (sub : Subscription)
| OUpdateTokenHash (now : Time) (id tokenHash tokenPrefix : string) | OApplyBillingState (now : Time) (id : string) (state : BillingState)
| OEnsureDeliveryToken (id : string) (candidate : DeliveryToken) | OCancelSubscription (now : Time) (id : string) | OResolveTokenHash (hash : string)
| OEligibleRealityUsers (now : Time) | OEligibleAccessUsers (now : Time)
| OSetStatus (id : string) (status : NodeStatus) | ODemote (id : string) | OSetEntryIP (id entryIP : string)
| OActivate (now : Time) (id expectedRevision accessRevision evidence : string).
Inductive access_answer :=
| AnUnit | AnUser (u : User) | AnIDs (ids : list string) | AnSub (sub : Subscription) | AnToken (t : DeliveryToken)
| AnBinding (b : SubscriptionTokenBinding) | AnReality (l : list RealityUser) | AnAccess (x : NodeAccessUsers)
| AnStatus (st : NodeStatus) | AnNode (n : Node) (prev : NodeStatus).
Definition silent {S} (m : M S unit) : M S access_answer := answering (λ _, AnUnit) m.
Section calls.
Context `{ord : !MapOrder, pg : !Postgres}.
Definition mem_op (op : access_op) : M Store access_answer :=
  match op with
  | OUserCreate u => silent (Users.Create u)
  | OUserGet id => answering AnUser (Users.Get id)
  | OUserUpdate u => silent (Users.Update u)
  | ORotateSecrets _ _ hy2 id shortID uuid_ privKey => answering AnUser (Users.RotateSecrets id shortID uuid_ privKey (Ok hy2))
  | OAllActiveIDs => answering AnIDs Users.AllActiveIDs
  | OCreateAndLink sub h p user => silent (Subscriptions.CreateAndLink sub h p user)
  | OSubGet id => answering AnSub (Subscriptions.Get id)
  | OSubUpdate sub => silent (Subscriptions.Update sub)
  | OUpdateTokenHash _ id h p => silent (Subscriptions.UpdateTokenHash id h p)
  | OApplyBillingState now id state => answering AnSub (Subscriptions.ApplyBillingState now id state)
  | OEnsureDeliveryToken id candidate => answering AnToken (Subscriptions.EnsureDeliveryToken id candidate)
  | OCancelSubscription now id => answering AnSub (Subscriptions.CancelSubscription now id)
  | OResolveTokenHash hash => answering AnBinding (Subscriptions.ResolveTokenHash hash)
  | OEligibleRealityUsers now => answering AnReality (AllowList.EligibleRealityUsers now)
  | OEligibleAccessUsers now => answering AnAccess (AllowList.EligibleAccessUsers now)
  | OSetStatus id status => answering AnStatus (Nodes.SetStatus id status)
  | ODemote id => answering AnStatus (Nodes.Demote id)
  | OSetEntryIP id entryIP => silent (Nodes.SetEntryIP id entryIP)
  | OActivate now id expected access evidence => answering (λ r, AnNode r.1 r.2) (NodeActivator.activate now id expected access evidence)
  end.
Definition pg_op (op : access_op) : M (Session CpDb) access_answer :=
  match op with
  | OUserCreate u => silent (PgUserCreate u)
  | OUserGet id => answering AnUser (PgUserGet id)
  | OUserUpdate u => silent (PgUserUpdate u)
  | ORotateSecrets now stamp hy2 id shortID uuid_ privKey => answering AnUser (PgRotateSecrets now stamp (Ok hy2) id shortID uuid_ privKey)
  | OAllActiveIDs => answering AnIDs PgAllActiveIDs
  | OCreateAndLink sub h p user => silent (PgCreateAndLink sub h p user)
  | OSubGet id => answering AnSub (PgSubGet id)
  | OSubUpdate sub => silent (PgSubUpdate sub)
  | OUpdateTokenHash now id h p => silent (PgUpdateTokenHash now id h p)
  | OApplyBillingState now id state => answering AnSub (PgApplyBillingState now id state)
  | OEnsureDeliveryToken id candidate => answering AnToken (PgEnsureDeliveryToken id candidate)
  | OCancelSubscription now id => answering AnSub (PgCancelSubscription now id)
  | OResolveTokenHash hash => answering AnBinding (PgResolveTokenHash hash)
  | OEligibleRealityUsers now => answering AnReality (PgEligibleRealityUsers now)
  | OEligibleAccessUsers now => answering AnAccess (PgEligibleAccessUsers now)
  | OSetStatus id status => answering AnStatus (PgSetStatus id status)
  | ODemote id => answering AnStatus (PgDemote id)
  | OSetEntryIP id entryIP => silent (PgSetEntryIP id entryIP)
  | OActivate now id expected access evidence => answering (λ r, AnNode r.1 r.2) (PgActivate now id expected access evidence)
  end.

(** ** The tables that model a store *)
Definition user_core (u : User) : User := with_u_updated 0 u.
Definition sub_core (s : Subscription) : Subscription := with_s_updated 0 s.
Definition node_core (n : Node) : Node := node_columns (timestamptz (n_CreatedAt n)) n.
Definition transports_of (d : CpDb) (id : string) : list Transport := unmarshalTransportParams <$> transport_rows [id] d.
(** What the hash of a token looks like *)
Definition digest (h : string) : Prop := ∃ b, hex_decode h = Some b ∧ length b = 32%nat.
Record models (d : CpDb) (s : Store) : Prop := {
  mo_constraints : constraints d;
  mo_users : user_core <$> c_users s = user_core <$> q_users d;
  mo_subs : sub_core <$> c_subs s = (λ r, sub_core (sr_subscription r)) <$> q_subs d;
  mo_hashes : ∀ id r h, q_subs d !! id = Some r → digest h → default "" (c_hashes s !! id) = h ↔ sr_token_hash r = h;
  mo_fingerprints : ∀ id, default "" (c_billingHashes s !! id) = default "" (sr_billing_state_hash <$> q_subs d !! id);
  mo_delivery : c_delivery s = q_delivery d;
  mo_nodes : node_core <$> c_nodes s = q_nodes d;
  mo_transports : ∀ id n, c_nodes s !! id = Some n → n_Transports n ≡ₚ transports_of d id }.
Lemma models_empty : models empty_cp_db NewStore.
Proof.
  assert (constraints empty_cp_db) by (split; cbn; intros *; by rewrite lookup_empty).
  split; cbn; rewrite ?fmap_empty; try done; intros *; by rewrite ?lookup_empty.
Qed.

Definition same_access (x y : NodeAccessUsers) : Prop :=
  nau_Revision y = nau_Revision x ∧ nau_ValidUntil y = nau_ValidUntil x ∧ nau_Users y ≡ₚ nau_Users x.
(** An exit is answered without its transports. *)
Definition same_node (n n' : Node) : Prop := node_core n' = node_core n ∧ (n_Role n = NodeRoleExit ∨ n_Transports n' ≡ₚ n_Transports n).
Definition same_answer (a a' : access_answer) : Prop :=
  match a, a' with
  | AnUser u, AnUser u' => user_core u' = user_core u
  | AnSub s, AnSub s' => sub_core s' = sub_core s
  | AnIDs l, AnIDs l' => l' ≡ₚ l
  | AnReality l, AnReality l' => l' ≡ₚ l
  | AnAccess x, AnAccess x' => same_access x x'
  | AnNode n p, AnNode n' p' => same_node n n' ∧ p' = p
  | _, _ => a' = a
  end.
Definition same_error (e e' : error) : Prop :=
  errors_is e' ErrNotFound = errors_is e ErrNotFound ∧ errors_is e' ErrConflict = errors_is e ErrConflict.
Definition same_result (r r' : result access_answer) : Prop :=
  match r, r' with Ok a, Ok a' => same_answer a a' | Err e, Err e' => same_error e e' | _, _ => False end.

(** ** What a caller has to respect *)
Definition canonical (id : string) : Prop := uuid_in id = Some id.
Definition whole (t : Time) : Prop := t mod Microsecond = 0.
Definition whole_ptr (o : option Time) : Prop := match o with Some t => whole t | None => True end.
Definition fits4 (z : Z) : Prop := 0 <= z < 2 ^ 31.
Definition fits8 (z : Z) : Prop := 0 <= z < 2 ^ 63.
Definition canonical_ptr (o : option string) : Prop := match o with Some id => canonical id | None => True end.
Definition good_user (u : User) : Prop :=
  canonical (u_ID u) ∧ whole (u_CreatedAt u) ∧ fits4 (u_DeviceLimit u) ∧ fits8 (u_QuotaBytes u) ∧ fits8 (u_UsedBytes u) ∧
  canonical_ptr (u_SubscriptionID u).
(** Apart from the chat id, which both stores check *)
Definition fresh_secrets (s : Store) (u : User) : Prop := ∀ j v, c_users s !! j = Some v → j ≠ u_ID u →
  ptr_clash (u_Email u) (u_Email v) = false ∧ u_RealityShortID u ≠ u_RealityShortID v ∧ u_UUID u ≠ u_UUID v.
Definition free_user (s : Store) (u : User) : Prop := ∀ j v, c_users s !! j = Some v → user_clash u (j, v) = false.
Definition good_sub (sub : Subscription) : Prop :=
  canonical (s_ID sub) ∧ canonical (s_UserID sub) ∧ whole (s_StartsAt sub) ∧ whole_ptr (s_ExpiresAt sub) ∧ whole (s_CreatedAt sub) ∧
  fits8 (s_TrafficLimitBytes sub) ∧ fits4 (s_SpeedLimitMbps sub) ∧ fits4 (s_DeviceLimit sub) ∧ s_GraceUntil sub = None ∧ s_BillingRevision sub = 0.
(** No other subscription has or had this token. *)
Definition free_hash (d : CpDb) (id hash : string) : Prop := ∀ j r, q_subs d !! j = Some r → sr_token_hash r = hash → j = id.
Definition same_secrets (u v : User) : Prop :=
  u_RealityShortID u = u_RealityShortID v ∧ u_UUID u = u_UUID v ∧ u_Hysteria2Password u = u_Hysteria2Password v ∧
  u_PrivateKey u = u_PrivateKey v ∧ u_CreatedAt u = u_CreatedAt v.
Definition respects (op : access_op) (d : CpDb) (s : Store) : Prop :=
  match op with
  | OUserCreate u => good_user u ∧ u_SubscriptionID u = None ∧ fresh_secrets s u
  | OUserGet id => canonical id
  | OUserUpdate u => good_user u ∧ free_user s u ∧ ∀ v, c_users s !! u_ID u = Some v → same_secrets u v ∧ u_SubscriptionID u = u_SubscriptionID v
  | ORotateSecrets _ stamp _ id shortID uuid_ privKey => canonical id ∧
      (∀ i j, revoked_hash i (stamp i) = revoked_hash j (stamp j) → i = j) ∧ (∀ i, free_hash d i (revoked_hash i (stamp i))) ∧
      ∀ j v, c_users s !! j = Some v → j ≠ id → u_RealityShortID v ≠ shortID ∧ u_UUID v ≠ uuid_
  | OAllActiveIDs | OEligibleRealityUsers _ | OEligibleAccessUsers _ => True
  | OCreateAndLink sub h _ user => good_sub sub ∧ s_UserID sub = user ∧ c_subs s !! s_ID sub = None ∧ free_hash d (s_ID sub) h
  | OSubGet id => canonical id
  | OSubUpdate sub => canonical (s_ID sub) ∧ whole_ptr (s_ExpiresAt sub) ∧
      ∀ cur, c_subs s !! s_ID sub = Some cur → sub = with_s_period (s_Status sub) (s_ExpiresAt sub) (s_UpdatedAt sub) cur ∧
        (s_BillingRevision cur = 0 → s_GraceUntil cur = None)
  | OUpdateTokenHash _ id h _ => canonical id ∧ free_hash d id h
  | OApplyBillingState _ id state => canonical id ∧ whole (bs_ExpiresAt state) ∧ whole (bs_GraceUntil state) ∧ bs_ExpiresAt state <= bs_GraceUntil state ∧
      ∀ cur, c_subs s !! id = Some cur → fits4 (s_SpeedLimitMbps cur) ∧ fits4 (s_DeviceLimit cur) ∧ fits8 (s_TrafficLimitBytes cur)
  | OEnsureDeliveryToken id candidate => canonical id ∧ ∀ j t, q_delivery d !! j = Some t → dt_Hash t ≠ dt_Hash candidate
  | OCancelSubscription _ id => canonical id
  | OResolveTokenHash hash => digest hash ∧ ∀ i j si sj, c_subs s !! i = Some si → c_subs s !! j = Some sj →
      Subscriptions.resolves s hash (i, si) = true → Subscriptions.resolves s hash (j, sj) = true → i = j
  | OSetStatus _ _ | ODemote _ | OSetEntryIP _ _ => True
  | OActivate _ id _ _ _ => is_Some (c_nodes s !! id) ∧
      ∀ i j ni nj, c_nodes s !! i = Some ni → c_nodes s !! j = Some nj → n_Role ni = NodeRoleExit → n_Role nj = NodeRoleExit →
        n_EntryNodeID ni = Some id → n_EntryNodeID nj = Some id → i = j
  end.
End calls.

(** ** Each call *)
Section simulation.
Context `{ord : !MapOrder, pg : !Postgres}.
(** From related states the two answer alike and end in related states. *)
Definition simulates (op : access_op) (d : CpDb) (s : Store) : Prop :=
  same_result (mem_op op s).1 (steady (pg_op op) d).1 ∧ models (steady (pg_op op) d).2 (mem_op op s).2.
Definition alike {A} (f : A → access_answer) (out : result A * Store) (out' : result A * CpDb) : Prop :=
  match out.1, out'.1 with Ok a, Ok a' => same_answer (f a) (f a') | Err e, Err e' => same_error e e' | _, _ => False end ∧ models out'.2 out.2.
Lemma access_simulates {A} (f : A → access_answer) (p : M (Session CpDb) A) (mem : M Store A) d s :
  alike f (mem s) (steady p d) →
  same_result (answering f mem s).1 (steady (answering f p) d).1 ∧ models (steady (answering f p) d).2 (answering f mem s).2.
Proof.
  rewrite steady_answering. intros [H1 H2]. unfold answering, mbind, M_bind.
  destruct (mem s) as [[a|e] s'], (steady p d) as [[a'|e'] d']; done.
Qed.
Lemma same_error_refl e : same_error e e.
Proof. done. Qed.
Lemma access_alike_err {A} (f : A → access_answer) e d s : models d s → alike f (Err e, s) (Err e, d).
Proof. done. Qed.
Lemma access_alike_ok {A} (f : A → access_answer) a a' d s : same_answer (f a) (f a') → models d s → alike f (Ok a, s) (Ok a', d).
Proof. done. Qed.
Lemma steady_pool {A} (st : M CpDb A) d : steady (pool A st) d = st d.
Proof. apply steady_autocommit. Qed.
Lemma scanned_rows msg : scanned msg ErrNoRows = ErrNotFound.
Proof. reflexivity. Qed.
Lemma absent_rows : absent ErrNoRows = ErrNotFound.
Proof. reflexivity. Qed.
Lemma taken_unique msg : taken msg ErrUnique = ErrConflict.
Proof. reflexivity. Qed.
Lemma uuid_ok id d : canonical id → uuid id d = (Ok id, d).
Proof. intros H. unfold uuid. by rewrite H. Qed.
Lemma int4_ok z d : fits4 z → int4 z d = (Ok tt, d).
Proof. intros H. unfold int4, fits4 in *. replace ((- 2 ^ 31 <=? z) && (z <? 2 ^ 31)) with true by lia. done. Qed.
Lemma wrap64_fits z : fits8 z → wrap64 z = z.
Proof. unfold fits8, wrap64. intros H. rewrite Z.mod_small by lia. lia. Qed.
Lemma whole_column t : whole t → timestamptz t = t.
Proof. apply timestamptz_whole. Qed.
Lemma whole_ptr_column o : whole_ptr o → time_column o = o.
Proof. destruct o as [t|]; [|done]. intros H. unfold time_column. cbn. by rewrite timestamptz_whole. Qed.

(** *** Users *)
Lemma lookup_user d s id : models d s → user_core <$> c_users s !! id = user_core <$> q_users d !! id.
Proof. intros H. by rewrite <-!lookup_fmap, (mo_users d s H). Qed.
(** A user in one is a user in the other, up to the time of the last update. *)
Lemma user_cases d s id : models d s → (c_users s !! id = None ∧ q_users d !! id = None) ∨
  ∃ u u', c_users s !! id = Some u ∧ q_users d !! id = Some u' ∧ user_core u = user_core u'.
Proof.
  intros H. pose proof (lookup_user d s id H) as Hl. destruct (c_users s !! id) as [u|], (q_users d !! id) as [u'|]; try done; [right|by left].
  exists u, u'. split_and!; [done..|]. by apply (inj Some).
Qed.
Lemma models_put_user d s id u u' : models d s → user_core u = user_core u' → constraints (on_users <[id := u']> d) →
  models (on_users <[id := u']> d) (set_users <[id := u]> s).
Proof. intros [] Hu Hc. split; try done. cbn. by rewrite !fmap_insert, Hu, mo_users0. Qed.
Lemma user_by_id_eq id d : canonical id → user_by_id id d = (match q_users d !! id with Some u => Ok u | None => Err ErrNoRows end, d).
Proof. intros H. unfold user_by_id, mbind, M_bind. rewrite (uuid_ok id d H). unfold query_row. by destruct (q_users d !! id). Qed.
Lemma sim_UserGet id d s : models d s → canonical id → simulates (OUserGet id) d s.
Proof.
  intros H Hid. apply access_simulates. unfold PgUserGet. rewrite steady_on_error, steady_pool, user_by_id_eq by done. unfold Users.Get.
  destruct (user_cases d s id H) as [[-> ->]|(u & u' & -> & -> & Hu)]; [by apply access_alike_err|by apply access_alike_ok].
Qed.
(** The clash of a user is one in either store. *)
Lemma user_clash_core u u' j v v' : user_core u = user_core u' → user_core v = user_core v' → user_clash u (j, v) = user_clash u' (j, v').
Proof. intros Hu Hv. destruct u, u', v, v'. injection Hu as -> -> -> -> -> -> -> -> -> -> -> -> ->. by injection Hv as -> -> -> -> -> -> -> -> -> -> -> -> ->. Qed.
Lemma free_user_rows d s u u' : models d s → free_user s u → user_core u = user_core u' → ∀ j v, q_users d !! j = Some v → user_clash u' (j, v) = false.
Proof.
  intros H Hfree Hu j v Hv. destruct (user_cases d s j H) as [[_ ?]|(w & w' & Hw & Hw' & Hc)]; [congruence|].
  rewrite Hv in Hw'. injection Hw' as ->. rewrite <-(user_clash_core u u' j w w' Hu Hc). by apply Hfree.
Qed.
Lemma good_columns u : good_user u → user_core (with_u_columns (u_ID u) (u_SubscriptionID u) u) = user_core u ∧
  user_checks (with_u_columns (u_ID u) (u_SubscriptionID u) u) = true.
Proof.
  intros (_ & Hc & [Hd _] & Hq & Hu & _). unfold with_u_columns, user_core, with_u_updated, user_checks. cbn. rewrite whole_column, !wrap64_fits by done.
  unfold fits8 in *. split; [done|]. lia.
Qed.
Lemma fits4_int4 z : fits4 z → ∀ d, int4 z d = (Ok tt, d).
Proof. intros H d. by apply int4_ok. Qed.
Lemma user_row_eq u d : good_user u →
  user_row u d = (Ok (with_u_columns (u_ID u) (u_SubscriptionID u) u), d).
Proof.
  intros (Hid & _ & Hd & _ & _ & Hs). unfold user_row, mbind, M_bind. rewrite (uuid_ok _ _ Hid). unfold uuid_ptr, mbind, M_bind.
  destruct (u_SubscriptionID u) as [id|]; [rewrite (uuid_ok _ _ Hs)|]; cbn; by rewrite (int4_ok _ _ Hd).
Qed.
Lemma fresh_secrets_clash s u j v : fresh_secrets s u → c_users s !! j = Some v → j ≠ u_ID u →
  user_clash u (j, v) = ptr_clash (u_TelegramID u) (u_TelegramID v).
Proof.
  intros Hf Hv Hj. destruct (Hf j v Hv Hj) as (He & Hs & Hu). unfold user_clash. cbn.
  rewrite He, (bool_decide_eq_false_2 _ Hj), (bool_decide_eq_false_2 _ Hs), (bool_decide_eq_false_2 _ Hu). by rewrite !orb_false_r.
Qed.
Lemma sim_UserCreate u d s : models d s → respects (OUserCreate u) d s → simulates (OUserCreate u) d s.
Proof.
  intros H (Hg & Hsub & Hf). apply access_simulates. unfold PgUserCreate. rewrite steady_on_error, steady_pool.
  unfold insert_user, mbind, M_bind. rewrite user_row_eq by done. destruct (good_columns u Hg) as [Hcore Hchk].
  set (row := with_u_columns (u_ID u) (u_SubscriptionID u) u) in *. unfold gets, require. change (u_ID row) with (u_ID u). unfold Users.Create.
  destruct (user_cases d s (u_ID u) H) as [[Hn Hn']|(v & v' & -> & -> & _)]; [rewrite Hn, Hn'|by apply access_alike_err]. cbn [is_set negb]. unfold mret, M_ret.
  assert (Hput : (∀ t, u_TelegramID u = Some t → existsb (Users.has_telegram t) (range (c_users s)) = false) →
    alike (λ _, AnUnit) (Ok tt, set_users <[u_ID u := u]> s)
      (match put_user row d with (Ok a, d') => (Ok a, d') | (Err e, d') => (Err (taken "postgres: insert user" e), d') end)).
  { intros Htg. assert (Hfree : free_user s u).
    { intros j v Hv. assert (Hj : j ≠ u_ID u) by congruence. rewrite (fresh_secrets_clash s u j v Hf Hv Hj). unfold ptr_clash.
      destruct (u_TelegramID u) as [t|] eqn:Ht; [|done]. cbn. apply bool_decide_eq_false_2. intros Heq.
      pose proof (proj1 (existsb_range_false _ _) (Htg t eq_refl) j v Hv) as Hno. apply bool_decide_eq_false in Hno. by apply Hno. }
    assert (Hclash : ∀ j v, q_users d !! j = Some v → user_clash row (j, v) = false) by (by eapply free_user_rows).
    assert (Hex : subscription_exists d (u_SubscriptionID row) = true) by (unfold row; cbn; by rewrite Hsub).
    rewrite (put_user_ok row d Hchk Hclash Hex). apply access_alike_ok; [done|]. change (u_ID row) with (u_ID u).
    apply models_put_user; [done|by rewrite Hcore|]. change (u_ID u) with (u_ID row). apply constraints_put_user; [apply H|done..]. }
  destruct (u_TelegramID u) as [t|] eqn:Ht; [|by apply Hput]. destruct (existsb _ _) eqn:He; [|apply Hput; by intros ? [= <-]].
  apply existsb_range in He as (j & v & Hin & Htg). apply bool_decide_eq_true in Htg. cbn in Htg.
  assert (Herr : put_user row d = (Err ErrUnique, d)).
  { destruct (user_cases d s j H) as [[? _]|(w & w' & Hw & Hw' & Hc)]; [congruence|]. rewrite Hin in Hw. injection Hw as <-.
    unfold put_user, require, mbind, M_bind. rewrite Hchk. rewrite (proj2 (existsb_range _ _)); [done|]. exists j, w'. split; [done|]. rewrite <-(user_clash_core u row j v w') by done.
    rewrite (fresh_secrets_clash s u j v Hf Hin) by congruence. unfold ptr_clash. rewrite Ht, Htg. by apply bool_decide_eq_true_2. }
  rewrite Herr. by apply access_alike_err.
Qed.
Lemma sim_UserUpdate u d s : models d s → respects (OUserUpdate u) d s → simulates (OUserUpdate u) d s.
Proof.
  intros H (Hg & Hfree & Hsame). apply access_simulates. unfold PgUserUpdate, pool. rewrite steady_wrapping_bind.
  unfold update_user, mbind, M_bind. rewrite user_row_eq by done. destruct (good_columns u Hg) as [Hcore Hchk].
  set (row := with_u_columns (u_ID u) (u_SubscriptionID u) u) in *. unfold gets. change (u_ID row) with (u_ID u). unfold Users.Update.
  destruct (user_cases d s (u_ID u) H) as [[-> ->]|(v & cur & Hv & Hcur & Hc)]; [by apply access_alike_err|]. rewrite Hv, Hcur.
  destruct (Hsame v Hv) as [Hsec Hsub]. destruct (ct_user d (mo_constraints d s H) _ cur Hcur) as (Hid & _ & Hex).
  assert (Hm : user_core (merge_user row cur) = user_core u).
  { destruct Hsec as (E1 & E2 & E3 & E4 & E5). rewrite <-Hcore. injection Hc as ?????????????.
    unfold merge_user, user_core, with_u_updated, row, with_u_columns. cbn. destruct Hg as (_ & Hw & _). rewrite whole_column by done.
    f_equal; congruence. }
  assert (Hclash : ∀ j w, q_users d !! j = Some w → user_clash (merge_user row cur) (j, w) = false) by (by eapply free_user_rows).
  assert (Hex' : subscription_exists d (u_SubscriptionID (merge_user row cur)) = true).
  { change (u_SubscriptionID (merge_user row cur)) with (u_SubscriptionID u). rewrite Hsub. injection Hc as ?????????????. congruence. }
  rewrite (put_user_ok (merge_user row cur) d Hchk Hclash Hex'). unfold mret, M_ret. apply access_alike_ok; [done|].
  replace (u_ID u) with (u_ID (merge_user row cur)) at 2 by exact Hid.
  replace (u_ID (merge_user row cur)) with (u_ID u) by (by rewrite <-Hid).
  apply models_put_user; [done|done|]. rewrite <-Hid. by apply (constraints_put_user (merge_user row cur)); [apply H|..].
Qed.
Lemma range_cores {V W} (f : V → W) (m m' : gmap string V) : f <$> m = f <$> m' → prod_map id f <$> range m ≡ₚ prod_map id f <$> range m'.
Proof. intros Heq. by rewrite !range_perm, <-!map_to_list_fmap, Heq. Qed.
Lemma sim_AllActiveIDs d s : models d s → simulates OAllActiveIDs d s.
Proof.
  intros H. apply access_simulates. unfold PgAllActiveIDs. rewrite steady_wrapping, steady_pool. apply access_alike_ok; [|done]. cbn.
  assert (Hf : ∀ l : list (string * User), (filter (λ kv : string * User, u_Status kv.2 = UserStatusActive) l).*1 =
    (filter (λ kv : string * User, u_Status kv.2 = UserStatusActive) (prod_map id user_core <$> l)).*1).
  { induction l as [|[k v] l IH]; [done|]. rewrite fmap_cons, !filter_cons. cbn. destruct (decide (u_Status v = UserStatusActive)); cbn; by rewrite IH. }
  assert (Hr : (rows (λ _ u, bool_decide (u_Status u = UserStatusActive)) (q_users d)) = filter (λ kv : string * User, u_Status kv.2 = UserStatusActive) (range (q_users d))).
  { apply list_filter_iff. intros kv. apply bool_decide_eq_true. }
  rewrite Hr, (Hf (range (q_users d))), (Hf (range (c_users s))). by rewrite (range_cores user_core _ _ (mo_users d s H)).
Qed.

(** *** Subscriptions *)
Lemma sub_cases d s id : models d s → (c_subs s !! id = None ∧ q_subs d !! id = None) ∨
  ∃ sub r, c_subs s !! id = Some sub ∧ q_subs d !! id = Some r ∧ sub_core sub = sub_core (sr_subscription r).
Proof.
  intros H. assert (Hl : sub_core <$> c_subs s !! id = (λ r, sub_core (sr_subscription r)) <$> q_subs d !! id) by (by rewrite <-!lookup_fmap, (mo_subs d s H)).
  destruct (c_subs s !! id) as [sub|], (q_subs d !! id) as [r|]; try done; [right|by left].
  exists sub, r. split_and!; [done..|]. by apply (inj Some).
Qed.
(** A row of subscriptions is written: in memory the entry, its hash and its fingerprint. *)
Lemma models_put_sub d s s' id sub r : models d s → constraints (on_subs <[id := r]> d) →
  c_users s' = c_users s → c_nodes s' = c_nodes s → c_delivery s' = c_delivery s →
  c_subs s' = <[id := sub]> (c_subs s) → sub_core sub = sub_core (sr_subscription r) →
  (∀ j, j ≠ id → c_hashes s' !! j = c_hashes s !! j ∧ c_billingHashes s' !! j = c_billingHashes s !! j) →
  (∀ h, digest h → default "" (c_hashes s' !! id) = h ↔ sr_token_hash r = h) →
  default "" (c_billingHashes s' !! id) = sr_billing_state_hash r →
  models (on_subs <[id := r]> d) s'.
Proof.
  intros [] Hct Hu Hn Hd Hsub Hcore Hother Hhash Hfp. split; cbn; rewrite ?Hu, ?Hn, ?Hd; try done.
  - by rewrite Hsub, !fmap_insert, Hcore, mo_subs0.
  - intros j r' h [[<- <-]|[Hne Hr]]%lookup_insert_Some Hh; [by apply Hhash|]. destruct (Hother j (not_eq_sym Hne)) as [-> _]. by apply mo_hashes0.
  - intros j. destruct (decide (id = j)) as [<-|Hne]; [by rewrite lookup_insert_eq|]. rewrite lookup_insert_ne by done.
    destruct (Hother j (not_eq_sym Hne)) as [_ ->]. apply mo_fingerprints0.
Qed.
Lemma row_by_id_eq id d : canonical id → row_by_id id d = (match q_subs d !! id with Some r => Ok r | None => Err ErrNoRows end, d).
Proof. intros H. unfold row_by_id, mbind, M_bind. rewrite (uuid_ok id d H). unfold query_row. by destruct (q_subs d !! id). Qed.
Lemma sub_get_eq (q : querier) id d : (∀ A (st : M CpDb A), steady (q A st) d = st d) → canonical id →
  steady (sub_get q id) d = (match q_subs d !! id with Some r => Ok (sr_subscription r) | None => Err ErrNotFound end, d).
Proof.
  intros Hq H. unfold sub_get. rewrite steady_on_error, Hq. unfold mbind, M_bind. rewrite (row_by_id_eq id d H). by destruct (q_subs d !! id).
Qed.
Lemma sub_get_tx id d : canonical id → steady (sub_get tx id) d = (match q_subs d !! id with Some r => Ok (sr_subscription r) | None => Err ErrNotFound end, d).
Proof. apply sub_get_eq. intros A st. apply steady_in_tx. Qed.
Lemma tx_ok_sub_get id : tx_ok (sub_get tx id).
Proof. unfold sub_get, tx. tx_tac. Qed.
Lemma sim_SubGet id d s : models d s → canonical id → simulates (OSubGet id) d s.
Proof.
  intros H Hid. apply access_simulates. unfold PgSubGet. rewrite sub_get_eq by (done || (intros; apply steady_pool)). unfold Subscriptions.Get.
  destruct (sub_cases d s id H) as [[-> ->]|(sub & r & -> & -> & Hc)]; [by apply access_alike_err|by apply access_alike_ok].
Qed.
(** A row whose token stays, or is replaced by a free one *)
Definition keeps_unique (d : CpDb) (id : string) (r : sub_row) : Prop := ∀ j r', q_subs d !! j = Some r' → hash_clash id r (j, r') = false.
Lemma unique_same d id r r' : constraints d → q_subs d !! id = Some r → sr_token_hash r' = sr_token_hash r → keeps_unique d id r'.
Proof. intros H Hr Hh j r2 Hj. unfold hash_clash. rewrite Hh. by apply (ct_sub_unique d H id j). Qed.
Lemma unique_free d id r : free_hash d id (sr_token_hash r) → keeps_unique d id r.
Proof.
  intros H j r' Hj. unfold hash_clash. cbn. destruct (decide (j = id)) as [->|Hne]; [by rewrite bool_decide_eq_true_2|].
  rewrite (bool_decide_eq_false_2 (sr_token_hash r' = _)); [by rewrite andb_false_r|]. intros Heq. by apply Hne, (H j r').
Qed.
Lemma update_sub_eq id w set d : canonical id →
  (∀ r, q_subs d !! id = Some r → w r = true → sub_checks (sr_subscription (set r)) = true ∧ keeps_unique d id (set r)) →
  update_sub id w set d = match q_subs d !! id with Some r => if w r then (Ok 1, on_subs <[id := set r]> d) else (Ok 0, d) | None => (Ok 0, d) end.
Proof.
  intros Hid Hok. unfold update_sub, mbind, M_bind. rewrite (uuid_ok id d Hid). unfold gets. destruct (q_subs d !! id) as [r|] eqn:Hr; [|done].
  destruct (w r) eqn:Hw; [|done]. destruct (Hok r eq_refl Hw) as [Hc Hu]. by rewrite (put_sub_ok id (set r) d Hc Hu).
Qed.
(** The row of an existing subscription is rewritten. *)
Lemma constraints_rewrite d id r r' : constraints d → q_subs d !! id = Some r → s_ID (sr_subscription r') = s_ID (sr_subscription r) →
  s_Token (sr_subscription r') = "" → sub_checks (sr_subscription r') = true → keeps_unique d id r' → constraints (on_subs <[id := r']> d).
Proof.
  intros H Hr Hid Htok Hc Hu. apply constraints_put_sub; try done. rewrite Hid. by destruct (ct_sub d H id r Hr) as [-> _].
Qed.
Lemma steady_tx_bind {A B} (st : M CpDb A) (f : A → M (Session CpDb) B) d :
  steady (tx A st ≫= f) d = match st d with (Ok a, d') => steady (f a) d' | (Err e, d') => (Err e, d') end.
Proof. apply steady_in_tx_bind. Qed.
Lemma steady_tx_error_bind {A B} g (st : M CpDb A) (f : A → M (Session CpDb) B) d : (∀ e, gave_up e = true → gave_up (g e) = true) →
  steady (on_error g (tx A st) ≫= f) d = match st d with (Ok a, d') => steady (f a) d' | (Err e, d') => (Err (g e), d') end.
Proof.
  intros Hg. rewrite steady_bind by (apply tx_ok_on_error; [done|apply tx_ok_in_tx]). rewrite steady_on_error. unfold tx. rewrite steady_in_tx.
  by destruct (st d) as [[a|e] d'].
Qed.
Lemma steady_ret {A} (a : A) (d : CpDb) : steady (mret a) d = (Ok a, d).
Proof. done. Qed.
Lemma steady_fail {A} e (d : CpDb) : steady (fail e : M (Session CpDb) A) d = (Err e, d).
Proof. done. Qed.
Lemma steady_affected {B} tag (f : unit → M (Session CpDb) B) d :
  steady (affected_one tag ≫= f) d = if tag =? 0 then (Err ErrNotFound, d) else steady (f tt) d.
Proof. unfold affected_one. by destruct (tag =? 0). Qed.
Lemma tx_ok_affected tag : tx_ok (affected_one tag).
Proof. unfold affected_one. tx_tac. Qed.
Lemma sub_core_checks a b : sub_core a = sub_core b → sub_checks a = sub_checks b.
Proof. intros Hc. destruct a, b. by injection Hc as -> -> -> -> -> -> -> -> -> -> -> -> ->. Qed.
Lemma link_sub_get id d : ss_link (sub_get pool id (mkSession d [])).2 = [].
Proof. apply link_on_error, link_autocommit. Qed.
Lemma sim_SubUpdate sub d s : models d s → respects (OSubUpdate sub) d s → simulates (OSubUpdate sub) d s.
Proof.
  intros H (Hid & Hw & Hcur). apply access_simulates. unfold PgSubUpdate, pool. rewrite steady_wrapping_bind.
  assert (Hget : ∀ A (st : M CpDb A), steady (pool A st) d = st d) by (intros; apply steady_pool).
  unfold Subscriptions.Update. destruct (sub_cases d s (s_ID sub) H) as [[Hn Hn']|(cur & r & Hn & Hr & Hc)]; rewrite Hn.
  { rewrite update_sub_eq; [|done|by intros r Hr; rewrite Hn' in Hr]. rewrite Hn'. cbn [Z.eqb]. unfold PgSubGet.
    rewrite steady_bind_link by apply link_sub_get. rewrite (sub_get_eq pool (s_ID sub) d Hget Hid), Hn'. by apply access_alike_err. }
  destruct (Hcur cur Hn) as [Hsub Hgrace]. pose proof (mo_constraints d s H) as Hct. destruct (ct_sub d Hct _ r Hr) as (Hkey & Htok & Hchk).
  assert (Hrev : s_BillingRevision (sr_subscription r) = s_BillingRevision cur ∧ s_GraceUntil (sr_subscription r) = s_GraceUntil cur) by (by injection Hc).
  destruct Hrev as [Hrev Hgr]. set (r' := set_period (s_Status sub) (s_ExpiresAt sub) (s_UpdatedAt sub) r).
  assert (Hr' : (s_BillingRevision (sr_subscription r) =? 0) = true → sub_checks (sr_subscription r') = true ∧ keeps_unique d (s_ID sub) r').
  { intros Hz%Z.eqb_eq. split; [|by eapply unique_same]. unfold sub_checks, valid_grace in *. cbn. rewrite Hgr, Hgrace in * by lia. done. }
  rewrite update_sub_eq; [|done|by intros r0 Hr0; rewrite Hr in Hr0; injection Hr0 as <-]. rewrite Hr. rewrite Hrev in *.
  assert (Hnn : 0 <= s_BillingRevision cur) by (unfold sub_checks in Hchk; lia).
  destruct (Z.ltb_spec 0 (s_BillingRevision cur)) as [Hpos|Hzero].
  - rewrite (proj2 (Z.eqb_neq _ 0)) by lia. cbn [Z.eqb]. unfold PgSubGet.
    rewrite steady_bind_link by apply link_sub_get. rewrite (sub_get_eq pool (s_ID sub) d Hget Hid), Hr. by apply access_alike_err.
  - rewrite (proj2 (Z.eqb_eq _ 0)) in * by lia. destruct (Hr' eq_refl) as [Hchk' Hu]. apply access_alike_ok; [done|].
    eapply (models_put_sub d s _ (s_ID sub) (with_s_Token "" sub) r'); try done.
    + by eapply constraints_rewrite.
    + rewrite Hsub. unfold r', set_period, sub_core, with_s_updated, with_s_period, with_s_row. cbn. rewrite whole_ptr_column by done.
      destruct cur, (sr_subscription r). cbn in *. injection Hc as -> -> -> -> -> -> -> -> -> -> -> -> ->. by subst.
    + intros h Hh. by apply (mo_hashes d s H _ r).
    + by rewrite (mo_fingerprints d s H), Hr.
Qed.
Lemma models_delivery d s f : models d s → models (on_delivery f d) (set_delivery f s).
Proof. intros []. split; try done; [destruct mo_constraints0; by split|]. cbn. by f_equal. Qed.
Lemma sim_UpdateTokenHash now id h p d s : models d s → respects (OUpdateTokenHash now id h p) d s → simulates (OUpdateTokenHash now id h p) d s.
Proof.
  intros H [Hid Hfree]. apply access_simulates. unfold PgUpdateTokenHash.
  rewrite steady_withTx by (unfold tx; tx_tac; apply tx_ok_affected). rewrite steady_tx_bind. pose proof (mo_constraints d s H) as Hct.
  unfold Subscriptions.UpdateTokenHash. destruct (sub_cases d s id H) as [[-> Hn']|(cur & r & Hn & Hr & Hc)].
  { rewrite update_sub_eq, Hn'; [|done|by intros r Hr; rewrite Hn' in Hr]. rewrite steady_affected. by apply access_alike_err. }
  destruct (ct_sub d Hct _ r Hr) as (Hkey & Htok & Hchk). set (r' := set_hash now h p r).
  assert (Hu : keeps_unique d id r') by (by apply unique_free). rewrite Hn.
  rewrite update_sub_eq; [|done|by intros r0 Hr0; rewrite Hr in Hr0; injection Hr0 as <-]. rewrite Hr, steady_affected. cbn [Z.eqb].
  unfold tx. rewrite steady_in_tx. unfold delete_token, mbind, M_bind. rewrite uuid_ok by done. unfold modify.
  apply access_alike_ok; [done|]. apply (models_delivery _ _ (delete id)).
  eapply (models_put_sub d s _ id cur r'); try done.
  - by eapply constraints_rewrite.
  - cbn. by rewrite insert_id.
  - intros j Hj. cbn. by rewrite lookup_insert_ne.
  - intros h' Hh. cbn. by rewrite lookup_insert_eq.
  - cbn. by rewrite (mo_fingerprints d s H), Hr.
Qed.
Lemma sim_CancelSubscription now id d s : models d s → canonical id → simulates (OCancelSubscription now id) d s.
Proof.
  intros H Hid. apply access_simulates. unfold PgCancelSubscription.
  rewrite steady_withTx by (unfold tx; tx_tac; apply tx_ok_affected). rewrite steady_tx_bind. pose proof (mo_constraints d s H) as Hct.
  unfold Subscriptions.CancelSubscription. destruct (sub_cases d s id H) as [[-> Hn']|(cur & r & Hn & Hr & Hc)].
  { rewrite update_sub_eq, Hn'; [|done|by intros r Hr; rewrite Hn' in Hr]. rewrite steady_affected. by apply access_alike_err. }
  destruct (ct_sub d Hct _ r Hr) as (Hkey & Htok & Hchk). set (r' := set_canceled now r).
  assert (Hu : keeps_unique d id r') by (by eapply unique_same). rewrite Hn.
  rewrite update_sub_eq; [|done|by intros r0 Hr0; rewrite Hr in Hr0; injection Hr0 as <-]. rewrite Hr, steady_affected. cbn [Z.eqb].
  rewrite sub_get_tx by done. cbn. rewrite lookup_insert_eq.
  assert (Hcore : sub_core (with_s_period SubscriptionStatusCanceled (s_ExpiresAt cur) now cur) = sub_core (sr_subscription r')).
  { unfold r', set_canceled, with_s_row, with_s_period. destruct cur, (sr_subscription r). by injection Hc as -> -> -> -> -> -> -> -> -> -> -> -> ->. }
  apply access_alike_ok; [done|]. eapply (models_put_sub d s); try done.
  - by eapply constraints_rewrite.
  - intros h' Hh. by apply (mo_hashes d s H _ r).
  - cbn. by rewrite (mo_fingerprints d s H), Hr.
Qed.
Lemma sim_EnsureDeliveryToken id candidate d s : models d s → respects (OEnsureDeliveryToken id candidate) d s → simulates (OEnsureDeliveryToken id candidate) d s.
Proof.
  intros H [Hid Hfree]. apply access_simulates. unfold PgEnsureDeliveryToken. rewrite steady_withTx by (unfold tx; tx_tac).
  rewrite steady_tx_error_bind by apply gave_up_absent. rewrite row_by_id_eq by done. unfold Subscriptions.EnsureDeliveryToken.
  destruct (sub_cases d s id H) as [[-> ->]|(cur & r & -> & Hr & Hc)]; [by apply access_alike_err|]. rewrite Hr, steady_tx_bind.
  unfold insert_token, mbind at 1, M_bind at 1. rewrite uuid_ok by done. rewrite (mo_delivery d s H).
  destruct (q_delivery d !! id) as [t|] eqn:Ht.
  - unfold tx. rewrite steady_in_tx. unfold mbind, M_bind. rewrite uuid_ok by done. unfold query_row. rewrite Ht. by apply access_alike_ok.
  - rewrite (proj2 (existsb_range_false _ _)) by (intros j t Hj; apply bool_decide_eq_false_2; by apply (Hfree j)).
    rewrite Hr. cbn [is_set]. unfold tx. rewrite steady_in_tx. unfold mbind, M_bind. rewrite uuid_ok by done. unfold query_row. cbn.
    rewrite lookup_insert_eq. apply access_alike_ok; [done|]. by apply (models_delivery d s <[id := candidate]>).
Qed.
Lemma same_revision_agrees d s id sub r state : models d s → q_subs d !! id = Some r → sub_core sub = sub_core (sr_subscription r) →
  same_revision (sr_billing_state_hash r) (BillingFingerprint state (s_Plan (sr_subscription r))) (sr_subscription r) state =
  Subscriptions.same_revision_conflict s id sub state.
Proof.
  intros H Hr Hc. unfold same_revision, Subscriptions.same_revision_conflict. rewrite (mo_fingerprints d s H), Hr. cbn [fmap option_fmap option_map default].
  injection Hc as _ _ Hplan Hstatus _ _ _ _ Hgrace _ _ Hexp _. rewrite Hplan, Hstatus, Hgrace, Hexp.
  rewrite (bool_decide_ext (bs_Status state = s_Status (sr_subscription r)) (s_Status (sr_subscription r) = bs_Status state)) by done. unfold TEqual.
  destruct (s_ExpiresAt (sr_subscription r)), (s_GraceUntil (sr_subscription r));
    rewrite ?(Z.eqb_sym (bs_ExpiresAt state)), ?(Z.eqb_sym (bs_GraceUntil state)); done.
Qed.
(** What the limits of a plan leave stays within the columns. *)
Definition fits_columns (s : Subscription) : Prop := fits4 (s_SpeedLimitMbps s) ∧ fits4 (s_DeviceLimit s) ∧ fits8 (s_TrafficLimitBytes s).
Lemma ApplyPlanLimits_fits s plan : fits_columns s → fits_columns (ApplyPlanLimits s plan).
Proof. unfold fits_columns, ApplyPlanLimits, fits4, fits8. intros (? & ? & ?). repeat case_bool_decide; cbn; lia. Qed.
Definition limited (state : BillingState) (s : Subscription) : Subscription :=
  if bool_decide (bs_Plan state = "") then s else ApplyPlanLimits s (bs_Plan state).
Lemma billing_row_core now state sub r incoming : sub_core sub = sub_core (sr_subscription r) → whole (bs_ExpiresAt state) → whole (bs_GraceUntil state) →
  fits_columns (limited state (sr_subscription r)) →
  sub_core (with_s_billing state now (limited state sub)) = sub_core (sr_subscription (billing_columns now state (limited state (sr_subscription r)) incoming r)).
Proof.
  intros Hc He Hg (_ & _ & Hf). unfold billing_columns. rewrite wrap64_fits, !whole_column by done. clear Hf.
  destruct sub, (sr_subscription r). injection Hc as -> -> -> -> -> -> -> -> -> -> -> -> ->.
  unfold limited, ApplyPlanLimits. repeat case_bool_decide; reflexivity.
Qed.
Lemma sim_ApplyBillingState now id state d s : models d s → respects (OApplyBillingState now id state) d s → simulates (OApplyBillingState now id state) d s.
Proof.
  intros H (Hid & He & Hg & Hle & Hfit). apply access_simulates. unfold PgApplyBillingState. rewrite steady_withTx by (unfold tx; tx_tac).
  rewrite steady_tx_error_bind by apply gave_up_absent. unfold mbind at 1, M_bind at 1. rewrite row_by_id_eq by done. pose proof (mo_constraints d s H) as Hct.
  unfold Subscriptions.ApplyBillingState. destruct (sub_cases d s id H) as [[-> ->]|(sub & r & Hn & Hr & Hc)]; [by apply access_alike_err|]. rewrite Hr, Hn.
  destruct (ct_sub d Hct _ r Hr) as (Hkey & Htok & Hchk). unfold mret at 1, M_ret at 1.
  rewrite steady_bind by apply tx_ok_sub_get. rewrite sub_get_tx, Hr by done. cbv zeta.
  rewrite (same_revision_agrees d s id sub r state H Hr Hc).
  assert (Hrev : s_BillingRevision (sr_subscription r) = s_BillingRevision sub) by (by injection Hc). rewrite Hrev. rewrite (Z.eqb_sym (bs_Revision state)).
  destruct (Z.eqb_spec (s_BillingRevision sub) (bs_Revision state)) as [Heq|Hne]; cbn [andb].
  { destruct (Subscriptions.same_revision_conflict s id sub state); [by apply access_alike_err|]. rewrite Heq, Z.ltb_irrefl.
    change (steady (mret () ≫= _) d) with (steady (sub_get tx id) d). rewrite sub_get_tx, Hr by done. by apply access_alike_ok. }
  destruct (Z.ltb_spec (s_BillingRevision sub) (bs_Revision state)) as [Hlt|Hge].
  2: { change (steady (mret () ≫= _) d) with (steady (sub_get tx id) d). rewrite sub_get_tx, Hr by done. by apply access_alike_ok. }
  change (if bool_decide (bs_Plan state = "") then sub else ApplyPlanLimits sub (bs_Plan state)) with (limited state sub).
  change (if bool_decide (bs_Plan state = "") then sr_subscription r else ApplyPlanLimits (sr_subscription r) (bs_Plan state)) with (limited state (sr_subscription r)).
  set (incoming := BillingFingerprint state (s_Plan (sr_subscription r))).
  assert (Hfits : fits_columns (limited state (sr_subscription r))).
  { destruct (Hfit sub Hn) as (H1 & H2 & H3). assert (fits_columns (sr_subscription r)) by (injection Hc as ?????????????; unfold fits_columns; split_and!; congruence).
    unfold limited. case_bool_decide; [done|by apply ApplyPlanLimits_fits]. }
  set (r' := billing_columns now state (limited state (sr_subscription r)) incoming r).
  assert (Hr' : sub_checks (sr_subscription r') = true ∧ keeps_unique d id r').
  { destruct Hfits as (H1 & H2 & H3). split; [|by eapply unique_same]. unfold r', billing_columns, sub_checks, valid_grace. cbn.
    rewrite wrap64_fits, !whole_column by done. unfold fits4, fits8 in *. unfold sub_checks in Hchk. lia. }
  assert (Hst : steady (tx _ (int4 (s_SpeedLimitMbps (limited state (sr_subscription r))) ;;! int4 (s_DeviceLimit (limited state (sr_subscription r))) ;;!
      update_sub id (λ _, true) (billing_columns now state (limited state (sr_subscription r)) incoming)) ;;! mret tt) d = (Ok tt, on_subs <[id := r']> d)).
  { rewrite steady_tx_bind. destruct Hfits as (H1 & H2 & _). unfold mbind, M_bind. rewrite !int4_ok by done.
    rewrite update_sub_eq, Hr; [done|done|]. intros r0 Hr0. rewrite Hr in Hr0. by injection Hr0 as <-. }
  rewrite steady_bind by (unfold tx; tx_tac). rewrite Hst, sub_get_tx by done. cbn [on_subs q_subs]. rewrite lookup_insert_eq.
  assert (Hcore : sub_core (with_s_billing state now (limited state sub)) = sub_core (sr_subscription r')) by (by apply billing_row_core).
  apply access_alike_ok; [done|]. eapply (models_put_sub d s); try done.
  - by apply (constraints_rewrite d id r r'); destruct Hr'.
  - intros j Hj. cbn. by rewrite lookup_insert_ne.
  - intros h' Hh. by apply (mo_hashes d s H _ r).
  - cbn. rewrite lookup_insert_eq. unfold incoming. cbn. f_equal. by injection Hc.
Qed.
Lemma insert_sub_eq sub h p d : good_sub sub → q_subs d !! s_ID sub = None → is_Some (q_users d !! s_UserID sub) → free_hash d (s_ID sub) h →
  let row := {| sr_subscription := with_s_columns (s_ID sub) (s_UserID sub) sub; sr_token_hash := h; sr_token_prefix := p; sr_billing_state_hash := "" |} in
  sub_checks (sr_subscription row) = true ∧ keeps_unique d (s_ID sub) row ∧ insert_sub sub h p d = (Ok tt, on_subs <[s_ID sub := row]> d).
Proof.
  intros (Hid & Huid & _ & _ & _ & Htr & Hsp & Hdev & Hgr & Hrev) Hn [u Hu] Hfree row.
  assert (Hc : sub_checks (sr_subscription row) = true).
  { unfold row, sub_checks, valid_grace, with_s_columns. cbn. rewrite wrap64_fits by done. unfold fits4, fits8 in *. lia. }
  assert (Hk : keeps_unique d (s_ID sub) row) by (by apply unique_free). split_and!; [done..|].
  unfold insert_sub, statement, mbind, M_bind. rewrite !uuid_ok, !int4_ok by done. unfold gets, require. rewrite Hn. cbn [is_set negb].
  unfold mret, M_ret. fold row. rewrite (put_sub_ok _ row d Hc Hk). by rewrite Hu.
Qed.
Lemma good_sub_core sub : good_sub sub → sub_core (with_s_Token "" sub) = sub_core (with_s_columns (s_ID sub) (s_UserID sub) sub).
Proof.
  intros (_ & _ & Hst & He & Hcr & Htr & _ & _ & Hgr & Hrev). unfold with_s_columns. rewrite wrap64_fits, !whole_column, whole_ptr_column by done.
  destruct sub. cbn in *. by subst.
Qed.
Lemma sim_CreateAndLink sub h p user d s : models d s → respects (OCreateAndLink sub h p user) d s → simulates (OCreateAndLink sub h p user) d s.
Proof.
  intros H (Hg & Huser & Hn & Hfree). apply access_simulates. unfold PgCreateAndLink, subscriptionCreateAndLink. subst user.
  rewrite steady_withTx by (unfold tx; tx_tac; apply tx_ok_affected). rewrite steady_tx_error_bind by apply gave_up_scanned.
  assert (Hids : canonical (s_UserID sub) ∧ canonical (s_ID sub)) by (split; apply Hg). destruct Hids as [Hcu Hcs].
  unfold lock_subscription_of, mbind at 1, M_bind at 1. rewrite user_by_id_eq by done. unfold Subscriptions.CreateAndLink.
  destruct (user_cases d s (s_UserID sub) H) as [[-> ->]|(u & u' & -> & Hu' & Hc)]; [by apply access_alike_err|]. rewrite Hu'. unfold mret at 1, M_ret at 1.
  assert (Hlink : u_SubscriptionID u' = u_SubscriptionID u) by (by injection Hc). rewrite Hlink. destruct (ptr_set (u_SubscriptionID u)); [by apply access_alike_err|].
  assert (Hn' : q_subs d !! s_ID sub = None) by (destruct (sub_cases d s (s_ID sub) H) as [[_ ?]|(? & ? & ? & _)]; [done|congruence]).
  destruct (insert_sub_eq sub h p d Hg Hn' ltac:(by rewrite Hu') Hfree) as (Hchk & Hk & Hins).
  set (row := {| sr_subscription := with_s_columns (s_ID sub) (s_UserID sub) sub; sr_token_hash := h; sr_token_prefix := p; sr_billing_state_hash := "" |}) in *.
  rewrite steady_tx_error_bind by apply gave_up_taken. rewrite Hins. pose proof (mo_constraints d s H) as Hct.
  assert (Hct1 : constraints (on_subs <[s_ID sub := row]> d)) by (by apply constraints_put_sub).
  set (u1 := with_u_link (s_ID sub) (timestamptz (s_UpdatedAt sub)) u').
  assert (Hput : put_user u1 (on_subs <[s_ID sub := row]> d) = (Ok tt, on_users <[u_ID u1 := u1]> (on_subs <[s_ID sub := row]> d)) ∧
    constraints (on_users <[u_ID u1 := u1]> (on_subs <[s_ID sub := row]> d)) ∧ u_ID u1 = s_UserID sub).
  { destruct (ct_user d Hct _ u' Hu') as (Hid & Hck & _).
    assert (Hcl : ∀ j v, q_users (on_subs <[s_ID sub := row]> d) !! j = Some v → user_clash u1 (j, v) = false) by (intros j v; apply (ct_user_unique d Hct _ j u' v Hu')).
    assert (Hex : subscription_exists (on_subs <[s_ID sub := row]> d) (u_SubscriptionID u1) = true) by (cbn; by rewrite lookup_insert_eq).
    split_and!; [by apply put_user_ok|by apply constraints_put_user|done]. }
  destruct Hput as (Hput & Hct2 & Hid1).
  rewrite steady_bind by (unfold tx; tx_tac). rewrite steady_wrapping. unfold tx. rewrite steady_in_tx. unfold link_user, mbind at 1 2 3, M_bind at 1 2 3.
  rewrite !uuid_ok by done. unfold gets. change (q_users (on_subs <[s_ID sub := row]> d)) with (q_users d). rewrite Hu'. fold u1.
  unfold mbind, M_bind. rewrite Hput. unfold mret, M_ret. cbn [affected_one Z.eqb]. change (steady (affected_one 1) ?x) with (Ok tt, x).
  apply access_alike_ok; [done|]. rewrite Hid1. rewrite Hid1 in Hct2.
  apply (models_put_user (on_subs <[s_ID sub := row]> d) (set_hashes <[s_ID sub := h]> (set_subs <[s_ID sub := with_s_Token "" sub]> s)) (s_UserID sub)
    (with_u_link (s_ID sub) (s_UpdatedAt sub) u) u1); [|by destruct u, u'; injection Hc as -> -> -> -> -> -> -> -> -> -> -> -> ->|done].
  eapply (models_put_sub d s); try done.
  - by apply good_sub_core.
  - intros j Hj. cbn. by rewrite lookup_insert_ne.
  - intros h' Hh. cbn. by rewrite lookup_insert_eq.
  - cbn. by rewrite (mo_fingerprints d s H), Hn'.
Qed.
(** *** The secrets of a user *)
Lemma revoked_not_digest x h : digest h → "revoked:" +:+ x ≠ h.
Proof. intros (b & Hd & _) <-. by rewrite hex_decode_revoked in Hd. Qed.
(** The rows of the user carry hashes that no token has. *)
Definition revoked_rows (stamp : string → string) (user : string) (d : CpDb) : CpDb := (revoke_rows stamp user d).2.
Lemma lookup_revoked stamp user d id : q_subs (revoked_rows stamp user d) !! id =
  (λ r, if of_user user id r then with_s_hash (revoked_hash id (stamp id)) (sr_token_prefix r) (sr_subscription r) r else r) <$> q_subs d !! id.
Proof. unfold revoked_rows, revoke_rows, modify. cbn. rewrite map_lookup_imap. by destruct (q_subs d !! id). Qed.
Lemma constraints_revoked stamp user d : constraints d → (∀ i j, revoked_hash i (stamp i) = revoked_hash j (stamp j) → i = j) →
  (∀ i, free_hash d i (revoked_hash i (stamp i))) → constraints (revoked_rows stamp user d).
Proof.
  intros [H1 H2 H3 H4] Hinj Hfree. split; [|done| |].
  - intros i u Hi. destruct (H1 i u Hi) as (? & ? & Hs). split_and!; [done..|]. unfold subscription_exists in *.
    destruct (u_SubscriptionID u) as [sid|]; [|done]. rewrite lookup_revoked. by destruct (q_subs d !! sid).
  - intros i r. rewrite lookup_revoked. intros (r0 & Hr0 & ->)%fmap_Some. destruct (H3 i r0 Hr0) as (? & ? & ?). by destruct (of_user user i r0).
  - intros i j r r'. rewrite !lookup_revoked. intros (r0 & Hr0 & ->)%fmap_Some (r1 & Hr1 & ->)%fmap_Some.
    pose proof (H4 i j r0 r1 Hr0 Hr1) as Hc. unfold hash_clash in *. cbn in *. destruct (decide (j = i)) as [->|Hne]; [by rewrite bool_decide_eq_true_2|].
    rewrite (bool_decide_eq_false_2 (j = i)) in * by done. cbn in *. apply bool_decide_eq_false in Hc. apply bool_decide_eq_false_2.
    destruct (of_user user i r0), (of_user user j r1); cbn; [|intros Heq|intros Heq|done].
    + intros Heq. by apply Hne, Hinj.
    + by apply Hne, (Hfree i j r1).
    + by apply Hne, eq_sym, (Hfree j i r0).
Qed.
Lemma of_user_models d s id sub r : models d s → c_subs s !! id = Some sub → q_subs d !! id = Some r → s_UserID sub = s_UserID (sr_subscription r).
Proof.
  intros H Hs Hr. destruct (sub_cases d s id H) as [[? _]|(sub' & r' & Hs' & Hr' & Hc)]; [congruence|].
  assert (s_UserID sub' = s_UserID (sr_subscription r')) by (by injection Hc). congruence.
Qed.
Lemma models_revoked d s stamp user hy2 : models d s → (∀ i j, revoked_hash i (stamp i) = revoked_hash j (stamp j) → i = j) →
  (∀ i, free_hash d i (revoked_hash i (stamp i))) →
  models ((delete_tokens user (revoked_rows stamp user d)).2) (Users.revoke_hashes user hy2 s).
Proof.
  intros H Hinj Hfree. pose proof (constraints_revoked stamp user d (mo_constraints d s H) Hinj Hfree) as Hct. pose proof H as [_ Hu Hsub Hh Hfp Hdel Hn Ht].
  assert (Hmine : ∀ k, k ∈ (filter (λ kv : string * Subscription, s_UserID kv.2 = user) (range (c_subs s))).*1 ↔ ∃ r, q_subs d !! k = Some r ∧ of_user user k r = true).
  { intros k. rewrite list_elem_of_fmap. split.
    - intros ([k' sub] & -> & [Hus Hin]%list_elem_of_filter). cbn in *. apply elem_of_range in Hin.
      destruct (sub_cases d s k' H) as [[? _]|(sub' & r & Hs' & Hr & _)]; [congruence|]. exists r. split; [done|]. apply bool_decide_eq_true.
      by rewrite <-(of_user_models d s k' sub r H Hin Hr).
    - intros (r & Hr & Ho). apply bool_decide_eq_true in Ho. destruct (sub_cases d s k H) as [[_ ?]|(sub & r' & Hs & Hr' & _)]; [congruence|].
      exists (k, sub). split; [done|]. apply list_elem_of_filter. split; [|by apply elem_of_range]. cbn. by rewrite (of_user_models d s k sub r H Hs Hr). }
  split; try done.
  - destruct Hct. by split.
  - cbn. rewrite Hsub. apply map_eq. intros i. rewrite !lookup_fmap. change (map_imap _ (q_subs d) !! i) with (q_subs (revoked_rows stamp user d) !! i).
    rewrite lookup_revoked. destruct (q_subs d !! i) as [r|]; [|done]. cbn. by destruct (of_user user i r).
  - intros i r h. change (q_subs (delete_tokens user (revoked_rows stamp user d)).2) with (q_subs (revoked_rows stamp user d)). rewrite lookup_revoked.
    intros (r0 & Hr0 & ->)%fmap_Some Hdig. unfold Users.revoke_hashes. cbn [c_hashes set_hashes]. rewrite foldl_insert_const. case_decide as Hin.
    + apply Hmine in Hin as (r1 & Hr1 & Ho). assert (r1 = r0) as -> by congruence. rewrite Ho. cbn. split; intros Heq; by apply revoked_not_digest in Heq.
    + destruct (of_user user i r0) eqn:Ho; [exfalso; apply Hin, Hmine; by exists r0|]. by apply Hh.
  - intros i. change (q_subs (delete_tokens user (revoked_rows stamp user d)).2) with (q_subs (revoked_rows stamp user d)). rewrite lookup_revoked.
    unfold Users.revoke_hashes. cbn [c_billingHashes set_hashes set_delivery]. rewrite Hfp. destruct (q_subs d !! i) as [r|]; [|done]. cbn. by destruct (of_user user i r).
  - unfold Users.revoke_hashes. cbn [c_delivery set_hashes set_delivery]. apply map_eq. intros i. rewrite foldl_delete_keys, Hdel.
    unfold delete_tokens, modify. cbn [snd on_delivery q_delivery]. rewrite map_lookup_imap, lookup_revoked. change (q_delivery (revoked_rows stamp user d)) with (q_delivery d).
    case_decide as Hin.
    + apply Hmine in Hin as (r & Hr & Ho). rewrite Hr. destruct (q_delivery d !! i); [|done]. cbn. rewrite Ho. unfold of_user in *. cbn. by rewrite Ho.
    + destruct (q_delivery d !! i) as [t|]; [|done]. cbn. destruct (q_subs d !! i) as [r|] eqn:Hr; [|done]. cbn.
      destruct (of_user user i r) eqn:Ho; [exfalso; apply Hin, Hmine; by exists r|]. by rewrite Ho.
Qed.
Lemma sim_RotateSecrets now stamp hy2 id shortID uuid_ privKey d s : models d s →
  respects (ORotateSecrets now stamp hy2 id shortID uuid_ privKey) d s → simulates (ORotateSecrets now stamp hy2 id shortID uuid_ privKey) d s.
Proof.
  intros H (Hid & Hinj & Hfree & Hfresh). apply access_simulates. unfold PgRotateSecrets. rewrite steady_withTx by (unfold tx; tx_tac).
  rewrite steady_tx_error_bind by apply gave_up_scanned. unfold rotate_secrets_row, mbind at 1, M_bind at 1. rewrite user_by_id_eq by done. unfold Users.RotateSecrets.
  destruct (user_cases d s id H) as [[-> ->]|(u & u' & Hu & Hu' & Hc)]; [by apply access_alike_err|]. rewrite Hu, Hu'. pose proof (mo_constraints d s H) as Hct.
  destruct (ct_user d Hct id u' Hu') as (Hkey & Hchk & Hex). set (w' := with_u_updated now (with_u_secrets shortID uuid_ privKey hy2 u')). cbv zeta.
  set (w := with_u_secrets shortID uuid_ privKey hy2 u).
  assert (Hcl : ∀ j v, q_users d !! j = Some v → user_clash w' (j, v) = false).
  { intros j v Hv. pose proof (ct_user_unique d Hct id j u' v Hu' Hv) as Hno. unfold user_clash in *. cbn in *. rewrite Hkey in *.
    destruct (decide (j = id)) as [->|Hne]; [by rewrite bool_decide_eq_true_2|]. rewrite (bool_decide_eq_false_2 (j = id)) in * by done. cbn in *.
    apply orb_false_iff in Hno as [[[H1 H2]%orb_false_iff _]%orb_false_iff _]. rewrite H1, H2. cbn.
    destruct (user_cases d s j H) as [[_ ?]|(x & x' & Hx & Hx' & Hcx)]; [congruence|]. rewrite Hv in Hx'. injection Hx' as <-.
    destruct (Hfresh j x Hx Hne) as [Hs1 Hs2]. injection Hcx as _ _ _ _ Hrs Huu _ _ _ _ _ _ _. apply orb_false_iff. split; apply bool_decide_eq_false_2; congruence. }
  unfold mbind at 1, M_bind at 1. rewrite (put_user_ok w' d Hchk Hcl Hex). unfold mret at 1, M_ret at 1. set (d1 := on_users <[u_ID w' := w']> d).
  assert (Hd1 : models d1 (set_users <[id := w]> s)).
  { unfold d1. assert (Hw : u_ID w' = id) by exact Hkey. assert (Hcd : constraints (on_users <[u_ID w' := w']> d)) by (by apply constraints_put_user). rewrite Hw in Hcd |- *.
    apply models_put_user; [done| |done]. unfold w, w'. destruct u, u'. by injection Hc as -> -> -> -> -> -> -> -> -> -> -> -> ->. }
  rewrite steady_tx_bind. unfold mbind at 1, M_bind at 1. rewrite uuid_ok by done. unfold revoke_rows, modify.
  rewrite steady_tx_bind. unfold mbind at 1, M_bind at 1. rewrite uuid_ok by done. unfold delete_tokens, modify. rewrite steady_ret.
  apply access_alike_ok; [unfold w, w'; destruct u, u'; by injection Hc as -> -> -> -> -> -> -> -> -> -> -> -> ->|].
  change (set_users <[id := w]> (Users.revoke_hashes id hy2 s)) with (Users.revoke_hashes id hy2 (set_users <[id := w]> s)).
  exact (models_revoked d1 (set_users <[id := w]> s) stamp id hy2 Hd1 Hinj Hfree).
Qed.
(** *** Links and admission *)
Lemma resolves_agree d s hash id sub r : models d s → digest hash → c_subs s !! id = Some sub → q_subs d !! id = Some r →
  Subscriptions.resolves s hash (id, sub) = resolved_by d hash id r.
Proof.
  intros H Hd Hs Hr. unfold Subscriptions.resolves, resolved_by. cbn [fst snd]. f_equal.
  - f_equal; [by apply bool_decide_ext, (mo_hashes d s H id r)|]. rewrite (mo_delivery d s H). destruct (q_delivery d !! id); [done|]. cbn.
    apply bool_decide_eq_false_2. intros <-. destruct Hd as (b & Hb & Hl). by injection Hb as <-.
  - rewrite (of_user_models d s id sub r H Hs Hr). destruct (user_cases d s (s_UserID (sr_subscription r)) H) as [[-> ->]|(u & u' & -> & -> & Hc)]; [done|].
    injection Hc as _ _ _ Hst _ _ _ _ Hsub _ _ _ _. rewrite Hst, Hsub. apply andb_comm.
Qed.
Lemma sim_ResolveTokenHash hash d s : models d s → respects (OResolveTokenHash hash) d s → simulates (OResolveTokenHash hash) d s.
Proof.
  intros H [Hd Huniq]. apply access_simulates. unfold PgResolveTokenHash. rewrite steady_on_error, steady_pool. unfold query_row, Subscriptions.ResolveTokenHash.
  destruct (list_find _ (range (c_subs s))) as [[i [id sub]]|] eqn:Hf.
  - apply list_find_Some in Hf as (Hi & Hres & _). apply list_elem_of_lookup_2, elem_of_range in Hi.
    destruct (sub_cases d s id H) as [[? _]|(sub' & r & Hs & Hr & _)]; [congruence|]. rewrite Hi in Hs. injection Hs as <-.
    pose proof Hres as Hby. rewrite (resolves_agree d s hash id sub r H Hd Hi Hr) in Hby. assert (Hin : (id, r) ∈ rows (resolved_by d hash) (q_subs d)) by (by apply elem_of_rows).
    destruct (rows (resolved_by d hash) (q_subs d)) as [|[j rj] l] eqn:Hrows; [by apply elem_of_nil in Hin|]. cbn.
    assert (Hj : q_subs d !! j = Some rj ∧ resolved_by d hash j rj = true) by (apply elem_of_rows; rewrite Hrows; by left). destruct Hj as [Hj Hbj].
    destruct (sub_cases d s j H) as [[_ ?]|(subj & r2 & Hsj & Hrj & _)]; [congruence|]. assert (r2 = rj) as -> by congruence.
    assert (j = id) as -> by (eapply Huniq; [done..| |done]; by rewrite (resolves_agree d s hash j subj rj)). assert (r = rj) as -> by congruence.
    apply access_alike_ok; [|done]. by rewrite (of_user_models d s id sub rj H Hi Hj).
  - apply list_find_None in Hf. destruct (rows (resolved_by d hash) (q_subs d)) as [|[j rj] l] eqn:Hrows; [by apply access_alike_err|].
    assert (Hj : q_subs d !! j = Some rj ∧ resolved_by d hash j rj = true) by (apply elem_of_rows; rewrite Hrows; by left). destruct Hj as [Hj Hbj].
    destruct (sub_cases d s j H) as [[_ ?]|(subj & r2 & Hsj & Hrj & _)]; [congruence|]. assert (r2 = rj) as -> by congruence. exfalso.
    apply elem_of_range in Hsj as Hin. pose proof (proj1 (Forall_forall _ _) Hf _ Hin) as Hno. apply Hno. by rewrite (resolves_agree d s hash j subj rj).
Qed.
(** What admission makes of a user: the credentials, and the end of the access *)
Definition admission (o : option Subscription) (u : User) : option (AccessUser * option Time) := (λ sub, (credentials u, AccessUntil sub)) <$> o.
Definition mem_admitted (s : Store) (now : Time) : list (AccessUser * option Time) :=
  omap (λ u, admission (AllowList.entitled s now u) u) (range (c_users s)).*2.
Definition pg_admitted (d : CpDb) (now : Time) : list (AccessUser * option Time) :=
  omap (λ u, admission (admitting d now u) u) (sort_slice uuid_order (range (q_users d)).*2).
Lemma admission_core d s now u u' : models d s → user_core u = user_core u' →
  admission (AllowList.entitled s now u) u = admission (admitting d now u') u'.
Proof.
  intros H Hc. unfold AllowList.entitled, admitting.
  assert (Hcr : credentials u = credentials u') by (unfold credentials; destruct u, u'; by injection Hc as -> -> -> -> -> -> -> -> -> -> -> -> ->).
  injection Hc as _ _ _ Hst _ _ _ _ Hsub _ _ _ _. rewrite Hst, Hsub. unfold admission. destruct (u_SubscriptionID u') as [id|]; [|by case_bool_decide]. cbn.
  destruct (sub_cases d s id H) as [[-> ->]|(sub & r & -> & -> & Hcs)]; [by case_bool_decide|]. cbn. rewrite Hcr.
  assert (Hsv : servable (s_Status sub) = servable (s_Status (sr_subscription r)) ∧ lapsed now sub = lapsed now (sr_subscription r) ∧ AccessUntil sub = AccessUntil (sr_subscription r)).
  { destruct sub, (sr_subscription r). by injection Hcs as -> -> -> -> -> -> -> -> -> -> -> -> ->. }
  destruct Hsv as (-> & -> & Hau). case_bool_decide; cbn; [|done]. destruct (servable _ && _); [|done]. cbn. by rewrite Hau.
Qed.
Lemma omap_perm {A B} (f : A → option B) l1 l2 : l1 ≡ₚ l2 → omap f l1 ≡ₚ omap f l2.
Proof.
  induction 1 as [|x l1 l2 _ IH|x y l|l1 l2 l3 _ IH1 _ IH2]; cbn; [done| | |by rewrite IH1].
  - destruct (f x); [by rewrite IH|done].
  - destruct (f x), (f y); try done. apply Permutation_swap.
Qed.
Lemma admitted_agree d s now : models d s → pg_admitted d now ≡ₚ mem_admitted s now.
Proof.
  intros H. unfold pg_admitted, mem_admitted.
  rewrite (omap_perm _ _ _ (sort_slice_perm uuid_order (range (q_users d)).*2)).
  assert (Hl : user_core <$> (range (q_users d)).*2 ≡ₚ user_core <$> (range (c_users s)).*2).
  { pose proof (range_cores user_core _ _ (mo_users d s H)) as Hr. apply (Permutation_map snd) in Hr. symmetry.
    change (map snd (prod_map id user_core <$> range (c_users s)) ≡ₚ map snd (prod_map id user_core <$> range (q_users d))) in Hr.
    assert (He : ∀ l : list (string * User), map snd (prod_map id user_core <$> l) = user_core <$> l.*2) by (induction l as [|[] l IH]; [done|]; cbn; by rewrite IH).
    by rewrite !He in Hr. }
  assert (Hq : ∀ l : list User, omap (λ u, admission (admitting d now u) u) l = omap (λ u, admission (admitting d now u) u) (user_core <$> l)).
  { induction l as [|u l IH]; [done|]. cbn. rewrite IH. by rewrite <-(admission_core d s now u u), (admission_core d s now u (user_core u)). }
  assert (Hm : ∀ l : list User, omap (λ u, admission (AllowList.entitled s now u) u) l = omap (λ u, admission (admitting d now u) u) (user_core <$> l)).
  { induction l as [|u l IH]; [done|]. cbn. rewrite IH. by rewrite (admission_core d s now u (user_core u)). }
  rewrite Hq, Hm. by apply omap_perm.
Qed.
Lemma reality_mem s now (us : list User) : omap (λ u, if is_set (AllowList.entitled s now u) then Some {| ru_UUID := u_UUID u; ru_ShortID := u_RealityShortID u |} else None) us =
  (λ a : AccessUser * option Time, reality_of a.1) <$> omap (λ u, admission (AllowList.entitled s now u) u) us.
Proof. induction us as [|u us IH]; [done|]. cbn. destruct (AllowList.entitled s now u); cbn; by rewrite IH. Qed.
Lemma admitted_rows_eq d now : (λ us : User * Subscription, (credentials us.1, AccessUntil us.2)) <$> admitted_rows d now = pg_admitted d now.
Proof.
  unfold admitted_rows, pg_admitted. induction (sort_slice uuid_order (range (q_users d)).*2) as [|u l IH]; [done|]. cbn.
  destruct (admitting d now u); cbn; by rewrite IH.
Qed.
Lemma reality_agree d s now : models d s → ∃ l, AllowList.EligibleRealityUsers now s = (Ok l, s) ∧
  (λ us : User * Subscription, {| ru_UUID := u_UUID us.1; ru_ShortID := u_RealityShortID us.1 |}) <$> admitted_rows d now ≡ₚ l.
Proof.
  intros H. unfold AllowList.EligibleRealityUsers, gets. eexists. split; [done|]. rewrite reality_mem. fold (mem_admitted s now).
  rewrite <-(admitted_agree d s now H), <-admitted_rows_eq, <-list_fmap_compose. done.
Qed.
Lemma sim_EligibleRealityUsers now d s : models d s → simulates (OEligibleRealityUsers now) d s.
Proof.
  intros H. apply access_simulates. unfold PgEligibleRealityUsers, queryEligibleRealityUsers. rewrite steady_wrapping, steady_pool. unfold gets at 1.
  destruct (reality_agree d s now H) as (l & -> & Hl). by apply access_alike_ok.
Qed.
(** The loop both stores run *)
Fixpoint gather (l : list (AccessUser * option Time)) (acc : list AccessUser) (validUntil : Time) : result (list AccessUser * Time) :=
  match l with
  | [] => Ok (acc, validUntil)
  | (a, e) :: l' =>
      if bool_decide (au_Hysteria2Password a = "") then Err ErrConflict
      else gather l' (acc ++ [a]) (match e with Some e => if Before e validUntil then e else validUntil | None => validUntil end)
  end.
Lemma collect_gather s now us : ∀ acc v, AllowList.collect s now us acc v = gather (omap (λ u, admission (AllowList.entitled s now u) u) us) acc v.
Proof.
  induction us as [|u us IH]; intros acc v; [done|]. cbn. destruct (AllowList.entitled s now u) as [sub|]; cbn; [|apply IH].
  case_bool_decide; [done|]. apply IH.
Qed.
Lemma access_rows_gather l : ∀ acc v, access_rows l acc v = gather ((λ us : User * Subscription, (credentials us.1, AccessUntil us.2)) <$> l) acc v.
Proof. induction l as [|[u sub] l IH]; intros acc v; [done|]. cbn. case_bool_decide; [done|]. apply IH. Qed.
Definition sooner (e : option Time) (v : Time) : Time := match e with Some e => if Before e v then e else v | None => v end.
Lemma gather_eq l : ∀ acc v, gather l acc v = if existsb (λ a, bool_decide (au_Hysteria2Password a.1 = "")) l then Err ErrConflict
  else Ok (acc ++ l.*1, foldl (λ v a, sooner a.2 v) v l).
Proof.
  induction l as [|[a e] l IH]; intros acc v; cbn; [by rewrite app_nil_r|]. case_bool_decide; [done|]. rewrite IH, <-app_assoc. done.
Qed.
Lemma sooner_comm e e' v : sooner e (sooner e' v) = sooner e' (sooner e v).
Proof. unfold sooner, Before. destruct e as [e|], e' as [e'|]; try done. repeat (case_match; try lia). Qed.
Lemma foldl_sooner_perm l1 l2 : l1 ≡ₚ l2 → ∀ v, foldl (λ v (a : AccessUser * option Time), sooner a.2 v) v l1 = foldl (λ v a, sooner a.2 v) v l2.
Proof.
  induction 1 as [|x l1 l2 _ IH|x y l|l1 l2 l3 _ IH1 _ IH2]; intros v; cbn; [done|apply IH|by rewrite sooner_comm|by rewrite IH1].
Qed.
Lemma existsb_perm {A} (p : A → bool) l1 l2 : l1 ≡ₚ l2 → existsb p l1 = existsb p l2.
Proof. intros Hp. apply eq_bool_prop_intro. rewrite !Is_true_true, !existsb_exists. setoid_rewrite <-list_elem_of_In. by setoid_rewrite Hp. Qed.
(** What the query answers, on a reliable link *)
Definition pg_access (d : CpDb) (now : Time) : result NodeAccessUsers :=
  match access_rows (admitted_rows d now) [] (Add now (5 * Minute)) with
  | Err e => Err e
  | Ok (users, validUntil) => Ok {| nau_Revision := AccessUsersRevision users; nau_ValidUntil := validUntil; nau_Users := users |}
  end.
Lemma access_agree d s now : models d s → (AllowList.EligibleAccessUsers now s).2 = s ∧
  match (AllowList.EligibleAccessUsers now s).1, pg_access d now with
  | Ok x, Ok x' => same_access x x'
  | Err e, Err e' => e = ErrConflict ∧ e' = ErrConflict
  | _, _ => False
  end.
Proof.
  intros H. split; [done|]. unfold AllowList.EligibleAccessUsers, pg_access. cbn [fst]. rewrite collect_gather, access_rows_gather, admitted_rows_eq. fold (mem_admitted s now).
  pose proof (admitted_agree d s now H) as Hp. rewrite !gather_eq, (existsb_perm _ _ _ Hp). destruct (existsb _ _); [done|]. unfold same_access. cbn.
  rewrite (foldl_sooner_perm _ _ Hp). split_and!; [|done|by rewrite Hp]. apply AccessUsersRevision_perm. by rewrite Hp.
Qed.
Lemma queryEligibleAccessUsers_eq (q : querier) now d : (∀ A B (st : M CpDb A) (f : A → M (Session CpDb) B) d', steady (q A st ≫= f) d' = match st d' with (Ok a, d2) => steady (f a) d2 | (Err e, d2) => (Err e, d2) end) →
  steady (queryEligibleAccessUsers q now) d = (pg_access d now, d).
Proof.
  intros Hq. unfold queryEligibleAccessUsers. rewrite Hq. unfold mret at 1, M_ret at 1. rewrite Hq. unfold gets, pg_access.
  by destruct (access_rows _ _ _) as [[]|].
Qed.
Lemma sim_EligibleAccessUsers now d s : models d s → simulates (OEligibleAccessUsers now) d s.
Proof.
  intros H. apply access_simulates. unfold PgEligibleAccessUsers. rewrite (queryEligibleAccessUsers_eq pool) by (intros; apply steady_auto_bind).
  destruct (access_agree d s now H) as [Hs Ha]. destruct (AllowList.EligibleAccessUsers now s) as [r s']. cbn in Hs, Ha. subst s'.
  destruct r as [x|e], (pg_access d now) as [x'|e']; try done. by destruct Ha as [-> ->].
Qed.
(** *** Nodes *)
Lemma lookup_node d s id : models d s → q_nodes d !! id = node_core <$> c_nodes s !! id.
Proof. intros H. by rewrite <-(mo_nodes d s H), lookup_fmap. Qed.
Lemma models_set_node d s id n f : models d s → c_nodes s !! id = Some n → node_core (f n) = f (node_core n) → n_Transports (f n) = n_Transports n →
  models (on_nodes <[id := f (node_core n)]> d) (set_nodes <[id := f n]> s).
Proof.
  intros [] Hn Hf Ht. split; try done; cbn.
  - destruct mo_constraints0. by split.
  - by rewrite fmap_insert, Hf, mo_nodes0.
  - intros i m [[<- <-]|[_ Hm]]%lookup_insert_Some; [rewrite Ht; by apply mo_transports0|by apply mo_transports0].
Qed.
Lemma set_node_eq id f d : set_node id f d = match q_nodes d !! id with Some n => (Ok 1, on_nodes <[id := f n]> d) | None => (Ok 0, d) end.
Proof. unfold set_node, update_key. by destruct (q_nodes d !! id). Qed.
Lemma status_of_eq d s id : models d s → status_of id d = (match c_nodes s !! id with Some n => Ok (n_Status n) | None => Err ErrNoRows end, d).
Proof. intros H. unfold status_of, query_row. rewrite (lookup_node d s id H). by destruct (c_nodes s !! id). Qed.
Lemma sim_SetStatus id status d s : models d s → simulates (OSetStatus id status) d s.
Proof.
  intros H. apply access_simulates. unfold PgSetStatus. rewrite steady_withTx by (unfold tx; tx_tac).
  rewrite steady_tx_error_bind by apply gave_up_absent. rewrite (status_of_eq d s id H). unfold Nodes.SetStatus.
  destruct (c_nodes s !! id) as [n|] eqn:Hn; [|by apply access_alike_err]. rewrite steady_tx_bind, set_node_eq, (lookup_node d s id H), Hn. cbn [fmap option_fmap option_map]. rewrite steady_ret.
  apply access_alike_ok; [done|]. by apply (models_set_node d s id n (with_n_Status status)).
Qed.
Lemma sim_Demote id d s : models d s → simulates (ODemote id) d s.
Proof.
  intros H. apply access_simulates. unfold PgDemote. rewrite steady_withTx by (unfold tx; tx_tac).
  rewrite steady_tx_error_bind by apply gave_up_absent. rewrite (status_of_eq d s id H). unfold Nodes.Demote.
  destruct (c_nodes s !! id) as [n|] eqn:Hn; [|by apply access_alike_err]. destruct (one_of _ _); [by split|].
  rewrite steady_tx_bind, set_node_eq, (lookup_node d s id H), Hn. cbn [fmap option_fmap option_map]. rewrite steady_ret.
  apply access_alike_ok; [done|]. by apply (models_set_node d s id n (with_n_Status NodeStatusProvisioning)).
Qed.
Lemma sim_SetEntryIP id entryIP d s : models d s → simulates (OSetEntryIP id entryIP) d s.
Proof.
  intros H. apply access_simulates. unfold PgSetEntryIP, pool. rewrite steady_wrapping_bind, set_node_eq, (lookup_node d s id H). unfold Nodes.SetEntryIP.
  destruct (c_nodes s !! id) as [n|] eqn:Hn; [|by apply access_alike_err]. apply access_alike_ok; [done|]. by apply (models_set_node d s id n (with_n_EntryIP entryIP)).
Qed.
(** The guards of an activation *)
Lemma loaded id l : (∀ r, r ∈ l → tr_node_id r = id) → ∀ out : gmap string (list Transport),
  default [] (foldl (λ out r, <[tr_node_id r := default [] (out !! tr_node_id r) ++ [unmarshalTransportParams r]]> out) out l !! id) =
  default [] (out !! id) ++ (unmarshalTransportParams <$> l).
Proof.
  induction l as [|r l IH]; intros Hl out; cbn; [by rewrite app_nil_r|]. rewrite IH by (intros; apply Hl; by right).
  rewrite (Hl r) by left. rewrite lookup_insert_eq. cbn. by rewrite <-app_assoc.
Qed.
Lemma steady_load_bind {A} id (f : gmap string (list Transport) → M (Session CpDb) A) d :
  ∃ out, default [] (out !! id) = transports_of d id ∧ steady (loadTransports tx [id] ≫= f) d = steady (f out) d.
Proof.
  eexists. split; cycle 1.
  - unfold loadTransports. rewrite bool_decide_eq_false_2 by done. rewrite steady_bind by (unfold tx; tx_tac).
    rewrite steady_bind by (unfold tx; tx_tac). rewrite steady_wrapping. unfold tx. rewrite steady_in_tx. unfold gets. rewrite steady_ret. reflexivity.
  - rewrite loaded; [done|]. intros r Hr. unfold transport_rows in Hr. rewrite elem_of_sort_slice in Hr.
    apply list_elem_of_fmap in Hr as ([k r'] & -> & [_ Hin]%elem_of_rows). apply bool_decide_eq_true in Hin. by apply list_elem_of_singleton in Hin.
Qed.
Lemma Distinct_perm l1 l2 : l1 ≡ₚ l2 → DistinctEnabledTransportTypes l1 = DistinctEnabledTransportTypes l2.
Proof.
  intros Hp. unfold DistinctEnabledTransportTypes. do 2 f_equal. generalize (∅ : gset string).
  induction Hp as [|x l1 l2 _ IH|x y l|l1 l2 l3 _ IH1 _ IH2]; intros seen; cbn; [done|apply IH| |by rewrite IH1].
  f_equal. destruct (t_Enabled x), (t_Enabled y); set_solver.
Qed.
Lemma exit_agree d s id : models d s →
  (∀ i j ni nj, c_nodes s !! i = Some ni → c_nodes s !! j = Some nj → n_Role ni = NodeRoleExit → n_Role nj = NodeRoleExit →
     n_EntryNodeID ni = Some id → n_EntryNodeID nj = Some id → i = j) →
  (∃ st, exit_status id d = (Ok st, d) ∧ NodeActivator.exit_active s id = bool_decide (st = NodeStatusActive)) ∨
  (exit_status id d = (Err ErrNoRows, d) ∧ NodeActivator.exit_active s id = false).
Proof.
  intros H Huniq. unfold exit_status, query_row, NodeActivator.exit_active.
  set (p := λ (_ : string) (n : Node), bool_decide (n_EntryNodeID n = Some id) && bool_decide (n_Role n = NodeRoleExit)).
  assert (Hp : ∀ k m, (k, m) ∈ rows p (q_nodes d) → ∃ n, c_nodes s !! k = Some n ∧ m = node_core n ∧ n_Role n = NodeRoleExit ∧ n_EntryNodeID n = Some id).
  { intros k m [Hk Hm]%elem_of_rows. rewrite (lookup_node d s k H) in Hk. apply fmap_Some in Hk as (n & Hn & ->). exists n.
    unfold p in Hm. apply andb_true_iff in Hm as [H1%bool_decide_eq_true H2%bool_decide_eq_true]. done. }
  destruct (list_find _ (range (c_nodes s))) as [[i [k n]]|] eqn:Hf.
  - apply list_find_Some in Hf as (Hi & [Hrole Hentry] & _). cbn in Hrole, Hentry. apply list_elem_of_lookup_2, elem_of_range in Hi. left.
    assert (Hin : (k, node_core n) ∈ rows p (q_nodes d)).
    { apply elem_of_rows. rewrite (lookup_node d s k H), Hi. split; [done|]. unfold p. cbn. by rewrite !bool_decide_eq_true_2. }
    destruct (rows p (q_nodes d)) as [|[j m] l] eqn:Hrows; [by apply elem_of_nil in Hin|]. exists (n_Status m). split; [done|].
    destruct (Hp j m) as (n' & Hn' & -> & Hr' & He'); [by left|]. assert (j = k) as -> by (by eapply Huniq). by assert (n' = n) as -> by congruence.
  - right. apply list_find_None in Hf. destruct (rows p (q_nodes d)) as [|[j m] l] eqn:Hrows; [done|].
    destruct (Hp j m) as (n' & Hn' & _ & Hr' & He'); [by left|]. exfalso. apply elem_of_range in Hn'.
    by apply (proj1 (Forall_forall _ _) Hf _ Hn').
Qed.
(** An entry passes its guards. *)
Definition passes (now : Time) (expected access : string) (n : Node) (id : string) (s : Store) : bool :=
  negb (DistinctEnabledTransportTypes (n_Transports n) <? 2) && NodeActivator.exit_active s id &&
  match (NodeActivator.revision_ok now n expected access s).1 with Ok ok => ok | Err _ => false end.
Lemma revision_ok_state now n expected access s : (NodeActivator.revision_ok now n expected access s).2 = s ∧
  match (NodeActivator.revision_ok now n expected access s).1 with Ok _ => True | Err e => e = ErrConflict end.
Proof.
  unfold NodeActivator.revision_ok, mbind, M_bind. destruct (NodeActivator.needs_access n access).
  - pose proof (EligibleAccessUsers_exact now s) as [Hs Hr]. destruct (AllowList.EligibleAccessUsers now s) as [r s']. cbn in *. subst s'.
    destruct Hr as [[_ ->]|(snap & -> & _)]; done.
  - unfold AllowList.EligibleRealityUsers, gets. done.
Qed.
Lemma activate_entry now id expected access evidence n s : c_nodes s !! id = Some n → n_Status n = NodeStatusProvisioning → n_Role n ≠ NodeRoleExit →
  NodeActivator.activate now id expected access evidence s =
  if passes now expected access n id s then (Ok (with_n_Status NodeStatusActive n, n_Status n), set_nodes <[id := with_n_Status NodeStatusActive n]> s)
  else (Err ErrConflict, s).
Proof.
  intros Hn Hst Hrole. unfold NodeActivator.activate, passes. rewrite Hn, bool_decide_eq_true_2, bool_decide_eq_false_2 by done. cbn [negb].
  destruct (_ <? 2); [done|]. destruct (NodeActivator.exit_active s id); [|done]. cbn. unfold mbind, M_bind.
  pose proof (revision_ok_state now n expected access s) as [Hs Hr]. destruct (NodeActivator.revision_ok now n expected access s) as [[[]|e] s']; cbn in *; by subst.
Qed.
Lemma needs_access_agree d s id n access : models d s → c_nodes s !! id = Some n →
  NodeActivator.needs_access (with_n_Transports (transports_of d id) (node_core n)) access = NodeActivator.needs_access n access.
Proof. intros H Hn. unfold NodeActivator.needs_access. f_equal. cbn. apply existsb_perm. symmetry. by apply (mo_transports d s H). Qed.
Lemma revision_answer now n expected access s : (NodeActivator.revision_ok now n expected access s).1 =
  if NodeActivator.needs_access n access then
    match (AllowList.EligibleAccessUsers now s).1 with
    | Ok x => Ok (negb (bool_decide (access = "")) && bool_decide (nau_Revision x = access))
    | Err e => Err e
    end
  else match (AllowList.EligibleRealityUsers now s).1 with
       | Ok l => Ok (bool_decide (RealityUsersRevision l = expected))
       | Err e => Err e
       end.
Proof.
  unfold NodeActivator.revision_ok, mbind, M_bind. destruct (NodeActivator.needs_access n access).
  - by destruct (AllowList.EligibleAccessUsers now s) as [[]].
  - by destruct (AllowList.EligibleRealityUsers now s) as [[]].
Qed.
Lemma guards_agree now id expected access d s n : models d s → respects (OActivate now id expected access "") d s → c_nodes s !! id = Some n →
  ∃ r, steady (entry_guards tx now id expected access (node_core n)) d = (r, d) ∧
    match r with
    | Ok m => m = with_n_Transports (transports_of d id) (node_core n) ∧ passes now expected access n id s = true
    | Err e => same_error ErrConflict e ∧ passes now expected access n id s = false
    end.
Proof.
  intros H [_ Huniq] Hn. unfold entry_guards. destruct (steady_load_bind id (λ tr,
    let n0 := with_n_Transports (default [] (tr !! id)) (node_core n) in
    if DistinctEnabledTransportTypes (n_Transports n0) <? 2 then fail (conflict "fewer than 2 distinct enabled client transports")
    else
      exitStatus ←! on_error (λ e, if no_rows e then conflict "no paired exit" else e) (tx _ (exit_status id)) ;
      if negb (bool_decide (exitStatus = NodeStatusActive)) then fail (conflict "paired exit is not active")
      else if NodeActivator.needs_access n0 access then
        snapshot ←! queryEligibleAccessUsers tx now ;
        if bool_decide (access = "") || negb (bool_decide (nau_Revision snapshot = access)) then fail ErrConflict else mret n0
      else
        users ←! queryEligibleRealityUsers tx now ;
        if negb (bool_decide (RealityUsersRevision users = expected)) then fail ErrConflict else mret n0) d) as (out & Hout & Hst).
  cbv zeta in Hst. rewrite Hst, Hout. clear Hst Hout out. set (m := with_n_Transports (transports_of d id) (node_core n)).
  unfold passes. change (n_Transports m) with (transports_of d id). rewrite <-(Distinct_perm _ _ (mo_transports d s H id n Hn)).
  destruct (_ <? 2); [by eexists|]. rewrite steady_tx_error_bind by (intros e He; by rewrite gave_up_rows).
  destruct (exit_agree d s id H Huniq) as [(st & -> & ->)|[-> ->]]; [|by eexists]. destruct (bool_decide (st = NodeStatusActive)); [|by eexists]. cbn [negb andb].
  unfold m. rewrite (needs_access_agree d s id n access H Hn), revision_answer. fold m. destruct (NodeActivator.needs_access n access).
  - rewrite steady_bind by (unfold queryEligibleAccessUsers, tx; tx_tac). rewrite (queryEligibleAccessUsers_eq tx) by (intros; apply steady_tx_bind).
    destruct (access_agree d s now H) as [_ Ha]. destruct (AllowList.EligibleAccessUsers now s).1 as [x|e], (pg_access d now) as [x'|e']; try done;
      [|destruct Ha as [-> ->]; by eexists].
    destruct Ha as (-> & _ & _). destruct (bool_decide (access = "")); [by eexists|]. destruct (bool_decide (nau_Revision x = access)); by eexists.
  - rewrite steady_bind by (unfold queryEligibleRealityUsers, tx; tx_tac). unfold queryEligibleRealityUsers. rewrite steady_wrapping. unfold tx. rewrite steady_in_tx.
    unfold gets at 1. destruct (reality_agree d s now H) as (l & -> & Hl). cbn [fst]. unfold RealityUsersRevision. rewrite (RealityUsersPreimage_perm _ _ Hl).
    destruct (bool_decide _); by eexists.
Qed.
Lemma timestamptz_idem t : timestamptz (timestamptz t) = timestamptz t.
Proof. apply timestamptz_whole. unfold timestamptz. rewrite Zminus_mod_idemp_r. by rewrite Z.sub_diag. Qed.
Lemma time_column_idem o : time_column (time_column o) = time_column o.
Proof. destruct o; [|done]. unfold time_column. cbn. by rewrite timestamptz_idem. Qed.
Lemma node_core_idem n : node_core (node_core n) = node_core n.
Proof. unfold node_core, node_columns. cbn. by rewrite timestamptz_idem, !time_column_idem. Qed.
Lemma tx_ok_activation now id expected access evidence : tx_ok (activation tx now id expected access evidence).
Proof. unfold activation, entry_guards, loadTransports, queryEligibleAccessUsers, queryEligibleRealityUsers, tx. tx_tac. Qed.
Lemma activate_commits d s id n m : models d s → c_nodes s !! id = Some n →
  m = node_core n ∧ n_Role n = NodeRoleExit ∨ m = with_n_Transports (transports_of d id) (node_core n) →
  alike (λ r : Node * NodeStatus, AnNode r.1 r.2) (Ok (with_n_Status NodeStatusActive n, n_Status n), set_nodes <[id := with_n_Status NodeStatusActive n]> s)
    (Ok (with_n_Status NodeStatusActive m, n_Status n), on_nodes <[id := with_n_Status NodeStatusActive (node_core n)]> d).
Proof.
  intros H Hn Hm. apply access_alike_ok; [|by apply (models_set_node d s id n (with_n_Status NodeStatusActive))]. split; [|done].
  assert (Hc : ∀ m, node_core m = node_core n → node_core (with_n_Status NodeStatusActive m) = node_core (with_n_Status NodeStatusActive n)).
  { intros m' Hm'. change (node_core (with_n_Status NodeStatusActive m')) with (with_n_Status NodeStatusActive (node_core m')). by rewrite Hm'. }
  destruct Hm as [[-> Hrole]| ->]; (split; [apply Hc|]).
  - apply node_core_idem.
  - by left.
  - exact (node_core_idem n).
  - right. symmetry. exact (mo_transports d s H id n Hn).
Qed.
Lemma sim_Activate now id expected access evidence d s : models d s → respects (OActivate now id expected access evidence) d s →
  simulates (OActivate now id expected access evidence) d s.
Proof.
  intros H Hresp. apply access_simulates. unfold PgActivate. rewrite steady_on_error. unfold withSerializableTx.
  rewrite steady_transaction_with by apply tx_ok_activation. unfold activation.
  rewrite steady_tx_bind. unfold node_by_id, query_row. rewrite (lookup_node d s id H). destruct Hresp as [[n Hn] Huniq]. rewrite Hn. cbn [fmap option_fmap option_map].
  change (n_Status (node_core n)) with (n_Status n). change (n_Role (node_core n)) with (n_Role n). change (n_EntryNodeID (node_core n)) with (n_EntryNodeID n).
  assert (Hwrite : ∀ m, steady (tx _ (set_node id (with_n_Status NodeStatusActive)) ;;! mret (with_n_Status NodeStatusActive m, n_Status n)) d =
    (Ok (with_n_Status NodeStatusActive m, n_Status n), on_nodes <[id := with_n_Status NodeStatusActive (node_core n)]> d)).
  { intros m. rewrite steady_tx_bind, set_node_eq, (lookup_node d s id H), Hn. apply steady_ret. }
  destruct (bool_decide (n_Status n = NodeStatusProvisioning)) eqn:Hst; cycle 1.
  { unfold NodeActivator.activate. rewrite Hn, Hst. done. }
  apply bool_decide_eq_true in Hst. cbn [negb]. destruct (bool_decide (n_Role n = NodeRoleExit)) eqn:Hrole.
  - unfold NodeActivator.activate. rewrite Hn, (bool_decide_eq_true_2 _ Hst), Hrole. cbn [negb]. apply bool_decide_eq_true in Hrole.
    destruct (ptr_set _); [|done]. destruct (bool_decide (evidence = _)); [|done]. cbn [negb]. rewrite steady_bind by apply tx_ok_ret. rewrite steady_ret, Hwrite.
    apply activate_commits; auto.
  - apply bool_decide_eq_false in Hrole. rewrite (activate_entry now id expected access evidence n s Hn Hst Hrole).
    rewrite steady_bind by (unfold entry_guards, loadTransports, queryEligibleAccessUsers, queryEligibleRealityUsers, tx; tx_tac).
    destruct (guards_agree now id expected access d s n H (conj (ex_intro _ n Hn) Huniq) Hn) as ([m|e] & -> & Hm).
    + destruct Hm as [-> ->]. rewrite Hwrite. apply activate_commits; auto.
    + destruct Hm as [He ->]. split; [|done]. cbn [fst]. by destruct (isSerializationFailure e).
Qed.
End simulation.

(** ** Over a lossy link *)
Section lossy.
Context `{ord : !MapOrder, pg : !Postgres}.
Ltac whole_tac := first [ apply all_or_nothing_withTx; unfold subscriptionCreateAndLink, sub_get, affected_one, tx; tx_tac
  | apply all_or_nothing_wrapping, all_or_nothing_autocommit
  | (apply all_or_nothing_on_error; [first [apply gave_up_scanned|apply gave_up_absent|apply gave_up_taken]|apply all_or_nothing_autocommit])
  | apply all_or_nothing_ret | apply all_or_nothing_fail ].
Lemma link_pool {A} (st : M CpDb A) d : ss_link (pool A st (mkSession d [])).2 = [].
Proof. apply link_autocommit. Qed.
Lemma affected_all_or_nothing msg (st : M CpDb Z) : all_or_nothing (tag ←! wrapping msg (pool _ st) ; affected_one tag).
Proof.
  apply all_or_nothing_then; [apply all_or_nothing_wrapping, all_or_nothing_autocommit|intros; apply link_wrapping, link_pool| |];
    intros tag; unfold affected_one; destruct (tag =? 0); done || apply all_or_nothing_fail || apply all_or_nothing_ret.
Qed.
Lemma SubUpdate_all_or_nothing sub : all_or_nothing (PgSubUpdate sub).
Proof.
  assert (Hget : ∀ id, all_or_nothing (PgSubGet id)).
  { intros id. apply all_or_nothing_on_error; [apply gave_up_scanned|apply all_or_nothing_autocommit]. }
  assert (Hro : ∀ id d, (steady (PgSubGet id) d).2 = d).
  { intros id d. unfold PgSubGet, sub_get. rewrite steady_on_error, steady_pool. unfold row_by_id, uuid, query_row, mbind, M_bind.
    destruct (uuid_in id) as [u|]; [|done]. cbn. by destruct (q_subs d !! u). }
  apply all_or_nothing_then; [apply all_or_nothing_wrapping, all_or_nothing_autocommit|intros; apply link_wrapping, link_pool| |].
  - intros tag. destruct (tag =? 0); [|apply all_or_nothing_ret].
    apply all_or_nothing_then; [apply Hget|intros d; apply link_sub_get|intros; apply all_or_nothing_fail|done].
  - intros tag d. destruct (tag =? 0); [|done]. rewrite steady_bind_link by apply link_sub_get. specialize (Hro (s_ID sub) d).
    by destruct (steady (PgSubGet _) d) as [[] ?].
Qed.
Lemma EligibleAccessUsers_all_or_nothing now : all_or_nothing (PgEligibleAccessUsers now).
Proof.
  apply all_or_nothing_then; [apply all_or_nothing_autocommit|intros; apply link_pool| |].
  - intros a. apply all_or_nothing_then; [apply all_or_nothing_autocommit|intros; apply link_pool| |]; intros l; repeat case_match;
      done || apply all_or_nothing_fail || apply all_or_nothing_ret.
  - intros a d. unfold pool. rewrite steady_auto_bind. cbn. by repeat case_match.
Qed.
(** The one call that hides that the server gave up on it *)
Definition activates (op : access_op) : bool := match op with OActivate _ _ _ _ _ => true | _ => false end.
Lemma pg_op_all_or_nothing op : activates op = false → all_or_nothing (pg_op op).
Proof.
  destruct op; intros Hop; try discriminate Hop; apply answering_all_or_nothing;
    try apply SubUpdate_all_or_nothing; try apply EligibleAccessUsers_all_or_nothing; try apply affected_all_or_nothing;
    unfold PgUserCreate, PgUserGet, PgRotateSecrets, PgAllActiveIDs, PgCreateAndLink, PgSubGet, PgUpdateTokenHash,
      PgApplyBillingState, PgEnsureDeliveryToken, PgCancelSubscription, PgResolveTokenHash, PgEligibleRealityUsers, PgSetStatus, PgDemote; whole_tac.
Qed.
(** The caller is told that the call may not have been carried out. *)
Definition interrupted (op : access_op) (r : result access_answer) : Prop :=
  lost r ∨ (activates op = true ∧ r = Err (conflict "activation lost a serialization race")).
Lemma pg_op_whole op d link : let '(r, s) := pg_op op (mkSession d link) in
  (interrupted op r ∧ (ss_db s = d ∨ ss_db s = (steady (pg_op op) d).2)) ∨ (r, ss_db s) = steady (pg_op op) d.
Proof.
  destruct (activates op) eqn:Hact; cycle 1.
  { pose proof (pg_op_all_or_nothing op Hact d link) as H. destruct (pg_op op (mkSession d link)) as [r s].
    destruct H as [[H1 H2]|H]; [left; split; [by left|done]|by right]. }
  destruct op; try discriminate Hact. cbn [pg_op].
  assert (Haon : all_or_nothing (withSerializableTx (λ q, activation q now id expectedRevision accessRevision evidence))).
  { apply all_or_nothing_transaction_with; [apply gave_up_wrap..|apply tx_ok_activation]. }
  specialize (Haon d link). rewrite steady_answering. unfold PgActivate. rewrite steady_on_error.
  unfold answering, mbind, M_bind, on_error. destruct (withSerializableTx _ (mkSession d link)) as [[a|e] s].
  - destruct Haon as [[H1 _]|H]; [done|]. rewrite <-H. by right.
  - destruct Haon as [[H1 H2]|H]; [|rewrite <-H; by right]. left. split.
    + destruct (isSerializationFailure e); [right|left]; done.
    + by destruct (steady _ d) as [[] ?].
Qed.
Lemma steady_models op d s : models d s → respects op d s → simulates op d s.
Proof.
  intros H Hr. destruct op; cbn in Hr.
  - by apply sim_UserCreate.
  - by apply sim_UserGet.
  - by apply sim_UserUpdate.
  - by apply sim_RotateSecrets.
  - by apply sim_AllActiveIDs.
  - by apply sim_CreateAndLink.
  - by apply sim_SubGet.
  - by apply sim_SubUpdate.
  - by apply sim_UpdateTokenHash.
  - by apply sim_ApplyBillingState.
  - by apply sim_EnsureDeliveryToken.
  - by apply sim_CancelSubscription.
  - by apply sim_ResolveTokenHash.
  - by apply sim_EligibleRealityUsers.
  - by apply sim_EligibleAccessUsers.
  - by apply sim_SetStatus.
  - by apply sim_Demote.
  - by apply sim_SetEntryIP.
  - by apply sim_Activate.
Qed.
(** C7: Over a link that loses calls at any point, and a server that aborts them, each call of the control-plane's
    repositories of users, subscriptions, delivery tokens, the allow-list and the state of nodes that [respects]
    their contract (canonical UUIDs, times of whole microseconds, numbers that fit their columns, fresh secrets and
    token hashes, periods changed as the use cases change them, activation of a node that is known and has at most
    one exit paired with it) does on Postgres what it does in memory: either its caller is told of the interruption, and the tables model the store before
    the call or the store after it and nothing in between, or it answers what the store in memory answers (rows in
    any order, an exit without its transports, the same one of not found and conflict) and they model the store
    after it. *)
Theorem control_call_refines op d s link : models d s → respects op d s →
  let '(r, s') := pg_op op (mkSession d link) in
  (interrupted op r ∧ (models (ss_db s') s ∨ models (ss_db s') (mem_op op s).2)) ∨
  (same_result (mem_op op s).1 r ∧ models (ss_db s') (mem_op op s).2).
Proof.
  intros H Hr. destruct (steady_models op d s H Hr) as [Hres Hm]. pose proof (pg_op_whole op d link) as Hw.
  destruct (pg_op op (mkSession d link)) as [r s']. destruct Hw as [[Hi [-> | ->]]|Hw]; [by left; auto..|]. rewrite <-Hw in Hres, Hm. by right.
Qed.
End lossy.

(** ** A payment's COMMIT is lost *)
Definition pc_user : User := {|
  u_ID := "00000000-0000-4000-8000-000000000001"; u_TelegramID := Some 7; u_Email := None; u_Status := UserStatusActive;
  u_RealityShortID := "ab"; u_UUID := "00000000-0000-4000-8000-000000000002"; u_Hysteria2Password := "pw"; u_PrivateKey := "k";
  u_SubscriptionID := None; u_DeviceLimit := 2; u_QuotaBytes := 0; u_UsedBytes := 0; u_CreatedAt := Second; u_UpdatedAt := Second |}.
Definition pc_sub_id : string := "00000000-0000-4000-8000-000000000003".
Definition pc_sub : Subscription := {|
  s_ID := pc_sub_id; s_UserID := u_ID pc_user; s_Plan := SubscriptionPlanBasic; s_Status := SubscriptionStatusActive; s_Token := "t";
  s_TrafficLimitBytes := 1000; s_SpeedLimitMbps := 50; s_DeviceLimit := 2; s_GraceUntil := None; s_BillingRevision := 0;
  s_StartsAt := Second; s_ExpiresAt := Some Hour; s_CreatedAt := Second; s_UpdatedAt := Second |}.
Definition pc_create : access_op := OUserCreate pc_user.
Definition pc_link : access_op := OCreateAndLink pc_sub "00" "t" (u_ID pc_user).
Definition pc_pay : access_op := OApplyBillingState Minute pc_sub_id {|
  bs_Plan := SubscriptionPlanUnlimited; bs_Revision := 1; bs_Status := SubscriptionStatusActive; bs_ExpiresAt := 2 * Hour; bs_GraceUntil := 3 * Hour |}.
Definition pc_after (op : access_op) (c : CpDb * Store) : CpDb * Store :=
  ((steady (pg_op (ord := key_order) (pg := c_server) op) c.1).2, (mem_op (ord := key_order) op c.2).2).
Definition pc_state : CpDb * Store := pc_after pc_link (pc_after pc_create (empty_cp_db, NewStore)).
Lemma pc_created : models (ord := key_order) (pg := c_server) (pc_after pc_create (empty_cp_db, NewStore)).1 (pc_after pc_create (empty_cp_db, NewStore)).2.
Proof.
  apply (steady_models (pg := c_server) pc_create empty_cp_db NewStore); [apply (models_empty (ord := key_order) (pg := c_server))|].
  split; [split_and!; vm_compute; done|]. split; [done|]. intros j v Hv. unfold NewStore in Hv; cbn in Hv; by rewrite lookup_empty in Hv.
Qed.
Lemma pc_models : models (ord := key_order) (pg := c_server) pc_state.1 pc_state.2.
Proof.
  apply (steady_models (pg := c_server) pc_link _ _ pc_created).
  split; [split_and!; vm_compute; done|]. split; [done|]. split; [vm_compute; done|]. intros j r Hr. vm_compute in Hr. done.
Qed.
(** BEGIN and the statements run; the connection breaks when COMMIT has taken effect. *)
Definition pc_faults : list fault := [Runs; Runs; Runs; Runs; Runs; LostAfter].
Lemma control_call_refines_witness :
  let '(r, s') := pg_op (ord := key_order) (pg := c_server) pc_pay (mkSession pc_state.1 pc_faults) in
  (interrupted pc_pay r ∧ (models (ord := key_order) (pg := c_server) (ss_db s') pc_state.2 ∨
     models (ord := key_order) (pg := c_server) (ss_db s') (mem_op (ord := key_order) pc_pay pc_state.2).2)) ∨
  (same_result (mem_op (ord := key_order) pc_pay pc_state.2).1 r ∧
     models (ord := key_order) (pg := c_server) (ss_db s') (mem_op (ord := key_order) pc_pay pc_state.2).2).
Proof.
  refine (control_call_refines (ord := key_order) (pg := c_server) pc_pay pc_state.1 pc_state.2 pc_faults pc_models _).
  split; [vm_compute; reflexivity|]. split; [vm_compute; reflexivity|]. split; [vm_compute; reflexivity|]. split; [vm_compute; discriminate|].
  intros cur Hcur. vm_compute in Hcur. injection Hcur as <-. split; [vm_compute; done|]. split; vm_compute; done.
Defined.
(** The payment was applied though its caller saw an error. *)
Example lost_payment_applied :
  let '(r, s') := pg_op (ord := key_order) (pg := c_server) pc_pay (mkSession pc_state.1 pc_faults) in
  r = Err (wrap_err "postgres: commit" ErrConn) ∧
  (λ r, s_BillingRevision (sr_subscription r)) <$> q_subs (ss_db s') !! pc_sub_id = Some 1.
Proof. vm_compute. done. Qed.
