(* ===== verification/SubscriptionProvider.v ===== *)
(** * Subscription service: what it reads from the control-plane

    services/subscription/internal/controlplane: the provider and the token index as interfaces over the
    environment [E], their in-memory implementation, and the HTTP client with its pagination and the
    authoritative token lookup. *)
From S2P Require Import Prelude GoBytes GoText GoTrace Contracts GoUrl Platform.

(** ** controlplane.go *)
Definition ErrNotFound : error := Sentinel "controlplane: not found".
Record NodeFilter := { pf_Status : string; pf_Role : string; pf_Region : string; pf_Limit : Z }.
Record Provider (E : Type) := {
  GetUser : string → M E User;
  GetSubscription : string → M E Subscription;
  ListNodes : NodeFilter → M E (list Node) }.
Arguments GetUser {E}. Arguments GetSubscription {E}. Arguments ListNodes {E}.
Record TokenIndex (E : Type) := {
  Lookup : string → M E (string * string);
  Register : string → string → string → M E unit;
  Revoke : string → M E unit;
  RevokeByUser : string → M E Z;
  RevokeBySubscription : string → M E Z }.
Arguments Lookup {E}. Arguments Register {E}. Arguments Revoke {E}. Arguments RevokeByUser {E}. Arguments RevokeBySubscription {E}.
Definition HashToken (token : string) : string := sha256_hex (bytes_of token).

(** ** memory.go *)
Record Memory := { m_users : gmap string User; m_subs : gmap string Subscription; m_nodes : list Node; m_tokens : gmap string (string * string) }.
Definition NewMemory : Memory := {| m_users := ∅; m_subs := ∅; m_nodes := []; m_tokens := ∅ |}.
Definition with_tokens (f : gmap string (string * string) → gmap string (string * string)) (m : Memory) : Memory :=
  {| m_users := m_users m; m_subs := m_subs m; m_nodes := m_nodes m; m_tokens := f (m_tokens m) |}.
Definition PutUser (u : User) (m : Memory) : Memory :=
  {| m_users := <[u_ID u := u]> (m_users m); m_subs := m_subs m; m_nodes := m_nodes m; m_tokens := m_tokens m |}.
Definition PutSubscription (s : Subscription) (m : Memory) : Memory :=
  {| m_users := m_users m; m_subs := <[s_ID s := s]> (m_subs m); m_nodes := m_nodes m; m_tokens := m_tokens m |}.
Definition SetNodes (nodes : list Node) (m : Memory) : Memory :=
  {| m_users := m_users m; m_subs := m_subs m; m_nodes := nodes; m_tokens := m_tokens m |}.
Definition found {A} (o : option A) : M Memory A := λ m, (match o with Some a => Ok a | None => Err ErrNotFound end, m).
Definition node_matches (f : NodeFilter) (n : Node) : bool :=
  let ok want got := bool_decide (want = "") || bool_decide (got = want) in
  ok (pf_Status f) (n_Status n) && ok (pf_Role f) (n_Role n) && ok (pf_Region f) (n_Region n).
Definition memory_Provider : Provider Memory := {|
  GetUser := λ id m, found (m_users m !! id) m;
  GetSubscription := λ id m, found (m_subs m !! id) m;
  ListNodes := λ f, gets (λ m,
    let l := filter (λ n, node_matches f n = true) (m_nodes m) in
    if 0 <? pf_Limit f then take (Z.to_nat (pf_Limit f)) l else l) |}.
(** Deleting the matching entries while ranging over the map leaves the others, in any order. *)
Definition revoke_where (p : string * string → bool) : M Memory Z := λ m,
  (Ok (Z.of_nat (size (filter (λ kv, p kv.2 = true) (m_tokens m)))), with_tokens (filter (λ kv, p kv.2 = false)) m).
Definition memory_Index : TokenIndex Memory := {|
  Lookup := λ token m, found (m_tokens m !! HashToken token) m;
  Register := λ token userID subID, modify (with_tokens <[HashToken token := (userID, subID)]>);
  Revoke := λ token, modify (with_tokens (delete (HashToken token)));
  RevokeByUser := λ userID, revoke_where (λ ref, bool_decide (ref.1 = userID));
  RevokeBySubscription := λ subID, revoke_where (λ ref, bool_decide (ref.2 = subID)) |}.

(** ** http.go, authoritative.go

    [Do] is one exchange: method, path, body; a status and the body, of which [httpx.DecodeJSON] reads the
    first MaxBody bytes. The JSON decoders of the answers are parameters. *)
Record HTTPDecoders := {
  hd_user : list Z → option User; hd_subscription : list Z → option Subscription;
  hd_page : list Z → option (list Node * string); hd_binding : list Z → option (string * string);
  hd_any : list Z → option unit }.
Section http.
Context {E : Type} (Do : string → string → string → M E (Z * option (list Z))) (dec : HTTPDecoders).

Definition getJSON {A} (path : string) (decode : list Z → option A) : M E A :=
  resp ←! wrapping "controlplane" (Do "GET" path "") ;
  let '(status, body) := resp : Z * option (list Z) in
  if status =? 404 then fail ErrNotFound
  else if 400 <=? status then fail (Errorf "controlplane: status")
  else match Httpx.DecodeJSON decode body with None => fail (Errorf "controlplane: decode") | Some a => mret a end.

Definition maxPages : nat := 1000.
Definition nodes_query (f : NodeFilter) (cursor : string) : Values :=
  let set (k v : string) (q : Values) : Values := if bool_decide (v = "") then q else <[k := v]> q in
  let q : Values := set "region" (pf_Region f) (set "role" (pf_Role f) (set "status" (pf_Status f) ∅)) in
  let q : Values := if 0 <? pf_Limit f then <["limit" := itoa (pf_Limit f)]> q else q in
  set "cursor" cursor q.
(** The pages from a cursor on: at most [budget] more are asked for. *)
Fixpoint list_pages (budget : nat) (f : NodeFilter) (cursor : string) (all : list Node) : M E (list Node) :=
  match budget with
  | O => fail (Errorf "controlplane /v1/nodes: pagination loop: exceeded pages")
  | S budget =>
      page ←! getJSON ("/v1/nodes?" +:+ Values_Encode (nodes_query f cursor)) (hd_page dec) ;
      let '(items, next) := page : list Node * string in
      let all := all ++ items in
      if bool_decide (next = "") || ((0 <? pf_Limit f) && (pf_Limit f <=? Z.of_nat (length all))) then mret all
      else if bool_decide (next = cursor) then fail (Errorf "controlplane /v1/nodes: pagination loop: cursor did not advance")
      else list_pages budget f next all
  end.
Definition HTTPClient : Provider E := {|
  GetUser := λ id, getJSON ("/v1/users/" +:+ PathEscape id) (hd_user dec);
  GetSubscription := λ id, getJSON ("/v1/subscriptions/" +:+ PathEscape id) (hd_subscription dec);
  ListNodes := λ f, list_pages maxPages f "" [] |}.
Definition Ready : M E unit := getJSON "/readyz" (hd_any dec).

(** The request body is the token's hash as JSON. *)
Definition resolve_body (token : string) : string := json_object [json_field "token_hash" (json_string (HashToken token))].
Definition authoritative_Lookup (token : string) : M E (string * string) :=
  if bool_decide (token = "") || (512 <? Z.of_nat (String.length token)) then fail ErrNotFound
  else
    resp ←! try (Do "POST" "/v1/subscription-tokens/resolve" (resolve_body token)) ;
    match resp with
    | Err _ => fail (Errorf "token authority unavailable")
    | Ok (status, body) =>
        if (status =? 404) || (status =? 410) then fail ErrNotFound
        else if negb (status =? 200) then fail (Errorf "token authority returned status")
        else match Httpx.DecodeJSON (hd_binding dec) body with
             | None => fail (Errorf "invalid token authority response")
             | Some (userID, subID) =>
                 if bool_decide (userID = "") || bool_decide (subID = "") then fail ErrNotFound else mret (userID, subID)
             end
    end.
(** The other methods are those of the index it embeds. *)
Definition AuthoritativeIndex (idx : TokenIndex E) : TokenIndex E := {|
  Lookup := authoritative_Lookup; Register := Register idx; Revoke := Revoke idx;
  RevokeByUser := RevokeByUser idx; RevokeBySubscription := RevokeBySubscription idx |}.
End http.

(** ** Subscription service: reading the registry page by page

    [ListNodes] of the HTTP client always ends, after at most [maxPages] requests, and returns what the pages
    hold. *)
Section pages.
Context {E : Type} (Do : string → string → string → M E (Z * option (list Z))) (dec : HTTPDecoders) (f : NodeFilter).
(** One exchange, recorded with its path *)
Abbreviation Ev := (string * result (Z * option (list Z)))%type.
Definition recorded_Do (method path body : string) : M (Traced E Ev) (Z * option (list Z)) := call (λ r, (path, r)) (Do method path body).
Definition page_path (cursor : string) : string := "/v1/nodes?" +:+ Values_Encode (nodes_query f cursor).
(** The page an exchange gave *)
Definition page_of (o : result (Z * option (list Z))) : option (list Node * string) :=
  match o with
  | Ok (status, body) => if 400 <=? status then None else Httpx.DecodeJSON (hd_page dec) body
  | Err _ => None
  end.
Abbreviation get_page := (λ cursor, getJSON recorded_Do (page_path cursor) (hd_page dec)).
Lemma emits_get_page cursor : emits (get_page cursor) (λ t r, ∃ o, t = [(page_path cursor, o)] ∧ ∀ p, r = Ok p → page_of o = Some p).
Proof.
  intros w. unfold getJSON, mbind, M_bind, wrapping, recorded_Do, call. destruct (Do "GET" (page_path cursor) "" (tw_env w)) as [o e].
  exists [(page_path cursor, o)]. cbn. destruct o as [[status body]|err]; cbn; [|split; [done|]; by eexists].
  destruct (Z.eqb_spec status 404) as [->|_]; [split; [done|]; by eexists|].
  destruct (400 <=? status) eqn:Hs; [split; [done|]; by eexists|].
  destruct (Httpx.DecodeJSON (hd_page dec) body) as [p|] eqn:Hd; (split; [done|]); eexists; (split; [done|]); intros p' [=]; subst; cbn; by rewrite Hs.
Qed.
Definition enough (got : list Node) : bool := (0 <? pf_Limit f) && (pf_Limit f <=? Z.of_nat (length got)).
(** The exchanges from a cursor on: each asks for the cursor the one before gave, and the nodes they hold are
    [got]; the last page ends the list, or fills the limit on top of [before]. *)
Fixpoint read_from (cursor : string) (t : list Ev) (before got : list Node) : Prop :=
  match t with
  | [] => False
  | ev :: t' => ∃ items next, ev.1 = page_path cursor ∧ page_of ev.2 = Some (items, next) ∧
      (t' = [] ∧ got = items ∧ (next = "" ∨ enough (before ++ items) = true) ∨
       ∃ rest, got = items ++ rest ∧ read_from next t' (before ++ items) rest)
  end.
Lemma emits_list_pages budget : ∀ cursor all, emits (list_pages recorded_Do dec budget f cursor all) (λ t r,
  (length t <= budget)%nat ∧ ∀ l, r = Ok l → ∃ got, l = all ++ got ∧ read_from cursor t all got).
Proof.
  induction budget as [|budget IH]; intros cursor all; cbn [list_pages].
  - eapply emits_mono; [apply emits_fail|]. intros t r [-> ->]. split; [cbn; lia|done].
  - eapply emits_then; [apply emits_get_page| |].
    + intros t1 [items next] (o & -> & Ho). specialize (Ho _ eq_refl). cbv zeta. destruct (_ || _) eqn:Hend.
      * eapply emits_mono; [apply emits_ret|]. intros t r [-> ->]. split; [cbn; lia|]. intros l [= <-]. exists items. split; [done|].
        exists items, next. split_and!; [done..|]. left. split_and!; [done..|]. apply orb_true_iff in Hend as [?%bool_decide_eq_true|?]; auto.
      * destruct (bool_decide (next = cursor)).
        -- eapply emits_mono; [apply emits_fail|]. intros t r [-> ->]. split; [cbn; lia|done].
        -- eapply emits_mono; [apply IH|]. intros t r [Hl Hok]. split; [cbn; lia|]. intros l Hr.
           destruct (Hok l Hr) as (got & -> & Hg). exists (items ++ got). split; [by rewrite app_assoc|].
           exists items, next. split_and!; [done..|]. right. by exists got.
    + intros t e (o & -> & _). split; [cbn; lia|done].
Qed.

(** A server that holds the pages [ps] from [cursor] on, and answers them in any state *)
Definition holds (cursor : string) (p : list Node * string) : Prop := ∀ e, ∃ status body e',
  Do "GET" (page_path cursor) "" e = (Ok (status, body), e') ∧ status < 400 ∧ Httpx.DecodeJSON (hd_page dec) body = Some p.
Fixpoint serves (cursor : string) (ps : list (list Node * string)) : Prop :=
  match ps with
  | [] => False
  | p :: ps' => holds cursor p ∧ match ps' with [] => p.2 = "" | _ => p.2 ≠ "" ∧ p.2 ≠ cursor ∧ serves p.2 ps' end
  end.
Lemma list_pages_serves ps : ∀ budget cursor all e, (length ps <= budget)%nat → serves cursor ps → pf_Limit f <= 0 →
  (list_pages Do dec budget f cursor all e).1 = Ok (all ++ concat ps.*1).
Proof.
  induction ps as [|[items next] ps IH]; intros [|budget] cursor all e Hlen Hs Hl; cbn in Hlen; [done|done|lia|].
  destruct Hs as [Hh Hs]. destruct (Hh e) as (status & body & e' & Hd & Hst & Hp). cbn [list_pages].
  unfold mbind, M_bind, getJSON, wrapping. cbv beta. unfold mbind, M_bind. fold (page_path cursor). rewrite Hd.
  destruct (Z.eqb_spec status 404) as [->|_]; [lia|]. destruct (Z.leb_spec 400 status); [lia|]. rewrite Hp. cbn -[list_pages].
  destruct (Z.ltb_spec 0 (pf_Limit f)); [lia|]. cbn [andb]. rewrite orb_false_r. destruct ps as [|p ps].
  - cbn in Hs. subst next. cbn. by rewrite app_nil_r.
  - destruct Hs as (Hn & Hc & Hs). cbn in Hn, Hc, Hs. rewrite !bool_decide_eq_false_2 by done. rewrite IH; [|cbn in *; lia|done|done].
    cbn. by rewrite <-app_assoc.
Qed.
End pages.

(** C37: listing the registry ends. Whatever the server answers, the client makes at most a thousand requests,
    following the cursors it is given; what it returns is exactly the nodes of the pages it read up to the last
    one or the limit; and from a server that holds at most a thousand pages whose cursors advance, it returns
    all their nodes. *)
Theorem ListNodes_ends {E} Do (dec : HTTPDecoders) f :
  emits (ListNodes (HTTPClient (recorded_Do (E := E) Do) dec) f) (λ t r,
    (length t <= 1000)%nat ∧ ∀ nodes, r = Ok nodes → read_from dec f "" t [] nodes) ∧
  ∀ ps e, serves Do dec f "" ps → (length ps <= 1000)%nat → pf_Limit f <= 0 →
    (ListNodes (HTTPClient Do dec) f e).1 = Ok (concat ps.*1).
Proof.
  split.
  - eapply emits_mono; [apply emits_list_pages|]. intros t r [Hl Hok]. split; [exact Hl|]. intros nodes Hr.
    by destruct (Hok nodes Hr) as (got & -> & Hg).
  - intros ps e Hs Hl Hlim. by apply (list_pages_serves Do dec f ps maxPages "" [] e).
Qed.

(** ** Two pages *)
Definition page_node (id : string) : Node := {|
  n_ID := id; n_Role := NodeRoleEntry; n_Status := NodeStatusActive; n_EntryNodeID := None; n_Provider := ""; n_Cloud := ""; n_Region := "";
  n_EntryIP := ""; n_EphemeralEntryIP := false; n_Transports := []; n_CapacityUsers := 0; n_RotateAfter := None; n_CreatedAt := zero_time;
  n_ExpiresAt := None; n_Labels := ∅ |}.
Definition two_pages_Do (method path body : string) : M unit (Z * option (list Z)) :=
  mret (200, Some (if bool_decide (path = "/v1/nodes?cursor=2&status=active") then [2] else [1])).
Definition two_pages_dec : HTTPDecoders := {|
  hd_user := λ _, None; hd_subscription := λ _, None; hd_binding := λ _, None; hd_any := λ _, None;
  hd_page := λ b, if bool_decide (b = [1]) then Some ([page_node "a"; page_node "b"], "2") else Some ([page_node "c"], "") |}.
Lemma ListNodes_ends_witness :
  (ListNodes (HTTPClient two_pages_Do two_pages_dec) {| pf_Status := NodeStatusActive; pf_Role := ""; pf_Region := ""; pf_Limit := 0 |} tt).1
  = Ok [page_node "a"; page_node "b"; page_node "c"].
Proof.
  refine (proj2 (ListNodes_ends two_pages_Do two_pages_dec {| pf_Status := NodeStatusActive; pf_Role := ""; pf_Region := ""; pf_Limit := 0 |})
    [([page_node "a"; page_node "b"], "2"); ([page_node "c"], "")] tt _ _ _).
  - split; [|split; [discriminate|split; [discriminate|split]]].
    + intros []. eexists _, _, _. split; [reflexivity|]. split; [lia|vm_compute; reflexivity].
    + intros []. eexists _, _, _. split; [reflexivity|]. split; [lia|vm_compute; reflexivity].
    + reflexivity.
  - cbn. lia.
  - discriminate.
Defined.
