(* ===== verification/SubscriptionResolve.v ===== *)
(** * Subscription service: resolving a token and personalizing the bundle

    services/subscription/internal: resolve/resolve.go, personalize/personalize.go, personalize/public.go. *)
From S2P Require Import Prelude GoBytes GoText Contracts SubscriptionOutput SubscriptionProvider.

(** ** resolve.go *)
Definition ErrUnknownToken : error := Sentinel "resolve: unknown or revoked token".
Definition ErrNoSubscription : error := Sentinel "resolve: no subscription for token".
Definition ErrExpired : error := Sentinel "resolve: subscription expired".
Record Resolved := { rs_Bundle : SubscriptionBundle; rs_Subscription : Subscription }.

Section resolve.
Context {E : Type} (idx : TokenIndex E) (cp : Provider E) (now : E → Time * E).
Definition clock : M E Time := λ e, let '(t, e) := now e in (Ok t, e).
(** [errors.Is(err, ErrNotFound)] becomes [target]. *)
Definition not_found_as {A} (target : error) (m : M E A) : M E A := λ e,
  match m e with
  | (Ok a, e) => (Ok a, e)
  | (Err err, e) => (Err (if errors_is err ErrNotFound then target else err), e)
  end.
Definition checkSubscription (s : Subscription) : M E unit :=
  if one_of (s_Status s) [SubscriptionStatusActive; SubscriptionStatusTrialing; SubscriptionStatusPastDue] then
    match AccessUntil s with
    | None => mret tt
    | Some until => t ←! clock ; if negb (After until t) then fail ErrExpired else mret tt
    end
  else fail ErrExpired.
Definition Resolve (token : string) : M E Resolved :=
  ref ←! not_found_as ErrUnknownToken (Lookup idx token) ;
  let '(userID, subID) := ref : string * string in
  sub ←! not_found_as ErrNoSubscription (GetSubscription cp subID) ;
  checkSubscription sub ;;!
  user ←! not_found_as ErrNoSubscription (GetUser cp userID) ;
  if negb (bool_decide (u_Status user = UserStatusActive)) then fail ErrUnknownToken
  else
    nodes ←! ListNodes cp {| pf_Status := NodeStatusActive; pf_Role := ""; pf_Region := ""; pf_Limit := 0 |} ;
    t ←! clock ;
    mret {| rs_Bundle := {| sb_User := user; sb_Nodes := nodes; sb_GeneratedAt := t |}; rs_Subscription := sub |}.
End resolve.

(** ** personalize.go *)
Definition minTransportDiversity : nat := 2.
Definition maxBasicNodes : nat := 5.
Definition labelBlocked : string := "blocked".
Definition labelTier : string := "tier".
Definition labelPlatformExclude : string := "platform_exclude".
Record Params := { pm_Region : string; pm_Platform : string }.
Record Result := { re_Bundle : SubscriptionBundle; re_Types : list TransportType; re_Relaxed : bool }.

(** [n.Labels\[k\] == v]: a missing label reads as the empty string. *)
Definition label_is (n : Node) (k v : string) : bool := bool_decide (default "" (n_Labels n !! k) = v).
Definition enabled (n : Node) : list Transport := filter (λ t, t_Enabled t = true) (n_Transports n).
Definition servable_node (n : Node) : bool :=
  one_of (n_Status n) [NodeStatusActive; NodeStatusDegraded] && negb (label_is n labelBlocked "true") &&
  negb (Nat.eqb (length (enabled n)) 0).
Definition dropBlocked (nodes : list Node) : list Node := filter (λ n, servable_node n = true) nodes.
Definition filterRegion (region : string) (nodes : list Node) : list Node :=
  if bool_decide (region = "") then nodes
  else let m := filter (λ n, n_Region n = region) nodes in if Nat.eqb (length m) 0 then nodes else m.
Definition filterPlatform (platform : string) (nodes : list Node) : list Node :=
  if bool_decide (platform = "") then nodes
  else filter (λ n, label_is n labelPlatformExclude platform = false) nodes.
Definition filterPlan (plan : SubscriptionPlan) (nodes : list Node) : list Node :=
  if bool_decide (plan = SubscriptionPlanUnlimited) then nodes
  else take maxBasicNodes (filter (λ n, label_is n labelTier "premium" = false) nodes).
(** The first occurrences, in order *)
Fixpoint first_seen (seen l : list TransportType) : list TransportType :=
  match l with
  | [] => []
  | t :: l' => if bool_decide (t ∈ seen) then first_seen seen l' else t :: first_seen (t :: seen) l'
  end.
Definition DistinctTransportTypes (nodes : list Node) : list TransportType :=
  first_seen [] (t_Type <$> concat (enabled <$> nodes)).
Definition Filter (b : SubscriptionBundle) (plan : SubscriptionPlan) (p : Params) : Result :=
  let servable := dropBlocked (sb_Nodes b) in
  let kept := filterPlan plan (filterPlatform (pm_Platform p) (filterRegion (pm_Region p) servable)) in
  let relaxed := (length (DistinctTransportTypes kept) <? minTransportDiversity)%nat &&
                 (minTransportDiversity <=? length (DistinctTransportTypes servable))%nat in
  let kept := if relaxed then servable else kept in
  {| re_Bundle := with_nodes kept b; re_Types := DistinctTransportTypes kept; re_Relaxed := relaxed |}.

(** ** public.go *)
Definition public_user (u : User) : User := {|
  u_ID := u_ID u; u_TelegramID := None; u_Email := None; u_Status := u_Status u; u_RealityShortID := u_RealityShortID u;
  u_UUID := u_UUID u; u_Hysteria2Password := u_Hysteria2Password u; u_PrivateKey := "";
  u_SubscriptionID := u_SubscriptionID u; u_DeviceLimit := u_DeviceLimit u; u_QuotaBytes := u_QuotaBytes u;
  u_UsedBytes := u_UsedBytes u; u_CreatedAt := u_CreatedAt u; u_UpdatedAt := u_UpdatedAt u |}.
Definition with_variants (v : option VlessRealityParams) (h : option Hysteria2Params) (t : Transport) : Transport := {|
  t_Tag := t_Tag t; t_Type := t_Type t; t_Version := t_Version t; t_Port := t_Port t; t_Enabled := t_Enabled t;
  t_Priority := t_Priority t; t_VlessReality := v; t_AmneziaWG := t_AmneziaWG t; t_Hysteria2 := h;
  t_Shadowsocks2022 := t_Shadowsocks2022 t |}.
Definition with_ShortIDs (ids : list string) (p : VlessRealityParams) : VlessRealityParams := {|
  vr_ServerNames := vr_ServerNames p; vr_Dest := vr_Dest p; vr_PublicKey := vr_PublicKey p; vr_ShortIDs := ids;
  vr_Flow := vr_Flow p; vr_Fingerprint := vr_Fingerprint p; vr_SpiderX := vr_SpiderX p |}.
Definition with_Password (pw : string) (p : Hysteria2Params) : Hysteria2Params := {|
  hy_Obfs := hy_Obfs p; hy_ObfsPassword := hy_ObfsPassword p; hy_Password := pw; hy_SNI := hy_SNI p;
  hy_UpMbps := hy_UpMbps p; hy_DownMbps := hy_DownMbps p; hy_Insecure := hy_Insecure p |}.
Definition with_Transports (ts : list Transport) (n : Node) : Node := {|
  n_ID := n_ID n; n_Role := n_Role n; n_Status := n_Status n; n_EntryNodeID := n_EntryNodeID n; n_Provider := n_Provider n;
  n_Cloud := n_Cloud n; n_Region := n_Region n; n_EntryIP := n_EntryIP n; n_EphemeralEntryIP := n_EphemeralEntryIP n;
  n_Transports := ts; n_CapacityUsers := n_CapacityUsers n; n_RotateAfter := n_RotateAfter n; n_CreatedAt := n_CreatedAt n;
  n_ExpiresAt := n_ExpiresAt n; n_Labels := n_Labels n |}.
(** One transport: left out ([Ok None]), stamped, or the whole bundle fails. *)
Definition public_transport (u : User) (t : Transport) : result (option Transport) :=
  if negb (t_Enabled t) then Ok None
  else if bool_decide (t_Type t = TransportVlessReality) then
    match t_VlessReality t with
    | Some p => if bool_decide (u_UUID u = "") || bool_decide (u_RealityShortID u = "")
                then Err (Errorf "personal VLESS credentials unavailable")
                else Ok (Some (with_variants (Some (with_ShortIDs [u_RealityShortID u] p)) (t_Hysteria2 t) t))
    | None => Err (Errorf "personal VLESS credentials unavailable")
    end
  else if bool_decide (t_Type t = TransportHysteria2) then
    match t_Hysteria2 t with
    | Some p => if bool_decide (u_Hysteria2Password u = "") then Err (Errorf "personal Hysteria2 credentials unavailable")
                else Ok (Some (with_variants (t_VlessReality t) (Some (with_Password (u_Hysteria2Password u) p)) t))
    | None => Err (Errorf "personal Hysteria2 credentials unavailable")
    end
  else Ok None.
Fixpoint public_transports (u : User) (ts : list Transport) : result (list Transport) :=
  match ts with
  | [] => Ok []
  | t :: ts' =>
      match public_transport u t with
      | Err e => Err e
      | Ok o => match public_transports u ts' with Err e => Err e | Ok r => Ok (option_list o ++ r) end
      end
  end.
Fixpoint public_nodes (u : User) (ns : list Node) : result (list Node) :=
  match ns with
  | [] => Ok []
  | n :: ns' =>
      if bool_decide (n_Role n = NodeRoleExit) then public_nodes u ns'
      else
        match public_transports u (n_Transports n) with
        | Err e => Err e
        | Ok ts =>
            match public_nodes u ns' with
            | Err e => Err e
            | Ok r => Ok (if Nat.eqb (length ts) 0 then r else with_Transports ts n :: r)
            end
        end
  end.
Definition PublicBundle (b : SubscriptionBundle) : result SubscriptionBundle :=
  match public_nodes (sb_User b) (sb_Nodes b) with
  | Err e => Err e
  | Ok [] => Err (Errorf "no eligible VPN nodes")
  | Ok nodes => Ok {| sb_User := public_user (sb_User b); sb_Nodes := nodes; sb_GeneratedAt := sb_GeneratedAt b |}
  end.
