(* ===== verification/SubscriptionCache.v ===== *)
(** * Subscription service: the render cache (services/subscription/internal/cache/cache.go)

    A method holds the cache's mutex and is one atomic step; it reads the clock of the environment [E] where
    the code does. *)
From S2P Require Import Prelude GoBytes GoText.

Definition maxEntries : Z := 100000.
Definition minSweep : Z := 1024.
Record Entry := { en_Body : string; en_ContentType : string; en_Headers : gmap string string }.
Record stored := { st_Entry : Entry; st_version : Z; st_expires : Time }.
Record Cache := mkCache { ca_ttl : Duration; ca_version : Z; ca_entries : gmap string stored; ca_sweepAt : Z }.
Definition New (ttl : Duration) : Cache := mkCache ttl 0 ∅ 0.
Definition with_entries (f : gmap string stored → gmap string stored) (c : Cache) : Cache :=
  mkCache (ca_ttl c) (ca_version c) (f (ca_entries c)) (ca_sweepAt c).
Definition with_sweepAt (n : Z) (c : Cache) : Cache := mkCache (ca_ttl c) (ca_version c) (ca_entries c) n.
Definition key (token format : string) : string := token +:+ "|" +:+ format.
Definition cache_len (c : Cache) : Z := Z.of_nat (size (ca_entries c)).
Definition dead (c : Cache) (now : Time) (s : stored) : bool :=
  negb (st_version s =? ca_version c) || negb (After (st_expires s) now).
Definition drop_dead (now : Time) (c : Cache) : Cache := with_entries (filter (λ kv, dead c now kv.2 = false)) c.

Section cache.
Context `{ord : !MapOrder} {E : Type} (now : E → Time * E).
Abbreviation CM := (M (Cache * E)).
Definition clock : CM Time := λ s, let '(t, e) := now s.2 in (Ok t, (s.1, e)).
Definition get_cache : CM Cache := λ s, (Ok s.1, s).
Definition on_cache (f : Cache → Cache) : CM unit := λ s, (Ok tt, (f s.1, s.2)).

Definition Get (token format : string) : CM (option Entry) :=
  let k := key token format in
  c ←! get_cache ;
  match ca_entries c !! k with
  | None => mret None
  | Some s =>
      if negb (st_version s =? ca_version c) then on_cache (with_entries (delete k)) ;;! mret None
      else
        t ←! clock ;
        if negb (After (st_expires s) t) then on_cache (with_entries (delete k)) ;;! mret None
        else mret (Some (st_Entry s))
  end.
(** Deletion in the order of the map until there is room *)
Definition make_room (c : Cache) : Cache :=
  with_entries (λ m, foldl (λ m kv, if Z.of_nat (size m) <? maxEntries then m else delete kv.1 m) m (range m)) c.
Definition evictLocked : CM unit :=
  t ←! clock ; on_cache (λ c, make_room (drop_dead t c)).
Definition maybeSweep : CM unit :=
  c ←! get_cache ;
  if (cache_len c <? ca_sweepAt c) || (cache_len c <? minSweep) then mret tt
  else t ←! clock ; on_cache (λ c, let c := drop_dead t c in with_sweepAt (2 * cache_len c) c).
Definition Put (token format : string) (e : Entry) : CM unit :=
  let k := key token format in
  c ←! get_cache ;
  (if bool_decide (ca_entries c !! k = None) && (maxEntries <=? cache_len c) then evictLocked else mret tt) ;;!
  t ←! clock ;
  on_cache (λ c, with_entries <[k := {| st_Entry := e; st_version := ca_version c; st_expires := Add t (ca_ttl c) |}]> c) ;;!
  maybeSweep.
Definition InvalidateAll : CM unit :=
  on_cache (λ c, mkCache (ca_ttl c) ((ca_version c + 1) mod 2 ^ 64) (ca_entries c) (ca_sweepAt c)).
Definition InvalidateToken (token : string) : CM unit :=
  on_cache (with_entries (filter (λ kv : string * stored, HasPrefix kv.1 (token +:+ "|") = false))).
End cache.

(** ** Subscription service: laws of the render cache

    What each operation does to the entries, that the cache never outgrows its bound, and that nothing
    invalidated or expired is ever returned. *)
Section laws.
Context `{ord : !MapOrder} {E : Type} (now : E → Time * E).

Lemma make_room_sub c : ca_entries (make_room c) ⊆ ca_entries c.
Proof.
  unfold make_room. cbn. generalize (range (ca_entries c)) as l. intros l. generalize (ca_entries c) as m.
  induction l as [|kv l IH]; intros m; [done|]. cbn [foldl]. etrans; [apply IH|]. destruct (_ <? _); [done|apply delete_subseteq].
Qed.
(** Once the keys are gone through there is room. *)
Lemma make_room_len c : cache_len (make_room c) < maxEntries.
Proof.
  unfold make_room, cache_len. cbn. set (f := λ (m : gmap string stored) (kv : string * stored), _).
  assert (∀ l (m : gmap string stored), (∀ k s, m !! k = Some s → k ∈ l.*1) → Z.of_nat (size (foldl f m l)) < maxEntries) as H.
  { intros l. induction l as [|[k s] l IH]; intros m Hm.
    - assert (m = ∅) as -> by (apply map_eq; intros k; destruct (m !! k) as [s|] eqn:E0; [by apply Hm, elem_of_nil in E0|by rewrite lookup_empty]).
      cbn. rewrite map_size_empty. done.
    - cbn [foldl]. assert (∀ (m : gmap string stored) l, Z.of_nat (size m) < maxEntries → Z.of_nat (size (foldl f m l)) < maxEntries) as Hroom.
      { clear. intros m l. revert m. induction l as [|kv l IH]; intros m Hm; [done|]. cbn [foldl]. apply IH. unfold f.
        destruct (Z.ltb_spec (Z.of_nat (size m)) maxEntries); lia. }
      unfold f at 2. destruct (Z.ltb_spec (Z.of_nat (size m)) maxEntries) as [Hlt|]; [by apply Hroom|]. apply IH.
      intros k' s' Hk. cbn in Hk. rewrite lookup_delete_Some in Hk. destruct Hk as [Hne Hk]. apply Hm in Hk. cbn in Hk.
      apply elem_of_cons in Hk as [->|]; done. }
  apply H. intros k s Hk. apply list_elem_of_fmap. exists (k, s). split; [done|]. by apply elem_of_range.
Qed.
Lemma drop_dead_sub t c : ca_entries (drop_dead t c) ⊆ ca_entries c.
Proof. unfold drop_dead. cbn. apply map_filter_subseteq. Qed.
Lemma cache_len_sub c c' : ca_entries c' ⊆ ca_entries c → cache_len c' <= cache_len c.
Proof. intros H. unfold cache_len. apply map_subseteq_size in H. lia. Qed.

(** A read leaves the cache smaller or as it was; what it returns is stored under the key, with the current
    version and a life beyond the reading of the clock. *)
Lemma Get_spec token format c e : ∃ r c' e', Get now token format (c, e) = (Ok r, (c', e')) ∧
  ca_entries c' ⊆ ca_entries c ∧ ca_version c' = ca_version c ∧ ca_ttl c' = ca_ttl c ∧
  match r with
  | Some en => c' = c ∧ ∃ s, ca_entries c !! key token format = Some s ∧ st_Entry s = en ∧ st_version s = ca_version c ∧ (now e).1 < st_expires s
  | None => ca_entries c' !! key token format = None
  end.
Proof.
  unfold Get. cbv zeta. unfold mbind, M_bind, get_cache. cbn [fst snd]. destruct (ca_entries c !! key token format) as [s|] eqn:Hs.
  - destruct (Z.eqb_spec (st_version s) (ca_version c)) as [Hv|]; cbn [negb].
    + unfold clock. cbn [snd fst]. destruct (now e) as [t e1] eqn:Hn. cbn. unfold After.
      destruct (Z.ltb_spec t (st_expires s)); cbn [negb].
      * eexists _, _, _. split; [reflexivity|]. split_and!; [done..|]. by exists s.
      * eexists _, _, _. split; [reflexivity|]. cbn. split_and!; [apply delete_subseteq|done|done|apply lookup_delete_eq].
    + eexists _, _, _. split; [reflexivity|]. cbn. split_and!; [apply delete_subseteq|done|done|apply lookup_delete_eq].
  - eexists _, _, _. split; [reflexivity|]. done.
Qed.
(** A write adds its own entry only, and keeps within the bound. *)
Lemma Put_spec token format en c e : ∃ c' e', Put now token format en (c, e) = (Ok tt, (c', e')) ∧
  (∀ k s, ca_entries c' !! k = Some s → k = key token format ∧ st_Entry s = en ∧ st_version s = ca_version c ∨ ca_entries c !! k = Some s) ∧
  ca_version c' = ca_version c ∧ (cache_len c <= maxEntries → cache_len c' <= maxEntries).
Proof.
  assert (∀ c1 e1, ca_version c1 = ca_version c → ca_entries c1 ⊆ ca_entries c →
    (cache_len c <= maxEntries → (∃ s, ca_entries c1 !! key token format = Some s) ∧ cache_len c1 <= maxEntries ∨ cache_len c1 < maxEntries) →
    ∃ c' e', (t ←! clock now ;
      on_cache (λ c, with_entries <[key token format := {| st_Entry := en; st_version := ca_version c; st_expires := Add t (ca_ttl c) |}]> c) ;;!
      maybeSweep now) (c1, e1) = (Ok tt, (c', e')) ∧
    (∀ k s, ca_entries c' !! k = Some s → k = key token format ∧ st_Entry s = en ∧ st_version s = ca_version c ∨ ca_entries c !! k = Some s) ∧
    ca_version c' = ca_version c ∧ (cache_len c <= maxEntries → cache_len c' <= maxEntries)) as Hrest.
  { intros c1 e1 Hv Hsub Hlen. unfold mbind, M_bind, clock, on_cache. cbn [fst snd]. destruct (now e1) as [t e2].
    set (c2 := with_entries <[key token format := {| st_Entry := en; st_version := ca_version c1; st_expires := Add t (ca_ttl c1) |}]> c1). assert (∀ c3, ca_entries c3 ⊆ ca_entries c2 → ca_version c3 = ca_version c →
      (∀ k s, ca_entries c3 !! k = Some s → k = key token format ∧ st_Entry s = en ∧ st_version s = ca_version c ∨ ca_entries c !! k = Some s) ∧
      ca_version c3 = ca_version c ∧ (cache_len c <= maxEntries → cache_len c3 <= maxEntries)) as H3.
    { intros c3 H3 Hv3. split_and!; [|done|].
      - intros k s Hk. eapply lookup_weaken in Hk; [|exact H3]. cbn in Hk. rewrite lookup_insert_Some in Hk.
        destruct Hk as [[<- <-]|[_ Hk]]; [left; by rewrite <-Hv|right; by eapply lookup_weaken].
      - intros Hl. apply Hlen in Hl. apply cache_len_sub in H3. assert (cache_len c2 <= maxEntries) as ?; [|lia].
        unfold cache_len in *. cbn. destruct Hl as [[[s Hs] Hl]|Hl]; [by rewrite map_size_insert_Some by (by eexists)|].
        rewrite map_size_insert. case_match; cbn; lia. }
    unfold maybeSweep, mbind, M_bind, get_cache. cbn [fst snd]. destruct (_ || _); [eexists _, _; split; [reflexivity|by apply H3]|].
    unfold clock. cbn [fst snd]. destruct (now e2) as [t2 e3]. eexists _, _. split; [reflexivity|]. apply H3; [apply drop_dead_sub|done]. }
  unfold Put. cbv zeta. unfold mbind at 1, M_bind at 1, get_cache. cbn [fst snd].
  destruct (bool_decide_reflect (ca_entries c !! key token format = None)) as [Hn|Hn]; cbn [andb].
  - destruct (Z.leb_spec maxEntries (cache_len c)) as [Hf|Hf].
    + unfold evictLocked. unfold mbind at 1, M_bind at 1. unfold mbind at 1, M_bind at 1. unfold clock at 1. cbn [fst snd].
      destruct (now e) as [t e1]. unfold on_cache at 1. cbn [fst snd]. apply Hrest; [done| |].
      * etrans; [apply make_room_sub|apply drop_dead_sub].
      * intros _. right. apply make_room_len.
    + apply Hrest; [done|done|]. by right.
  - apply Hrest; [done|done|]. intros Hl. left. split; [|done]. destruct (ca_entries c !! key token format); [by eexists|done].
Qed.
Lemma InvalidateAll_spec c e : ∃ c', InvalidateAll (E := E) (c, e) = (Ok tt, (c', e)) ∧ ca_entries c' = ca_entries c ∧
  ca_version c' = (ca_version c + 1) mod 2 ^ 64.
Proof. eexists. split; [reflexivity|done]. Qed.
Lemma InvalidateToken_spec token c e : ∃ c', InvalidateToken (E := E) token (c, e) = (Ok tt, (c', e)) ∧ ca_entries c' ⊆ ca_entries c ∧
  ca_version c' = ca_version c ∧ ∀ format, ca_entries c' !! key token format = None.
Proof.
  eexists. split; [reflexivity|]. cbn. split_and!; [apply map_filter_subseteq|done|]. intros format.
  apply map_lookup_filter_None. right. intros s _. cbn. unfold HasPrefix, key. intros Hp.
  assert (∀ p x, String.prefix p (p +:+ x) = true) as Hpre.
  { intros p x. induction p as [|a p IH]; [by destruct x|]. simpl. destruct (Ascii.ascii_dec a a); [exact IH|done]. }
  specialize (Hpre (token +:+ "|") format). rewrite <-(assoc_L String.append) in Hpre. cbn in Hpre, Hp. congruence.
Qed.
End laws.
