(* ===== verification/SubscriptionHttp.v ===== *)
(** * Subscription service: the HTTP surface (services/subscription/internal/httpapi)

    Every handler as a computation on the service's state: the limiter's peers, the render cache and the
    environment [E] behind the token index, the control-plane and the clock. A request carries its decoded path
    and its first query values. The JSON decoders of the internal callbacks are parameters. *)
From S2P Require Import Prelude GoBytes GoText GoCodec Contracts GoUrl GoFloat Platform SubscriptionOutput SubscriptionProvider SubscriptionResolve SubscriptionCache.

Record Config := {
  cf_PublicBaseURL : string; cf_InternalToken : string; cf_ProfileUpdateHours : Z; cf_ProfileTitle : string;
  cf_SupportURL : string; cf_ProfileWebPageURL : string; cf_Announce : string; cf_Routing : RoutingPolicy }.
Record registerReq := { rr_Token : string; rr_UserID : string; rr_SubscriptionID : string }.
Record revokeReq := { vr_Token : string; vr_UserID : string; vr_SubscriptionID : string }.
Record invalidateReq := { ir_NodeID : string; ir_Token : string }.
Record InternalDecoders := {
  id_register : list Z → option registerReq; id_revoke : list Z → option revokeReq; id_invalidate : list Z → option invalidateReq }.
Definition maxInternalBody : nat := Z.to_nat 65536.
(** [path.Clean] of a rooted path *)
Definition clean_step (stack : list (list Z)) (e : list Z) : list (list Z) :=
  if bool_decide (e = []) || bool_decide (e = [46]) then stack
  else if bool_decide (e = [46; 46]) then tail stack else e :: stack.
Definition Clean (p : string) : string :=
  "/" +:+ join "/" (string_of_bytes <$> reverse (foldl clean_step [] (split_bytes 47 [] (bytes_of p)))).

(** ** Pure parts of sub.go *)
Definition cacheFormatKey (format : Format) (p : Params) : string :=
  if bool_decide (pm_Region p = "") && bool_decide (pm_Platform p = "") then format
  else format +:+ ":" +:+ pm_Region p +:+ ":" +:+ pm_Platform p.
Definition requestSubscriptionURL (r : Request) (token : string) : string :=
  let scheme := if rq_TLS r then "https"
                else if bool_decide (header r "X-Forwarded-Proto" = "") then "http" else header r "X-Forwarded-Proto" in
  let host := if bool_decide (header r "X-Forwarded-Host" = "") then rq_Host r else header r "X-Forwarded-Host" in
  URL_String scheme host ("/sub/" +:+ PathEscape token).
Definition writeCached (e : Entry) : Response := {|
  rsp_Status := 200; rsp_Body := en_Body e;
  rsp_Header := <["Content-Type" := en_ContentType e]> (en_Headers e ∪ <["Cache-Control" := "no-store"]> (<["Referrer-Policy" := "no-referrer"]> ∅)) |}.
Definition writeResolveError (e : error) : Response :=
  if errors_is e ErrUnknownToken then Error 401 "unknown or revoked token"
  else if errors_is e ErrNoSubscription then Error 404 "no active subscription for token"
  else if errors_is e ErrExpired then Error 410 "subscription expired"
  else Error 502 "upstream error".
Definition plain (status : Z) (contentType body : string) : Response :=
  {| rsp_Status := status; rsp_Header := <["Content-Type" := contentType]> ∅; rsp_Body := body |}.
Definition NoContent : Response := {| rsp_Status := 204; rsp_Header := ∅; rsp_Body := "" |}.
Definition unavailable : Response := Error 503 "VPN temporarily unavailable".
(** The JSON of what a payload depends on, without the time it was put together *)
Definition without_time (b : SubscriptionBundle) : SubscriptionBundle :=
  {| sb_User := sb_User b; sb_Nodes := sb_Nodes b; sb_GeneratedAt := zero_time |}.
Definition snapshot (b : SubscriptionBundle) (sub : Subscription) : option (list Z) :=
  j ← SubscriptionBundle_json (without_time b); s ← Subscription_json sub;
  Some (bytes_of (Marshal (JObj [("Bundle", j); ("Subscription", s)]))).
Definition request_params (r : Request) : Params := {| pm_Region := query r "region"; pm_Platform := query r "platform" |}.
Definition unescaped (token : string) : string := default token (PathUnescape token).

Section server.
Context `{ord : !MapOrder} `{NetIP} {E : Type} (cfg : Config) (idx : TokenIndex E) (cp : Provider E) (now : E → Time * E).
Context (dec : InternalDecoders) (proxies : list Prefix) (ready : option (M E unit)).
Record State := mkState { st_peers : gmap string bucket; st_cache : Cache; st_env : E }.
Abbreviation SM := (M State).
Definition on_env {A} (m : M E A) : SM A := λ s, let '(r, e) := m (st_env s) in (r, mkState (st_peers s) (st_cache s) e).
Definition on_cache {A} (m : M (Cache * E) A) : SM A := λ s,
  let '(r, ce) := m (st_cache s, st_env s) in (r, mkState (st_peers s) ce.1 ce.2).

Definition happHeaders (sub : Subscription) (user : User) : gmap string string :=
  WriteHappHeaders (HappMetaFor sub user (cf_ProfileUpdateHours cfg) (cf_ProfileTitle cfg) (cf_Announce cfg)
    (cf_SupportURL cfg) (cf_ProfileWebPageURL cfg)) ∅.
Definition serveSubscription (r : Request) (token : string) : SM Response :=
  let format := Negotiate (query r "format") (header r "Accept") (header r "User-Agent") in
  let params := request_params r in
  res ←! try (on_env (Resolve idx cp now token)) ;
  match res with
  | Err e => mret (writeResolveError e)
  | Ok res =>
      match PublicBundle (re_Bundle (Filter (rs_Bundle res) (s_Plan (rs_Subscription res)) params)) with
      | Err _ => mret unavailable
      | Ok bundle =>
          match snapshot bundle (rs_Subscription res) with
          | None => mret (Error 500 "render failed")
          | Some snap =>
              let cacheKey := cacheFormatKey format params +:+ ":" +:+ sha256_hex snap in
              hit ←! on_cache (Get now token cacheKey) ;
              match hit with
              | Some e => mret (writeCached e)
              | None =>
                  match Render (cf_Routing cfg) format bundle with
                  | Err e => mret (if errors_is e ErrUnavailable then unavailable else Error 500 "render failed")
                  | Ok (body, ct) =>
                      let entry := {| en_Body := body; en_ContentType := ct;
                                      en_Headers := happHeaders (rs_Subscription res) (sb_User (rs_Bundle res)) |} in
                      on_cache (Put now token cacheKey entry) ;;!
                      mret (writeCached entry)
                  end
              end
          end
      end
  end.
Definition serveNodes (r : Request) (token : string) : SM Response :=
  res ←! try (on_env (Resolve idx cp now (unescaped token))) ;
  match res with
  | Err e => mret (writeResolveError e)
  | Ok res =>
      match PublicBundle (re_Bundle (Filter (rs_Bundle res) (s_Plan (rs_Subscription res)) (request_params r))) with
      | Err _ => mret unavailable
      | Ok bundle => mret (plain 200 CTSingBox (match SubscriptionBundle_json bundle with
                                                | Some j => Marshal j +:+ newline | None => "" end))
      end
  end.
Definition serveDeepLink (r : Request) (token : string) : SM Response :=
  let token := unescaped token in
  res ←! try (on_env (Resolve idx cp now token)) ;
  match res with
  | Err e => mret (writeResolveError e)
  | Ok _ =>
      let url := if bool_decide (cf_PublicBaseURL cfg = "") then requestSubscriptionURL r token
                 else TrimRight_slash (cf_PublicBaseURL cfg) +:+ "/sub/" +:+ PathEscape token in
      mret (plain 200 CTBase64 (HappAddDeepLink url))
  end.
Definition handleSub (r : Request) : SM Response :=
  if negb (bool_decide (rq_Method r = "GET")) then mret (Error 405 "method not allowed")
  else
    let rest := TrimPrefix (rq_Path r) "/sub/" in
    if bool_decide (rest = "") then mret (Error 404 "missing token")
    else if HasSuffix rest "/nodes" then serveNodes r (TrimSuffix rest "/nodes")
    else if HasSuffix rest "/happ" then serveDeepLink r (TrimSuffix rest "/happ")
    else if Contains rest "/" then mret (Error 404 "not found")
    else
      let token := unescaped rest in
      if 512 <? Z.of_nat (String.length token) then mret (Error 400 "invalid token")
      else if bool_decide (query r "deeplink" = "1") then serveDeepLink r token
      else serveSubscription r token.

(** ** internal.go *)
Definition authorizedInternal (r : Request) : bool :=
  HasPrefix (header r "Authorization") "Bearer " &&
  bool_decide (TrimPrefix (header r "Authorization") "Bearer " = cf_InternalToken cfg).
Definition body_of (r : Request) : list Z := take maxInternalBody (rq_Body r).
Definition internalRegisterToken (r : Request) : SM Response :=
  match id_register dec (body_of r) with
  | Some q =>
      if bool_decide (rr_Token q = "") || bool_decide (rr_UserID q = "") || bool_decide (rr_SubscriptionID q = "")
      then mret (Error 400 "token, user_id and subscription_id are required")
      else
        done ←! try (on_env (Register idx (rr_Token q) (rr_UserID q) (rr_SubscriptionID q))) ;
        match done with
        | Err _ => mret (Error 500 "register failed")
        | Ok _ => on_cache (InvalidateToken (rr_Token q)) ;;! mret NoContent
        end
  | None => mret (Error 400 "token, user_id and subscription_id are required")
  end.
Definition set_count (q : revokeReq) : nat := length (filter (λ v, v ≠ "") [vr_Token q; vr_UserID q; vr_SubscriptionID q]).
Definition revoke_of (q : revokeReq) : M E unit :=
  if negb (bool_decide (vr_Token q = "")) then Revoke idx (vr_Token q)
  else if negb (bool_decide (vr_UserID q = "")) then RevokeByUser idx (vr_UserID q) ;;! mret tt
  else RevokeBySubscription idx (vr_SubscriptionID q) ;;! mret tt.
Definition internalRevokeToken (r : Request) : SM Response :=
  match id_revoke dec (body_of r) with
  | None => mret (Error 400 "invalid body")
  | Some q =>
      if negb (Nat.eqb (set_count q) 1) then mret (Error 400 "exactly one of token, user_id, subscription_id is required")
      else
        done ←! try (on_env (revoke_of q)) ;
        match done with
        | Err _ => mret (Error 500 "revoke failed")
        | Ok _ => on_cache InvalidateAll ;;! mret NoContent
        end
  end.
Definition internalInvalidate (r : Request) : SM Response :=
  match id_invalidate dec (body_of r) with
  | None => mret (Error 400 "invalid body")
  | Some q =>
      on_cache (if negb (bool_decide (ir_Token q = "")) then InvalidateToken (ir_Token q) else InvalidateAll) ;;! mret NoContent
  end.
Definition handleInternal (r : Request) : SM Response :=
  if bool_decide (cf_InternalToken cfg = "") then mret (Error 404 "not found")
  else if negb (authorizedInternal r) then mret (Error 401 "unauthorized")
  else if negb (bool_decide (rq_Method r = "POST")) then mret (Error 405 "method not allowed")
  else
    let op := TrimPrefix (rq_Path r) "/internal/" in
    if bool_decide (op = "tokens") then internalRegisterToken r
    else if bool_decide (op = "revoke") then internalRevokeToken r
    else if bool_decide (op = "invalidate") then internalInvalidate r
    else mret (Error 404 "not found").

(** ** server.go *)
Definition handleHealth : Response :=
  Write 200 (JMap (<["status" := JStr "ok"]> (<["service" := JStr "subscription"]> ∅))).
Definition handleReady : SM Response :=
  match ready with
  | None => mret handleHealth
  | Some m => r ←! try (on_env m) ; mret (match r with Err _ => Error 503 "not ready" | Ok _ => handleHealth end)
  end.
Definition sub_limiter : Limiter := NewLimiter 20 100 4096.
(** The guard reads its own clock, the machine's; it is [now] here. *)
Definition guarded (h : Request → SM Response) (r : Request) : SM Response := λ s,
  let '(t, e) := now (st_env s) in
  let '(ok, peers) := guard_allow sub_limiter t (clientKey proxies r) (st_peers s) in
  let s := mkState peers (st_cache s) e in
  if ok then h r s else (Ok rate_limited, s).
(** The mux, for a path it does not redirect *)
Definition Handler (r : Request) : SM Response :=
  if HasPrefix (rq_Path r) "/sub/" && (negb (bool_decide (Clean (rq_Path r) = rq_Path r)) || (600 <? Z.of_nat (String.length (rq_Path r))))
  then mret (Error 400 "invalid subscription path")
  else if bool_decide (rq_Path r = "/healthz") then mret handleHealth
  else if bool_decide (rq_Path r = "/readyz") then handleReady
  else if HasPrefix (rq_Path r) "/sub/" then guarded handleSub r
  else if HasPrefix (rq_Path r) "/internal/" then handleInternal r
  else mret (plain 404 CTBase64 ("404 page not found" +:+ newline)).
End server.
