(* ===== verification/SubscriptionPublic.v ===== *)
(** * Subscription service: what a customer's bundle may contain

    Personalization never strands a customer and never leaves the servable set; the public bundle depends on
    the customer's own credentials and on public node data only. *)
From S2P Require Import Prelude GoBytes GoText Contracts SubscriptionOutput SubscriptionProvider SubscriptionResolve.

(** ** Filter *)
Lemma filterRegion_sub region ns : sublist (filterRegion region ns) ns.
Proof. unfold filterRegion. case_bool_decide; [done|]. cbv zeta. case_match; [done|apply sublist_filter]. Qed.
Lemma filterPlatform_sub platform ns : sublist (filterPlatform platform ns) ns.
Proof. unfold filterPlatform. case_bool_decide; [done|apply sublist_filter]. Qed.
Lemma filterPlan_sub plan ns : sublist (filterPlan plan ns) ns.
Proof. unfold filterPlan. case_bool_decide; [done|]. etrans; [apply sublist_take|apply sublist_filter]. Qed.

(** Personalization. The nodes served are servable ones (active or degraded, not blocked, with an enabled
    transport) in the order of the bundle; the transport families served are at least two whenever the servable
    nodes offer two; and unless the filters had to be relaxed for that, the basic plan gets at most five nodes,
    none of them premium. *)
Theorem Filter_diverse b plan p : let r := Filter b plan p in
  sublist (sb_Nodes (re_Bundle r)) (dropBlocked (sb_Nodes b)) ∧
  Forall (λ n, servable_node n = true) (sb_Nodes (re_Bundle r)) ∧
  re_Types r = DistinctTransportTypes (sb_Nodes (re_Bundle r)) ∧
  ((2 <= length (DistinctTransportTypes (dropBlocked (sb_Nodes b))))%nat → (2 <= length (re_Types r))%nat) ∧
  (re_Relaxed r = false → plan ≠ SubscriptionPlanUnlimited →
    (length (sb_Nodes (re_Bundle r)) <= maxBasicNodes)%nat ∧ Forall (λ n, label_is n labelTier "premium" = false) (sb_Nodes (re_Bundle r))).
Proof.
  cbv zeta. unfold Filter. cbv zeta. set (servable := dropBlocked (sb_Nodes b)).
  set (kept := filterPlan plan _). cbn [re_Bundle re_Types re_Relaxed with_nodes sb_Nodes].
  assert (sublist kept servable) as Hsub.
  { etrans; [apply filterPlan_sub|]. etrans; [apply filterPlatform_sub|apply filterRegion_sub]. }
  set (relaxed := _ && _). assert (sublist (if relaxed then servable else kept) servable) as Hs by (by destruct relaxed).
  split_and!; [done| |done| |].
  - apply Forall_forall. intros n Hn. pose proof (elem_of_sublist _ _ _ Hn Hs) as H. by apply list_elem_of_filter in H as [? _].
  - intros Hdiv. subst relaxed. unfold minTransportDiversity.
    rewrite (proj2 (Nat.leb_le 2 _) Hdiv), andb_true_r. destruct (Nat.ltb_spec (length (DistinctTransportTypes kept)) 2); lia.
  - intros -> Hplan. subst kept. unfold filterPlan. rewrite bool_decide_eq_false_2 by done. split; [rewrite length_take; apply Nat.le_min_l|].
    apply Forall_forall. intros n Hn. eapply elem_of_sublist in Hn; [|apply sublist_take]. by apply list_elem_of_filter in Hn as [? _].
Qed.

(** ** PublicBundle *)
(** What the public form of a transport may depend on: an enabled VLESS or Hysteria2 transport without its
    short-id pool or shared password *)
Definition only_variants (v : option VlessRealityParams) (h : option Hysteria2Params) (t : Transport) : Transport := {|
  t_Tag := t_Tag t; t_Type := t_Type t; t_Version := t_Version t; t_Port := t_Port t; t_Enabled := t_Enabled t;
  t_Priority := t_Priority t; t_VlessReality := v; t_AmneziaWG := None; t_Hysteria2 := h; t_Shadowsocks2022 := None |}.
Definition forget_transport (t : Transport) : option Transport :=
  if negb (t_Enabled t) then None
  else if bool_decide (t_Type t = TransportVlessReality) then Some (only_variants (with_ShortIDs [] <$> t_VlessReality t) None t)
  else if bool_decide (t_Type t = TransportHysteria2) then Some (only_variants None (with_Password "" <$> t_Hysteria2 t) t)
  else None.
Definition forget_node (n : Node) : Node := with_Transports (omap forget_transport (n_Transports n)) n.
(** A customer's account without the private key, the Telegram account and the address *)
Definition forget_user (u : User) : User := {|
  u_ID := u_ID u; u_TelegramID := None; u_Email := None; u_Status := u_Status u; u_RealityShortID := u_RealityShortID u;
  u_UUID := u_UUID u; u_Hysteria2Password := u_Hysteria2Password u; u_PrivateKey := ""; u_SubscriptionID := u_SubscriptionID u;
  u_DeviceLimit := u_DeviceLimit u; u_QuotaBytes := u_QuotaBytes u; u_UsedBytes := u_UsedBytes u; u_CreatedAt := u_CreatedAt u;
  u_UpdatedAt := u_UpdatedAt u |}.
(** Without those, exit nodes, disabled transports, short-id pools, shared passwords, and whatever else a transport
    carries *)
Definition forget (b : SubscriptionBundle) : SubscriptionBundle := {|
  sb_User := forget_user (sb_User b); sb_Nodes := forget_node <$> filter (λ n, n_Role n ≠ NodeRoleExit) (sb_Nodes b);
  sb_GeneratedAt := sb_GeneratedAt b |}.
Definition validated (b : SubscriptionBundle) : Prop := Forall (λ n, validate_transports (n_Transports n) = Ok tt) (sb_Nodes b).

Lemma validate_transports_Forall ts : validate_transports ts = Ok tt → Forall (λ t, Transport_Validate t = Ok tt) ts.
Proof.
  induction ts as [|t ts IH]; [constructor|]. simpl. destruct (Transport_Validate t) as [[]|e] eqn:E; [|done].
  intros H. constructor; [done|by apply IH].
Qed.
(** A valid transport carries the variant of its type and no other. *)
Lemma Transport_Validate_variant t : Transport_Validate t = Ok tt →
  (t_Type t = TransportVlessReality ∧ ∃ p, t_VlessReality t = Some p ∧ t_AmneziaWG t = None ∧ t_Hysteria2 t = None ∧ t_Shadowsocks2022 t = None) ∨
  (t_Type t = TransportAmneziaWG ∧ ∃ p, t_AmneziaWG t = Some p ∧ t_VlessReality t = None ∧ t_Hysteria2 t = None ∧ t_Shadowsocks2022 t = None) ∨
  (t_Type t = TransportHysteria2 ∧ ∃ p, t_Hysteria2 t = Some p ∧ t_VlessReality t = None ∧ t_AmneziaWG t = None ∧ t_Shadowsocks2022 t = None) ∨
  (t_Type t = TransportShadowsocks2022 ∧ ∃ p, t_Shadowsocks2022 t = Some p ∧ t_VlessReality t = None ∧ t_AmneziaWG t = None ∧ t_Hysteria2 t = None).
Proof.
  unfold Transport_Validate. destruct (negb _); [done|]. destruct (negb _); [done|]. cbv zeta.
  destruct (t_VlessReality t), (t_AmneziaWG t), (t_Hysteria2 t), (t_Shadowsocks2022 t); try done; unfold is_set;
    rewrite ?andb_true_r, ?andb_false_r, ?orb_false_r, ?orb_false_l; cbn [negb Z.b2z Z.eqb Z.add Pos.eqb];
    case_bool_decide; try done; intros _; naive_solver.
Qed.

Lemma public_user_forget u : public_user u = forget_user u.
Proof. done. Qed.
Lemma public_transports_user u ts : public_transports (forget_user u) ts = public_transports u ts.
Proof. induction ts as [|t ts IH]; [done|]. cbn [public_transports]. by rewrite IH. Qed.
Lemma public_transport_forget u t : Transport_Validate t = Ok tt →
  public_transport u t = match forget_transport t with None => Ok None | Some t' => public_transport u t' end.
Proof.
  intros Hv. apply Transport_Validate_variant in Hv. destruct t as [tag ty ver port en prio v a h ss]. cbn in Hv.
  unfold public_transport, forget_transport. cbn [t_Enabled t_Type t_VlessReality t_Hysteria2]. destruct en; [|done].
  by destruct Hv as [(-> & p & -> & -> & -> & ->)|[(-> & p & -> & -> & -> & ->)|[(-> & p & -> & -> & -> & ->)|(-> & p & -> & -> & -> & ->)]]].
Qed.
Lemma public_transports_forget u ts : Forall (λ t, Transport_Validate t = Ok tt) ts →
  public_transports u ts = public_transports u (omap forget_transport ts).
Proof.
  induction 1 as [|t ts Ht _ IH]; [done|]. cbn [public_transports]. rewrite (public_transport_forget u t Ht). cbn [omap list_omap].
  destruct (forget_transport t) as [t'|]; cbn [public_transports]; rewrite <-IH; [done|]. by destruct (public_transports u ts).
Qed.
Lemma public_nodes_forget u ns : Forall (λ n, validate_transports (n_Transports n) = Ok tt) ns →
  public_nodes u ns = public_nodes (forget_user u) (forget_node <$> filter (λ n, n_Role n ≠ NodeRoleExit) ns).
Proof.
  induction 1 as [|n ns Hn _ IH]; [done|]. cbn [public_nodes]. rewrite filter_cons.
  case_bool_decide as Hr; [by rewrite decide_False by auto|]. rewrite decide_True by done. rewrite fmap_cons. cbn [public_nodes].
  rewrite bool_decide_eq_false_2 by done. unfold forget_node at 1. cbn [n_Transports with_Transports].
  rewrite (public_transports_forget u) by by apply validate_transports_Forall. by rewrite IH, public_transports_user.
Qed.

(** C38: what a customer's bundle reveals. The public bundle is a function of the bundle without the secrets: two
    bundles whose transports are all valid (each carries the parameters of its own type only, as the registry
    checks when a node is written) and that differ only in the customer's private key, Telegram account and
    address, in exit nodes, disabled transports, short-id pools, shared Hysteria2 passwords or any Shadowsocks and
    AmneziaWG transport give the same public bundle, so none of these can be read off what is served. *)
Theorem PublicBundle_reveals b1 b2 : validated b1 → validated b2 → forget b1 = forget b2 → PublicBundle b1 = PublicBundle b2.
Proof.
  intros H1 H2 H. pose proof (f_equal sb_User H) as Hu. pose proof (f_equal sb_Nodes H) as Hn.
  pose proof (f_equal sb_GeneratedAt H) as Ht. cbn in Hu, Hn, Ht. unfold PublicBundle. rewrite (public_nodes_forget _ _ H1), (public_nodes_forget _ _ H2).
  by rewrite (public_user_forget (sb_User b1)), (public_user_forget (sb_User b2)), Hu, Hn, Ht.
Qed.

(** ** A concrete bundle *)
Definition demo_user (telegram : option Z) (private : string) : User := {|
  u_ID := "u1"; u_TelegramID := telegram; u_Email := None; u_Status := UserStatusActive; u_RealityShortID := "ab12"; u_UUID := "uuid-1";
  u_Hysteria2Password := "pw"; u_PrivateKey := private; u_SubscriptionID := Some "s1"; u_DeviceLimit := 3; u_QuotaBytes := 0;
  u_UsedBytes := 42; u_CreatedAt := zero_time; u_UpdatedAt := zero_time |}.
Definition demo_transport (tag ty : string) (v : option VlessRealityParams) (h : option Hysteria2Params)
    (ss : option Shadowsocks2022Params) : Transport := {|
  t_Tag := tag; t_Type := ty; t_Version := TransportVersionV1; t_Port := 443; t_Enabled := true; t_Priority := 0; t_VlessReality := v;
  t_AmneziaWG := None; t_Hysteria2 := h; t_Shadowsocks2022 := ss |}.
Definition demo_vless (ids : list string) : VlessRealityParams := {|
  vr_ServerNames := ["x.test"]; vr_Dest := "x.test:443"; vr_PublicKey := "k"; vr_ShortIDs := ids; vr_Flow := "xtls-rprx-vision";
  vr_Fingerprint := "chrome"; vr_SpiderX := "" |}.
Definition demo_hysteria (pw : string) : Hysteria2Params := {|
  hy_Obfs := ""; hy_ObfsPassword := ""; hy_Password := pw; hy_SNI := "x.test"; hy_UpMbps := 0; hy_DownMbps := 0; hy_Insecure := false |}.
Definition demo_node (ids : list string) (pw psk : string) : Node := {|
  n_ID := "n1"; n_Role := NodeRoleCombined; n_Status := NodeStatusActive; n_EntryNodeID := None; n_Provider := ""; n_Cloud := "";
  n_Region := "eu"; n_EntryIP := "198.51.100.10"; n_EphemeralEntryIP := false;
  n_Transports := [demo_transport "n1-r" TransportVlessReality (Some (demo_vless ids)) None None;
                   demo_transport "n1-h" TransportHysteria2 None (Some (demo_hysteria pw)) None;
                   demo_transport "n1-s" TransportShadowsocks2022 None None (Some {| ss_Method := "aes"; ss_PSK := psk |})];
  n_CapacityUsers := 0; n_RotateAfter := None; n_CreatedAt := zero_time; n_ExpiresAt := None; n_Labels := ∅ |}.
Definition demo_bundle (telegram : option Z) (private : string) (ids : list string) (pw psk : string) : SubscriptionBundle := {|
  sb_User := demo_user telegram private; sb_Nodes := [demo_node ids pw psk]; sb_GeneratedAt := zero_time |}.
Lemma PublicBundle_reveals_witness :
  let b1 := demo_bundle (Some 7) "private" ["someone-else"] "shared" "cHNr" in
  let b2 := demo_bundle None "" [] "" "" in
  is_ok (PublicBundle b1) = true ∧ PublicBundle b1 = PublicBundle b2.
Proof.
  split; [reflexivity|]. apply PublicBundle_reveals; [repeat constructor..|reflexivity].
Defined.
