(* ===== verification/SubscriptionDocuments.v ===== *)
(** * Subscription service: the three documents

    The base64 list, the sing-box document and the Clash document present the same transports; the list and the
    quoted YAML scalars read back; the groups of a sing-box document refer to outbounds it contains. *)
From S2P Require Import Prelude GoBytes GoText GoCodec Contracts GoUrl SubscriptionOutput SubscriptionProvider SubscriptionResolve SubscriptionPublic.

(** ** The transports of a valid bundle *)
Definition visited_valid (b : SubscriptionBundle) : Prop := Forall (λ ta, Transport_Validate ta.1 = Ok tt) (visited b).
Lemma visited_tags b : (λ ta, t_Tag ta.1) <$> visited b = clashProxyNames b.
Proof.
  unfold visited, clashProxyNames. induction (sb_Nodes b) as [|n ns IH]; [done|].
  rewrite !fmap_cons. cbn [concat]. rewrite !fmap_app. f_equal; [|done]. rewrite <-list_fmap_compose. done.
Qed.

Section transport.
Context (b : SubscriptionBundle) (t : Transport) (addr : string).
Hypothesis valid : Transport_Validate t = Ok tt.
Hypothesis password : u_Hysteria2Password (sb_User b) ≠ "".
#[local] Ltac by_type := pose proof (Transport_Validate_variant t valid) as [(Ht & p & Hp & _)|[(Ht & p & Hp & _)|[(Ht & p & Hp & _)|(Ht & p & Hp & _)]]];
  rewrite ?Ht, ?Hp; unfold TransportVlessReality, TransportAmneziaWG, TransportHysteria2, TransportShadowsocks2022;
  repeat match goal with
         | |- context [@bool_decide ?P ?d] =>
             let v := eval vm_compute in (@bool_decide P d) in
             match v with true => change (@bool_decide P d) with true | false => change (@bool_decide P d) with false end
         end; cbn [mbind option_bind]; rewrite ?(bool_decide_eq_false_2 _ password).
Lemma outbound_present : ∃ o, singBoxOutbound b t addr = Some o ∧ outbound_tag o = t_Tag t.
Proof. unfold singBoxOutbound. by_type; (eexists; split; [reflexivity|]); try reflexivity. by destruct (nonempty _). Qed.
Lemma block_present : ∃ rest, clashProxy b t addr = line "  - " "name" (yq (t_Tag t)) +:+ rest.
Proof. unfold clashProxy. by_type; eexists; rewrite <-!(assoc_L String.append); reflexivity. Qed.
Lemma uri_present : t_Type t ≠ TransportAmneziaWG →
  ∃ front, transportURI b t addr = front +:+ "#" +:+ PathEscape (t_Tag t) ∧ front ≠ "".
Proof.
  intros Hne. unfold transportURI. by_type; [|done| |]; eexists; (split; [rewrite !(assoc_L String.append); reflexivity|]);
    rewrite <-!(assoc_L String.append); by intros [=].
Qed.
Lemma uri_absent : t_Type t = TransportAmneziaWG → transportURI b t addr = "".
Proof. intros Ht. unfold transportURI. by rewrite Ht. Qed.
End transport.

Lemma Forall2_same {A B C} (R : B → C → Prop) (f : A → B) (g : A → C) l :
  Forall (λ a, R (f a) (g a)) l → Forall2 R (f <$> l) (g <$> l).
Proof. induction 1; constructor; auto. Qed.

(** The three representations describe the same set. For a bundle of valid transports and a customer with a
    Hysteria2 password, sing-box outbounds, Clash groups and Clash proxies list the tags of the enabled transports
    in one and the same order, none left out, and the URI list does so for all that are not AmneziaWG, each
    line ending in its escaped tag. *)
Theorem documents_agree b : visited_valid b → u_Hysteria2Password (sb_User b) ≠ "" →
  let tags := clashProxyNames b in
  outbound_tag <$> ToSingBox b = tags ∧
  Forall2 (λ tag block, ∃ rest, block = line "  - " "name" (yq tag) +:+ rest) tags (clash_blocks b) ∧
  Forall2 (λ tag uri, ∃ front, uri = front +:+ "#" +:+ PathEscape tag)
    ((λ ta, t_Tag ta.1) <$> filter (λ ta, t_Type ta.1 ≠ TransportAmneziaWG) (visited b)) (uri_lines b).
Proof.
  intros Hv Hpw tags. subst tags. rewrite <-visited_tags. unfold ToSingBox, clash_blocks, uri_lines. unfold visited_valid in Hv.
  induction Hv as [|[t addr] l Ht _ (IH1 & IH2 & IH3)]; [split_and!; constructor|]. cbn in Ht. rewrite !fmap_cons, !filter_cons.
  destruct (outbound_present b t addr Ht Hpw) as (o & Ho & Htag). cbn [omap list_omap fst snd]. rewrite Ho, fmap_cons. split_and!.
  - by rewrite Htag, IH1.
  - constructor; [by apply block_present|done].
  - destruct (decide (t_Type t = TransportAmneziaWG)) as [Ha|Ha].
    + rewrite (uri_absent b t addr Ha). rewrite !decide_False by auto. done.
    + destruct (uri_present b t addr Ht Hpw Ha) as (front & -> & Hf). rewrite !decide_True; [|by destruct front|done].
      constructor; [by exists front|done].
Qed.

(** ** Reading back *)
Definition newline_free (b : SubscriptionBundle) : Prop :=
  free 10 (u_UUID (sb_User b)) ∧ Forall (λ n, free 10 (n_EntryIP n)) (sb_Nodes b).
Lemma free_base64 url c l : alphanumeric c = false → c ∉ [43; 45; 47; 61; 95] → Forall is_byte l → free c (base64 url l).
Proof.
  intros Hc Hx Hl. assert (∀ n, 0 <= n < 64 → free c (base64_digit url n)) as Hd.
  { intros n Hn. apply free_char. intros ->.
    rewrite ord_chr in Hc, Hx by (unfold is_byte; repeat case_match; lia). unfold alphanumeric in Hc.
    destruct (Z.ltb_spec n 26); [lia|]. destruct (Z.ltb_spec n 52); [lia|]. destruct (Z.ltb_spec n 62); [lia|].
    destruct (n =? 62), url; set_solver. }
  assert (free c (if url then "" else "=")) as Hpad by (destruct url; [apply free_empty|apply free_char; set_solver]).
  induction l as [| |a b|a b d l IH] using by_three; cbn [base64]; rewrite ?Forall_cons in Hl; unfold is_byte in Hl.
  - apply free_empty.
  - repeat apply free_app_2; try done; apply Hd; Z.div_mod_to_equations; lia.
  - repeat apply free_app_2; try done; apply Hd; Z.div_mod_to_equations; lia.
  - destruct Hl as (Ha & Hb & Hd' & Hl). repeat apply free_app_2; try (apply Hd; Z.div_mod_to_equations; lia). by apply IH.
Qed.
Lemma free_uri b t addr : newline_free b → free 10 addr → free 10 (transportURI b t addr).
Proof.
  intros [Hu _] Ha. unfold transportURI. cbv zeta.
  repeat case_match; try apply free_empty; repeat apply free_app_2; auto 3 with free; try done.
  all: try (apply free_Values_Encode; done). all: try (apply free_PathEscape; done). all: try (apply free_itoa; done).
  all: try (apply free_QueryEscape; done). apply free_base64; [done|set_solver|apply bytes_of_bound].
Qed.
(** What a client decodes. The list of a bundle with at least one URI, decoded from base64 and cut at line
    breaks, is exactly the URIs that were rendered, whatever tags, keys and passwords contain. *)
Theorem list_reads_back b : newline_free b → uri_lines b ≠ [] →
  (λ text, Split (string_of_bytes text) 10) <$> base64_decode (ToBase64List b) = Some (uri_lines b).
Proof.
  intros Hf Hne. unfold ToBase64List. rewrite base64_decode_encode by apply bytes_of_bound. cbn [fmap option_fmap option_map].
  rewrite string_of_bytes_of. f_equal. apply (Split_join 10); [done|done|].
  apply Forall_forall. intros x Hx. apply list_elem_of_filter in Hx as [_ Hx]. apply list_elem_of_fmap in Hx as ([t addr] & -> & Hin).
  apply free_uri; [done|]. unfold visited in Hin. apply list_elem_of_In, in_concat in Hin as (l & Hl & Hin).
  apply list_elem_of_In in Hl, Hin. apply list_elem_of_fmap in Hl as (n & -> & Hn). apply list_elem_of_fmap in Hin as (t' & [= -> ->] & _).
  destruct Hf as [_ Hf]. rewrite Forall_forall in Hf. by apply Hf.
Qed.

(** A reader of double-quoted YAML scalars that knows the two escapes in use: the text and what follows *)
Fixpoint read_quoted (l : list Z) : option (list Z * list Z) :=
  match l with
  | [] => None
  | 34 :: rest => Some ([], rest)
  | 92 :: c :: l' => if (c =? 92) || (c =? 34) then '(s, rest) ← read_quoted l'; Some (c :: s, rest) else None
  | b :: l' => '(s, rest) ← read_quoted l'; Some (b :: s, rest)
  end.
Definition read_scalar (s : string) : option (string * string) :=
  match bytes_of s with
  | 34 :: l => '(s, rest) ← read_quoted l; Some (string_of_bytes s, string_of_bytes rest)
  | _ => None
  end.
Lemma read_quoted_plain b l : b ≠ 34 → b ≠ 92 → read_quoted (b :: l) = ('(s, rest) ← read_quoted l; Some (b :: s, rest)).
Proof. intros H1 H2. destruct b as [|p|p]; try done. do 7 (destruct p as [p|p|]; try done). Qed.
Lemma read_quoted_yq l rest : read_quoted (concat (yq_char <$> l) ++ 34 :: rest) = Some (l, rest).
Proof.
  induction l as [|b l IH]; [done|]. rewrite fmap_cons. cbn [concat]. rewrite <-app_assoc. unfold yq_char at 1.
  destruct (Z.eqb_spec b 92) as [->|H1]; [cbn [orb app read_quoted]; cbn; by rewrite IH|].
  destruct (Z.eqb_spec b 34) as [->|H2]; [cbn [orb app read_quoted]; cbn; by rewrite IH|].
  cbn [orb app]. rewrite read_quoted_plain by done. by rewrite IH.
Qed.
Lemma yq_bytes l : Forall is_byte l → Forall is_byte (concat (yq_char <$> l)).
Proof.
  induction 1 as [|b l Hb _ IH]; [constructor|]. rewrite fmap_cons. cbn [concat]. apply Forall_app_2; [|done].
  unfold yq_char. destruct (_ || _); repeat (constructor; try done).
Qed.
(** A quoted scalar reads back, and nothing behind its closing quote belongs to it. *)
Theorem scalar_reads_back s rest : read_scalar (yq s +:+ rest) = Some (s, rest).
Proof.
  unfold read_scalar, yq. rewrite !bytes_of_app, bytes_of_string_of_bytes by apply yq_bytes, bytes_of_bound.
  change (bytes_of quote) with [34]. cbn [app]. rewrite <-app_assoc. cbn [app]. rewrite read_quoted_yq. cbn.
  by rewrite !string_of_bytes_of.
Qed.

(** ** The groups of a sing-box document *)
Lemma lookup_unless_empty k k' v empty m : k ≠ k' → unless_empty k v empty m !! k' = m !! k'.
Proof. intros Hk. unfold unless_empty. destruct empty; [done|by apply lookup_insert_ne]. Qed.
(** A sing-box document never sends everything around the tunnel while a proxy can be addressed. If some
    outbound has a tag of its own, the document's last resort is the policy's; its two groups offer exactly the
    tags that are not reserved, each the tag of a proxy of the document; the document goes direct only when every
    proxy's tag is empty or reserved, or the policy says so. *)
Theorem singbox_groups b p : let proxies := ToSingBox b in let tags := singBoxProxyTags proxies in
  (∀ tag, tag ∈ tags ↔ tag ≠ "" ∧ reserved tag = false ∧ ∃ o, o ∈ proxies ∧ outbound_tag o = tag) ∧
  (tags ≠ [] → ∃ auto group, singbox_outbounds proxies tags p = proxies ++ [auto; group; direct_outbound] ∧
     auto !! "outbounds" = Some (JStrs tags) ∧ group !! "outbounds" = Some (JStrs (TagAuto :: tags)) ∧
     outbound_tag auto = TagAuto ∧ outbound_tag group = TagProxy ∧ group !! "default" = Some (JStr TagAuto)) ∧
  (singbox_route tags p !! "final" = Some (JStr TagDirect) ↔ tags = [] ∨ sr_Final (rp_SingBox p) = TagDirect).
Proof.
  cbv zeta. split_and!.
  - intros tag. unfold singBoxProxyTags. rewrite list_elem_of_filter, list_elem_of_fmap. naive_solver.
  - intros Hne. destruct (singBoxProxyTags (ToSingBox b)) as [|t ts] eqn:E; [done|]. eexists _, _. split; [reflexivity|].
    split_and!; reflexivity.
  - destruct (singBoxProxyTags (ToSingBox b)) as [|t ts] eqn:E; cbn [singbox_route]; [split; [by left|done]|].
    rewrite !lookup_unless_empty, lookup_insert_eq by done. split; [intros [= ->]; by right|by intros [?| ->]].
Qed.

(** ** Concrete bundles *)
Definition demo_public : SubscriptionBundle := demo_bundle None "" ["ab12"] "pw" "cHNr".
Lemma documents_agree_witness : visited_valid demo_public ∧ u_Hysteria2Password (sb_User demo_public) ≠ "" ∧
  outbound_tag <$> ToSingBox demo_public = ["n1-r"; "n1-h"; "n1-s"].
Proof.
  assert (visited_valid demo_public) as Hv by (repeat constructor). split; [exact Hv|]. split; [discriminate|].
  exact (proj1 (documents_agree demo_public Hv ltac:(discriminate))).
Defined.
Lemma list_reads_back_witness : newline_free demo_public ∧
  (λ text, Split (string_of_bytes text) 10) <$> base64_decode (ToBase64List demo_public) = Some (uri_lines demo_public).
Proof.
  assert (newline_free demo_public) as Hf by (apply (bool_decide_unpack _); vm_compute; exact I).
  split; [exact Hf|]. apply (list_reads_back demo_public Hf). vm_compute. discriminate.
Defined.
(** A transport tagged like a built-in outbound: the document is rendered, and sends everything direct. *)
Definition demo_policy : RoutingPolicy := {|
  rp_ProbeURL := "https://probe.test"; rp_ProbeInterval := "3m";
  rp_SingBox := {| sr_DNS := None; sr_DefaultDomainResolver := ∅; sr_RuleSets := []; sr_Rules := []; sr_Final := TagProxy |};
  rp_Clash := {| cr_DNS := ∅; cr_RuleProviders := ∅; cr_Rules := [] |} |}.
Definition reserved_bundle : SubscriptionBundle :=
  with_nodes [with_Transports [demo_transport TagDirect TransportVlessReality (Some (demo_vless ["ab12"])) None None]
                (demo_node [] "" "")] demo_public.
Theorem reserved_tag_goes_direct :
  validated reserved_bundle ∧ is_ok (PublicBundle reserved_bundle) = true ∧
  Render demo_policy FormatSingBox reserved_bundle = Ok (singBoxDocument reserved_bundle demo_policy, CTSingBox) ∧
  singbox_route (singBoxProxyTags (ToSingBox reserved_bundle)) demo_policy !! "final" = Some (JStr TagDirect).
Proof. split_and!; [repeat constructor|reflexivity..]. Qed.
