(* ===== verification/SubscriptionServe.v ===== *)
(** * Subscription service: who is served, and what

    A profile is served only to a token that resolves in that very request, and what comes from the render
    cache is what rendering afresh would give. *)
From S2P Require Import Prelude GoBytes GoText GoCodec Contracts GoUrl GoFloat Platform SubscriptionOutput SubscriptionProvider SubscriptionResolve SubscriptionCache SubscriptionHttp SubscriptionPublic SubscriptionDocuments.

(** ** Cache keys *)
Lemma app_cons_inj {A} (c : A) l1 : ∀ l2 r1 r2, c ∉ l1 → c ∉ l2 → l1 ++ c :: r1 = l2 ++ c :: r2 → l1 = l2 ∧ r1 = r2.
Proof.
  induction l1 as [|x l1 IH]; intros [|y l2] r1 r2 H1 H2; cbn; intros Heq; simplify_eq.
  - done.
  - by apply not_elem_of_cons in H2 as [? _].
  - by apply not_elem_of_cons in H1 as [? _].
  - apply not_elem_of_cons in H1 as [_ H1], H2 as [_ H2]. by destruct (IH l2 r1 r2 H1 H2 ltac:(done)) as [-> ->].
Qed.
Lemma key_inj t1 t2 f1 f2 : free 124 t1 → free 124 t2 → key t1 f1 = key t2 f2 → t1 = t2 ∧ f1 = f2.
Proof.
  intros H1 H2 H. apply (f_equal bytes_of) in H. unfold key in H. rewrite !bytes_of_app in H. cbn [bytes_of app] in H.
  apply app_cons_inj in H as [Ht Hf]; [|done..]. by split; apply bytes_of_inj.
Qed.
Lemma length_sha256_hex b : length (bytes_of (sha256_hex b)) = 64%nat.
Proof.
  unfold sha256_hex. assert (∀ l, length (bytes_of (hex_encode l)) = (2 * length l)%nat) as H.
  { induction l as [|x l IH]; [done|]. cbn. rewrite IH. lia. }
  by rewrite H, length_Sum256.
Qed.
Lemma digest_inj f1 f2 b1 b2 : f1 +:+ ":" +:+ sha256_hex b1 = f2 +:+ ":" +:+ sha256_hex b2 →
  f1 = f2 ∧ Sha256.Sum256 b1 = Sha256.Sum256 b2.
Proof.
  intros H. apply (f_equal bytes_of) in H. rewrite !bytes_of_app in H.
  apply app_inj_2 in H as [Hf H]; [|by rewrite !length_app, !length_sha256_hex]. apply (app_inj_1 _ _ _ _ eq_refl) in H as [_ H].
  split; [by apply bytes_of_inj|]. by apply sha256_hex_inj, bytes_of_inj.
Qed.
Definition formats : list Format := [FormatBase64; FormatSingBox; FormatClash].
Lemma Negotiate_format f a u : Negotiate f a u ∈ formats.
Proof. unfold Negotiate, formats. cbv zeta. repeat case_match; set_solver. Qed.
Lemma cacheFormatKey_inj f1 f2 p1 p2 : f1 ∈ formats → f2 ∈ formats → cacheFormatKey f1 p1 = cacheFormatKey f2 p2 → f1 = f2.
Proof.
  unfold formats, cacheFormatKey. intros H1 H2. rewrite !elem_of_cons, elem_of_nil in H1, H2.
  destruct H1 as [-> |[-> |[-> |[]]]], H2 as [-> |[-> |[-> |[]]]]; try done; repeat case_match; intros Hk;
    unfold FormatBase64, FormatSingBox, FormatClash in Hk; simpl in Hk; discriminate Hk.
Qed.

Section serve.
Context `{ord : !MapOrder} `{NetIP} {E : Type} (cfg : Config) (idx : TokenIndex E) (cp : Provider E) (now : E → Time * E).
Context (dec : InternalDecoders) (proxies : list Prefix) (ready : option (M E unit)).
Abbreviation St := (State (E := E)).
Abbreviation Resolve := (Resolve idx cp now).
Abbreviation serveSubscription := (serveSubscription cfg idx cp now).

(** ** Resolution *)
(** The token is bound, its subscription grants access at the reading of the clock, and its account is active;
    all of it is read, one after the other, from the environment [e] on. *)
Definition admitted (token : string) (e : E) (res : Resolved) (e' : E) : Prop :=
  ∃ userID subID e1 e2 e3 e4 e5,
    Lookup idx token e = (Ok (userID, subID), e1) ∧
    GetSubscription cp subID e1 = (Ok (rs_Subscription res), e2) ∧
    s_Status (rs_Subscription res) ∈ [SubscriptionStatusActive; SubscriptionStatusTrialing; SubscriptionStatusPastDue] ∧
    match AccessUntil (rs_Subscription res) with None => e3 = e2 | Some until => ∃ t, now e2 = (t, e3) ∧ t < until end ∧
    GetUser cp userID e3 = (Ok (sb_User (rs_Bundle res)), e4) ∧ u_Status (sb_User (rs_Bundle res)) = UserStatusActive ∧
    ListNodes cp {| pf_Status := NodeStatusActive; pf_Role := ""; pf_Region := ""; pf_Limit := 0 |} e4 = (Ok (sb_Nodes (rs_Bundle res)), e5) ∧
    now e5 = (sb_GeneratedAt (rs_Bundle res), e').

Lemma not_found_as_ok {A} target (m : M E A) e a e' : not_found_as target m e = (Ok a, e') ↔ m e = (Ok a, e').
Proof. unfold not_found_as. destruct (m e) as [[]]; naive_solver. Qed.
Lemma checkSubscription_ok sub e e' : checkSubscription now sub e = (Ok tt, e') ↔
  s_Status sub ∈ [SubscriptionStatusActive; SubscriptionStatusTrialing; SubscriptionStatusPastDue] ∧
  match AccessUntil sub with None => e' = e | Some until => ∃ t, now e = (t, e') ∧ t < until end.
Proof.
  unfold checkSubscription, one_of. case_bool_decide as Hs; [|split; [done|by intros [? _]]].
  destruct (AccessUntil sub) as [until|]; [|unfold mret, M_ret; naive_solver].
  unfold SubscriptionResolve.clock, mbind, M_bind. destruct (now e) as [t e1]. unfold After. destruct (Z.ltb_spec t until); cbn [negb].
  - split; [intros H1; injection H1 as ->; split; [done|by exists t]|intros (_ & t' & H1 & _); by injection H1 as <- ->].
  - split; [done|]. intros (_ & t' & H1 & ?). injection H1 as <- ->. lia.
Qed.
Lemma Resolve_admitted token e res e' : Resolve token e = (Ok res, e') ↔ admitted token e res e'.
Proof.
  unfold SubscriptionResolve.Resolve, admitted. rewrite bind_runs. setoid_rewrite not_found_as_ok. split.
  - intros ([userID subID] & e1 & Hl & H1). apply bind_runs in H1 as (sub & e2 & Hs & H1). apply not_found_as_ok in Hs.
    apply bind_runs in H1 as ([] & e3 & Hc & H1). apply checkSubscription_ok in Hc as [Hst Hu].
    apply bind_runs in H1 as (user & e4 & Hg & H1). apply not_found_as_ok in Hg. case_bool_decide as Ha; [|done]. cbn [negb] in H1.
    apply bind_runs in H1 as (nodes & e5 & Hn & H1). unfold SubscriptionResolve.clock, mbind, M_bind in H1. destruct (now e5) as [t e6] eqn:Hnow.
    injection H1 as <- <-. cbn. exists userID, subID, e1, e2, e3, e4, e5. done.
  - intros (userID & subID & e1 & e2 & e3 & e4 & e5 & Hl & Hs & Hst & Hu & Hg & Ha & Hn & Ht). exists (userID, subID), e1. split; [done|].
    apply bind_runs. exists (rs_Subscription res), e2. rewrite not_found_as_ok. split; [done|].
    apply bind_runs. exists tt, e3. rewrite checkSubscription_ok. split; [done|].
    apply bind_runs. exists (sb_User (rs_Bundle res)), e4. rewrite not_found_as_ok. split; [done|]. rewrite bool_decide_eq_true_2 by done.
    cbn [negb]. apply bind_runs. exists (sb_Nodes (rs_Bundle res)), e5. split; [done|]. unfold SubscriptionResolve.clock, mbind, M_bind. rewrite Ht.
    by destruct res as [[] ?].
Qed.

(** ** What the cache holds *)
(** The entry is a rendering, stored under the digest of what was rendered. *)
Definition genuine_entry (k : string) (en : Entry) : Prop := ∃ token fmt params b sub snap body ct,
  free 124 token ∧ fmt ∈ formats ∧ k = key token (cacheFormatKey fmt params +:+ ":" +:+ sha256_hex snap) ∧
  snapshot b sub = Some snap ∧ Render (cf_Routing cfg) fmt b = Ok (body, ct) ∧
  en = {| en_Body := body; en_ContentType := ct; en_Headers := happHeaders cfg sub (sb_User b) |}.
Definition genuine (c : Cache) : Prop := ∀ k s, ca_entries c !! k = Some s → genuine_entry k (st_Entry s).
Record inv (s : St) : Prop := {
  inv_genuine : genuine (st_cache s);
  inv_cache : cache_len (st_cache s) <= maxEntries;
  inv_peers : Z.of_nat (size (st_peers s)) <= 4096 }.
Lemma genuine_sub c c' : ca_entries c' ⊆ ca_entries c → genuine c → genuine c'.
Proof. intros Hs Hg k s Hk. apply (Hg k s). by eapply lookup_weaken. Qed.

(** The payload that a 200 answer to [r] for [token] carries: a rendering in the negotiated format, by the digest
    one of the customer's current public bundle and subscription *)
Definition current_profile (r : Request) (token : string) (e : E) (rsp : Response) : Prop :=
  ∃ res e' bundle snap, admitted token e res e' ∧
    PublicBundle (re_Bundle (Filter (rs_Bundle res) (s_Plan (rs_Subscription res)) (request_params r))) = Ok bundle ∧
    snapshot bundle (rs_Subscription res) = Some snap ∧
    ∃ b sub snap' body ct, snapshot b sub = Some snap' ∧ Sha256.Sum256 snap' = Sha256.Sum256 snap ∧
      Render (cf_Routing cfg) (Negotiate (query r "format") (header r "Accept") (header r "User-Agent")) b = Ok (body, ct) ∧
      rsp = writeCached {| en_Body := body; en_ContentType := ct; en_Headers := happHeaders cfg sub (sb_User b) |}.
Lemma PublicBundle_user b b' : PublicBundle b = Ok b' → sb_User b' = public_user (sb_User b).
Proof. unfold PublicBundle. destruct (public_nodes _ _) as [[|n ns]|e]; [done| |done]. by intros [= <-]. Qed.
Lemma happHeaders_public sub u : happHeaders cfg sub (public_user u) = happHeaders cfg sub u.
Proof. done. Qed.
Lemma writeResolveError_status e : rsp_Status (writeResolveError e) ≠ 200.
Proof. unfold writeResolveError. by repeat case_match. Qed.

Lemma serve_spec r token s : inv s → free 124 token → ∃ rsp s', serveSubscription r token s = (Ok rsp, s') ∧ inv s' ∧
  (rsp_Status rsp = 200 → current_profile r token (st_env s) rsp).
Proof.
  intros [Hg Hc Hp] Hfree. unfold SubscriptionHttp.serveSubscription. cbv zeta.
  unfold mbind at 1, M_bind at 1, try, on_env. destruct (Resolve token (st_env s)) as [[res|e] e1] eqn:Hr.
  2:{ eexists _, _. split; [reflexivity|]. split; [by split|]. intros Hx. by apply writeResolveError_status in Hx. }
  apply Resolve_admitted in Hr.
  destruct (PublicBundle _) as [bundle|?] eqn:Hb; [|eexists _, _; split; [reflexivity|]; split; [by split|done]].
  destruct (snapshot bundle (rs_Subscription res)) as [snap|] eqn:Hs; [|eexists _, _; split; [reflexivity|]; split; [by split|done]].
  set (fmt := Negotiate _ _ _). assert (fmt ∈ formats) as Hfmt by apply Negotiate_format.
  set (ck := cacheFormatKey fmt (request_params r) +:+ ":" +:+ sha256_hex snap).
  unfold mbind at 1, M_bind at 1, on_cache. cbn [st_cache st_env st_peers].
  destruct (Get_spec now token ck (st_cache s) e1) as (hit & c1 & e2 & -> & Hsub & _ & _ & Hhit).
  assert (genuine c1) as Hg1 by (by eapply genuine_sub). assert (cache_len c1 <= maxEntries) as Hc1 by (apply cache_len_sub in Hsub; lia).
  destruct hit as [en|].
  - eexists _, _. split; [reflexivity|]. split; [by split|]. intros _. destruct Hhit as [-> (st & Hst & <- & _)].
    destruct (Hg _ _ Hst) as (token' & fmt' & params' & b & sub & snap' & body & ct & Hf' & Hfmt' & Hk & Hsn & Hren & ->).
    apply key_inj in Hk as [<- Hk]; [|done..]. apply digest_inj in Hk as [Hk Hd]. apply cacheFormatKey_inj in Hk as <-; [|done..].
    exists res, e1, bundle, snap. split_and!; [done..|]. by exists b, sub, snap', body, ct.
  - destruct (Render (cf_Routing cfg) fmt bundle) as [[body ct]|e] eqn:Hren.
    2:{ eexists _, _. split; [reflexivity|]. split; [by split|]. by destruct (errors_is e ErrUnavailable). }
    unfold mbind, M_bind, on_cache. cbn [st_cache st_env st_peers fst snd]. set (en := {| en_Body := body; en_ContentType := ct; en_Headers := _ |}).
    assert (en = {| en_Body := body; en_ContentType := ct; en_Headers := happHeaders cfg (rs_Subscription res) (sb_User bundle) |}) as Hen.
    { unfold en. rewrite (PublicBundle_user _ _ Hb). by rewrite happHeaders_public. }
    destruct (Put_spec now token ck en c1 e2) as (c2 & e3 & -> & Hput & _ & Hlen).
    eexists _, _. split; [reflexivity|]. split; [split; cbn; [|by apply Hlen|done]|].
    + intros k st Hk. destruct (Hput k st Hk) as [(-> & -> & _)|Hold]; [|by eapply Hg1].
      exists token, fmt, (request_params r), bundle, (rs_Subscription res), snap, body, ct. by rewrite Hen.
    + intros _. exists res, e1, bundle, snap. split_and!; [done..|]. exists bundle, (rs_Subscription res), snap, body, ct. by rewrite <-Hen.
Qed.

(** ** Every handler *)
Abbreviation SM := (M St).
Abbreviation handleSub := (handleSub cfg idx cp now).
Abbreviation handleInternal := (handleInternal cfg idx dec).
Abbreviation Handler := (Handler cfg idx cp now dec proxies ready).
(** A computation that answers, keeps the invariant, and answers as [P] says *)
Definition answers (m : SM Response) (s : St) (P : Response → Prop) : Prop :=
  ∃ rsp s', m s = (Ok rsp, s') ∧ inv s' ∧ (rsp_Status rsp = 200 → P rsp).
Lemma answers_ret rsp s (P : Response → Prop) : inv s → (rsp_Status rsp = 200 → P rsp) → answers (mret rsp) s P.
Proof. intros. by exists rsp, s. Qed.
Lemma answers_env {A} (m : M E A) (k : result A → SM Response) s P : inv s →
  (∀ x e, m (st_env s) = (x, e) → answers (k x) (mkState (st_peers s) (st_cache s) e) P) →
  answers (x ←! try (on_env m) ; k x) s P.
Proof.
  intros Hs Hk. unfold answers, mbind, M_bind, try, on_env. destruct (m (st_env s)) as [x e] eqn:Hm. by apply Hk.
Qed.
Lemma inv_env s e : inv s → inv (mkState (st_peers s) (st_cache s) e).
Proof. by intros []. Qed.
(** After an invalidation *)
Lemma answers_invalidated (m : M (Cache * E) unit) s : inv s →
  (∀ c e, ∃ c', m (c, e) = (Ok tt, (c', e)) ∧ ca_entries c' ⊆ ca_entries c) → answers (on_cache m ;;! mret NoContent) s (λ _, False).
Proof.
  intros [Hg Hc Hp] Hm. destruct (Hm (st_cache s) (st_env s)) as (c' & H1 & H2). unfold answers, mbind, M_bind, on_cache. rewrite H1.
  eexists _, _. split; [reflexivity|]. split; [|done]. split; [by eapply genuine_sub|apply cache_len_sub in H2; cbn; lia|done].
Qed.
Lemma drops_all c e : ∃ c', InvalidateAll (E := E) (c, e) = (Ok tt, (c', e)) ∧ ca_entries c' ⊆ ca_entries c.
Proof. destruct (InvalidateAll_spec c e) as (c' & H1 & H2 & _). exists c'. by rewrite H2. Qed.
Lemma drops_token token c e : ∃ c', InvalidateToken (E := E) token (c, e) = (Ok tt, (c', e)) ∧ ca_entries c' ⊆ ca_entries c.
Proof. destruct (InvalidateToken_spec token c e) as (c' & H1 & H2 & _). by exists c'. Qed.

Lemma internal_answers r s : inv s → answers (handleInternal r) s (λ _, False).
Proof.
  intros Hs. unfold SubscriptionHttp.handleInternal. repeat (case_match; [by apply answers_ret|]). cbv zeta.
  repeat case_match; try (by apply answers_ret).
  - unfold internalRegisterToken. destruct (id_register dec (body_of r)) as [q|]; [|by apply answers_ret]. case_match; [by apply answers_ret|].
    apply answers_env; [done|]. intros [[]|?] env' _; [|by apply answers_ret; [by apply inv_env|]].
    apply answers_invalidated; [by apply inv_env|]. intros. apply drops_token.
  - unfold internalRevokeToken. destruct (id_revoke dec (body_of r)) as [q|]; [|by apply answers_ret]. case_match; [by apply answers_ret|].
    apply answers_env; [done|]. intros [[]|?] env' _; [|by apply answers_ret; [by apply inv_env|]].
    apply answers_invalidated; [by apply inv_env|]. intros. apply drops_all.
  - unfold internalInvalidate. destruct (id_invalidate dec (body_of r)) as [q|]; [|by apply answers_ret].
    apply answers_invalidated; [done|]. intros c e. case_match; [apply drops_token|apply drops_all].
Qed.

(** What a 200 answer under /sub/ means, by the form of the request *)
Definition rest_of (r : Request) : string := TrimPrefix (rq_Path r) "/sub/".
Definition entitled_answer (r : Request) (e : E) (rsp : Response) : Prop :=
  if HasSuffix (rest_of r) "/nodes" then
    ∃ res e' bundle, admitted (unescaped (TrimSuffix (rest_of r) "/nodes")) e res e' ∧
      PublicBundle (re_Bundle (Filter (rs_Bundle res) (s_Plan (rs_Subscription res)) (request_params r))) = Ok bundle ∧
      rsp_Body rsp = match SubscriptionBundle_json bundle with Some j => Marshal j +:+ newline | None => "" end
  else if HasSuffix (rest_of r) "/happ" then ∃ res e', admitted (unescaped (TrimSuffix (rest_of r) "/happ")) e res e'
  else if bool_decide (query r "deeplink" = "1") then ∃ res e', admitted (unescaped (unescaped (rest_of r))) e res e'
  else current_profile r (unescaped (rest_of r)) e rsp.
Definition tame (r : Request) : Prop := free 124 (unescaped (rest_of r)).

Lemma nodes_answers r token s : inv s → answers (serveNodes idx cp now r token) s (λ rsp,
  ∃ res e' bundle, admitted (unescaped token) (st_env s) res e' ∧
    PublicBundle (re_Bundle (Filter (rs_Bundle res) (s_Plan (rs_Subscription res)) (request_params r))) = Ok bundle ∧
    rsp_Body rsp = match SubscriptionBundle_json bundle with Some j => Marshal j +:+ newline | None => "" end).
Proof.
  intros Hs. apply answers_env; [done|]. intros [res|err] e1 Hr.
  - apply Resolve_admitted in Hr. destruct (PublicBundle _) as [bundle|?] eqn:Hb; [|by apply answers_ret; [by apply inv_env|]].
    apply answers_ret; [by apply inv_env|]. intros _. by exists res, e1, bundle.
  - apply answers_ret; [by apply inv_env|]. intros Hx. by apply writeResolveError_status in Hx.
Qed.
Lemma link_answers r token s : inv s → answers (serveDeepLink cfg idx cp now r token) s (λ _, ∃ res e', admitted (unescaped token) (st_env s) res e').
Proof.
  intros Hs. apply answers_env; [done|]. intros [res|err] e1 Hr.
  - apply answers_ret; [by apply inv_env|]. intros _. exists res, e1. by apply Resolve_admitted.
  - apply answers_ret; [by apply inv_env|]. intros Hx. by apply writeResolveError_status in Hx.
Qed.
Lemma sub_answers r s : inv s → tame r → answers (handleSub r) s (entitled_answer r (st_env s)).
Proof.
  intros Hs Ht. unfold SubscriptionHttp.handleSub, entitled_answer. fold (rest_of r). case_match; [by apply answers_ret|]. cbv zeta.
  case_match; [by apply answers_ret|]. destruct (HasSuffix (rest_of r) "/nodes"); [by apply nodes_answers|].
  destruct (HasSuffix (rest_of r) "/happ"); [by apply link_answers|]. case_match; [by apply answers_ret|].
  case_match; [by apply answers_ret|]. destruct (bool_decide (query r "deeplink" = "1")); [by apply link_answers|]. by apply serve_spec.
Qed.

Lemma guard_allow_size l t peer peers : 1 <= lm_maxPeers l → Z.of_nat (size peers) <= lm_maxPeers l →
  Z.of_nat (size (guard_allow l t peer peers).2) <= lm_maxPeers l.
Proof.
  intros Hmax Hs. unfold guard_allow. destruct (peers !! peer) as [b|] eqn:Hb.
  - destruct (bucket_take l t b) as [ok b']. cbn. by rewrite map_size_insert_Some by by eexists.
  - cbv beta zeta. set (peers' := if lm_maxPeers l <=? Z.of_nat (size peers) then drop_idle t peers else peers). assert (peers' ⊆ peers) as Hsub.
    { unfold peers'. case_match; [apply map_filter_subseteq|done]. }
    destruct (Z.leb_spec (lm_maxPeers l) (Z.of_nat (size peers'))); cbn.
    + apply map_subseteq_size in Hsub. lia.
    + destruct (bucket_take l t _) as [ok b']. cbn. rewrite map_size_insert. case_match; cbn; lia.
Qed.
Lemma Handler_answers r s : inv s → tame r →
  answers (Handler r) s (λ rsp, HasPrefix (rq_Path r) "/sub/" = true → entitled_answer r (now (st_env s)).2 rsp).
Proof.
  intros Hs Ht. unfold SubscriptionHttp.Handler. case_match; [by apply answers_ret|].
  destruct (bool_decide_reflect (rq_Path r = "/healthz")) as [Hp|_]; [apply answers_ret; [done|]; intros _; by rewrite Hp|].
  destruct (bool_decide_reflect (rq_Path r = "/readyz")) as [Hp'|_].
  { unfold handleReady. destruct ready as [m|]; [|apply answers_ret; [done|]; intros _; by rewrite Hp'].
    apply answers_env; [done|]. intros x e _. apply answers_ret; [by apply inv_env|]. intros _. by rewrite Hp'. }
  destruct (HasPrefix (rq_Path r) "/sub/") eqn:Hsub.
  - unfold guarded, answers. destruct (now (st_env s)) as [t e] eqn:Hn. cbn [snd].
    destruct (guard_allow sub_limiter t (clientKey proxies r) (st_peers s)) as [ok peers] eqn:Hg.
    assert (inv (mkState peers (st_cache s) e)) as Hs'.
    { destruct Hs as [? ? Hpe]. split; [done..|]. cbn. pose proof (guard_allow_size sub_limiter t (clientKey proxies r) (st_peers s)) as Hl.
      rewrite Hg in Hl. apply Hl; [done|exact Hpe]. }
    destruct ok; [|by exists rate_limited, (mkState peers (st_cache s) e)].
    destruct (sub_answers r _ Hs' Ht) as (rsp & s' & -> & Hi & Ha). exists rsp, s'. split_and!; [done|done|]. intros H200 _. by apply Ha.
  - destruct (HasPrefix (rq_Path r) "/internal/").
    + destruct (internal_answers r s Hs) as (rsp & s' & Hx & Hi & Ha). exists rsp, s'. by split_and!.
    + apply answers_ret; [done|]. by intros _.
Qed.

(** A state of the running service: requests one after the other, and anything may happen to the world in between *)
Inductive reached (ttl : Duration) : St → Prop :=
| reached_start e : reached ttl (mkState ∅ (New ttl) e)
| reached_world s e : reached ttl s → reached ttl (mkState (st_peers s) (st_cache s) e)
| reached_request s r rsp s' : reached ttl s → tame r → Handler r s = (Ok rsp, s') → reached ttl s'.
Lemma reached_inv ttl s : reached ttl s → inv s.
Proof.
  induction 1 as [e|s e _ IH|s r rsp s' _ IH Ht Hh].
  - split; [intros k st Hk; change ((∅ : gmap string stored) !! k = Some st) in Hk; by apply lookup_empty_Some in Hk|done..].
  - by apply inv_env.
  - destruct (Handler_answers r s IH Ht) as (rsp' & s1 & Hh' & Hi & _). congruence.
Qed.
Lemma reached_after ttl s r : reached ttl s → tame r → reached ttl (Handler r s).2.
Proof.
  intros Hs Ht. destruct (Handler_answers r s (reached_inv ttl s Hs) Ht) as (rsp & s' & Hh & _). rewrite Hh. by eapply reached_request.
Qed.
End serve.

(** C35: what /sub/ gives away. In every state the running service can reach, whatever the control-plane and the
    clients did with tokens that hold no '|', a request with such a token is answered, and an answer 200 under /sub/
    is for a token that is bound in that very request to a subscription granting access at that time and to an active account. A profile is a rendering,
    in the negotiated format, of a bundle with the digest of the customer's current public bundle and
    subscription: the cache never serves anything out of date, or of another customer, short of a collision. *)
Theorem profiles_current `{ord : !MapOrder} `{NetIP} {E} cfg idx cp (now : E → Time * E) dec proxies ready ttl s r :
  reached cfg idx cp now dec proxies ready ttl s → tame r →
  ∃ rsp s', Handler cfg idx cp now dec proxies ready r s = (Ok rsp, s') ∧
    (rsp_Status rsp = 200 → HasPrefix (rq_Path r) "/sub/" = true → entitled_answer cfg idx cp now r (now (st_env s)).2 rsp).
Proof.
  intros Hs Ht. destruct (Handler_answers cfg idx cp now dec proxies ready r s (reached_inv _ _ _ _ _ _ _ _ _ Hs) Ht) as (rsp & s' & ? & _ & ?).
  by exists rsp, s'.
Qed.
(** C39: bounded memory. Whatever is requested, the render cache holds at most 100000 entries and the rate
    limiter at most 4096 peers. *)
Theorem service_bounded `{ord : !MapOrder} `{NetIP} {E} cfg idx cp (now : E → Time * E) dec proxies ready ttl s :
  reached cfg idx cp now dec proxies ready ttl s →
  cache_len (st_cache s) <= maxEntries ∧ Z.of_nat (size (st_peers s)) <= 4096.
Proof. intros Hs. by apply reached_inv in Hs as []. Qed.

(** ** A concrete service *)
Definition demo_decoders : InternalDecoders := {| id_register := λ _, None; id_revoke := λ _, None; id_invalidate := λ _, None |}.
Definition demo_request (path : string) : Request := {|
  rq_Method := "GET"; rq_Path := path; rq_Query := ∅; rq_Header := ∅; rq_TLS := true; rq_Host := "h.test"; rq_RemoteAddr := "198.51.100.7"; rq_Body := [] |}.
Definition demo_config : Config := {|
  cf_PublicBaseURL := "https://h.test"; cf_InternalToken := "internal"; cf_ProfileUpdateHours := 12; cf_ProfileTitle := "Casper";
  cf_SupportURL := ""; cf_ProfileWebPageURL := ""; cf_Announce := ""; cf_Routing := demo_policy |}.
Definition demo_sub : Subscription := {|
  s_ID := "s1"; s_UserID := "u1"; s_Plan := "basic"; s_Status := SubscriptionStatusActive; s_Token := ""; s_TrafficLimitBytes := 0;
  s_SpeedLimitMbps := 0; s_DeviceLimit := 3; s_GraceUntil := None; s_BillingRevision := 0; s_StartsAt := 1; s_ExpiresAt := Some 100;
  s_CreatedAt := 1; s_UpdatedAt := 1 |}.
Definition demo_memory : Memory :=
  (Register memory_Index "tok" "u1" "s1" (SetNodes [demo_node ["ab12"] "pw" "cHNr"]
    (PutSubscription demo_sub (PutUser (demo_user None "") NewMemory)))).2.
Definition demo_now (m : Memory) : Time * Memory := (10, m).
Definition demo_state : State (E := Memory) := mkState ∅ (New (5 * Minute)) demo_memory.
Abbreviation demo_handler := (Handler (ord := key_order) (H := demo_ip) demo_config memory_Index memory_Provider demo_now demo_decoders [] None).
Lemma demo_reached : reached (ord := key_order) (H := demo_ip) demo_config memory_Index memory_Provider demo_now demo_decoders [] None (5 * Minute) demo_state.
Proof. apply reached_start. Qed.
(** A 200 answer has the meaning the theorem gives it. *)
Lemma demo_status {E} (m : M (State (E := E)) Response) s rsp s' (P : Response → Prop) :
  m s = (Ok rsp, s') → match (m s).1 with Ok r => rsp_Status r | Err _ => 0 end = 200 → (rsp_Status rsp = 200 → P rsp) → rsp_Status rsp = 200 ∧ P rsp.
Proof. intros -> H HP. auto. Qed.
Lemma profiles_current_witness : ∃ rsp s', demo_handler (demo_request "/sub/tok") demo_state = (Ok rsp, s') ∧
  rsp_Status rsp = 200 ∧
  entitled_answer demo_config memory_Index memory_Provider demo_now (demo_request "/sub/tok") demo_memory rsp.
Proof.
  destruct (profiles_current (ord := key_order) (H := demo_ip) demo_config memory_Index memory_Provider demo_now demo_decoders [] None (5 * Minute)
    demo_state (demo_request "/sub/tok") demo_reached) as (rsp & s' & Hh & Ha); [apply (bool_decide_unpack _); vm_compute; exact I|].
  exists rsp, s'. split; [exact Hh|]. eapply demo_status; [exact Hh|vm_compute; reflexivity|]. intros H200. by apply Ha.
Defined.
Lemma service_bounded_witness :
  let s := (demo_handler (demo_request "/sub/tok") demo_state).2 in
  (cache_len (st_cache s) = 1 ∧ size (st_peers s) = 1%nat) ∧ cache_len (st_cache s) <= maxEntries ∧ Z.of_nat (size (st_peers s)) <= 4096.
Proof.
  split; [vm_compute; done|].
  eapply (service_bounded (ord := key_order) (H := demo_ip) demo_config memory_Index memory_Provider demo_now demo_decoders [] None (5 * Minute)).
  apply reached_after; [exact demo_reached|apply (bool_decide_unpack _); vm_compute; exact I].
Defined.
