(* ===== verification/SubscriptionEnd.v ===== *)
(** * From a customer's link to the nodes' allow-list

    The subscription service in front of the control-plane: [HTTPClient] and [AuthoritativeIndex] over exchanges
    the control-plane's [Router] answers. Whoever is served a profile is, at that very moment, a customer the nodes
    admit, and a customer the nodes admit resolves. The exchanges are taken to be delivered. *)
From S2P Require Import Prelude GoBytes GoText GoCodec Contracts GoUrl GoFloat Platform SubscriptionOutput SubscriptionProvider SubscriptionResolve SubscriptionCache SubscriptionHttp SubscriptionPublic SubscriptionDocuments SubscriptionServe.
From S2P Require ControlStore ControlUse ControlFleet ControlAccess ControlTokens ControlHttp ControlApi.
Import ControlStore ControlUse ControlFleet.
Import SubscriptionOutput SubscriptionProvider.

(** ** The exchange between the two services

    [arrive] is the request an exchange of the client arrives as: what follows the question mark is parsed as
    net/url does, leaving malformed pairs out and keeping the first value of a key. *)
Definition QueryUnescape (s : string) : option string :=
  string_of_bytes <$> unescape_bytes ((λ b, if b =? 43 then 32 else b) <$> bytes_of s).
Definition ParseQuery (s : string) : gmap string string :=
  foldr (λ pair q, if bool_decide (pair = "") || existsb (Z.eqb 59) (bytes_of pair) then q else
    let '(k, v) := default (pair, "") (Cut pair 61) in
    match QueryUnescape k, QueryUnescape v with Some k, Some v => <[k := v]> q | _, _ => q end) ∅ (Split s 38).
Definition arrive (bearer method target body : string) : Request :=
  let '(path, raw) := default (target, "") (Cut target 63) in
  {| rq_Method := method; rq_Path := default path (PathUnescape path); rq_Query := ParseQuery raw;
     rq_Header := <["Authorization" := ["Bearer " +:+ bearer]]> ∅; rq_TLS := false; rq_Host := ""; rq_RemoteAddr := ""; rq_Body := bytes_of body |}.
Lemma arrive_method bearer method target body : rq_Method (arrive bearer method target body) = method.
Proof. unfold arrive. by destruct (default _ _). Qed.
Lemma arrive_body bearer method target body : rq_Body (arrive bearer method target body) = bytes_of body.
Proof. unfold arrive. by destruct (default _ _). Qed.

Section composed.
Context `{ord : !MapOrder} (api : ControlHttp.ApiDecoders) (cipher : option SubscriptionService.TokenCipher).
Context (tokens : ControlHttp.TokenStore) (ready : option (result unit)) (operator : option (Store → result ControlHttp.ControlPlaneOperatorSummary)).
Context (chi : list (string * string) → Request → ControlHttp.matching) (text : error → string).
Context (bearer : string) (hd : HTTPDecoders) (idx : TokenIndex Cp).
Abbreviation response := (ControlHttp.response text).
Definition Do (method target body : string) : M Cp (Z * option (list Z)) :=
  a ←! ControlHttp.Router api cipher tokens ready operator chi (arrive bearer method target body) ;
  let r := response a in mret (rsp_Status r, Some (bytes_of (rsp_Body r))).
Abbreviation client := (HTTPClient Do hd).
Abbreviation index := (AuthoritativeIndex Do hd idx).
Definition wall_clock (c : Cp) : Time * Cp := (cp_clock c, c).

(** [token] is a live link of the account [u], entitled through [sub] at the control-plane's time. *)
Definition entitled_link (c : Cp) (token : string) (u : User) (sub : Subscription) : Prop :=
  ∃ id, ControlTokens.answers (cp_store c) id (SubscriptionProvider.HashToken token) ∧
    ControlStore.c_subs (cp_store c) !! id = Some sub ∧ ControlStore.c_users (cp_store c) !! s_UserID sub = Some u ∧
    u_SubscriptionID u = Some id ∧ AllowList.entitled (cp_store c) (cp_clock c) u = Some sub.

(** *** What the two ends agree on

    The router matches the four requests, and each end's decoder reads back what the other wrote: the digest of
    [token], the binding it resolves to, and the users, subscriptions and active nodes of the registry. *)
Definition active_nodes (c : Cp) : list Node := filter (λ n, n_Status n = NodeStatusActive) (range (ControlStore.c_nodes (cp_store c))).*2.
Definition matched (method target body : string) (i : nat) (id : string) : Prop :=
  let r := arrive bearer method target body in
  chi [("GET", "/healthz"); ("GET", "/readyz"); ("*", "/v1/*")] r = ControlHttp.Matched 2 "" ∧
  chi ((λ x, (ControlHttp.rt_Method x, "/v1" +:+ ControlHttp.rt_Pattern x)) <$> ControlHttp.v1 api cipher operator) r = ControlHttp.Matched i id.
Definition reads_back {A} (decode : list Z → option A) (b : ControlHttp.body) (a : A) : Prop :=
  Httpx.DecodeJSON decode (Some (bytes_of (rsp_Body (response (ControlHttp.writeJSON 200 b))))) = Some a.
Record wired (c : Cp) (token : string) : Prop := {
  w_resolve : matched "POST" "/v1/subscription-tokens/resolve" (resolve_body token) 5 "";
  w_hash : ControlHttp.ad_resolve api (take (Z.to_nat (2 ^ 20)) (bytes_of (resolve_body token))) = Some (SubscriptionProvider.HashToken token);
  w_binding b : (SubscriptionService.ResolveToken (SubscriptionProvider.HashToken token) c).1 = Ok b →
    reads_back (hd_binding hd) (ControlHttp.BBinding b) (ControlStore.tk_UserID b, ControlStore.tk_SubscriptionID b);
  w_user id u : ControlStore.c_users (cp_store c) !! id = Some u →
    matched "GET" ("/v1/users/" +:+ PathEscape id) "" 17 id ∧ reads_back (hd_user hd) (ControlHttp.BUser (withoutPrivateKey u)) (withoutPrivateKey u);
  w_subscription id sub : ControlStore.c_subs (cp_store c) !! id = Some sub →
    matched "GET" ("/v1/subscriptions/" +:+ PathEscape id) "" 22 id ∧
    reads_back (hd_subscription hd) (ControlHttp.BSubscription (ControlStore.with_s_Token "" sub)) (ControlStore.with_s_Token "" sub);
  w_nodes : matched "GET" "/v1/nodes?status=active" "" 7 "" ∧ reads_back (hd_page hd) (ControlHttp.BNodes (active_nodes c) "") (active_nodes c, "") }.

Lemma ResolveToken_state hash c : (SubscriptionService.ResolveToken hash c).2 = c.
Proof.
  unfold SubscriptionService.ResolveToken, repo, zoom, Subscriptions.ResolveTokenHash. destruct (hex_decode hash); [|done].
  case_match; [|done]. destruct (list_find _ _) as [[? []]|]; by destruct c.
Qed.
Lemma entitled_spec c u sub id : u_SubscriptionID u = Some id → ControlStore.c_subs (cp_store c) !! id = Some sub →
  AllowList.entitled (cp_store c) (cp_clock c) u = Some sub ↔
  u_Status u = UserStatusActive ∧ s_Status sub ∈ [SubscriptionStatusActive; SubscriptionStatusTrialing; SubscriptionStatusPastDue] ∧
  match AccessUntil sub with None => True | Some e => cp_clock c < e end.
Proof.
  intros Hid Hs. unfold AllowList.entitled. rewrite Hid. cbn. rewrite Hs. cbn. case_bool_decide as Ha; cbn [negb]; [|naive_solver].
  unfold servable, one_of, lapsed, After. case_bool_decide as Hst; cbn [andb]; [|naive_solver].
  destruct (AccessUntil sub) as [e|]; cbn [negb]; [|naive_solver]. destruct (Z.ltb_spec (cp_clock c) e); cbn [negb]; naive_solver lia.
Qed.

(** *** The router behind the client *)
Context (Htok : ControlHttp.TokenStore_Resolve tokens bearer = Some ControlHttp.RoleSubscription) (Hne : bearer ≠ "") (Htrim : TrimSpace bearer = bearer).
Lemma bearer_arrives method target body : ControlHttp.bearerToken (arrive bearer method target body) = bearer.
Proof.
  apply ControlApi.bearerToken_header; [|done..]. unfold arrive. destruct (default (target, "") (Cut target 63)). unfold header. cbn [rq_Header]. by rewrite lookup_insert_eq.
Qed.
Lemma Do_matched method target body i id x c : matched method target body i id → ControlHttp.v1 api cipher operator !! i = Some x →
  ControlHttp.Allows ControlHttp.RoleSubscription (ControlHttp.rt_Roles x) = true →
  Do method target body c = (a ←! ControlHttp.rt_Handler x ControlHttp.RoleSubscription id (arrive bearer method target body) ;
    mret (rsp_Status (response a), Some (bytes_of (rsp_Body (response a))))) c.
Proof.
  intros [H1 H2] Hx Ha. unfold Do, ControlHttp.Router, mbind, M_bind. rewrite H1. unfold ControlHttp.authenticate. rewrite bearer_arrives, (bool_decide_eq_false_2 (bearer = "")) by done.
  rewrite Htok. unfold ControlHttp.serve_v1. rewrite H2, Hx. unfold ControlHttp.requireRole. by rewrite Ha.
Qed.
Lemma client_GetUser c token id u : wired c token → ControlStore.c_users (cp_store c) !! id = Some u →
  GetUser client id c = (Ok (withoutPrivateKey u), c).
Proof.
  intros W Hu. destruct (w_user _ _ W _ _ Hu) as [Hm Hd]. cbn [GetUser HTTPClient]. unfold getJSON, wrapping, mbind, M_bind.
  rewrite (Do_matched _ _ _ 17 id _ c Hm) by reflexivity. cbn [ControlHttp.rt_Handler]. unfold ControlHttp.getUser, ControlHttp.respond, try, mbind, M_bind, UserService.Get, repo, zoom, Users.Get.
  rewrite Hu. unfold reads_back in Hd. cbn -[Httpx.DecodeJSON ControlHttp.response]. change (ControlHttp.writeUser 200 u) with (ControlHttp.writeJSON 200 (ControlHttp.BUser (withoutPrivateKey u))).
  rewrite Hd. by destruct c.
Qed.
Lemma client_GetSubscription c token id sub : wired c token → ControlStore.c_subs (cp_store c) !! id = Some sub →
  GetSubscription client id c = (Ok (ControlStore.with_s_Token "" sub), c).
Proof.
  intros W Hs. destruct (w_subscription _ _ W _ _ Hs) as [Hm Hd]. cbn [GetSubscription HTTPClient]. unfold getJSON, wrapping, mbind, M_bind.
  rewrite (Do_matched _ _ _ 22 id _ c Hm) by reflexivity. cbn [ControlHttp.rt_Handler].
  unfold ControlHttp.getSubscription, ControlHttp.respond, try, mbind, M_bind, SubscriptionService.Get, repo, zoom, mbind, M_bind, Subscriptions.Get.
  rewrite Hs. unfold reads_back in Hd. cbn -[Httpx.DecodeJSON ControlHttp.response]. rewrite Hd. by destruct c.
Qed.
Lemma active_filter (nodes : list Node) : filter (λ n, Nodes.matches {| ControlStore.nf_Status := NodeStatusActive; ControlStore.nf_Role := ""; ControlStore.nf_Region := "";
    ControlStore.nf_Limit := 0; ControlStore.nf_Cursor := "" |} n = true) nodes = filter (λ n, n_Status n = NodeStatusActive) nodes.
Proof.
  apply list_filter_iff. intros n. unfold Nodes.matches. cbn. rewrite !andb_true_r. apply bool_decide_eq_true.
Qed.
Lemma node_filter_active : ControlHttp.node_filter (arrive bearer "GET" "/v1/nodes?status=active" "") =
  {| ControlStore.nf_Status := NodeStatusActive; ControlStore.nf_Role := ""; ControlStore.nf_Region := ""; ControlStore.nf_Limit := 0; ControlStore.nf_Cursor := "" |}.
Proof. vm_compute. reflexivity. Qed.
(** One page that is the last one *)
Lemma list_pages_last budget f cursor all path body c items : (budget ≠ 0)%nat → "/v1/nodes?" +:+ Values_Encode (nodes_query f cursor) = path →
  Do "GET" path "" c = (Ok (200, Some body), c) → Httpx.DecodeJSON (hd_page hd) (Some body) = Some (items, "") →
  list_pages Do hd budget f cursor all c = (Ok (all ++ items), c).
Proof.
  destruct budget as [|budget]; [done|]. intros _ Hp Hd Hj. cbn [list_pages]. unfold mbind, M_bind, getJSON, wrapping. cbv beta. unfold mbind, M_bind.
  rewrite Hp, Hd. cbn -[Httpx.DecodeJSON list_pages]. by rewrite Hj.
Qed.
Lemma client_ListNodes c token : wired c token →
  ListNodes client {| pf_Status := NodeStatusActive; pf_Role := ""; pf_Region := ""; pf_Limit := 0 |} c = (Ok (active_nodes c), c).
Proof.
  intros W. destruct (w_nodes _ _ W) as [Hm Hd]. cbn [ListNodes HTTPClient].
  refine (list_pages_last maxPages _ "" [] "/v1/nodes?status=active" _ c _ _ _ _ Hd); [done|vm_compute; reflexivity|].
  rewrite (Do_matched _ _ _ 7 "" _ c Hm) by reflexivity. cbn [ControlHttp.rt_Handler].
  unfold ControlHttp.listNodes, ControlHttp.respond, try, mbind, M_bind, NodeService.List, repo, zoom, Nodes.List, gets.
  rewrite node_filter_active. cbn [fst snd]. rewrite active_filter. fold (active_nodes c).
  cbn -[Httpx.DecodeJSON ControlHttp.response active_nodes]. by destruct c.
Qed.
Lemma response_status a : rsp_Status (response a) = ControlHttp.an_Status a.
Proof. unfold ControlHttp.response. by destruct (ControlHttp.an_Body a). Qed.
Lemma response_no_store a : rsp_Body (response (ControlHttp.no_store a)) = rsp_Body (response a).
Proof. by destruct a as [? ? []]. Qed.
Lemma client_Lookup c token : wired c token → ∃ e, Lookup index token c =
  (if bool_decide (token = "") || (512 <? Z.of_nat (String.length token)) then Err SubscriptionProvider.ErrNotFound
   else match (SubscriptionService.ResolveToken (SubscriptionProvider.HashToken token) c).1 with
        | Err _ => Err e
        | Ok b => if bool_decide (ControlStore.tk_UserID b = "") || bool_decide (ControlStore.tk_SubscriptionID b = "") then Err SubscriptionProvider.ErrNotFound
                  else Ok (ControlStore.tk_UserID b, ControlStore.tk_SubscriptionID b)
        end, c).
Proof.
  intros W. cbn [Lookup AuthoritativeIndex]. unfold authoritative_Lookup. destruct (_ || _); [by exists (Errorf "")|].
  unfold try, mbind, M_bind. rewrite (Do_matched _ _ _ 5 "" _ c (w_resolve _ _ W)) by reflexivity. cbn [ControlHttp.rt_Handler].
  unfold ControlHttp.resolveToken, ControlHttp.decoded, ControlHttp.decodeJSON. rewrite arrive_body, (w_hash _ _ W). unfold ControlHttp.respond, try, mbind, M_bind.
  pose proof (ResolveToken_state (SubscriptionProvider.HashToken token) c) as Hc. pose proof (w_binding _ _ W) as Hb.
  destruct (SubscriptionService.ResolveToken _ c) as [[b|e] c'] eqn:Hr; cbn in Hc; subst c'.
  - specialize (Hb b eq_refl). unfold reads_back in Hb. exists (Errorf "").
    cbn [fst snd mret M_ret]. rewrite response_status, response_no_store. cbn [ControlHttp.no_store ControlHttp.writeJSON ControlHttp.an_Status Z.eqb Pos.eqb orb negb]. rewrite Hb. cbv beta iota. by destruct (_ || _).
  - cbn [fst snd mret M_ret]. rewrite response_status. unfold ControlHttp.writeDomainError. repeat case_match; first [by exists SubscriptionProvider.ErrNotFound|by exists (Errorf "token authority returned status")].
Qed.

(** Whoever resolves is entitled, and gets the active nodes of the registry. *)
Lemma admitted_entitled token c res c' : wired c token → admitted index client wall_clock token c res c' →
  c' = c ∧ ∃ u sub, entitled_link c token u sub ∧ sb_User (rs_Bundle res) = withoutPrivateKey u ∧
    rs_Subscription res = ControlStore.with_s_Token "" sub ∧ sb_Nodes (rs_Bundle res) = active_nodes c.
Proof.
  intros W (userID & subID & e1 & e2 & e3 & e4 & e5 & Hl & Hs & Hst & Hu & Hg & Ha & Hn & Ht).
  destruct (client_Lookup c token W) as (e & HL). rewrite HL in Hl. destruct (_ || _); [done|].
  destruct (SubscriptionService.ResolveToken _ c).1 as [b|] eqn:Hr; [|done].
  destruct (ControlTokens.ResolveToken_sound (SubscriptionProvider.HashToken token) c b Hr) as (_ & sub & Hans & (Hsub & u & Hus & Hua & Hui) & Hbu).
  destruct (_ || _); [done|]. injection Hl as <- <- <-. rewrite Hbu in *.
  rewrite (client_GetSubscription c token _ sub W Hsub) in Hs. injection Hs as Hs' <-.
  rewrite <-Hs' in Hst, Hu. cbn in Hst. change (AccessUntil (ControlStore.with_s_Token "" sub)) with (AccessUntil sub) in Hu.
  assert (e3 = c ∧ match AccessUntil sub with None => True | Some e => cp_clock c < e end) as [-> Htime].
  { destruct (AccessUntil sub) as [until|]; [|done]. by destruct Hu as (t & [= <- <-] & ?). }
  rewrite (client_GetUser c token _ u W Hus) in Hg. injection Hg as Hg <-.
  rewrite (client_ListNodes c token W) in Hn. injection Hn as Hn <-. injection Ht as Ht Hc'.
  split; [done|]. exists u, sub. split_and!; [|done..].
  exists (ControlStore.tk_SubscriptionID b). split_and!; [done..|]. by eapply entitled_spec.
Qed.

(** Conversely, a live link that nothing else answers to resolves. *)
Definition sole_link (c : Cp) (token : string) (sub : Subscription) : Prop :=
  token ≠ "" ∧ Z.of_nat (String.length token) <= 512 ∧ s_UserID sub ≠ "" ∧
  ∀ id, ControlTokens.answers (cp_store c) id (SubscriptionProvider.HashToken token) → id ≠ "" ∧ ControlStore.c_subs (cp_store c) !! id = Some sub ∧
    ∀ id', ControlTokens.answers (cp_store c) id' (SubscriptionProvider.HashToken token) → id' = id.
Lemma entitled_admitted token c u sub : wired c token → entitled_link c token u sub → sole_link c token sub →
  admitted index client wall_clock token c
    {| rs_Bundle := {| sb_User := withoutPrivateKey u; sb_Nodes := active_nodes c; sb_GeneratedAt := cp_clock c |};
       rs_Subscription := ControlStore.with_s_Token "" sub |} c.
Proof.
  intros W (id & Hans & Hsub & Hus & Hui & He) (Hne' & Hlen & Huid & Hsole). destruct (Hsole id Hans) as (Hid & _ & Hone).
  apply (entitled_spec c u sub id Hui Hsub) in He as (Hact & Hst & Hut). destruct (ControlTokens.HashToken_decodes token) as (k & Hk & Hkl).
  exists (s_UserID sub), id, c, c, c, c, c. split_and!; [| |done| | |done| |done].
  - destruct (client_Lookup c token W) as (e & ->). rewrite bool_decide_eq_false_2 by done.
    destruct (Z.ltb_spec 512 (Z.of_nat (String.length token))); [lia|]. cbn [orb].
    erewrite ControlTokens.ResolveToken_complete by (first [exact Hk|done|by split; [|exists u]]). cbn. by rewrite !bool_decide_eq_false_2.
  - by apply (client_GetSubscription c token).
  - change (AccessUntil (rs_Subscription _)) with (AccessUntil sub). destruct (AccessUntil sub) as [t|]; [|done]. by exists (cp_clock c).
  - by apply (client_GetUser c token).
  - by apply (client_ListNodes c token).
Qed.

(** The token a request under /sub/ presents *)
Definition presented (r : Request) : string :=
  if HasSuffix (rest_of r) "/nodes" then unescaped (TrimSuffix (rest_of r) "/nodes")
  else if HasSuffix (rest_of r) "/happ" then unescaped (TrimSuffix (rest_of r) "/happ")
  else if bool_decide (query r "deeplink" = "1") then unescaped (unescaped (rest_of r)) else unescaped (rest_of r).
Lemma answer_admitted `{NetIP} cfg r c rsp : entitled_answer cfg index client wall_clock r c rsp →
  ∃ res e', admitted index client wall_clock (presented r) c res e'.
Proof.
  unfold entitled_answer, presented. destruct (HasSuffix _ _); [intros (res & e' & bundle & Ha & _); by exists res, e'|].
  destruct (HasSuffix _ _); [done|]. case_bool_decide; [done|]. intros (res & e' & bundle & snap & Ha & _). by exists res, e'.
Qed.
Lemma entitled_on_list c token u sub : entitled_link c token u sub → u ∈ ControlAccess.admitted (cp_store c) (cp_clock c) (range (ControlStore.c_users (cp_store c))).*2.
Proof.
  intros (id & _ & Hs & Hu & _ & He). apply list_elem_of_filter. split; [by rewrite He|].
  apply list_elem_of_fmap. exists (s_UserID sub, u). split; [done|]. by apply elem_of_range.
Qed.
(** C34: profiles and allow-list agree. Behind the client and the token index that ask the control-plane's router
    with a token of the subscription role, over exchanges that are delivered, routed and decoded as they were
    written, and in every state the running service can reach with requests whose tokens hold no '|': a request under /sub/ is answered 200 only if the token it presents is a live link of a customer who is, at
    that very time, on the allow-list the nodes enforce; and every live link of a customer on the allow-list that
    nothing else answers to resolves to that customer without the private key, the subscription without its
    token, and exactly the active nodes of the registry. *)
Theorem served_is_admitted `{NetIP} cfg dec proxies served ttl s r rsp s' :
  reached cfg index client wall_clock dec proxies served ttl s → tame r →
  Handler cfg index client wall_clock dec proxies served r s = (Ok rsp, s') → HasPrefix (rq_Path r) "/sub/" = true →
  let c := st_env s in
  (wired c (presented r) → rsp_Status rsp = 200 → ∃ u sub, entitled_link c (presented r) u sub ∧
    u ∈ ControlAccess.admitted (cp_store c) (cp_clock c) (range (ControlStore.c_users (cp_store c))).*2) ∧
  (∀ token u sub, wired c token → entitled_link c token u sub → sole_link c token sub →
    ∃ res, SubscriptionResolve.Resolve index client wall_clock token c = (Ok res, c) ∧
      sb_User (rs_Bundle res) = withoutPrivateKey u ∧ rs_Subscription res = ControlStore.with_s_Token "" sub ∧
      sb_Nodes (rs_Bundle res) ≡ₚ filter (λ n, n_Status n = NodeStatusActive) (map_to_list (ControlStore.c_nodes (cp_store c))).*2).
Proof.
  intros Hs Ht Hh Hp c. split.
  - intros W H200. apply reached_inv in Hs. destruct (Handler_answers cfg index client wall_clock dec proxies served r s Hs Ht) as (rsp' & s1 & Hh' & _ & Ha).
    rewrite Hh in Hh'. injection Hh' as <- <-. apply Ha in H200; [|done]. cbn in H200. apply answer_admitted in H200 as (res & e' & Had).
    apply (admitted_entitled _ _ _ _ W) in Had as (_ & u & sub & He & _). exists u, sub. split; [exact He|]. by eapply entitled_on_list.
  - intros token u sub W He Hsole. pose proof (entitled_admitted _ _ _ _ W He Hsole) as Had. eexists.
    split; [by apply Resolve_admitted|]. split_and!; [done..|]. cbn. unfold active_nodes. by rewrite range_perm.
Qed.
End composed.

(** ** One linked customer and one node *)
#[local] Existing Instances key_order demo_ip.
Definition served_account : User := with_u_secrets "ab" "uuid" "private" "pw" ControlTokens.link_user.
Definition served_cp : Cp :=
  with_store (ControlStore.set_nodes <["n1" := demo_node ["ab"] "pw" "cHNr"]> (ControlStore.set_users <["u1" := served_account]> ControlTokens.link_store))
    ControlTokens.link_cp.
Definition served_state : SubscriptionHttp.State (E := Cp) := mkState ∅ (SubscriptionCache.New (5 * Minute)) served_cp.
Definition served_api : ControlHttp.ApiDecoders := {|
  ControlHttp.ad_node := λ _, None; ControlHttp.ad_rotate := λ _, None; ControlHttp.ad_activation := λ _, None; ControlHttp.ad_aggregates := λ _, None;
  ControlHttp.ad_createUser := λ _, None; ControlHttp.ad_patchUser := λ _ _, None; ControlHttp.ad_createSubscription := λ _, None;
  ControlHttp.ad_patchSubscription := λ _, None; ControlHttp.ad_ensureTelegram := λ _, None; ControlHttp.ad_ensureSubscription := λ _, None;
  ControlHttp.ad_billingState := λ _, None; ControlHttp.ad_resolve := ControlApi.only (resolve_body "t") (Some (SubscriptionProvider.HashToken "t")) |}.
(** The client's decoders know the four answers. *)
Definition answered (b : ControlHttp.body) : string := rsp_Body (ControlHttp.response (λ _, "") (ControlHttp.writeJSON 200 b)).
Definition served_user : User := withoutPrivateKey served_account.
Definition served_sub : Subscription := ControlStore.with_s_Token "" ControlTokens.link_sub.
Definition served_binding : ControlStore.SubscriptionTokenBinding := {| ControlStore.tk_UserID := "u1"; ControlStore.tk_SubscriptionID := "s1" |}.
Definition served_decoders : HTTPDecoders := {|
  hd_user := ControlApi.only (answered (ControlHttp.BUser served_user)) (Some served_user);
  hd_subscription := ControlApi.only (answered (ControlHttp.BSubscription served_sub)) (Some served_sub);
  hd_page := ControlApi.only (answered (ControlHttp.BNodes (active_nodes served_cp) "")) (Some (active_nodes served_cp, ""));
  hd_binding := ControlApi.only (answered (ControlHttp.BBinding served_binding)) (Some ("u1", "s1")); hd_any := λ _, None |}.
Definition served_tokens : ControlHttp.TokenStore := <["cp-subscription" := ControlHttp.RoleSubscription]> ∅.
(** The embedded index, which is never asked *)
Definition served_index : TokenIndex Cp := {|
  Lookup := λ _, fail SubscriptionProvider.ErrNotFound; Register := λ _ _ _, mret tt; Revoke := λ _, mret tt;
  RevokeByUser := λ _, mret 0; RevokeBySubscription := λ _, mret 0 |}.
Abbreviation served_Do := (Do served_api None served_tokens None None (λ table r, ControlApi.match_table table 0 r) (λ _, "") "cp-subscription").
Abbreviation served_client := (HTTPClient served_Do served_decoders).
Abbreviation served_lookup := (AuthoritativeIndex served_Do served_decoders served_index).
Abbreviation served_handler := (Handler demo_config served_lookup served_client wall_clock demo_decoders [] None).
Lemma served_wired : wired served_api None None (λ table r, ControlApi.match_table table 0 r) (λ _, "") "cp-subscription" served_decoders served_cp "t".
Proof.
  split.
  - split; vm_compute; reflexivity.
  - vm_compute. reflexivity.
  - intros b Hb. assert (b = served_binding) as -> by (vm_compute in Hb; by injection Hb as <-). vm_compute. reflexivity.
  - intros id u Hu. change (ControlStore.c_users (cp_store served_cp)) with (<["u1" := served_account]> (<["u1" := ControlTokens.link_user]> (∅ : gmap string User))) in Hu.
    rewrite insert_insert_eq in Hu. apply lookup_singleton_Some in Hu as [<- <-]. split; [split|]; vm_compute; reflexivity.
  - intros id sub Hs. change (ControlStore.c_subs (cp_store served_cp)) with (<["s1" := ControlTokens.link_sub]> (∅ : gmap string Subscription)) in Hs.
    apply lookup_singleton_Some in Hs as [<- <-]. split; [split|]; vm_compute; reflexivity.
  - split; [split|]; vm_compute; reflexivity.
Qed.
Lemma served_is_admitted_witness :
  (∃ rsp s', served_handler (demo_request "/sub/t") served_state = (Ok rsp, s') ∧ rsp_Status rsp = 200 ∧
    ∃ u sub, entitled_link served_cp (presented (demo_request "/sub/t")) u sub ∧
      u ∈ ControlAccess.admitted (cp_store served_cp) (cp_clock served_cp) (range (ControlStore.c_users (cp_store served_cp))).*2) ∧
  ∃ res, SubscriptionResolve.Resolve served_lookup served_client wall_clock "t" served_cp = (Ok res, served_cp) ∧
    sb_User (rs_Bundle res) = served_user ∧ sb_Nodes (rs_Bundle res) ≡ₚ [demo_node ["ab"] "pw" "cHNr"].
Proof.
  assert (reached demo_config served_lookup served_client wall_clock
    demo_decoders [] None (5 * Minute) served_state) as Hr by apply reached_start.
  assert (ControlHttp.TokenStore_Resolve served_tokens "cp-subscription" = Some ControlHttp.RoleSubscription) as Htok by (vm_compute; reflexivity).
  assert (tame (demo_request "/sub/t")) as Ht by (apply (bool_decide_unpack _); vm_compute; exact I).
  pose proof (reached_inv _ _ _ _ _ _ _ _ _ Hr) as Hi.
  destruct (Handler_answers demo_config served_lookup served_client wall_clock demo_decoders [] None _ _ Hi Ht) as (rsp & s' & Hh & _).
  destruct (served_is_admitted served_api None served_tokens None None (λ table r, ControlApi.match_table table 0 r) (λ _, "") "cp-subscription"
    served_decoders served_index Htok ltac:(discriminate) eq_refl demo_config demo_decoders [] None (5 * Minute) _ _ _ _ Hr Ht Hh eq_refl) as [Hs Hl]. split.
  - exists rsp, s'. split; [exact Hh|].
    eapply (demo_status _ _ _ _ (λ _, ∃ u sub, _)); [exact Hh|vm_compute; reflexivity|exact (Hs served_wired)].
  - destruct (Hl "t" served_account ControlTokens.link_sub served_wired) as (res & H1 & H2 & _ & H3).
    + exists "s1". split; [left; vm_compute; reflexivity|]. repeat (split; [vm_compute; reflexivity|]). vm_compute. reflexivity.
    + split; [discriminate|]. split; [discriminate|]. split; [discriminate|]. intros id Ha.
      assert (∀ i, ControlTokens.answers (cp_store served_cp) i (SubscriptionProvider.HashToken "t") → i = "s1") as Hone.
      { intros i. destruct (decide (i = "s1")) as [|Hne]; [done|].
        intros [Hx|(d & Hx & _)]; unfold served_cp, ControlTokens.link_cp, ControlTokens.link_store in Hx; simpl in Hx;
          rewrite lookup_insert_ne in Hx by done; by rewrite lookup_empty in Hx. }
      rewrite (Hone id Ha). split; [discriminate|]. split; [vm_compute; reflexivity|exact Hone].
    + exists res. split; [exact H1|]. split; [exact H2|exact H3].
Defined.
