(* ===== verification/DeliveryWire.v ===== *)
(** * Delivery: the signed artifact and its wire form

    services/delivery/internal/artifact: the canonical envelope, the signed wire form, [Open]. A buffer is the list of
    its bytes. A parser and its printer are each other's inverse: the class [Codec] states it, once for the envelope and
    once for the wire form. *)
From S2P Require Import Prelude GoBytes GoText GoCodec Contracts.

(** ** Encodings with a decoder that accepts exactly the encodings *)
Class Codec (A : Type) := {
  encode : A → result (list Z);
  decode : list Z → result A;
  encodable : A → Prop;
  decode_encode : ∀ a b, encodable a → encode a = Ok b → decode b = Ok a;
  encode_decode : ∀ b a, Forall is_byte b → decode b = Ok a → encode a = Ok b ∧ encodable a
}.

(** ** artifact.go *)
Definition KindDirectory : string := "directory".
Definition KindSubscription : string := "subscription".
Definition Kind_Valid (k : string) : bool := one_of k [KindDirectory; KindSubscription].
Definition Version : Z := 1.
Definition maxPayload : Z := 2 ^ 20.

Record Artifact := { art_Version : Z; art_Kind : string; art_IssuedAt : Time; art_Payload : list Z }.
Definition NewArtifact (kind : string) (issuedAt : Time) (payload : list Z) : Artifact :=
  {| art_Version := Version; art_Kind := kind; art_IssuedAt := issuedAt; art_Payload := payload |}.

(** [Time.UnixNano], an int64 that wraps outside the years 1678 to 2262, and [time.Unix(0, ns)] *)
Definition unix_epoch : Time := 62135596800 * Second.
Definition UnixNano (t : Time) : Z := wrap64 (t - unix_epoch).
Definition time_of_nanos (ns : Z) : Time := unix_epoch + ns.

Definition len (l : list Z) : Z := Z.of_nat (length l).
Definition Canonical (a : Artifact) : result (list Z) :=
  if negb (Kind_Valid (art_Kind a)) then Err (Errorf "artifact: unknown kind")
  else if maxPayload <? len (art_Payload a) then Err (Errorf "artifact: payload exceeds max")
  else
    let kind := bytes_of (art_Kind a) in
    if 2 ^ 16 - 1 <? len kind then Err (Errorf "artifact: kind too long")
    else Ok ([art_Version a] ++ be_bytes 8 (UnixNano (art_IssuedAt a)) ++ be_bytes 2 (len kind) ++ kind
             ++ be_bytes 4 (len (art_Payload a)) ++ art_Payload a).

Definition ErrMalformed : error := Sentinel "artifact: malformed canonical bytes".
Definition Decode (b : list Z) : result Artifact :=
  if (length b <? 1 + 8 + 2)%nat then Err ErrMalformed
  else
    let version := nth 0 b 0 in
    if negb (version =? Version) then Err (Errorf "artifact: unsupported version")
    else
      let issued := wrap64 (be_value (bytes_at 1 8 b)) in
      let kindLen := Z.to_nat (be_value (bytes_at 9 2 b)) in
      if (length b <? 11 + kindLen + 4)%nat then Err ErrMalformed
      else
        let kind := string_of_bytes (bytes_at 11 kindLen b) in
        let payloadLen := be_value (bytes_at (11 + kindLen) 4 b) in
        let off := (11 + kindLen + 4)%nat in
        if (maxPayload <? payloadLen) || negb (Z.of_nat off + payloadLen =? len b) then Err ErrMalformed
        else
          let payload := bytes_at off (Z.to_nat payloadLen) b in
          if negb (Kind_Valid kind) then Err (Errorf "artifact: unknown kind")
          else Ok {| art_Version := version; art_Kind := kind; art_IssuedAt := time_of_nanos issued; art_Payload := payload |}.

(** ** signed.go *)
Definition wireMagic : list Z := bytes_of "CVD1".
Record Signed := { sg_Artifact : Artifact; sg_KeyID : string; sg_Signature : list Z }.

Definition Marshal (s : Signed) : result (list Z) :=
  match Canonical (sg_Artifact s) with
  | Err e => Err e
  | Ok canon =>
      let keyID := bytes_of (sg_KeyID s) in
      if (2 ^ 16 - 1 <? len keyID) || (2 ^ 16 - 1 <? len (sg_Signature s)) then Err (Errorf "artifact: keyid or signature too long")
      else Ok (wireMagic ++ be_bytes 2 (len keyID) ++ keyID ++ be_bytes 2 (len (sg_Signature s)) ++ sg_Signature s ++ canon)
  end.

Definition Unmarshal (b : list Z) : result Signed :=
  if (length b <? 4 + 2 + 2)%nat || negb (bool_decide (bytes_at 0 4 b = wireMagic)) then Err ErrMalformed
  else
    let keyIDLen := Z.to_nat (be_value (bytes_at 4 2 b)) in
    if (length b <? 6 + keyIDLen + 2)%nat then Err ErrMalformed
    else
      let keyID := string_of_bytes (bytes_at 6 keyIDLen b) in
      let sigLen := Z.to_nat (be_value (bytes_at (6 + keyIDLen) 2 b)) in
      let off := (6 + keyIDLen + 2)%nat in
      if (length b <? off + sigLen)%nat then Err ErrMalformed
      else
        match Decode (drop (off + sigLen) b) with
        | Err e => Err e
        | Ok a => Ok {| sg_Artifact := a; sg_KeyID := keyID; sg_Signature := bytes_at off sigLen b |}
        end.

(** The interfaces [Signer] and [Verifier] *)
Record Signer := { sn_KeyID : string; sn_Sign : list Z → list Z }.
Definition Verifier : Type := string → list Z → list Z → bool.

Definition Sign (a : Artifact) (s : Signer) : result Signed :=
  match Canonical a with
  | Err e => Err e
  | Ok msg => Ok {| sg_Artifact := a; sg_KeyID := sn_KeyID s; sg_Signature := sn_Sign s msg |}
  end.
Definition ErrBadSignature : error := Sentinel "artifact: signature verification failed".
Definition Open (b : list Z) (v : Verifier) : result Artifact :=
  match Unmarshal b with
  | Err e => Err e
  | Ok s =>
      match Canonical (sg_Artifact s) with
      | Err e => Err e
      | Ok canon => if negb (v (sg_KeyID s) canon (sg_Signature s)) then Err (wrap_err "artifact: open" ErrBadSignature)
                    else Ok (sg_Artifact s)
      end
  end.

(** ** Reading back what was written *)
#[local] Arguments be_bytes : simpl never.
#[local] Instance Ok_inj {A} : Inj (=) (=) (@Ok A).
Proof. by intros x y [= ->]. Qed.
(** Fixed-width lengths: a length that fits is read back, and the bytes of a length are its only encoding. *)
Lemma read_length k l : len l < 2 ^ (8 * Z.of_nat k) → Z.to_nat (be_value (be_bytes k (len l))) = length l.
Proof. intros H. unfold len in *. rewrite be_value_bytes, Z.mod_small by lia. lia. Qed.
Lemma be_value_slice k off b : Forall is_byte b → (off + k <= length b)%nat →
  be_bytes k (be_value (bytes_at off k b)) = bytes_at off k b.
Proof.
  intros Hb Hl. pose proof (be_bytes_value _ (bytes_at_bound off k b Hb)) as H. by rewrite length_bytes_at in H.
Qed.
Lemma be_value_slice_bound k off b : Forall is_byte b → (off + k <= length b)%nat →
  0 <= be_value (bytes_at off k b) < 2 ^ (8 * Z.of_nat k).
Proof.
  intros Hb Hl. pose proof (be_value_bound _ (bytes_at_bound off k b Hb)) as H. by rewrite length_bytes_at in H.
Qed.
(** Locating a part of a concatenation: step over the parts before it. *)
Lemma bytes_at_skip off n x y : (length x <= off)%nat → bytes_at off n (x ++ y) = bytes_at (off - length x) n y.
Proof. intros H. unfold bytes_at. by rewrite drop_app_ge. Qed.
Lemma bytes_at_here off n y z : off = 0%nat → length y = n → bytes_at off n (y ++ z) = y.
Proof. intros -> <-. unfold bytes_at. by rewrite drop_0, take_app_length. Qed.
Lemma bytes_at_all off n y : off = 0%nat → length y = n → bytes_at off n y = y.
Proof. intros -> <-. unfold bytes_at. by rewrite drop_0, firstn_all. Qed.

Lemma Kind_Valid_length k : Kind_Valid k = true → (length (bytes_of k) <= 12)%nat.
Proof.
  unfold Kind_Valid, one_of. intros H%bool_decide_eq_true. apply elem_of_cons in H as [->|H]; [vm_compute; lia|].
  apply list_elem_of_singleton in H as ->. vm_compute. lia.
Qed.

#[local] Ltac sizes := unfold len in *; rewrite ?length_app, ?length_be_bytes; cbn [length app]; lia.
(** Drop the guards that the sizes decide. *)
#[local] Ltac pass := match goal with
  | |- context [(?x <? ?y)%nat] => rewrite (proj2 (Nat.ltb_ge x y)) by sizes
  | |- context [?x <? ?y] => rewrite (proj2 (Z.ltb_ge x y)) by sizes end.

(** What [Canonical] can write: the envelope of the current version, at a time int64 nanoseconds can hold. *)
Definition canonical_time (t : Time) : Prop := min_int64 <= t - unix_epoch <= max_int64.
Definition envelope (a : Artifact) : Prop := art_Version a = Version ∧ canonical_time (art_IssuedAt a).

Lemma wrap64_id x : min_int64 <= x <= max_int64 → wrap64 x = x.
Proof. unfold min_int64, max_int64, wrap64. intros H. rewrite Z.mod_small by lia. lia. Qed.
Lemma wrap64_mod x : wrap64 x mod 2 ^ 64 = x mod 2 ^ 64.
Proof. unfold wrap64. rewrite Zminus_mod_idemp_l. f_equal. lia. Qed.
Lemma wrap64_range x : min_int64 <= wrap64 x <= max_int64.
Proof. unfold wrap64, min_int64, max_int64. pose proof (Z.mod_pos_bound (x + 2 ^ 63) (2 ^ 64)). lia. Qed.
Lemma wrap64_cong x y : x mod 2 ^ 64 = y mod 2 ^ 64 → wrap64 x = wrap64 y.
Proof. intros H. unfold wrap64. by rewrite <-(Zplus_mod_idemp_l x), H, Zplus_mod_idemp_l. Qed.

Lemma time_round t : canonical_time t → time_of_nanos (wrap64 (be_value (be_bytes 8 (UnixNano t)))) = t.
Proof.
  intros Ht. rewrite be_value_bytes. change (8 * Z.of_nat 8) with 64.
  rewrite (wrap64_cong _ (UnixNano t)) by by rewrite Zmod_mod. unfold UnixNano, time_of_nanos.
  rewrite (wrap64_id (t - unix_epoch)) by exact Ht. rewrite wrap64_id by exact Ht. lia.
Qed.

Lemma Decode_Canonical a b : envelope a → Canonical a = Ok b → Decode b = Ok a.
Proof.
  intros [Hv Ht] H. unfold Canonical in H. destruct (Kind_Valid (art_Kind a)) eqn:Hk; [cbn [negb] in H|done].
  destruct (Z.ltb_spec maxPayload (len (art_Payload a))) as [|Hmax]; [done|].
  pose proof (Kind_Valid_length _ Hk) as Hkl. set (kind := bytes_of (art_Kind a)) in *.
  rewrite (proj2 (Z.ltb_ge _ _)) in H by sizes. apply (inj Ok) in H as <-. unfold Decode. unfold maxPayload in *.
  pass. rewrite Hv. change (nth 0 ([Version] ++ ?x) 0) with Version. change (negb (Version =? Version)) with false. cbv iota.
  rewrite !(bytes_at_skip _ _ [Version]) by (simpl; lia). change (1 - length [Version])%nat with 0%nat.
  rewrite (bytes_at_here _ 8) by sizes.
  rewrite !(bytes_at_skip _ _ (be_bytes 8 _)) by sizes. rewrite (bytes_at_here _ 2) by sizes.
  rewrite (read_length 2 kind) by (change (2 ^ (8 * Z.of_nat 2)) with 65536; sizes).
  pass. rewrite !(bytes_at_skip _ _ (be_bytes 2 _)) by sizes. rewrite (bytes_at_here _ (length kind)) by sizes.
  rewrite !(bytes_at_skip _ _ kind) by sizes. rewrite (bytes_at_here _ 4) by sizes.
  rewrite (be_value_bytes 4), Z.mod_small by (change (2 ^ (8 * Z.of_nat 4)) with (2 ^ 32); sizes).
  pass. rewrite (proj2 (Z.eqb_eq _ _)) by sizes. cbn [orb negb].
  rewrite (bytes_at_skip _ _ (be_bytes 4 _)) by sizes. rewrite bytes_at_all by sizes.
  unfold kind. rewrite string_of_bytes_of, Hk, time_round by done. cbn [negb]. rewrite <-Hv. by destruct a.
Qed.

Lemma bytes_at_end off n b : (off + n = length b)%nat → bytes_at off n b = drop off b.
Proof. intros H. unfold bytes_at. apply take_ge. rewrite length_drop. lia. Qed.
Lemma head_drop (b : list Z) : (0 < length b)%nat → [nth 0 b 0] ++ drop 1 b = b.
Proof. destruct b; [simpl; lia|done]. Qed.
Lemma nanos_back n : min_int64 <= n <= max_int64 → UnixNano (time_of_nanos n) = n.
Proof. intros H. unfold UnixNano, time_of_nanos. rewrite wrap64_id; lia. Qed.
Lemma of_length_at off n b : (off + n <= length b)%nat → len (bytes_at off n b) = Z.of_nat n.
Proof. intros H. unfold len. by rewrite length_bytes_at. Qed.

Lemma Decode_envelope b a : Decode b = Ok a → envelope a.
Proof.
  intros H. unfold Decode in H. destruct (_ <? _)%nat; [done|].
  destruct (Z.eqb_spec (nth 0 b 0) Version) as [Hv|]; [cbn [negb] in H|done]. do 3 (case_match; try done).
  apply (inj Ok) in H as <-. split; [done|]. unfold canonical_time, time_of_nanos. cbn [art_IssuedAt].
  replace (unix_epoch + _ - unix_epoch) with (wrap64 (be_value (bytes_at 1 8 b))) by lia. apply wrap64_range.
Qed.

Lemma Canonical_Decode b a : Forall is_byte b → Decode b = Ok a → Canonical a = Ok b ∧ envelope a.
Proof.
  intros Hb H. split; [|by eapply Decode_envelope]. unfold Decode in H.
  destruct (Nat.ltb_spec (length b) (1 + 8 + 2)) as [|Hlen]; [done|].
  destruct (Z.eqb_spec (nth 0 b 0) Version) as [Hv|]; [cbn [negb] in H|done].
  set (k := Z.to_nat (be_value (bytes_at 9 2 b))) in H.
  destruct (Nat.ltb_spec (length b) (11 + k + 4)) as [|Hk]; [done|].
  set (n := be_value (bytes_at (11 + k) 4 b)) in H.
  pose proof (be_value_slice_bound 4 (11 + k) b Hb Hk) as Bn. fold n in Bn.
  pose proof (be_value_slice_bound 2 9 b Hb ltac:(lia)) as Bk.
  destruct (Z.ltb_spec maxPayload n) as [|Hmax]; [done|].
  destruct (Z.eqb_spec (Z.of_nat (11 + k + 4) + n) (len b)) as [Hn|]; [cbn [orb negb] in H|done].
  destruct (Kind_Valid _) eqn:Hkind in H; [cbn [negb] in H|done]. apply (inj Ok) in H as <-.
  pose proof (bytes_at_bound 11 k b Hb) as Bkind.
  assert (11 + k + 4 + Z.to_nat n = length b)%nat as Hend by (unfold len in Hn; lia).
  unfold Canonical. cbn [art_Kind art_Payload art_Version art_IssuedAt]. rewrite Hkind. cbn [negb].
  rewrite bytes_of_string_of_bytes by done. rewrite !of_length_at by lia. rewrite Z2Nat.id by lia.
  rewrite (proj2 (Z.ltb_ge _ _)) by done. rewrite (proj2 (Z.ltb_ge _ _)) by (unfold k; change (8 * Z.of_nat 2) with 16 in Bk; lia).
  f_equal. rewrite nanos_back by apply wrap64_range.
  rewrite (be_bytes_congr 8 _ (be_value (bytes_at 1 8 b))) by apply wrap64_mod.
  unfold k at 1. rewrite Z2Nat.id by lia. unfold n at 1. rewrite !be_value_slice by (done || lia).
  rewrite (bytes_at_end (11 + k + 4)) by done.
  rewrite !bytes_at_split.
  apply head_drop. lia.
Qed.

#[export] Instance artifact_codec : Codec Artifact := {|
  encode := Canonical; decode := Decode; encodable := envelope;
  decode_encode := Decode_Canonical; encode_decode := Canonical_Decode |}.

(** ** The wire form *)
Definition wire (s : Signed) : Prop := envelope (sg_Artifact s).

Lemma Unmarshal_Marshal s b : wire s → Marshal s = Ok b → Unmarshal b = Ok s.
Proof.
  intros He H. unfold Marshal in H. destruct (Canonical (sg_Artifact s)) as [canon|] eqn:Hc; [|done].
  destruct ((_ <? _) || _) eqn:Hlen in H; [done|]. apply orb_false_iff in Hlen as [Hk%Z.ltb_ge Hg%Z.ltb_ge].
  apply (inj Ok) in H as <-. set (keyID := bytes_of (sg_KeyID s)) in *. set (sig := sg_Signature s) in *.
  assert (length wireMagic = 4%nat) as H4 by done. unfold Unmarshal.
  pass. rewrite (bytes_at_here 0 4) by done. rewrite bool_decide_eq_true_2 by done. cbn [orb negb].
  rewrite !(bytes_at_skip _ _ wireMagic) by lia. rewrite (bytes_at_here _ 2) by (rewrite ?H4; sizes).
  rewrite (read_length 2 keyID) by (change (2 ^ (8 * Z.of_nat 2)) with 65536; lia).
  pass. rewrite !(bytes_at_skip _ _ (be_bytes 2 _)) by (rewrite ?H4; sizes).
  rewrite (bytes_at_here _ (length keyID)) by (rewrite ?H4; sizes).
  rewrite !(bytes_at_skip _ _ keyID) by (rewrite ?H4; sizes). rewrite (bytes_at_here _ 2) by (rewrite ?H4; sizes).
  rewrite (read_length 2 sig) by (change (2 ^ (8 * Z.of_nat 2)) with 65536; lia). pass.
  rewrite !(bytes_at_skip _ _ (be_bytes 2 _)) by (rewrite ?H4; sizes). rewrite (bytes_at_here _ (length sig)) by (rewrite ?H4; sizes).
  replace (drop _ _) with canon by (rewrite !app_assoc, drop_app_length'; [done|rewrite ?H4; sizes]).
  rewrite (Decode_Canonical _ _ He Hc). unfold keyID. rewrite string_of_bytes_of. by destruct s.
Qed.

Lemma Marshal_Unmarshal b s : Forall is_byte b → Unmarshal b = Ok s → Marshal s = Ok b ∧ wire s.
Proof.
  intros Hb H. unfold Unmarshal in H. destruct ((_ <? _)%nat || _) eqn:Hg in H; [done|].
  apply orb_false_iff in Hg as [Hlen%Nat.ltb_ge Hm%negb_false_iff%bool_decide_eq_true].
  set (k := Z.to_nat (be_value (bytes_at 4 2 b))) in H.
  destruct (Nat.ltb_spec (length b) (6 + k + 2)) as [|Hk]; [done|].
  set (n := Z.to_nat (be_value (bytes_at (6 + k) 2 b))) in H.
  destruct (Nat.ltb_spec (length b) (6 + k + 2 + n)) as [|Hn]; [done|].
  destruct (Decode _) as [a|] eqn:Hd; [|done]. apply (inj Ok) in H as <-.
  pose proof (be_value_slice_bound 2 4 b Hb ltac:(lia)) as Bk.
  pose proof (be_value_slice_bound 2 (6 + k) b Hb ltac:(lia)) as Bn.
  apply Canonical_Decode in Hd as [Hc He]; [|by apply Forall_drop].
  split; [|done]. unfold Marshal. cbn [sg_Artifact sg_KeyID sg_Signature]. rewrite Hc.
  pose proof (bytes_at_bound 6 k b Hb) as Bkey. rewrite bytes_of_string_of_bytes by done.
  rewrite !of_length_at by lia. change (8 * Z.of_nat 2) with 16 in *. unfold k at 1, n at 1.
  rewrite !Z2Nat.id by lia. rewrite !(proj2 (Z.ltb_ge _ _)) by lia. cbn [orb].
  f_equal. rewrite <-Hm. unfold k at 1, n at 1. rewrite !Z2Nat.id by lia. rewrite !be_value_slice by (done || lia).
  rewrite !bytes_at_split. apply drop_0.
Qed.

Lemma Unmarshal_envelope b s : Unmarshal b = Ok s → envelope (sg_Artifact s).
Proof.
  intros H. unfold Unmarshal in H. do 3 (case_match; try done). destruct (Decode _) as [a|] eqn:Hd; [|done].
  apply (inj Ok) in H as <-. by eapply Decode_envelope.
Qed.

#[export] Instance signed_codec : Codec Signed := {|
  encode := Marshal; decode := Unmarshal; encodable := wire;
  decode_encode := Unmarshal_Marshal; encode_decode := Marshal_Unmarshal |}.

(** What any codec gives: one text per value and one value per text. *)
Lemma encode_inj `{Codec A} a1 a2 b : encodable a1 → encodable a2 → encode a1 = Ok b → encode a2 = Ok b → a1 = a2.
Proof. intros H1 H2 E1%decode_encode E2%decode_encode; [|done..]. congruence. Qed.
Lemma decode_inj `{Codec A} b1 b2 a : Forall is_byte b1 → Forall is_byte b2 → decode b1 = Ok a → decode b2 = Ok a → b1 = b2.
Proof. intros H1 H2 [E1 _]%encode_decode [E2 _]%encode_decode; [|done..]. congruence. Qed.
