(* ===== verification/DeliveryPointer.v ===== *)
(** * Delivery: keys, sealing and the directory pointer

    services/delivery/internal/sign (the Ed25519 signer and the rotating keyring), seal (the AES-GCM sealer)
    and pointer (a directory is encoded, sealed, wrapped in an artifact, signed and marshalled). The
    cryptography is the standard library's: an [Ed25519] and an AES-GCM [AEAD] per key; the JSON codec of a
    directory is a parameter. *)
From S2P Require Import Prelude GoBytes GoText GoCodec Contracts DeliveryWire.

(** ** sign/ed25519.go *)
Record edSigner := { es_keyID : string; es_priv : list Z }.
(** The keyring of a verifier *)
Definition keyring : Type := gmap string (list Z).

Section sign.
Context (ed : Ed25519).
Definition NewSigner (keyID : string) (priv : list Z) : result edSigner :=
  if bool_decide (keyID = "") then Err (Errorf "sign: keyID required")
  else if negb (length priv =? 64)%nat then Err (Errorf "sign: private key must be 64 bytes")
  else Ok {| es_keyID := keyID; es_priv := priv |}.
Definition SignerFromSeed (keyID : string) (seed : list Z) : result edSigner :=
  if negb (length seed =? 32)%nat then Err (Errorf "sign: seed must be 32 bytes")
  else NewSigner keyID (ed_NewKeyFromSeed ed seed).
Definition PublicKey (s : edSigner) : list Z := ed_Public ed (es_priv s).
Definition as_Signer (s : edSigner) : Signer := {| sn_KeyID := es_keyID s; sn_Sign := ed_Sign ed (es_priv s) |}.
Definition keyring_Add (keyID : string) (pub : list Z) (v : keyring) : result keyring :=
  if bool_decide (keyID = "") then Err (Errorf "sign: keyID required")
  else if negb (length pub =? 32)%nat then Err (Errorf "sign: public key must be 32 bytes")
  else Ok (<[keyID := pub]> v).
Definition Verify (v : keyring) : Verifier := λ keyID msg sig,
  match v !! keyID with None => false | Some pub => ed_Verify ed pub msg sig end.
End sign.
Definition decode_key (b64 : string) : result (list Z) :=
  match base64_decode b64 with
  | None => Err (Errorf "bad base64")
  | Some k => if negb (length k =? 32)%nat then Err (Errorf "must decode to 32 bytes") else Ok k
  end.
Definition DecodeSeed (b64 : string) : result (list Z) := decode_key b64.
Definition DecodePublicKey (b64 : string) : result (list Z) := decode_key b64.

(** ** seal/seal.go *)
Definition KeySize : nat := 32.
Definition NewSealer (new_gcm : list Z → AEAD) (key : list Z) : result AEAD :=
  if negb (length key =? KeySize)%nat then Err (Errorf "seal: key must be 32 bytes") else Ok (new_gcm key).
Definition DecodeKey (b64 : string) : result (list Z) := decode_key b64.
Definition ErrCiphertextTooShort : error := Sentinel "seal: ciphertext shorter than nonce".
Definition seal_Open (s : AEAD) (blob : list Z) : result (list Z) :=
  let ns := NonceSize s in
  if (length blob <? ns)%nat then Err ErrCiphertextTooShort
  else match aead_Open s (take ns blob) (drop ns blob) [] with
       | None => Err (Errorf "seal: open")
       | Some pt => Ok pt
       end.

(** ** pointer/pointer.go *)
Record EntryPoint := { ep_NodeID : string; ep_Region : string; ep_Transports : list TransportType; ep_SubscriptionBase : string }.
Record Mirror := { mi_Kind : string; mi_Endpoint : string; mi_Priority : Z }.
Record Directory := {
  dir_Revision : Z; dir_IssuedAt : Time; dir_EntryPoints : list EntryPoint; dir_Mirrors : list Mirror;
  dir_BotHandles : list string }.

Section pointer.
Context {E : Type}.
(** The random source, and the JSON codec of a directory *)
Context (rand_Read : nat → M E (list Z)).
Context (dir_encode : Directory → result (list Z)) (dir_decode : list Z → option Directory).

Definition seal_Seal (s : AEAD) (plaintext : list Z) : M E (list Z) :=
  nonce ←! wrapping "seal: nonce" (rand_Read (NonceSize s)) ;
  mret (nonce ++ aead_Seal s nonce plaintext []).

(** A call that only computes *)
Definition pure {A} (r : result A) : M E A := λ e, (r, e).
Definition Pack (d : Directory) (s : AEAD) (signer : Signer) : M E (list Z) :=
  plain ←! pure (dir_encode d) ;
  sealed ←! seal_Seal s plain ;
  signed ←! pure (Sign (NewArtifact KindDirectory (dir_IssuedAt d) sealed) signer) ;
  pure (Marshal signed).
Definition decodeDirectory (b : list Z) : result Directory :=
  match dir_decode b with None => Err (Errorf "pointer: decode directory") | Some d => Ok d end.
Definition Unpack (wire : list Z) (v : Verifier) (s : AEAD) : result Directory :=
  match DeliveryWire.Open wire v with
  | Err e => Err e
  | Ok art =>
      if negb (bool_decide (art_Kind art = KindDirectory)) then Err (Errorf "pointer: expected directory artifact")
      else match seal_Open s (art_Payload art) with
           | Err e => Err e
           | Ok plain => decodeDirectory plain
           end
  end.
End pointer.

(** ** What a verified blob is *)
(** What was opened is an envelope whose canonical bytes verify; a blob of bytes is its only marshalling. *)
Lemma Open_sound b v a : DeliveryWire.Open b v = Ok a → envelope a ∧ ∃ keyID sig msg,
  Canonical a = Ok msg ∧ v keyID msg sig = true ∧
  (Forall is_byte b → Marshal {| sg_Artifact := a; sg_KeyID := keyID; sg_Signature := sig |} = Ok b).
Proof.
  intros H. unfold DeliveryWire.Open in H. destruct (Unmarshal b) as [s|] eqn:Hs; [|done].
  destruct (Canonical _) as [msg|] eqn:Hc; [|done]. destruct (v _ _ _) eqn:Hv; [|done]. injection H as <-.
  split; [by eapply Unmarshal_envelope|]. exists (sg_KeyID s), (sg_Signature s), msg. split_and!; [done..|].
  intros Hb. apply Marshal_Unmarshal in Hs as [Hm _]; [|done]. by destruct s.
Qed.

Lemma Open_Marshal a keyID sig v b msg : envelope a → Canonical a = Ok msg → v keyID msg sig = true →
  Marshal {| sg_Artifact := a; sg_KeyID := keyID; sg_Signature := sig |} = Ok b → DeliveryWire.Open b v = Ok a.
Proof.
  intros He Hc Hv Hm. unfold DeliveryWire.Open. rewrite (Unmarshal_Marshal _ _) with (2 := Hm) by exact He. cbn [sg_Artifact sg_KeyID sg_Signature].
  by rewrite Hc, Hv.
Qed.

(** Unforgeability, in the ideal form: only messages of the published artifacts verify. *)
Definition unforgeable (v : Verifier) (published : list Artifact) : Prop := ∀ keyID msg sig, v keyID msg sig = true →
  ∃ a, a ∈ published ∧ envelope a ∧ Canonical a = Ok msg.

Lemma Open_published b v a published : unforgeable v published → DeliveryWire.Open b v = Ok a → a ∈ published.
Proof.
  intros Hu (He & keyID & sig & msg & Hc & Hv & _)%Open_sound.
  destruct (Hu _ _ _ Hv) as (a' & Ha & He' & Hc'). by rewrite (encode_inj a a' msg).
Qed.

(** ** Publishing and reading a directory *)
Section directory.
Context {E : Type} (rand_Read : nat → M E (list Z)).
Context (dir_encode : Directory → result (list Z)) (dir_decode : list Z → option Directory).
Context (ed : Ed25519) (Hed : ed_correct ed) (s : AEAD) (Hs : aead_correct s).
(** The random source delivers what was asked for. *)
Hypothesis rand_ok : ∀ n e, ∃ b e', rand_Read n e = (Ok b, e') ∧ length b = n.

Definition sealed_size (nonce plain : list Z) : Z := len (nonce ++ aead_Seal s nonce plain []).
(** The directory is in JSON's range: it is read back from its encoding. *)
Definition in_json (d : Directory) (plain : list Z) : Prop :=
  dir_encode d = Ok plain ∧ dir_decode plain = Some d.
(** The sealed directory fits an artifact, whatever nonce is drawn. *)
Definition fits (plain : list Z) : Prop := ∀ nonce, length nonce = NonceSize s → sealed_size nonce plain <= maxPayload.

Lemma seal_round nonce plain : length nonce = NonceSize s → seal_Open s (nonce ++ aead_Seal s nonce plain []) = Ok plain.
Proof.
  intros Hn. unfold seal_Open. rewrite (proj2 (Nat.ltb_ge _ _)) by (rewrite length_app; lia).
  by rewrite <-Hn, take_app_length, drop_app_length, Hs.
Qed.

Lemma Canonical_ok kind t payload : Kind_Valid kind = true → len payload <= maxPayload →
  ∃ msg, Canonical (NewArtifact kind t payload) = Ok msg.
Proof.
  intros Hk Hp. pose proof (Kind_Valid_length kind Hk). unfold Canonical, NewArtifact. cbn [art_Kind art_Payload].
  rewrite Hk, !(proj2 (Z.ltb_ge _ _)) by (unfold len in *; lia). by eexists.
Qed.

(** A published directory arrives. Whatever the random source draws, [Pack] produces a blob, and every
    client that trusts the signing key, among any other keys, and holds the sealing key recovers exactly
    the directory from it. *)
Theorem Unpack_Pack d plain signer ring e :
  in_json d plain → fits plain → canonical_time (dir_IssuedAt d) → length (es_priv signer) = 64%nat →
  len (bytes_of (es_keyID signer)) < 2 ^ 16 → ring !! es_keyID signer = Some (PublicKey ed signer) →
  ∃ wire e', Pack rand_Read dir_encode d s (as_Signer ed signer) e = (Ok wire, e') ∧
    Unpack dir_decode wire (Verify ed ring) s = Ok d.
Proof.
  intros [Henc Hdec] Hfits Ht Hpriv Hid Hring.
  destruct (rand_ok (NonceSize s) e) as (nonce & e' & Hr & Hn).
  set (payload := nonce ++ aead_Seal s nonce plain []).
  destruct (Canonical_ok KindDirectory (dir_IssuedAt d) payload eq_refl (Hfits nonce Hn)) as [msg Hc].
  set (sig := ed_Sign ed (es_priv signer) msg).
  set (sg := {| sg_Artifact := NewArtifact KindDirectory (dir_IssuedAt d) payload; sg_KeyID := es_keyID signer; sg_Signature := sig |}).
  assert (∃ wire, Marshal sg = Ok wire) as [wire Hm].
  { unfold Marshal, sg. cbn [sg_Artifact sg_KeyID sg_Signature]. rewrite Hc.
    unfold len at 2, sig. rewrite (ed_signature_size ed Hed), !(proj2 (Z.ltb_ge _ _)) by lia. by eexists. }
  exists wire, e'. split.
  { unfold Pack, pure, seal_Seal, wrapping, Sign. unfold mbind, M_bind. rewrite Henc, Hr.
    cbn [mret M_ret]. fold payload. rewrite Hc. cbn [as_Signer sn_KeyID sn_Sign]. fold sig sg. by rewrite Hm. }
  unfold Unpack. rewrite (Open_Marshal _ _ _ (Verify ed ring) wire msg) with (4 := Hm); [|done..|].
  - cbn [art_Kind NewArtifact art_Payload]. rewrite bool_decide_eq_true_2 by done. cbn [negb]. unfold payload.
    rewrite seal_round by done. unfold decodeDirectory. by rewrite Hdec.
  - unfold Verify. rewrite Hring. by apply (ed_verifies ed Hed).
Qed.
End directory.

(** ** A concrete run: a keyed hash as signature scheme, a sealer that adds no secrecy, a one-field codec *)
Definition demo_mac (pub msg : list Z) : list Z := let h := Sha256.Sum256 (pub ++ msg) in h ++ h.
Definition demo_ed : Ed25519 := {|
  ed_NewKeyFromSeed := λ seed, seed ++ seed; ed_Public := take 32;
  ed_Sign := λ priv msg, demo_mac (take 32 priv) msg;
  ed_Verify := λ pub msg sig, bool_decide (sig = demo_mac pub msg) |}.
Definition demo_aead : AEAD := {| NonceSize := 12; aead_Seal := λ _ plain _, plain; aead_Open := λ _ c _, Some c |}.

Lemma demo_ed_correct : ed_correct demo_ed.
Proof.
  split; simpl.
  - intros seed H. rewrite length_app. lia.
  - intros priv H. rewrite length_take. lia.
  - intros priv msg. unfold demo_mac. by rewrite length_app, length_Sum256.
  - intros priv msg _. by apply bool_decide_eq_true_2.
Qed.
Lemma demo_aead_correct : aead_correct demo_aead.
Proof. by split. Qed.

Definition demo_rand (n : nat) : M unit (list Z) := λ e, (Ok (replicate n 7), e).
Lemma demo_rand_ok : ∀ n e, ∃ b e', demo_rand n e = (Ok b, e') ∧ length b = n.
Proof. intros n e. do 2 eexists. split; [reflexivity|apply length_replicate]. Qed.
Definition demo_directory (revision : Z) : Directory := {|
  dir_Revision := revision; dir_IssuedAt := unix_epoch + 1700000000 * Second;
  dir_EntryPoints := [{| ep_NodeID := "entry-1"; ep_Region := "DE"; ep_Transports := [TransportVlessReality]; ep_SubscriptionBase := "https://sub.example" |}];
  dir_Mirrors := []; dir_BotHandles := ["@casper"] |}.
Definition demo_encode (d : Directory) : result (list Z) := Ok (be_bytes 8 (dir_Revision d)).
Definition demo_decode (b : list Z) : option Directory := Some (demo_directory (be_value b)).
Definition demo_signer : edSigner := {| es_keyID := "k2"; es_priv := replicate 64 5 |}.
Definition demo_ring : keyring := {["k1" := replicate 32 9; "k2" := replicate 32 5]}.

Lemma Unpack_Pack_witness : ∃ wire e',
  Pack demo_rand demo_encode (demo_directory 3) demo_aead (as_Signer demo_ed demo_signer) tt = (Ok wire, e') ∧
  Unpack demo_decode wire (Verify demo_ed demo_ring) demo_aead = Ok (demo_directory 3).
Proof.
  apply (Unpack_Pack demo_rand demo_encode demo_decode demo_ed demo_ed_correct demo_aead demo_aead_correct
           demo_rand_ok (demo_directory 3) (be_bytes 8 3) demo_signer demo_ring tt).
  - by split.
  - intros nonce Hn. unfold sealed_size, len. simpl. rewrite length_app, Hn. vm_compute. discriminate.
  - vm_compute. split; discriminate.
  - reflexivity.
  - vm_compute. reflexivity.
  - reflexivity.
Defined.

(** A blob with one bit flipped is refused. *)
Example tampered_blob_refused :
  match (Pack demo_rand demo_encode (demo_directory 3) demo_aead (as_Signer demo_ed demo_signer) tt).1 with
  | Ok wire => Unpack demo_decode (alter (λ b, Z.lxor b 1) (length wire - 1)%nat wire) (Verify demo_ed demo_ring) demo_aead
               = Err (wrap_err "artifact: open" ErrBadSignature)
  | Err _ => False
  end.
Proof. vm_compute. reflexivity. Qed.
