(* ===== verification/DeliveryCarriers.v ===== *)
(** * Delivery: how a blob rides a medium

    services/delivery/internal/channel/dns/encode.go (base32 in TXT strings and labels), channel/steg/steg.go
    (the cover document of an analytics batch), channel/gitraw/channel.go (base64 files). The JSON codec of a
    cover document is a parameter; random bytes come from a source that may fail. *)
From S2P Require Import Prelude GoBytes GoText GoCodec.

(** [for len(s) > max { out = append(out, s[:max]); s = s[max:] }; append(out, s)] *)
Fixpoint chunked (fuel max : nat) (l : list Z) : list (list Z) :=
  match fuel with
  | O => [l]
  | S f => if (max <? length l)%nat then take max l :: chunked f max (drop max l) else [l]
  end.

Lemma concat_chunked max fuel : ∀ l, concat (chunked fuel max l) = l.
Proof.
  induction fuel as [|f IH]; intros l; simpl; [apply app_nil_r|].
  case_match; simpl; [by rewrite IH, take_drop|apply app_nil_r].
Qed.
(** Enough fuel: a step for every byte. *)
Lemma chunked_bound max fuel : (0 < max)%nat → ∀ l, (length l <= fuel)%nat →
  Forall (λ c, (length c <= max)%nat) (chunked fuel max l).
Proof.
  intros Hm. induction fuel as [|f IH]; intros l Hl; simpl.
  - constructor; [lia|done].
  - destruct (Nat.ltb_spec max (length l)); constructor; [rewrite length_take; lia| |done|done].
    apply IH. rewrite length_drop. lia.
Qed.

(** ** dns/encode.go *)
Definition txtStringMax : nat := 255.
Definition labelMax : nat := 63.
Definition dns_encode (blob : list Z) : list Z := bytes_of (ToLower (base32_encode blob)).
Definition EncodeTXT (blob : list Z) : list string :=
  let s := dns_encode blob in string_of_bytes <$> chunked (length s) txtStringMax s.
Definition DecodeTXT (strs : list string) : result (list Z) :=
  let joined := ToUpper (join "" strs) in
  if bool_decide (joined = "") then Err (Errorf "dns: empty TXT record")
  else match base32_decode joined with
       | None => Err (Errorf "dns: bad base32 TXT payload")
       | Some b => Ok b
       end.

(** [strings.Trim(s, ".")] *)
Fixpoint trim_dots (l : list Z) : list Z :=
  match l with b :: l' => if b =? 46 then trim_dots l' else l | [] => [] end.
Definition Trim_dots (s : string) : string := string_of_bytes (reverse (trim_dots (reverse (trim_dots (bytes_of s))))).
Definition QName (zone key : string) : result string :=
  if bool_decide (zone = "") then Err (Errorf "dns: zone required")
  else
    let zone := Trim_dots zone in
    if bool_decide (zone = "") then Err (Errorf "dns: zone required")
    else
      let enc := dns_encode (bytes_of key) in
      let labels := string_of_bytes <$> chunked (length enc) labelMax enc in
      Ok (join "." labels +:+ "." +:+ zone).

(** ** gitraw: the path of a key and the wrapping of a blob *)
Definition gitraw_path (key : string) : string := base64 true (bytes_of key) +:+ ".json".
Definition gitraw_wrap (blob : list Z) : list Z := bytes_of (base64 false blob).
Definition gitraw_unwrap (enc : list Z) : option (list Z) := base64_decode (string_of_bytes enc).

(** ** steg/steg.go *)
Definition chunkBytes : nat := 16.
Definition lenHeader : nat := 4.
Record coverTemplate := { tm_Schema : string; tm_Library : string; tm_Version : string }.
Definition coverTemplates : list coverTemplate := [
  {| tm_Schema := "cdp.event.v1"; tm_Library := "analytics.js"; tm_Version := "4.1.0" |};
  {| tm_Schema := "cdp.event.v1"; tm_Library := "analytics.js"; tm_Version := "5.2.0" |};
  {| tm_Schema := "track.batch.v2"; tm_Library := "rudder-analytics.js"; tm_Version := "3.0.1" |};
  {| tm_Schema := "events.v1"; tm_Library := "@segment/analytics-next"; tm_Version := "1.70.0" |};
  {| tm_Schema := "collect.v1"; tm_Library := "analytics-node"; tm_Version := "6.2.0" |}].
Definition eventNames : list string :=
  ["page_view"; "screen"; "identify"; "click"; "scroll"; "heartbeat"; "form_submit"; "add_to_cart"].
Record coverEvent := { ce_Type : string; ce_Event : string; ce_MessageID : string }.
Record cover := { cv_Schema : string; cv_AnonymousID : string; cv_Library : string; cv_Version : string; cv_Batch : list coverEvent }.

Definition slice_of {A} (i j : nat) (l : list A) : list A := take (j - i) (drop i l).
(** Five groups of the hex digits, 8-4-4-4-12 *)
Definition uuidForm (b : list Z) : string :=
  let h := bytes_of (hex_encode b) in
  string_of_bytes (slice_of 0 8 h ++ [45] ++ slice_of 8 12 h ++ [45] ++ slice_of 12 16 h ++ [45] ++ slice_of 16 20 h
                   ++ [45] ++ slice_of 20 32 h).
Definition bytesFromUUIDForm (s : string) : result (list Z) :=
  match hex_decode (string_of_bytes (filter (λ c, c ≠ 45) (bytes_of s))) with
  | None => Err (Errorf "encoding/hex")
  | Some b => if negb (length b =? chunkBytes)%nat then Err (Errorf "steg: carrier id length") else Ok b
  end.

Section steg.
Context {E : Type} (rand_Read : nat → M E (list Z)).
Context (cover_marshal : cover → result (list Z)) (cover_unmarshal : list Z → option cover).

Definition randIndex (n : nat) : M E nat :=
  b ←! wrapping "steg: rand index" (rand_Read 2) ; mret (Z.to_nat (be_value b) mod n)%nat.
Definition randomTemplate : M E coverTemplate :=
  i ←! randIndex (length coverTemplates) ; mret (nth i coverTemplates {| tm_Schema := ""; tm_Library := ""; tm_Version := "" |}).
Definition randomEventName : M E string := i ←! randIndex (length eventNames) ; mret (nth i eventNames "").

Fixpoint sixteens (fuel : nat) (l : list Z) : list (list Z) :=
  match fuel, l with
  | O, _ | _, [] => []
  | S f, _ => take chunkBytes l :: sixteens f (drop chunkBytes l)
  end.
Fixpoint cover_batch (chunks : list (list Z)) : M E (list coverEvent) :=
  match chunks with
  | [] => mret []
  | c :: chunks' =>
      ev ←! randomEventName ;
      rest ←! cover_batch chunks' ;
      mret ({| ce_Type := "track"; ce_Event := ev; ce_MessageID := uuidForm c |} :: rest)
  end.
Definition Embed (blob : list Z) (anonID : string) : M E (list Z) :=
  let framed := be_bytes lenHeader (Z.of_nat (length blob)) ++ blob in
  let pad := ((chunkBytes - length framed mod chunkBytes) mod chunkBytes)%nat in
  tail ←! (if (0 <? pad)%nat then wrapping "steg: pad" (rand_Read pad) else mret []) ;
  let framed := framed ++ tail in
  batch ←! cover_batch (sixteens (length framed) framed) ;
  tmpl ←! randomTemplate ;
  λ e, (cover_marshal {| cv_Schema := tm_Schema tmpl; cv_AnonymousID := anonID; cv_Library := tm_Library tmpl;
                         cv_Version := tm_Version tmpl; cv_Batch := batch |}, e).

Fixpoint uncover (batch : list coverEvent) : result (list Z) :=
  match batch with
  | [] => Ok []
  | ev :: batch' =>
      match bytesFromUUIDForm (ce_MessageID ev) with
      | Err e => Err (wrap_err "steg: bad covert payload" e)
      | Ok b => match uncover batch' with Err e => Err e | Ok rest => Ok (b ++ rest) end
      end
  end.
Definition Extract (coverJSON : list Z) : result (list Z) :=
  match cover_unmarshal coverJSON with
  | None => Err (Errorf "steg: not a cover document")
  | Some c =>
      if Nat.eqb (length (cv_Batch c)) 0 then Err (Errorf "steg: cover carries no batch events")
      else match uncover (cv_Batch c) with
      | Err e => Err e
      | Ok framed =>
          if (length framed <? lenHeader)%nat then Err (Errorf "steg: covert frame too short")
          else
            let n := Z.to_nat (be_value (take lenHeader framed)) in
            if (length framed - lenHeader <? n)%nat then Err (Errorf "steg: covert length exceeds frame")
            else Ok (bytes_at lenHeader n framed)
      end
  end.
End steg.

(** ** DNS: a blob and a key come back *)
Lemma dns_encode_digits blob : Forall is_byte blob → dns_encode blob = base32_lower <$> base32_digits blob.
Proof.
  intros H. unfold dns_encode, base32_encode. pose proof (base32_digits_bound blob H).
  by rewrite ToLower_base32, bytes_of_string_of_bytes by by try apply base32_lower_bytes.
Qed.
Lemma dns_encode_bytes blob : Forall is_byte blob → Forall is_byte (dns_encode blob).
Proof. intros H. rewrite dns_encode_digits by done. by apply base32_lower_bytes, base32_digits_bound. Qed.
Lemma dns_encode_nil blob : dns_encode blob = [] → Forall is_byte blob → blob = [].
Proof.
  intros Hd Hb. rewrite dns_encode_digits in Hd by done. apply fmap_nil_inv in Hd.
  by rewrite <-(base32_undigits_digits blob Hb), Hd.
Qed.

Lemma bytes_of_join_nil strs : bytes_of (join "" strs) = concat (bytes_of <$> strs).
Proof.
  induction strs as [|s strs IH]; [done|]. cbn [join fmap list_fmap concat]. destruct strs; [by rewrite app_nil_r|].
  by rewrite !bytes_of_app, IH.
Qed.
Lemma bytes_of_strings ls : Forall (Forall is_byte) ls → bytes_of <$> (string_of_bytes <$> ls) = ls.
Proof. induction 1 as [|l ls Hl _ IH]; [done|]. cbn. by rewrite bytes_of_string_of_bytes, IH. Qed.
Lemma chunked_bytes fuel max l : Forall is_byte l → Forall (Forall is_byte) (chunked fuel max l).
Proof. intros H. rewrite <-(concat_chunked max fuel l) in H. by rewrite Forall_concat in H. Qed.

Lemma join_chunks fuel max l : Forall is_byte l → join "" (string_of_bytes <$> chunked fuel max l) = string_of_bytes l.
Proof.
  intros H. apply bytes_of_inj. rewrite bytes_of_join_nil, bytes_of_strings by by apply chunked_bytes.
  by rewrite concat_chunked, bytes_of_string_of_bytes.
Qed.

(** A blob survives DNS. Whatever its bytes, its TXT record consists of strings of at most 255 bytes, and
    joining and decoding them gives the blob back; only the empty blob is refused. *)
Lemma TXT_round_trip blob : Forall is_byte blob →
  Forall (λ s, (String.length s <= 255)%nat) (EncodeTXT blob) ∧
  DecodeTXT (EncodeTXT blob) = (if bool_decide (blob = []) then Err (Errorf "dns: empty TXT record") else Ok blob).
Proof.
  intros Hb. pose proof (dns_encode_bytes blob Hb) as He. unfold EncodeTXT, txtStringMax. split.
  - apply Forall_fmap, Forall_forall. intros c Hc. simpl.
    pose proof (chunked_bytes (length (dns_encode blob)) 255 _ He) as Hcb. rewrite Forall_forall in Hcb.
    pose proof (chunked_bound 255 (length (dns_encode blob)) ltac:(lia) _ (le_n _)) as Hlen. rewrite Forall_forall in Hlen.
    rewrite <-length_bytes_of, bytes_of_string_of_bytes by by apply Hcb. by apply Hlen.
  - unfold DecodeTXT. rewrite join_chunks by done. rewrite dns_encode_digits by done.
    pose proof (base32_digits_bound blob Hb) as Hd. rewrite ToUpper_base32 by done.
    fold (base32_encode blob). rewrite base32_decode_encode by done.
    destruct (bool_decide_reflect (base32_encode blob = "")) as [E|E]; [rewrite bool_decide_eq_true_2; [done|]|rewrite bool_decide_eq_false_2; [done|]].
    + apply (f_equal base32_decode) in E. rewrite base32_decode_encode in E by done. by injection E.
    + by intros ->.
Qed.

Lemma base32_lower_not ds c : Forall (λ d, 0 <= d < 32) ds → c < 50 → Forall (λ b, b ≠ c) (base32_lower <$> ds).
Proof. intros H Hc. apply Forall_fmap. eapply Forall_impl; [exact H|]. intros d Hd. simpl in *. unfold base32_lower. case_match; lia. Qed.
Lemma filter_all {A} (P : A → Prop) `{!∀ x, Decision (P x)} l : Forall P l → filter P l = l.
Proof. induction 1 as [|x l Hx _ IH]; [done|]. by rewrite filter_cons_True, IH. Qed.

Lemma undotted_join strs : filter (λ b, b ≠ 46) (bytes_of (join "." strs)) = filter (λ b, b ≠ 46) (concat (bytes_of <$> strs)).
Proof.
  induction strs as [|s strs IH]; [done|]. destruct strs as [|s' strs]; [by simpl; rewrite app_nil_r|].
  change (join "." (s :: s' :: strs)) with (s +:+ "." +:+ join "." (s' :: strs)).
  rewrite !bytes_of_app, !filter_app, IH. cbn [fmap list_fmap concat]. by rewrite !filter_app.
Qed.

(** The labels of a query name fit, and different keys have different names under one zone. *)
Lemma QName_injective zone k1 k2 q : QName zone k1 = Ok q → QName zone k2 = Ok q →
  k1 = k2 ∧ ∃ labels, q = join "." labels +:+ "." +:+ Trim_dots zone ∧ Forall (λ s, (String.length s <= 63)%nat) labels.
Proof.
  unfold QName. case_bool_decide; [done|]. case_bool_decide; [done|]. intros [= <-] [= E].
  pose proof (dns_encode_bytes _ (bytes_of_bound k1)) as B1. pose proof (dns_encode_bytes _ (bytes_of_bound k2)) as B2.
  set (d1 := dns_encode (bytes_of k1)) in *. set (d2 := dns_encode (bytes_of k2)) in *. split.
  - apply (f_equal bytes_of) in E. rewrite !bytes_of_app in E. apply app_inv_tail in E.
    apply (f_equal (filter (λ b, b ≠ 46))) in E. rewrite !undotted_join in E.
    rewrite !bytes_of_strings, !concat_chunked in E by by apply chunked_bytes.
    unfold d1, d2 in E. rewrite !dns_encode_digits in E by apply bytes_of_bound.
    rewrite !filter_all in E by (apply base32_lower_not; [apply base32_digits_bound, bytes_of_bound|lia]).
    rewrite <-!dns_encode_digits in E by apply bytes_of_bound.
    apply bytes_of_inj. apply (f_equal (λ d, to_upper d)) in E.
    rewrite !dns_encode_digits in E by apply bytes_of_bound.
    rewrite !to_upper_base32 in E by apply base32_digits_bound, bytes_of_bound.
    apply (f_equal string_of_bytes), (f_equal base32_decode) in E. fold (base32_encode (bytes_of k1)) (base32_encode (bytes_of k2)) in E.
    rewrite !base32_decode_encode in E by apply bytes_of_bound. by injection E.
  - eexists. split; [reflexivity|]. apply Forall_fmap, Forall_forall. intros c Hc. simpl.
    pose proof (chunked_bytes (length d1) 63 _ B1) as Hcb. rewrite Forall_forall in Hcb.
    pose proof (chunked_bound 63 (length d1) ltac:(lia) _ (le_n _)) as Hlen. rewrite Forall_forall in Hlen.
    rewrite <-length_bytes_of, bytes_of_string_of_bytes by by apply Hcb. by apply Hlen.
Qed.

(** ** Git files *)
Lemma gitraw_round blob : Forall is_byte blob → gitraw_unwrap (gitraw_wrap blob) = Some blob.
Proof. intros H. unfold gitraw_unwrap, gitraw_wrap. rewrite string_of_bytes_of. by apply base64_decode_encode. Qed.

(** ** Cover documents *)
Lemma hex_no_hyphen l : Forall is_byte l → Forall (λ c, c ≠ 45) (bytes_of (hex_encode l)).
Proof.
  assert (∀ n, 0 <= n < 16 → ord (hex_digit n) ≠ 45) as Hd.
  { intros n Hn. unfold hex_digit. rewrite ord_chr by (unfold is_byte; case_match; lia). case_match; lia. }
  induction 1 as [|b l Hb _ IH]; [constructor|]. cbn [hex_encode bytes_of]. unfold is_byte in Hb.
  constructor; [apply Hd; Z.div_mod_to_equations; lia|]. constructor; [apply Hd; Z.div_mod_to_equations; lia|done].
Qed.
Lemma length_hex l : length (bytes_of (hex_encode l)) = (2 * length l)%nat.
Proof. induction l as [|b l IH]; [done|]. cbn [hex_encode bytes_of length]. rewrite IH. lia. Qed.

Lemma slices_all (h : list Z) : length h = 32%nat →
  slice_of 0 8 h ++ slice_of 8 12 h ++ slice_of 12 16 h ++ slice_of 16 20 h ++ slice_of 20 32 h = h.
Proof. intros H. do 33 (destruct h as [|? h]; try done). Qed.

Lemma uuid_round b : Forall is_byte b → length b = 16%nat → bytesFromUUIDForm (uuidForm b) = Ok b.
Proof.
  intros Hb Hl. unfold bytesFromUUIDForm, uuidForm. set (h := bytes_of (hex_encode b)).
  assert (Forall is_byte h) as Hh by apply bytes_of_bound.
  assert (length h = 32%nat) as Hh32 by (unfold h; rewrite length_hex; lia).
  rewrite bytes_of_string_of_bytes.
  2:{ unfold slice_of. repeat (apply Forall_app; split); try (by apply Forall_take, Forall_drop); by repeat constructor. }
  rewrite !filter_app. change (filter (λ c, c ≠ 45) [45]) with (@nil Z). rewrite !app_nil_l, <-!filter_app, slices_all by done.
  rewrite filter_all by by apply hex_no_hyphen. unfold h. rewrite string_of_bytes_of, hex_decode_encode by done. by rewrite Hl.
Qed.

(** Printable ASCII, the strings of a cover document *)
Definition ascii_text (s : string) : Prop := Forall (λ b, 32 <= b < 127) (bytes_of s).
#[export] Instance ascii_text_dec s : Decision (ascii_text s).
Proof. unfold ascii_text. apply _. Defined.
Record ascii_cover (c : cover) : Prop := {
  ac_schema : ascii_text (cv_Schema c);
  ac_anon : ascii_text (cv_AnonymousID c);
  ac_library : ascii_text (cv_Library c);
  ac_version : ascii_text (cv_Version c);
  ac_batch : Forall (λ ev, ascii_text (ce_Type ev) ∧ ascii_text (ce_Event ev) ∧ ascii_text (ce_MessageID ev)) (cv_Batch c)
}.

Lemma hex_ascii l : Forall is_byte l → ascii_text (hex_encode l).
Proof.
  assert (∀ n, 0 <= n < 16 → 32 <= ord (hex_digit n) < 127) as Hd.
  { intros n Hn. unfold hex_digit. rewrite ord_chr by (unfold is_byte; case_match; lia). case_match; lia. }
  unfold ascii_text. induction 1 as [|b l Hb _ IH]; [constructor|]. cbn [hex_encode bytes_of]. unfold is_byte in Hb.
  constructor; [apply Hd; Z.div_mod_to_equations; lia|]. constructor; [apply Hd; Z.div_mod_to_equations; lia|done].
Qed.
Lemma uuid_ascii b : Forall is_byte b → ascii_text (uuidForm b).
Proof.
  intros Hb. unfold ascii_text, uuidForm. pose proof (hex_ascii b Hb) as H. unfold ascii_text in H.
  rewrite bytes_of_string_of_bytes.
  - unfold slice_of. repeat (apply Forall_app; split); try (by apply Forall_take, Forall_drop); repeat constructor; lia.
  - pose proof (bytes_of_bound (hex_encode b)). unfold slice_of.
    repeat (apply Forall_app; split); try (by apply Forall_take, Forall_drop); by repeat constructor.
Qed.

Lemma concat_sixteens fuel : ∀ l, (length l <= fuel)%nat → concat (sixteens fuel l) = l.
Proof.
  induction fuel as [|f IH]; intros [|b l] Hl; [done|simpl in Hl; lia|done|].
  change (sixteens (S f) (b :: l)) with (take 16 (b :: l) :: sixteens f (drop 16 (b :: l))). cbn [concat].
  rewrite IH; [apply take_drop|]. rewrite length_drop. simpl in *. lia.
Qed.
Lemma sixteens_full fuel : ∀ l, (length l mod 16 = 0)%nat → Forall (λ c, length c = 16%nat) (sixteens fuel l).
Proof.
  induction fuel as [|f IH]; intros [|b l] Hl; try by constructor.
  change (sixteens (S f) (b :: l)) with (take 16 (b :: l) :: sixteens f (drop 16 (b :: l))).
  set (k := b :: l) in *. assert (16 <= length k)%nat as Hk.
  { destruct (Nat.le_gt_cases 16 (length k)); [done|]. rewrite Nat.mod_small in Hl by done. by destruct l. }
  constructor; [rewrite length_take; lia|]. apply IH. rewrite length_drop.
  replace (length k) with (length k - 16 + 1 * 16)%nat in Hl by lia. by rewrite Nat.Div0.mod_add in Hl.
Qed.

(** A closed decidable fact *)
#[local] Ltac decidable := apply (bool_decide_unpack _); vm_compute; exact I.

Section embed.
Context {E : Type} (rand_Read : nat → M E (list Z)).
Context (cover_marshal : cover → result (list Z)) (cover_unmarshal : list Z → option cover).
Hypothesis rand_ok : ∀ n e, ∃ b e', rand_Read n e = (Ok b, e') ∧ length b = n ∧ Forall is_byte b.
(** An ASCII document comes back from its JSON. *)
Hypothesis cover_json : ∀ c, ascii_cover c → ∃ b, cover_marshal c = Ok b ∧ cover_unmarshal b = Some c.

Lemma randIndex_ok n e : (0 < n)%nat → ∃ i e', randIndex rand_Read n e = (Ok i, e') ∧ (i < n)%nat.
Proof.
  intros Hn. destruct (rand_ok 2 e) as (b & e' & Hr & _). exists (Z.to_nat (be_value b) mod n)%nat, e'.
  split; [|by apply Nat.mod_upper_bound; lia]. unfold randIndex, wrapping, mbind, M_bind. by rewrite Hr.
Qed.
Lemma nth_Forall {A} (P : A → Prop) l i d : Forall P l → (i < length l)%nat → P (nth i l d).
Proof. intros H Hi. rewrite List.Forall_nth in H. by apply H. Qed.

Lemma cover_batch_ok chunks : Forall (Forall is_byte) chunks → Forall (λ c, length c = 16%nat) chunks → ∀ e,
  ∃ batch e', cover_batch rand_Read chunks e = (Ok batch, e') ∧ uncover batch = Ok (concat chunks) ∧
    length batch = length chunks ∧
    Forall (λ ev, ascii_text (ce_Type ev) ∧ ascii_text (ce_Event ev) ∧ ascii_text (ce_MessageID ev)) batch.
Proof.
  induction chunks as [|c chunks IH]; intros Hb Hl e; [by exists [], e|].
  apply Forall_cons in Hb as [Hc Hb], Hl as [Hc16 Hl]. specialize (IH Hb Hl).
  destruct (randIndex_ok (length eventNames) e) as (i & e1 & Hi & Hlt); [simpl; lia|].
  destruct (IH e1) as (batch & e2 & Hbatch & Hun & Hlen & Hascii).
  exists ({| ce_Type := "track"; ce_Event := nth i eventNames ""; ce_MessageID := uuidForm c |} :: batch), e2.
  split_and!.
  - cbn [cover_batch]. unfold randomEventName, mbind, M_bind. rewrite Hi. cbn [mret M_ret].
    unfold mbind, M_bind in Hbatch. by rewrite Hbatch.
  - cbn [uncover ce_MessageID concat]. by rewrite uuid_round, Hun.
  - simpl. by rewrite Hlen.
  - constructor; [|done]. cbn [ce_Type ce_Event ce_MessageID]. split_and!; [decidable| |by apply uuid_ascii].
    apply (nth_Forall ascii_text); [decidable|done].
Qed.

Lemma padded_length n : ((n + (16 - n mod 16) mod 16) mod 16 = 0)%nat.
Proof.
  pose proof (Nat.mod_upper_bound n 16 ltac:(lia)). rewrite Nat.Div0.add_mod_idemp_r.
  rewrite (Nat.div_mod_eq n 16) at 1. replace (16 * (n / 16) + n mod 16 + (16 - n mod 16))%nat with ((n / 16 + 1) * 16)%nat by lia.
  apply Nat.Div0.mod_mul.
Qed.

(** The covert channel is transparent. Whatever the random source draws, a blob (below 4 GiB) embedded
    in a cover document under any printable marker is extracted again byte for byte. *)
Lemma Extract_Embed blob anonID e : Forall is_byte blob → Z.of_nat (length blob) < 2 ^ 32 → ascii_text anonID →
  ∃ doc e', Embed rand_Read cover_marshal blob anonID e = (Ok doc, e') ∧ Extract cover_unmarshal doc = Ok blob.
Proof.
  intros Hb Hlen Ha. set (head := be_bytes 4 (Z.of_nat (length blob)) ++ blob).
  set (pad := ((chunkBytes - length head mod chunkBytes) mod chunkBytes)%nat).
  assert (∃ tail e1, (if (0 <? pad)%nat then wrapping "steg: pad" (rand_Read pad) else mret []) e = (Ok tail, e1) ∧
            length tail = pad ∧ Forall is_byte tail) as (tail & e1 & Htail & Hpad & Htb).
  { destruct (Nat.ltb_spec 0 pad) as [Hp|Hp]; [|exists [], e; simpl; split_and!; [done|lia|done]].
    destruct (rand_ok pad e) as (b & e1 & Hr & ? & ?). exists b, e1. unfold wrapping. by rewrite Hr. }
  set (framed := head ++ tail).
  assert (Forall is_byte framed) as Hfb.
  { apply Forall_app; split; [|done]. apply Forall_app; split; [apply be_bytes_bound|done]. }
  assert (length framed mod 16 = 0)%nat as Hfull by (unfold framed; rewrite length_app, Hpad; apply padded_length).
  pose proof (concat_sixteens (length framed) framed (le_n _)) as Hcat.
  destruct (cover_batch_ok (sixteens (length framed) framed)) with (e := e1) as (batch & e2 & Hbatch & Hun & Hbl & Hasc).
  { by rewrite <-Forall_concat, Hcat. }
  { by apply sixteens_full. }
  destruct (randIndex_ok (length coverTemplates) e2) as (i & e3 & Hi & Hlt); [simpl; lia|].
  set (tm := nth i coverTemplates {| tm_Schema := ""; tm_Library := ""; tm_Version := "" |}).
  set (c := {| cv_Schema := tm_Schema tm; cv_AnonymousID := anonID; cv_Library := tm_Library tm; cv_Version := tm_Version tm; cv_Batch := batch |}).
  destruct (cover_json c) as (doc & Hdoc & Hback).
  { assert (ascii_text (tm_Schema tm) ∧ ascii_text (tm_Library tm) ∧ ascii_text (tm_Version tm)) as (? & ? & ?); [|by split].
    apply (nth_Forall (λ t, ascii_text (tm_Schema t) ∧ ascii_text (tm_Library t) ∧ ascii_text (tm_Version t))); [decidable|done]. }
  exists doc, e3. split.
  - unfold Embed, mbind, M_bind, lenHeader. fold head pad. rewrite Htail. fold framed. rewrite Hbatch.
    unfold randomTemplate, mbind, M_bind. rewrite Hi. cbn [mret M_ret]. fold tm c. by rewrite Hdoc.
  - unfold Extract. rewrite Hback. cbn [cv_Batch c]. rewrite Hun, Hcat.
    assert (4 + length blob <= length framed)%nat as Hfl.
    { unfold framed, head. rewrite !length_app, length_be_bytes. lia. }
    assert (length batch ≠ 0%nat) as Hne.
    { rewrite Hbl. intros Hz%length_zero_iff_nil. rewrite Hz in Hcat. rewrite <-Hcat in Hfl. simpl in Hfl. lia. }
    rewrite (proj2 (Nat.eqb_neq _ _)) by done. unfold lenHeader. rewrite (proj2 (Nat.ltb_ge _ _)) by lia.
    assert (take 4 framed = be_bytes 4 (Z.of_nat (length blob))) as ->.
    { unfold framed, head. rewrite <-app_assoc. by rewrite take_app_length'. }
    rewrite be_value_bytes, Z.mod_small, Nat2Z.id by (change (8 * Z.of_nat 4) with 32; lia).
    rewrite (proj2 (Nat.ltb_ge _ _)) by lia. f_equal. unfold framed, head.
    rewrite <-app_assoc. apply (bytes_at_app (be_bytes 4 _)).
Qed.
End embed.
