(* ===== verification/DeliveryChannels.v ===== *)
(** * Delivery: channels, registry, resolver and publisher

    services/delivery/internal/channel (registry.go, resolver.go), the channels over each medium (telegram,
    dns, gitraw, steg) and memkv. A channel is a record of the interface's methods over a state [E] that
    stands for everything outside the process: the media, their clocks and their faults. *)
From S2P Require Import Prelude GoBytes GoText GoCodec GoFloat Contracts DeliveryWire DeliveryCarriers.

Definition KindHTTPS : string := "https".
Definition KindDoH : string := "doh".
Definition KindDNSTXT : string := "dns_txt".
Definition KindTelegram : string := "telegram".
Definition KindGitHubRaw : string := "github_raw".
Definition KindSteg : string := "steg".
Definition ErrNotFound : error := Sentinel "channel: key not found".
Definition ErrUnavailable : error := Sentinel "channel: temporarily unavailable".
Definition ErrAllChannelsFailed : error := Sentinel "channel: all channels failed to deliver a verifiable artifact".

Section channel.
Context {E : Type}.

Record Channel := {
  ch_Kind : string;
  ch_Publish : string → list Z → M E unit;
  ch_Fetch : string → M E (list Z);
  ch_Healthy : E → bool * E }.

(** ** registry.go *)
Record entry := { en_ch : Channel; en_priority : Z }.
Definition Registry : Type := list entry.
Definition en_kind (e : entry) : string := ch_Kind (en_ch e).
Definition sortLocked (r : Registry) : Registry := slice_stable (λ x y, en_priority x <? en_priority y) r.
(** [for i := range entries { if kind matches { entries[i] = e; ...; return } }; append] *)
Fixpoint replace_entry (e : entry) (r : Registry) : option Registry :=
  match r with
  | [] => None
  | x :: r' => if bool_decide (en_kind x = en_kind e) then Some (e :: r') else cons x <$> replace_entry e r'
  end.
Definition Add (ch : Channel) (priority : Z) (r : Registry) : Registry :=
  let e := {| en_ch := ch; en_priority := priority |} in sortLocked (default (r ++ [e]) (replace_entry e r)).
Definition Remove (kind : string) (r : Registry) : Registry := filter (λ e, en_kind e ≠ kind) r.
Definition Ordered (r : Registry) : list Channel := en_ch <$> r.
Definition Get (kind : string) (r : Registry) : option Channel :=
  snd <$> list_find (λ c, ch_Kind c = kind) (Ordered r).
Definition Kinds (r : Registry) : list string := ch_Kind <$> Ordered r.
Fixpoint health_of (chans : list Channel) (e : E) : gmap string bool * E :=
  match chans with
  | [] => (∅, e)
  | c :: chans' =>
      let '(ok, e) := ch_Healthy c e in let '(m, e) := health_of chans' e in
      (match m !! ch_Kind c with Some _ => m | None => <[ch_Kind c := ok]> m end, e)
  end.
Definition Health (r : Registry) (e : E) : gmap string bool * E := health_of (Ordered r) e.

(** ** resolver.go *)
Definition futureSkew : Duration := 5 * Minute.
Record Resolver := { rs_v : Verifier; rs_maxAge : Duration }.
Record Result := { rr_Channel : string; rr_Artifact : Artifact }.
(** The clock, and [ctx.Err()] *)
Context (now : E → Time * E) (ctx_Err : E → option error).

Definition checkFresh (r : Resolver) (a : Artifact) : M E unit := λ e,
  if rs_maxAge r <=? 0 then (Ok tt, e)
  else
    let '(t, e) := now e in
    let age := Sub t (art_IssuedAt a) in
    if rs_maxAge r <? age then (Err (Errorf "stale artifact"), e)
    else if age <? - futureSkew then (Err (Errorf "artifact dated in the future"), e)
    else (Ok tt, e).

Fixpoint sweep (r : Resolver) (key : string) (chans : list Channel) (lastErr : option error) : M E Result :=
  match chans with
  | [] => fail (match lastErr with Some _ => wrap_err "channel" ErrAllChannelsFailed | None => ErrAllChannelsFailed end)
  | ch :: chans' => λ e,
      match ctx_Err e with
      | Some err => (Err err, e)
      | None =>
          (blob ←! try (ch_Fetch ch key) ;
           match blob with
           | Err err => sweep r key chans' (Some (wrap_err (ch_Kind ch) err))
           | Ok blob =>
               match DeliveryWire.Open blob (rs_v r) with
               | Err err => sweep r key chans' (Some (wrap_err (ch_Kind ch +:+ ": verify") err))
               | Ok art =>
                   fresh ←! try (checkFresh r art) ;
                   match fresh with
                   | Err err => sweep r key chans' (Some (wrap_err (ch_Kind ch) err))
                   | Ok _ => mret {| rr_Channel := ch_Kind ch; rr_Artifact := art |}
                   end
               end
           end) e
      end
  end.
Definition Resolve (r : Resolver) (reg : Registry) (key : string) : M E Result := sweep r key (Ordered reg) None.

(** [out[ch.Kind()] = ch.Publish(ctx, key, blob)], in order *)
Fixpoint broadcast (key : string) (blob : list Z) (chans : list Channel) (out : gmap string (option error)) (e : E)
    : gmap string (option error) * E :=
  match chans with
  | [] => (out, e)
  | c :: chans' =>
      let '(r, e) := ch_Publish c key blob e in
      broadcast key blob chans' (<[ch_Kind c := match r with Ok _ => None | Err err => Some err end]> out) e
  end.
Definition Broadcast (reg : Registry) (key : string) (blob : list Z) (e : E) : gmap string (option error) * E :=
  broadcast key blob (Ordered reg) ∅ e.

(** ** The channels *)
(** *** telegram/channel.go over a blob store *)
Definition telegram_Channel (put : string → list Z → M E unit) (get : string → M E (list Z)) : Channel := {|
  ch_Kind := KindTelegram; ch_Publish := put; ch_Fetch := get;
  ch_Healthy := λ e, let '(r, e) := get "health" e in
    (match r with Ok _ => true | Err err => errors_is err ErrNotFound end, e) |}.

(** *** dns/channel.go: [look] resolves TXT strings, [pub] sets them (absent when fetch-only) *)
Definition dns_Channel (kind zone : string) (look : string → M E (list string)) (pub : option (string → list string → M E unit)) : Channel := {|
  ch_Kind := kind;
  ch_Publish := λ key blob,
    match pub with
    | None => fail (Errorf "dns: channel is fetch-only (no publisher configured)")
    | Some setTXT => match QName zone key with Err err => fail err | Ok name => setTXT name (EncodeTXT blob) end
    end;
  ch_Fetch := λ key,
    match QName zone key with
    | Err err => fail err
    | Ok name =>
        strs ←! try (look name) ;
        match strs with
        | Err _ => fail (wrap_err "dns" ErrNotFound)
        | Ok [] => fail ErrNotFound
        | Ok strs => match DecodeTXT strs with Err _ => fail (wrap_err "dns" ErrNotFound) | Ok blob => mret blob end
        end
    end;
  ch_Healthy := λ e, let '(r, e) := look ("health." +:+ zone) e in (is_ok r, e) |}.
Definition newChannel (kind zone : string) (look : option (string → M E (list string))) pub : result Channel :=
  if bool_decide (zone = "") then Err (Errorf "dns: zone required")
  else match look with None => Err (Errorf "dns: lookup required") | Some look => Ok (dns_Channel kind zone look pub) end.

(** *** gitraw/channel.go: the mirrors in turn, from a rotating cursor *)
Context (cursor_Load : E → Z) (cursor_Store : Z → E → E).
Fixpoint try_mirrors (get : string → string → M E (list Z)) (path : string) (bases : list string) (lastErr : option error) : M E (list Z) :=
  match bases with
  | [] => fail (match lastErr with Some _ => wrap_err "gitraw" ErrNotFound | None => ErrNotFound end)
  | base :: bases' => λ e,
      match ctx_Err e with
      | Some err => (Err err, e)
      | None =>
          (enc ←! try (get base path) ;
           match enc with
           | Err err => try_mirrors get path bases' (Some err)
           | Ok enc => match gitraw_unwrap enc with
                       | None => try_mirrors get path bases' (Some (Errorf "gitraw: mirror bad encoding"))
                       | Some blob => mret blob
                       end
           end) e
      end
  end.
(** [mirrors[(start+i)%n]] for i from 0 *)
Definition rotation (start : nat) (mirrors : list string) : list string :=
  (λ i, nth ((start + i) mod length mirrors) mirrors "") <$> seq 0 (length mirrors).
Definition gitraw_Channel (mirrors : list string) (get : string → string → M E (list Z)) (put : option (string → list Z → M E unit)) : Channel := {|
  ch_Kind := KindGitHubRaw;
  ch_Publish := λ key blob,
    match put with
    | None => fail (Errorf "gitraw: channel is fetch-only (no writer configured)")
    | Some put => put (gitraw_path key) (gitraw_wrap blob)
    end;
  ch_Fetch := λ key e,
    let c := (cursor_Load e + 1) mod 2 ^ 32 in
    let start := (Z.to_nat ((c - 1) mod 2 ^ 32) mod length mirrors)%nat in
    try_mirrors get (gitraw_path key) (rotation start mirrors) None (cursor_Store c e);
  ch_Healthy := λ e,
    let '(r, e) := get (nth (Z.to_nat (cursor_Load e) mod length mirrors) mirrors "") "healthz" e in
    (match r with Ok _ => true | Err err => errors_is err ErrNotFound end, e) |}.
Definition gitraw_New (mirrors : list string) (get : option (string → string → M E (list Z))) put : result Channel :=
  if Nat.eqb (length mirrors) 0 then Err (Errorf "gitraw: at least one mirror required")
  else match get with None => Err (Errorf "gitraw: transport required") | Some get => Ok (gitraw_Channel mirrors get put) end.

(** *** steg/channel.go over a carrier of cover documents *)
Context (rand_Read : nat → M E (list Z)) (cover_marshal : cover → result (list Z)) (cover_unmarshal : list Z → option cover).
(** The marker of a cover; a failing random source leaves its zero bytes. *)
Definition randomAnonID : E → string * E := λ e,
  let '(r, e) := rand_Read 16 e in
  (base64 true (match r with Ok b => b | Err _ => replicate 16 0 end), e).
Definition steg_Channel (putCover : string → list Z → M E unit) (getCover : string → M E (list Z)) : Channel := {|
  ch_Kind := KindSteg;
  ch_Publish := λ key blob e,
    let '(anon, e) := randomAnonID e in
    (cover ←! Embed rand_Read cover_marshal blob anon ; putCover key cover) e;
  ch_Fetch := λ key,
    cover ←! getCover key ;
    match Extract cover_unmarshal cover with Err err => fail err | Ok blob => mret blob end;
  ch_Healthy := λ e, let '(r, e) := getCover "health" e in
    (match r with Ok _ => true | Err err => errors_is err ErrNotFound end, e) |}.
End channel.
Arguments Channel : clear implicits.
Arguments entry : clear implicits.
Arguments Registry : clear implicits.

(** *** memkv: the blob store of a single process *)
Definition memkv : Type := gmap string (list Z).
Definition memkv_Put (key : string) (blob : list Z) : M memkv unit := λ m, (Ok tt, <[key := blob]> m).
Definition memkv_Get (key : string) : M memkv (list Z) := λ m,
  (match m !! key with None => Err ErrNotFound | Some blob => Ok blob end, m).
