(* ===== verification/DeliveryResolve.v ===== *)
(** * Delivery: what the registry, the resolver and the publisher guarantee

    The registry behaves as a map from kinds to channels listed by priority; whatever a resolver returns was
    published by a trusted key and is fresh, however hostile the channels; and a single honest channel is
    enough for it to return something. *)
From S2P Require Import Prelude GoBytes GoText GoCodec GoFloat Contracts DeliveryWire DeliveryPointer DeliveryCarriers DeliveryChannels.

(** ** The registry is a map by kind, in the order of priorities *)
Section registry.
Context {E : Type}.
Implicit Types (r : Registry E) (ch : Channel E).

Record registry_ok r : Prop := {
  ro_kinds : NoDup (en_kind <$> r);
  ro_sorted : StronglySorted (λ x y, en_priority x <= en_priority y) r
}.

Lemma sortLocked_sorted r : StronglySorted (λ x y, en_priority x <= en_priority y) (sortLocked r).
Proof.
  eapply StronglySorted_weaken; [|apply slice_stable_sorted, (strict_weak_map en_priority Z.ltb), strict_weak_Zltb].
  intros x y H. unfold not_after in H. by apply Z.ltb_ge in H.
Qed.

Lemma replace_entry_spec e r :
  match replace_entry e r with
  | None => en_kind e ∉ en_kind <$> r
  | Some r' => en_kind <$> r' = en_kind <$> r ∧ ∃ l1 x l2, r = l1 ++ x :: l2 ∧ r' = l1 ++ e :: l2 ∧ en_kind x = en_kind e
  end.
Proof.
  induction r as [|x r IH]; simpl; [apply not_elem_of_nil|]. case_bool_decide as Hk.
  - split; [by rewrite Hk|]. by exists [], x, r.
  - destruct (replace_entry e r) as [r'|]; simpl.
    + destruct IH as (Hm & l1 & y & l2 & -> & -> & Hy).
      split; [by f_equal|]. by exists (x :: l1), y, l2.
    + rewrite not_elem_of_cons. by split; [|].
Qed.

Lemma added_kinds ch p r : let e := {| en_ch := ch; en_priority := p |} in
  NoDup (en_kind <$> r) → NoDup (en_kind <$> default (r ++ [e]) (replace_entry e r)).
Proof.
  intros e Hr. pose proof (replace_entry_spec e r) as H. destruct (replace_entry e r) as [r'|]; simpl.
  - destruct H as [-> _]. done.
  - rewrite fmap_app. apply NoDup_app. split_and!; [done| |apply NoDup_singleton].
    intros k Hk ->%list_elem_of_singleton. done.
Qed.

Lemma Add_ok ch p r : registry_ok r → registry_ok (Add ch p r).
Proof.
  intros [Hk _]. split; [|apply sortLocked_sorted]. unfold Add, sortLocked.
  rewrite slice_stable_perm. by apply added_kinds.
Qed.
Lemma Remove_ok kind r : registry_ok r → registry_ok (Remove kind r).
Proof.
  intros [Hk Hs]. split; [|by apply StronglySorted_filter]. unfold Remove.
  eapply sublist_NoDup; [exact Hk|]. apply (fmap_sublist en_kind), sublist_filter.
Qed.

(** [Get] by the entries *)
Lemma Get_elem r k ch : NoDup (en_kind <$> r) → Get k r = Some ch ↔ ∃ p, {| en_ch := ch; en_priority := p |} ∈ r ∧ ch_Kind ch = k.
Proof.
  intros Hn. unfold Get, Ordered. split.
  - intros H. apply fmap_Some in H as ([i c] & Hf & ->). apply list_find_Some in Hf as (Hi & Hk & _).
    apply list_lookup_fmap_Some in Hi as ([c' p] & -> & Hi). exists p. split; [by eapply list_elem_of_lookup_2|done].
  - intros (p & He & <-). destruct (list_find_elem_of (λ c, ch_Kind c = ch_Kind ch) (en_ch <$> r) ch) as [[i c] Hf]; [by apply (list_elem_of_fmap_2 en_ch) in He|done|].
    rewrite Hf. simpl. apply list_find_Some in Hf as (Hi & Hk & _). apply list_lookup_fmap_Some in Hi as ([c' p'] & -> & Hi).
    apply list_elem_of_lookup_1 in He as [j Hj].
    assert (i = j) as ->.
    { apply (NoDup_lookup (en_kind <$> r) i j (ch_Kind ch)); [done| |]; rewrite list_lookup_fmap; [rewrite Hi|by rewrite Hj].
      simpl. f_equal. exact Hk. }
    simpl. congruence.
Qed.

(** The abstract registry: a map from kinds to channels *)
Inductive registry_op := OpAdd (ch : Channel E) (priority : Z) | OpRemove (kind : string).
Definition exec_registry r (op : registry_op) : Registry E :=
  match op with OpAdd ch p => Add ch p r | OpRemove k => Remove k r end.
Definition exec_map (m : gmap string (Channel E)) (op : registry_op) : gmap string (Channel E) :=
  match op with OpAdd ch _ => <[ch_Kind ch := ch]> m | OpRemove k => delete k m end.

Lemma Get_None r k : NoDup (en_kind <$> r) → Get k r = None → k ∉ en_kind <$> r.
Proof.
  intros Hn Hg ([ch p] & -> & He)%list_elem_of_fmap.
  assert (Get (en_kind {| en_ch := ch; en_priority := p |}) r = Some ch) as Hs; [|congruence].
  apply Get_elem; [done|]. by exists p.
Qed.
Lemma Get_Add r ch p k : NoDup (en_kind <$> r) → Get k (Add ch p r) = if bool_decide (k = ch_Kind ch) then Some ch else Get k r.
Proof.
  intros Hn. set (e := {| en_ch := ch; en_priority := p |}).
  pose proof (added_kinds ch p r Hn) as Ha. cbv zeta in Ha. fold e in Ha.
  assert (NoDup (en_kind <$> Add ch p r)) as Hadd by (unfold Add, sortLocked; by rewrite slice_stable_perm).
  assert (∀ x, x ∈ Add ch p r ↔ x ∈ default (r ++ [e]) (replace_entry e r)) as Hin.
  { intros x. unfold Add, sortLocked. by rewrite slice_stable_perm. }
  assert (∀ x, x ∈ Add ch p r ↔ x = e ∨ x ∈ r ∧ en_kind x ≠ ch_Kind ch) as Hx.
  { intros x. rewrite Hin. pose proof (replace_entry_spec e r) as Hr. destruct (replace_entry e r) as [r'|]; simpl.
    - destruct Hr as (_ & l1 & y & l2 & -> & -> & Hy). rewrite fmap_app, fmap_cons in Hn.
      rewrite !elem_of_app, !elem_of_cons. apply NoDup_app in Hn as (_ & Hd & [Hy2 _]%NoDup_cons).
      assert (∀ z, z ∈ l1 ∨ z ∈ l2 → en_kind z ≠ ch_Kind ch) as Hoff.
      { intros z [Hz|Hz] Hzk; change (ch_Kind ch) with (en_kind e) in Hzk; rewrite <-Hy in Hzk.
        - apply (Hd (en_kind z)); [by apply list_elem_of_fmap_2|]. rewrite Hzk. by left.
        - apply Hy2. rewrite <-Hzk. by apply list_elem_of_fmap_2. }
      split; [intros [?|[->|?]]; [right| by left|right]; split; auto|].
      intros [->|[[?|[->|?]] Hz]]; auto. by destruct Hz.
    - rewrite elem_of_app, list_elem_of_singleton. split; [intros [?| ->]; [right; split; [done|]|by left]|intros [->|[? _]]; auto].
      intros Hk. apply Hr. change (en_kind e) with (ch_Kind ch). rewrite <-Hk. by apply list_elem_of_fmap_2. }
  case_bool_decide as Hk.
  - apply Get_elem; [done|]. exists p. split; [|done]. apply Hx. by left.
  - destruct (Get k r) as [c|] eqn:Hg.
    + apply Get_elem in Hg as (p' & He & Hkc); [|done]. apply Get_elem; [done|]. exists p'. split; [|done].
      apply Hx. right. split; [done|]. unfold en_kind. simpl. congruence.
    + destruct (Get k (Add ch p r)) as [c|] eqn:Hg'; [|done]. exfalso.
      apply Get_elem in Hg' as (p' & He & Hkc); [|done]. apply Hx in He as [[= -> ->]|[He _]]; [congruence|].
      apply (Get_None r k Hn Hg). rewrite <-Hkc. by apply (list_elem_of_fmap_2 en_kind) in He.
Qed.
Lemma Get_Remove r kind k : NoDup (en_kind <$> r) → Get k (Remove kind r) = if bool_decide (k = kind) then None else Get k r.
Proof.
  intros Hn. assert (NoDup (en_kind <$> Remove kind r)) as Hr.
  { eapply sublist_NoDup; [exact Hn|]. apply (fmap_sublist en_kind), sublist_filter. }
  apply option_eq. intros c. rewrite Get_elem by done. case_bool_decide as Hk.
  - split; [|done]. intros (p & [Hne _]%list_elem_of_filter & Hkc). destruct Hne. unfold en_kind. simpl. congruence.
  - rewrite Get_elem by done. unfold Remove. split; intros (p & He & Hkc); exists p; (split; [|done]).
    + by apply list_elem_of_filter in He as [_ He].
    + apply list_elem_of_filter. split; [|done]. unfold en_kind. simpl. congruence.
Qed.

(** The registry refines a map. After any sequence of additions and removals, every kind has at most one
    channel, the one a map from kinds to channels would hold, and the channels are listed by ascending
    priority. *)
Theorem Registry_refines_map ops : let r := foldl exec_registry [] ops in
  registry_ok r ∧ ∀ k, Get k r = foldl exec_map ∅ ops !! k.
Proof.
  cbv zeta. induction ops as [|op ops [Hok Hg]] using rev_ind.
  { split; [split; constructor|]. intros k. cbn [foldl]. by rewrite lookup_empty. }
  rewrite !foldl_app. cbn [foldl]. set (r := foldl exec_registry [] ops) in *. pose proof (ro_kinds _ Hok) as Hn.
  destruct op as [ch p|k']; cbn [exec_registry exec_map].
  - split; [by apply Add_ok|]. intros k. rewrite Get_Add by done. case_bool_decide as Hk.
    + by rewrite Hk, lookup_insert_eq.
    + by rewrite lookup_insert_ne.
  - split; [by apply Remove_ok|]. intros k. rewrite Get_Remove by done. case_bool_decide as Hk.
    + by rewrite Hk, lookup_delete_eq.
    + by rewrite lookup_delete_ne.
Qed.
End registry.

(** ** Resolving over hostile channels *)
Section resolve.
Context {E : Type} (now : E → Time * E) (ctx_Err : E → option error).
Abbreviation Resolve := (Resolve now ctx_Err).
Abbreviation sweep := (sweep now ctx_Err).

(** Neither older than the limit nor further in the future than the tolerated skew *)
Definition fresh_at (maxAge : Duration) (a : Artifact) (t : Time) : Prop :=
  t - art_IssuedAt a <= maxAge ∧ - futureSkew <= t - art_IssuedAt a.

Lemma skew_small : 0 <= futureSkew < 2 ^ 62.
Proof. by vm_compute. Qed.
Lemma checkFresh_ok r a e e' : rs_maxAge r < max_int64 → checkFresh now r a e = (Ok tt, e') →
  0 < rs_maxAge r → fresh_at (rs_maxAge r) a (now e).1.
Proof.
  pose proof skew_small. intros Hmax H1 Hpos. unfold checkFresh in H1. destruct (now e) as [t e1]. cbn [fst].
  repeat case_match; simplify_eq; unfold fresh_at, Sub, min_int64, max_int64 in *; lia.
Qed.
Lemma checkFresh_fresh r a e : (0 < rs_maxAge r → fresh_at (rs_maxAge r) a (now e).1) →
  checkFresh now r a e = (Ok tt, if rs_maxAge r <=? 0 then e else (now e).2).
Proof.
  pose proof skew_small. intros Hf. unfold checkFresh. destruct (Z.leb_spec (rs_maxAge r) 0); [done|].
  destruct (Hf ltac:(lia)) as [H1 H2]. destruct (now e) as [t e1]. cbn [fst snd] in *.
  repeat case_match; simplify_eq; try done; unfold Sub, min_int64, max_int64 in *; lia.
Qed.

(** A successful sweep stopped at one of the channels, on a blob of it that opened and was fresh. *)
Lemma sweep_sound r key chans : ∀ last e res e', sweep r key chans last e = (Ok res, e') → ∃ ch e0 blob e1,
  ch ∈ chans ∧ ch_Fetch ch key e0 = (Ok blob, e1) ∧ DeliveryWire.Open blob (rs_v r) = Ok (rr_Artifact res) ∧
  (checkFresh now r (rr_Artifact res) e1).1 = Ok tt ∧ rr_Channel res = ch_Kind ch.
Proof.
  induction chans as [|ch chans IH]; intros last e res e' H; [done|].
  cbn [DeliveryChannels.sweep] in H. destruct (ctx_Err e); [done|]. unfold mbind, M_bind, try in H.
  assert (∀ l e1, sweep r key chans l e1 = (Ok res, e') → ∃ ch' e0 blob e1, ch' ∈ ch :: chans ∧ ch_Fetch ch' key e0 = (Ok blob, e1) ∧
    DeliveryWire.Open blob (rs_v r) = Ok (rr_Artifact res) ∧ (checkFresh now r (rr_Artifact res) e1).1 = Ok tt ∧ rr_Channel res = ch_Kind ch') as Hnext.
  { intros l e1 Hs. apply IH in Hs as (ch' & e0 & blob & e2 & Hin & ?). exists ch', e0, blob, e2. split; [by right|done]. }
  destruct (ch_Fetch ch key e) as [[blob|err] e1] eqn:Hf; [|by eapply Hnext].
  destruct (DeliveryWire.Open blob (rs_v r)) as [art|err] eqn:Ho; [|by eapply Hnext].
  destruct (checkFresh now r art e1) as [[[]|err] e2] eqn:Hc; [|by eapply Hnext].
  injection H as <- <-. exists ch, e, blob, e1. split_and!; [by left|done|done| |done]. simpl. by rewrite Hc.
Qed.

(** C22: no channel can deceive a client. Over any registry and whatever its channels answer (truncated, forged
    or replayed blobs, each chosen after the others), an artifact [Resolve] returns was published under a key
    the client trusts, and when a maximal age is set it is fresh by the client's clock. *)
Theorem Resolve_authentic r reg key e res e' published :
  unforgeable (rs_v r) published → rs_maxAge r < max_int64 →
  Resolve r reg key e = (Ok res, e') →
  rr_Artifact res ∈ published ∧ (0 < rs_maxAge r → ∃ e1, fresh_at (rs_maxAge r) (rr_Artifact res) (now e1).1).
Proof.
  intros Hu Hmax (ch & e0 & blob & e1 & Hin & Hf & Ho & Hc & _)%sweep_sound. split; [by eapply Open_published|].
  intros Hpos. exists e1. destruct (checkFresh _ _ _ _) as [[[]|] e2] eqn:Hcf; [|done]. by eapply checkFresh_ok.
Qed.

(** One honest channel is enough. Let [P n] hold of a state while the sweep, with [n] channels to go, is in time: then
    nobody has cancelled, this channel serves its verifiable blob, and whatever channel is asked next the blob is fresh
    by the clock and [P] holds with one channel less to go. Then [Resolve] succeeds. *)
Lemma Resolve_available r reg key e ch blob a (P : nat → E → Prop) :
  ch ∈ Ordered reg → P (length (Ordered reg)) e →
  (∀ n e, P (S n) e → ctx_Err e = None ∧ (ch_Fetch ch key e).1 = Ok blob) →
  (∀ n c e, c ∈ Ordered reg → P (S n) e → let e1 := (ch_Fetch c key e).2 in
     P n e1 ∧ P n (now e1).2 ∧ (0 < rs_maxAge r → fresh_at (rs_maxAge r) a (now e1).1)) →
  DeliveryWire.Open blob (rs_v r) = Ok a →
  ∃ res e', Resolve r reg key e = (Ok res, e').
Proof.
  intros Hin HP Hserve Hkeep Hopen. unfold DeliveryChannels.Resolve. generalize (@None error) as last.
  induction (Ordered reg) as [|c chans IH] in e, HP, Hin, Hkeep |- *; intros last; [by apply elem_of_nil in Hin|].
  cbn [DeliveryChannels.sweep]. destruct (Hserve _ e HP) as [-> Hs]. unfold mbind, M_bind, try.
  assert (∀ e1 l, P (length chans) e1 → ch ∈ chans → ∃ res e', sweep r key chans l e1 = (Ok res, e')) as Hnext.
  { intros e1 l HP1 Hch. apply IH; [done|done|]. intros n c' e2 Hc'. apply Hkeep. by right. }
  destruct (Hkeep _ c e (list_elem_of_here _ _) HP) as (HP1 & HP2 & Hfresh).
  apply elem_of_cons in Hin as [->|Hch].
  - destruct (ch_Fetch c key e) as [b e1]. cbn [fst snd] in *. subst b. rewrite Hopen.
    rewrite checkFresh_fresh by done. by do 2 eexists.
  - destruct (ch_Fetch c key e) as [[b|err] e1]; cbn [snd] in HP1, HP2; [|by apply Hnext].
    destruct (DeliveryWire.Open b (rs_v r)) as [art|err]; [|by apply Hnext].
    destruct (checkFresh now r art e1) as [[[]|err] e2] eqn:Hc; [by do 2 eexists|].
    apply Hnext; [|done]. unfold checkFresh in Hc. destruct (rs_maxAge r <=? 0); [done|].
    destruct (now e1) as [t e3]. cbn [snd] in HP2.
    assert (e2 = e3) as -> by (repeat case_match; congruence). exact HP2.
Qed.
End resolve.
