(* ===== verification/DeliveryBroadcast.v ===== *)
(** * Delivery: from the publisher to the client

    What every channel promises the publisher and the resolver, as the class [Carrier]: a blob whose
    publication succeeded is what a fetch of its key returns. The messenger, DNS and covert channels have it
    on top of a medium that keeps what is put into it ([Medium]); over any registry with one such channel that
    accepted the broadcast, resolving finds a verifiable artifact. *)
From S2P Require Import Prelude GoBytes GoText GoCodec GoFloat Contracts DeliveryWire DeliveryPointer DeliveryCarriers DeliveryChannels DeliveryResolve.

(** A medium: values put under names and read back; reading disturbs nothing. *)
Class Medium {E V : Type} (put : string → V → M E unit) (get : string → M E V) := {
  med_holds : string → V → E → Prop;
  med_put : ∀ k v e e', put k v e = (Ok tt, e') → med_holds k v e';
  med_get : ∀ k v e, med_holds k v e → (get k e).1 = Ok v;
  med_keep : ∀ k v k' e, med_holds k v e → med_holds k v (get k' e).2
}.

#[export] Instance memkv_medium : Medium memkv_Put memkv_Get.
Proof.
  refine {| med_holds := λ k v m, m !! k = Some v |}.
  - intros k v m m' [= <-]. apply lookup_insert_eq.
  - intros k v m H. unfold memkv_Get. simpl. by rewrite H.
  - done.
Defined.

Class Carrier {E : Type} (ch : Channel E) := {
  holds : string → list Z → E → Prop;
  publish_holds : ∀ key blob e e', Forall is_byte blob → 0 < len blob < 2 ^ 32 →
    ch_Publish ch key blob e = (Ok tt, e') → holds key blob e';
  fetch_holds : ∀ key blob e, holds key blob e → (ch_Fetch ch key e).1 = Ok blob;
  fetch_keeps : ∀ key blob key' e, holds key blob e → holds key blob (ch_Fetch ch key' e).2
}.

#[export] Instance telegram_carrier {E} (put : string → list Z → M E unit) get `{!Medium put get} : Carrier (telegram_Channel put get).
Proof.
  refine {| holds := med_holds |}; simpl.
  - intros key blob e e' _ _. apply med_put.
  - apply med_get.
  - intros key blob key' e. apply med_keep.
Defined.

Section carriers.
Context {E : Type}.

(** TXT records: the strings of the key's name. *)
#[export] Instance dns_carrier kind zone (look : string → M E (list string)) (setTXT : string → list string → M E unit)
    `{!Medium setTXT look} : Carrier (dns_Channel kind zone look (Some setTXT)).
Proof.
  refine {| holds := λ key blob e, Forall is_byte blob ∧ blob ≠ [] ∧ ∃ name, QName zone key = Ok name ∧ med_holds name (EncodeTXT blob) e |}; simpl.
  - intros key blob e e' Hb Hne. destruct (QName zone key) as [name|]; [|done]. intros H.
    split_and!; [done|intros ->; vm_compute in Hne; by destruct Hne|].
    exists name. split; [done|]. by eapply med_put.
  - intros key blob e (Hb & Hne & name & -> & Hm). unfold mbind, M_bind, try. apply med_get in Hm.
    destruct (look name e) as [r e1]. simpl in Hm. subst r. destruct (TXT_round_trip blob Hb) as [_ Hd].
    rewrite bool_decide_eq_false_2 in Hd by done.
    destruct (EncodeTXT blob) as [|s strs]; [done|]. by rewrite Hd.
  - intros key blob key' e (Hb & Hne & name & Hq & Hm). split_and!; [done..|]. exists name. split; [done|].
    destruct (QName zone key') as [name'|]; [|done]. unfold mbind, M_bind, try. pose proof (med_keep _ _ name' _ Hm) as Hk.
    destruct (look name' e) as [[[|s strs]|err] e1]; [done| |done]. by destruct (DecodeTXT _).
Defined.

(** Cover documents: any document the blob can be extracted from. *)
Context (rand_Read : nat → M E (list Z)) (cover_marshal : cover → result (list Z)) (cover_unmarshal : list Z → option cover).
Definition random_source : Prop := ∀ n e, ∃ b e', rand_Read n e = (Ok b, e') ∧ length b = n ∧ Forall is_byte b.
Definition cover_codec : Prop := ∀ c, ascii_cover c → ∃ b, cover_marshal c = Ok b ∧ cover_unmarshal b = Some c.

Lemma base64_ascii url l : Forall is_byte l → ascii_text (base64 url l).
Proof.
  assert (∀ n, 0 <= n < 64 → ascii_text (base64_digit url n)) as Hd.
  { intros n Hn. unfold ascii_text, base64_digit. cbn [bytes_of]. constructor; [|done].
    rewrite ord_chr by (unfold is_byte; repeat case_match; lia). repeat case_match; lia. }
  unfold ascii_text in *. assert (∀ s, s = (if url then "" else "=") → Forall (λ b, 32 <= b < 127) (bytes_of s)) as Hp.
  { intros s ->. destruct url; apply (bool_decide_unpack _); vm_compute; exact I. }
  induction l as [|a|a b|a b c l IH] using by_three; intros Hl;
    repeat (match goal with H : Forall is_byte (_ :: _) |- _ => apply Forall_cons in H as [? H] end);
    unfold is_byte in *; cbn [base64]; rewrite ?bytes_of_app; [constructor| | |];
    repeat (apply Forall_app; split); try (apply Hd; Z.div_mod_to_equations; lia); try (by apply Hp). by apply IH.
Qed.

#[export] Instance steg_carrier putCover getCover `{!Medium putCover getCover} (Hr : random_source) (Hj : cover_codec) :
  Carrier (steg_Channel rand_Read cover_marshal cover_unmarshal putCover getCover).
Proof.
  refine {| holds := λ key blob e, ∃ doc, med_holds key doc e ∧ Extract cover_unmarshal doc = Ok blob |}; simpl.
  - intros key blob e e' Hb Hne. unfold randomAnonID. destruct (Hr 16%nat e) as (b & e1 & -> & _ & Hbytes).
    destruct (Extract_Embed rand_Read cover_marshal cover_unmarshal Hr Hj blob (base64 true b) e1 Hb) as (doc & e2 & He & Hx);
      [unfold len in *; lia|by apply base64_ascii|].
    unfold mbind, M_bind. rewrite He. intros Hp. exists doc. split; [by eapply med_put|done].
  - intros key blob e (doc & Hm & Hx). unfold mbind, M_bind. apply med_get in Hm.
    destruct (getCover key e) as [r e1]. simpl in Hm. subst r. by rewrite Hx.
  - intros key blob key' e (doc & Hm & Hx). exists doc. split; [|done]. unfold mbind, M_bind.
    pose proof (med_keep _ _ key' _ Hm) as Hk. destruct (getCover key' e) as [[d|] e1]; [|done]. by destruct (Extract _ d).
Defined.
End carriers.

(** ** Git mirrors: the rotation starts anywhere and visits every mirror. *)
Lemma rotation_elem start mirrors m : m ∈ mirrors → m ∈ rotation start mirrors.
Proof.
  intros [i Hi]%list_elem_of_lookup_1. pose proof (lookup_lt_Some _ _ _ Hi) as Hlt. unfold rotation.
  set (n := length mirrors) in *. apply list_elem_of_fmap. exists ((i + (n - start mod n)) mod n)%nat. split.
  - pose proof (Nat.mod_upper_bound start n ltac:(lia)) as Hs. rewrite Nat.Div0.add_mod_idemp_r.
    rewrite (Nat.div_mod_eq start n) at 1.
    replace (n * (start / n) + start mod n + (i + (n - start mod n)))%nat with (i + (start / n + 1) * n)%nat by lia.
    rewrite Nat.Div0.mod_add, Nat.mod_small by done. symmetry. by apply nth_lookup_Some.
  - apply elem_of_seq. pose proof (Nat.mod_upper_bound (i + (n - start mod n)) n). lia.
Qed.

Section gitraw.
Context {E : Type} (ctx_Err : E → option error) (cursor_Load : E → Z) (cursor_Store : Z → E → E).
Context (get : string → string → M E (list Z)).

Lemma try_mirrors_ok path (P : E → Prop) blob bases m : m ∈ bases →
  (∀ e, P e → ctx_Err e = None ∧ get m path e = (Ok (gitraw_wrap blob), (get m path e).2)) → Forall is_byte blob →
  (∀ b e, P e → P (get b path e).2) →
  (∀ b enc e e', get b path e = (Ok enc, e') → gitraw_unwrap enc = Some blob ∨ gitraw_unwrap enc = None) →
  ∀ last e, P e → ∃ e', try_mirrors ctx_Err get path bases last e = (Ok blob, e').
Proof.
  intros Hm Hgood Hb Hkeep Hbad. induction bases as [|b bases IH]; [by apply elem_of_nil in Hm|]. intros last e HP.
  cbn [try_mirrors]. destruct (Hgood e HP) as [-> Hg]. unfold mbind, M_bind, try. pose proof (Hkeep b e HP) as HP'.
  apply elem_of_cons in Hm as [<-|Hm].
  - rewrite Hg, gitraw_round by done. by eexists.
  - destruct (get b path e) as [[enc|err] e1] eqn:Hget; [|by apply IH].
    destruct (Hbad b enc e e1 Hget) as [-> | ->]; [by eexists|by apply IH].
Qed.

(** One live mirror is enough, whichever mirror the cursor points at, as long as the others answer the same
    file, something that is no base64, or an error. *)
Lemma gitraw_one_mirror (mirrors : list string) put key (P : E → Prop) blob m e : m ∈ mirrors →
  (∀ e, P e → ctx_Err e = None ∧ get m (gitraw_path key) e = (Ok (gitraw_wrap blob), (get m (gitraw_path key) e).2)) →
  Forall is_byte blob → (∀ b e, P e → P (get b (gitraw_path key) e).2) →
  (∀ b enc e e', get b (gitraw_path key) e = (Ok enc, e') → gitraw_unwrap enc = Some blob ∨ gitraw_unwrap enc = None) →
  (∀ c e, P e → P (cursor_Store c e)) → P e →
  ∃ e', ch_Fetch (gitraw_Channel ctx_Err cursor_Load cursor_Store mirrors get put) key e = (Ok blob, e').
Proof.
  intros Hm Hgood Hb Hkeep Hbad Hc HP. apply (try_mirrors_ok _ P) with (m := m); auto. by apply rotation_elem.
Qed.
End gitraw.

(** ** A broadcast reaches the clients *)
Section broadcast.
Context {E : Type} (now : E → Time * E) (ctx_Err : E → option error).
Context (ch : Channel E) `{!Carrier ch}.

(** The other channels of the registry leave the medium of [ch] alone. *)
Definition isolated (reg : Registry E) (key : string) (blob : list Z) : Prop := ∀ c e,
  c ∈ Ordered reg → ch_Kind c ≠ ch_Kind ch → holds key blob e →
  holds key blob (ch_Publish c key blob e).2 ∧ holds key blob (ch_Fetch c key e).2.

Lemma broadcast_notin key blob (chans : list (Channel E)) : ∀ out e k, k ∉ ch_Kind <$> chans →
  (broadcast key blob chans out e).1 !! k = out !! k.
Proof.
  induction chans as [|c chans IH]; intros out e k Hk; [done|]. cbn [broadcast]. rewrite fmap_cons in Hk.
  apply not_elem_of_cons in Hk as [Hc Hk]. destruct (ch_Publish c key blob e) as [r e1]. rewrite IH by done. by apply lookup_insert_ne.
Qed.
Lemma broadcast_keeps key blob (chans : list (Channel E)) : (∀ c, c ∈ chans → ch_Kind c ≠ ch_Kind ch) →
  (∀ c e, c ∈ chans → holds key blob e → holds key blob (ch_Publish c key blob e).2) →
  ∀ out e, holds key blob e → holds key blob (broadcast key blob chans out e).2.
Proof.
  induction chans as [|c chans IH]; intros Hk Hkeep out e He; [done|]. cbn [broadcast].
  specialize (Hkeep c e (list_elem_of_here _ _) He) as H1. destruct (ch_Publish c key blob e) as [r e1]. apply IH; [| |done].
  - intros c' Hc'. apply Hk. by right.
  - intros c' e' Hc'. apply Hkeep. by right.
Qed.
Lemma broadcast_holds key blob (chans : list (Channel E)) : NoDup (ch_Kind <$> chans) → ch ∈ chans → Forall is_byte blob → 0 < len blob < 2 ^ 32 →
  (∀ c e, c ∈ chans → ch_Kind c ≠ ch_Kind ch → holds key blob e → holds key blob (ch_Publish c key blob e).2) →
  ∀ out e, (broadcast key blob chans out e).1 !! ch_Kind ch = Some None → holds key blob (broadcast key blob chans out e).2.
Proof.
  intros Hn Hin Hb Hlen. induction chans as [|c chans IH]; [by apply elem_of_nil in Hin|]. intros Hkeep out e Hout.
  rewrite fmap_cons in Hn. apply NoDup_cons in Hn as [Hc Hn]. cbn [broadcast] in *.
  destruct (ch_Publish c key blob e) as [r e1] eqn:Hp. apply elem_of_cons in Hin as [<-|Hin].
  - rewrite broadcast_notin, lookup_insert_eq in Hout by done. injection Hout as Hout. destruct r as [[]|]; [|done].
    apply broadcast_keeps; [| |by eapply publish_holds].
    + intros c' Hc' He. apply Hc. rewrite <-He. by apply list_elem_of_fmap_2.
    + intros c' e' Hc'. apply Hkeep; [by right|]. intros He. apply Hc. rewrite <-He. by apply list_elem_of_fmap_2.
  - apply IH; [done|done| |done]. intros c' e' Hc'. apply Hkeep. by right.
Qed.

(** The client asks in time: while [live n] holds, with [n] channels still to ask, it has not given up; and whichever
    channel it asks next, the artifact is not too old (nor from the future) by its clock afterwards, if it bounds the
    age at all, and it is in time for the remaining ones. *)
Record in_time (reg : Registry E) (r : Resolver) (key : string) (a : Artifact) (live : nat → E → Prop) : Prop := {
  it_alive : ∀ n e, live (S n) e → ctx_Err e = None;
  it_next : ∀ n c e, c ∈ Ordered reg → live (S n) e → let e1 := (ch_Fetch c key e).2 in
    live n e1 ∧ live n (now e1).2 ∧ (0 < rs_maxAge r → fresh_at (rs_maxAge r) a (now e1).1)
}.

(** C23: a broadcast that one channel accepted reaches the clients. For a registry with distinct kinds and a
    verifiable blob, if the entry of a carrier channel in the report of [Broadcast] is no error, and neither the other
    channels nor the clock disturb that channel's medium, then a client that is in time resolves the key afterwards,
    whatever the other channels answer, and what it gets is published. *)
Theorem broadcast_reaches reg r key blob a e published live :
  registry_ok reg → ch ∈ Ordered reg → isolated reg key blob → (∀ e, holds key blob e → holds key blob (now e).2) →
  Forall is_byte blob → 0 < len blob < 2 ^ 32 → DeliveryWire.Open blob (rs_v r) = Ok a →
  in_time reg r key a live → live (length (Ordered reg)) (Broadcast reg key blob e).2 →
  unforgeable (rs_v r) published →
  (Broadcast reg key blob e).1 !! ch_Kind ch = Some None →
  ∃ res e'', Resolve now ctx_Err r reg key (Broadcast reg key blob e).2 = (Ok res, e'') ∧ rr_Artifact res ∈ published.
Proof.
  intros Hok Hin Hiso Hclock Hb Hlen Hopen [Halive Hnext] Hlive Hu. unfold Broadcast in *.
  assert (NoDup (ch_Kind <$> Ordered reg)) as Hn by (unfold Ordered; rewrite <-list_fmap_compose; apply Hok).
  assert (∀ c, c ∈ Ordered reg → ch_Kind c = ch_Kind ch → c = ch) as Huniq.
  { intros c Hc Hk. apply list_elem_of_lookup_1 in Hc as [i Hi], Hin as [j Hj].
    assert (i = j) as -> by (apply (NoDup_lookup (ch_Kind <$> Ordered reg) i j (ch_Kind ch) Hn); rewrite list_lookup_fmap; [rewrite Hi|rewrite Hj]; simpl; congruence).
    congruence. }
  pose proof (broadcast_holds key blob (Ordered reg) Hn Hin Hb Hlen) as Hh.
  intros Hout. specialize (Hh ltac:(intros c e1 Hc Hk Hho; by apply Hiso) ∅ e Hout).
  destruct (Resolve_available now ctx_Err r reg key (broadcast key blob (Ordered reg) ∅ e).2 ch blob a
    (λ n e, holds key blob e ∧ live n e)) as (res & e'' & Hres); try done.
  - intros n e1 [Hho Hl]. split; [by apply (Halive n)|by apply fetch_holds].
  - intros n c e1 Hc [Hho Hl]. destruct (Hnext n c e1 Hc Hl) as (H1 & H2 & H3). cbv zeta.
    assert (holds key blob (ch_Fetch c key e1).2) as Hho1; [|split_and!; auto].
    destruct (decide (ch_Kind c = ch_Kind ch)) as [Hk|Hk]; [rewrite (Huniq c Hc Hk); by apply fetch_keeps|by apply Hiso].
  - exists res, e''. split; [done|]. apply sweep_sound in Hres as (c & e0 & b & e1 & Hc & Hf & Ho & _).
    by eapply Open_published.
Qed.
End broadcast.

(** ** A concrete network: a hostile mirror in front of the messenger *)
Definition demo_artifact : Artifact := NewArtifact KindDirectory (unix_epoch + 1700000000 * Second) [1; 2; 3].
Definition demo_blob : list Z :=
  match Marshal {| sg_Artifact := demo_artifact; sg_KeyID := "k1"; sg_Signature := [9; 9] |} with Ok b => b | Err _ => [] end.
(** A verifier that knows the one message its key has signed *)
Definition demo_verifier : Verifier := λ keyID msg sig,
  bool_decide (keyID = "k1") && bool_decide (sig = [9; 9]) &&
  match Canonical demo_artifact with Ok m => bool_decide (m = msg) | Err _ => false end.
Definition demo_hostile : Channel memkv := {|
  ch_Kind := KindGitHubRaw;
  ch_Publish := λ _ _, fail ErrUnavailable;
  ch_Fetch := λ _ e, (Ok (alter (λ b, Z.lxor b 1) 20%nat demo_blob), e);
  ch_Healthy := λ e, (true, e) |}.
Definition demo_messenger : Channel memkv := telegram_Channel memkv_Put memkv_Get.
Definition demo_registry : Registry memkv := Add demo_messenger 1 (Add demo_hostile 0 []).
Definition demo_resolver : Resolver := {| rs_v := demo_verifier; rs_maxAge := 24 * Hour |}.
Definition demo_now (e : memkv) : Time * memkv := (unix_epoch + 1700003600 * Second, e).
Definition demo_ctx (e : memkv) : option error := None.

Lemma demo_unforgeable : unforgeable demo_verifier [demo_artifact].
Proof.
  intros keyID msg sig H. unfold demo_verifier in H. apply andb_true_iff in H as [_ H].
  exists demo_artifact. split; [by left|]. split.
  - split; [done|vm_compute; split; discriminate].
  - destruct (Canonical demo_artifact) as [m|]; [|done]. by apply bool_decide_eq_true in H as ->.
Qed.
Lemma demo_blob_bytes : Forall is_byte demo_blob.
Proof. unfold is_byte. vm_compute. repeat (apply Forall_cons; split; [split; [discriminate|reflexivity]|]). apply Forall_nil_2. Qed.


Lemma demo_registry_ok : registry_ok demo_registry.
Proof. apply Add_ok, Add_ok. split; constructor. Qed.

(** The same network with a clock: a fetch takes three seconds, whatever the channel. *)
Definition clocked : Type := memkv * Time.
Definition on_kv {A} (took : Duration) (m : M memkv A) : M clocked A := λ e, let '(r, kv) := m e.1 in (r, (kv, e.2 + took)).
Definition clocked_Put (key : string) (blob : list Z) : M clocked unit := on_kv Second (memkv_Put key blob).
Definition clocked_Get (key : string) : M clocked (list Z) := on_kv (3 * Second) (memkv_Get key).
#[export] Instance clocked_medium : Medium clocked_Put clocked_Get.
Proof.
  refine {| med_holds := λ k v e, e.1 !! k = Some v |}.
  - intros k v e e' [= <-]. apply lookup_insert_eq.
  - intros k v e H. unfold clocked_Get, on_kv, memkv_Get. by rewrite H.
  - intros k v k' e H. unfold clocked_Get, on_kv, memkv_Get. by destruct (e.1 !! k').
Defined.
Definition clocked_hostile : Channel clocked := {|
  ch_Kind := KindGitHubRaw;
  ch_Publish := λ _ _, fail ErrUnavailable;
  ch_Fetch := λ _, on_kv (3 * Second) (λ kv, (Ok (alter (λ b, Z.lxor b 1) 20%nat demo_blob), kv));
  ch_Healthy := λ e, (true, e) |}.
Definition clocked_messenger : Channel clocked := telegram_Channel clocked_Put clocked_Get.
Definition clocked_registry : Registry clocked := Add clocked_messenger 1 (Add clocked_hostile 0 []).
Definition clocked_now (e : clocked) : Time * clocked := (e.2, e).
Definition clocked_ctx (e : clocked) : option error := None.
Definition clocked_start : clocked := (∅, unix_epoch + 1700003600 * Second).
(** Before the artifact is a day old, with three seconds left for each channel to go. *)
Definition before_a_day (n : nat) (e : clocked) : Prop :=
  art_IssuedAt demo_artifact <= e.2 ∧ e.2 + Z.of_nat n * (3 * Second) <= art_IssuedAt demo_artifact + 24 * Hour.

(** The forged blob of the first channel is skipped, the messenger's is found. *)
Lemma broadcast_reaches_witness : ∃ res e'',
  Resolve clocked_now clocked_ctx demo_resolver clocked_registry "directory" (Broadcast clocked_registry "directory" demo_blob clocked_start).2 = (Ok res, e'') ∧
  rr_Artifact res ∈ [demo_artifact].
Proof.
  apply (broadcast_reaches clocked_now clocked_ctx clocked_messenger clocked_registry demo_resolver "directory" demo_blob demo_artifact
    clocked_start [demo_artifact] before_a_day).
  - apply Add_ok, Add_ok. split; constructor.
  - change (clocked_messenger ∈ [clocked_hostile; clocked_messenger]). right. left.
  - intros c e Hc Hk Hh. change (c ∈ [clocked_hostile; clocked_messenger]) in Hc.
    apply elem_of_cons in Hc as [->|Hc%list_elem_of_singleton]; [done|]. by subst c.
  - done.
  - exact demo_blob_bytes.
  - vm_compute. done.
  - vm_compute. reflexivity.
  - split; [done|]. intros n c e Hc [H1 H2]. change (c ∈ [clocked_hostile; clocked_messenger]) in Hc.
    assert ((ch_Fetch c "directory" e).2.2 = e.2 + 3 * Second) as He.
    { apply elem_of_cons in Hc as [->|Hc%list_elem_of_singleton]; [done|]. subst c. simpl. unfold clocked_Get, on_kv, memkv_Get.
      by destruct (e.1 !! "directory"). }
    cbv zeta. unfold before_a_day, fresh_at, clocked_now. cbn [fst snd]. rewrite He. change (rs_maxAge demo_resolver) with (24 * Hour).
    assert (0 <= futureSkew) by (by vm_compute). assert (0 < Second) by done. split_and!; lia.
  - split; [vm_compute; discriminate|]. vm_compute. discriminate.
  - exact demo_unforgeable.
  - reflexivity.
Defined.

Lemma Resolve_authentic_witness :
  let res := {| rr_Channel := KindTelegram; rr_Artifact := demo_artifact |} in
  rr_Artifact res ∈ [demo_artifact] ∧ (0 < 24 * Hour → ∃ e1, fresh_at (24 * Hour) (rr_Artifact res) (demo_now e1).1).
Proof.
  apply (Resolve_authentic demo_now demo_ctx demo_resolver demo_registry "directory" {["directory" := demo_blob]} _ {["directory" := demo_blob]} [demo_artifact]).
  - exact demo_unforgeable.
  - vm_compute. reflexivity.
  - vm_compute. reflexivity.
Defined.
