(* ===== verification/DeliveryOnboarding.v ===== *)
(** * Delivery: onboarding of messenger users

    services/delivery/internal/onboarding/service.go: the calls of the bot on control-plane and billing, with
    their retries. An upstream request is a record of what identifies it; the HTTP exchange, the pause between
    attempts and the clock belong to the environment [E], the JSON decoders of the answers are parameters.
    A body that cannot be read to its end is [None]. *)
From S2P Require Import Prelude GoBytes GoText GoTime GoCodec Contracts GoUrl.

(** ** The types and sentinels of channel/telegram/bot.go *)
Record Link := { lk_SubscriptionURL : string; lk_HappDeepLink : string }.
Record BotInvoice := {
  bi_ID : string; bi_Provider : string; bi_PayAddress : string; bi_CheckoutURL : string; bi_Amount : string;
  bi_Currency : string; bi_ExpiresAt : Time }.
Record BotPlan := { bp_ID : string; bp_DurationSeconds : Z; bp_GraceSeconds : Z; bp_Prices : gmap string string }.
Record LatestInvoice := {
  li_ID : string; li_Plan : string; li_Status : string; li_Amount : string; li_Currency : string;
  li_CreatedAt : Time; li_ExpiresAt : Time }.
Record AccountStatus := {
  as_UserStatus : string; as_Invoice : option LatestInvoice; as_Subscription : option Subscription; as_Eligible : bool }.
Definition ErrNoSubscription : error := Sentinel "telegram: no subscription".
Definition ErrNotEligible : error := Sentinel "telegram: subscription not eligible".
Definition ErrAccountSuspended : error := Sentinel "telegram: account suspended".
Definition ErrUnsupportedCatalog : error := Sentinel "telegram: unsupported catalog selection".
Definition ErrRateLimited : error := Sentinel "telegram: upstream rate limited".

(** ** The upstream client *)
Inductive upstream := ControlPlane | BillingService.
Inductive request_body :=
| NoBody
| EmptyObject
| EnsureTelegram (telegramID : Z)
| InvoiceRequest (anonUserID plan currency : string).
Record up_request := {
  ur_service : upstream; ur_method : string; ur_path : string; ur_idempotency : option string; ur_body : request_body }.

Definition maxResponseBytes : Z := 65536.
Definition maxAttempts : nat := 3.
(** [*statusError] *)
Definition statusError (code : Z) : error := Typed "*onboarding.statusError" (itoa code) "" (Errorf "").
Definition status_is (code : Z) (e : error) : bool :=
  match errors_as e "*onboarding.statusError" with Some (c, _, _) => bool_decide (c = itoa code) | None => false end.
Definition acceptedStatus (got : Z) (accepted : list Z) : bool := existsb (Z.eqb got) accepted.
Definition retryableStatus (code : Z) : bool := existsb (Z.eqb code) [429; 500; 502; 503].
Definition readResponse (body : option (list Z)) : result (list Z) :=
  match body with
  | None => Err (Errorf "onboarding: read upstream response")
  | Some b => if maxResponseBytes <? Z.of_nat (length b) then Err (Errorf "onboarding: upstream response too large") else Ok b
  end.
Definition translateReadError (e : error) : error := if status_is 429 e then ErrRateLimited else e.
Definition translating {S A} (m : M S A) : M S A := λ s,
  match m s with (Ok a, s') => (Ok a, s') | (Err e, s') => (Err (translateReadError e), s') end.

Record BillingPlanOffer := { po_ID : string; po_DurationSeconds : Z; po_GraceSeconds : Z; po_Prices : gmap string string }.
Record invoiceResponse := {
  ir_InvoiceID : string; ir_Provider : string; ir_PayAddress : string; ir_CheckoutURL : string; ir_Amount : string;
  ir_Currency : string; ir_ExpiresAt : string }.
Record deliveryLink := { dl_Token : string; dl_SubscriptionID : string }.

(** A decoder of one Go type with the zero value an empty body leaves in the destination *)
Record Decoder (A : Type) := { zero_value : A; unmarshal : list Z → option A }.
Arguments zero_value {A}. Arguments unmarshal {A}.
Record Decoders := {
  dc_user : Decoder User; dc_subscription : Decoder Subscription; dc_offers : Decoder (list BillingPlanOffer);
  dc_invoice : Decoder invoiceResponse; dc_latest : Decoder LatestInvoice; dc_link : Decoder deliveryLink }.

Section service.
Context `{ord : !MapOrder} {E : Type}.
Context (http_Do : up_request → M E (Z * option (list Z))) (wait : E → bool * E) (now : E → Time * E).
Context (dec : Decoders) (publicSubBase : string).

(** The attempts from number [attempt] on; the loop of [doJSON] has [maxAttempts] of them. *)
Fixpoint attempts {A} (left : nat) (req : up_request) (d : Decoder A) (accepted : list Z) : M E A :=
  resp ←! try (http_Do req) ;
  match resp with
  | Err _ =>
      match left with
      | O => fail (Errorf "onboarding: upstream unavailable")
      | S left' => λ e, let '(go, e) := wait e in
          if go then attempts left' req d accepted e else (Err (Errorf "onboarding: upstream unavailable"), e)
      end
  | Ok (code, body) =>
      match readResponse body with
      | Err err => fail err
      | Ok b =>
          if acceptedStatus code accepted then
            if Nat.eqb (length b) 0 then mret (zero_value d)
            else match unmarshal d b with None => fail (Errorf "onboarding: invalid upstream response") | Some a => mret a end
          else if retryableStatus code then
            match left with
            | O => fail (statusError code)
            | S left' => λ e, let '(go, e) := wait e in
                if go then attempts left' req d accepted e else (Err (statusError code), e)
            end
          else fail (statusError code)
      end
  end.
Definition doJSON {A} (req : up_request) (d : Decoder A) (accepted : list Z) : M E A :=
  attempts (maxAttempts - 1) req d accepted.

Definition get (svc : upstream) (path : string) : up_request :=
  {| ur_service := svc; ur_method := "GET"; ur_path := path; ur_idempotency := None; ur_body := NoBody |}.
Definition post (svc : upstream) (path : string) (key : option string) (body : request_body) : up_request :=
  {| ur_service := svc; ur_method := "POST"; ur_path := path; ur_idempotency := key; ur_body := body |}.

Definition ensureUser (senderID : Z) : M E User :=
  user ←! doJSON (post ControlPlane "/v1/users/ensure-telegram" None (EnsureTelegram senderID)) (dc_user dec) [200; 201] ;
  if bool_decide (u_ID user = "") || negb (bool_decide (u_TelegramID user = Some senderID))
  then fail (Errorf "onboarding: invalid control-plane identity response") else mret user.
Definition EnsureUser (senderID : Z) : M E unit := ensureUser senderID ;;! mret tt.

(** The prices of an offer, in the order of the iteration; [None] when one of them is invalid. *)
Fixpoint clean_prices (l : list (string * string)) (acc : gmap string string) : option (gmap string string) :=
  match l with
  | [] => Some acc
  | (currency, amount) :: l' =>
      let currency := ToUpper (TrimSpace currency) in
      let amount := TrimSpace amount in
      if bool_decide (currency = "") || bool_decide (amount = "") then None else clean_prices l' (<[currency := amount]> acc)
  end.
Fixpoint catalog_plans (items : list BillingPlanOffer) : result (list BotPlan) :=
  match items with
  | [] => Ok []
  | item :: items' =>
      if negb (SubscriptionPlan_Valid (po_ID item)) || (po_DurationSeconds item <=? 0) || (po_GraceSeconds item <? 0)
         || Nat.eqb (size (po_Prices item)) 0
      then Err (Errorf "onboarding: invalid billing catalog")
      else match clean_prices (range (po_Prices item)) ∅ with
      | None => Err (Errorf "onboarding: invalid billing catalog price")
      | Some prices =>
          match catalog_plans items' with
          | Err e => Err e
          | Ok plans => Ok ({| bp_ID := po_ID item; bp_DurationSeconds := po_DurationSeconds item;
                               bp_GraceSeconds := po_GraceSeconds item; bp_Prices := prices |} :: plans)
          end
      end
  end.
Definition Catalog : M E (list BotPlan) :=
  items ←! translating (doJSON (get BillingService "/v1/plans") (dc_offers dec) [200]) ;
  λ e, (catalog_plans items, e).

(** [CreateInvoice] maps three statuses of billing to the bot's sentinels. *)
Definition invoice_error (e : error) : error :=
  if status_is 400 e || status_is 422 e then ErrUnsupportedCatalog
  else if status_is 429 e then ErrRateLimited else e.
Definition CreateInvoice (senderID updateID : Z) (plan currency : string) : M E BotInvoice :=
  user ←! ensureUser senderID ;
  let req := post BillingService "/v1/invoices" (Some ("tg-update-" +:+ itoa updateID)) (InvoiceRequest (u_ID user) plan currency) in
  r ←! try (doJSON req (dc_invoice dec) [201; 200]) ;
  match r with
  | Err e => fail (invoice_error e)
  | Ok r =>
      match parse_rfc3339 (ir_ExpiresAt r) with
      | Some expiresAt =>
          if bool_decide (ir_InvoiceID r = "") || bool_decide (ir_Provider r = "") || bool_decide (ir_Amount r = "")
             || bool_decide (ir_Currency r = "") || (bool_decide (ir_PayAddress r = "") && bool_decide (ir_CheckoutURL r = ""))
          then fail (Errorf "onboarding: invalid billing response")
          else mret {| bi_ID := ir_InvoiceID r; bi_Provider := ir_Provider r; bi_PayAddress := ir_PayAddress r;
                       bi_CheckoutURL := ir_CheckoutURL r; bi_Amount := ir_Amount r; bi_Currency := ir_Currency r;
                       bi_ExpiresAt := expiresAt |}
      | None => fail (Errorf "onboarding: invalid billing response")
      end
  end.

Definition subscription (user : User) (subscriptionID : string) : M E (option Subscription) :=
  r ←! try (doJSON (get ControlPlane ("/v1/subscriptions/" +:+ PathEscape subscriptionID)) (dc_subscription dec) [200]) ;
  match r with
  | Err e => if status_is 404 e then mret None else fail e
  | Ok sub => if negb (bool_decide (s_ID sub = subscriptionID)) || negb (bool_decide (s_UserID sub = u_ID user))
              then fail (Errorf "onboarding: inconsistent subscription identity") else mret (Some sub)
  end.
Definition servable_status (s : string) : bool :=
  one_of s [SubscriptionStatusActive; SubscriptionStatusTrialing; SubscriptionStatusPastDue].
Definition eligible (sub : Subscription) (t : Time) : bool :=
  servable_status (s_Status sub) && match AccessUntil sub with None => true | Some until => After until t end.
Definition clock : M E Time := λ e, let '(t, e) := now e in (Ok t, e).

Definition Status (senderID : Z) : M E AccountStatus :=
  user ←! translating (ensureUser senderID) ;
  latest ←! try (doJSON (get BillingService ("/v1/accounts/" +:+ PathEscape (u_ID user) +:+ "/invoices/latest")) (dc_latest dec) [200]) ;
  invoice ←! match latest with
             | Ok li => mret (Some li)
             | Err e => if status_is 404 e then mret None else fail (translateReadError e)
             end ;
  let bare := {| as_UserStatus := u_Status user; as_Invoice := invoice; as_Subscription := None; as_Eligible := false |} in
  match u_SubscriptionID user with
  | None => mret bare
  | Some id =>
      if bool_decide (id = "") then mret bare
      else
        sub ←! translating (subscription user id) ;
        match sub with
        | None => mret bare
        | Some sub =>
            let result e := {| as_UserStatus := u_Status user; as_Invoice := invoice; as_Subscription := Some sub; as_Eligible := e |} in
            if bool_decide (u_Status user = UserStatusActive)
            then t ←! clock ; mret (result (eligible sub t)) else mret (result false)
        end
  end.

Definition SubscriptionLink (senderID : Z) : M E Link :=
  user ←! ensureUser senderID ;
  if one_of (u_Status user) [UserStatusSuspended; UserStatusBanned] then fail ErrAccountSuspended
  else
    match u_SubscriptionID user with
    | None => fail ErrNoSubscription
    | Some id =>
        if negb (bool_decide (u_Status user = UserStatusActive)) || bool_decide (id = "") then fail ErrNoSubscription
        else
          sub ←! subscription user id ;
          match sub with
          | None => fail ErrNoSubscription
          | Some sub =>
              t ←! clock ;
              if negb (eligible sub t) then fail ErrNotEligible
              else
                link ←! doJSON (post ControlPlane ("/v1/subscriptions/" +:+ PathEscape (s_ID sub) +:+ "/delivery-link") None EmptyObject)
                          (dc_link dec) [200; 201] ;
                if bool_decide (dl_Token link = "") || negb (bool_decide (dl_SubscriptionID link = s_ID sub))
                then fail (Errorf "onboarding: invalid delivery link response")
                else
                  let url := publicSubBase +:+ "/sub/" +:+ PathEscape (dl_Token link) in
                  mret {| lk_SubscriptionURL := url; lk_HappDeepLink := "happ://add/" +:+ base64 false (bytes_of url) |}
          end
    end.
End service.
