(* ===== verification/DeliveryAccounts.v ===== *)
(** * Delivery: what the onboarding service asks for and hands out

    The calls of the service are recorded with their answers: every operation makes a bounded number of
    attempts for each of its requests and nothing else, an invoice is always asked for under the key of the
    update that asked for it, and a link is handed out only to the linked account of the sender, while
    control-plane says that its subscription grants access. *)
From S2P Require Import Prelude GoBytes GoText GoTime GoCodec GoTrace Contracts GoUrl DeliveryOnboarding.

(** A request with its answer: no answer, or a status and a body *)
Definition exchange : Type := up_request * result (Z * option (list Z)).

Section accounts.
Context `{ord : !MapOrder} {E : Type}.
Context (http_Do : up_request → M E (Z * option (list Z))) (wait : E → bool * E) (now : E → Time * E).
Context (dec : Decoders) (publicSubBase : string).
Abbreviation W := (Traced E exchange).

Definition recorded_Do (req : up_request) : M W (Z * option (list Z)) := call (λ r, (req, r)) (http_Do req).
Definition on_env {B} (f : E → B * E) (w : W) : B * W := let '(b, e) := f (tw_env w) in (b, mkTraced e (tw_trace w)).
Abbreviation doJSON := (doJSON recorded_Do (on_env wait)).
Abbreviation ensureUser := (ensureUser recorded_Do (on_env wait) dec).
Abbreviation subscription := (subscription recorded_Do (on_env wait) dec).

(** The value a call returns is the one its answer held. *)
Definition answered {A} (d : Decoder A) (accepted : list Z) (r : result (Z * option (list Z))) (a : A) : Prop :=
  ∃ code b, r = Ok (code, Some b) ∧ code ∈ accepted ∧ (b = [] ∧ a = zero_value d ∨ unmarshal d b = Some a).
(** At most [n] attempts of one request, one of which gave the value returned *)
Definition tried {A} (n : nat) (req : up_request) (d : Decoder A) (accepted : list Z) (t : list exchange) (r : result A) : Prop :=
  (length t <= n)%nat ∧ Forall (λ c, c.1 = req) t ∧ ∀ a, r = Ok a → ∃ ans, (req, ans) ∈ t ∧ answered d accepted ans a.

Lemma tried_cons {A} n req (d : Decoder A) accepted ans t r : tried n req d accepted t r → tried (S n) req d accepted ((req, ans) :: t) r.
Proof.
  intros (Hl & Hf & Ha). split; [simpl; lia|]. split; [by constructor|].
  intros a Hr. destruct (Ha a Hr) as (ans' & Hin & ?). exists ans'. split; [by right|done].
Qed.
Lemma tried_err {A} n req (d : Decoder A) accepted ans e : tried (S n) req d accepted [(req, ans)] (Err e).
Proof. split; [simpl; lia|]. split; [by repeat constructor|done]. Qed.
Lemma tried_ok {A} n req (d : Decoder A) accepted ans a : answered d accepted ans a → tried (S n) req d accepted [(req, ans)] (Ok a).
Proof.
  intros Ha. split; [simpl; lia|]. split; [by repeat constructor|]. intros ? [= <-]. exists ans. split; [by left|done].
Qed.
Lemma acceptedStatus_elem code l : acceptedStatus code l = true → code ∈ l.
Proof. intros (x & Hx & He)%existsb_exists. apply Z.eqb_eq in He as ->. by apply list_elem_of_In. Qed.

Lemma emits_wait {A} (k : M W A) err (P : list exchange → result A → Prop) : emits k P → P [] (Err err) →
  emits (λ w, let '(go, w) := on_env wait w in if go then k w else (Err err, w)) P.
Proof.
  intros Hk He w. unfold on_env. destruct (wait (tw_env w)) as [[] e]; [apply (Hk (mkTraced e (tw_trace w)))|].
  exists []. simpl. by rewrite app_nil_r.
Qed.

(** What follows an answer: an error, or another round of attempts after the pause. *)
Lemma emits_failed {A} n req (d : Decoder A) accepted ans e :
  emits (fail e : M W A) (λ t r, tried (S n) req d accepted ([(req, ans)] ++ t) r).
Proof. eapply emits_mono; [apply emits_fail|]. intros t r [-> ->]. apply tried_err. Qed.
Lemma emits_answer {A} n req (d : Decoder A) accepted ans (again : error → M W A) :
  (∀ err, emits (again err) (λ t r, tried (S n) req d accepted ([(req, ans)] ++ t) r)) →
  emits (match ans with
         | Err _ => again (Errorf "onboarding: upstream unavailable")
         | Ok (code, body) =>
             match readResponse body with
             | Err err => fail err
             | Ok b =>
                 if acceptedStatus code accepted then
                   if Nat.eqb (length b) 0 then mret (zero_value d)
                   else match unmarshal d b with None => fail (Errorf "onboarding: invalid upstream response") | Some a => mret a end
                 else if retryableStatus code then again (statusError code) else fail (statusError code)
             end
         end) (λ t r, tried (S n) req d accepted ([(req, ans)] ++ t) r).
Proof.
  intros Hagain. destruct ans as [[code body]|e]; [|apply Hagain].
  destruct body as [b|]; [|apply emits_failed]. unfold readResponse. destruct (_ <? _); [apply emits_failed|].
  destruct (acceptedStatus code accepted) eqn:Ha; [|destruct (retryableStatus code); [apply Hagain|apply emits_failed]].
  apply acceptedStatus_elem in Ha. assert (∀ a, b = [] ∧ a = zero_value d ∨ unmarshal d b = Some a →
    emits (mret a : M W A) (λ t r, tried (S n) req d accepted ([(req, Ok (code, Some b))] ++ t) r)) as Hret.
  { intros a Hb. eapply emits_mono; [apply emits_ret|]. intros t r [-> ->]. apply tried_ok. by exists code, b. }
  destruct b as [|x b]; [apply Hret; by left|]. cbn [length Nat.eqb].
  destruct (unmarshal d (x :: b)) as [a|] eqn:Hu; [apply Hret; by right|apply emits_failed].
Qed.

Lemma emits_attempts {A} req (d : Decoder A) accepted left :
  emits (attempts recorded_Do (on_env wait) left req d accepted) (tried (S left) req d accepted).
Proof.
  induction left as [|left IH]; cbn [attempts];
    (eapply emits_then; [apply emits_try, emits_call| |by intros t e (? & ? & _)]);
    intros t1 r (? & [= <-] & ->).
  - apply (emits_answer 0 req d accepted r (λ err, fail err)). intros err. apply emits_failed.
  - apply (emits_answer (S left) req d accepted r (λ err w, let '(go, w) := on_env wait w in
      if go then attempts recorded_Do (on_env wait) left req d accepted w else (Err err, w))).
    intros err. apply emits_wait; [|apply tried_err]. eapply emits_mono; [apply IH|]. intros t r'. apply tried_cons.
Qed.
Lemma emits_doJSON {A} req (d : Decoder A) accepted : emits (doJSON req d accepted) (tried maxAttempts req d accepted).
Proof. apply (emits_attempts req d accepted 2). Qed.

(** ** The operations *)
Definition asked {A} (req : up_request) (d : Decoder A) (accepted : list Z) (t : list exchange) (a : A) : Prop :=
  ∃ ans, (req, ans) ∈ t ∧ answered d accepted ans a.
Lemma asked_app_l {A} req (d : Decoder A) accepted t1 t2 a : asked req d accepted t1 a → asked req d accepted (t1 ++ t2) a.
Proof. intros (ans & Hin & ?). exists ans. rewrite elem_of_app. auto. Qed.
Lemma asked_app_r {A} req (d : Decoder A) accepted t1 t2 a : asked req d accepted t2 a → asked req d accepted (t1 ++ t2) a.
Proof. intros (ans & Hin & ?). exists ans. rewrite elem_of_app. auto. Qed.

Definition ensure_request (sender : Z) : up_request := post ControlPlane "/v1/users/ensure-telegram" None (EnsureTelegram sender).
Definition subscription_request (id : string) : up_request := get ControlPlane ("/v1/subscriptions/" +:+ PathEscape id).
Definition link_request (id : string) : up_request := post ControlPlane ("/v1/subscriptions/" +:+ PathEscape id +:+ "/delivery-link") None EmptyObject.
Definition invoice_request (account : string) (updateID : Z) (plan currency : string) : up_request :=
  post BillingService "/v1/invoices" (Some ("tg-update-" +:+ itoa updateID)) (InvoiceRequest account plan currency).
(** Control-plane's answer to the question who the sender is *)
Definition known (sender : Z) (t : list exchange) (user : User) : Prop :=
  asked (ensure_request sender) (dc_user dec) [200; 201] t user ∧ u_TelegramID user = Some sender ∧ u_ID user ≠ "".

Lemma emits_ensureUser sender : emits (ensureUser sender) (λ t r,
  (length t <= maxAttempts)%nat ∧ Forall (λ c, c.1 = ensure_request sender) t ∧ ∀ user, r = Ok user → known sender t user).
Proof.
  eapply emits_then; [apply emits_doJSON| |by intros t e (? & ? & _)].
  intros t user (Hl & Hf & Ha). specialize (Ha user eq_refl). case_bool_decide as Hid; cbn [orb].
  { eapply emits_mono; [apply emits_fail|]. intros t2 r [-> ->]. by rewrite app_nil_r. }
  case_bool_decide as Ht; cbn [negb].
  - eapply emits_mono; [apply emits_ret|]. intros t2 r [-> ->]. rewrite app_nil_r. split_and!; [done..|].
    by intros ? [= <-].
  - eapply emits_mono; [apply emits_fail|]. intros t2 r [-> ->]. by rewrite app_nil_r.
Qed.

Lemma emits_subscription user id : emits (subscription user id) (λ t r, ∀ sub, r = Ok (Some sub) →
  asked (subscription_request id) (dc_subscription dec) [200] t sub ∧ s_ID sub = id ∧ s_UserID sub = u_ID user).
Proof.
  eapply emits_then; [apply emits_try, emits_doJSON| |by intros t e (? & ? & _)].
  intros t r (r0 & [= <-] & (_ & _ & Ha)). destruct r as [sub|e].
  - case_bool_decide as Hid; [case_bool_decide as Hu|]; cbn [negb orb].
    + eapply emits_mono; [apply emits_ret|]. intros t2 r [-> ->] ? [= <-]. rewrite app_nil_r. split; [|done].
      by apply Ha.
    + eapply emits_mono; [apply emits_fail|]. by intros t2 r [-> ->].
    + eapply emits_mono; [apply emits_fail|]. by intros t2 r [-> ->].
  - destruct (status_is _ _); [eapply emits_mono; [apply emits_ret|]|eapply emits_mono; [apply emits_fail|]]; by intros t2 r [-> ->].
Qed.

Lemma emits_clock : emits (clock (on_env now)) (λ t r, t = [] ∧ ∃ e, r = Ok (now e).1).
Proof.
  intros w. exists []. unfold clock, on_env. destruct (now (tw_env w)) as [x e] eqn:Hn. simpl. rewrite app_nil_r.
  split; [done|]. split; [done|]. exists (tw_env w). by rewrite Hn.
Qed.
(** An error and no further call *)
Lemma emits_refuse {A} e (P : list exchange → result A → Prop) : P [] (Err e) → emits (fail e : M W A) P.
Proof. intros HP. eapply emits_mono; [apply emits_fail|]. by intros t r [-> ->]. Qed.

(** C25: a link goes to its owner only. When [SubscriptionLink] returns a link, control-plane has answered,
    during this very call, that the sender's account is active, that its linked subscription belongs to it
    and grants access at the time of the call, and the link is the one control-plane issued for that
    subscription. *)
Theorem SubscriptionLink_entitled sender :
  emits (SubscriptionLink recorded_Do (on_env wait) (on_env now) dec publicSubBase sender) (λ t r, ∀ lk, r = Ok lk →
    ∃ user sub link e, known sender t user ∧ u_Status user = UserStatusActive ∧
      asked (subscription_request (s_ID sub)) (dc_subscription dec) [200] t sub ∧
      u_SubscriptionID user = Some (s_ID sub) ∧ s_UserID sub = u_ID user ∧ eligible sub (now e).1 = true ∧
      asked (link_request (s_ID sub)) (dc_link dec) [200; 201] t link ∧
      dl_SubscriptionID link = s_ID sub ∧ dl_Token link ≠ "" ∧
      lk_SubscriptionURL lk = publicSubBase +:+ "/sub/" +:+ PathEscape (dl_Token link)).
Proof.
  eapply emits_then; [apply emits_ensureUser| |by intros]. intros t1 user (_ & _ & Hk). specialize (Hk user eq_refl).
  destruct (one_of _ _); [by apply emits_refuse|]. destruct (u_SubscriptionID user) as [id|] eqn:Hid; [|by apply emits_refuse].
  destruct (bool_decide_reflect (u_Status user = UserStatusActive)) as [Hact|]; cbn [negb orb]; [|by apply emits_refuse].
  destruct (bool_decide (id = "")); [by apply emits_refuse|].
  eapply emits_then; [apply emits_subscription| |by intros]. intros t2 [sub|] Hsub; [|by apply emits_refuse].
  destruct (Hsub sub eq_refl) as (Hasked & <- & Hown).
  eapply emits_then; [apply emits_clock| |by intros]. intros t3 time (-> & e & [= ->]).
  destruct (eligible sub (now e).1) eqn:Hel; cbn [negb]; [|by apply emits_refuse].
  eapply emits_then; [apply emits_doJSON| |by intros]. intros t4 link (_ & _ & Hlink).
  case_bool_decide as Htok; cbn [orb]; [by apply emits_refuse|]. case_bool_decide as Hls; cbn [negb]; [|by apply emits_refuse].
  eapply emits_mono; [apply emits_ret|]. intros t5 r [-> ->] lk [= <-]. exists user, sub, link, e.
  rewrite !app_nil_r, app_nil_l. split_and!; try done.
  - destruct Hk as (Hk & ? & ?). by split; [apply asked_app_l|].
  - apply asked_app_r. by apply asked_app_l.
  - do 2 apply asked_app_r. by apply Hlink.
Qed.

(** Asking for an invoice: at most three attempts to learn the account and three of one and the same request
    under the key of the update, whatever is answered. *)
Theorem CreateInvoice_one_key sender updateID plan currency :
  emits (CreateInvoice recorded_Do (on_env wait) dec sender updateID plan currency) (λ t r, ∃ t1 t2, t = t1 ++ t2 ∧
    (length t1 <= 3)%nat ∧ (length t2 <= 3)%nat ∧ Forall (λ c, c.1 = ensure_request sender) t1 ∧
    (t2 = [] ∨ ∃ user, known sender t1 user ∧ Forall (λ c, c.1 = invoice_request (u_ID user) updateID plan currency) t2)).
Proof.
  eapply emits_then; [apply emits_ensureUser| |intros t e (? & ? & _); exists t, []; rewrite app_nil_r; split_and!; simpl; (done || lia || by left)].
  intros t1 user (Hl & Hf & Hk). specialize (Hk user eq_refl).
  eapply emits_then; [apply emits_try, emits_doJSON| |by intros t e (? & ? & _)].
  intros t2 r (r0 & [= <-] & (Hl2 & Hf2 & _)).
  assert (∀ (m : M W BotInvoice), emits m (λ t _, t = []) → emits m (λ t3 r0, ∃ u1 u2, t1 ++ t2 ++ t3 = u1 ++ u2 ∧
    (length u1 <= 3)%nat ∧ (length u2 <= 3)%nat ∧ Forall (λ c, c.1 = ensure_request sender) u1 ∧
    (u2 = [] ∨ ∃ user, known sender u1 user ∧ Forall (λ c, c.1 = invoice_request (u_ID user) updateID plan currency) u2))) as Hquiet.
  { intros m Hm. eapply emits_mono; [exact Hm|]. intros t3 r0 ->. exists t1, t2. rewrite app_nil_r. split_and!; [done..|].
    right. by exists user. }
  apply Hquiet. repeat (case_match; try (eapply emits_mono; [apply emits_fail || apply emits_ret|]; by intros t3 r0 [-> _])).
Qed.
End accounts.
