(* ===== verification/DeliveryMessages.v ===== *)
(** * Delivery: the texts of the bot

    services/delivery/internal/channel/telegram/bot.go: parsing of commands and payment arguments, the offers
    on the keyboard, the catalog, the account status and the events a notifier may announce. Case folding of
    runes outside ASCII is a parameter; an offered currency is ASCII, so it only decides which of two commands
    count as repeated. *)
From S2P Require Import Prelude GoBytes GoText GoTime GoFloat GoCodec Contracts DeliveryOnboarding.

Definition nl : string := String (chr 10) EmptyString.
Definition connectButton : string := "Подключиться".
Definition statusButton : string := "Моя подписка".
Definition renewButton : string := "Продлить".
Definition helpButton : string := "Помощь".
Definition planPrefix : string := "Выбрать: ".
Definition mainKeyboard : list (list string) := [[connectButton; statusButton]; [renewButton; helpButton]].
Definition helpText : string := "CasperVPN использует внешнее приложение Happ. Выберите действие в меню." +:+ nl +:+ nl +:+ "Команды: /pay, /status, /get, /help. Старый формат /pay [basic|unlimited] [currency] также работает.".
Definition unknownText : string := "Не понял сообщение. Выберите действие в меню.".
Definition choosePlanText : string := "Выберите тариф и валюту. Цены и срок загружены из текущего каталога.".
Definition emptyCatalogText : string := "Сейчас нет доступных тарифов. Попробуйте позже.".
Definition stalePlanText : string := "Этот вариант уже изменился. Нажмите «Продлить» и выберите актуальный тариф.".
Definition payUsageText : string := "Формат команды: /pay [basic|unlimited] [currency]. Или выберите тариф через «Продлить».".
Definition noSubscriptionText : string := "Доступной подписки пока нет. Проверьте «Моя подписка» или создайте счёт через «Продлить».".
Definition suspendedText : string := "Доступ приостановлен. Ссылка подключения недоступна. Обратитесь в поддержку.".
Definition rateLimitText : string := "Слишком много запросов. Подождите немного и повторите.".
Definition unsupportedText : string := "Выбранная валюта или тариф больше не поддерживается. Откройте «Продлить» и выберите новый вариант.".
Definition tempErrorText : string := "Сервис временно недоступен. Попробуйте ещё раз позже.".

(** ** strings.Fields, strings.ToLower *)
Fixpoint split_fields (fuel : nat) (cur l : list Z) : list (list Z) :=
  let flush rest := if Nat.eqb (length cur) 0 then rest else cur :: rest in
  match fuel, l with
  | O, _ | _, [] => flush []
  | S f, b :: l' =>
      match list_find (λ p, starts_with p l = true) spaces with
      | Some (_, p) => flush (split_fields f [] (drop (length p) l))
      | None => split_fields f (cur ++ [b]) l'
      end
  end.
Definition Fields (s : string) : list string := string_of_bytes <$> split_fields (length (bytes_of s)) [] (bytes_of s).
(** [^[A-Z0-9_]{2,16}$] *)
Definition currencyPattern (s : string) : bool :=
  (2 <=? String.length s)%nat && (String.length s <=? 16)%nat &&
  forallb (λ b, ((65 <=? b) && (b <=? 90)) || ((48 <=? b) && (b <=? 57)) || (b =? 95)) (bytes_of s).

(** [time.Format("02.01.2006 15:04 UTC")] of the UTC time, for a year of four digits *)
Definition formatTime (t : Time) : string :=
  let c := civil_of t in
  digits 2 (day c) +:+ "." +:+ digits 2 (month c) +:+ "." +:+ digits 4 (year c) +:+ " " +:+
  digits 2 (hour c) +:+ ":" +:+ digits 2 (minute c) +:+ " UTC".
Definition planName (plan : string) : string :=
  if bool_decide (plan = SubscriptionPlanBasic) then "Базовый"
  else if bool_decide (plan = SubscriptionPlanUnlimited) then "Безлимитный" else "Тариф".
(** [time.Duration(seconds) * time.Second] wraps. *)
Definition durationLabel (seconds : Z) : string :=
  let d := wrap64 (seconds * Second) in
  if Z.rem d (24 * Hour) =? 0 then itoa (Z.quot d (24 * Hour)) +:+ " дн."
  else if Z.rem d Hour =? 0 then itoa (Z.quot d Hour) +:+ " ч."
  else itoa (Z.quot d Minute) +:+ " мин.".

Section messages.
Context `{ord : !MapOrder} `{SS : !SortSlice}.
(** The lower case of a rune outside ASCII, by its bytes *)
Context (lower_rune : list Z → list Z).
Fixpoint lower_runes (fuel : nat) (l : list Z) : list Z :=
  match fuel, l with
  | O, _ | _, [] => []
  | S f, b :: l' =>
      if b <? 128 then (if (65 <=? b) && (b <=? 90) then b + 32 else b) :: lower_runes f l'
      else match utf8_size l with
           | O => [239; 191; 189] ++ lower_runes f l'
           | n => lower_rune (take n l) ++ lower_runes f (drop n l)
           end
  end.
Definition strings_ToLower (s : string) : string := string_of_bytes (lower_runes (length (bytes_of s)) (bytes_of s)).

(** The first word in lower case, without the mention of a bot *)
Definition command (text : string) : string :=
  match Fields (TrimSpace text) with
  | [] => ""
  | w :: _ =>
      let cmd := bytes_of (strings_ToLower w) in
      match list_find (λ b, b = 64) cmd with
      | Some (S i, _) => string_of_bytes (take (S i) cmd)
      | _ => string_of_bytes cmd
      end
  end.
Definition paymentArgs (defaultPlan defaultCurrency text : string) : option (string * string) :=
  let fields := Fields (TrimSpace text) in
  if (3 <? length fields)%nat then None
  else
    let plan := match fields with _ :: p :: _ => strings_ToLower p | _ => defaultPlan end in
    let currency := match fields with [_; _; c] => ToUpper c | _ => defaultCurrency end in
    if SubscriptionPlan_Valid plan && currencyPattern currency then Some (plan, currency) else None.

(** ** Offers *)
Record catalogButton := { cb_label : string; cb_plan : string; cb_currency : string }.
(** The currencies that may be offered, with their prices: of two spellings of one currency the later in the
    iteration sets the price, and both are listed. *)
Definition offered (prices : gmap string string) : list string * gmap string string :=
  foldl (λ acc kv,
    let currency := ToUpper (TrimSpace kv.1) in
    if currencyPattern currency && negb (bool_decide (TrimSpace kv.2 = ""))
    then (acc.1 ++ [currency], <[currency := TrimSpace kv.2]> acc.2) else acc) ([], ∅) (range prices).
Definition plan_buttons (p : BotPlan) : list catalogButton :=
  if negb (SubscriptionPlan_Valid (bp_ID p)) || (bp_DurationSeconds p <=? 0) then []
  else
    let '(currencies, prices) := offered (bp_Prices p) in
    (λ c, {| cb_label := planPrefix +:+ planName (bp_ID p) +:+ ", " +:+ durationLabel (bp_DurationSeconds p) +:+ ": "
                         +:+ default "" (prices !! c) +:+ " " +:+ c;
             cb_plan := bp_ID p; cb_currency := c |}) <$> sort_slice str_lt currencies.
Definition catalogButtons (plans : list BotPlan) : list catalogButton :=
  sort_Slice (λ x y, str_lt (cb_label x) (cb_label y)) (concat (plan_buttons <$> plans)).

Definition catalog_lines (p : BotPlan) : list string :=
  if negb (SubscriptionPlan_Valid (bp_ID p)) || (bp_DurationSeconds p <=? 0) then []
  else
    let grace := if 0 <? bp_GraceSeconds p then "льготный период " +:+ durationLabel (bp_GraceSeconds p) else "без льготного периода" in
    let '(currencies, prices) := offered (bp_Prices p) in
    [""; planName (bp_ID p) +:+ ": " +:+ durationLabel (bp_DurationSeconds p) +:+ ", " +:+ grace]
    ++ ((λ c, default "" (prices !! c) +:+ " " +:+ c) <$> sort_slice str_lt currencies).
Definition renderCatalog (plans : list BotPlan) : string :=
  join nl (choosePlanText :: concat (catalog_lines <$> sort_Slice (λ x y, str_lt (bp_ID x) (bp_ID y)) plans)).

(** ** The account status *)
Definition subscriptionEnded (sub : option Subscription) (t : Time) : bool :=
  match sub with
  | None => false
  | Some sub =>
      one_of (s_Status sub) [SubscriptionStatusExpired; SubscriptionStatusCanceled] ||
      match AccessUntil sub with None => false | Some until => negb (After until t) end
  end.
Definition invoiceStatusLine (invoice : LatestInvoice) (eligible ended blocked : bool) : string :=
  if bool_decide (li_Status invoice = "pending") then "Платёж: ожидает подтверждения."
  else if bool_decide (li_Status invoice = "settled") then
    if eligible then "Платёж: подтверждён."
    else if blocked then "Платёж: подтверждён. Доступ ограничен состоянием аккаунта."
    else if ended then "Платёж был подтверждён, но срок доступа закончился. Продлите подписку."
    else "Платёж подтверждён, доступ пока активируется."
  else if bool_decide (li_Status invoice = "expired") then "Платёж: срок счёта истёк. Создайте новый счёт."
  else if bool_decide (li_Status invoice = "invalid") then "Платёж: счёт недействителен. Создайте новый счёт."
  else "Платёж: неизвестное состояние. Обновите статус позже.".
Definition renderStatus (status : AccountStatus) (t : Time) : string :=
  let user := as_UserStatus status in
  let blocked := one_of user [UserStatusSuspended; UserStatusBanned] in
  let account := if bool_decide (user = UserStatusSuspended) then ["Доступ приостановлен. Обратитесь в поддержку."]
                 else if bool_decide (user = UserStatusBanned) then ["Доступ заблокирован."]
                 else if bool_decide (user = UserStatusExpired) then ["Активной подписки нет."] else [] in
  let ended := bool_decide (user = UserStatusExpired) || subscriptionEnded (as_Subscription status) t in
  let invoice := match as_Invoice status with
                 | None => []
                 | Some i => [invoiceStatusLine i (as_Eligible status) ended blocked]
                 end in
  let rest := match as_Subscription status with
    | None => ["Подписки пока нет."]
    | Some sub =>
        ["Тариф: " +:+ planName (s_Plan sub)]
        ++ (match s_ExpiresAt sub with None => [] | Some e => ["Оплачено до: " +:+ formatTime e] end)
        ++ (match s_GraceUntil sub with
            | None => []
            | Some g => if match s_ExpiresAt sub with None => true | Some e => After g e end
                        then ["Льготный период до: " +:+ formatTime g] else []
            end)
        ++ [if as_Eligible status then "Доступ активен."
            else if ended then "Срок доступа закончился. Откройте «Продлить»."
            else "Доступ пока не активирован. Проверьте статус позже."]
    end in
  join nl ("Состояние аккаунта" :: account ++ invoice ++ rest).

(** ** Notifications (notifier.go) *)
Record Notification := { nt_EventKey : string; nt_Kind : string; nt_Text : string }.
Definition notificationEvents (status : AccountStatus) (t : Time) (window : Duration) : list Notification :=
  match as_Subscription status with
  | None => []
  | Some sub =>
      if negb (bool_decide (as_UserStatus status = UserStatusActive)) || negb (as_Eligible status) then []
      else
        (match as_Invoice status with
         | Some i => if bool_decide (li_Status i = "settled")
                     then [{| nt_EventKey := "activation:" +:+ li_ID i +:+ ":" +:+ s_ID sub; nt_Kind := "activation";
                              nt_Text := "Оплата подтверждена, и доступ уже активирован. Откройте «Подключиться», чтобы получить персональную ссылку." |}]
                     else []
         | None => []
         end) ++
        match s_ExpiresAt sub with
        | None => []
        | Some e =>
            if After e t && negb (After e (Add t window)) then
              [{| nt_EventKey := "expiry:" +:+ s_ID sub +:+ ":" +:+ itoa (Unix e); nt_Kind := "expiry";
                  nt_Text := "Подписка действует до " +:+ formatTime e +:+ ". Для продления откройте «Продлить»." |}]
            else if After e t then []
            else match s_GraceUntil sub with
                 | None => []
                 | Some g =>
                     if After g t && negb (After g (Add t window)) then
                       [{| nt_EventKey := "grace:" +:+ s_ID sub +:+ ":" +:+ itoa (Unix g); nt_Kind := "grace";
                           nt_Text := "Льготный период закончится " +:+ formatTime g +:+ ". Продлите подписку, чтобы не потерять доступ." |}]
                     else []
                 end
        end
  end.
End messages.

Example fields_split : Fields " /pay  basic	BTC " = ["/pay"; "basic"; "BTC"].
Proof. vm_compute. reflexivity. Qed.
Example command_mention : command (λ r, r) "/Start@casper_bot now" = "/start".
Proof. vm_compute. reflexivity. Qed.
Example month_label : durationLabel 2592000 = "30 дн.".
Proof. vm_compute. reflexivity. Qed.
Example format_launch : formatTime (63922898645 * Second) = "21.08.2026 08:44 UTC".
Proof. vm_compute. reflexivity. Qed.
