(* ===== verification/DeliveryBot.v ===== *)
(** * Delivery: the bot, its poller and the notifier

    services/delivery/internal/channel/telegram: the per-user limiter (ratelimit.go), the handler of one update
    (bot.go), one round of the long poll (poller.go) and one run of the notifier (notifier.go). The messenger
    API, the onboarding service, the stores and the clock are interfaces over the environment [E]. *)
From S2P Require Import Prelude GoBytes GoText GoFloat GoCodec GoTrace Contracts DeliveryOnboarding DeliveryMessages.

(** ** ratelimit.go *)
Record userState := { us_tokens : float64; us_lastSeen : Time; us_lastCmd : string; us_lastCmdT : Time; us_lastUpdateID : Z }.
Record limiter := { lm_ratePerSec : float64; lm_burst : float64; lm_cooldown : Duration; lm_ttl : Duration }.
Definition newLimiter (ratePerSec burst : Z) (cooldown : Duration) : limiter :=
  {| lm_ratePerSec := of_int ratePerSec; lm_burst := of_int burst; lm_cooldown := cooldown; lm_ttl := 30 * Minute |}.
Definition limiter_evict (l : limiter) (now : Time) (m : gmap Z userState) : gmap Z userState :=
  filter (λ kv, (lm_ttl l <? Sub now (us_lastSeen kv.2)) = false) m.
Definition refill_user (l : limiter) (now : Time) (s : userState) : userState :=
  let elapsed := Seconds (Sub now (us_lastSeen s)) in
  if flt (of_int 0) elapsed then
    let t := fadd (us_tokens s) (fmul elapsed (lm_ratePerSec l)) in
    {| us_tokens := if flt (lm_burst l) t then lm_burst l else t; us_lastSeen := now; us_lastCmd := us_lastCmd s;
       us_lastCmdT := us_lastCmdT s; us_lastUpdateID := us_lastUpdateID s |}
  else s.
Definition limiter_allow (l : limiter) (userID : Z) (cmd : string) (updateID : Z) (now : Time) (m : gmap Z userState)
    : bool * gmap Z userState :=
  let fresh := {| us_tokens := lm_burst l; us_lastSeen := now; us_lastCmd := ""; us_lastCmdT := zero_time; us_lastUpdateID := 0 |} in
  let s := default fresh (m !! userID) in
  if (0 <? updateID) && (updateID =? us_lastUpdateID s) then
    (true, <[userID := {| us_tokens := us_tokens s; us_lastSeen := now; us_lastCmd := us_lastCmd s;
                          us_lastCmdT := us_lastCmdT s; us_lastUpdateID := us_lastUpdateID s |}]> m)
  else
    let s := refill_user l now s in
    if negb (bool_decide (cmd = "")) && bool_decide (cmd = us_lastCmd s) && (Sub now (us_lastCmdT s) <? lm_cooldown l)
    then (false, limiter_evict l now (<[userID := s]> m))
    else if flt (us_tokens s) (of_int 1) then (false, limiter_evict l now (<[userID := s]> m))
    else (true, limiter_evict l now (<[userID := {| us_tokens := fsub (us_tokens s) (of_int 1); us_lastSeen := us_lastSeen s;
                                                     us_lastCmd := cmd; us_lastCmdT := now; us_lastUpdateID := updateID |}]> m)).

(** ** bot.go *)
Record Update := { up_UpdateID : Z; up_ChatID : Z; up_ChatType : string; up_UserID : Z; up_Text : string }.
Record Message := { ms_Text : string; ms_ReplyKeyboard : list (list string) }.
(** [bs_SendMessage] is absent when the API cannot send keyboards. *)
Record BotServices (E : Type) := {
  bs_Send : Z → string → M E unit;
  bs_SendMessage : option (Z → Message → M E unit);
  bs_EnsureUser : Z → M E unit;
  bs_Catalog : M E (list BotPlan);
  bs_CreateInvoice : Z → Z → string → string → M E BotInvoice;
  bs_Status : Z → M E AccountStatus;
  bs_SubscriptionLink : Z → M E Link;
  bs_RecordUser : option (Z → M E unit);
  bs_Now : E → Time * E }.
Arguments bs_Send {E}. Arguments bs_SendMessage {E}. Arguments bs_EnsureUser {E}. Arguments bs_Catalog {E}.
Arguments bs_CreateInvoice {E}. Arguments bs_Status {E}. Arguments bs_SubscriptionLink {E}. Arguments bs_RecordUser {E}.
Arguments bs_Now {E}.
Record BotConfig := {
  bc_RatePerSec : Z; bc_Burst : Z; bc_Cooldown : Duration; bc_DefaultPlan : string; bc_DefaultCurrency : string;
  bc_SetupURL : string; bc_SupportURL : string }.
Record Bot := { bt_lim : limiter; bt_plan : string; bt_currency : string; bt_setupURL : string; bt_supportURL : string }.
Definition NewBot (cfg : BotConfig) : result Bot :=
  let rate := if bc_RatePerSec cfg <=? 0 then 1 else bc_RatePerSec cfg in
  let burst := if bc_Burst cfg <=? 0 then 5 else bc_Burst cfg in
  let cooldown := if bc_Cooldown cfg <=? 0 then 3 * Second else bc_Cooldown cfg in
  let plan := if SubscriptionPlan_Valid (bc_DefaultPlan cfg) then bc_DefaultPlan cfg else SubscriptionPlanBasic in
  let currency := ToUpper (TrimSpace (bc_DefaultCurrency cfg)) in
  if negb (currencyPattern currency) then Err (Errorf "telegram: default currency is invalid")
  else Ok {| bt_lim := newLimiter rate burst cooldown; bt_plan := plan; bt_currency := currency;
             bt_setupURL := TrimSpace (bc_SetupURL cfg); bt_supportURL := TrimSpace (bc_SupportURL cfg) |}.

Section bot.
Context `{ord : !MapOrder} `{SS : !SortSlice} {E : Type} (lower_rune : list Z → list Z) (b : Bot).
(** The bot's state: its limiter's buckets, beside the environment. *)
Abbreviation BM := (M (gmap Z userState * E)).
Definition outside {A} (m : M E A) : BM A := λ s, let '(r, e) := m s.2 in (r, (s.1, e)).

Section handler.
Context (svc : BotServices E).
Definition read_clock : BM Time := outside (λ e, let '(t, e) := bs_Now svc e in (Ok t, e)).
Definition allow (userID : Z) (cmd : string) (updateID : Z) : BM bool :=
  t ←! read_clock ; λ s, let '(ok, m) := limiter_allow (bt_lim b) userID cmd updateID t s.1 in (Ok ok, (m, s.2)).
Definition send (chatID : Z) (m : Message) : BM unit :=
  outside (match bs_SendMessage svc with Some f => f chatID m | None => bs_Send svc chatID (ms_Text m) end).
Definition sendMenu (chatID : Z) (text : string) : BM unit := send chatID {| ms_Text := text; ms_ReplyKeyboard := mainKeyboard |}.
Definition sendKnownError (chatID : Z) (e : error) : BM unit :=
  sendMenu chatID (if errors_is e ErrRateLimited then rateLimitText
                   else if errors_is e ErrUnsupportedCatalog then unsupportedText else tempErrorText).
Definition sendPlans (chatID : Z) : BM unit :=
  plans ←! try (outside (bs_Catalog svc)) ;
  match plans with
  | Err e => sendKnownError chatID e
  | Ok plans =>
      let buttons := catalogButtons plans in
      if Nat.eqb (length buttons) 0 then sendMenu chatID emptyCatalogText
      else send chatID {| ms_Text := renderCatalog plans;
                          ms_ReplyKeyboard := ((λ x, [cb_label x]) <$> buttons) ++ mainKeyboard |}
  end.
Definition invoiceText (i : BotInvoice) : string :=
  let target := if bool_decide (bi_CheckoutURL i = "") then bi_PayAddress i else bi_CheckoutURL i in
  "Счёт " +:+ bi_ID i +:+ nl +:+ "Сумма: " +:+ bi_Amount i +:+ " " +:+ bi_Currency i +:+ nl +:+ "Оплата: " +:+ target +:+ nl +:+
  "Счёт действует до: " +:+ formatTime (bi_ExpiresAt i) +:+ nl +:+ nl +:+ "После подтверждения проверьте «Моя подписка».".
Definition createAndSendInvoice (u : Update) (plan currency : string) : BM unit :=
  invoice ←! try (outside (bs_CreateInvoice svc (up_UserID u) (up_UpdateID u) plan currency)) ;
  match invoice with
  | Err e => sendKnownError (up_ChatID u) e
  | Ok i => sendMenu (up_ChatID u) (invoiceText i)
  end.
Definition sendSelectedInvoice (u : Update) : BM unit :=
  plans ←! try (outside (bs_Catalog svc)) ;
  match plans with
  | Err e => sendKnownError (up_ChatID u) e
  | Ok plans =>
      match list_find (λ x, up_Text u = cb_label x) (catalogButtons plans) with
      | Some (_, x) => createAndSendInvoice u (cb_plan x) (cb_currency x)
      | None => sendMenu (up_ChatID u) stalePlanText
      end
  end.
Definition sendInvoiceCommand (u : Update) : BM unit :=
  match paymentArgs lower_rune (bt_plan b) (bt_currency b) (up_Text u) with
  | None => sendMenu (up_ChatID u) payUsageText
  | Some (plan, currency) => createAndSendInvoice u plan currency
  end.
(** The texts read the clock of the machine; it is the clock of [svc]. *)
Definition sendStatus (u : Update) : BM unit :=
  status ←! try (outside (bs_Status svc (up_UserID u))) ;
  match status with
  | Err e => sendKnownError (up_ChatID u) e
  | Ok status => t ←! read_clock ; sendMenu (up_ChatID u) (renderStatus status t)
  end.
Definition linkText (l : Link) : string :=
  "Ваша персональная ссылка подписки:" +:+ nl +:+ lk_SubscriptionURL l +:+ nl +:+ nl +:+ "Как подключить:" +:+ nl +:+
  "1. Установите Happ на устройство." +:+ nl +:+ "2. Добавьте подписку по ссылке ниже." +:+ nl +:+
  "3. Обновите подписку в приложении и выберите доступный сервер." +:+
  (if bool_decide (lk_HappDeepLink l = "") then "" else nl +:+ nl +:+ "Импорт в Happ:" +:+ nl +:+ lk_HappDeepLink l) +:+
  (if bool_decide (bt_setupURL b = "") then "" else nl +:+ nl +:+ "Инструкция для устройств:" +:+ nl +:+ bt_setupURL b) +:+
  (if bool_decide (bt_supportURL b = "") then "" else nl +:+ nl +:+ "Поддержка:" +:+ nl +:+ bt_supportURL b).
Definition sendSubscription (u : Update) : BM unit :=
  link ←! try (outside (bs_SubscriptionLink svc (up_UserID u))) ;
  match link with
  | Err e =>
      if errors_is e ErrAccountSuspended then sendMenu (up_ChatID u) suspendedText
      else if errors_is e ErrNoSubscription || errors_is e ErrNotEligible then sendMenu (up_ChatID u) noSubscriptionText
      else sendKnownError (up_ChatID u) e
  | Ok l => sendMenu (up_ChatID u) (linkText l)
  end.

(** The switch over commands and buttons *)
Definition dispatch (u : Update) (cmd text : string) : BM unit :=
  if bool_decide (cmd = "/start") || bool_decide (cmd = "/help") || bool_decide (text = helpButton) then
    r ←! try (outside (bs_EnsureUser svc (up_UserID u))) ;
    match r with Err e => sendKnownError (up_ChatID u) e | Ok _ => sendMenu (up_ChatID u) helpText end
  else if bool_decide (cmd = "/status") || bool_decide (text = statusButton) then sendStatus u
  else if bool_decide (cmd = "/pay") && Nat.eqb (length (Fields text)) 1 then sendPlans (up_ChatID u)
  else if bool_decide (cmd = "/pay") then sendInvoiceCommand u
  else if bool_decide (text = renewButton) then sendPlans (up_ChatID u)
  else if one_of cmd ["/get"; "/sub"; "/subscription"] || bool_decide (text = connectButton) then sendSubscription u
  else if HasPrefix text planPrefix then sendSelectedInvoice u
  else sendMenu (up_ChatID u) unknownText.
Definition record_user (id : Z) : BM unit :=
  match bs_RecordUser svc with Some f => outside (f id) | None => mret tt end.
Definition HandleUpdate (u : Update) : BM unit :=
  if negb (bool_decide (up_ChatType u = "private")) || (up_UserID u <=? 0) || negb (up_ChatID u =? up_UserID u) then mret tt
  else
    record_user (up_UserID u) ;;!
    let cmd := command lower_rune (up_Text u) in
    ok ←! allow (up_UserID u) cmd (up_UpdateID u) ;
    if negb ok then mret tt else dispatch u cmd (up_Text u).
End handler.
End bot.

(** ** poller.go: one round of the long poll, its calls recorded *)
Record PollServices (E : Type) := {
  ps_GetUpdates : Z → M E (list Update);
  ps_HandleUpdate : Update → M E unit;
  ps_Begin : Z → M E bool;
  ps_Complete : Z → M E unit }.
Arguments ps_GetUpdates {E}. Arguments ps_HandleUpdate {E}. Arguments ps_Begin {E}. Arguments ps_Complete {E}.
Inductive poll_event :=
| PGet (offset : Z) (r : result (list Update))
| PBegin (id : Z) (r : option bool)
| PHandle (u : Update) (ok : bool)
| PComplete (id : Z) (ok : bool).

Section poller.
Context `{SS : !SortSlice} {E : Type} (svc : PollServices E).
Abbreviation PM := (M (Traced E poll_event)).
Definition Begin (id : Z) : PM bool :=
  call (λ r, PBegin id (match r with Ok b => Some b | Err _ => None end)) (ps_Begin svc id).
Definition Handle (u : Update) : PM unit := call (λ r, PHandle u (is_ok r)) (ps_HandleUpdate svc u).
Definition Complete (id : Z) : PM unit := call (λ r, PComplete id (is_ok r)) (ps_Complete svc id).
(** The sorted batch from a cursor: the new cursor, and whether to retry *)
Fixpoint poll_batch (updates : list Update) (cursor : Z) : PM (Z * bool) :=
  match updates with
  | [] => mret (cursor, false)
  | u :: updates' =>
      if up_UpdateID u <=? cursor then poll_batch updates' cursor
      else
        process ←! try (Begin (up_UpdateID u)) ;
        match process with
        | Err _ => mret (cursor, true)
        | Ok process =>
            handled ←! try (if process : bool then Handle u else mret tt) ;
            match handled with
            | Err _ => mret (cursor, true)
            | Ok _ =>
                completed ←! try (Complete (up_UpdateID u)) ;
                match completed with
                | Err _ => mret (cursor, true)
                | Ok _ => poll_batch updates' (up_UpdateID u)
                end
            end
        end
  end.
Definition poll_round (cursor : Z) : PM (Z * bool) :=
  updates ←! try (call (PGet (cursor + 1)) (ps_GetUpdates svc (cursor + 1))) ;
  match updates with
  | Err _ => mret (cursor, true)
  | Ok updates => poll_batch (sort_Slice (λ x y, up_UpdateID x <? up_UpdateID y) updates) cursor
  end.
End poller.

(** ** notifier.go: one run, its calls recorded; [CompareAndSwap] keeps runs apart. *)
Record NotifyServices (E : Type) := {
  ns_Users : Z → M E (list Z);
  ns_Status : Z → M E AccountStatus;
  ns_Reconcile : Z → list Notification → bool → M E unit;
  ns_Pending : Z → Z → M E (list Notification);
  ns_Send : Z → string → M E unit;
  ns_Mark : Z → string → M E unit;
  ns_Now : E → Time * E }.
Arguments ns_Users {E}. Arguments ns_Status {E}. Arguments ns_Reconcile {E}. Arguments ns_Pending {E}.
Arguments ns_Send {E}. Arguments ns_Mark {E}. Arguments ns_Now {E}.
Inductive notify_event :=
| NStatus (user : Z) (r : result AccountStatus)
| NReconcile (user : Z) (current : list Notification) (allowActivation ok : bool)
| NPending (user : Z) (r : result (list Notification))
| NSend (user : Z) (text : string) (ok : bool)
| NMark (user : Z) (key : string) (ok : bool).

Section notifier.
Context {E : Type} (svc : NotifyServices E) (window : Duration) (batchSize : Z).
Abbreviation NM := (M (Traced E notify_event)).
(** The pending notifications of one user; the errors are collected. *)
Fixpoint deliver_pending (user : Z) (pending : list Notification) (errs : list error) : NM (list error) :=
  match pending with
  | [] => mret errs
  | n :: pending' =>
      sent ←! try (call (λ r, NSend user (nt_Text n) (is_ok r)) (ns_Send svc user (nt_Text n))) ;
      match sent with
      | Err e => deliver_pending user pending' (errs ++ [wrap_err "send notification" e])
      | Ok _ =>
          marked ←! try (call (λ r, NMark user (nt_EventKey n) (is_ok r)) (ns_Mark svc user (nt_EventKey n))) ;
          deliver_pending user pending' (match marked with Err e => errs ++ [wrap_err "mark notification" e] | Ok _ => errs end)
      end
  end.
Fixpoint notify_users (users : list Z) (errs : list error) : NM (list error) :=
  match users with
  | [] => mret errs
  | user :: users' =>
      status ←! try (call (NStatus user) (ns_Status svc user)) ;
      match status with
      | Err e => notify_users users' (errs ++ [wrap_err "status" e])
      | Ok status =>
          t ←! reading (ns_Now svc) ;
          let current := notificationEvents status t window in
          let allowActivation := bool_decide (as_UserStatus status = UserStatusActive) && as_Eligible status in
          reconciled ←! try (call (λ r, NReconcile user current allowActivation (is_ok r)) (ns_Reconcile svc user current allowActivation)) ;
          match reconciled with
          | Err e => notify_users users' (errs ++ [wrap_err "reconcile notifications" e])
          | Ok _ =>
              pending ←! try (call (NPending user) (ns_Pending svc user batchSize)) ;
              match pending with
              | Err e => notify_users users' (errs ++ [wrap_err "read notifications" e])
              | Ok pending => errs ←! deliver_pending user pending errs ; notify_users users' errs
              end
          end
      end
  end.
(** [errors.Join]: nil exactly when there is no error *)
Definition RunOnce (running : bool) : NM (list error) := λ w,
  if running then (Ok [], w)
  else let '(r, e) := ns_Users svc batchSize (tw_env w) in
       match r with
       | Err err => (Err err, mkTraced e (tw_trace w))
       | Ok users => notify_users users [] (mkTraced e (tw_trace w))
       end.
End notifier.
