(* ===== verification/DeliveryMessenger.v ===== *)
(** * Delivery: what the bot, its poller and the notifier guarantee

    An update acts on its sender only; the poller's cursor passes an update only when it has been handled and
    recorded; a notification is marked as sent only right after it was sent. *)
From S2P Require Import Prelude GoBytes GoText GoFloat GoCodec GoTrace Contracts DeliveryOnboarding DeliveryMessages DeliveryBot.

(** ** One update, one user *)
Section isolation.
Context `{ord : !MapOrder} `{SS : !SortSlice} {E : Type} (lower_rune : list Z → list Z) (b : Bot).

Lemma offered_pattern prices c : c ∈ (offered prices).1 → currencyPattern c = true.
Proof.
  unfold offered. assert (∀ l acc, (∀ c, c ∈ acc.1 → currencyPattern c = true) → ∀ c, c ∈ (foldl (λ (acc : list string * gmap string string) kv,
    let currency := ToUpper (TrimSpace kv.1) in
    if currencyPattern currency && negb (bool_decide (TrimSpace kv.2 = ""))
    then (acc.1 ++ [currency], <[currency := TrimSpace kv.2]> acc.2) else acc) acc l).1 → currencyPattern c = true) as H.
  { intros l. induction l as [|kv l IH]; intros acc Ha; [done|]. cbn [foldl]. apply IH. cbv zeta.
    destruct (currencyPattern (ToUpper (TrimSpace kv.1))) eqn:Hp; cbn [andb]; [|done]. destruct (negb _); [|done].
    intros c'. cbn [fst]. rewrite elem_of_app, list_elem_of_singleton. intros [?| ->]; auto. }
  apply (H _ (_, _)). intros c' Hc. by apply elem_of_nil in Hc.
Qed.
Lemma catalogButtons_valid plans x : x ∈ catalogButtons plans → SubscriptionPlan_Valid (cb_plan x) = true ∧ currencyPattern (cb_currency x) = true.
Proof.
  unfold catalogButtons. rewrite sort_Slice_perm. intros Hin. apply list_elem_of_In, in_concat in Hin as (l & Hl & Hx).
  apply list_elem_of_In in Hl, Hx. apply list_elem_of_fmap in Hl as (p & -> & _). unfold plan_buttons in Hx.
  destruct (SubscriptionPlan_Valid (bp_ID p)) eqn:Hv; cbn [negb orb] in Hx; [|by apply elem_of_nil in Hx].
  destruct (_ <=? _); [by apply elem_of_nil in Hx|]. destruct (offered (bp_Prices p)) as [cs prices] eqn:Ho.
  apply list_elem_of_fmap in Hx as (c & -> & Hc). split; [done|]. apply (offered_pattern (bp_Prices p)).
  rewrite Ho. by rewrite elem_of_sort_slice in Hc.
Qed.

(** Two sets of services that agree on what concerns the sender of [u]: messages to the sender's own chat,
    the sender's account, and invoices under this update's number for a valid plan and currency. *)
Record same_for (u : Update) (s1 s2 : BotServices E) : Prop := {
  sf_send : bs_Send s1 (up_UserID u) = bs_Send s2 (up_UserID u);
  sf_message : (λ f, f (up_UserID u)) <$> bs_SendMessage s1 = (λ f, f (up_UserID u)) <$> bs_SendMessage s2;
  sf_ensure : bs_EnsureUser s1 (up_UserID u) = bs_EnsureUser s2 (up_UserID u);
  sf_catalog : bs_Catalog s1 = bs_Catalog s2;
  sf_invoice : ∀ plan currency, SubscriptionPlan_Valid plan = true → currencyPattern currency = true →
    bs_CreateInvoice s1 (up_UserID u) (up_UpdateID u) plan currency = bs_CreateInvoice s2 (up_UserID u) (up_UpdateID u) plan currency;
  sf_status : bs_Status s1 (up_UserID u) = bs_Status s2 (up_UserID u);
  sf_link : bs_SubscriptionLink s1 (up_UserID u) = bs_SubscriptionLink s2 (up_UserID u);
  sf_record : (λ f, f (up_UserID u)) <$> bs_RecordUser s1 = (λ f, f (up_UserID u)) <$> bs_RecordUser s2;
  sf_now : bs_Now s1 = bs_Now s2
}.

Context (u : Update) (s1 s2 : BotServices E) (Hs : same_for u s1 s2).
Abbreviation BM := (M (gmap Z userState * E)).
(** Equal computations *)
Definition agree {A} (m1 m2 : BM A) : Prop := ∀ s, m1 s = m2 s.
Lemma agree_refl {A} (m : BM A) : agree m m.
Proof. done. Qed.
Lemma agree_bind {A B} (m1 m2 : BM A) (f1 f2 : A → BM B) : agree m1 m2 → (∀ a, agree (f1 a) (f2 a)) → agree (m1 ≫= f1) (m2 ≫= f2).
Proof. intros Hm Hf s. unfold mbind, M_bind. rewrite Hm. destruct (m2 s) as [[a|e] s']; [apply Hf|done]. Qed.
Lemma agree_try {A} (m1 m2 : BM A) : agree m1 m2 → agree (try m1) (try m2).
Proof. intros Hm s. unfold try. by rewrite Hm. Qed.
Lemma agree_outside {A} (m1 m2 : M E A) : m1 = m2 → agree (outside m1) (outside m2).
Proof. by intros ->. Qed.

Lemma agree_send m : agree (send s1 (up_UserID u) m) (send s2 (up_UserID u) m).
Proof.
  apply agree_outside. pose proof (sf_message _ _ _ Hs) as Hm. pose proof (sf_send _ _ _ Hs) as H.
  destruct (bs_SendMessage s1), (bs_SendMessage s2); simpl in Hm; congruence.
Qed.
Lemma agree_known e : agree (sendKnownError s1 (up_UserID u) e) (sendKnownError s2 (up_UserID u) e).
Proof. apply agree_send. Qed.
Lemma agree_clock : agree (read_clock s1) (read_clock s2).
Proof. apply agree_outside. by rewrite (sf_now _ _ _ Hs). Qed.
Lemma agree_allow cmd : agree (allow b s1 (up_UserID u) cmd (up_UpdateID u)) (allow b s2 (up_UserID u) cmd (up_UpdateID u)).
Proof. apply agree_bind; [apply agree_clock|done]. Qed.
Lemma agree_plans : agree (sendPlans s1 (up_UserID u)) (sendPlans s2 (up_UserID u)).
Proof.
  apply agree_bind; [apply agree_try, agree_outside, Hs|]. intros [plans|e]; [|apply agree_known].
  cbv zeta. destruct (Nat.eqb (length (catalogButtons plans)) 0); apply agree_send.
Qed.

Hypothesis private : up_ChatID u = up_UserID u.
Lemma agree_create plan currency : SubscriptionPlan_Valid plan = true → currencyPattern currency = true →
  agree (createAndSendInvoice s1 u plan currency) (createAndSendInvoice s2 u plan currency).
Proof.
  intros Hp Hc. unfold createAndSendInvoice. rewrite private.
  apply agree_bind; [apply agree_try, agree_outside; by apply Hs|]. intros [i|e]; [apply agree_send|apply agree_known].
Qed.
Lemma agree_selected : agree (sendSelectedInvoice s1 u) (sendSelectedInvoice s2 u).
Proof.
  unfold sendSelectedInvoice. rewrite private. apply agree_bind; [apply agree_try, agree_outside, Hs|].
  intros [plans|e]; [|apply agree_known]. destruct (list_find _ _) as [[i x]|] eqn:Hf; [|apply agree_send].
  apply list_find_Some in Hf as (Hi & _ & _). apply list_elem_of_lookup_2 in Hi. apply catalogButtons_valid in Hi as [? ?].
  by apply agree_create.
Qed.
Lemma agree_pay : agree (sendInvoiceCommand lower_rune b s1 u) (sendInvoiceCommand lower_rune b s2 u).
Proof.
  unfold sendInvoiceCommand. destruct (paymentArgs _ _ _ _) as [[plan currency]|] eqn:Ha; [|rewrite private; apply agree_send].
  unfold paymentArgs in Ha. destruct (_ <? _)%nat; [done|].
  match type of Ha with (if ?c then _ else _) = _ => destruct c eqn:Hc; [|done] end.
  injection Ha as <- <-. apply andb_true_iff in Hc as [? ?]. by apply agree_create.
Qed.
Lemma agree_status : agree (sendStatus s1 u) (sendStatus s2 u).
Proof.
  unfold sendStatus. rewrite private. apply agree_bind; [apply agree_try, agree_outside, Hs|].
  intros [st|e]; [|apply agree_known]. apply agree_bind; [apply agree_clock|]. intros t. apply agree_send.
Qed.
Lemma agree_link : agree (sendSubscription b s1 u) (sendSubscription b s2 u).
Proof.
  unfold sendSubscription. rewrite private. apply agree_bind; [apply agree_try, agree_outside, Hs|].
  intros [l|e]; [apply agree_send|]. destruct (errors_is _ _); [apply agree_send|].
  destruct (_ || _); [apply agree_send|apply agree_known].
Qed.
Lemma agree_record : agree (record_user s1 (up_UserID u)) (record_user s2 (up_UserID u)).
Proof.
  unfold record_user. pose proof (sf_record _ _ _ Hs) as Hr.
  destruct (bs_RecordUser s1), (bs_RecordUser s2); simpl in Hr; try done. apply agree_outside. congruence.
Qed.
Lemma agree_dispatch cmd text : agree (dispatch lower_rune b s1 u cmd text) (dispatch lower_rune b s2 u cmd text).
Proof.
  unfold dispatch. rewrite private.
  destruct (_ || _ || _); [apply agree_bind; [apply agree_try, agree_outside, Hs|]; intros []; [apply agree_send|apply agree_known]|].
  destruct (_ || _); [apply agree_status|]. destruct (_ && _); [apply agree_plans|].
  destruct (bool_decide _); [apply agree_pay|]. destruct (bool_decide _); [apply agree_plans|].
  destruct (_ || _); [apply agree_link|]. destruct (HasPrefix _ _); [apply agree_selected|apply agree_send].
Qed.
Lemma agree_handled : agree (HandleUpdate lower_rune b s1 u) (HandleUpdate lower_rune b s2 u).
Proof.
  unfold HandleUpdate. destruct (_ || _ || _); [done|].
  apply agree_bind; [apply agree_record|]. intros _. apply agree_bind; [apply agree_allow|]. intros [].
  - apply agree_dispatch.
  - done.
Qed.
End isolation.

(** C26: an update concerns its sender only. Whatever a user writes, the handler's calls and their effects
    depend on nothing but the sender's own account, its own chat, the catalog, the clock and invoices for valid
    offers under this update's number: services that differ in anything else cannot be told apart. Outside a
    private chat with the sender it does nothing at all. *)
Theorem HandleUpdate_isolated `{ord : !MapOrder} `{SS : !SortSlice} {E} lower_rune b u (s1 s2 : BotServices E) s :
  same_for u s1 s2 → HandleUpdate lower_rune b s1 u s = HandleUpdate lower_rune b s2 u s ∧
  (up_ChatType u ≠ "private" ∨ up_ChatID u ≠ up_UserID u → HandleUpdate lower_rune b s1 u s = (Ok tt, s)).
Proof.
  intros Hs. destruct (decide (up_ChatType u = "private")) as [Hc|Hc].
  - destruct (decide (up_ChatID u = up_UserID u)) as [Hp|Hp]; [split; [by apply agree_handled|by intros [?|?]]|].
    unfold HandleUpdate. rewrite (proj2 (Z.eqb_neq _ _) Hp). cbn [negb]. by rewrite orb_true_r.
  - unfold HandleUpdate. by rewrite bool_decide_eq_false_2.
Qed.

(** Two messengers that differ for everyone but user 7 *)
Definition demo_bot : Bot :=
  {| bt_lim := newLimiter 1 5 (3 * Second); bt_plan := SubscriptionPlanBasic; bt_currency := "USD"; bt_setupURL := ""; bt_supportURL := "" |}.
Definition demo_update : Update := {| up_UpdateID := 1; up_ChatID := 7; up_ChatType := "private"; up_UserID := 7; up_Text := "/sub" |}.
Definition demo_services (others : bool) : BotServices (list (Z * string)) :=
  let known {A} (a : A) : Z → M (list (Z * string)) A := λ id e,
    if (id =? 7) || others then (Ok a, e) else (Err (Errorf "no such user"), e) in
  {| bs_Send := λ id text e, if (id =? 7) || others then (Ok tt, (id, text) :: e) else (Ok tt, e);
     bs_SendMessage := None;
     bs_EnsureUser := known tt;
     bs_Catalog := mret [];
     bs_CreateInvoice := λ id _ _ _ e, (Err (Errorf "no invoices"), e);
     bs_Status := λ id e, (Err (Errorf "no status"), e);
     bs_SubscriptionLink := known {| lk_SubscriptionURL := "https://sub/7"; lk_HappDeepLink := "" |};
     bs_RecordUser := Some (known tt);
     bs_Now := λ e, (zero_time, e) |}.
Lemma HandleUpdate_isolated_witness :
  same_for demo_update (demo_services true) (demo_services false) ∧
  HandleUpdate (ord := key_order) (SS := merge_sorting) (λ l, l) demo_bot (demo_services true) demo_update (∅, [])
    = HandleUpdate (ord := key_order) (SS := merge_sorting) (λ l, l) demo_bot (demo_services false) demo_update (∅, []).
Proof.
  assert (same_for demo_update (demo_services true) (demo_services false)) as H by by split.
  split; [exact H|]. exact (proj1 (HandleUpdate_isolated (ord := key_order) (SS := merge_sorting) (λ l, l) demo_bot demo_update _ _ (∅, []) H)).
Defined.

(** ** The poller *)
Section poller.
Context `{SS : !SortSlice} {E : Type} (svc : PollServices E).

(** [id] has been handled (or needed no handling) and then recorded, in the trace [t]. *)
Definition processed (t : list poll_event) (id : Z) : Prop :=
  PComplete id true ∈ t ∧ (PBegin id (Some false) ∈ t ∨ ∃ u, up_UpdateID u = id ∧ PHandle u true ∈ t).
Lemma processed_incl t1 t2 id : t1 ⊆ t2 → processed t1 id → processed t2 id.
Proof. intros Hi [H1 [H2|(u & Hu & H2)]]; (split; [by apply Hi|]); [left; by apply Hi|right; exists u; auto]. Qed.
Lemma processed_app_r t1 t2 id : processed t2 id → processed (t1 ++ t2) id.
Proof. apply processed_incl. intros x ?. apply elem_of_app. auto. Qed.
Lemma processed_app_l t1 t2 id : processed t1 id → processed (t1 ++ t2) id.
Proof. apply processed_incl. intros x ?. apply elem_of_app. auto. Qed.
Definition batch_ok (us : list Update) (cursor : Z) (t : list poll_event) (r : result (Z * bool)) : Prop :=
  ∃ cursor' retry, r = Ok (cursor', retry) ∧ cursor <= cursor' ∧
    (∀ u, u ∈ us → cursor < up_UpdateID u <= cursor' → processed t (up_UpdateID u)) ∧
    (retry = false → ∀ u, u ∈ us → up_UpdateID u <= cursor').
Lemma batch_stop us cursor t : batch_ok us cursor t (Ok (cursor, true)).
Proof. exists cursor, true. split_and!; [done|lia|lia|done]. Qed.
Lemma batch_skip u us cursor t r : up_UpdateID u <= cursor → batch_ok us cursor t r → batch_ok (u :: us) cursor t r.
Proof.
  intros Hle (c' & retry & -> & Hc & Hp & Hr). exists c', retry. split_and!; [done|done| |].
  - intros x [->|Hx]%elem_of_cons Hlt; [lia|by apply Hp].
  - intros Hre x [->|Hx]%elem_of_cons; [lia|by apply Hr].
Qed.
Lemma batch_step u us cursor t1 t2 r :
  Forall (λ x, up_UpdateID u <= up_UpdateID x) us → cursor < up_UpdateID u → processed t1 (up_UpdateID u) →
  batch_ok us (up_UpdateID u) t2 r → batch_ok (u :: us) cursor (t1 ++ t2) r.
Proof.
  rewrite Forall_forall. intros Hle Hlt Hu (c' & retry & -> & Hc & Hp & Hr). exists c', retry. split_and!; [done|lia| |].
  - intros x [->|Hx]%elem_of_cons Hin; [by apply processed_app_l|].
    destruct (decide (up_UpdateID x = up_UpdateID u)) as [->|]; [by apply processed_app_l|].
    apply processed_app_r, Hp; [done|]. specialize (Hle x Hx). lia.
  - intros Hre x [->|Hx]%elem_of_cons; [lia|by apply Hr].
Qed.

Lemma StronglySorted_updates us :
  StronglySorted (λ x y, up_UpdateID x <= up_UpdateID y) (sort_Slice (λ x y, up_UpdateID x <? up_UpdateID y) us).
Proof.
  eapply StronglySorted_weaken; [|apply sort_Slice_sorted, (strict_weak_map up_UpdateID Z.ltb), strict_weak_Zltb].
  intros x y H. unfold not_after in H. by apply Z.ltb_ge in H.
Qed.
Lemma emits_batch us : ∀ cursor, StronglySorted (λ x y, up_UpdateID x <= up_UpdateID y) us →
  emits (poll_batch svc us cursor) (batch_ok us cursor).
Proof.
  induction us as [|u us IH]; intros cursor Hsort; cbn [poll_batch].
  { eapply emits_mono; [apply emits_ret|]. intros t r [-> ->]. exists cursor, false. split_and!; [done|lia| |];
      intros; by match goal with H : _ ∈ [] |- _ => apply elem_of_nil in H end. }
  apply StronglySorted_inv in Hsort as [Hsort Hhd].
  destruct (Z.leb_spec (up_UpdateID u) cursor) as [Hle|Hgt].
  { eapply emits_mono; [apply IH, Hsort|]. intros t r. by apply batch_skip. }
  assert (∀ f, emits (mret (cursor, true) : M (Traced E poll_event) (Z * bool)) (λ t r, batch_ok (u :: us) cursor (f t) r)) as Hstop.
  { intros f. eapply emits_mono; [apply emits_ret|]. intros t r [-> ->]. apply batch_stop. }
  eapply emits_then; [apply emits_try, emits_call| |by intros t e (? & ? & ?)].
  intros t1 began (? & [= <-] & ->). destruct began as [process|e]; [|apply (Hstop (app _))].
  eapply emits_then; [apply emits_try; instantiate (1 := λ t r, r = Ok tt → (process = false ∨ PHandle u true ∈ t))| |by intros t e (? & ? & _)].
  { destruct process; [|eapply emits_mono; [apply emits_ret|]; intros; by left].
    eapply emits_mono; [apply emits_call|]. intros t r -> ->. right. by left. }
  intros t2 handled (? & [= <-] & Hh). destruct handled as [[]|e]; [|apply (Hstop (λ t, _ ++ t2 ++ t))].
  eapply emits_then; [apply emits_try, emits_call| |by intros t e (? & ? & _)].
  intros t3 completed (? & [= <-] & ->). destruct completed as [[]|e]; [|apply (Hstop (λ t, _ ++ t2 ++ _ ++ t))].
  eapply emits_mono; [apply IH, Hsort|]. intros t4 r Hr. rewrite !app_assoc. apply batch_step; [done..| |done].
  split; [rewrite !elem_of_app; right; by left|]. rewrite !elem_of_app.
  destruct (Hh eq_refl) as [->|?]; [left; left; left; by left|right; exists u; rewrite !elem_of_app; auto].
Qed.
Lemma emits_round cursor : emits (poll_round svc cursor) (λ t r, ∃ t' answer cursor' retry,
  t = PGet (cursor + 1) answer :: t' ∧ r = Ok (cursor', retry) ∧ cursor <= cursor' ∧
  match answer with
  | Err _ => cursor' = cursor ∧ retry = true ∧ t' = []
  | Ok us => (∀ u, u ∈ us → cursor < up_UpdateID u <= cursor' → processed t' (up_UpdateID u)) ∧
             (retry = false → ∀ u, u ∈ us → up_UpdateID u <= cursor')
  end).
Proof.
  eapply emits_then; [apply emits_try, emits_call| |by intros t e (? & ? & ?)].
  intros t1 answer (? & [= <-] & ->). destruct answer as [us|e].
  - eapply emits_mono; [apply emits_batch, StronglySorted_updates|]. intros t r (c' & retry & -> & Hc & Hp & Hr).
    exists t, (Ok us), c', retry. split_and!; [done..| |].
    + intros u Hu. apply Hp. by rewrite sort_Slice_perm.
    + intros Hre u Hu. apply Hr; [done|]. by rewrite sort_Slice_perm.
  - eapply emits_mono; [apply emits_ret|]. intros t r [-> ->]. exists [], (Err e), cursor, true. split_and!; (done || lia).
Qed.
End poller.

(** The cursor passes an update only when it has been dealt with. One round asks for what follows the
    cursor, whatever the API, the store and the handler answer. The cursor never goes back; every update of the
    answer it passes was handled without error, or the store said that needs no handling, and was then recorded
    as complete; a round that does not ask for a retry has passed all of them. *)
Theorem poll_at_least_once `{SS : !SortSlice} {E} (svc : PollServices E) cursor w :
  ∃ t answer cursor' retry, tw_trace (poll_round svc cursor w).2 = tw_trace w ++ PGet (cursor + 1) answer :: t ∧
    (poll_round svc cursor w).1 = Ok (cursor', retry) ∧ cursor <= cursor' ∧
    match answer with
    | Err _ => cursor' = cursor ∧ retry = true ∧ t = []
    | Ok us =>
        (∀ u, u ∈ us → cursor < up_UpdateID u <= cursor' → processed t (up_UpdateID u)) ∧
        (retry = false → ∀ u, u ∈ us → up_UpdateID u <= cursor')
    end.
Proof.
  destruct (emits_round svc cursor w) as (t & Ht & t' & answer & cursor' & retry & -> & Hr & Hc).
  by exists t', answer, cursor', retry.
Qed.

(** ** The notifier *)
Section notifier.
Context {E : Type} (svc : NotifyServices E) (window batchSize : Z).

(** What must come just before a call of a run, when [pending user n] says what was to be sent *)
Definition justified (pending : Z → Notification → Prop) (prev : option notify_event) (e : notify_event) : Prop :=
  match e with
  | NStatus _ _ => True
  | NReconcile user current allowActivation _ => ∃ status t, prev = Some (NStatus user (Ok status)) ∧
      current = notificationEvents status t window ∧
      allowActivation = bool_decide (as_UserStatus status = UserStatusActive) && as_Eligible status
  | NPending user _ => ∃ current allowActivation, prev = Some (NReconcile user current allowActivation true)
  | NSend user text _ => ∃ n, text = nt_Text n ∧ pending user n
  | NMark user key _ => ∃ n, prev = Some (NSend user (nt_Text n) true) ∧ key = nt_EventKey n ∧ pending user n
  end.
Lemma justified_start pending p e : justified pending None e → justified pending p e.
Proof. destruct e; simpl; naive_solver. Qed.
Lemma justified_mono (Q Q' : Z → Notification → Prop) p e : (∀ u n, Q u n → Q' u n) → justified Q p e → justified Q' p e.
Proof. intros HQ. destruct e; simpl; naive_solver. Qed.

Lemma emits_deliver user (all : list Notification) : ∀ pending errs, pending ⊆ all →
  emits (deliver_pending svc user pending errs) (λ t r, (∃ errs', r = Ok errs') ∧
    chained (justified (λ u n, u = user ∧ n ∈ all)) None t ∧ (∀ u ps, NPending u ps ∉ t) ∧
    ∀ n, n ∈ pending → ∃ ok, NSend user (nt_Text n) ok ∈ t).
Proof.
  induction pending as [|n pending IH]; intros errs Hin; cbn [deliver_pending].
  { eapply emits_mono; [apply emits_ret|]. intros t r [-> ->]. split_and!; [by eexists|done| |].
    - intros u ps H. by apply elem_of_nil in H.
    - intros n H. by apply elem_of_nil in H. }
  assert (n ∈ all) as Hn by (apply Hin; left). assert (pending ⊆ all) as Hp by (intros x ?; apply Hin; by right).
  eapply emits_then; [apply emits_try, emits_call| |by intros t e (? & ? & ?)].
  intros t1 sent (? & [= <-] & ->). destruct sent as [[]|e].
  - eapply emits_then; [apply emits_try, emits_call| |by intros t e (? & ? & ?)].
    intros t2 marked (? & [= <-] & ->). eapply emits_mono; [apply IH, Hp|]. intros t r (Hr & Hc & Hq & Hs). split_and!; [done| | |].
    + split; [by exists n|]. split; [by exists n|]. apply chained_start; [apply justified_start|done].
    + intros u ps [?|[?|?%Hq]%elem_of_cons]%elem_of_cons; done.
    + intros x [->|(ok & ?)%Hs]%elem_of_cons; [eexists; left|exists ok; by do 2 right].
  - eapply emits_mono; [apply IH, Hp|]. intros t r (Hr & Hc & Hq & Hs). split_and!; [done| | |].
    + split; [by exists n|]. apply chained_start; [apply justified_start|done].
    + intros u ps [?|?%Hq]%elem_of_cons; done.
    + intros x [->|(ok & ?)%Hs]%elem_of_cons; [eexists; left|exists ok; by right].
Qed.

Definition answered (t : list notify_event) (user : Z) (n : Notification) : Prop :=
  ∃ pending, NPending user (Ok pending) ∈ t ∧ n ∈ pending.
Definition run_ok (t : list notify_event) : Prop :=
  chained (justified (answered t)) None t ∧
  ∀ user n, answered t user n → ∃ ok, NSend user (nt_Text n) ok ∈ t.
Lemma run_ok_app t1 t2 : run_ok t1 → run_ok t2 → run_ok (t1 ++ t2).
Proof.
  intros [Hc1 Hs1] [Hc2 Hs2]. split.
  - apply chained_app; [apply justified_start|revert Hc1|revert Hc2]; apply chained_mono; intros p e; apply justified_mono;
      intros u n (pending & Hp & Hn); exists pending; rewrite elem_of_app; auto.
  - intros user n (pending & Hp & Hn). apply elem_of_app in Hp as [Hp|Hp];
      [destruct (Hs1 user n) as [ok Hok]|destruct (Hs2 user n) as [ok Hok]]; try by eexists; eauto.
    all: exists ok; apply elem_of_app; auto.
Qed.
Lemma run_ok_nil : run_ok [].
Proof. split; [done|]. intros u n (ps & H & _). by apply elem_of_nil in H. Qed.
(** What a user's part of a run records before its notifications go out *)
Lemma run_ok_calls t : (∀ u ps, NPending u (Ok ps) ∉ t) → chained (justified (λ _ _, False)) None t → run_ok t.
Proof.
  intros Hn Hc. split; [|intros u n (ps & H & _); by apply Hn in H]. revert Hc. apply chained_mono. intros p e. by apply justified_mono.
Qed.
Lemma run_ok_delivery user status t0 current allowActivation ps t :
  current = notificationEvents status t0 window → allowActivation = bool_decide (as_UserStatus status = UserStatusActive) && as_Eligible status →
  chained (justified (λ u n, u = user ∧ n ∈ ps)) None t → (∀ u ps, NPending u ps ∉ t) → (∀ n, n ∈ ps → ∃ ok, NSend user (nt_Text n) ok ∈ t) →
  run_ok ([NStatus user (Ok status)] ++ [NReconcile user current allowActivation true] ++ [NPending user (Ok ps)] ++ t).
Proof.
  intros Hcur Hallow Hc Hq Hs. split.
  - cbn [app chained]. split_and!; [done|by exists status, t0|by exists current, allowActivation|].
    apply chained_start; [apply justified_start|]. revert Hc. apply chained_mono. intros p e. apply justified_mono.
    intros u n [-> Hn]. exists ps. split; [by do 2 right; left|done].
  - intros u n (ps' & Hp & Hn).
    assert (u = user ∧ ps' = ps) as [-> ->].
    { rewrite !elem_of_app, !list_elem_of_singleton in Hp. destruct Hp as [?|[?|[[= -> ->]|?%Hq]]]; done. }
    destruct (Hs n Hn) as [ok Hok]. exists ok. by do 3 right.
Qed.

Lemma emits_users users : ∀ errs, emits (notify_users svc window batchSize users errs) (λ t r, (∃ errs', r = Ok errs') ∧ run_ok t).
Proof.
  induction users as [|user users IH]; intros errs; cbn [notify_users].
  { eapply emits_mono; [apply emits_ret|]. intros t r [-> ->]. split; [by eexists|apply run_ok_nil]. }
  assert (∀ errs t1, run_ok t1 → emits (notify_users svc window batchSize users errs) (λ t r, (∃ errs', r = Ok errs') ∧ run_ok (t1 ++ t))) as Hrest.
  { intros errs' t1 H1. eapply emits_mono; [apply IH|]. intros t r [? ?]. split; [done|by apply run_ok_app]. }
  eapply emits_then; [apply emits_try, emits_call| |by intros t e (? & ? & ?)].
  intros t1 status (? & [= <-] & ->). destruct status as [status|e];
    [|apply Hrest, run_ok_calls; [intros u ps H; by apply list_elem_of_singleton in H|by split]].
  apply emits_reading. intros t0. cbv zeta.
  eapply emits_then; [apply emits_try, emits_call| |by intros t e (? & ? & ?)].
  intros t2 reconciled (? & [= <-] & ->). destruct reconciled as [[]|e].
  2:{ eapply emits_mono; [apply Hrest|intros t r; rewrite app_assoc; apply id].
      apply run_ok_calls; [intros u ps H; set_solver|]. split; [done|]. split; [by exists status, t0|done]. }
  eapply emits_then; [apply emits_try, emits_call| |by intros t e (? & ? & ?)].
  intros t3 pending (? & [= <-] & ->). destruct pending as [pending|e].
  2:{ eapply emits_mono; [apply Hrest|intros t r; rewrite !app_assoc; apply id].
      apply run_ok_calls; [intros u ps H; set_solver|]. split; [done|]. split; [by exists status, t0|]. split; [by eexists _, _|done]. }
  eapply emits_then; [apply (emits_deliver user pending); done| |].
  - intros t4 errs' (_ & Hc & Hq & Hs). eapply emits_mono; [apply Hrest|intros t r; rewrite !app_assoc; apply id].
    rewrite <-!app_assoc. by eapply run_ok_delivery.
  - by intros t e ((? & ?) & _).
Qed.
End notifier.

(** The notifier's discipline. In one run, whatever the services answer: each user's events are reconciled
    with the events of the status just read, and activation is allowed exactly for an active, eligible user; what
    is pending is read only after a successful reconciliation; only pending notifications are sent, each of them
    is, and a notification is marked as sent only directly after the messenger accepted it. A failure for one
    user does not stop the run, and a run that finds another one running does nothing. *)
Theorem RunOnce_marks_sent {E} (svc : NotifyServices E) window batchSize running w :
  (RunOnce svc window batchSize true w = (Ok [], w)) ∧
  ∃ t, tw_trace (RunOnce svc window batchSize running w).2 = tw_trace w ++ t ∧
    chained (justified window (answered t)) None t ∧
    (∀ user n, answered t user n → ∃ ok, NSend user (nt_Text n) ok ∈ t) ∧
    (is_ok (RunOnce svc window batchSize running w).1 = false →
       t = [] ∧ is_ok (ns_Users svc batchSize (tw_env w)).1 = false).
Proof.
  split; [done|]. unfold RunOnce. destruct running; [exists []; rewrite app_nil_r; split_and!; [done|apply (run_ok_nil window)..|done]|].
  destruct (ns_Users svc batchSize (tw_env w)) as [[users|e] w']; [|exists []; rewrite app_nil_r; split_and!; [done|apply (run_ok_nil window)..|done]].
  destruct (emits_users svc window batchSize users [] (mkTraced w' (tw_trace w))) as (t & Ht & [errs' He] & Hr).
  exists t. split_and!; [done|apply Hr..|]. by rewrite He.
Qed.
