(* ===== verification/DeliveryBotstore.v ===== *)
(** * Delivery: the bot's tables in Postgres

    services/delivery/internal/botstore/postgres.go over [Sql]: the users who opted in, the queue of notifications
    with the cursor of its pages, the updates claimed by the poller with its cursor. The poller and the notifier
    run over these tables, whichever of their calls the link loses. [now] is the time of the transaction. *)
From S2P Require Import Prelude GoText GoFloat GoTrace Sql Contracts DeliveryOnboarding DeliveryMessages DeliveryBot DeliveryMessenger.

(** ** The tables (internal/migrate/migrations) *)
Record note_row := { nr_kind : string; nr_message : string; nr_status : string; nr_created_at : Time; nr_sent_at : option Time }.
Record update_row := { ur_status : string; ur_attempts : Z }.
(** The two cursors are tables of one row, which the migrations insert. *)
Record BotDb := {
  b_users : gmap Z (Time * Time); b_notes : gmap (Z * string) note_row; b_page : Z;
  b_updates : gmap Z update_row; b_cursor : Z }.
Definition empty_bot_db : BotDb := {| b_users := ∅; b_notes := ∅; b_page := 0; b_updates := ∅; b_cursor := 0 |}.
Definition on_users (f : gmap Z (Time * Time) → gmap Z (Time * Time)) (d : BotDb) : BotDb :=
  {| b_users := f (b_users d); b_notes := b_notes d; b_page := b_page d; b_updates := b_updates d; b_cursor := b_cursor d |}.
Definition on_notes (f : gmap (Z * string) note_row → gmap (Z * string) note_row) (d : BotDb) : BotDb :=
  {| b_users := b_users d; b_notes := f (b_notes d); b_page := b_page d; b_updates := b_updates d; b_cursor := b_cursor d |}.
Definition set_page (c : Z) (d : BotDb) : BotDb :=
  {| b_users := b_users d; b_notes := b_notes d; b_page := c; b_updates := b_updates d; b_cursor := b_cursor d |}.
Definition on_updates (f : gmap Z update_row → gmap Z update_row) (d : BotDb) : BotDb :=
  {| b_users := b_users d; b_notes := b_notes d; b_page := b_page d; b_updates := f (b_updates d); b_cursor := b_cursor d |}.
Definition set_cursor (c : Z) (d : BotDb) : BotDb :=
  {| b_users := b_users d; b_notes := b_notes d; b_page := b_page d; b_updates := b_updates d; b_cursor := c |}.
Definition with_note_status (status : string) (sent : option Time) (r : note_row) : note_row := {|
  nr_kind := nr_kind r; nr_message := nr_message r; nr_status := status; nr_created_at := nr_created_at r; nr_sent_at := sent |}.

(** ** postgres.go *)
Module Botstore.
Section botstore.
Context `{pg : !Postgres}.
Abbreviation BM := (M (Session BotDb)).
Abbreviation Stmt := (M BotDb).
Definition pool {A} (st : Stmt A) : BM A := autocommit st.
Definition tx {A} (st : Stmt A) : BM A := in_tx st.
Definition transact {A} (what : string) : BM A → BM A :=
  transaction_with (wrap_err ("bot store: begin " +:+ what)) (wrap_err ("bot store: commit " +:+ what)).

Definition upsert_user (now : Time) (telegramID : Z) : Stmt unit :=
  modify (on_users (λ t, <[telegramID := (default now (fst <$> t !! telegramID), now)]> t)).
Definition RecordUser (now : Time) (telegramID : Z) : BM unit :=
  if telegramID <=? 0 then fail (Errorf "bot store: positive telegram id required")
  else wrapping "bot store: record user" (pool (upsert_user now telegramID)).

(** The rows after a cursor, in ascending order, at most [limit] *)
Definition page_rows (after limit : Z) (d : BotDb) : list Z :=
  take (Z.to_nat limit) (sort_slice Z.ltb (filter (λ id, after < id) (map_to_list (b_users d)).*1)).
Definition advance_page (next : Z) : Stmt unit := require (0 <=? next) ErrCheck ;;! modify (set_page next).
Definition NotificationUsers (limit : Z) : BM (list Z) :=
  if limit <=? 0 then fail (Errorf "bot store: positive notification limit required")
  else transact "notification page" (
    cursor ←! wrapping "bot store: read notification cursor" (tx (gets b_page)) ;
    users ←! wrapping "bot store: list notification users" (tx (gets (page_rows cursor limit))) ;
    users ←! (if bool_decide (users = []) && negb (cursor =? 0)
              then wrapping "bot store: wrap notification users" (tx (gets (page_rows 0 limit))) else mret users) ;
    let next := default 0 (last users) in
    wrapping "bot store: advance notification cursor" (tx (advance_page next)) ;;!
    mret users).

(** UPDATE .. WHERE telegram_id = $1 AND status = 'pending' AND kind IN kinds *)
Definition cancel_rows (telegramID : Z) (kinds : list string) : Stmt unit := modify (on_notes (map_imap (λ k r,
  Some (if bool_decide (k.1 = telegramID) && bool_decide (nr_status r = "pending") && one_of (nr_kind r) kinds
        then with_note_status "canceled" (nr_sent_at r) r else r)))).
Definition valid_note (n : Notification) : bool :=
  negb (bool_decide (nt_EventKey n = "") || bool_decide (nt_Text n = "") || negb (one_of (nt_Kind n) ["activation"; "expiry"; "grace"])).
(** INSERT .. ON CONFLICT DO UPDATE *)
Definition stage_row (now : Time) (telegramID : Z) (n : Notification) : Stmt unit := λ d, (
  match b_notes d !! (telegramID, nt_EventKey n) with
  | None => require (is_set (b_users d !! telegramID)) ErrForeignKey ;;!
      modify (on_notes <[(telegramID, nt_EventKey n) := {| nr_kind := nt_Kind n; nr_message := nt_Text n; nr_status := "pending";
        nr_created_at := now; nr_sent_at := None |}]>)
  | Some r => modify (on_notes <[(telegramID, nt_EventKey n) := {| nr_kind := nt_Kind n; nr_message := nt_Text n;
        nr_status := if bool_decide (nr_status r = "sent") then "sent" else "pending";
        nr_created_at := nr_created_at r; nr_sent_at := nr_sent_at r |}]>)
  end) d.
Fixpoint stage_all (now : Time) (telegramID : Z) (current : list Notification) : BM unit :=
  match current with
  | [] => mret tt
  | n :: current' =>
      if negb (valid_note n) then fail (Errorf "bot store: invalid notification")
      else wrapping "bot store: stage notification" (tx (stage_row now telegramID n)) ;;! stage_all now telegramID current'
  end.
Definition ReconcileNotifications (now : Time) (telegramID : Z) (current : list Notification) (allowActivation : bool) : BM unit :=
  transact "notification reconcile" (
    wrapping "bot store: cancel stale reminders" (tx (cancel_rows telegramID ["expiry"; "grace"])) ;;!
    (if allowActivation then mret tt
     else wrapping "bot store: cancel stale activation" (tx (cancel_rows telegramID ["activation"]))) ;;!
    stage_all now telegramID current).

Definition pending_note (telegramID : Z) (kv : Z * string * note_row) : bool :=
  bool_decide (kv.1.1 = telegramID) && bool_decide (nr_status kv.2 = "pending").
Definition note_order (x y : Z * string * note_row) : bool :=
  if TEqual (nr_created_at x.2) (nr_created_at y.2) then text_lt x.1.2 y.1.2 else Before (nr_created_at x.2) (nr_created_at y.2).
Definition scan_note (kv : Z * string * note_row) : Notification :=
  {| nt_EventKey := kv.1.2; nt_Kind := nr_kind kv.2; nt_Text := nr_message kv.2 |}.
Definition PendingNotifications (telegramID limit : Z) : BM (list Notification) :=
  if limit <=? 0 then fail (Errorf "bot store: positive pending notification limit required")
  else wrapping "bot store: list pending notifications" (pool (gets (λ d, scan_note <$>
    take (Z.to_nat limit) (sort_slice note_order (filter (λ kv, pending_note telegramID kv = true) (map_to_list (b_notes d))))))).
Definition mark_row (now telegramID : Z) (eventKey : string) : Stmt Z := λ d,
  match b_notes d !! (telegramID, eventKey) with
  | Some r => if bool_decide (nr_status r = "pending")
              then (Ok 1, on_notes <[(telegramID, eventKey) := with_note_status "sent" (Some now) r]> d) else (Ok 0, d)
  | None => (Ok 0, d)
  end.
Definition MarkNotificationSent (now : Time) (telegramID : Z) (eventKey : string) : BM unit :=
  if bool_decide (eventKey = "") then fail (Errorf "bot store: notification event key required")
  else
    tag ←! wrapping "bot store: mark notification" (pool (mark_row now telegramID eventKey)) ;
    if negb (tag =? 1) then fail (Errorf "bot store: pending notification not found") else mret tt.

Definition Cursor : BM Z := wrapping "bot store: read cursor" (pool (gets b_cursor)).
(** INSERT .. ON CONFLICT DO UPDATE SET attempts = attempts + 1 RETURNING status *)
Definition claim_update (updateID : Z) : Stmt string := λ d,
  match b_updates d !! updateID with
  | None => (Ok "pending", on_updates <[updateID := {| ur_status := "pending"; ur_attempts := 1 |}]> d)
  | Some r =>
      (require (ur_attempts r + 1 <? 2 ^ 31) (PgError "22003") ;;!
       modify (on_updates <[updateID := {| ur_status := ur_status r; ur_attempts := ur_attempts r + 1 |}]>) ;;!
       mret (ur_status r)) d
  end.
Definition Begin (updateID : Z) : BM bool :=
  status ←! wrapping "bot store: claim update" (pool (claim_update updateID)) ; mret (negb (bool_decide (status = "done"))).
Definition mark_done (updateID : Z) : Stmt unit :=
  modify (on_updates (alter (λ r, {| ur_status := "done"; ur_attempts := ur_attempts r |}) updateID)).
Definition advance_cursor (updateID : Z) : Stmt unit := λ d, (Ok tt, set_cursor (Z.max (b_cursor d) updateID) d).
Definition Complete (updateID : Z) : BM unit := transact "complete" (
  wrapping "bot store: mark complete" (tx (mark_done updateID)) ;;!
  wrapping "bot store: advance cursor" (tx (advance_cursor updateID))).
Definition Ready : BM unit := on_error (λ _, Errorf "bot store: database unavailable") (pool (mret tt)).
End botstore.
End Botstore.

(** ** The poller and the notifier on these tables, beside an environment [X] *)
Section environment.
Context `{pg : !Postgres} `{SS : !SortSlice} {X : Type}.
Abbreviation E := (Session BotDb * X)%type.
Definition stored {A} (m : M (Session BotDb) A) : M E A := zoom fst (λ s e, (s, e.2)) m.
Definition elsewhere {A} (m : M X A) : M E A := zoom snd (λ x e, (e.1, x)) m.
Definition bot_poll (source : Z → M X (list Update)) (handler : Update → M E unit) : PollServices E := {|
  ps_GetUpdates := λ o, elsewhere (source o); ps_HandleUpdate := handler;
  ps_Begin := λ id, stored (Botstore.Begin id); ps_Complete := λ id, stored (Botstore.Complete id) |}.
(** poller.go: [Run] of one process, which reads the cursor and polls until it is stopped *)
Fixpoint poll_rounds (svc : PollServices E) (rounds : nat) (cursor : Z) : M (Traced E poll_event) unit :=
  match rounds with
  | O => mret tt
  | S n => r ←! poll_round svc cursor ; poll_rounds svc n r.1
  end.
Definition Run (svc : PollServices E) (rounds : nat) : M (Traced E poll_event) unit :=
  cursor ←! zoom tw_env (λ e w, mkTraced e (tw_trace w)) (stored Botstore.Cursor) ; poll_rounds svc rounds cursor.
(** One process after another *)
Fixpoint run_again (svc : PollServices E) (lives : list nat) : M (Traced E poll_event) unit :=
  match lives with [] => mret tt | n :: lives' => ignore (Run svc n) ;;! run_again svc lives' end.
Definition bot_notify (clock : X → Time) (status : Z → M X AccountStatus) (send : Z → string → M X unit) : NotifyServices E := {|
  ns_Users := λ n, stored (Botstore.NotificationUsers n); ns_Status := λ u, elsewhere (status u);
  ns_Reconcile := λ u l a e, stored (Botstore.ReconcileNotifications (clock e.2) u l a) e;
  ns_Pending := λ u n, stored (Botstore.PendingNotifications u n); ns_Send := λ u m, elsewhere (send u m);
  ns_Mark := λ u k e, stored (Botstore.MarkNotificationSent (clock e.2) u k) e; ns_Now := λ e, (clock e.2, e) |}.
End environment.

(** ** The poller over the tables *)
Definition is_done (d : BotDb) (id : Z) : Prop := ur_status <$> b_updates d !! id = Some "done".
Definition completed (id : Z) (d : BotDb) : BotDb :=
  set_cursor (Z.max (b_cursor d) id) (on_updates (alter (λ r, {| ur_status := "done"; ur_attempts := ur_attempts r |}) id) d).
Lemma is_done_completed id d i : is_done (completed id d) i ↔ is_done d i ∨ (i = id ∧ is_Some (b_updates d !! id)).
Proof.
  unfold is_done, completed. cbn. destruct (decide (i = id)) as [->|Hne].
  - rewrite lookup_alter_eq. destruct (b_updates d !! id); cbn; naive_solver.
  - rewrite lookup_alter_ne by done. naive_solver.
Qed.
Section calls.
Context `{pg : !Postgres}.
Lemma Begin_spec id s : let '(r, s') := Botstore.Begin id s in
  (∀ i, is_done (ss_db s') i ↔ is_done (ss_db s) i) ∧ b_cursor (ss_db s') = b_cursor (ss_db s) ∧
  match r with
  | Ok b => is_Some (b_updates (ss_db s') !! id) ∧ (if b : bool then ¬ is_done (ss_db s') id else is_done (ss_db s') id)
  | Err _ => True
  end.
Proof.
  assert (Hst : ∀ d, let '(r, d') := Botstore.claim_update id d in (∀ i, is_done d' i ↔ is_done d i) ∧ b_cursor d' = b_cursor d ∧
    match r with Ok st => is_Some (b_updates d' !! id) ∧ (st = "done" ↔ is_done d' id) | Err _ => True end).
  { intros d. unfold Botstore.claim_update, is_done. destruct (b_updates d !! id) as [r|] eqn:Hr.
    - unfold require, mbind, M_bind. destruct (_ <? _); [|done]. cbn. rewrite lookup_insert_eq. split; [|split; [done|split; [done|cbn; split; congruence]]].
      intros i. destruct (decide (i = id)) as [->|Hne]; [by rewrite lookup_insert_eq, Hr|by rewrite lookup_insert_ne].
    - cbn. rewrite lookup_insert_eq. split; [|split; [done|split; [done|cbn; split; congruence]]].
      intros i. destruct (decide (i = id)) as [->|Hne]; [rewrite lookup_insert_eq, Hr; cbn; split; congruence|by rewrite lookup_insert_ne]. }
  unfold Botstore.Begin, Botstore.pool, mbind, M_bind, wrapping, autocommit. specialize (Hst (ss_db s)).
  destruct (Botstore.claim_update id (ss_db s)) as [r d']. destruct Hst as (H1 & H2 & H3), (fate s); cbn; try (by split_and!).
  destruct r as [st|e]; cbn; [|by split_and!]. split_and!; [done..|apply H3|]. destruct H3 as [_ H3]. destruct (bool_decide (st = "done")) eqn:Hb; cbn.
  - apply H3. by apply bool_decide_eq_true in Hb.
  - apply bool_decide_eq_false in Hb. tauto.
Qed.
Lemma Complete_spec id s : let '(r, s') := Botstore.Complete id s in
  (ss_db s' = ss_db s ∨ ss_db s' = completed id (ss_db s)) ∧ match r with Ok _ => ss_db s' = completed id (ss_db s) | Err _ => True end.
Proof.
  assert (Hok : tx_ok (wrapping "bot store: mark complete" (in_tx (Botstore.mark_done id)) ;;!
    wrapping "bot store: advance cursor" (in_tx (Botstore.advance_cursor id)))).
  { apply tx_ok_bind; [|intros _]; apply tx_ok_wrapping, tx_ok_in_tx. }
  assert (Hst : ∀ d, steady (Botstore.Complete id) d = (Ok tt, completed id d)).
  { intros d. unfold Botstore.Complete, Botstore.transact, Botstore.tx. rewrite steady_transaction_with by done.
    rewrite steady_bind by (apply tx_ok_wrapping, tx_ok_in_tx). rewrite steady_wrapping, steady_in_tx.
    unfold Botstore.mark_done, modify. by rewrite steady_wrapping, steady_in_tx. }
  assert (Haon : all_or_nothing (Botstore.Complete id)) by (by apply all_or_nothing_transaction_with; [apply gave_up_wrap..|]).
  destruct s as [d link]. specialize (Haon d link). rewrite Hst in Haon. destruct (Botstore.Complete id (mkSession d link)) as [r s']. cbn in *.
  destruct Haon as [[Hl Hd]|[= -> ->]]; [|by auto]. destruct r; [done|]. split; [|done]. tauto.
Qed.
Lemma Cursor_spec s : let '(r, s') := Botstore.Cursor s in ss_db s' = ss_db s ∧ match r with Ok c => c = b_cursor (ss_db s) | Err _ => True end.
Proof. unfold Botstore.Cursor, Botstore.pool, wrapping, autocommit. cbn. by destruct (fate s). Qed.
End calls.

Section poller.
Context `{pg : !Postgres} `{SS : !SortSlice} {X : Type}.
Abbreviation E := (Session BotDb * X)%type.
(** The messenger: what waits to be asked for. It forgets only what precedes an offset, answers the first of what
    it keeps, and the handler of updates leaves it and the tables of the poller alone. *)
Context (queue : X → list Update) (source : Z → M X (list Update)) (handler : Update → M E unit).
Record well_behaved : Prop := {
  wb_keeps : ∀ o x u, u ∈ queue x → o <= up_UpdateID u → u ∈ queue (source o x).2;
  wb_first : ∀ o x us x' u v, source o x = (Ok us, x') → u ∈ queue x → o <= up_UpdateID u → v ∈ us → up_UpdateID u <= up_UpdateID v → u ∈ us;
  wb_queue : ∀ u v e, v ∈ queue e.2 → v ∈ queue (handler u e).2.2;
  wb_tables : ∀ u e, b_updates (ss_db (handler u e).2.1) = b_updates (ss_db e.1) ∧ b_cursor (ss_db (handler u e).2.1) = b_cursor (ss_db e.1) }.
Hypothesis wb : well_behaved.
Definition handled (t : list poll_event) (id : Z) : Prop := ∃ u, up_UpdateID u = id ∧ PHandle u true ∈ t.
(** What waited at the start, after the cursor and not done *)
Context (start : E).
Definition waiting (u : Update) : Prop :=
  u ∈ queue start.2 ∧ b_cursor (ss_db start.1) < up_UpdateID u ∧ ¬ is_done (ss_db start.1) (up_UpdateID u).
Definition passed (cursor : Z) (t : list poll_event) : Prop := ∀ u, waiting u → up_UpdateID u <= cursor → handled t (up_UpdateID u).
Record sound (w : Traced E poll_event) : Prop := {
  so_after : ∀ t1 t2 id u ok, tw_trace w = t1 ++ PComplete id true :: t2 → PHandle u ok ∈ t2 → up_UpdateID u ≠ id;
  so_completed : ∀ id, PComplete id true ∈ tw_trace w → is_done (ss_db (tw_env w).1) id;
  so_done : ∀ id, is_done (ss_db (tw_env w).1) id → is_done (ss_db start.1) id ∨ handled (tw_trace w) id;
  so_waiting : ∀ u, waiting u → u ∈ queue (tw_env w).2 ∨ handled (tw_trace w) (up_UpdateID u);
  so_cursor : passed (b_cursor (ss_db (tw_env w).1)) (tw_trace w) }.
Lemma handled_app t1 t2 id : handled t1 id → handled (t1 ++ t2) id.
Proof. intros (u & Hu & Hin). exists u. split; [done|]. apply elem_of_app. by left. Qed.
Lemma passed_app c t1 t2 : passed c t1 → passed c (t1 ++ t2).
Proof. intros H u Hu Hle. by apply handled_app, H. Qed.
Lemma sound_start t : (∀ id, PComplete id true ∉ t) → sound (mkTraced start t).
Proof.
  intros Ht. split; cbn.
  - intros t1 t2 id u ok ->. destruct (Ht id). apply elem_of_app. right. by left.
  - intros id Hin. by destruct (Ht id).
  - auto.
  - intros u Hu. left. apply Hu.
  - intros u (_ & Hlt & _) Hle. lia.
Qed.
Lemma snoc_split {A} (t : list A) x t1 y t2 : t ++ [x] = t1 ++ y :: t2 → (t2 = [] ∧ x = y ∧ t = t1) ∨ (∃ t2', t2 = t2' ++ [x] ∧ t = t1 ++ y :: t2').
Proof.
  destruct t2 as [|z t2 _] using rev_ind.
  - intros H. apply app_inj_tail in H as [-> ->]. by left.
  - rewrite app_comm_cons, app_assoc. intros H. apply app_inj_tail in H as [-> ->]. right. by exists t2.
Qed.
Lemma sound_step w (e' : E) ev : sound w →
  (∀ i, is_done (ss_db e'.1) i ↔ is_done (ss_db (tw_env w).1) i) → b_cursor (ss_db e'.1) = b_cursor (ss_db (tw_env w).1) →
  (∀ u, waiting u → u ∈ queue (tw_env w).2 → u ∈ queue e'.2 ∨ handled (tw_trace w) (up_UpdateID u)) →
  (match ev with PComplete _ true => False | PHandle u _ => ¬ is_done (ss_db (tw_env w).1) (up_UpdateID u) | _ => True end) →
  sound (mkTraced e' (tw_trace w ++ [ev])).
Proof.
  intros [] Hdone Hcur Hq Hev. split; cbn [tw_env tw_trace].
  - intros t1 t2 id u ok Ht Hin. destruct (snoc_split _ _ _ _ _ Ht) as [(-> & _)|(t2' & -> & Htr)]; [by apply elem_of_nil in Hin|].
    apply elem_of_app in Hin as [Hin|Hin%list_elem_of_singleton]; [by eapply so_after0|]. subst ev. intros <-. apply Hev, so_completed0.
    rewrite Htr. apply elem_of_app. right. by left.
  - intros id [Hin|Hin%list_elem_of_singleton]%elem_of_app; [by apply Hdone, so_completed0|]. by subst ev.
  - intros id Hd. apply Hdone, so_done0 in Hd as [Hd|Hd]; [by left|right; by apply handled_app].
  - intros u Hu. destruct (so_waiting0 u Hu) as [Hin|Hh]; [destruct (Hq u Hu Hin) as [?|?]; [by left|]|]; right; by apply handled_app.
  - rewrite Hcur. by apply passed_app.
Qed.
Lemma sound_get o w : sound w → passed (o - 1) (tw_trace w) → sound (call (PGet o) (elsewhere (source o)) w).2.
Proof.
  intros Hs Hp. pose proof (wb_keeps wb o (tw_env w).2) as Hk. unfold call, elsewhere, zoom. destruct (source o (tw_env w).2) as [r x']. cbn in *.
  apply sound_step; try done. intros u Hu Hin. destruct (Z.le_gt_cases o (up_UpdateID u)); [left; by apply Hk|right; apply Hp; [done|lia]].
Qed.
Lemma sound_begin id w : sound w → let '(r, w') := Begin (bot_poll source handler) id w in sound w' ∧ (∃ ev, tw_trace w' = tw_trace w ++ [ev]) ∧
  (tw_env w').2 = (tw_env w).2 ∧
  match r with
  | Ok b => is_Some (b_updates (ss_db (tw_env w').1) !! id) ∧ (if b : bool then ¬ is_done (ss_db (tw_env w').1) id else is_done (ss_db (tw_env w').1) id)
  | Err _ => True
  end.
Proof.
  intros Hs. unfold Begin, call. cbn [ps_Begin bot_poll]. unfold stored, zoom. pose proof (Begin_spec id (tw_env w).1) as H.
  destruct (Botstore.Begin id (tw_env w).1) as [r s']. destruct H as (H1 & H2 & H3). cbn. split_and!; [|by eexists|done|by destruct r].
  by apply sound_step; auto.
Qed.
Lemma sound_handle u w : sound w → ¬ is_done (ss_db (tw_env w).1) (up_UpdateID u) → is_Some (b_updates (ss_db (tw_env w).1) !! up_UpdateID u) →
  let '(r, w') := Handle (bot_poll source handler) u w in sound w' ∧ (∃ ev, tw_trace w' = tw_trace w ++ [ev]) ∧
  is_Some (b_updates (ss_db (tw_env w').1) !! up_UpdateID u) ∧
  match r with Ok _ => handled (tw_trace w') (up_UpdateID u) | Err _ => True end.
Proof.
  intros Hs Hnd Hrow. unfold Handle, call. cbn [ps_HandleUpdate bot_poll]. destruct (wb_tables wb u (tw_env w)) as [H1 H2].
  pose proof (λ v, wb_queue wb u v (tw_env w)) as H3. destruct (handler u (tw_env w)) as [r e']. cbn in *. split_and!.
  - apply sound_step; auto. intros i. unfold is_done. by rewrite H1.
  - by eexists.
  - by rewrite H1.
  - destruct r; [|done]. exists u. split; [done|]. apply elem_of_app. right. by left.
Qed.
Lemma sound_complete id w : sound w → passed id (tw_trace w) → is_Some (b_updates (ss_db (tw_env w).1) !! id) →
  is_done (ss_db start.1) id ∨ handled (tw_trace w) id →
  let '(r, w') := Complete (bot_poll source handler) id w in sound w' ∧ ∃ ev, tw_trace w' = tw_trace w ++ [ev].
Proof.
  intros [] Hp Hrow Hh. unfold Complete, call. cbn [ps_Complete bot_poll]. unfold stored, zoom. pose proof (Complete_spec id (tw_env w).1) as H.
  destruct (Botstore.Complete id (tw_env w).1) as [r s']. destruct H as [H1 H2]. cbn. split; [|by eexists].
  assert (Hmono : ∀ i, is_done (ss_db (tw_env w).1) i → is_done (ss_db s') i).
  { intros i Hi. destruct H1 as [-> | ->]; [done|]. apply is_done_completed. by left. }
  split; cbn [tw_env tw_trace fst snd].
  - intros t1 t2 i u ok Ht Hin. destruct (snoc_split _ _ _ _ _ Ht) as [(-> & _)|(t2' & -> & Htr)]; [by apply elem_of_nil in Hin|].
    apply elem_of_app in Hin as [Hin|Hin%list_elem_of_singleton]; [by eapply so_after0|done].
  - intros i [Hin|Hin%list_elem_of_singleton]%elem_of_app; [by apply Hmono, so_completed0|]. injection Hin as -> Hok.
    destruct r; [|done]. rewrite H2. apply is_done_completed. by right.
  - intros i Hi. assert (Hd : is_done (ss_db (tw_env w).1) i ∨ i = id).
    { destruct H1 as [H1|H1]; rewrite H1 in Hi; [by left|]. apply is_done_completed in Hi as [?|[? _]]; auto. }
    destruct Hd as [Hd| ->]; [apply so_done0 in Hd as [Hd|Hd]|destruct Hh as [Hd|Hd]]; (by left) || (right; by apply handled_app).
  - intros u Hu. destruct (so_waiting0 u Hu) as [?|?]; [by left|right; by apply handled_app].
  - apply passed_app. destruct H1 as [-> | ->]; [done|]. cbn. intros u Hu Hle.
    destruct (Z.max_spec (b_cursor (ss_db (tw_env w).1)) id) as [[_ Hm]|[_ Hm]]; rewrite Hm in Hle; [by apply Hp|by apply so_cursor0].
Qed.
(** What is left of a batch holds whatever waits below its last update. *)
Definition covers (us : list Update) (cursor : Z) (w : Traced E poll_event) : Prop := ∀ u v, waiting u → cursor < up_UpdateID u → v ∈ us →
  up_UpdateID u <= up_UpdateID v → handled (tw_trace w) (up_UpdateID u) ∨ u ∈ us.
Definition batch_sound (out : result (Z * bool) * Traced E poll_event) : Prop :=
  sound out.2 ∧ match out.1 with Ok (c, _) => passed c (tw_trace out.2) | Err _ => False end.
Lemma handled_grows (w w' : Traced E poll_event) id : (∃ ev, tw_trace w' = tw_trace w ++ [ev]) → handled (tw_trace w) id → handled (tw_trace w') id.
Proof. intros [ev ->]. apply handled_app. Qed.
Lemma sound_batch us : ∀ cursor w, StronglySorted (λ x y, up_UpdateID x <= up_UpdateID y) us → sound w → passed cursor (tw_trace w) →
  covers us cursor w → batch_sound (poll_batch (bot_poll source handler) us cursor w).
Proof.
  induction us as [|u us IH]; intros cursor w Hsort Hs Hp Hc; cbn [poll_batch]; [by split|].
  apply StronglySorted_inv in Hsort as [Hsort Hle]. rewrite Forall_forall in Hle. destruct (Z.leb_spec (up_UpdateID u) cursor) as [Hskip|Hgt].
  { apply IH; [done..|]. intros u0 v Hu0 Hlt Hv Hle0. destruct (Hc u0 v Hu0 Hlt) as [?|Hin]; [by right|done|by left|].
    apply elem_of_cons in Hin as [->|Hin]; [lia|by right]. }
  unfold mbind at 1, M_bind at 1, try at 1. pose proof (sound_begin (up_UpdateID u) w Hs) as Hb.
  destruct (Begin _ _ w) as [[process|e] w1]; destruct Hb as (Hs1 & Hg1 & _ & Hb); [|by split; [|intros u0 Hu0 Hle0; by apply (handled_grows w), Hp]].
  destruct Hb as [Hrow Hb]. assert (Hp1 : passed cursor (tw_trace w1)) by (intros u0 Hu0 Hle0; by apply (handled_grows w), Hp).
  assert (Hdone : ∀ w2, (∀ id, handled (tw_trace w1) id → handled (tw_trace w2) id) → sound w2 → is_Some (b_updates (ss_db (tw_env w2).1) !! up_UpdateID u) →
    is_done (ss_db start.1) (up_UpdateID u) ∨ handled (tw_trace w2) (up_UpdateID u) →
    batch_sound ((completed ←! try (Complete (bot_poll source handler) (up_UpdateID u)) ;
      match completed with Err _ => mret (cursor, true) | Ok _ => poll_batch (bot_poll source handler) us (up_UpdateID u) end) w2)).
  { intros w2 Hg2 Hs2 Hrow2 Hh. assert (Hp2 : passed (up_UpdateID u) (tw_trace w2)).
    { intros u0 Hu0 Hle0. destruct (Z.le_gt_cases (up_UpdateID u0) cursor); [by apply Hg2, Hp1|].
      destruct (Hc u0 u Hu0) as [Hh0|Hin]; [lia|by left|done|by apply Hg2, (handled_grows w)|].
      assert (Heq : up_UpdateID u0 = up_UpdateID u) by (apply elem_of_cons in Hin as [->|Hin]; [done|specialize (Hle u0 Hin); lia]).
      destruct Hh as [Hd|Hh]; [|by rewrite Heq]. rewrite <-Heq in Hd. by destruct Hu0 as (_ & _ & Hnd). }
    unfold mbind, M_bind, try. pose proof (sound_complete (up_UpdateID u) w2 Hs2 Hp2 Hrow2 Hh) as Hcm.
    destruct (Complete _ _ w2) as [[[]|e] w3]; destruct Hcm as [Hs3 Hg3]; cycle 1.
    { split; [done|]. intros u0 Hu0 Hle0. apply (handled_grows w2); [done|]. by apply Hg2, Hp1. }
    apply IH; [done..| |].
    - intros u0 Hu0 Hle0. by apply (handled_grows w2), Hp2.
    - intros u0 v Hu0 Hlt Hv Hle0. destruct (Hc u0 v Hu0) as [Hh0|Hin]; [lia|by right|done|left; by apply (handled_grows w2), Hg2, (handled_grows w)|].
      apply elem_of_cons in Hin as [->|Hin]; [lia|by right]. }
  unfold mbind at 1, M_bind at 1, try at 1. destruct process.
  - pose proof (sound_handle u w1 Hs1 Hb Hrow) as Hh. destruct (Handle _ u w1) as [[[]|e] w2]; destruct Hh as (Hs2 & Hg2 & Hrow2 & Hh).
    + apply Hdone; [intros id; by apply handled_grows|done..|by right].
    + split; [done|]. intros u0 Hu0 Hle0. by apply (handled_grows w1), Hp1.
  - apply Hdone; [done..|]. by apply so_done in Hb.
Qed.
Lemma sound_round cursor w : sound w → passed cursor (tw_trace w) → batch_sound (poll_round (bot_poll source handler) cursor w).
Proof.
  intros Hs Hp. unfold poll_round, mbind, M_bind, try. cbn [ps_GetUpdates bot_poll].
  assert (Hs1 : sound (call (PGet (cursor + 1)) (elsewhere (source (cursor + 1))) w).2) by (apply sound_get; [done|]; by rewrite Z.add_simpl_r).
  pose proof (wb_first wb (cursor + 1) (tw_env w).2) as Hf. unfold call, elsewhere, zoom in *.
  destruct (source (cursor + 1) (tw_env w).2) as [[us|e] x']; cbn in Hs1 |- *; cycle 1.
  { split; [done|]. by apply passed_app. }
  apply sound_batch; [apply StronglySorted_updates|done|by apply passed_app|]. intros u v Hu Hlt Hv Hle. cbn. rewrite sort_Slice_perm in *.
  destruct (so_waiting w Hs u Hu) as [Hq|Hh]; [|left; by apply handled_app]. right. eapply (Hf us x' u v); [done..|lia|done|done].
Qed.
Lemma sound_rounds n : ∀ cursor w, sound w → passed cursor (tw_trace w) → sound (poll_rounds (bot_poll source handler) n cursor w).2.
Proof.
  induction n as [|n IH]; intros cursor w Hs Hp; cbn [poll_rounds]; [done|]. unfold mbind, M_bind. pose proof (sound_round cursor w Hs Hp) as [Hs1 Hp1].
  destruct (poll_round _ cursor w) as [[[c retry]|e] w1]; [by apply IH|done].
Qed.
Lemma sound_run n w : sound w → sound (Run (bot_poll source handler) n w).2.
Proof.
  intros Hs. unfold Run, mbind, M_bind, zoom at 1, stored at 1, zoom at 1. pose proof (Cursor_spec (tw_env w).1) as Hc.
  destruct (Botstore.Cursor (tw_env w).1) as [r s']. destruct Hc as [Hd Hc].
  assert (Hs1 : sound (mkTraced (s', (tw_env w).2) (tw_trace w))) by (destruct Hs; split; cbn; rewrite ?Hd; done).
  destruct r as [c|e]; [|done]. apply sound_rounds; [done|]. cbn. rewrite Hc. apply (so_cursor w Hs).
Qed.
Lemma sound_again lives : ∀ w, sound w → sound (run_again (bot_poll source handler) lives w).2.
Proof. induction lives as [|n lives IH]; intros w Hs; cbn [run_again]; [done|]. unfold mbind, M_bind, ignore. by apply IH, sound_run. Qed.
End poller.

(** C27: no update is lost and none is handled again once it is recorded. Poller processes run one after another over
    the tables in Postgres, over a link that loses calls at any point. An update that waited at the messenger, after
    the stored cursor and not recorded as done, still waits there or has been handled without error: the offsets
    the processes send never make the messenger forget an update before. And after a call of Complete that
    succeeded no process hands the update to the bot again. *)
Theorem updates_handled_once `{SS : !SortSlice} {X} (queue : X → list Update) source handler (start : Session BotDb * X) lives :
  well_behaved queue source handler →
  let w := (run_again (bot_poll source handler) lives (mkTraced start [])).2 in
  (∀ u, u ∈ queue start.2 → b_cursor (ss_db start.1) < up_UpdateID u → ¬ is_done (ss_db start.1) (up_UpdateID u) →
     u ∈ queue (tw_env w).2 ∨ ∃ v, up_UpdateID v = up_UpdateID u ∧ PHandle v true ∈ tw_trace w) ∧
  (∀ t1 t2 id u ok, tw_trace w = t1 ++ PComplete id true :: t2 → PHandle u ok ∈ t2 → up_UpdateID u ≠ id).
Proof.
  intros Hwb w. assert (Hs : sound queue start w).
  { apply sound_again; [done|]. apply sound_start. intros id H. by apply elem_of_nil in H. }
  split; [|by apply (so_after _ _ _ Hs)]. intros u Hq Hc Hd. by apply (so_waiting _ _ _ Hs).
Qed.
(** A messenger with a queue, and a bot that records the sender *)
Definition queue_source (o : Z) : M (list Update) (list Update) := λ q,
  let q' := filter (λ u, o <= up_UpdateID u) q in (Ok q', q').
Definition queue_handler (u : Update) : M (Session BotDb * list Update) unit :=
  stored (Botstore.RecordUser 0 (up_UserID u)).
Lemma queue_well_behaved : well_behaved (λ q, q) queue_source queue_handler.
Proof.
  split.
  - intros o q u Hin Hle. cbn. by apply list_elem_of_filter.
  - intros o q us q' u v [= <- <-] Hin Hle _ _. by apply list_elem_of_filter.
  - intros u v [s q]. unfold queue_handler, stored, zoom. by destruct (Botstore.RecordUser _ _ _).
  - intros u [[d link] q]. unfold queue_handler, stored, zoom, Botstore.RecordUser, Botstore.pool, wrapping, autocommit. cbn.
    destruct (up_UserID u <=? 0); cbn; [done|]. by destruct (fate _).
Qed.
Definition qu_updates : list Update := [demo_update;
  {| up_UpdateID := 2; up_ChatID := 7; up_ChatType := "private"; up_UserID := 7; up_Text := "/pay" |}].
(** The COMMIT that records the first update takes effect but is not answered; the process is replaced. *)
Definition qu_start : Session BotDb * list Update :=
  (mkSession empty_bot_db [Runs; Runs; Runs; Runs; Runs; Runs; LostAfter], qu_updates).
Definition qu_end := (run_again (SS := merge_sorting) (bot_poll queue_source queue_handler) [1; 1]%nat (mkTraced qu_start [])).2.
Lemma updates_handled_once_witness :
  (∀ u, u ∈ qu_updates → u ∈ (tw_env qu_end).2 ∨ ∃ v, up_UpdateID v = up_UpdateID u ∧ PHandle v true ∈ tw_trace qu_end) ∧
  (∀ t1 t2 id u ok, tw_trace qu_end = t1 ++ PComplete id true :: t2 → PHandle u ok ∈ t2 → up_UpdateID u ≠ id).
Proof.
  destruct (updates_handled_once (SS := merge_sorting) (λ q, q) queue_source queue_handler qu_start [1; 1]%nat
    queue_well_behaved) as [H1 H2].
  split; [|exact H2]. intros u Hu. apply (H1 u Hu).
  - repeat (apply elem_of_cons in Hu as [->|Hu]; [done|]). by apply elem_of_nil in Hu.
  - unfold is_done, qu_start. cbn. by rewrite lookup_empty.
Defined.
(** The first update is handled once, though its completion was reported lost. *)
Example qu_trace : (λ e, match e with PHandle u _ => Some (up_UpdateID u) | _ => None end) <$> tw_trace qu_end =
  [None; None; Some 1; None; None; None; Some 2; None] ∧ b_cursor (ss_db (tw_env qu_end).1) = 2.
Proof. vm_compute. done. Qed.

(** ** The pages of the notifier *)
Definition members (d : BotDb) : gset Z := dom (b_users d).
Definition positive_ids (d : BotDb) : Prop := ∀ id, id ∈ members d → 0 < id.
Lemma elem_of_members d id : id ∈ (map_to_list (b_users d)).*1 ↔ id ∈ members d.
Proof.
  unfold members. rewrite elem_of_dom, list_elem_of_fmap. split.
  - intros ([k v] & -> & Hin). apply elem_of_map_to_list in Hin. by exists v.
  - intros [v Hv]. exists (id, v). split; [done|]. by apply elem_of_map_to_list.
Qed.
Section pages.
Context (limit : Z) (Hlimit : 0 < limit).
Lemma StronglySorted_take {A} (R : A → A → Prop) n l : StronglySorted R l →
  StronglySorted R (take n l) ∧ ∀ x y, x ∈ take n l → y ∈ drop n l → R x y.
Proof.
  revert n. induction l as [|a l IH]; intros n Hs; [rewrite take_nil, drop_nil; split; [constructor|by intros x y H%elem_of_nil]|].
  apply StronglySorted_inv in Hs as [Hs Ha]. destruct n as [|n]; [split; [constructor|by intros x y H%elem_of_nil]|].
  destruct (IH n Hs) as [H1 H2]. rewrite Forall_forall in Ha. cbn. split.
  - constructor; [done|]. apply Forall_forall. intros x Hx. apply Ha. rewrite <-(take_drop n l). apply elem_of_app. by left.
  - intros x y [->|Hx]%elem_of_cons Hy; [|by apply H2]. apply Ha. rewrite <-(take_drop n l). apply elem_of_app. by right.
Qed.
Lemma last_greatest (l : list Z) : StronglySorted Z.le l → ∀ x, x ∈ l → x <= default 0 (last l).
Proof.
  intros Hs x Hx. destruct l as [|y l _] using rev_ind; [by apply elem_of_nil in Hx|]. rewrite last_snoc. cbn.
  apply elem_of_app in Hx as [Hx|Hx%list_elem_of_singleton]; [|lia]. pose proof (StronglySorted_take Z.le (length l) (l ++ [y]) Hs) as [_ H].
  rewrite take_app_length, drop_app_length in H. apply H; [done|by left].
Qed.
(** A page: the first users after the cursor, all of them or [limit] *)
Record is_page (after : Z) (S : gset Z) (p : list Z) : Prop := {
  ip_in : ∀ x, x ∈ p → after < x ∧ x ∈ S;
  ip_nodup : NoDup p;
  ip_last : ∀ x, x ∈ p → x <= default 0 (last p);
  ip_full : (∀ y, y ∈ S → after < y → y ∈ p) ∨ (Z.of_nat (length p) = limit ∧ ∀ y, y ∈ S → after < y → y ∉ p → default 0 (last p) < y) }.
Lemma page_rows_spec after d : is_page after (members d) (Botstore.page_rows after limit d).
Proof.
  unfold Botstore.page_rows. set (l := sort_slice _ _). assert (Hs : StronglySorted Z.le l).
  { eapply StronglySorted_weaken; [|apply sort_slice_sorted, strict_weak_Zltb]. intros x y H. unfold not_after in H. by apply Z.ltb_ge in H. }
  assert (Hin : ∀ x, x ∈ l ↔ after < x ∧ x ∈ members d) by (intros x; unfold l; by rewrite elem_of_sort_slice, list_elem_of_filter, elem_of_members).
  assert (Hnd : NoDup l) by (unfold l; rewrite sort_slice_perm; apply NoDup_filter, NoDup_fst_map_to_list).
  destruct (StronglySorted_take Z.le (Z.to_nat limit) l Hs) as [Hst Htd]. pose proof (last_greatest _ Hst) as Hlast.
  rewrite <-(take_drop (Z.to_nat limit) l) in Hnd, Hin. apply NoDup_app in Hnd as (Hnd & Hdis & _). split; [|done|done|].
  - intros x Hx. apply Hin, elem_of_app. by left.
  - destruct (Z.le_gt_cases (Z.of_nat (length l)) limit) as [Hle|Hgt].
    + left. intros y Hy Hlt. destruct (proj1 (elem_of_app _ _ _) (proj2 (Hin y) (conj Hlt Hy))) as [?|Hd]; [done|].
      rewrite drop_ge in Hd by lia. by apply elem_of_nil in Hd.
    + right. split; [rewrite length_take; lia|]. intros y Hy Hlt Hno.
      destruct (proj1 (elem_of_app _ _ _) (proj2 (Hin y) (conj Hlt Hy))) as [?|Hd]; [done|].
      destruct (last (take (Z.to_nat limit) l)) as [z|] eqn:Hz; cycle 1.
      { apply last_None in Hz. apply (f_equal length) in Hz. rewrite length_take in Hz. cbn in Hz. lia. }
      apply last_Some_elem_of in Hz. cbn. pose proof (Htd z y Hz Hd). assert (z ≠ y) by (intros ->; by apply (Hdis y)). lia.
Qed.
(** A call on a reliable link *)
Definition next_page (d : BotDb) : list Z :=
  let users := Botstore.page_rows (b_page d) limit d in
  if bool_decide (users = []) && negb (b_page d =? 0) then Botstore.page_rows 0 limit d else users.
Lemma NotificationUsers_steady d : positive_ids d →
  steady (Botstore.NotificationUsers limit) d = (Ok (next_page d), set_page (default 0 (last (next_page d))) d).
Proof.
  intros Hpos. unfold Botstore.NotificationUsers. rewrite (proj2 (Z.leb_gt _ _) Hlimit). unfold Botstore.transact, Botstore.tx.
  assert (Hnext : 0 <= default 0 (last (next_page d))).
  { destruct (last (next_page d)) as [z|] eqn:Hz; [|done]. apply last_Some_elem_of in Hz. cbn.
    assert (∀ c, z ∈ Botstore.page_rows c limit d → 0 < z) as H by (intros c Hz'; apply Hpos; by apply (ip_in _ _ _ (page_rows_spec c d))).
    unfold next_page in Hz. destruct (_ && _); apply H in Hz; lia. }
  rewrite steady_transaction_with; cycle 1.
  { repeat (apply tx_ok_bind; [|intros ?]); try apply tx_ok_wrapping, tx_ok_in_tx; try apply tx_ok_ret. destruct (_ && _); [apply tx_ok_wrapping, tx_ok_in_tx|apply tx_ok_ret]. }
  rewrite steady_bind by apply tx_ok_wrapping, tx_ok_in_tx. rewrite steady_wrapping, steady_in_tx. unfold gets at 1.
  rewrite steady_bind by apply tx_ok_wrapping, tx_ok_in_tx. rewrite steady_wrapping, steady_in_tx. unfold gets at 1.
  assert (Hsel : steady (if bool_decide (Botstore.page_rows (b_page d) limit d = []) && negb (b_page d =? 0)
    then wrapping "bot store: wrap notification users" (in_tx (gets (Botstore.page_rows 0 limit))) else mret (Botstore.page_rows (b_page d) limit d)) d = (Ok (next_page d), d)).
  { unfold next_page. destruct (_ && _); [by rewrite steady_wrapping, steady_in_tx|done]. }
  rewrite steady_bind by (destruct (_ && _); [apply tx_ok_wrapping, tx_ok_in_tx|apply tx_ok_ret]). rewrite Hsel.
  rewrite steady_bind by apply tx_ok_wrapping, tx_ok_in_tx. rewrite steady_wrapping, steady_in_tx.
  unfold Botstore.advance_page, require. by rewrite (proj2 (Z.leb_le _ _) Hnext).
Qed.
(** Pages asked for while users are recorded *)
Inductive page_op := OPage | ORecord (now telegramID : Z).
#[export] Instance page_op_eq : EqDecision page_op.
Proof. solve_decision. Defined.
Fixpoint visits (ops : list page_op) (d : BotDb) : list Z * BotDb :=
  match ops with
  | [] => ([], d)
  | OPage :: ops' =>
      let '(r, d1) := steady (Botstore.NotificationUsers limit) d in
      let '(l, d2) := visits ops' d1 in (match r with Ok p => p | Err _ => [] end ++ l, d2)
  | ORecord now id :: ops' => visits ops' (steady (Botstore.RecordUser now id) d).2
  end.
Definition pages (ops : list page_op) : Z := Z.of_nat (length (filter (λ op, op = OPage) ops)).
(** Counting *)
Section counting.
Context (F : gset Z).
Definition between (a b : Z) : Z := Z.of_nat (size (filter (λ x, a < x ∧ x <= b) F)).
Definition above (a : Z) : Z := Z.of_nat (size (filter (λ x, a < x) F)).
Definition ceil (k : Z) : Z := (k + limit - 1) / limit.
Lemma count_page (P Q : Z → Prop) `{∀ x, Decision (P x)} `{∀ x, Decision (Q x)} (p : list Z) : NoDup p → (∀ x, x ∈ p → x ∈ F ∧ P x ∧ ¬ Q x) → (∀ x, Q x → P x) →
  Z.of_nat (length p) + Z.of_nat (size (filter Q F)) <= Z.of_nat (size (filter P F)).
Proof.
  intros Hnd Hp HQ. rewrite <-(size_list_to_set (C := gset Z) p Hnd), <-Nat2Z.inj_add, <-size_union; [apply inj_le, subseteq_size|]; set_solver.
Qed.
Lemma between_pos a u : u ∈ F → a < u → 1 <= ceil (between a u).
Proof.
  intros Hu Ha. unfold ceil. assert (1 <= between a u); [|apply Z.div_le_lower_bound; lia].
  pose proof (count_page (λ x, a < x ∧ x <= u) (λ _, False) [u] (NoDup_singleton u)) as H. unfold between. cbn in H.
  assert (∀ n, 1 + Z.of_nat n <= Z.of_nat (size (filter (λ x, a < x ∧ x <= u) F)) → 1 <= Z.of_nat (size (filter (λ x, a < x ∧ x <= u) F))) as Hn by lia.
  eapply Hn, H; [|done]. intros x ->%list_elem_of_singleton. split_and!; auto; lia.
Qed.
Lemma ceil_less k k' : limit + k' <= k → ceil k' <= ceil k - 1.
Proof. intros H. unfold ceil. replace (k' + limit - 1) with ((k' + limit + limit - 1) + (-1) * limit) by lia. rewrite Z.div_add by lia. pose proof (Z.div_le_mono (k' + limit + limit - 1) (k + limit - 1) limit). lia. Qed.
Lemma floor_less k k' : limit + k' <= k → k' / limit <= k / limit - 1.
Proof. intros H. replace k' with ((k' + limit) + (-1) * limit) by lia. rewrite Z.div_add by lia. pose proof (Z.div_le_mono (k' + limit) k limit). lia. Qed.
Lemma floor_ceil a k : 0 <= a → 0 <= k → a / limit + ceil k <= ceil (a + k).
Proof.
  intros Ha Hk. unfold ceil. apply Z.div_le_lower_bound; [lia|]. pose proof (Z.mul_div_le a limit Hlimit). pose proof (Z.mul_div_le (k + limit - 1) limit Hlimit). lia.
Qed.
(** The calls until [u] is listed *)
Definition beyond (d : BotDb) : bool := existsb (λ x, b_page d <? x) (elements (members d)).
Definition newcomers (d : BotDb) : Z := Z.of_nat (size F) - Z.of_nat (size (members d)).
Definition wait (d : BotDb) (u : Z) : Z :=
  if b_page d <? u then ceil (between (b_page d) u)
  else above (b_page d) / limit + (if beyond d then 1 else 0) + newcomers d + ceil (between 0 u).
Lemma beyond_spec d : beyond d = true ↔ ∃ x, x ∈ members d ∧ b_page d < x.
Proof.
  unfold beyond. rewrite existsb_exists. split.
  - intros (x & Hx & Hlt). exists x. rewrite <-list_elem_of_In, elem_of_elements in Hx. by apply Z.ltb_lt in Hlt.
  - intros (x & Hx & Hlt). exists x. rewrite <-list_elem_of_In, elem_of_elements. by rewrite Z.ltb_lt.
Qed.
Lemma wait_page d u : members d ⊆ F → positive_ids d → u ∈ members d → u ∉ next_page d →
  wait (set_page (default 0 (last (next_page d))) d) u <= wait d u - 1.
Proof.
  intros HF Hpos Hu Hno. unfold next_page in *. set (p := Botstore.page_rows (b_page d) limit d) in *.
  pose proof (page_rows_spec (b_page d) d) as Hp. fold p in Hp.
  assert (Hfull : ∀ c q, is_page c (members d) q → Z.of_nat (length q) = limit → q ≠ [] → c < default 0 (last q) ∧
    ∀ b, default 0 (last q) <= b → limit + between (default 0 (last q)) b <= between c b ∧ limit + above (default 0 (last q)) <= above c).
  { intros c q [Hin Hnd Hl _] Hlen Hne. assert (Hlast : default 0 (last q) ∈ q).
    { destruct (last q) as [z|] eqn:Hz; [by apply last_Some_elem_of in Hz|]. by apply last_None in Hz. }
    assert (c < default 0 (last q)) by (by apply Hin). split; [done|]. intros b Hb. rewrite <-Hlen. split; apply count_page; try done.
    - intros x Hx. pose proof (Hin x Hx) as [? ?]. pose proof (Hl x Hx). split; [by apply HF|lia].
    - intros x ?. lia.
    - intros x Hx. pose proof (Hin x Hx) as [? ?]. pose proof (Hl x Hx). split; [by apply HF|lia].
    - intros x ?. lia. }
  assert (Hlater : ∀ c q, is_page c (members d) q → c < u → u ∉ q → Z.of_nat (length q) = limit ∧ q ≠ [] ∧ default 0 (last q) < u).
  { intros c q [_ _ _ [Hall|[Hlen Hl]]] Hlt Hq; [by destruct Hq; apply Hall|]. split; [done|]. split; [intros ->; cbn in Hlen; lia|]. by apply Hl. }
  unfold wait at 2. destruct (Z.ltb_spec (b_page d) u) as [Hlt|Hge].
  - destruct (bool_decide (p = []) && _) eqn:Hsel.
    { apply andb_true_iff in Hsel as [Hnil _]. apply bool_decide_eq_true in Hnil. destruct (Hlater _ _ Hp Hlt) as (_ & Hne & _); [rewrite Hnil; by intros ?%elem_of_nil|done]. }
    destruct (Hlater _ _ Hp Hlt Hno) as (Hlen & Hne & Hl). unfold wait. cbn [b_page set_page]. rewrite (proj2 (Z.ltb_lt _ _) Hl).
    apply ceil_less. apply (Hfull _ _ Hp Hlen Hne). lia.
  - assert (Hu0 : 0 < u) by (by apply Hpos). assert (Hsub : 0 <= newcomers d) by (unfold newcomers; apply subseteq_size in HF; lia).
    assert (Ha : ∀ c, 0 <= above c / limit) by (intros c; apply Z.div_pos; [apply Nat2Z.is_nonneg|done]).
    destruct (bool_decide (p = [])) eqn:Hnil.
    + (* the next page starts over *)
      rewrite (proj2 (Z.eqb_neq _ _)) in * by lia. cbn [negb andb] in *. set (q := Botstore.page_rows 0 limit d) in *.
      pose proof (page_rows_spec 0 d) as Hq. fold q in Hq. destruct (Hlater _ _ Hq Hu0 Hno) as (Hlen & Hne & Hl).
      unfold wait. cbn [b_page set_page]. rewrite (proj2 (Z.ltb_lt _ _) Hl).
      pose proof (ceil_less (between 0 u) (between (default 0 (last q)) u)) as H. pose proof (Ha (b_page d)).
      assert (limit + between (default 0 (last q)) u <= between 0 u) by (apply (Hfull _ _ Hq Hlen Hne); lia). destruct (beyond d); lia.
    + cbn [andb] in *. apply bool_decide_eq_false in Hnil. destruct p as [|x p'] eqn:Heq; [done|]. rewrite <-Heq in *.
      assert (Hx : b_page d < x ∧ x ∈ members d) by (apply (ip_in _ _ _ Hp); rewrite Heq; by left).
      assert (Hxl : x <= default 0 (last p)) by (apply (ip_last _ _ _ Hp); rewrite Heq; by left).
      assert (Hb : beyond d = true) by (apply beyond_spec; exists x; destruct Hx; auto). rewrite Hb.
      unfold wait. cbn [b_page set_page]. rewrite (proj2 (Z.ltb_ge _ _)) by lia. change (newcomers (set_page _ d)) with (newcomers d).
      destruct (ip_full _ _ _ Hp) as [Hall|[Hlen _]].
      * assert (Hnb : beyond (set_page (default 0 (last p)) d) = false).
        { apply not_true_iff_false. rewrite beyond_spec. cbn. intros (y & Hy & Hlt). assert (Hyp : y ∈ p) by (apply Hall; [done|lia]).
          apply (ip_last _ _ _ Hp) in Hyp. lia. }
        rewrite Hnb. assert (above (default 0 (last p)) / limit <= above (b_page d) / limit); [|lia].
        apply Z.div_le_mono; [done|]. apply inj_le, subseteq_size. intros y [Hy HyF]%elem_of_filter. apply elem_of_filter. split; [lia|done].
      * assert (Hne : p ≠ []) by (by rewrite Heq). destruct (Hfull _ _ Hp Hlen Hne) as [_ H].
        destruct (H (default 0 (last p))) as [_ Hab]; [done|]. apply floor_less in Hab. destruct (beyond (set_page _ d)); lia.
Qed.
Lemma members_record now id d : members (steady (Botstore.RecordUser now id) d).2 = (if id <=? 0 then members d else {[id]} ∪ members d).
Proof.
  unfold Botstore.RecordUser. destruct (id <=? 0); [done|]. unfold Botstore.pool. rewrite steady_wrapping, steady_autocommit. cbn. unfold members. cbn. apply dom_insert_L.
Qed.
Lemma wait_record now id d u : wait (steady (Botstore.RecordUser now id) d).2 u <= wait d u.
Proof.
  pose proof (members_record now id d) as Hm. set (d' := (steady (Botstore.RecordUser now id) d).2) in *.
  assert (Hp : b_page d' = b_page d).
  { unfold d', Botstore.RecordUser. destruct (id <=? 0); [done|]. unfold Botstore.pool. by rewrite steady_wrapping, steady_autocommit. }
  unfold wait. rewrite Hp. destruct (b_page d <? u); [done|]. destruct (decide (members d' = members d)) as [Hsame|Hnew].
  - unfold beyond, newcomers. rewrite Hp, Hsame. lia.
  - destruct (id <=? 0); [done|]. unfold newcomers. rewrite Hm, size_union, size_singleton by set_solver.
    assert (Hb : beyond d = true → beyond d' = true) by (rewrite !beyond_spec, Hp, Hm; set_solver).
    destruct (beyond d), (beyond d'); lia.
Qed.
End counting.
Lemma positive_record now id d : positive_ids d → positive_ids (steady (Botstore.RecordUser now id) d).2.
Proof. intros Hpos x. rewrite members_record. destruct (Z.leb_spec id 0); [apply Hpos|]. intros [->%elem_of_singleton|Hx]%elem_of_union; [done|by apply Hpos]. Qed.
Lemma visits_page ops d : positive_ids d → visits (OPage :: ops) d =
  let '(l, d2) := visits ops (set_page (default 0 (last (next_page d))) d) in (next_page d ++ l, d2).
Proof. intros Hpos. cbn [visits]. by rewrite NotificationUsers_steady. Qed.
Lemma visits_members ops : ∀ d, positive_ids d → members d ⊆ members (visits ops d).2.
Proof.
  induction ops as [|[|now id] ops IH]; intros d Hpos; [done| |].
  - rewrite visits_page by done. specialize (IH (set_page (default 0 (last (next_page d))) d) Hpos). by destruct (visits ops _).
  - cbn [visits]. etrans; [|by apply IH, positive_record]. rewrite members_record. destruct (id <=? 0); set_solver.
Qed.
Lemma pages_cons op ops : pages (op :: ops) = (if decide (op = OPage) then 1 else 0) + pages ops.
Proof. unfold pages. rewrite filter_cons. destruct (decide _); cbn [length]; lia. Qed.
Lemma visits_all F ops : ∀ d u, positive_ids d → u ∈ members d → members (visits ops d).2 = F → wait F d u <= pages ops → u ∈ (visits ops d).1.
Proof.
  induction ops as [|[|now id] ops IH]; intros d u Hpos Hu HF Hw.
  - exfalso. cbn in HF. subst F. assert (1 <= wait (members d) d u); [|change (pages []) with 0 in Hw; lia].
    unfold wait. destruct (Z.ltb_spec (b_page d) u); [by apply between_pos|]. pose proof (between_pos (members d) 0 u Hu (Hpos u Hu)).
    assert (0 <= above (members d) (b_page d) / limit) by (apply Z.div_pos; [apply Nat2Z.is_nonneg|done]). unfold newcomers. destruct (beyond d); lia.
  - pose proof (visits_members (OPage :: ops) d Hpos) as Hsub. rewrite HF in Hsub. rewrite visits_page in HF |- * by done.
    pose proof (wait_page F d u Hsub Hpos Hu) as Hwp. destruct (decide (u ∈ next_page d)) as [Hin|Hno].
    { destruct (visits ops _). cbn. apply elem_of_app. by left. }
    specialize (IH (set_page (default 0 (last (next_page d))) d) u Hpos Hu). destruct (visits ops _) as [l d2]. cbn in *.
    apply elem_of_app. right. apply IH; [done|]. specialize (Hwp Hno). rewrite pages_cons, decide_True in Hw by done. lia.
  - cbn [visits] in *. apply IH; [by apply positive_record| |done|].
    + rewrite members_record. destruct (id <=? 0); set_solver.
    + etrans; [apply wait_record|]. rewrite pages_cons, decide_False in Hw by done. lia.
Qed.
Lemma wait_bound F d u : members d ⊆ F → positive_ids d → u ∈ members d → wait F d u <= ceil (Z.of_nat (size F)) + 1 + newcomers F d.
Proof.
  intros HF Hpos Hu. assert (Hsub : 0 <= newcomers F d) by (unfold newcomers; apply subseteq_size in HF; lia).
  assert (Hceil : ∀ k k', k <= k' → ceil k <= ceil k') by (intros k k' H; unfold ceil; apply Z.div_le_mono; lia).
  unfold wait. destruct (Z.ltb_spec (b_page d) u) as [Hlt|Hge].
  - assert (ceil (between F (b_page d) u) <= ceil (Z.of_nat (size F))); [|lia]. apply Hceil, inj_le, subseteq_size. intros x [_ Hx]%elem_of_filter. done.
  - assert (above F (b_page d) / limit + ceil (between F 0 u) <= ceil (Z.of_nat (size F))); [|destruct (beyond d); lia].
    etrans; [apply floor_ceil; apply Nat2Z.is_nonneg|]. apply Hceil. unfold above, between. rewrite <-Nat2Z.inj_add, <-size_union.
    + apply inj_le, subseteq_size. intros x [[_ Hx]%elem_of_filter|[_ Hx]%elem_of_filter]%elem_of_union; done.
    + intros x [H1 _]%elem_of_filter [H2 _]%elem_of_filter. lia.
Qed.
End pages.

(** C28: no user starves. The notifier asks for pages of at most [limit] users; the cursor of the pages is kept in the
    table, so it survives restarts. With N users at the end, R of whom were recorded meanwhile, every user recorded
    before is on one of any N / limit (rounded up) + 1 + R pages asked for in a row, from whatever position the
    cursor is in. *)
Theorem every_user_visited limit ops d u : 0 < limit → positive_ids d → u ∈ members d →
  let '(visited, d') := visits limit ops d in
  let N := Z.of_nat (size (members d')) in
  (N + limit - 1) / limit + 1 + (N - Z.of_nat (size (members d))) <= pages ops → u ∈ visited.
Proof.
  intros Hlimit Hpos Hu. pose proof (visits_all limit Hlimit (members (visits limit ops d).2) ops d u Hpos Hu eq_refl) as H.
  pose proof (visits_members limit Hlimit ops d Hpos) as Hsub. destruct (visits limit ops d) as [l d']. cbn in *. intros Hp.
  apply H. etrans; [by apply wait_bound|]. done.
Qed.
Definition paged_db : BotDb := set_page 5 (on_users (λ _, list_to_map ((λ id, (id, (0, 0))) <$> [3; 5; 8; 9; 12])) empty_bot_db).
(** Five users and a newcomer, two to a page, the cursor in the middle *)
Definition paged_ops : list page_op := [OPage; ORecord Second 7; OPage; OPage; OPage; OPage].
Lemma every_user_visited_witness : 3 ∈ (visits 2 paged_ops paged_db).1.
Proof.
  assert (Hpos : positive_ids paged_db).
  { intros id Hid. unfold members, paged_db in Hid. cbn in Hid. rewrite !dom_insert_L, dom_empty_L in Hid. set_unfold. lia. }
  assert (Hu : 3 ∈ members paged_db) by (by apply elem_of_dom).
  pose proof (every_user_visited 2 paged_ops paged_db 3 ltac:(lia) Hpos Hu) as H.
  replace (visits 2 paged_ops paged_db) with (((visits 2 paged_ops paged_db).1, (visits 2 paged_ops paged_db).2)) in H by (by destruct (visits 2 paged_ops paged_db)).
  apply H. vm_compute. discriminate.
Defined.
Example paged_visits : (visits 2 paged_ops paged_db).1 = [8; 9; 12; 3; 5; 7; 8; 9; 12].
Proof. vm_compute. reflexivity. Qed.
