(* ===== verification/DeliveryApi.v ===== *)
(** * Delivery: its HTTP API and the clients of its channels

    services/delivery/internal/httpapi (handlers.go) over the registry of channels, and the network clients of the
    channels: telegram/api.go (Telegram and Max), dns/clients.go (DNS over HTTPS), gitraw/clients.go. One HTTP
    exchange is a call on the environment. The JSON decoders and what net/url makes of an endpoint are parameters. *)
From S2P Require Import Prelude GoBytes GoText GoFloat GoCodec GoUrl Contracts Platform DeliveryWire DeliveryCarriers DeliveryChannels DeliveryOnboarding DeliveryMessages DeliveryBot.

(** ** httpapi/handlers.go *)
Record channelDTO := {
  dto_ID : string; dto_Kind : string; dto_Enabled : bool; dto_Endpoint : string; dto_Priority : Z; dto_Healthy : bool }.
(** [omitempty] leaves out empty strings and zeros. *)
Definition dto_json (d : channelDTO) : json := JObj (
  (if bool_decide (dto_ID d = "") then [] else [("id", JStr (dto_ID d))]) ++
  [("kind", JStr (dto_Kind d)); ("enabled", JBool (dto_Enabled d))] ++
  (if bool_decide (dto_Endpoint d = "") then [] else [("endpoint", JStr (dto_Endpoint d))]) ++
  (if dto_Priority d =? 0 then [] else [("priority", JInt (dto_Priority d))]) ++
  [("healthy", JBool (dto_Healthy d))]).
Definition knownKind (k : string) : bool := one_of k [KindHTTPS; KindDoH; KindDNSTXT; KindTelegram; KindGitHubRaw; KindSteg].
Definition with_header (name value : string) (r : Response) : Response :=
  {| rsp_Status := rsp_Status r; rsp_Header := <[name := value]> (rsp_Header r); rsp_Body := rsp_Body r |}.
Definition methodNotAllowed (allow : string) : Response := with_header "Allow" allow (Error 405 "method not allowed").
Definition writeFetchError (e : error) : Response :=
  if errors_is e ErrNotFound then Error 404 "subscription not found on channel"
  else if errors_is e ErrUnavailable then Error 503 "channel temporarily unavailable"
  else Error 503 "channel error".

Module DeliveryHttp.
Section api.
Context {E : Type} (reg : Registry E) (adminToken : string) (readiness : list (M E unit)).
(** [json.Decoder] on a body cut off with an error after so many bytes *)
Context (decode : Z → list Z → option channelDTO).
Abbreviation Handler := (E → Response * E).
Definition answer (r : Response) : Handler := λ e, (r, e).
Definition health : Handler := answer (Write 200 (JObj [("service", JStr "delivery"); ("status", JStr "ok")])).
Fixpoint check_all (checkers : list (M E unit)) : M E unit :=
  match checkers with [] => mret tt | c :: checkers' => c ;;! check_all checkers' end.
Definition unready (reason : string) (channels : Z) : Response :=
  Write 503 (JObj [("channels", JInt channels); ("reason", JStr reason); ("status", JStr "unready")]).
Definition ready (r : Request) : Handler := λ e,
  if negb (bool_decide (rq_Method r = "GET")) then (methodNotAllowed "GET", e)
  else
    let '(health, e) := Health reg e in
    let healthy := Z.of_nat (size (filter (λ kv, kv.2 = true) health)) in
    if healthy =? 0 then (unready "no healthy channel" (Z.of_nat (size health)), e)
    else
      let '(checked, e) := check_all readiness e in
      match checked with
      | Err _ => (unready "dependency unavailable" (Z.of_nat (size health)), e)
      | Ok _ => (Write 200 (JObj [("channels", JInt (Z.of_nat (size health))); ("healthy_channels", JInt healthy); ("status", JStr "ready")]), e)
      end.
Definition authorizedAdmin (r : Request) : bool :=
  if bool_decide (adminToken = "") then false
  else
    let h := header r "Authorization" in
    if negb (HasPrefix h "Bearer ") then false else bool_decide (TrimPrefix h "Bearer " = adminToken).
Definition listChannels : Handler := λ e,
  let '(health, e) := Health reg e in
  let items := imap (λ i k, dto_json {| dto_ID := ""; dto_Kind := k; dto_Enabled := true; dto_Endpoint := ""; dto_Priority := Z.of_nat i;
                                        dto_Healthy := default false (health !! k) |}) (Kinds reg) in
  (Write 200 (JObj [("items", JArr items)]), e).
Definition createChannel (r : Request) : Handler := answer (
  if negb (authorizedAdmin r) then
    if bool_decide (adminToken = "") then Error 403 "channel admin API disabled (set DELIVERY_ADMIN_TOKEN)"
    else with_header "WWW-Authenticate" "Bearer" (Error 401 "unauthorized")
  else match decode (2 ^ 16) (rq_Body r) with
       | None => Error 400 "invalid channel body"
       | Some dto =>
           if negb (knownKind (dto_Kind dto)) then Error 400 "unknown channel kind"
           else match Get (dto_Kind dto) reg with
                | Some _ => Error 409 "channel already exists"
                | None => Write 201 (dto_json {| dto_ID := dto_ID dto; dto_Kind := dto_Kind dto; dto_Enabled := true; dto_Endpoint := dto_Endpoint dto;
                                                 dto_Priority := dto_Priority dto; dto_Healthy := dto_Healthy dto |})
                end
       end).
Definition channels (r : Request) : Handler :=
  if bool_decide (rq_Method r = "GET") then listChannels
  else if bool_decide (rq_Method r = "POST") then createChannel r
  else answer (methodNotAllowed "GET, POST").
Definition fetchViaChannel (r : Request) : Handler := λ e,
  if negb (bool_decide (rq_Method r = "GET")) then (methodNotAllowed "GET", e)
  else
    let expected := Error 404 "expected /d/{channel}/{token}" in
    match Cut (TrimPrefix (rq_Path r) "/d/") 47 with
    | None => (expected, e)
    | Some (kind, token) =>
        if bool_decide (kind = "") || bool_decide (token = "") then (expected, e)
        else match Get kind reg with
             | None => (Error 404 "channel not found", e)
             | Some ch =>
                 let '(blob, e) := ch_Fetch ch token e in
                 match blob with
                 | Err err => (writeFetchError err, e)
                 | Ok blob => ({| rsp_Status := 200; rsp_Header := <["Content-Type" := "text/plain"]> ∅; rsp_Body := base64 false blob |}, e)
                 end
             end
    end.
Definition not_found : Response :=
  {| rsp_Status := 404; rsp_Header := <["Content-Type" := "text/plain; charset=utf-8"]> ∅; rsp_Body := "404 page not found" +:+ newline |}.
(** ServeMux on a path that is already clean (and not [/d], which it redirects) *)
Definition Routes (r : Request) : Handler :=
  if bool_decide (rq_Path r = "/healthz") then health
  else if bool_decide (rq_Path r = "/readyz") then ready r
  else if bool_decide (rq_Path r = "/v1/channels") then channels r
  else if HasPrefix (rq_Path r) "/d/" then fetchViaChannel r
  else answer not_found.
End api.
End DeliveryHttp.

(** ** The clients *)
Record HttpRequest := { hr_Method : string; hr_URL : string; hr_Header : list (string * string); hr_Body : string }.
(** A response's body: the bytes that arrive, and whether its end is among them or reading then fails *)
Record Body := { bd_Bytes : list Z; bd_Whole : bool }.
(** [io.ReadAll(io.LimitReader(body, n))] *)
Definition ReadLimited (n : Z) (b : Body) : option (list Z) :=
  if n <=? Z.of_nat (length (bd_Bytes b)) then Some (take (Z.to_nat n) (bd_Bytes b))
  else if bd_Whole b then Some (bd_Bytes b) else None.
(** What [json.Unmarshal] makes of one element of getUpdates *)
Record RawMessage := { rm_From : option Z; rm_ChatID : Z; rm_ChatType : string; rm_Text : string }.
Record RawUpdate := { ru_UpdateID : Z; ru_Message : option RawMessage }.
Section clients.
Context {E : Type} (Do : HttpRequest → M E (Z * Body)).
(** [http.NewRequest] takes this URL. *)
Context (NewRequest : string → bool).

(** *** telegram/api.go *)
Definition maxAPIResponseBytes : Z := 64 * 2 ^ 10.
Section telegram.
Context (dec_ok : list Z → option bool) (dec_updates : list Z → option (list RawUpdate)).
Definition readBounded (body : Body) : result (list Z) :=
  match ReadLimited (maxAPIResponseBytes + 1) body with
  | None => Err (Errorf "telegram: read API response")
  | Some b => if maxAPIResponseBytes <? Z.of_nat (length b) then Err (Errorf "telegram: API response too large") else Ok b
  end.
Definition doTelegramRequest (r : HttpRequest) : M E (list Z) :=
  resp ←! try (Do r) ;
  match resp with
  | Err _ => fail (Errorf "telegram: request failed")
  | Ok (status, body) =>
      if negb (status =? 200) then fail (Errorf ("telegram: API status " +:+ itoa status))
      else match readBounded body with
           | Err e => fail e
           | Ok b => match dec_ok b with
                     | Some true => mret b
                     | _ => fail (Errorf "telegram: invalid API response")
                     end
           end
  end.
Definition request (method url contentType body : string) : HttpRequest :=
  {| hr_Method := method; hr_URL := url; hr_Header := [("Content-Type", contentType)]; hr_Body := body |}.
Definition postTelegramForm (endpoint : string) (form : gmap string string) : M E (list Z) :=
  if negb (NewRequest endpoint) then fail (Errorf "telegram: create request")
  else doTelegramRequest (request "POST" endpoint "application/x-www-form-urlencoded" (Values_Encode form)).
Record API := { api_Base : string; api_Token : string }.
Definition endpoint (t : API) (method : string) : string := api_Base t +:+ "/bot" +:+ api_Token t +:+ "/" +:+ method.
Definition unset (t : API) : bool := bool_decide (api_Base t = "") || bool_decide (api_Token t = "").
Definition tg_Send (t : API) (chatID : Z) (text : string) : M E unit :=
  if unset t then fail (Errorf "telegram: base and token required")
  else postTelegramForm (endpoint t "sendMessage") (<["text" := text]> (<["chat_id" := itoa chatID]> ∅)) ;;! mret tt.
Definition keyboard_rows (rows : list (list string)) : list (list string) :=
  filter (λ row, row ≠ []) (filter (λ label, label ≠ "") <$> rows).
Definition message_json (chatID : Z) (m : Message) : json := JObj [
  ("chat_id", JInt chatID); ("text", JStr (ms_Text m));
  ("reply_markup", JObj [
    ("keyboard", JArr ((λ row, JArr ((λ label, JObj [("text", JStr label)]) <$> row)) <$> keyboard_rows (ms_ReplyKeyboard m)));
    ("resize_keyboard", JBool true); ("is_persistent", JBool true)])].
Definition tg_SendMessage (t : API) (chatID : Z) (m : Message) : M E unit :=
  if Nat.eqb (length (ms_ReplyKeyboard m)) 0 then tg_Send t chatID (ms_Text m)
  else if unset t then fail (Errorf "telegram: base and token required")
  else if negb (NewRequest (endpoint t "sendMessage")) then fail (Errorf "telegram: create request")
  else doTelegramRequest (request "POST" (endpoint t "sendMessage") "application/json" (GoUrl.Marshal (message_json chatID m))) ;;! mret tt.
(** Whole seconds, rounded up, at least one *)
Definition poll_seconds (timeout : Duration) : Z :=
  let s := Z.quot timeout Second in
  let s := if Z.rem timeout Second =? 0 then s else s + 1 in
  if s <? 1 then 1 else s.
Definition scan_update (raw : RawUpdate) : Update :=
  match ru_Message raw with
  | None => {| up_UpdateID := ru_UpdateID raw; up_ChatID := 0; up_ChatType := ""; up_UserID := 0; up_Text := "" |}
  | Some m => {| up_UpdateID := ru_UpdateID raw; up_ChatID := rm_ChatID m; up_ChatType := rm_ChatType m;
                 up_UserID := default 0 (rm_From m); up_Text := rm_Text m |}
  end.
Definition GetUpdates (t : API) (offset : Z) (timeout : Duration) : M E (list Update) :=
  if unset t then fail (Errorf "telegram: base and token required")
  else
    body ←! postTelegramForm (endpoint t "getUpdates") (<["timeout" := itoa (poll_seconds timeout)]> (<["offset" := itoa offset]> ∅)) ;
    match dec_updates body with
    | None => fail (Errorf "telegram: invalid result")
    | Some raws => mret (scan_update <$> raws)
    end.
Definition max_Send (m : API) (chatID : Z) (text : string) : M E unit :=
  if unset m then fail (Errorf "max: base and token required")
  else
    let url := api_Base m +:+ "/messages?access_token=" +:+ QueryEscape (api_Token m) +:+ "&chat_id=" +:+ itoa chatID in
    if negb (NewRequest url) then fail (Errorf ("parse " +:+ url))
    else
      resp ←! try (Do (request "POST" url "application/json" (GoUrl.Marshal (JObj [("text", JStr text)])))) ;
      match resp with
      | Err _ => fail (Errorf "messenger: request failed")
      | Ok (status, _) => if (status <? 200) || (300 <=? status) then fail (Errorf ("messenger: API status " +:+ itoa status)) else mret tt
      end.
End telegram.

(** *** dns/clients.go *)
Section doh.
(** The records of the answer, type and data *)
Context (dec_answers : Body → option (list (Z * string))).
(** [url.Parse] of an endpoint, and its text with these query parameters set *)
Context (query_url : string → list (string * string) → result string).
Definition unquoteTXT (data : string) : list string :=
  match (λ f, TrimSuffix (TrimPrefix f quote) quote) <$> Fields data with [] => [data] | out => out end.
Definition txtType : Z := 16.
Definition DoH_LookupTXT (endpoint name : string) : M E (list string) :=
  if bool_decide (endpoint = "") then fail (Errorf "dns: DoH endpoint required")
  else match query_url endpoint [("name", name); ("type", "TXT")] with
       | Err e => fail (wrap_err "dns: bad DoH endpoint" e)
       | Ok url =>
           if negb (NewRequest url) then fail (Errorf ("parse " +:+ url))
           else
             resp ←! Do {| hr_Method := "GET"; hr_URL := url; hr_Header := [("Accept", "application/dns-json")]; hr_Body := "" |} ;
             let '(status, body) := resp in
             if negb (status =? 200) then fail (Errorf ("dns: DoH status " +:+ itoa status))
             else match dec_answers body with
                  | None => fail (Errorf "dns: decode DoH response")
                  | Some answers => mret (concat ((λ a : Z * string, if a.1 =? txtType then unquoteTXT a.2 else []) <$> answers))
                  end
       end.
End doh.

(** *** gitraw/clients.go *)
Definition raw_url (base path : string) : string :=
  TrimRight_slash base +:+ "/" +:+ string_of_bytes (drop_slashes (bytes_of path)).
Definition raw_Get (base path : string) : M E (list Z) :=
  let url := raw_url base path in
  if negb (NewRequest url) then fail (Errorf ("parse " +:+ url))
  else
    resp ←! Do {| hr_Method := "GET"; hr_URL := url; hr_Header := []; hr_Body := "" |} ;
    let '(status, body) := resp in
    if status =? 404 then fail ErrNotFound
    else if negb (status =? 200) then fail (Errorf ("gitraw: " +:+ base +:+ " status " +:+ itoa status))
    else match ReadLimited (2 ^ 20) body with
         | None => fail (Errorf "unexpected EOF")
         | Some b => mret b
         end.
End clients.

(** ** A TXT record over DNS-over-HTTPS *)
Definition quoted (s : string) : string := quote +:+ s +:+ quote.
Lemma unquote_quoted s : TrimSuffix (TrimPrefix (quoted s) quote) quote = s.
Proof.
  assert (∀ t, TrimPrefix (quote +:+ t) quote = t) as Hp.
  { intros t. unfold TrimPrefix, HasPrefix. change (quote +:+ t) with (String (chr 34) t). unfold quote.
    cbn [String.prefix String.length String.substring]. destruct (Ascii.ascii_dec _ _); [|done].
    assert (String.prefix "" t = true) as -> by by destruct t. rewrite Nat.sub_succ, Nat.sub_0_r.
    clear. induction t as [|c t IH]; [done|]. simpl. by rewrite IH. }
  unfold quoted. rewrite Hp. unfold TrimSuffix, HasSuffix. rewrite bytes_of_app, reverse_app. unfold starts_with.
  rewrite bool_decide_eq_true_2 by done. rewrite <-!length_bytes_of, bytes_of_app, length_app.
  change (length (bytes_of quote)) with 1%nat. rewrite Nat.add_sub, length_bytes_of. apply substring_whole.
Qed.

(** Neither a blank nor a byte of a longer character *)
Definition visible (b : Z) : Prop := 32 < b < 128.
Lemma visible_stays b l : visible b → list_find (λ p, starts_with p (b :: l) = true) spaces = None.
Proof.
  intros Hb. apply list_find_None. unfold spaces, visible in *.
  repeat (constructor; [intros E; apply bool_decide_eq_true in E; simpl in E; injection E; intros; lia|]). constructor.
Qed.
Lemma fields_word w rest : Forall visible w → ∀ fuel cur, (length w <= fuel)%nat →
  split_fields fuel cur (w ++ rest) = split_fields (fuel - length w) (cur ++ w) rest.
Proof.
  induction 1 as [|b w Hb _ IH]; intros fuel cur Hf; [by rewrite app_nil_r, Nat.sub_0_r|].
  simpl in Hf. destruct fuel as [|f]; [lia|]. cbn [split_fields app length Nat.sub]. rewrite visible_stays by done.
  rewrite IH by lia. by rewrite <-app_assoc.
Qed.
Fixpoint spaced (ws : list (list Z)) : list Z :=
  match ws with [] => [] | [w] => w | w :: ws' => w ++ 32 :: spaced ws' end.
Lemma fields_spaced ws : Forall (Forall visible) ws → Forall (λ w, w ≠ []) ws → ∀ fuel, (length (spaced ws) <= fuel)%nat →
  split_fields fuel [] (spaced ws) = ws.
Proof.
  assert (∀ w : list Z, w ≠ [] → Nat.eqb (length w) 0 = false) as Hnz by (by intros []).
  induction 1 as [|w ws Hw _ IH]; intros Hn fuel Hf; [by destruct fuel|]. inversion_clear Hn as [|? ? Hne Hn'].
  destruct ws as [|w' ws].
  - simpl in *. pose proof (fields_word w [] Hw fuel [] Hf) as E. rewrite app_nil_r in E. rewrite E.
    destruct (fuel - length w)%nat; simpl; by rewrite Hnz.
  - change (spaced (w :: w' :: ws)) with (w ++ 32 :: spaced (w' :: ws)) in *. rewrite length_app in Hf. cbn [length] in Hf.
    rewrite fields_word by (done || lia). destruct (fuel - length w)%nat as [|f] eqn:Ef; [lia|].
    change (split_fields (S f) ([] ++ w) (32 :: spaced (w' :: ws))) with
      (if Nat.eqb (length w) 0 then split_fields f [] (spaced (w' :: ws)) else w :: split_fields f [] (spaced (w' :: ws))).
    rewrite Hnz by done. f_equal. apply IH; [done|lia].
Qed.

(** The data of a TXT record, its strings quoted and separated by a blank, is read back as those strings. *)
Definition record_data (strs : list string) : string := join " " (quoted <$> strs).
Lemma bytes_of_record strs : bytes_of (record_data strs) = spaced ((λ s, bytes_of (quoted s)) <$> strs).
Proof.
  unfold record_data. induction strs as [|s strs IH]; [done|]. destruct strs as [|s' strs]; [done|].
  change (join " " (quoted <$> s :: s' :: strs)) with (quoted s +:+ " " +:+ join " " (quoted <$> s' :: strs)).
  rewrite !bytes_of_app, IH. done.
Qed.
Lemma unquote_record strs : strs ≠ [] → Forall (λ s, Forall visible (bytes_of s)) strs → unquoteTXT (record_data strs) = strs.
Proof.
  intros Hne Hv. unfold unquoteTXT, Fields. rewrite bytes_of_record, fields_spaced; [|..|lia].
  - assert ((λ f, TrimSuffix (TrimPrefix f quote) quote) <$> (string_of_bytes <$> ((λ s, bytes_of (quoted s)) <$> strs)) = strs) as ->.
    { clear Hne Hv. induction strs as [|s strs IH]; [done|]. cbn [fmap list_fmap].
      rewrite string_of_bytes_of, unquote_quoted. by f_equal. }
    by destruct strs.
  - apply Forall_fmap. eapply Forall_impl; [exact Hv|]. intros s Hs. unfold compose, quoted. rewrite !bytes_of_app, !Forall_app.
    assert (Forall visible (bytes_of quote)) by (repeat constructor; unfold visible; vm_compute; split; done). done.
  - apply Forall_fmap, Forall_true. intros s. unfold compose, quoted. by rewrite bytes_of_app.
Qed.

(** Base32 in small letters has neither blanks nor quotes. *)
Lemma EncodeTXT_visible blob : Forall is_byte blob → Forall (λ s, Forall visible (bytes_of s)) (EncodeTXT blob).
Proof.
  intros Hb. unfold EncodeTXT. pose proof (base32_digits_bound blob Hb) as Hd. apply Forall_fmap.
  assert (Forall visible (dns_encode blob)) as Hv.
  { rewrite dns_encode_digits by done. apply Forall_fmap. eapply Forall_impl; [exact Hd|]. intros d Hdb. simpl in *.
    unfold base32_lower, visible. case_match; lia. }
  rewrite <-(concat_chunked txtStringMax (length (dns_encode blob)) (dns_encode blob)) in Hv. rewrite Forall_concat in Hv.
  eapply Forall_impl; [exact Hv|]. intros c Hc. unfold compose.
  rewrite bytes_of_string_of_bytes; [done|]. eapply Forall_impl; [exact Hc|]. unfold visible, is_byte. lia.
Qed.

Section delivers.
Context {E : Type} (Do : HttpRequest → M E (Z * Body)) (NewRequest : string → bool) (dec_answers : Body → option (list (Z * string)))
  (query_url : string → list (string * string) → result string).
(** The answer may hold other records, and the strings may come in several TXT records. *)
Lemma DoH_LookupTXT_strings endpoint name url e body answers parts :
  endpoint ≠ "" → query_url endpoint [("name", name); ("type", "TXT")] = Ok url → NewRequest url = true →
  (Do {| hr_Method := "GET"; hr_URL := url; hr_Header := [("Accept", "application/dns-json")]; hr_Body := "" |} e).1 = Ok (200, body) →
  dec_answers body = Some answers → filter (λ a, a.1 = txtType) answers = (λ strs, (txtType, record_data strs)) <$> parts →
  Forall (λ strs, strs ≠ [] ∧ Forall (λ s, Forall visible (bytes_of s)) strs) parts →
  (DoH_LookupTXT Do NewRequest dec_answers query_url endpoint name e).1 = Ok (concat parts).
Proof.
  intros He Hu Hn Hd Ha Hf Hp. unfold DoH_LookupTXT. rewrite bool_decide_eq_false_2, Hu, Hn by done. simpl.
  unfold mbind, M_bind. destruct (Do _ e) as [r e1]. simpl in Hd. subst r. simpl. rewrite Ha. simpl. apply (f_equal Ok).
  clear Ha. revert parts Hf Hp. induction answers as [|[t data] answers IH]; intros parts; [by destruct parts|].
  cbn [fmap list_fmap concat fst snd]. rewrite filter_cons. simpl. case_decide as Ht.
  - subst t. destruct parts as [|strs parts]; [done|]. simpl. intros [= -> Hf] [[Hne Hv] Hp]%Forall_cons.
    rewrite unquote_record by done. f_equal. by apply IH.
  - intros Hf Hp. destruct (Z.eqb_spec t txtType); [done|]. by apply IH.
Qed.

(** C24: A blob published in DNS comes back over DNS-over-HTTPS. When the resolver's endpoint answers 200 with an
    answer section whose TXT records hold, quoted and in order, the strings the publisher made of the blob (in one
    record or in several, with whatever other records between them), fetching the key returns the blob. *)
Theorem doh_delivers zone key blob name endpoint url pub e body answers parts :
  Forall is_byte blob → blob ≠ [] → QName zone key = Ok name →
  endpoint ≠ "" → query_url endpoint [("name", name); ("type", "TXT")] = Ok url → NewRequest url = true →
  (Do {| hr_Method := "GET"; hr_URL := url; hr_Header := [("Accept", "application/dns-json")]; hr_Body := "" |} e).1 = Ok (200, body) →
  dec_answers body = Some answers → filter (λ a, a.1 = txtType) answers = (λ strs, (txtType, record_data strs)) <$> parts →
  concat parts = EncodeTXT blob → Forall (λ strs, strs ≠ []) parts →
  (ch_Fetch (dns_Channel KindDoH zone (DoH_LookupTXT Do NewRequest dec_answers query_url endpoint) pub) key e).1 = Ok blob.
Proof.
  intros Hb Hne Hq He Hu Hn Hd Ha Hf Hc Hp. simpl. rewrite Hq. unfold mbind, M_bind, try.
  assert (Forall (λ strs, strs ≠ [] ∧ Forall (λ s, Forall visible (bytes_of s)) strs) parts) as Hv.
  { apply Forall_and. split; [done|]. apply Forall_concat. rewrite Hc. by apply EncodeTXT_visible. }
  pose proof (DoH_LookupTXT_strings endpoint name url e body answers parts He Hu Hn Hd Ha Hf Hv) as Hl.
  destruct (DoH_LookupTXT _ _ _ _ _ _ e) as [r e1]. simpl in Hl. subst r. rewrite Hc.
  destruct (TXT_round_trip blob Hb) as [_ Hr]. rewrite bool_decide_eq_false_2 in Hr by done.
  destruct (EncodeTXT blob) as [|s strs]; [done|]. by rewrite Hr.
Qed.
End delivers.

Definition sample_doh_blob : list Z := repeat 7 170 ++ [255; 0].
Lemma doh_delivers_witness :
  (ch_Fetch (dns_Channel KindDoH "v.example.test"
     (DoH_LookupTXT (E := unit) (λ _, mret (200, {| bd_Bytes := [123; 125]; bd_Whole := true |})) (λ _, true)
        (λ _, Some [(5, "alias.example.test."); (16, record_data (take 1 (EncodeTXT sample_doh_blob))); (16, record_data (drop 1 (EncodeTXT sample_doh_blob)))])
        (λ u _, Ok u) "https://resolver.example.test/dns-query") None) "k" tt).1 = Ok sample_doh_blob.
Proof.
  destruct (QName "v.example.test" "k") as [name|] eqn:Hq; [|exfalso; vm_compute in Hq; done].
  eapply (doh_delivers _ _ _ _ _ "k" sample_doh_blob name _ _ None tt _ _ [take 1 (EncodeTXT sample_doh_blob); drop 1 (EncodeTXT sample_doh_blob)]);
    [|done|exact Hq|done|reflexivity|reflexivity|reflexivity|reflexivity|reflexivity| |].
  - apply (bool_decide_unpack _). vm_compute. exact I.
  - cbn [concat]. by rewrite app_nil_r, take_drop.
  - repeat constructor; by vm_compute.
Defined.
