(* ===== verification/Config.v ===== *)
(** * What each service reads from its environment and refuses to start with

    packages/platform/envcfg, the config packages of control-plane, telemetry, orchestrator, subscription and
    delivery, and the parts of cmd/billing and delivery's internal/app that decide what is started. A process sees
    its variables, the files it opens and its random source; strconv.ParseFloat, net/url and net/netip parsing,
    the JSON decoder of the routing policy and the layout of %q are parameters. *)
From S2P Require Import Prelude GoBytes GoText GoFloat GoTime GoCodec GoTrace GoUrl Contracts Platform ControlHttp ControlApi TelemetryAggregate TelemetryIngest OrchestratorPolicy OrchestratorLoop OrchestratorSafety.
From S2P Require SubscriptionOutput SubscriptionHttp OrchestratorDrain.

Record URL := { url_Scheme : string; url_Host : string; url_User : bool; url_RawQuery : string; url_Fragment : string }.
Class Process := {
  Getenv : string → string;
  rand_key : nat → result (list Z);
  ParseFloat : string → option float64;
  quoted_value : string → string;
  url_Parse : string → option URL }.

(** ** envcfg.go: the messages of the errors so far *)
Module Envcfg.
Abbreviation Env := (M (list string)).
Section env.
Context `{P : Process}.
Definition addf (msg : string) : Env unit := modify (λ errs, errs ++ [msg]).
Definition Env_Err : Env unit := λ errs, (match errs with [] => Ok tt | _ => Err (Errorf (join newline errs)) end, errs).
Definition Str (key def : string) : string := let v := Getenv key in if bool_decide (v = "") then def else v.
(** What Int, Float, Bool and Duration have in common *)
Definition parsed {A} (parse : string → option A) (kind : string) (key : string) (def : A) : Env A :=
  let v := Getenv key in
  if bool_decide (v = "") then mret def
  else match parse v with
       | None => addf ("config: " +:+ key +:+ " must be " +:+ kind +:+ ", got " +:+ quoted_value v) ;;! mret def
       | Some x => mret x
       end.
Definition Int : string → Z → Env Z := parsed Atoi "an integer".
Definition Float : string → float64 → Env float64 := parsed ParseFloat "a number".
(** [strconv.ParseBool] *)
Definition ParseBool (s : string) : option bool :=
  if one_of s ["1"; "t"; "T"; "true"; "TRUE"; "True"] then Some true
  else if one_of s ["0"; "f"; "F"; "false"; "FALSE"; "False"] then Some false else None.
Definition Bool : string → bool → Env bool := parsed ParseBool "a boolean".
Definition non_negative (s : string) : option Duration := d ← ParseDuration s; if d <? 0 then None else Some d.
Definition Dur : string → Duration → Env Duration := parsed non_negative "a non-negative duration".
Definition items (s : string) : list string := filter (λ t, t ≠ "") (TrimSpace <$> Split s 44).
Definition CSV (key : string) : list string :=
  let v := TrimSpace (Getenv key) in if bool_decide (v = "") then [] else items v.
(** [var e envcfg.Env; ... e ...] *)
Definition from_env {A} (m : Env A) : result A := (m []).1.
End env.
End Envcfg.
Import Envcfg.

(** [log.Fatalf] and an error returned from Load come to the same: the process does not start. *)
Definition require_that {S} (ok : bool) (msg : string) : M S unit := if ok then mret tt else fail (Errorf msg).
Definition blank (s : string) : bool := bool_decide (s = "").

(** ** control-plane/internal/config *)
Module ControlConfig.
Record Config := {
  c_SubscriptionTokenKey : list Z; c_Port : string; c_DatabaseURL : string; c_Env : string; c_Tokens : gmap string Role;
  c_RebuildWorkers : Z; c_RebuildBuffer : Z; c_RebuildDurable : bool;
  c_SubscriptionInternalURL : string; c_SubscriptionInternalToken : string; c_SubscriptionTimeoutSeconds : Z }.
Fixpoint parse_entries (out : gmap string Role) (pairs : list string) : result (gmap string Role) :=
  match pairs with
  | [] => Ok out
  | entry :: pairs' =>
      let entry := TrimSpace entry in
      if blank entry then parse_entries out pairs'
      else
        let invalid := Err (Errorf "config: invalid service token entry (want token:role)") in
        match LastCut entry 58 with
        | None => invalid
        | Some (tok, role) =>
            if blank tok || blank role then invalid
            else match ParseRole role with
                 | None => Err (Errorf "config: unknown service token role")
                 | Some role =>
                     match out !! tok with
                     | Some _ => Err (Errorf "config: duplicate service token")
                     | None => parse_entries (<[tok := role]> out) pairs'
                     end
                 end
        end
  end.
Definition parseTokens (raw : string) : result (gmap string Role) :=
  let raw := TrimSpace raw in if blank raw then Ok ∅ else parse_entries ∅ (Split raw 44).
Definition dev_tokens : gmap string Role := list_to_map [
  ("dev-admin-token", RoleAdmin); ("dev-orchestrator-token", RoleOrchestrator); ("dev-telemetry-token", RoleTelemetry);
  ("dev-subscription-token", RoleSubscription); ("dev-billing-token", RoleBilling); ("dev-delivery-token", RoleDelivery)].
Definition all_roles : list Role := [RoleAdmin; RoleOrchestrator; RoleTelemetry; RoleSubscription; RoleBilling; RoleDelivery].
(** The loop over the tokens stops at the first weak one; its error names none of them. *)
Definition weak_token (tok : string) : bool := (String.length tok <? 32)%nat || HasPrefix tok "dev-".
Definition production_tokens (tokens : gmap string Role) : result unit :=
  if existsb (λ kv : string * Role, weak_token kv.1) (map_to_list tokens)
  then Err (Errorf "config: production service tokens must be unique random values of at least 32 characters")
  else match list_find (λ r, r ∉ (map_to_list tokens).*2) all_roles with
       | Some (_, r) => Err (Errorf ("config: service token for role " +:+ r +:+ " is required"))
       | None => Ok tt
       end.

Section load.
Context `{P : Process}.
Definition token_key (env : string) : result (list Z) :=
  let rawKey := Getenv "SUBSCRIPTION_TOKEN_KEY" in
  if blank rawKey && one_of env ["dev"; "test"] then rand_key 32
  else match base64_decode rawKey with
       | Some key => if Nat.eqb (length key) 32 then Ok key else Err (Errorf "config: SUBSCRIPTION_TOKEN_KEY must be base64 encoding of 32 bytes")
       | None => Err (Errorf "config: SUBSCRIPTION_TOKEN_KEY must be base64 encoding of 32 bytes")
       end.
Definition load : Env Config :=
  let env := Str "ENV" "production" in
  workers ←! Int "REBUILD_WORKERS" 4 ;
  buffer ←! Int "REBUILD_BUFFER" 1024 ;
  durable ←! Bool "REBUILD_DURABLE" false ;
  timeout ←! Int "SUBSCRIPTION_TIMEOUT_SECONDS" 5 ;
  Env_Err ;;!
  require_that (negb (blank (Getenv "DATABASE_URL"))) "config: DATABASE_URL is required" ;;!
  require_that (blank (Getenv "SUBSCRIPTION_INTERNAL_URL") || negb (blank (Getenv "SUBSCRIPTION_INTERNAL_TOKEN")))
    "config: SUBSCRIPTION_INTERNAL_TOKEN is required when SUBSCRIPTION_INTERNAL_URL is set" ;;!
  require_that (one_of env ["dev"; "test"; "production"; "prod"]) "config: ENV must be dev, test or production" ;;!
  key ←! (λ errs, (token_key env, errs)) ;
  let production := one_of env ["prod"; "production"] in
  require_that (negb (production && bool_decide (Getenv "SEED" = "true"))) "config: SEED is forbidden in production" ;;!
  tokens ←! (λ errs, (parseTokens (Getenv "CONTROL_PLANE_TOKENS"), errs)) ;
  require_that (negb (Nat.eqb (size tokens) 0) || one_of env ["dev"; "test"]) "config: CONTROL_PLANE_TOKENS is required outside dev" ;;!
  let tokens := if Nat.eqb (size tokens) 0 then dev_tokens else tokens in
  (if production then λ errs, (production_tokens tokens, errs) else mret tt) ;;!
  mret {| c_SubscriptionTokenKey := key; c_Port := Str "PORT" "8081"; c_DatabaseURL := Getenv "DATABASE_URL"; c_Env := env;
          c_Tokens := tokens; c_RebuildWorkers := workers; c_RebuildBuffer := buffer; c_RebuildDurable := production || durable;
          c_SubscriptionInternalURL := Getenv "SUBSCRIPTION_INTERNAL_URL";
          c_SubscriptionInternalToken := Getenv "SUBSCRIPTION_INTERNAL_TOKEN"; c_SubscriptionTimeoutSeconds := timeout |}.
Definition Load : result Config := from_env load.
End load.
End ControlConfig.

(** ** telemetry/internal/config *)
Module TelemetryConfig.
Record Config := {
  t_Port : string; t_InternalToken : string; t_DatabaseURL : string; t_Window : Duration; t_Retention : Duration; t_PruneEvery : Duration;
  t_RatePerSec : Z; t_RateBurst : Z; t_GlobalRate : Z; t_GlobalBurst : Z; t_MaxBatch : Z; t_Verdict : VerdictParams }.
(** A float constant of so many hundredths *)
Definition hundredths (n : Z) : float64 := fdiv (of_int n) (of_int 100).
Section load.
Context `{P : Process}.
Definition load : Env Config :=
  window ←! Dur "TELEMETRY_WINDOW" (15 * Minute) ;
  retention ←! Dur "TELEMETRY_RETENTION" (72 * Hour) ;
  every ←! Dur "TELEMETRY_PRUNE_EVERY" (10 * Minute) ;
  rate ←! Int "TELEMETRY_RATE_PER_SEC" 5 ;
  burst ←! Int "TELEMETRY_RATE_BURST" 50 ;
  globalRate ←! Int "TELEMETRY_GLOBAL_RATE" 2000 ;
  globalBurst ←! Int "TELEMETRY_GLOBAL_BURST" 5000 ;
  maxBatch ←! Int "TELEMETRY_MAX_BATCH" 1000 ;
  minSources ←! Int "TELEMETRY_MIN_SOURCES" 5 ;
  minBlocked ←! Int "TELEMETRY_MIN_BLOCKED_SOURCES" 4 ;
  dead ←! Float "TELEMETRY_DEAD_SHARE" (hundredths 70) ;
  maxOK ←! Float "TELEMETRY_MAX_OK_SHARE" (hundredths 25) ;
  degraded ←! Float "TELEMETRY_DEGRADED_SHARE" (hundredths 40) ;
  spike ←! Float "TELEMETRY_SPIKE_DELTA" (hundredths 30) ;
  spikeMin ←! Int "TELEMETRY_SPIKE_MIN_SOURCES" 3 ;
  Env_Err ;;!
  let token := Str "TELEMETRY_INTERNAL_TOKEN" "" in
  let database := Str "DATABASE_URL" "" in
  let mode := Str "ENV" "production" in
  require_that (one_of mode ["production"; "dev"; "test"]) "config: ENV must be production, dev or test" ;;!
  require_that (negb (bool_decide (mode = "production") && (blank database || blank token)))
    "config: DATABASE_URL and TELEMETRY_INTERNAL_TOKEN required in production" ;;!
  require_that (negb ((window <=? 0) || (retention <=? 0) || (every <=? 0) || (rate <? 1) || (burst <? 1) || (globalRate <? 1) || (globalBurst <? 1) || (maxBatch <? 1)))
    "config: durations, rates and batch sizes must be positive" ;;!
  mret {| t_Port := Str "PORT" "8085"; t_InternalToken := token; t_DatabaseURL := database; t_Window := window; t_Retention := retention;
          t_PruneEvery := every; t_RatePerSec := rate; t_RateBurst := burst; t_GlobalRate := globalRate; t_GlobalBurst := globalBurst;
          t_MaxBatch := maxBatch;
          t_Verdict := {| vp_MinSources := minSources; vp_MinBlockedSources := minBlocked; vp_DeadShareThresh := dead;
                          vp_MaxOKShareForDead := maxOK; vp_DegradedThresh := degraded; vp_SpikeDelta := spike; vp_SpikeMinSources := spikeMin |} |}.
Definition Load : result Config := from_env load.
End load.
End TelemetryConfig.

(** ** orchestrator/internal/config, and the options main makes of it *)
Module OrchestratorConfig.
Record Config := {
  o_Port : string; o_DryRun : bool; o_ReconcileInterval : Duration; o_TelemetryURL : string; o_TelemetryToken : string;
  o_ControlPlaneURL : string; o_ControlPlaneToken : string; o_ScriptsDir : string; o_ScriptTimeout : Duration;
  o_RecommendationMaxAge : Duration; o_ProbeMaxAge : Duration; o_DrainGrace : Duration; o_RotationInterval : Duration;
  o_MaxActionsPerCycle : Z; o_ProbeEnabled : bool; o_ProbeSource : string; o_ProbeTimeout : Duration;
  o_DefaultRegion : string; o_DefaultCloud : string }.
Fixpoint all_positive {S} (ds : list (string * Duration)) : M S unit :=
  match ds with
  | [] => mret tt
  | (env, d) :: ds' => require_that (0 <? d) ("config: " +:+ env +:+ " must be a positive duration") ;;! all_positive ds'
  end.
Section load.
Context `{P : Process}.
Definition max_actions {S} : M S Z :=
  let v := Getenv "MAX_ACTIONS_PER_CYCLE" in
  if blank v then mret 1
  else
    let bad := Errorf ("config: MAX_ACTIONS_PER_CYCLE must be a positive integer, got " +:+ quoted_value v) in
    match Atoi v with Some n => if n <? 1 then fail bad else mret n | None => fail bad end.
Definition load : Env Config :=
  dryRun ←! Bool "DRY_RUN" true ;
  interval ←! Dur "RECONCILE_INTERVAL" Minute ;
  scriptTimeout ←! Dur "SCRIPT_TIMEOUT" (10 * Minute) ;
  recAge ←! Dur "RECOMMENDATION_MAX_AGE" (15 * Minute) ;
  probeAge ←! Dur "PROBE_MAX_AGE" (10 * Minute) ;
  grace ←! Dur "DRAIN_GRACE" (30 * Minute) ;
  rotation ←! Dur "ROTATION_INTERVAL" (24 * Hour) ;
  probe ←! Bool "PROBE_ENABLED" false ;
  probeTimeout ←! Dur "PROBE_TIMEOUT" (10 * Second) ;
  Env_Err ;;!
  all_positive [("RECONCILE_INTERVAL", interval); ("SCRIPT_TIMEOUT", scriptTimeout); ("RECOMMENDATION_MAX_AGE", recAge);
                ("PROBE_MAX_AGE", probeAge); ("DRAIN_GRACE", grace); ("ROTATION_INTERVAL", rotation); ("PROBE_TIMEOUT", probeTimeout)] ;;!
  maxActions ←! max_actions ;
  mret {| o_Port := Str "PORT" "8086"; o_DryRun := dryRun; o_ReconcileInterval := interval; o_TelemetryURL := Getenv "TELEMETRY_URL";
          o_TelemetryToken := Getenv "TELEMETRY_TOKEN"; o_ControlPlaneURL := Getenv "CONTROL_PLANE_URL";
          o_ControlPlaneToken := Getenv "CONTROL_PLANE_TOKEN"; o_ScriptsDir := Str "SCRIPTS_DIR" "infra/scripts";
          o_ScriptTimeout := scriptTimeout; o_RecommendationMaxAge := recAge; o_ProbeMaxAge := probeAge; o_DrainGrace := grace;
          o_RotationInterval := rotation; o_MaxActionsPerCycle := maxActions; o_ProbeEnabled := probe;
          o_ProbeSource := Str "PROBE_SOURCE" "orchestrator-local"; o_ProbeTimeout := probeTimeout;
          o_DefaultRegion := Getenv "DEFAULT_REGION"; o_DefaultCloud := Getenv "DEFAULT_CLOUD" |}.
Definition Load : result Config := from_env load.
End load.
Definition Validate (c : Config) : result unit :=
  if o_DryRun c then Ok tt
  else if blank (o_TelemetryURL c) then Err (Errorf "config: TELEMETRY_URL is required when DRY_RUN=false")
  else if blank (o_ControlPlaneURL c) then Err (Errorf "config: CONTROL_PLANE_URL is required when DRY_RUN=false")
  else if blank (o_TelemetryToken c) then Err (Errorf "config: TELEMETRY_TOKEN is required when DRY_RUN=false")
  else if blank (o_ControlPlaneToken c) then Err (Errorf "config: CONTROL_PLANE_TOKEN is required when DRY_RUN=false")
  else Ok tt.
(** cmd/orchestrator/main.go *)
Definition options (c : Config) : Options := {|
  op_DryRun := o_DryRun c;
  op_Thresholds := {| th_RecommendationMaxAge := o_RecommendationMaxAge c; th_ProbeMaxAge := o_ProbeMaxAge c;
                      th_DrainGrace := o_DrainGrace c; th_MaxActionsPerCycle := o_MaxActionsPerCycle c |};
  op_ProbeEnabled := o_ProbeEnabled c; op_DefaultRegion := o_DefaultRegion c; op_DefaultCloud := o_DefaultCloud c;
  op_RotationInterval := o_RotationInterval c; op_AccessSyncEnabled := true |}.
(** What main starts: nothing, only /healthz, or the loop with these options. *)
Inductive start := Refuses (e : error) | HealthzOnly | Loop (opts : Options).
Definition main `{P : Process} : start :=
  match Load with
  | Err e => Refuses e
  | Ok c => match Validate c with
            | Err e => Refuses e
            | Ok _ => if negb (blank (o_TelemetryURL c)) && negb (blank (o_ControlPlaneURL c)) then Loop (options c) else HealthzOnly
            end
  end.
End OrchestratorConfig.

(** What the checks of an absolute base URL agree on: a host, and neither credentials nor query nor fragment *)
Definition bare_URL (u : URL) : bool := negb (blank (url_Host u)) && negb (url_User u) && blank (url_RawQuery u) && blank (url_Fragment u).

(** ** subscription/internal/config *)
Class NetPrefix `{NetIP} := {
  ParsePrefix : string → option Prefix; Prefix_Addr : Prefix → Addr; Is4In6 : Addr → bool; Bits : Prefix → Z;
  PrefixFrom : Addr → Z → Prefix; Masked : Prefix → Prefix }.
Module SubscriptionConfig.
Import SubscriptionOutput.
Section load.
Context `{P : Process} `{NetPrefix}.
Context (ReadFile : string → result (list Z)) (dec_policy : list Z → result RoutingPolicy).
Record Config := {
  s_Environment : string; s_TrustedProxyCIDRs : list Prefix; s_Port : string; s_ControlPlaneURL : string; s_ControlPlaneToken : string;
  s_ControlPlaneTimeout : Duration; s_DatabaseURL : string; s_CacheTTL : Duration; s_http : SubscriptionHttp.Config }.
Definition LoadRoutingPolicy (path : string) : result RoutingPolicy :=
  match ReadFile path with
  | Err e => Err (wrap_err ("read " +:+ path) e)
  | Ok raw => match dec_policy raw with
              | Err e => Err (wrap_err ("parse " +:+ path) e)
              | Ok rp => RoutingPolicy_Validate rp
              end
  end.
Definition parse_proxy (entry : string) : result Prefix :=
  match ParsePrefix (TrimSpace entry) with
  | None => Err (Errorf "config: SUBSCRIPTION_TRUSTED_PROXY_CIDRS must be comma-separated CIDRs")
  | Some prefix =>
      if Is4In6 (Prefix_Addr prefix) then
        if Bits prefix <? 96 then Err (Errorf "config: mapped IPv4 trusted proxy prefix must have at least 96 bits")
        else Ok (Masked (PrefixFrom (Unmap (Prefix_Addr prefix)) (Bits prefix - 96)))
      else Ok (Masked prefix)
  end.
Fixpoint parse_proxies (entries : list string) : result (list Prefix) :=
  match entries with
  | [] => Ok []
  | entry :: entries' =>
      match parse_proxy entry with
      | Err e => Err e
      | Ok p => match parse_proxies entries' with Err e => Err e | Ok ps => Ok (p :: ps) end
      end
  end.
Definition parseTrustedProxyCIDRs (raw : string) : result (list Prefix) :=
  if blank (TrimSpace raw) then Ok [] else parse_proxies (Split raw 44).
Definition public_URL_ok (env base : string) : bool :=
  match url_Parse base with
  | None => false
  | Some u => bare_URL u && (bool_decide (url_Scheme u = "https") || negb (bool_decide (env = "production")) && bool_decide (url_Scheme u = "http"))
  end.
Definition load : Env Config :=
  hours ←! Int "PROFILE_UPDATE_INTERVAL_HOURS" 12 ;
  ttl ←! Dur "CACHE_TTL" (5 * Minute) ;
  let env := Str "ENV" "production" in
  let base := Str "SUBSCRIPTION_PUBLIC_BASE_URL" "" in
  let cpURL := Str "CONTROL_PLANE_URL" "" in let cpToken := Str "CONTROL_PLANE_TOKEN" "" in
  let internal := Str "INTERNAL_TOKEN" "" in let database := Str "DATABASE_URL" "" in
  Env_Err ;;!
  trusted ←! (λ errs, (parseTrustedProxyCIDRs (Getenv "SUBSCRIPTION_TRUSTED_PROXY_CIDRS"), errs)) ;
  require_that (1 <=? hours) "config: PROFILE_UPDATE_INTERVAL_HOURS must be >= 1" ;;!
  require_that (one_of env ["production"; "dev"; "test"]) "config: ENV must be production, dev or test" ;;!
  require_that (0 <? ttl) "config: CACHE_TTL must be positive" ;;!
  (if bool_decide (env = "production") then
     match list_find (λ r : string * string, r.2 = "") [("DATABASE_URL", database); ("CONTROL_PLANE_URL", cpURL);
             ("CONTROL_PLANE_TOKEN", cpToken); ("INTERNAL_TOKEN", internal); ("SUBSCRIPTION_PUBLIC_BASE_URL", base)] with
     | Some (_, r) => fail (Errorf ("config: " +:+ r.1 +:+ " required in production"))
     | None => mret tt
     end
   else mret tt) ;;!
  require_that (blank base || public_URL_ok env base) "config: SUBSCRIPTION_PUBLIC_BASE_URL must be an absolute HTTPS URL in production" ;;!
  rp ←! wrapping "config: routing policy" (λ errs, (LoadRoutingPolicy (Str "ROUTING_POLICY_FILE" "config/routing.ru.json"), errs)) ;
  mret {| s_Environment := env; s_TrustedProxyCIDRs := trusted; s_Port := Str "PORT" "8082"; s_ControlPlaneURL := cpURL;
          s_ControlPlaneToken := cpToken; s_ControlPlaneTimeout := 5 * Second; s_DatabaseURL := database; s_CacheTTL := ttl;
          s_http := {| SubscriptionHttp.cf_PublicBaseURL := base; SubscriptionHttp.cf_InternalToken := internal;
                       SubscriptionHttp.cf_ProfileUpdateHours := hours;
                       SubscriptionHttp.cf_ProfileTitle := Str "SUBSCRIPTION_PROFILE_TITLE" "";
                       SubscriptionHttp.cf_SupportURL := Str "SUBSCRIPTION_SUPPORT_URL" "";
                       SubscriptionHttp.cf_ProfileWebPageURL := Str "SUBSCRIPTION_WEB_PAGE_URL" "";
                       SubscriptionHttp.cf_Announce := Str "SUBSCRIPTION_ANNOUNCE" ""; SubscriptionHttp.cf_Routing := rp |} |}.
Definition Load : result Config := from_env load.
End load.
End SubscriptionConfig.

(** ** delivery/internal/config *)
Module DeliveryConfig.
Record BotTunables := {
  b_RatePerSec : Z; b_Burst : Z; b_Cooldown : Duration; b_DefaultPlan : string; b_DefaultCurrency : string; b_SetupURL : string;
  b_SupportURL : string; b_NotifyInterval : Duration; b_NotifyWindow : Duration; b_NotifyBatchSize : Z }.
Record Config := {
  d_Port : string; d_Env : string; d_BotEnabled : bool; d_DatabaseURL : string; d_ControlPlaneBase : string; d_ControlPlaneToken : string;
  d_BillingBase : string; d_BillingToken : string; d_PublicSubBase : string; d_HTTPTimeout : Duration; d_PollTimeout : Duration;
  d_RetryDelay : Duration; d_AdminToken : string; d_ArtifactMaxAge : Duration; d_SignKeyID : string; d_SignSeedB64 : string;
  d_VerifyKeys : gmap string string; d_SealKeyB64 : string; d_DNSZone : string; d_DoHEndpoint : string; d_GitRawMirrors : list string;
  d_TelegramBase : string; d_TelegramToken : string; d_MaxBase : string; d_MaxToken : string; d_Bot : BotTunables }.
(** A later pair replaces an earlier one of its id; a pair without an id is left out. *)
Definition parseKeyMap (pairs : list string) : gmap string string :=
  foldl (λ m entry, match Cut entry 58 with
                    | Some (id, pub) => if blank id then m else <[id := pub]> m
                    | None => m
                    end) ∅ pairs.
Definition validBase64Key (raw : string) : bool :=
  match base64_decode raw with Some k => Nat.eqb (length k) 32 | None => false end.
Section load.
Context `{P : Process} `{ord : !MapOrder}.
Definition requireURL {S} (name raw : string) (httpsOnly : bool) : M S unit :=
  let absolute := fail (Errorf ("config: " +:+ name +:+ " must be an absolute HTTP URL")) in
  match url_Parse raw with
  | None => absolute
  | Some u =>
      if negb (bare_URL u) || negb (one_of (url_Scheme u) ["http"; "https"]) then absolute
      else require_that (negb httpsOnly || bool_decide (url_Scheme u = "https")) ("config: " +:+ name +:+ " must use HTTPS")
  end.
(** Go visits the entries of a map in an order of its own: it decides which missing variable is named. *)
Definition required (c : Config) : gmap string string := list_to_map [
  ("DATABASE_URL", d_DatabaseURL c); ("DELIVERY_CONTROL_PLANE_BASE", d_ControlPlaneBase c);
  ("DELIVERY_CONTROL_PLANE_TOKEN", d_ControlPlaneToken c); ("DELIVERY_BILLING_BASE", d_BillingBase c);
  ("DELIVERY_BILLING_TOKEN", d_BillingToken c); ("DELIVERY_TELEGRAM_BASE", d_TelegramBase c);
  ("DELIVERY_TELEGRAM_TOKEN", d_TelegramToken c); ("DELIVERY_PUBLIC_SUBSCRIPTION_BASE", d_PublicSubBase c)].
Fixpoint all_given {S} (vars : list (string * string)) : M S unit :=
  match vars with
  | [] => mret tt
  | (name, value) :: vars' =>
      require_that (negb (blank (TrimSpace value))) ("config: " +:+ name +:+ " is required when delivery bot is enabled") ;;! all_given vars'
  end.
Fixpoint urls_given {S} (httpsOnly : bool) (vars : list (string * string)) : M S unit :=
  match vars with
  | [] => mret tt
  | (name, raw) :: vars' => (if blank raw then mret tt else requireURL name raw httpsOnly) ;;! urls_given httpsOnly vars'
  end.
Definition all_positive (c : Config) : bool :=
  (0 <? d_HTTPTimeout c) && (0 <? d_PollTimeout c) && (0 <? d_RetryDelay c) &&
  (0 <? b_NotifyInterval (d_Bot c)) && (0 <? b_NotifyWindow (d_Bot c)) && (0 <? b_NotifyBatchSize (d_Bot c)).
Definition Validate {S} (c : Config) : M S unit :=
  let production := bool_decide (d_Env c = "production") in
  require_that (one_of (d_Env c) ["production"; "dev"; "test"]) "config: ENV must be production, dev, or test" ;;!
  require_that (SubscriptionPlan_Valid (b_DefaultPlan (d_Bot c))) "config: DELIVERY_BOT_DEFAULT_PLAN is invalid" ;;!
  require_that (negb (blank (TrimSpace (b_DefaultCurrency (d_Bot c))))) "config: DELIVERY_BOT_DEFAULT_CURRENCY is required" ;;!
  require_that (negb production || d_BotEnabled c) "config: DELIVERY_BOT_ENABLED must be true in production" ;;!
  require_that (negb production || negb (blank (d_SignSeedB64 c) || blank (d_SealKeyB64 c)))
    "config: DELIVERY_SIGN_SEED and DELIVERY_SEAL_KEY are required in production" ;;!
  require_that (blank (d_SignSeedB64 c) || validBase64Key (d_SignSeedB64 c)) "config: DELIVERY_SIGN_SEED must be base64 for 32 bytes" ;;!
  require_that (blank (d_SealKeyB64 c) || validBase64Key (d_SealKeyB64 c)) "config: DELIVERY_SEAL_KEY must be base64 for 32 bytes" ;;!
  if negb (d_BotEnabled c) then mret tt
  else
    all_given (range (required c)) ;;!
    require_that (all_positive c) "config: delivery HTTP, poll, retry, and notification settings must be positive" ;;!
    requireURL "DELIVERY_CONTROL_PLANE_BASE" (d_ControlPlaneBase c) false ;;!
    requireURL "DELIVERY_BILLING_BASE" (d_BillingBase c) false ;;!
    requireURL "DELIVERY_TELEGRAM_BASE" (d_TelegramBase c) production ;;!
    requireURL "DELIVERY_PUBLIC_SUBSCRIPTION_BASE" (d_PublicSubBase c) production ;;!
    urls_given production (range (list_to_map [("DELIVERY_BOT_SETUP_URL", b_SetupURL (d_Bot c)); ("DELIVERY_BOT_SUPPORT_URL", b_SupportURL (d_Bot c))] : gmap string string)).
Definition load : Env Config :=
  let env := Str "ENV" "production" in
  enabled ←! Bool "DELIVERY_BOT_ENABLED" (bool_decide (env = "production")) ;
  http ←! Dur "DELIVERY_HTTP_TIMEOUT" (10 * Second) ;
  poll ←! Dur "DELIVERY_TELEGRAM_POLL_TIMEOUT" (25 * Second) ;
  retry ←! Dur "DELIVERY_RETRY_DELAY" Second ;
  maxAge ←! Dur "DELIVERY_ARTIFACT_MAX_AGE" 0 ;
  rate ←! Int "DELIVERY_BOT_RATE_PER_SEC" 1 ;
  burst ←! Int "DELIVERY_BOT_BURST" 5 ;
  cooldown ←! Dur "DELIVERY_BOT_COOLDOWN" (3 * Second) ;
  interval ←! Dur "DELIVERY_NOTIFY_INTERVAL" (15 * Minute) ;
  window ←! Dur "DELIVERY_NOTIFY_WINDOW" (72 * Hour) ;
  batch ←! Int "DELIVERY_NOTIFY_BATCH_SIZE" 100 ;
  let c := {|
    d_Port := Str "PORT" "8083"; d_Env := env; d_BotEnabled := enabled; d_DatabaseURL := Str "DATABASE_URL" "";
    d_ControlPlaneBase := TrimRight_slash (Str "DELIVERY_CONTROL_PLANE_BASE" ""); d_ControlPlaneToken := Str "DELIVERY_CONTROL_PLANE_TOKEN" "";
    d_BillingBase := TrimRight_slash (Str "DELIVERY_BILLING_BASE" ""); d_BillingToken := Str "DELIVERY_BILLING_TOKEN" "";
    d_PublicSubBase := TrimRight_slash (Str "DELIVERY_PUBLIC_SUBSCRIPTION_BASE" ""); d_HTTPTimeout := http; d_PollTimeout := poll;
    d_RetryDelay := retry; d_AdminToken := Str "DELIVERY_ADMIN_TOKEN" ""; d_ArtifactMaxAge := maxAge;
    d_SignKeyID := Str "DELIVERY_SIGN_KEY_ID" "delivery-v1"; d_SignSeedB64 := Str "DELIVERY_SIGN_SEED" "";
    d_VerifyKeys := parseKeyMap (CSV "DELIVERY_VERIFY_KEYS"); d_SealKeyB64 := Str "DELIVERY_SEAL_KEY" "";
    d_DNSZone := Str "DELIVERY_DNS_ZONE" ""; d_DoHEndpoint := Str "DELIVERY_DOH_ENDPOINT" ""; d_GitRawMirrors := CSV "DELIVERY_GITRAW_MIRRORS";
    d_TelegramBase := TrimRight_slash (Str "DELIVERY_TELEGRAM_BASE" ""); d_TelegramToken := Str "DELIVERY_TELEGRAM_TOKEN" "";
    d_MaxBase := TrimRight_slash (Str "DELIVERY_MAX_BASE" ""); d_MaxToken := Str "DELIVERY_MAX_TOKEN" "";
    d_Bot := {| b_RatePerSec := rate; b_Burst := burst; b_Cooldown := cooldown;
                b_DefaultPlan := Str "DELIVERY_BOT_DEFAULT_PLAN" SubscriptionPlanBasic;
                b_DefaultCurrency := ToUpper (Str "DELIVERY_BOT_DEFAULT_CURRENCY" "XMR");
                b_SetupURL := TrimSpace (Str "DELIVERY_BOT_SETUP_URL" ""); b_SupportURL := TrimSpace (Str "DELIVERY_BOT_SUPPORT_URL" "");
                b_NotifyInterval := interval; b_NotifyWindow := window; b_NotifyBatchSize := batch |} |} in
  Env_Err ;;! Validate c ;;! mret c.
Definition Load : result Config := from_env load.
End load.
End DeliveryConfig.

(** ** Reading: a start without an error has read every variable as its parser does *)
Definition reads_as `{P : Process} {A} (parse : string → option A) (key : string) (def x : A) : Prop :=
  if bool_decide (Getenv key = "") then x = def else parse (Getenv key) = Some x.
Section reading.
Context `{P : Process}.
Lemma parsed_clean {A} (parse : string → option A) kind key def errs x :
  parsed parse kind key def errs = (Ok x, []) → errs = [] ∧ reads_as parse key def x.
Proof.
  unfold parsed, reads_as. case_bool_decide; [by intros [= -> ->]|]. destruct (parse _) as [y|]; [by intros [= -> ->]|].
  intros [= _ E]. by destruct errs.
Qed.
Lemma Env_Err_clean errs errs' : Env_Err errs = (Ok tt, errs') ↔ errs = [] ∧ errs' = [].
Proof. unfold Env_Err. destruct errs; (split; [by intros [=]|by intros [[=] ->]]). Qed.
Lemma required_ok {S} ok msg (s s' : S) : require_that ok msg s = (Ok tt, s') ↔ ok = true ∧ s' = s.
Proof. unfold require_that. destruct ok; (split; [by intros [=]|by intros [[=] ->]]). Qed.
Lemma lift_runs {S A} (r : result A) (s : S) a s' : (λ s : S, (r, s)) s = (Ok a, s') ↔ r = Ok a ∧ s' = s.
Proof. naive_solver. Qed.
Lemma from_env_runs {A} (m : Env A) a : from_env m = Ok a ↔ ∃ errs, m [] = (Ok a, errs).
Proof. unfold from_env. destruct (m []) as [r errs]. naive_solver. Qed.
End reading.
(** Take a successful run apart: what each step returned, and what each check found. *)
Ltac unwind H :=
  repeat match type of H with
  | mbind _ _ _ = (Ok _, _) => apply bind_runs in H;
      let x := fresh "x" in let errs := fresh "errs" in let E := fresh "E" in destruct H as (x & errs & E & H)
  end.
Ltac settle :=
  repeat match goal with
  | E : Env_Err _ = (Ok ?u, _) |- _ => destruct u; apply Env_Err_clean in E as [-> ->]
  | E : require_that _ _ _ = (Ok ?u, _) |- _ => destruct u; apply required_ok in E as [? ->]
  | E : parsed _ _ _ _ _ = (Ok _, []) |- _ => let Hn := fresh in apply parsed_clean in E as [Hn ?]; try subst; try clear Hn
  | E : (_, _) = (Ok _, _) |- _ => injection E as ? ?; subst
  | E : Int _ _ _ = (Ok _, _) |- _ => unfold Int in E
  | E : Float _ _ _ = (Ok _, _) |- _ => unfold Float in E
  | E : Bool _ _ _ = (Ok _, _) |- _ => unfold Bool in E
  | E : Dur _ _ _ = (Ok _, _) |- _ => unfold Dur in E
  | E : mret _ _ = (Ok _, _) |- _ => injection E as <- <-
  end.

(** What the checks say *)
Ltac checked :=
  repeat match goal with
  | E : negb ?b = true |- _ => assert (b = false) by (by destruct b); clear E
  | E : negb ?b = false |- _ => assert (b = true) by (by destruct b); clear E
  | E : _ && _ = true |- _ => apply andb_true_iff in E as [? ?]
  | E : _ || _ = false |- _ => apply orb_false_iff in E as [? ?]
  | E : blank _ = false |- _ => apply bool_decide_eq_false in E
  | E : blank _ = true |- _ => apply bool_decide_eq_true in E
  | E : bool_decide _ = false |- _ => apply bool_decide_eq_false in E
  | E : bool_decide _ = true |- _ => apply bool_decide_eq_true in E
  end.

(** ** control-plane: the tokens of CONTROL_PLANE_TOKENS, and no others *)
Lemma cut_byte_split sep l : ∀ seen l1 l2, cut_byte sep seen l = Some (l1, l2) → reverse seen ++ l = l1 ++ sep :: l2.
Proof.
  induction l as [|b l IH]; intros seen l1 l2; simpl; [done|]. destruct (Z.eqb_spec b sep) as [->|_]; [by intros [= <- <-]|].
  intros E%IH. by rewrite reverse_cons, <-app_assoc in E.
Qed.
Lemma LastCut_split s sep a b : LastCut s sep = Some (a, b) → bytes_of s = bytes_of a ++ sep :: bytes_of b.
Proof.
  unfold LastCut. destruct (cut_byte sep [] (reverse (bytes_of s))) as [[after before]|] eqn:E; [|done]. simpl. intros [= <- <-].
  apply cut_byte_split in E. simpl in E. apply (f_equal reverse) in E. rewrite reverse_involutive, reverse_app, reverse_cons, <-app_assoc in E.
  pose proof (bytes_of_bound s) as Hb. rewrite E in Hb. apply Forall_app in Hb as [H1 [_ H2]%Forall_cons].
  by rewrite E, !bytes_of_string_of_bytes.
Qed.
Lemma LastCut_app a b sep s : Forall (λ c, c ≠ sep) (bytes_of b) → bytes_of s = bytes_of a ++ sep :: bytes_of b → LastCut s sep = Some (a, b).
Proof.
  intros Hb E. unfold LastCut. rewrite E, reverse_app, reverse_cons, <-app_assoc. simpl.
  rewrite cut_byte_app by by apply Forall_reverse. simpl. by rewrite !reverse_involutive, !string_of_bytes_of.
Qed.
Module ControlStart.
Import ControlConfig.
(** The entry token:role *)
Definition names (entry tok : string) (role : Role) : Prop := TrimSpace entry = tok +:+ ":" +:+ role ∧ tok ≠ "" ∧ role ∈ all_roles.
Lemma roles_without_colon role : role ∈ all_roles → Forall (λ c, c ≠ 58) (bytes_of role) ∧ ParseRole role = Some role.
Proof.
  intros H. assert (Forall (λ r, Forall (λ c, c ≠ 58) (bytes_of r) ∧ ParseRole r = Some r) all_roles) as Hall.
  { apply (bool_decide_unpack _). vm_compute. exact I. }
  rewrite Forall_forall in Hall. by apply Hall.
Qed.
Lemma ParseRole_known s role : ParseRole s = Some role → role = s ∧ role ∈ all_roles.
Proof.
  unfold ParseRole, one_of. case_bool_decide as Hs; [|done]. by intros [= <-].
Qed.
Lemma colon_entry tok role : bytes_of (tok +:+ ":" +:+ role) = bytes_of tok ++ 58 :: bytes_of role.
Proof. by rewrite !bytes_of_app. Qed.
Lemma names_cut entry tok role : names entry tok role → LastCut (TrimSpace entry) 58 = Some (tok, role) ∧ blank (TrimSpace entry) = false ∧ blank tok = false.
Proof.
  intros (E & Ht & Hr). destruct (roles_without_colon role Hr) as [Hc _]. split_and!.
  - apply LastCut_app; [done|]. by rewrite E, colon_entry.
  - rewrite E. apply bool_decide_eq_false. intros E'. apply (f_equal bytes_of) in E'. rewrite colon_entry in E'. by destruct (bytes_of tok).
  - by apply bool_decide_eq_false.
Qed.
Lemma cut_names entry tok s role : LastCut (TrimSpace entry) 58 = Some (tok, s) → blank tok = false → ParseRole s = Some role → names entry tok role.
Proof.
  intros Hc Hb [-> Hr]%ParseRole_known. split_and!; [|by apply bool_decide_eq_false in Hb|done].
  apply bytes_of_inj. rewrite colon_entry. by apply LastCut_split.
Qed.
Lemma names_unique entry tok role tok' role' : names entry tok role → names entry tok' role' → tok = tok' ∧ role = role'.
Proof. intros [E1 _]%names_cut [E2 _]%names_cut. rewrite E1 in E2. by injection E2. Qed.

Lemma parse_entries_exact pairs : ∀ out m, parse_entries out pairs = Ok m →
  ∀ tok role, m !! tok = Some role ↔ out !! tok = Some role ∨ Exists (λ e, names e tok role) pairs.
Proof.
  induction pairs as [|e pairs IH]; intros out m; simpl.
  { intros [= <-] tok role. rewrite Exists_nil. tauto. }
  destruct (blank (TrimSpace e)) eqn:Hb.
  { intros Hm tok role. rewrite (IH _ _ Hm), Exists_cons. split; [tauto|]. intros [?|[Hn|?]]; [tauto| |tauto].
    apply names_cut in Hn as (_ & Hn & _). congruence. }
  destruct (LastCut (TrimSpace e) 58) as [[t s]|] eqn:Hc; [|done]. destruct (blank t) eqn:Ht; [done|]. destruct (blank s); [done|].
  destruct (ParseRole s) as [r|] eqn:Hr; [|done]. destruct (out !! t) eqn:Ho; [done|]. intros Hm tok role.
  pose proof (cut_names e t s r Hc Ht Hr) as Hn. cbn [orb] in Hm. rewrite (IH _ _ Hm), Exists_cons, lookup_insert_Some. split.
  - intros [[[<- <-]|[_ ?]]|?]; tauto.
  - intros [Hl|[Hn'|?]]; [|destruct (names_unique _ _ _ _ _ Hn Hn') as [<- <-]; tauto|tauto].
    left. right. split; [congruence|done].
Qed.
Lemma parseTokens_exact raw m : parseTokens raw = Ok m →
  ∀ tok role, m !! tok = Some role ↔ Exists (λ e, names e tok role) (Split (TrimSpace raw) 44).
Proof.
  unfold parseTokens. destruct (blank (TrimSpace raw)) eqn:Hb.
  - apply bool_decide_eq_true in Hb as ->. intros [= <-] tok role. rewrite lookup_empty. change (Split "" 44) with [""]. rewrite Exists_cons, Exists_nil.
    split; [done|]. intros [(E & _)|[]]. exfalso. apply (f_equal bytes_of) in E. rewrite colon_entry in E. change (bytes_of (TrimSpace "")) with (@nil Z) in E.
    by destruct (bytes_of tok).
  - intros Hm tok role. rewrite (parse_entries_exact _ _ _ Hm), lookup_empty. naive_solver.
Qed.
Lemma production_tokens_ok tokens : ControlConfig.production_tokens tokens = Ok tt →
  (∀ tok role, tokens !! tok = Some role → weak_token tok = false) ∧ (∀ role, role ∈ all_roles → ∃ tok, tokens !! tok = Some role).
Proof.
  unfold ControlConfig.production_tokens. destruct (existsb _ _) eqn:Hw; [done|]. destruct (list_find _ _) as [[? ?]|] eqn:Hf; [done|]. intros _. split.
  - intros tok role Hl. destruct (weak_token tok) eqn:E; [|done]. rewrite <-Hw. symmetry. apply existsb_exists. exists (tok, role).
    split; [|done]. by apply list_elem_of_In, elem_of_map_to_list.
  - intros role Hr. apply list_find_None in Hf. rewrite Forall_forall in Hf. specialize (Hf role Hr).
    apply dec_stable in Hf. apply list_elem_of_fmap in Hf as ([tok r] & -> & Hin). exists tok. by apply elem_of_map_to_list.
Qed.

Section start.
Context `{P : Process}.
Definition listed : list string := Split (TrimSpace (Getenv "CONTROL_PLANE_TOKENS")) 44.
Lemma production_env : one_of (Str "ENV" "production") ["dev"; "test"; "production"; "prod"] = true →
  one_of (Str "ENV" "production") ["dev"; "test"] = false → one_of (Str "ENV" "production") ["prod"; "production"] = true.
Proof. unfold one_of. rewrite !bool_decide_eq_true, bool_decide_eq_false. set_solver. Qed.
Lemma Load_production c : Load = Ok c → one_of (Str "ENV" "production") ["dev"; "test"] = false →
  c_RebuildDurable c = true ∧ Getenv "SEED" ≠ "true" ∧ c_DatabaseURL c ≠ "" ∧ length (c_SubscriptionTokenKey c) = 32%nat ∧
  parseTokens (Getenv "CONTROL_PLANE_TOKENS") = Ok (c_Tokens c) ∧ ControlConfig.production_tokens (c_Tokens c) = Ok tt.
Proof.
  intros [errs Hl]%from_env_runs He. unfold load in Hl. unwind Hl. settle. rewrite production_env in * by done.
  rewrite He, orb_false_r in *. cbn [andb] in *. settle. checked. simpl.
  match goal with u : () |- _ => destruct u end.
  match goal with E : Nat.eqb (size _) 0 = false |- _ => rewrite E in * end.
  split_and!; try done. 
  match goal with E : token_key _ = Ok ?k |- _ => revert E end. unfold token_key. rewrite He, andb_false_r.
  destruct (base64_decode _) as [k|]; [|done]. destruct (Nat.eqb_spec (length k) 32); [by intros [= <-]|done].
Qed.

(** C30: Who the control-plane obeys in production. When it starts with ENV unset or naming production, a bearer
    token has a role exactly when an entry token:role of CONTROL_PLANE_TOKENS gives it that role (an entry given
    twice, an unknown role or a malformed entry keeps it from starting); such a token has at least 32 bytes and is
    none of the development tokens, and each of the six roles has one. *)
Theorem roles_as_listed `{ord : !MapOrder} c : Load = Ok c → one_of (Str "ENV" "production") ["dev"; "test"] = false →
  let granted presented role := TokenStore_Resolve (NewTokenStore (c_Tokens c)) presented = Some role in
  (∀ presented role, granted presented role ↔ Exists (λ e, names e presented role) listed) ∧
  (∀ presented role, granted presented role → (32 <= String.length presented)%nat ∧ HasPrefix presented "dev-" = false) ∧
  (∀ role, role ∈ all_roles → ∃ presented, granted presented role).
Proof.
  intros Hl He granted. destruct (Load_production c Hl He) as (_ & _ & _ & _ & Hp & Hok). destruct (production_tokens_ok _ Hok) as [Hw Hr].
  unfold granted, NewTokenStore. split_and!; intros *; rewrite ?TokenStore_Resolve_lookup.
  - by apply parseTokens_exact.
  - intros Hg%Hw. unfold weak_token in Hg. checked. split; [|done]. by apply Nat.ltb_ge.
  - intros Hin. destruct (Hr _ Hin) as [tok Ht]. exists tok. by rewrite TokenStore_Resolve_lookup.
Qed.
End start.

Definition demo_token (role : Role) : string := role +:+ "-0123456789abcdef0123456789abcdef".
Definition demo_process : Process := {|
  Getenv := λ v, if bool_decide (v = "DATABASE_URL") then "postgres://db"
                 else if bool_decide (v = "SUBSCRIPTION_TOKEN_KEY") then base64 false (repeat 7 32)
                 else if bool_decide (v = "CONTROL_PLANE_TOKENS") then join " , " ((λ r, demo_token r +:+ ":" +:+ r) <$> all_roles) else "";
  rand_key := λ _, Err (Errorf "no random source"); ParseFloat := λ _, None; quoted_value := id; url_Parse := λ _, None |}.
Lemma roles_as_listed_witness : ∃ c, Load (P := demo_process) = Ok c ∧
  TokenStore_Resolve (ord := key_order) (NewTokenStore (c_Tokens c)) (demo_token RoleBilling) = Some RoleBilling ∧
  TokenStore_Resolve (ord := key_order) (NewTokenStore (c_Tokens c)) "dev-admin-token" = None.
Proof.
  destruct (Load (P := demo_process)) as [c|] eqn:E; [|exfalso; by vm_compute in E]. exists c. split; [done|].
  assert (one_of (Str (P := demo_process) "ENV" "production") ["dev"; "test"] = false) as He by (vm_compute; reflexivity).
  destruct (roles_as_listed (P := demo_process) (ord := key_order) c E He) as (Hx & Hs & _). split.
  - apply Hx. apply Exists_exists. exists (" " +:+ demo_token RoleBilling +:+ ":" +:+ RoleBilling +:+ " ").
    split; [|split_and!]; [apply (bool_decide_unpack _)| |apply (bool_decide_unpack _)|apply (bool_decide_unpack _)]; vm_compute; reflexivity || exact I.
  - destruct (TokenStore_Resolve _ _) as [r|] eqn:Er; [|done]. apply Hs in Er as [_ Er]. by vm_compute in Er.
Defined.
End ControlStart.

(** ** orchestrator: dry unless told otherwise *)
Module OrchestratorStart.
Import OrchestratorConfig.
Lemma all_positive_ok {S} ds (s s' : S) : all_positive ds s = (Ok tt, s') → Forall (λ d, 0 < d.2) ds ∧ s' = s.
Proof.
  revert s. induction ds as [|[env d] ds IH]; intros s H; [by injection H|]. simpl in H. unwind H. settle.
  apply IH in H as [Hf ->]. split; [|done]. constructor; [by apply Z.ltb_lt|done].
Qed.
Definition positive_int (v : string) : option Z := n ← Atoi v; if n <? 1 then None else Some n.
Section start.
Context `{P : Process}.
Lemma max_actions_ok {S} n (s s' : S) : max_actions s = (Ok n, s') → reads_as positive_int "MAX_ACTIONS_PER_CYCLE" 1 n.
Proof.
  unfold max_actions, reads_as, positive_int, blank. case_bool_decide; [by intros [= <- _]|].
  destruct (Atoi _) as [m|]; [|done]. simpl. destruct (m <? 1); [done|]. by intros [= <- _].
Qed.
Lemma Load_reads c : Load = Ok c → reads_as ParseBool "DRY_RUN" true (o_DryRun c) ∧
  reads_as positive_int "MAX_ACTIONS_PER_CYCLE" 1 (o_MaxActionsPerCycle c) ∧
  [o_TelemetryURL c; o_ControlPlaneURL c; o_TelemetryToken c; o_ControlPlaneToken c] =
    Getenv <$> ["TELEMETRY_URL"; "CONTROL_PLANE_URL"; "TELEMETRY_TOKEN"; "CONTROL_PLANE_TOKEN"] ∧
  Forall (λ d, 0 < d) [o_ReconcileInterval c; o_ScriptTimeout c; o_RecommendationMaxAge c; o_ProbeMaxAge c; o_DrainGrace c;
                       o_RotationInterval c; o_ProbeTimeout c].
Proof.
  intros [errs Hl]%from_env_runs. unfold load in Hl. unwind Hl. settle.
  match goal with E : all_positive _ _ = (Ok ?u, _) |- _ => destruct u; apply all_positive_ok in E as [Hp _] end.
  split_and!; [done|by eapply max_actions_ok|done|]. 
  repeat apply Forall_cons in Hp as [? Hp]. by repeat constructor.
Qed.

Lemma positive_read n : reads_as positive_int "MAX_ACTIONS_PER_CYCLE" 1 n → 1 <= n.
Proof.
  unfold reads_as, positive_int. case_bool_decide; [by intros ->|]. destruct (Atoi _) as [m|]; [|done]. simpl.
  destruct (Z.ltb_spec m 1); [done|]. by intros [= <-].
Qed.
Lemma Validate_acting c : Validate c = Ok tt → o_DryRun c = false →
  Forall (λ v, v ≠ "") [o_TelemetryURL c; o_ControlPlaneURL c; o_TelemetryToken c; o_ControlPlaneToken c].
Proof. unfold Validate, blank. intros H Hd. rewrite Hd in H. repeat case_bool_decide; try done. by repeat constructor. Qed.

(** C16: The orchestrator is dry unless it is told otherwise. Whatever its variables are, if main starts the loop,
    then a cycle that does more than read happens only with DRY_RUN given and false, and both URLs and both tokens
    given; and a cycle provisions, rotates and tears down at most MAX_ACTIONS_PER_CYCLE times in all, once if it is
    not given. Marking nodes degraded, starting to drain them and syncing their access lists are not capped. *)
Theorem acts_only_when_told `{ord : !MapOrder} {E} (deps : Deps E) opts w : main = Loop opts → ∃ rep err t,
  (Cycle deps opts w).1 = Ok (rep, err) ∧ tw_trace (Cycle deps opts w).2 = tw_trace w ++ t ∧
  (¬ Forall is_read t → ParseBool (Getenv "DRY_RUN") = Some false ∧
     Forall (λ v, Getenv v ≠ "") ["TELEMETRY_URL"; "CONTROL_PLANE_URL"; "TELEMETRY_TOKEN"; "CONTROL_PLANE_TOKEN"]) ∧
  ∃ n, reads_as positive_int "MAX_ACTIONS_PER_CYCLE" 1 n ∧ lifecycles t <= n.
Proof.
  unfold main. destruct Load as [c|] eqn:Hl; [|done]. destruct (Validate c) as [[]|] eqn:Hv; [|done]. destruct (_ && _) eqn:Hu; [|done].
  intros [= <-]. destruct (Load_reads c Hl) as (Hd & Hm & Hvars & _).
  destruct (emits_Cycle deps (options c) w) as (t & Ht & rep & err & Hr & [Hdry Hc _ _ _]).
  exists rep, err, t. split_and!; [done..| |].
  - intros Hact. destruct (o_DryRun c) eqn:Hdr; [by destruct Hact; apply Hdry|]. unfold reads_as in Hd. case_bool_decide; [done|].
    split; [done|]. apply (Forall_fmap _ (λ v, v ≠ "")). rewrite <-Hvars. by apply Validate_acting.
  - exists (o_MaxActionsPerCycle c). split; [done|]. apply positive_read in Hm. unfold budget in Hc. simpl in Hc. lia.
Qed.
End start.

Definition acting_process : Process := {|
  Getenv := λ v, if bool_decide (v = "DRY_RUN") then "false" else if bool_decide (v = "MAX_ACTIONS_PER_CYCLE") then "2"
                 else if one_of v ["TELEMETRY_URL"; "CONTROL_PLANE_URL"; "TELEMETRY_TOKEN"; "CONTROL_PLANE_TOKEN"] then "given" else "";
  rand_key := λ _, Err (Errorf "no random source"); ParseFloat := λ _, None; quoted_value := id; url_Parse := λ _, None |}.
Lemma acts_only_when_told_witness : ∃ opts, main (P := acting_process) = Loop opts ∧ op_DryRun opts = false ∧
  ∀ w, ∃ rep err t, (Cycle (ord := key_order) OrchestratorDrain.working opts w).1 = Ok (rep, err) ∧
    tw_trace (Cycle (ord := key_order) OrchestratorDrain.working opts w).2 = tw_trace w ++ t ∧ lifecycles t <= 2.
Proof.
  destruct (main (P := acting_process)) as [e| |opts] eqn:E; [by vm_compute in E..|]. exists opts. split_and!; [done|by vm_compute in E; injection E as <-|].
  intros w. destruct (acts_only_when_told (P := acting_process) (ord := key_order) OrchestratorDrain.working opts w E) as (rep & err & t & Hr & Ht & _ & n & Hn & Hc).
  exists rep, err, t. split_and!; [done..|]. vm_compute in Hn. by injection Hn as <-.
Defined.
End OrchestratorStart.
