(* ===== verification/Startup.v ===== *)
(** * What billing and delivery are started with

    services/billing/cmd/billing/main.go (the mode, the catalog, the store and the gateways a process decides on
    before it listens) and services/delivery/internal/app/app.go with the part of cmd/delivery that builds the bot:
    keys, channels and the handler made of a configuration. The files, the database connection, the servers behind
    the gateways and the cryptography are parameters. The theorem on production joins them with the configurations of
    the other services. *)
From S2P Require Import Prelude GoBytes GoText GoFloat GoTime GoCodec GoUrl Contracts Platform BillingClient BillingStore BillingActivator BillingPoller BillingGateways BillingHttp.
From S2P Require DeliveryMessages DeliveryPointer DeliveryChannels DeliveryBot DeliveryApi.
From S2P Require Import Config.
Import Envcfg.

(** ** cmd/billing/main.go *)
Module BillingMain.
(** What main decides on *)
Record Start (W : Type) := mkStart {
  st_mode : string; st_catalog : Catalog; st_durable : bool; st_registry : BillingPoller.Registry W; st_cpURL : string; st_cpToken : string;
  st_invoiceToken : string; st_RequireInvoiceAuth : bool; st_replayWindow : Duration; st_onchain : OnChain; st_recovery : Recovery;
  st_sweepInterval : Duration; st_pollInterval : Duration; st_operationTimeout : Duration; st_requestTimeout : Duration; st_port : string }.
Arguments mkStart {W}. Arguments st_mode {W}. Arguments st_catalog {W}. Arguments st_durable {W}. Arguments st_registry {W}.
Arguments st_cpURL {W}. Arguments st_cpToken {W}. Arguments st_invoiceToken {W}. Arguments st_RequireInvoiceAuth {W}.
Arguments st_replayWindow {W}. Arguments st_onchain {W}. Arguments st_recovery {W}. Arguments st_sweepInterval {W}.
Arguments st_pollInterval {W}. Arguments st_operationTimeout {W}. Arguments st_requestTimeout {W}. Arguments st_port {W}.

Section main.
Context `{P : Process} {W : Type} (lower_rune : list Z → list Z).
(** The gateways over their servers; the catalog file and its JSON; the database; a fresh id *)
Context (btcpay_New : Btcpay.Config → Gateway W) (mock_New : string → list string → Gateway W).
Context (open_catalog : string → result (option (list wire_plan))) (connect : string → result unit) (fresh_id : string).

Definition normalizeMode (raw : string) : option string :=
  let m := DeliveryMessages.strings_ToLower lower_rune (TrimSpace raw) in
  if one_of m [""; "production"; "prod"] then Some "production"
  else if bool_decide (m = "dev") then Some "dev" else if bool_decide (m = "test") then Some "test" else None.
Definition splitCSV (s : string) : list string := items s.
Definition is_production (mode : string) : bool := bool_decide (mode = "production").
Definition loadCatalog {S} (mode : string) : M S Catalog :=
  let path := Getenv "BILLING_PLAN_CATALOG" in
  if blank path then
    if is_production mode then fail (Errorf "config: BILLING_PLAN_CATALOG is required in production") else mret ∅
  else match open_catalog path with
       | Err e => fail (wrap_err "open catalog" e)
       | Ok w => match Catalog_Load w with Err e => fail (wrap_err "load catalog" e) | Ok c => mret c end
       end.
(** Whether the store is Postgres *)
Definition newStore {S} (mode : string) : M S bool :=
  let url := Getenv "DATABASE_URL" in
  if blank url then
    if is_production mode then fail (Errorf "config: DATABASE_URL is required in production") else mret false
  else match connect url with Err e => fail (wrap_err "connect postgres" e) | Ok _ => mret true end.
Definition btcpay_config (base : string) : Btcpay.Config := {|
  Btcpay.cfg_BaseURL := base; Btcpay.cfg_APIKey := Getenv "BTCPAY_API_KEY"; Btcpay.cfg_StoreID := Getenv "BTCPAY_STORE_ID";
  Btcpay.cfg_WebhookSecret := Getenv "BTCPAY_WEBHOOK_SECRET"; Btcpay.cfg_Currencies := splitCSV (Str "BTCPAY_CURRENCIES" "BTC") |}.
Definition buildRegistry {S} (mode : string) : M S (BillingPoller.Registry W) :=
  let base := Getenv "BTCPAY_BASE_URL" in
  reg ←! (if blank base then mret NewRegistry
          else match Btcpay.Config_Validate (btcpay_config base) with
               | Err e => fail (wrap_err "btcpay config" e)
               | Ok _ => mret (Register (btcpay_New (btcpay_config base)) NewRegistry)
               end) ;
  let secret := Getenv "BILLING_MOCK_SECRET" in
  reg ←! (if blank secret then mret reg
          else if negb (one_of mode ["dev"; "test"]) then fail (Errorf "config: BILLING_MOCK_SECRET is allowed only with ENV=dev or ENV=test")
          else mret (Register (mock_New secret (splitCSV (Str "BILLING_MOCK_CURRENCIES" "BTC,XMR"))) reg)) ;
  require_that (negb (Nat.eqb (length (Gateways reg)) 0) || negb (is_production mode))
    "config: at least one non-mock payment gateway is required in production" ;;!
  mret reg.
Definition registryHasOnChain (reg : BillingPoller.Registry W) : bool := existsb (λ g, bool_decide (is_Some (g_CheckInvoice g))) (Gateways reg).
Definition main : Env (Start W) :=
  match normalizeMode (Getenv "ENV") with
  | None => fail (Errorf "config: ENV must be production, dev, or test")
  | Some mode =>
      catalog ←! loadCatalog mode ;
      durable ←! newStore mode ;
      registry ←! buildRegistry mode ;
      let cpURL := Str "CONTROL_PLANE_URL" "" in
      replayWindow ←! Dur "BILLING_REPLAY_WINDOW" Hour ;
      grace ←! Dur "SETTLEMENT_GRACE" 0 ;
      lease ←! Dur "POLL_LEASE" (30 * Second) ;
      chain ←! Dur "CHAIN_CHECK_TIMEOUT" (10 * Second) ;
      let onchain := {| oc_Grace := grace; oc_PollLease := lease; oc_ChainTimeout := chain; oc_Owner := Str "BILLING_INSTANCE_ID" fresh_id |} in
      stale ←! Dur "SETTLEMENT_STALE_THRESHOLD" (2 * Minute) ;
      sweep ←! Dur "BILLING_SWEEP_INTERVAL" Minute ;
      poll ←! Dur "BILLING_POLL_INTERVAL" (30 * Second) ;
      operation ←! Dur "BILLING_OPERATION_TIMEOUT" (2 * Minute) ;
      request ←! Dur "BILLING_REQUEST_TIMEOUT" (30 * Second) ;
      Env_Err ;;!
      require_that (negb (blank cpURL)) "config: CONTROL_PLANE_URL is required (billing activates subscriptions via the control-plane)" ;;!
      require_that ((0 <? operation) && (0 <? request)) "config: BILLING_OPERATION_TIMEOUT and BILLING_REQUEST_TIMEOUT must be positive" ;;!
      let cpToken := Getenv "CONTROL_PLANE_TOKEN" in let invoiceToken := Getenv "BILLING_INTERNAL_TOKEN" in
      require_that (negb (is_production mode && blank cpToken)) "config: CONTROL_PLANE_TOKEN is required in production" ;;!
      require_that (negb (is_production mode && blank invoiceToken)) "config: BILLING_INTERNAL_TOKEN is required in production" ;;!
      (if registryHasOnChain registry
       then λ errs, (match OnChain_Validate onchain with Err e => Err (wrap_err "on-chain config" e) | Ok _ => Ok tt end, errs)
       else mret tt) ;;!
      mret {| st_mode := mode; st_catalog := catalog; st_durable := durable; st_registry := registry; st_cpURL := cpURL; st_cpToken := cpToken;
              st_invoiceToken := invoiceToken; st_RequireInvoiceAuth := is_production mode; st_replayWindow := replayWindow;
              st_onchain := onchain; st_recovery := {| rc_StaleThreshold := stale; rc_LeaseFor := 0; rc_Batch := 0 |};
              st_sweepInterval := sweep; st_pollInterval := poll; st_operationTimeout := operation; st_requestTimeout := request;
              st_port := Str "PORT" "8084" |}
  end.
Definition started : result (Start W) := from_env main.
End main.
End BillingMain.

(** ** internal/app/app.go, and the bot of cmd/delivery *)
Module DeliveryApp.
Import DeliveryConfig DeliveryPointer DeliveryChannels.
Record App (E : Type) := mkApp {
  ap_Registry : DeliveryChannels.Registry E; ap_Resolver : Resolver; ap_Signer : edSigner; ap_Verifier : keyring; ap_Sealer : AEAD;
  ap_EphemeralKeys : bool }.
Arguments mkApp {E}. Arguments ap_Registry {E}. Arguments ap_Resolver {E}. Arguments ap_Signer {E}. Arguments ap_Verifier {E}.
Arguments ap_Sealer {E}. Arguments ap_EphemeralKeys {E}.
Section app.
Context `{P : Process} `{ord : !MapOrder} {E : Type} (ed : Ed25519) (new_gcm : list Z → AEAD).
(** The additional keys, in the order Go visits the map: the first bad one ends the start. *)
Fixpoint add_keys (keys : list (string * string)) (v : keyring) : result keyring :=
  match keys with
  | [] => Ok v
  | (id, b64) :: keys' =>
      match DecodePublicKey b64 with
      | Err e => Err (wrap_err ("app: verify key " +:+ quoted_value id) e)
      | Ok pub => match keyring_Add id pub v with Err e => Err e | Ok v => add_keys keys' v end
      end
  end.
(** The configured seed, or a random one *)
Definition signing_seed (cfg : Config) : result (list Z * bool) :=
  if negb (blank (d_SignSeedB64 cfg)) then
    match DecodeSeed (d_SignSeedB64 cfg) with Err e => Err e | Ok seed => Ok (seed, false) end
  else match rand_key 32 with Err e => Err (wrap_err "app: ephemeral seed" e) | Ok seed => Ok (seed, true) end.
Definition buildSigning (cfg : Config) : result (edSigner * keyring * bool) :=
  match add_keys (range (d_VerifyKeys cfg)) ∅ with
  | Err e => Err e
  | Ok verifier =>
      match signing_seed cfg with
      | Err e => Err e
      | Ok (seed, ephemeral) =>
          match SignerFromSeed ed (d_SignKeyID cfg) seed with
          | Err e => Err e
          | Ok signer => match keyring_Add (es_keyID signer) (PublicKey ed signer) verifier with
                         | Err e => Err e
                         | Ok verifier => Ok (signer, verifier, ephemeral)
                         end
          end
      end
  end.
Definition buildSealer (cfg : Config) : result (AEAD * bool) :=
  let sealed ephemeral key := match NewSealer new_gcm key with Err e => Err e | Ok s => Ok (s, ephemeral) end in
  if negb (blank (d_SealKeyB64 cfg)) then match DecodeKey (d_SealKeyB64 cfg) with Err e => Err e | Ok key => sealed false key end
  else match rand_key KeySize with Err e => Err (wrap_err "app: ephemeral seal key" e) | Ok key => sealed true key end.

(** The blob store of the process, the DNS clients, the mirrors' transport and their rotating cursor *)
Context (put : string → list Z → M E unit) (get : string → M E (list Z)).
Context (doh : string → string → M E (list string)) (do53 : string → M E (list string)) (raw_Get : string → string → M E (list Z)).
Context (ctx_Err : E → option error) (cursor_Load : E → Z) (cursor_Store : Z → E → E).
(** [if ch, err := ...; err == nil { reg.Add(ch, next()) }] *)
Definition add_next (ch : result (Channel E)) (s : DeliveryChannels.Registry E * Z) : DeliveryChannels.Registry E * Z :=
  match ch with Ok ch => (Add ch s.2 s.1, s.2 + 1) | Err _ => s end.
Definition registerChannels (cfg : Config) : DeliveryChannels.Registry E :=
  let s := add_next (Ok (telegram_Channel put get)) ([], 0) in
  let s := if negb (blank (d_DNSZone cfg)) && negb (blank (d_DoHEndpoint cfg))
           then add_next (newChannel KindDoH (d_DNSZone cfg) (Some (doh (d_DoHEndpoint cfg))) None) s else s in
  let s := if negb (blank (d_DNSZone cfg)) then add_next (newChannel KindDNSTXT (d_DNSZone cfg) (Some do53) None) s else s in
  let s := if Nat.eqb (length (d_GitRawMirrors cfg)) 0 then s
           else add_next (gitraw_New ctx_Err cursor_Load cursor_Store (d_GitRawMirrors cfg) (Some raw_Get) None) s in
  s.1.
Definition Build (cfg : Config) : result (App E) :=
  match buildSigning cfg with
  | Err e => Err e
  | Ok (signer, verifier, ephemeralSign) =>
      match buildSealer cfg with
      | Err e => Err e
      | Ok (sealer, ephemeralSeal) =>
          Ok {| ap_Registry := registerChannels cfg;
                ap_Resolver := {| rs_v := Verify ed verifier; rs_maxAge := d_ArtifactMaxAge cfg |};
                ap_Signer := signer; ap_Verifier := verifier; ap_Sealer := sealer; ap_EphemeralKeys := ephemeralSign || ephemeralSeal |}
      end
  end.
Definition app_Handler (decode : Z → list Z → option DeliveryApi.channelDTO) (cfg : Config) (a : App E) (readiness : list (M E unit)) :=
  DeliveryApi.DeliveryHttp.Routes (ap_Registry a) (d_AdminToken cfg) readiness decode.
End app.
(** cmd/delivery/main.go *)
Definition bot_config (cfg : Config) : DeliveryBot.BotConfig := {|
  DeliveryBot.bc_RatePerSec := b_RatePerSec (d_Bot cfg); DeliveryBot.bc_Burst := b_Burst (d_Bot cfg);
  DeliveryBot.bc_Cooldown := b_Cooldown (d_Bot cfg); DeliveryBot.bc_DefaultPlan := b_DefaultPlan (d_Bot cfg);
  DeliveryBot.bc_DefaultCurrency := b_DefaultCurrency (d_Bot cfg); DeliveryBot.bc_SetupURL := b_SetupURL (d_Bot cfg);
  DeliveryBot.bc_SupportURL := b_SupportURL (d_Bot cfg) |}.
Definition NewNotifier (cfg : Config) : result unit :=
  if (b_NotifyInterval (d_Bot cfg) <=? 0) || (b_NotifyWindow (d_Bot cfg) <=? 0) || (b_NotifyBatchSize (d_Bot cfg) <=? 0)
  then Err (Errorf "telegram notifier: positive interval, window and batch size required") else Ok tt.
End DeliveryApp.

(** ** Production fails closed *)
Section billing.
Context `{P : Process} {W : Type} (lower_rune : list Z → list Z).
Context (btcpay_New : Btcpay.Config → Gateway W) (mock_New : string → list string → Gateway W).
Context (open_catalog : string → result (option (list wire_plan))) (connect : string → result unit) (fresh_id : string).
Lemma production_mode : one_of (Getenv "ENV") [""; "production"] = true → BillingMain.normalizeMode lower_rune (Getenv "ENV") = Some "production".
Proof. unfold one_of. case_bool_decide as Hin; [|done]. intros _. set_unfold in Hin. by destruct Hin as [->|[->|[]]]. Qed.
Lemma newStore_production {S} durable (s s' : S) : BillingMain.newStore connect "production" s = (Ok durable, s') → durable = true.
Proof. unfold BillingMain.newStore, blank. case_bool_decide; [done|]. destruct (connect _); [by intros [= <- _]|done]. Qed.
Lemma buildRegistry_production {S} reg (s s' : S) : BillingMain.buildRegistry btcpay_New mock_New "production" s = (Ok reg, s') →
  Gateways reg = [btcpay_New (BillingMain.btcpay_config (Getenv "BTCPAY_BASE_URL"))] ∧
  Btcpay.Config_Validate (BillingMain.btcpay_config (Getenv "BTCPAY_BASE_URL")) = Ok tt ∧ Getenv "BTCPAY_BASE_URL" ≠ "".
Proof.
  unfold BillingMain.buildRegistry, blank. intros Hr. unwind Hr. settle.
  change (one_of "production" ["dev"; "test"]) with false in *. cbn [negb] in *.
  repeat case_bool_decide; settle; try done. destruct (Btcpay.Config_Validate _) as [[]|]; [|done]. by settle.
Qed.
Lemma started_production s : one_of (Getenv "ENV") [""; "production"] = true →
  BillingMain.started lower_rune btcpay_New mock_New open_catalog connect fresh_id = Ok s →
  BillingMain.st_durable s = true ∧ BillingMain.st_cpURL s ≠ "" ∧ BillingMain.st_cpToken s ≠ "" ∧ BillingMain.st_RequireInvoiceAuth s = true ∧ BillingMain.st_invoiceToken s ≠ "" ∧
  Gateways (BillingMain.st_registry s) = [btcpay_New (BillingMain.btcpay_config (Getenv "BTCPAY_BASE_URL"))] ∧ Getenv "BTCPAY_WEBHOOK_SECRET" ≠ "".
Proof.
  intros Hm [errs Hl]%from_env_runs. unfold BillingMain.main in Hl. rewrite production_mode in Hl by done. unwind Hl. settle. checked.
  change (BillingMain.is_production "production") with true in *. cbn [andb] in *. checked. simpl.
  match goal with E : BillingMain.newStore _ _ _ = _ |- _ => apply newStore_production in E as -> end.
  match goal with E : BillingMain.buildRegistry _ _ _ _ = _ |- _ => apply buildRegistry_production in E as (-> & Hv & Hb) end.
  split_and!; try done. revert Hv. unfold Btcpay.Config_Validate, BillingMain.btcpay_config. simpl. by repeat case_bool_decide.
Qed.
End billing.

Section services.
Context `{P : Process}.
Lemma Str_production : one_of (Getenv "ENV") [""; "production"] = true → Str "ENV" "production" = "production".
Proof. unfold one_of, Str. case_bool_decide as Hin; [|done]. intros _. case_bool_decide; [done|]. set_solver. Qed.
Lemma telemetry_production c : Str "ENV" "production" = "production" → TelemetryConfig.Load = Ok c →
  TelemetryConfig.t_InternalToken c ≠ "" ∧ TelemetryConfig.t_DatabaseURL c ≠ "".
Proof.
  intros He [errs Hl]%from_env_runs. unfold TelemetryConfig.load in Hl. unwind Hl. settle. rewrite He in *. simpl in *. checked. done.
Qed.
Lemma public_URL_https base : SubscriptionConfig.public_URL_ok "production" base = true →
  ∃ u, url_Parse base = Some u ∧ bare_URL u = true ∧ url_Scheme u = "https".
Proof.
  unfold SubscriptionConfig.public_URL_ok. destruct (url_Parse base) as [u|]; [|done]. intros Hu. exists u. checked. split_and!; [done..|].
  by match goal with E : _ || _ = true |- _ => rewrite orb_false_r in E; apply bool_decide_eq_true in E end.
Qed.
Lemma subscription_production `{!NetIP} `{!NetPrefix} ReadFile dec_policy c :
  Str "ENV" "production" = "production" → SubscriptionConfig.Load ReadFile dec_policy = Ok c →
  SubscriptionConfig.s_DatabaseURL c ≠ "" ∧ SubscriptionConfig.s_ControlPlaneURL c ≠ "" ∧ SubscriptionConfig.s_ControlPlaneToken c ≠ "" ∧
  SubscriptionHttp.cf_InternalToken (SubscriptionConfig.s_http c) ≠ "" ∧
  ∃ u, url_Parse (SubscriptionHttp.cf_PublicBaseURL (SubscriptionConfig.s_http c)) = Some u ∧ bare_URL u = true ∧ url_Scheme u = "https".
Proof.
  intros He [errs Hl]%from_env_runs. unfold SubscriptionConfig.load in Hl. unwind Hl. settle. rewrite He in *.
  rewrite (bool_decide_eq_true_2 ("production" = "production")) in * by done.
  destruct (list_find _ _) as [[? ?]|] eqn:Hf in *; [done|]. apply list_find_None in Hf.
  do 5 (apply Forall_cons in Hf as [? Hf]). cbn [snd] in *. split_and!; try done. apply public_URL_https.
  match goal with E : _ || _ = true |- _ => apply orb_true_iff in E as [E|E]; [|done] end. by checked.
Qed.

Import DeliveryConfig.
Context `{ord : !MapOrder}.
Lemma all_given_ok {S} vars (s s' : S) : all_given vars s = (Ok tt, s') → Forall (λ v, TrimSpace v.2 ≠ "") vars ∧ s' = s.
Proof.
  revert s. induction vars as [|[name value] vars IH]; intros s H; [by injection H|]. simpl in H. unwind H. settle.
  apply IH in H as [Hf ->]. split; [|done]. constructor; [|done]. by checked.
Qed.
Lemma requireURL_https {S} name raw (s s' : S) : requireURL name raw true s = (Ok tt, s') →
  s' = s ∧ ∃ u, url_Parse raw = Some u ∧ bare_URL u = true ∧ url_Scheme u = "https".
Proof.
  unfold requireURL. destruct (url_Parse raw) as [u|]; [|done]. destruct (_ || _) eqn:Hb; [done|]. intros Hr. settle. cbn [negb orb] in *. checked.
  split; [done|]. by exists u.
Qed.
Lemma requireURL_http {S} name raw (s s' : S) : requireURL name raw false s = (Ok tt, s') →
  s' = s ∧ ∃ u, url_Parse raw = Some u ∧ bare_URL u = true ∧ url_Scheme u ∈ ["http"; "https"].
Proof.
  unfold requireURL. destruct (url_Parse raw) as [u|]; [|done]. destruct (_ || _) eqn:Hb; [done|]. intros Hr. settle. cbn [negb orb andb] in *. checked.
  split; [done|]. exists u. split_and!; [done..|]. unfold one_of in *. by checked.
Qed.
Lemma required_given c : Forall (λ v : string * string, TrimSpace v.2 ≠ "") (range (required c)) →
  Forall (λ v, TrimSpace v ≠ "") [d_DatabaseURL c; d_ControlPlaneBase c; d_ControlPlaneToken c; d_BillingBase c; d_BillingToken c;
                                  d_TelegramBase c; d_TelegramToken c; d_PublicSubBase c].
Proof.
  rewrite range_perm. unfold required. rewrite map_to_list_to_map by (apply (bool_decide_unpack _); vm_compute; exact I).
  intros Hf. repeat (apply Forall_cons in Hf as [? Hf]). by repeat constructor.
Qed.
Lemma Validate_production {S} c (s s' : S) : d_Env c = "production" → Validate c s = (Ok tt, s') →
  d_BotEnabled c = true ∧ d_SignSeedB64 c ≠ "" ∧ d_SealKeyB64 c ≠ "" ∧
  Forall (λ v, TrimSpace v ≠ "") [d_DatabaseURL c; d_ControlPlaneBase c; d_ControlPlaneToken c; d_BillingBase c; d_BillingToken c;
                                  d_TelegramBase c; d_TelegramToken c; d_PublicSubBase c] ∧
  Forall (λ base, ∃ u, url_Parse base = Some u ∧ bare_URL u = true ∧ url_Scheme u ∈ ["http"; "https"]) [d_ControlPlaneBase c; d_BillingBase c] ∧
  Forall (λ base, ∃ u, url_Parse base = Some u ∧ bare_URL u = true ∧ url_Scheme u = "https") [d_TelegramBase c; d_PublicSubBase c].
Proof.
  intros He Hv. unfold Validate in Hv. rewrite He in Hv. rewrite (bool_decide_eq_true_2 ("production" = "production")) in Hv by done.
  cbn [negb orb] in Hv. unwind Hv. settle. destruct (d_BotEnabled c); [|done]. cbn [negb] in Hv. unwind Hv. settle. checked.
  repeat match goal with
  | E : requireURL _ _ true _ = (Ok ?u, _) |- _ => destruct u; apply requireURL_https in E as [_ ?]
  | E : requireURL _ _ false _ = (Ok ?u, _) |- _ => destruct u; apply requireURL_http in E as [_ ?]
  | E : all_given _ _ = (Ok ?u, _) |- _ => destruct u; apply all_given_ok in E as [? _]
  end.
  split_and!; [done..|by apply required_given| |]; by repeat constructor.
Qed.
Lemma delivery_production c : Str "ENV" "production" = "production" → Load = Ok c →
  d_Env c = "production" ∧ ∃ errs errs' : list string, Validate c errs = (Ok tt, errs').
Proof.
  intros He [errs Hl]%from_env_runs. unfold load in Hl. unwind Hl. settle. rewrite He in *. split; [done|].
  match goal with E : Validate _ _ = (Ok ?u, _) |- _ => destruct u; eauto end.
Qed.
(** With both keys configured, nothing is made up at the start. *)
Lemma Build_configured {E} ed new_gcm put get doh do53 raw_Get ctx_Err cursor_Load cursor_Store c (a : DeliveryApp.App E) :
  d_SignSeedB64 c ≠ "" → d_SealKeyB64 c ≠ "" →
  DeliveryApp.Build ed new_gcm put get doh do53 raw_Get ctx_Err cursor_Load cursor_Store c = Ok a →
  DeliveryApp.ap_EphemeralKeys a = false ∧
  (∃ seed, DeliveryPointer.DecodeSeed (d_SignSeedB64 c) = Ok seed ∧ DeliveryPointer.SignerFromSeed ed (d_SignKeyID c) seed = Ok (DeliveryApp.ap_Signer a)) ∧
  ∃ key, DeliveryPointer.DecodeKey (d_SealKeyB64 c) = Ok key ∧ DeliveryApp.ap_Sealer a = new_gcm key.
Proof.
  intros Hs Hk. unfold DeliveryApp.Build, DeliveryApp.buildSigning, DeliveryApp.signing_seed, DeliveryApp.buildSealer, blank.
  rewrite !bool_decide_eq_false_2 by done. cbn [negb].
  destruct (DeliveryApp.add_keys _ _) as [v|]; [|done]. destruct (DeliveryPointer.DecodeSeed _) as [seed|]; [|done].
  destruct (DeliveryPointer.SignerFromSeed _ _ _) as [sg|] eqn:Hsg; [|done]. destruct (DeliveryPointer.keyring_Add _ _ _); [|done].
  destruct (DeliveryPointer.DecodeKey _) as [key|]; [|done]. unfold DeliveryPointer.NewSealer. destruct (negb _); [done|].
  intros [= <-]. simpl. split_and!; [done|by eexists|by eexists].
Qed.
End services.

Section closed.
Context `{P : Process} `{ord : !MapOrder} `{net : !NetIP} `{pre : !NetPrefix} {W E : Type}.
(** billing's outside world *)
Context (lower_rune : list Z → list Z) (btcpay_New : Btcpay.Config → Gateway W) (mock_New : string → list string → Gateway W)
  (open_catalog : string → result (option (list wire_plan))) (connect : string → result unit) (fresh_id : string).
(** subscription's *)
Context (ReadFile : string → result (list Z)) (dec_policy : list Z → result SubscriptionOutput.RoutingPolicy).
(** delivery's *)
Context (ed : Ed25519) (new_gcm : list Z → AEAD) (put : string → list Z → M E unit) (get : string → M E (list Z))
  (doh : string → string → M E (list string)) (do53 : string → M E (list string)) (raw_Get : string → string → M E (list Z))
  (ctx_Err : E → option error) (cursor_Load : E → Z) (cursor_Store : Z → E → E).

(** C31: Production fails closed. With ENV unset or production, whatever the other variables are: billing starts only
    over a durable store, demanding its invoice token, with the address of the control-plane, a token for it, and BTCPay,
    with a webhook secret, as its only gateway; telemetry only with its token and a database; subscription only with
    its tokens, the address of the control-plane, a database and an HTTPS base URL; and delivery only with the bot
    enabled, a database, tokens for and the addresses of the control-plane, billing and the messenger, over HTTPS where
    it meets the public, signing and sealing with the configured keys and no made-up ones. *)
Theorem production_fails_closed : one_of (Getenv "ENV") [""; "production"] = true →
  (∀ s, BillingMain.started lower_rune btcpay_New mock_New open_catalog connect fresh_id = Ok s →
     BillingMain.st_durable s = true ∧ BillingMain.st_cpURL s ≠ "" ∧ BillingMain.st_cpToken s ≠ "" ∧ BillingMain.st_RequireInvoiceAuth s = true ∧ BillingMain.st_invoiceToken s ≠ "" ∧
     Gateways (BillingMain.st_registry s) = [btcpay_New (BillingMain.btcpay_config (Getenv "BTCPAY_BASE_URL"))] ∧ Getenv "BTCPAY_WEBHOOK_SECRET" ≠ "") ∧
  (∀ c, TelemetryConfig.Load = Ok c → TelemetryConfig.t_InternalToken c ≠ "" ∧ TelemetryConfig.t_DatabaseURL c ≠ "") ∧
  (∀ c, SubscriptionConfig.Load ReadFile dec_policy = Ok c →
     SubscriptionConfig.s_DatabaseURL c ≠ "" ∧ SubscriptionConfig.s_ControlPlaneURL c ≠ "" ∧ SubscriptionConfig.s_ControlPlaneToken c ≠ "" ∧
     SubscriptionHttp.cf_InternalToken (SubscriptionConfig.s_http c) ≠ "" ∧
     ∃ u, url_Parse (SubscriptionHttp.cf_PublicBaseURL (SubscriptionConfig.s_http c)) = Some u ∧ bare_URL u = true ∧ url_Scheme u = "https") ∧
  (∀ c a, DeliveryConfig.Load = Ok c → DeliveryApp.Build ed new_gcm put get doh do53 raw_Get ctx_Err cursor_Load cursor_Store c = Ok a →
     DeliveryConfig.d_BotEnabled c = true ∧
     Forall (λ v, TrimSpace v ≠ "") [DeliveryConfig.d_DatabaseURL c; DeliveryConfig.d_ControlPlaneToken c; DeliveryConfig.d_BillingToken c; DeliveryConfig.d_TelegramToken c] ∧
     Forall (λ base, ∃ u, url_Parse base = Some u ∧ bare_URL u = true ∧ url_Scheme u ∈ ["http"; "https"]) [DeliveryConfig.d_ControlPlaneBase c; DeliveryConfig.d_BillingBase c] ∧
     Forall (λ base, ∃ u, url_Parse base = Some u ∧ bare_URL u = true ∧ url_Scheme u = "https") [DeliveryConfig.d_TelegramBase c; DeliveryConfig.d_PublicSubBase c] ∧
     DeliveryApp.ap_EphemeralKeys a = false ∧
     (∃ seed, DeliveryPointer.DecodeSeed (DeliveryConfig.d_SignSeedB64 c) = Ok seed ∧
        DeliveryPointer.SignerFromSeed ed (DeliveryConfig.d_SignKeyID c) seed = Ok (DeliveryApp.ap_Signer a)) ∧
     ∃ key, DeliveryPointer.DecodeKey (DeliveryConfig.d_SealKeyB64 c) = Ok key ∧ DeliveryApp.ap_Sealer a = new_gcm key).
Proof.
  intros Hm. pose proof (Str_production Hm) as He. split_and!.
  - intros s. by apply started_production.
  - intros c. by apply telemetry_production.
  - intros c. by apply subscription_production.
  - intros c a Hl Hb. destruct (delivery_production c He Hl) as (Hp & errs & errs' & Hv).
    destruct (Validate_production c _ _ Hp Hv) as (Hbot & Hs & Hk & Hvars & Hpeers & Hurls).
    destruct (Build_configured _ _ _ _ _ _ _ _ _ _ c a Hs Hk Hb) as (Heph & Hseed & Hseal).
    split_and!; try done. repeat (apply Forall_cons in Hvars as [? Hvars]). by repeat constructor.
Qed.
End closed.

(** A production environment in which billing and delivery start *)
Definition demo_key : string := base64 false (repeat 7 32).
Definition production_process : Process := {|
  Getenv := λ v,
    if one_of v ["SETTLEMENT_GRACE"; "POLL_LEASE"; "CHAIN_CHECK_TIMEOUT"; "BILLING_REPLAY_WINDOW"; "SETTLEMENT_STALE_THRESHOLD";
                 "BILLING_SWEEP_INTERVAL"; "BILLING_POLL_INTERVAL"; "BILLING_OPERATION_TIMEOUT"; "BILLING_REQUEST_TIMEOUT"; "ENV";
                 "BILLING_MOCK_SECRET"; "DELIVERY_BOT_ENABLED"; "DELIVERY_HTTP_TIMEOUT"; "DELIVERY_TELEGRAM_POLL_TIMEOUT"; "DELIVERY_RETRY_DELAY";
                 "DELIVERY_ARTIFACT_MAX_AGE"; "DELIVERY_BOT_RATE_PER_SEC"; "DELIVERY_BOT_BURST"; "DELIVERY_BOT_COOLDOWN"; "DELIVERY_NOTIFY_INTERVAL";
                 "DELIVERY_NOTIFY_WINDOW"; "DELIVERY_NOTIFY_BATCH_SIZE"; "DELIVERY_BOT_DEFAULT_PLAN"; "DELIVERY_VERIFY_KEYS"] then ""
    else if one_of v ["DELIVERY_SIGN_SEED"; "DELIVERY_SEAL_KEY"] then demo_key else "https://given.test";
  rand_key := λ _, Err (Errorf "no random source"); ParseFloat := λ _, None; quoted_value := id;
  url_Parse := λ s, Some {| url_Scheme := "https"; url_Host := "given.test"; url_User := false; url_RawQuery := ""; url_Fragment := "" |} |}.
Definition silent_gateway (name : string) : Gateway unit := {|
  g_Name := name; g_SupportsCurrency := λ _, false; g_CreateInvoice := λ _, fail (Errorf "down"); g_ParseWebhook := λ _ _, fail (Errorf "down");
  g_Poll := λ _, mret []; g_CheckInvoice := None; g_LookupInvoice := None |}.
Definition demo_file (path : string) : result (option (list wire_plan)) :=
  Ok (Some [{| w_ID := SubscriptionPlanBasic; w_Duration := Some Hour; w_Grace := Some 0; w_Prices := {["BTC" := "1"]};
               w_TrafficLimitBytes := 0; w_SpeedLimitMbps := 0; w_DeviceLimit := 0 |}]).
Definition demo_btcpay (c : Btcpay.Config) : Gateway unit := silent_gateway Btcpay.name.
Definition demo_mock (secret : string) (currencies : list string) : Gateway unit := silent_gateway Mock.name.
Definition demo_connect (url : string) : result unit := Ok tt.
Definition demo_start := BillingMain.started (P := production_process) id demo_btcpay demo_mock demo_file demo_connect "fresh".
Definition demo_ed : Ed25519 := {|
  ed_NewKeyFromSeed := λ seed, seed ++ seed; ed_Public := take 32; ed_Sign := λ _ m, m; ed_Verify := λ _ m s, bool_decide (m = s) |}.
Definition demo_gcm (key : list Z) : AEAD := {| NonceSize := 12; aead_Seal := λ _ p _, p; aead_Open := λ _ c _, Some c |}.
Definition demo_put (key : string) (blob : list Z) : M unit unit := mret tt.
Definition demo_get (key : string) : M unit (list Z) := mret [].
Definition demo_doh (endpoint name : string) : M unit (list string) := mret [].
Definition demo_raw (base path : string) : M unit (list Z) := mret [].
Definition demo_build (c : DeliveryConfig.Config) := DeliveryApp.Build (P := production_process) (ord := key_order) demo_ed demo_gcm
  demo_put demo_get demo_doh (demo_doh "") demo_raw (λ _, None) (λ _, 0) (λ _ e, e) c.
Definition demo_netip : NetIP := {|
  Addr := string; Prefix := string; SplitHostPort := Some; ParseAddr := Some; WithoutZone := id; Zone := λ _, ""; Unmap := id;
  Addr_String := id; Prefix_Contains := λ p a, bool_decide (p = a) |}.
Definition demo_netprefix : NetPrefix (H := demo_netip) := @Build_NetPrefix demo_netip Some id (λ _, false) (λ _, 0) (λ a _, a) id.
Lemma production_fails_closed_witness : ∃ s c a, demo_start = Ok s ∧ BillingMain.st_invoiceToken s ≠ "" ∧
  DeliveryConfig.Load (P := production_process) (ord := key_order) = Ok c ∧ demo_build c = Ok a ∧ DeliveryApp.ap_EphemeralKeys a = false.
Proof.
  assert (one_of (Getenv (Process := production_process) "ENV") [""; "production"] = true) as Hm by (vm_compute; reflexivity).
  destruct demo_start as [s|e] eqn:Es; [|exfalso; by vm_compute in Es].
  assert (match DeliveryConfig.Load (P := production_process) (ord := key_order) with Ok c => is_ok (demo_build c) | Err _ => false end = true) as Hok
    by (vm_compute; reflexivity).
  destruct (DeliveryConfig.Load (P := production_process) (ord := key_order)) as [c|e] eqn:Ec; [|done].
  destruct (demo_build c) as [a|e] eqn:Ea; [|done].
  destruct (production_fails_closed (P := production_process) (ord := key_order) (net := demo_netip) (pre := demo_netprefix)
    id demo_btcpay demo_mock demo_file demo_connect "fresh" (λ _, Err (Errorf "no file")) (λ _, Err (Errorf "no JSON"))
    demo_ed demo_gcm demo_put demo_get demo_doh (demo_doh "") demo_raw (λ _, None) (λ _, 0) (λ _ e, e) Hm) as (Hb & _ & _ & Hd).
  destruct (Hb s Es) as (_ & _ & _ & _ & Ht & _). destruct (Hd c a Ec Ea) as (_ & _ & _ & _ & He & _).
  exists s, c, a. exact (conj eq_refl (conj Ht (conj eq_refl (conj Ea He)))).
Defined.

(** Nothing keeps the sweep from an interval of zero, for which [time.NewTicker] panics. *)
Definition idle_sweep_process : Process := {|
  Getenv := λ v, if bool_decide (v = "BILLING_SWEEP_INTERVAL") then "0s" else Getenv (Process := production_process) v;
  rand_key := rand_key (Process := production_process); ParseFloat := λ _, None; quoted_value := id; url_Parse := λ _, None |}.
Example sweep_interval_zero : match BillingMain.started (P := idle_sweep_process) id demo_btcpay demo_mock demo_file demo_connect "fresh" with
  | Ok s => BillingMain.st_sweepInterval s = 0 | Err _ => False end.
Proof. vm_compute. reflexivity. Qed.
