(* ===== verification/ServicePostgres.v ===== *)
(** * Telemetry's store and the subscription service's token index in Postgres

    services/telemetry/internal/store (postgres.go, schema.sql) and services/subscription/internal/controlplane
    (postgres.go, schema.sql), which reach the database through database/sql and pgx. An INTEGER column holds an int4: pgx
    refuses a larger value, and so the statement. What Postgres makes of a text[] literal, and how it prints one, is the
    class [TextArray]. [Prune] answers the count of a transaction whose COMMIT failed along with the error; its one caller
    looks at the error first, so the count is left out. At the end, the control-plane's notifier (adapters/subnotify) in
    front of the subscription service with this index. *)
From S2P Require Import Prelude GoBytes GoText GoFloat GoUrl Sql Contracts Platform TelemetryAggregate TelemetryIngest SubscriptionProvider SubscriptionCache SubscriptionHttp.
From S2P Require BillingClient ControlUse SubscriptionServe.

(** ** text[] literals *)
Definition array_special (a : Ascii.ascii) : bool := (ord a =? 34) || (ord a =? 92).
Definition backslash_ch : Ascii.ascii := chr 92.
Definition quote_ch : Ascii.ascii := chr 34.
Fixpoint escape_elem (v : string) : string :=
  match v with
  | "" => ""
  | String a v' => if array_special a then String backslash_ch (String a (escape_elem v')) else String a (escape_elem v')
  end.
Definition quoteArrayElem (v : string) : string := String quote_ch (escape_elem v) +:+ String quote_ch "".
Definition pqTextArray (vals : list string) : string :=
  if Nat.eqb (length vals) 0 then "{}" else "{" +:+ join "," (quoteArrayElem <$> vals) +:+ "}".

(** The loop of parseTextArray over the characters *)
Record array_scan := mkScan { sc_out : list string; sc_cur : string; sc_inQuote : bool; sc_esc : bool }.
Definition scan_step (a : Ascii.ascii) (st : array_scan) : array_scan :=
  if sc_esc st then mkScan (sc_out st) (sc_cur st +:+ String a "") (sc_inQuote st) false
  else if ord a =? 92 then mkScan (sc_out st) (sc_cur st) (sc_inQuote st) true
  else if ord a =? 34 then mkScan (sc_out st) (sc_cur st) (negb (sc_inQuote st)) false
  else if (ord a =? 44) && negb (sc_inQuote st) then mkScan (sc_out st ++ [sc_cur st]) "" (sc_inQuote st) false
  else mkScan (sc_out st) (sc_cur st +:+ String a "") (sc_inQuote st) false.
Fixpoint scan_array (s : string) (st : array_scan) : array_scan :=
  match s with "" => st | String a s' => scan_array s' (scan_step a st) end.
Definition inner_array (lit : string) : string := String.substring 1 (String.length lit - 2) lit.
Definition parseTextArray (lit : string) : list string :=
  if (String.length lit <? 2)%nat || bool_decide (lit = "{}") then []
  else
    let st := scan_array (inner_array lit) (mkScan [] "" false false) in
    if bool_decide (sc_cur st = "") then sc_out st else sc_out st ++ [sc_cur st].

(** What Postgres documents of its text[]: an element is printed bare unless it is empty, has a brace, a comma, a quote,
    a backslash or white space, or reads NULL; else it is put in double quotes, with a backslash before quotes and
    backslashes, and so it may be written in any case. *)
Definition plain (v : string) : Prop := v ≠ "" ∧ Forall (λ b, b ≠ 34 ∧ b ≠ 92 ∧ b ≠ 44) (bytes_of v).
Class TextArray := {
  array_in : string → option (list string); array_out : list string → string; array_elem : string → string;
  array_out_elems : ∀ l, array_out l = "{" +:+ join "," (array_elem <$> l) +:+ "}";
  array_elem_form : ∀ v, array_elem v = quoteArrayElem v ∨ (array_elem v = v ∧ plain v);
  array_in_quoted : ∀ l, array_in ("{" +:+ join "," (quoteArrayElem <$> l) +:+ "}") = Some l }.

(** ** schema.sql of telemetry *)
Record TelDb := mkTelDb { d_signals : gmap string FieldSignal; d_health : list HealthEvent }.
Definition on_signals f d := mkTelDb (f (d_signals d)) (d_health d).
Definition on_health f d := mkTelDb (d_signals d) (f (d_health d)).
Definition int4 (z : Z) : bool := (- 2 ^ 31 <=? z) && (z <? 2 ^ 31).
Definition ErrRange : error := Sentinel "pgx: value out of range for int4".
Definition signal_row (s : FieldSignal) : FieldSignal := {|
  fs_SignalID := fs_SignalID s; fs_NodeID := fs_NodeID s; fs_TransportType := fs_TransportType s;
  fs_TransportVersion := fs_TransportVersion s; fs_Region := fs_Region s; fs_ASN := fs_ASN s; fs_ISP := fs_ISP s;
  fs_SignalType := fs_SignalType s; fs_Success := fs_Success s; fs_RTTms := fs_RTTms s; fs_LossPct := fs_LossPct s;
  fs_ClientVersion := fs_ClientVersion s; fs_Platform := fs_Platform s; fs_ObservedAt := timestamptz (fs_ObservedAt s) |}.
Definition with_regions (l : list string) (t : Time) (e : HealthEvent) : HealthEvent := {|
  he_NodeID := he_NodeID e; he_Status := he_Status e; he_ProbeSource := he_ProbeSource e; he_BlockedFromRegions := l;
  he_LatencyMs := he_LatencyMs e; he_Detail := he_Detail e; he_ObservedAt := t |}.
Definition health_row (e : HealthEvent) : HealthEvent := with_regions (he_BlockedFromRegions e) (timestamptz (he_ObservedAt e)) e.

(** ** postgres.go of telemetry *)
Section telemetry.
Context `{ord : !MapOrder, SS : !SortSlice, TA : !TextArray}.
Abbreviation TM := (M (Session TelDb)).
Definition signal_fits (s : FieldSignal) : bool := int4 (fs_ASN s) && int4 (fs_RTTms s).
(** INSERT .. ON CONFLICT (signal_id) DO NOTHING *)
Definition insert_signal (s : FieldSignal) : M TelDb unit := λ d,
  if negb (signal_fits s) then (Err ErrRange, d)
  else match d_signals d !! fs_SignalID s with
       | Some _ => (Ok tt, d)
       | None => (Ok tt, on_signals <[fs_SignalID s := signal_row s]> d)
       end.
Definition insert_health (e : HealthEvent) : M TelDb unit := λ d,
  if negb (int4 (he_LatencyMs e)) then (Err ErrRange, d)
  else match array_in (pqTextArray (he_BlockedFromRegions e)) with
       | None => (Err ErrSyntax, d)
       | Some l => (Ok tt, on_health (λ h, h ++ [with_regions l (timestamptz (he_ObservedAt e)) e]) d)
       end.
Fixpoint exec_each {A} (msg : string) (q : A → M TelDb unit) (l : list A) : TM unit :=
  match l with
  | [] => mret tt
  | x :: l' => wrapping msg (in_tx (q x)) ;;! exec_each msg q l'
  end.
Definition PgWriteSignals (sigs : list FieldSignal) : TM unit :=
  if Nat.eqb (length sigs) 0 then mret tt
  else transaction_with (wrap_err "telemetry store: begin") id (exec_each "telemetry store: insert signal" insert_signal sigs).
Definition PgWriteHealth (events : list HealthEvent) : TM unit :=
  if Nat.eqb (length events) 0 then mret tt
  else transaction_with (wrap_err "telemetry store: begin") id (exec_each "telemetry store: insert health" insert_health events).
(** ORDER BY observed_at ASC leaves the order of ties open. *)
Definition PgSignalsSince (t : Time) : TM (list FieldSignal) := wrapping "telemetry store: query signals" (autocommit (λ d,
  (Ok (sort_Slice (λ x y, Before (fs_ObservedAt x) (fs_ObservedAt y))
         (rows (λ _ s, timestamptz t <=? fs_ObservedAt s) (d_signals d)).*2), d))).
Definition read_health (e : HealthEvent) : HealthEvent :=
  with_regions (parseTextArray (array_out (he_BlockedFromRegions e))) (he_ObservedAt e) e.
Definition PgHealthSince (t : Time) : TM (list HealthEvent) := wrapping "telemetry store: query health" (autocommit (λ d,
  (Ok (read_health <$> sort_Slice (λ x y, Before (he_ObservedAt x) (he_ObservedAt y))
         (filter (λ e, (timestamptz t <=? he_ObservedAt e) = true) (d_health d))), d))).
Definition delete_signals (before : Time) : M TelDb Z := λ d,
  (Ok (Z.of_nat (size (filter (λ kv, (fs_ObservedAt kv.2 <? timestamptz before) = true) (d_signals d)))),
   on_signals (filter (λ kv, (fs_ObservedAt kv.2 <? timestamptz before) = false)) d).
Definition delete_health (before : Time) : M TelDb Z := λ d,
  (Ok (Z.of_nat (length (filter (λ e, (he_ObservedAt e <? timestamptz before) = true) (d_health d)))),
   on_health (filter (λ e, (he_ObservedAt e <? timestamptz before) = false)) d).
Definition PgPrune (before : Time) : TM Z := transaction_with (wrap_err "telemetry store: begin prune") id (
  n ←! wrapping "telemetry store: prune" (in_tx (delete_signals before)) ;
  m ←! wrapping "telemetry store: prune" (in_tx (delete_health before)) ;
  mret (n + m)).
(** SELECT EXISTS(SELECT 1 FROM telemetry_signals LIMIT 1) *)
Definition PgReady : TM unit := autocommit (λ d, (Ok tt, d)).
End telemetry.

(** ** The token index of the subscription service: token_hash to (user_id, subscription_id) *)
Abbreviation TokDb := (gmap string (string * string)).
Definition deleteWhere (p : string * string → bool) : M (Session TokDb) Z := wrapping "controlplane: revoke" (autocommit (λ d : TokDb,
  (Ok (Z.of_nat (size (filter (λ kv, p kv.2 = true) d))), filter (λ kv, p kv.2 = false) d))).
Definition lookup_error (e : error) : error := if no_rows e then ErrNotFound else wrap_err "controlplane: lookup token" e.
Definition Postgres_Index : TokenIndex (Session TokDb) := {|
  Lookup := λ token, on_error lookup_error (autocommit (λ d : TokDb,
    (match d !! HashToken token with Some r => Ok r | None => Err ErrNoRows end, d)));
  Register := λ token userID subID, wrapping "controlplane: register token" (autocommit (λ d : TokDb,
    (Ok tt, <[HashToken token := (userID, subID)]> d)));
  Revoke := λ token, wrapping "controlplane: revoke token" (autocommit (λ d : TokDb, (Ok tt, delete (HashToken token) d)));
  RevokeByUser := λ userID, deleteWhere (λ ref, bool_decide (ref.1 = userID));
  RevokeBySubscription := λ subID, deleteWhere (λ ref, bool_decide (ref.2 = subID)) |}.

(** ** A text[] literal, written and read back *)
Lemma scan_array_app s1 : ∀ s2 st, scan_array (s1 +:+ s2) st = scan_array s2 (scan_array s1 st).
Proof. induction s1 as [|a s1 IH]; intros s2 st; [done|]. apply IH. Qed.
Lemma scan_escaped v : ∀ out cur, scan_array (escape_elem v) (mkScan out cur true false) = mkScan out (cur +:+ v) true false.
Proof.
  induction v as [|a v IH]; intros out cur; cbn [escape_elem]; [by rewrite string_app_empty|].
  change (String a v) with (String a "" +:+ v). rewrite string_app_assoc. destruct (array_special a) eqn:Ha; cbn [scan_array].
  - rewrite <-IH. done.
  - unfold array_special in Ha. apply orb_false_iff in Ha as [H1 H2]. rewrite <-IH. f_equal. unfold scan_step. cbn [sc_esc sc_inQuote]. by rewrite H1, H2, andb_false_r.
Qed.
Lemma scan_plain v : Forall (λ b, b ≠ 34 ∧ b ≠ 92 ∧ b ≠ 44) (bytes_of v) → ∀ out cur,
  scan_array v (mkScan out cur false false) = mkScan out (cur +:+ v) false false.
Proof.
  induction v as [|a v IH]; intros Hv out cur; [by rewrite string_app_empty|]. cbn [bytes_of] in Hv. apply Forall_cons in Hv as [(H1 & H2 & H3) Hv].
  change (String a v) with (String a "" +:+ v) at 2. rewrite string_app_assoc, <-IH by done. cbn [scan_array]. f_equal. unfold scan_step. cbn [sc_esc].
  by rewrite !(proj2 (Z.eqb_neq _ _)) by done.
Qed.
Lemma scan_elem w v out cur : w = quoteArrayElem v ∨ (w = v ∧ plain v) →
  scan_array w (mkScan out cur false false) = mkScan out (cur +:+ v) false false.
Proof.
  intros [->|[-> [_ Hv]]]; [|by apply scan_plain].
  transitivity (scan_array (escape_elem v +:+ String quote_ch "") (mkScan out cur true false)); [done|]. by rewrite scan_array_app, scan_escaped.
Qed.
(** Elements between commas: all but the last are out, the last is the current one. *)
Lemma scan_elems (enc : string → string) (Henc : ∀ v, enc v = quoteArrayElem v ∨ (enc v = v ∧ plain v)) l : ∀ v out, ∃ pre z, v :: l = pre ++ [z] ∧
  scan_array (join "," (enc <$> v :: l)) (mkScan out "" false false) = mkScan (out ++ pre) z false false.
Proof.
  induction l as [|v' l IH]; intros v out.
  - exists [], v. split; [done|]. cbn [fmap list_fmap join]. by rewrite scan_elem with (v := v), app_nil_r.
  - destruct (IH v' (out ++ [v])) as (pre & z & Hl & Hs). exists (v :: pre), z. split; [by rewrite Hl|].
    change (join "," (enc <$> v :: v' :: l)) with (enc v +:+ "," +:+ join "," (enc <$> v' :: l)).
    rewrite !scan_array_app, scan_elem with (v := v) by done. change (scan_array "," _) with (mkScan (out ++ [v]) "" false false). by rewrite Hs, <-app_assoc.
Qed.
Lemma length_braced j : String.length ("{" +:+ j +:+ "}") = S (S (String.length j)).
Proof. rewrite !string_length_app. change (String.length "{") with 1%nat. change (String.length "}") with 1%nat. lia. Qed.
Lemma inner_braced j : inner_array ("{" +:+ j +:+ "}") = j.
Proof.
  unfold inner_array. rewrite length_braced. replace (S (S (String.length j)) - 2)%nat with (String.length j) by lia.
  exact (substring_whole j "}").
Qed.
Lemma parse_elems (enc : string → string) (Henc : ∀ v, enc v = quoteArrayElem v ∨ (enc v = v ∧ plain v)) l :
  parseTextArray ("{" +:+ join "," (enc <$> l) +:+ "}") = if bool_decide (last l = Some "") then removelast l else l.
Proof.
  destruct l as [|v l]; [done|]. destruct (scan_elems enc Henc l v []) as (pre & z & Hl & Hs). rewrite Hl in *. rewrite last_snoc, removelast_last.
  set (j := join "," (enc <$> pre ++ [z])) in *. unfold parseTextArray. rewrite inner_braced, Hs. cbn [sc_cur sc_out app].
  replace (String.length ("{" +:+ j +:+ "}") <? 2)%nat with false.
  2: { rewrite length_braced. symmetry. apply Nat.ltb_ge. lia. }
  cbn [orb]. case_bool_decide as Hj.
  - assert (j = "") as Hj0 by (apply (f_equal inner_array) in Hj; by rewrite inner_braced in Hj). rewrite Hj0 in Hs. by injection Hs as <- <-.
  - by repeat case_bool_decide; simplify_eq.
Qed.
(** What parseTextArray makes of a column: the array, less a last element that is empty. *)
Lemma text_array_read `{!TextArray} l : parseTextArray (array_out l) = if bool_decide (last l = Some "") then removelast l else l.
Proof. rewrite array_out_elems. apply parse_elems, array_elem_form. Qed.
Lemma text_array_round_trip `{!TextArray} l : last l ≠ Some "" → array_out <$> array_in (pqTextArray l) = Some (array_out l) ∧ parseTextArray (array_out l) = l.
Proof.
  intros Hl. rewrite text_array_read, bool_decide_eq_false_2 by done. split; [|done].
  replace (pqTextArray l) with ("{" +:+ join "," (quoteArrayElem <$> l) +:+ "}") by (by destruct l). by rewrite array_in_quoted.
Qed.

(** ** Telemetry's store refines the one in memory *)
Section refinement.
Context `{ord : !MapOrder, SS : !SortSlice, TA : !TextArray}.
Inductive tel_call := CWriteSignals (l : list FieldSignal) | CWriteHealth (l : list HealthEvent) | CSignalsSince (t : Time)
  | CHealthSince (t : Time) | CPrune (t : Time).
Inductive tel_answer := ADone | ASignals (l : list FieldSignal) | AHealth (l : list HealthEvent) | ACount (n : Z).
Definition tel_pg (c : tel_call) : M (Session TelDb) tel_answer :=
  match c with
  | CWriteSignals l => answering (λ _, ADone) (PgWriteSignals l)
  | CWriteHealth l => answering (λ _, ADone) (PgWriteHealth l)
  | CSignalsSince t => answering ASignals (PgSignalsSince t)
  | CHealthSince t => answering AHealth (PgHealthSince t)
  | CPrune t => answering ACount (PgPrune t)
  end.
(** The signals of a batch whose ids are new, to the table and within the batch *)
Fixpoint news (t : gmap string FieldSignal) (sigs : list FieldSignal) : list FieldSignal :=
  match sigs with
  | [] => []
  | s :: sigs' => match t !! fs_SignalID s with Some _ => news t sigs' | None => s :: news (<[fs_SignalID s := signal_row s]> t) sigs' end
  end.
(** The same call on the store in memory: of new signals, at whole microseconds *)
Definition tel_mem (t : gmap string FieldSignal) (c : tel_call) : M MemoryStore tel_answer :=
  match c with
  | CWriteSignals l => answering (λ _, ADone) (WriteSignals (signal_row <$> news t l))
  | CWriteHealth l => answering (λ _, ADone) (WriteHealth (health_row <$> l))
  | CSignalsSince u => answering ASignals (SignalsSince (timestamptz u))
  | CHealthSince u => answering AHealth (HealthSince (timestamptz u))
  | CPrune u => answering ACount (Prune (timestamptz u))
  end.
(** Every INTEGER column can hold what the call writes. *)
Definition call_fits (c : tel_call) : bool :=
  match c with
  | CWriteSignals l => forallb signal_fits l
  | CWriteHealth l => forallb (λ e, int4 (he_LatencyMs e)) l
  | _ => true
  end.
(** No list of regions ends with an empty name, which parseTextArray would drop. *)
Definition named (e : HealthEvent) : Prop := last (he_BlockedFromRegions e) ≠ Some "".
Definition call_named (c : tel_call) : Prop := match c with CWriteHealth l => Forall named l | _ => True end.
Record tel_models (d : TelDb) (m : MemoryStore) : Prop := {
  tm_signals : (map_to_list (d_signals d)).*2 ≡ₚ ms_signals m;
  tm_health : d_health d ≡ₚ ms_health m;
  tm_named : Forall named (d_health d);
  tm_unbounded : ms_maxLen m ≤ 0 }.
Definition earlier_signal (x y : FieldSignal) : bool := Before (fs_ObservedAt x) (fs_ObservedAt y).
Definition earlier_event (x y : HealthEvent) : bool := Before (he_ObservedAt x) (he_ObservedAt y).
(** The rows of an answer in the order of observed_at, ties in any order *)
Definition same_rows {A} (less : A → A → bool) (l1 l2 : list A) : Prop := l2 ≡ₚ l1 ∧ StronglySorted (not_after less) l2.
Definition same_answer (a b : tel_answer) : Prop :=
  match a, b with
  | ADone, ADone => True
  | ASignals l1, ASignals l2 => same_rows earlier_signal l1 l2
  | AHealth l1, AHealth l2 => same_rows earlier_event l1 l2
  | ACount n, ACount k => n = k
  | _, _ => False
  end.

Lemma tx_ok_exec_each {A} msg (q : A → M TelDb unit) l : tx_ok (exec_each msg q l).
Proof. induction l as [|x l IH]; cbn [exec_each]; [apply tx_ok_ret|]. apply tx_ok_bind; [apply tx_ok_wrapping, tx_ok_in_tx|
  intros _; exact IH]. Qed.
Lemma tel_pg_whole c : all_or_nothing (tel_pg c).
Proof.
  assert (∀ A f msg (q : A → M TelDb unit) l, all_or_nothing (transaction_with (wrap_err f) id (exec_each msg q l))) as Htx.
  { intros. apply all_or_nothing_transaction_with; [apply gave_up_wrap|done|apply tx_ok_exec_each]. }
  destruct c as [l|l|t|t|t]; cbn [tel_pg]; apply answering_all_or_nothing.
  - unfold PgWriteSignals. destruct (Nat.eqb _ _); [apply all_or_nothing_ret|apply Htx].
  - unfold PgWriteHealth. destruct (Nat.eqb _ _); [apply all_or_nothing_ret|apply Htx].
  - apply all_or_nothing_wrapping, all_or_nothing_autocommit.
  - apply all_or_nothing_wrapping, all_or_nothing_autocommit.
  - apply all_or_nothing_transaction_with; [apply gave_up_wrap|done|]. apply tx_ok_bind; [apply tx_ok_wrapping, tx_ok_in_tx|].
    intros n. apply tx_ok_bind; [apply tx_ok_wrapping, tx_ok_in_tx|intros k; apply tx_ok_ret].
Qed.
Lemma steady_exec_each {A} msg (q : A → M TelDb unit) x l d : steady (exec_each msg q (x :: l)) d =
  match q x d with (Ok _, d') => steady (exec_each msg q l) d' | (Err e, d') => (Err (wrap_err msg e), d') end.
Proof.
  cbn [exec_each]. rewrite steady_bind by apply tx_ok_wrapping, tx_ok_in_tx. rewrite steady_wrapping, steady_in_tx. by destruct (q x d) as [[]?].
Qed.
(** A batch with one value too large fails whole. *)
Lemma exec_each_unfit {A} msg (q : A → M TelDb unit) (fits : A → bool) l : (∀ x d, fits x = false → is_ok (q x d).1 = false) →
  forallb fits l = false → ∀ d, is_ok (steady (exec_each msg q l) d).1 = false.
Proof.
  intros Hq. induction l as [|x l IH]; [done|]. intros Hl d. rewrite steady_exec_each. cbn [forallb] in Hl. destruct (q x d) as [[]d'] eqn:Hx; [|done].
  apply IH. destruct (fits x) eqn:Hf; [done|]. specialize (Hq x d Hf). by rewrite Hx in Hq.
Qed.
Definition put_signals (t : gmap string FieldSignal) (l : list FieldSignal) : gmap string FieldSignal :=
  foldl (λ t s, <[fs_SignalID s := signal_row s]> t) t (news t l).
Lemma exec_signals msg l : ∀ d, forallb signal_fits l = true →
  steady (exec_each msg insert_signal l) d = (Ok tt, on_signals (λ t, put_signals t l) d).
Proof.
  induction l as [|s l IH]; intros [t h] Hl; [done|]. rewrite steady_exec_each. cbn [forallb] in Hl. apply andb_true_iff in Hl as [Hs Hl].
  unfold insert_signal at 1. rewrite Hs. cbn [negb d_signals].
  destruct (t !! fs_SignalID s) eqn:Ht; rewrite IH by done; unfold on_signals, put_signals; cbn; by rewrite Ht.
Qed.
Lemma put_signals_rows l : ∀ t, (map_to_list (put_signals t l)).*2 ≡ₚ (map_to_list t).*2 ++ (signal_row <$> news t l).
Proof.
  unfold put_signals. induction l as [|s l IH]; intros t; cbn [news]; [by rewrite app_nil_r|]. destruct (t !! fs_SignalID s) eqn:Ht; [apply IH|].
  cbn [foldl]. rewrite IH, map_to_list_insert by done. cbn. by rewrite <-Permutation_middle.
Qed.
Lemma exec_health msg l : ∀ d, forallb (λ e, int4 (he_LatencyMs e)) l = true →
  steady (exec_each msg insert_health l) d = (Ok tt, on_health (λ h, h ++ (health_row <$> l)) d).
Proof.
  induction l as [|e l IH]; intros [t h] Hl; [unfold on_health; cbn; by rewrite app_nil_r|]. rewrite steady_exec_each. cbn [forallb] in Hl. apply andb_true_iff in Hl as [He Hl].
  unfold insert_health at 1. rewrite He. replace (pqTextArray (he_BlockedFromRegions e)) with ("{" +:+ join "," (quoteArrayElem <$> he_BlockedFromRegions e) +:+ "}")
    by (by destruct (he_BlockedFromRegions e)). rewrite array_in_quoted. cbn [negb]. rewrite IH by done. unfold on_health. cbn. by rewrite <-app_assoc.
Qed.

Definition agrees (c : tel_call) (d : TelDb) (m : MemoryStore) : Prop :=
  let '(r, d') := steady (tel_pg c) d in let '(r', m') := tel_mem (d_signals d) c m in
  ∃ a b, r' = Ok a ∧ r = Ok b ∧ same_answer a b ∧ tel_models d' m'.
Lemma steady_batch {A} f msg (q : A → M TelDb unit) l d : l ≠ [] →
  steady (if Nat.eqb (length l) 0 then mret tt else transaction_with (wrap_err f) id (exec_each msg q l)) d =
  match steady (exec_each msg q l) d with (Ok _, d') => (Ok tt, d') | (Err e, _) => (Err e, d) end.
Proof. intros Hl. destruct l as [|x l]; [done|]. cbn [length Nat.eqb]. rewrite steady_transaction_with by apply tx_ok_exec_each. by destruct (steady _ d) as [[[]|] ?]. Qed.
(** A call whose values do not fit fails and leaves the tables alone. *)
Lemma unfit_call c d : call_fits c = false → is_ok (steady (tel_pg c) d).1 = false ∧ (steady (tel_pg c) d).2 = d.
Proof.
  intros Hc. destruct c as [l|l| | |]; [| |done..]; cbn in Hc; (assert (l ≠ []) by (by intros ->)); cbn [tel_pg]; rewrite steady_answering;
    unfold PgWriteSignals, PgWriteHealth; rewrite steady_batch by done.
  - pose proof (exec_each_unfit "telemetry store: insert signal" insert_signal signal_fits l) as H1. specialize (H1 ltac:(intros x d0 Hx; unfold insert_signal; by rewrite Hx) Hc d).
    by destruct (steady _ d) as [[] ?].
  - pose proof (exec_each_unfit "telemetry store: insert health" insert_health (λ e, int4 (he_LatencyMs e)) l) as H1.
    specialize (H1 ltac:(intros x d0 Hx; unfold insert_health; by rewrite Hx) Hc d). by destruct (steady _ d) as [[] ?].
Qed.
Lemma capped_unbounded {A} max (l : list A) : max ≤ 0 → capped max l = l.
Proof. intros H. unfold capped. by rewrite (proj2 (Z.ltb_ge _ _)). Qed.
Lemma agrees_WriteSignals l d m : forallb signal_fits l = true → tel_models d m → agrees (CWriteSignals l) d m.
Proof.
  intros Hl [H1 H2 H3 H4]. unfold agrees. cbn [tel_pg tel_mem]. rewrite steady_answering. unfold PgWriteSignals, WriteSignals, answering, mbind, M_bind.
  destruct (decide (l = [])) as [->|Hne]; [exists ADone, ADone; by split_and!|]. rewrite steady_batch, exec_signals by done. rewrite length_fmap.
  destruct (Nat.eqb_spec (length (news (d_signals d) l)) 0) as [Hn|Hn]; exists ADone, ADone; (split_and!; [done..|]).
  - apply length_zero_iff_nil in Hn. split; cbn; [rewrite put_signals_rows, Hn; cbn; by rewrite app_nil_r|done..].
  - split; cbn; [|done..]. rewrite capped_unbounded by done. by rewrite sort_Slice_perm, put_signals_rows, H1.
Qed.
Lemma agrees_WriteHealth l d m : forallb (λ e, int4 (he_LatencyMs e)) l = true → Forall named l → tel_models d m → agrees (CWriteHealth l) d m.
Proof.
  intros Hl Hn [H1 H2 H3 H4]. unfold agrees. cbn [tel_pg tel_mem]. rewrite steady_answering. unfold PgWriteHealth, WriteHealth, answering, mbind, M_bind.
  rewrite length_fmap. destruct (decide (l = [])) as [->|Hne]; [exists ADone, ADone; by split_and!|]. rewrite steady_batch, exec_health by done.
  destruct (Nat.eqb_spec (length l) 0) as [Hz|_]; [by apply length_zero_iff_nil in Hz|]. exists ADone, ADone. split_and!; [done..|].
  split; cbn; [done| | |done].
  - rewrite capped_unbounded by done. by rewrite sort_Slice_perm, H2.
  - apply Forall_app. split; [done|]. by apply Forall_fmap.
Qed.
Lemma strict_earlier {A} (at_ : A → Time) : strict_weak (λ x y, Before (at_ x) (at_ y)).
Proof. apply (strict_weak_map at_ Z.ltb), strict_weak_Zltb. Qed.
Lemma rows_values (q : FieldSignal → bool) (t : gmap string FieldSignal) : (rows (λ _ s, q s) t).*2 ≡ₚ filter (λ s, q s = true) (map_to_list t).*2.
Proof.
  unfold rows. rewrite range_perm. induction (map_to_list t) as [|[k s] l IH]; [done|]. cbn [fmap list_fmap]. rewrite !filter_cons. cbn.
  repeat case_decide; try done; cbn; by rewrite IH.
Qed.
Lemma filter_values (q : FieldSignal → bool) b (t : gmap string FieldSignal) :
  (map_to_list (filter (λ kv, q kv.2 = b) t)).*2 ≡ₚ filter (λ s, q s = b) (map_to_list t).*2.
Proof.
  induction t as [|k s t Hk IH] using map_ind; [done|]. rewrite map_to_list_insert by done. 
  rewrite fmap_cons, filter_cons. cbn.
  case_decide as Hs; rewrite <-IH.
  - rewrite map_filter_insert_True by done. rewrite map_to_list_insert; [done|]. by apply map_lookup_filter_None_2; left.
  - rewrite map_filter_insert_False by done. by rewrite delete_id.
Qed.
Lemma read_row e : named e → read_health e = e.
Proof. intros He. unfold read_health. rewrite text_array_read, bool_decide_eq_false_2 by done. by destruct e. Qed.
Lemma read_rows l : Forall named l → read_health <$> l = l.
Proof. induction 1 as [|e l He _ IH]; [done|]. cbn. by rewrite read_row, IH. Qed.
Lemma not_before t u : (Before t u = false) ↔ (u <=? t) = true.
Proof. unfold Before. rewrite Z.ltb_ge, Z.leb_le. done. Qed.
Lemma agrees_SignalsSince t d m : tel_models d m → agrees (CSignalsSince t) d m.
Proof.
  intros [H1 H2 H3 H4]. unfold agrees. cbn [tel_pg tel_mem]. rewrite steady_answering. unfold PgSignalsSince. rewrite steady_wrapping, steady_autocommit.
  do 2 eexists. split_and!; [done..| |by split]. split; [|apply sort_Slice_sorted, (strict_earlier fs_ObservedAt)].
  rewrite sort_Slice_perm, (rows_values (λ s, timestamptz t <=? fs_ObservedAt s)), H1. erewrite list_filter_iff; [done|]. intros s. by rewrite not_before.
Qed.
Lemma named_filter (P : HealthEvent → Prop) `{!∀ e, Decision (P e)} l : Forall named l → Forall named (filter P l).
Proof. rewrite !Forall_forall. intros Hl e. rewrite list_elem_of_filter. naive_solver. Qed.
Lemma agrees_HealthSince t d m : tel_models d m → agrees (CHealthSince t) d m.
Proof.
  intros [H1 H2 H3 H4]. unfold agrees. cbn [tel_pg tel_mem]. rewrite steady_answering. unfold PgHealthSince. rewrite steady_wrapping, steady_autocommit.
  do 2 eexists. split_and!; [done..| |by split]. rewrite read_rows.
  - split; [|apply sort_Slice_sorted, (strict_earlier he_ObservedAt)]. rewrite sort_Slice_perm, H2. erewrite list_filter_iff; [done|]. intros e. by rewrite not_before.
  - rewrite sort_Slice_perm. by apply named_filter.
Qed.
Lemma filter_rest {A} (q : A → bool) (l : list A) : length (filter (λ x, q x = true) l) = (length l - length (filter (λ x, q x = false) l))%nat.
Proof.
  assert (length l = length (filter (λ x, q x = true) l) + length (filter (λ x, q x = false) l))%nat; [|lia].
  induction l as [|x l IH]; [done|]. rewrite !filter_cons. repeat case_decide; cbn; try lia; by destruct (q x).
Qed.
Lemma agrees_Prune t d m : tel_models d m → agrees (CPrune t) d m.
Proof.
  intros [H1 H2 H3 H4]. unfold agrees. cbn [tel_pg tel_mem]. rewrite steady_answering. unfold PgPrune.
  assert (∀ (A : Type) msg (st : M TelDb A), tx_ok (wrapping msg (in_tx st))) as Hst by (intros; apply tx_ok_wrapping, tx_ok_in_tx).
  rewrite steady_transaction_with by (apply tx_ok_bind; [done|]; intros; apply tx_ok_bind; [done|]; intros; apply tx_ok_ret).
  rewrite steady_bind, steady_wrapping, steady_in_tx by done. cbn [delete_signals]. rewrite steady_bind, steady_wrapping, steady_in_tx by done. cbn [delete_health].
  unfold delete_signals, delete_health. cbn -[timestamptz].
  do 2 eexists. split_and!; [done..| |split; cbn -[timestamptz]; [|by rewrite H2|by apply named_filter|done]].
  - cbn -[timestamptz]. rewrite <-H1, <-H2. f_equal; [|by rewrite (filter_rest (λ e, he_ObservedAt e <? timestamptz t))]. 
    rewrite <-(filter_rest (λ s, fs_ObservedAt s <? timestamptz t)).
    rewrite <-(filter_values (λ s, fs_ObservedAt s <? timestamptz t) true), length_fmap, length_map_to_list. done.
  - by rewrite (filter_values (λ s, fs_ObservedAt s <? timestamptz t) false), H1.
Qed.
Lemma tel_agrees c d m : call_fits c = true → call_named c → tel_models d m → agrees c d m.
Proof.
  intros Hf Hn H. destruct c; [by apply agrees_WriteSignals|by apply agrees_WriteHealth|by apply agrees_SignalsSince|by apply agrees_HealthSince|by apply agrees_Prune].
Qed.
(** C21: Telemetry's store over a link that loses calls at any point: a call whose numbers do not all fit their INTEGER
    columns fails and leaves the tables alone. Any other call, of events whose region lists do not end with an empty
    name (parseTextArray drops it), either reports the loss, having done all of its work
    (the whole batch, both deletions) or none of it, or it does what the store in memory without a limit does with the signals
    whose ids are new, times cut to microseconds: it answers the same rows, oldest first, or the same count of pruned
    points, and the tables hold what that store holds, regions read back from their text[] literal included. *)
Theorem telemetry_store_refines c d m link : tel_models d m → call_named c →
  let '(r, s) := tel_pg c (mkSession d link) in let '(r', m') := tel_mem (d_signals d) c m in
  if call_fits c then
    (lost r ∧ (ss_db s = d ∨ tel_models (ss_db s) m')) ∨
    (∃ a b, r' = Ok a ∧ r = Ok b ∧ same_answer a b ∧ tel_models (ss_db s) m')
  else is_ok r = false ∧ ss_db s = d.
Proof.
  intros H Hn. pose proof (tel_pg_whole c d link) as Hw. destruct (call_fits c) eqn:Hf.
  - pose proof (tel_agrees c d m Hf Hn H) as Ha. unfold agrees in Ha. destruct (tel_pg c (mkSession d link)) as [r s], (steady (tel_pg c) d) as [r0 d0].
    destruct (tel_mem _ c m) as [r' m']. destruct Ha as (a & b & -> & -> & Hab & Hm). destruct Hw as [[Hl [->| ->]]|[= -> ->]]; [by left; auto..|]. right. by exists a, b.
  - pose proof (unfit_call c d Hf) as [H1 H2]. destruct (tel_pg c (mkSession d link)) as [r s], (steady (tel_pg c) d) as [r0 d0]. cbn in H1, H2. subst d0.
    destruct (tel_mem _ c m) as [r' m']. destruct Hw as [[Hl Hd]|[= -> ->]]; [|done]. split; [by destruct r|]. by destruct Hd.
Qed.
End refinement.

(** ** A server's arrays, to evaluate the definitions: always quoted, and a last element that is empty is read too *)
Definition read_array (lit : string) : option (list string) :=
  if bool_decide (lit = "{}") then Some []
  else let st := scan_array (inner_array lit) (mkScan [] "" false false) in Some (sc_out st ++ [sc_cur st]).
Program Definition quoting_arrays : TextArray := {|
  array_in := read_array; array_out := λ l, "{" +:+ join "," (quoteArrayElem <$> l) +:+ "}"; array_elem := quoteArrayElem |}.
Next Obligation. done. Qed.
Next Obligation. by left. Qed.
Next Obligation.
  intros [|v l]; [done|]. destruct (scan_elems quoteArrayElem (λ v, or_introl eq_refl) l v []) as (pre & z & Hl & Hs).
  unfold read_array. rewrite inner_braced, Hs. cbn [sc_out sc_cur app]. rewrite bool_decide_eq_false_2; [by rewrite Hl|].
  intros E%(f_equal inner_array). rewrite inner_braced in E. change (inner_array "{}") with "" in E. destruct l; discriminate E.
Qed.
Example array_literal : pqTextArray ["RU-MOW"; String (chr 34) "x,y"] = "{" +:+ quote +:+ "RU-MOW" +:+ quote +:+ "," +:+ quote +:+ backslash +:+ quote +:+ "x,y" +:+ quote +:+ "}" ∧
  parseTextArray (pqTextArray ["RU-MOW"; String (chr 34) "x,y"]) = ["RU-MOW"; String (chr 34) "x,y"] ∧ parseTextArray "{a,b}" = ["a"; "b"] ∧
  parseTextArray (pqTextArray ["a"; ""]) = ["a"].
Proof. vm_compute. done. Qed.

(** One batch: two new signals, one of them sent twice; COMMIT takes effect and its answer is lost. *)
Definition tel_signal (id : string) (asn : Z) : FieldSignal := {|
  fs_SignalID := id; fs_NodeID := "n1"; fs_TransportType := TransportVlessReality; fs_TransportVersion := ""; fs_Region := "RU-MOW";
  fs_ASN := asn; fs_ISP := ""; fs_SignalType := SignalOK; fs_Success := true; fs_RTTms := 40; fs_LossPct := of_int 0;
  fs_ClientVersion := "1.2"; fs_Platform := ""; fs_ObservedAt := Hour |}.
Definition tel_batch : tel_call := CWriteSignals [tel_signal "a" 12389; tel_signal "b" 0; tel_signal "a" 12389].
Definition tel_faults : list fault := [Runs; Runs; Runs; Runs; LostAfter].
#[local] Abbreviation t_pg := (tel_pg (ord := key_order) (SS := merge_sorting) (TA := quoting_arrays)).
#[local] Abbreviation t_mem := (tel_mem (SS := merge_sorting)).
Lemma telemetry_store_refines_witness :
  let '(r, s) := t_pg tel_batch (mkSession (mkTelDb ∅ []) tel_faults) in let '(r', m') := t_mem ∅ tel_batch (NewMemoryStore 0) in
  if call_fits tel_batch then
    (lost r ∧ (ss_db s = mkTelDb ∅ [] ∨ tel_models (ss_db s) m')) ∨
    (∃ a b, r' = Ok a ∧ r = Ok b ∧ same_answer a b ∧ tel_models (ss_db s) m')
  else is_ok r = false ∧ ss_db s = mkTelDb ∅ [].
Proof.
  refine (telemetry_store_refines (ord := key_order) (SS := merge_sorting) (TA := quoting_arrays) tel_batch (mkTelDb ∅ []) (NewMemoryStore 0) tel_faults _ I).
  split; [done|done|by constructor|cbn; lia].
Defined.

(** ** A 32-bit AS number
    Sanitize lets every ASN up to 4294967295 through, and the column of schema.sql is an INTEGER. *)
Lemma whole_minutes t : timestamptz (Truncate t clockCoarse) = Truncate t clockCoarse.
Proof.
  apply timestamptz_whole. unfold Truncate. replace (clockCoarse <=? 0) with false by done. change clockCoarse with (60000000 * Microsecond).
  assert (0 < Microsecond) by done. rewrite (Z.mod_eq t) by lia. replace (t - _) with ((t / (60000000 * Microsecond) * 60000000) * Microsecond) by ring.
  apply Z.mod_mul. lia.
Qed.
Lemma sanitized_fits raw now age s : Sanitize raw now age = Ok s → fs_ASN s < 2 ^ 31 → signal_fits s = true ∧ signal_row s = s.
Proof.
  unfold Sanitize. cbv zeta. repeat match goal with |- (if ?b then Err _ else _) = _ → _ => destruct b; [discriminate|] end.
  destruct (FieldSignal_Validate _); [|discriminate]. intros [= <-] Ha. unfold signal_fits, int4, signal_row. cbn [fs_ASN fs_RTTms fs_ObservedAt fs_SignalID fs_NodeID
    fs_TransportType fs_TransportVersion fs_Region fs_ISP fs_SignalType fs_Success fs_LossPct fs_ClientVersion fs_Platform] in *. rewrite whole_minutes. split; [|done].
  apply andb_true_iff. split; apply andb_true_iff; rewrite Z.leb_le, Z.ltb_lt.
  - destruct ((fs_ASN raw <? 0) || _) eqn:E in *; [lia|]. apply orb_false_iff in E as [E _]. apply Z.ltb_ge in E. lia.
  - destruct ((fs_RTTms raw <? 0) || _) eqn:E in *; [lia|]. apply orb_false_iff in E as [E1 E2]. apply Z.ltb_ge in E1, E2. unfold maxRTTms in E2. lia.
Qed.
(** One accepted signal of a 32-bit AS fails the whole batch it came in, and as its ids are marked as seen before the
    write, the batch sent again is rejected as duplicates. *)
Example wide_asn_loses_batch :
  let raw := tel_signal "wide" 4294967295 in
  Sanitize raw Hour (24 * Hour) = Ok raw ∧
  (t_pg (CWriteSignals [tel_signal "a" 0; raw]) (mkSession (mkTelDb ∅ []) [])).1 = Err (wrap_err "telemetry store: insert signal" ErrRange) ∧
  let seen := foldl (λ d id, (Fresh id Hour d).2) {| dd_seen := ∅; dd_ttl := Hour |} ["a"; "wide"] in
  (Fresh "a" (Hour + Minute) seen).1 = false ∧ (Fresh "wide" (Hour + Minute) seen).1 = false.
Proof. vm_compute. done. Qed.

(** ** The token index refines the one in memory *)
Inductive index_call := ILookup (token : string) | IRegister (token userID subID : string) | IRevoke (token : string)
  | IRevokeByUser (userID : string) | IRevokeBySubscription (subID : string).
Inductive index_answer := ILink (userID subID : string) | IDone | ICount (n : Z).
Definition index_op {E} (idx : TokenIndex E) (c : index_call) : M E index_answer :=
  match c with
  | ILookup token => answering (λ r, ILink r.1 r.2) (Lookup idx token)
  | IRegister token u s => answering (λ _, IDone) (Register idx token u s)
  | IRevoke token => answering (λ _, IDone) (Revoke idx token)
  | IRevokeByUser u => answering ICount (RevokeByUser idx u)
  | IRevokeBySubscription s => answering ICount (RevokeBySubscription idx s)
  end.
Lemma gave_up_lookup e : gave_up e = true → gave_up (lookup_error e) = true.
Proof. intros He. unfold lookup_error. rewrite gave_up_rows by done. by apply gave_up_wrap. Qed.
Lemma index_op_whole c : all_or_nothing (index_op Postgres_Index c).
Proof.
  destruct c; apply answering_all_or_nothing; cbn; try (apply all_or_nothing_wrapping, all_or_nothing_autocommit).
  apply all_or_nothing_on_error, all_or_nothing_autocommit. apply gave_up_lookup.
Qed.
Lemma steady_index c m : let '(r, d) := steady (index_op Postgres_Index c) (m_tokens m) in
  (r, d) = ((index_op memory_Index c m).1, m_tokens (index_op memory_Index c m).2).
Proof.
  destruct c; unfold index_op; rewrite steady_answering; cbn [Postgres_Index Lookup Register Revoke RevokeByUser RevokeBySubscription].
  - rewrite steady_on_error, steady_autocommit. unfold answering, mbind, M_bind, found. cbn -[HashToken].
    by destruct (m_tokens m !! HashToken token) as [[]|].
  - by rewrite steady_wrapping, steady_autocommit.
  - by rewrite steady_wrapping, steady_autocommit.
  - unfold deleteWhere. by rewrite steady_wrapping, steady_autocommit.
  - unfold deleteWhere. by rewrite steady_wrapping, steady_autocommit.
Qed.
(** A call of the Postgres index reports the loss of the connection, having been made or not, or answers what the index in
    memory answers; either way its table is that index's, before or after the call. *)
Theorem index_call_refines c m link : let '(r, s) := index_op Postgres_Index c (mkSession (m_tokens m) link) in let '(r', m') := index_op memory_Index c m in
  (lost r ∧ (ss_db s = m_tokens m ∨ ss_db s = m_tokens m')) ∨ (r = r' ∧ ss_db s = m_tokens m').
Proof.
  pose proof (index_op_whole c (m_tokens m) link) as Hw. pose proof (steady_index c m) as Hs.
  destruct (index_op Postgres_Index c _) as [r s], (steady _ _) as [r0 d0], (index_op memory_Index c m) as [r' m']. cbn in Hs. injection Hs as -> ->.
  destruct Hw as [[Hl Hd]|[= -> ->]]; [by left|by right].
Qed.

(** ** The control-plane's notifier (adapters/subnotify) in front of the subscription service

    [Do] is one exchange of the notifier, from building the request on: the status of the answer. [Noop] is what runs
    without a subscription service. *)
Record post := { po_URL : string; po_Authorization : string; po_Body : string }.
Definition omitempty (name value : string) : list string := if bool_decide (value = "") then [] else [json_field name (json_string value)].
Definition revokePayload (token userID subscriptionID : string) : string :=
  json_object (omitempty "token" token ++ omitempty "user_id" userID ++ omitempty "subscription_id" subscriptionID).
Definition registerPayload (token userID subscriptionID : string) : string :=
  json_object [json_field "token" (json_string token); json_field "user_id" (json_string userID); json_field "subscription_id" (json_string subscriptionID)].
Section notifier.
Context {E : Type} (Do : post → M E Z) (baseURL token : string).
Definition notifier_post (path payload : string) : M E unit :=
  status ←! wrapping ("subnotify: " +:+ path) (Do {|
    po_URL := TrimRight_slash baseURL +:+ path; po_Authorization := "Bearer " +:+ token; po_Body := payload |}) ;
  if (status <? 200) || (300 <=? status) then fail (Errorf ("subnotify: " +:+ path +:+ ": unexpected status")) else mret tt.
Definition Notifier (n : ControlUse.notice) : M E unit :=
  match n with
  | ControlUse.RevokeUser u => notifier_post "/internal/revoke" (revokePayload "" u "")
  | ControlUse.RevokeSubscription id => notifier_post "/internal/revoke" (revokePayload "" "" id)
  | ControlUse.RegisterToken t u id => notifier_post "/internal/tokens" (registerPayload t u id)
  end.
Definition Noop (n : ControlUse.notice) : M E unit := mret tt.
End notifier.

Section notified.
Context `{ord : !MapOrder} `{NetIP} (cfg : Config) (cp : Provider (Session TokDb)) (now : Session TokDb → Time * Session TokDb).
Context (dec : InternalDecoders) (proxies : list Prefix) (ready : option (M (Session TokDb) unit)) (baseURL : string).
Definition arrived (x : post) : Request := {|
  rq_Method := "POST"; rq_Path := TrimPrefix (po_URL x) (TrimRight_slash baseURL); rq_Query := ∅;
  rq_Header := <["Authorization" := [po_Authorization x]]> ∅; rq_TLS := false; rq_Host := ""; rq_RemoteAddr := "";
  rq_Body := bytes_of (po_Body x) |}.
Definition answered (x : post) : M (State (E := Session TokDb)) Z :=
  rsp ←! Handler cfg Postgres_Index cp now dec proxies ready (arrived x) ; mret (rsp_Status rsp).
Definition notified (n : ControlUse.notice) : M (BillingClient.Lossy (State (E := Session TokDb))) unit :=
  Notifier (λ x, BillingClient.over_network (answered x)) baseURL (cf_InternalToken cfg) n.
(** The service's decoders read back what the notifier wrote. *)
Definition understood (n : ControlUse.notice) : Prop :=
  let l p := take maxInternalBody (bytes_of p) in
  match n with
  | ControlUse.RevokeUser u => id_revoke dec (l (revokePayload "" u "")) = Some {| vr_Token := ""; vr_UserID := u; vr_SubscriptionID := "" |}
  | ControlUse.RevokeSubscription id => id_revoke dec (l (revokePayload "" "" id)) = Some {| vr_Token := ""; vr_UserID := ""; vr_SubscriptionID := id |}
  | ControlUse.RegisterToken t u id =>
      id_register dec (l (registerPayload t u id)) = Some {| rr_Token := t; rr_UserID := u; rr_SubscriptionID := id |}
  end.
(** The index a notice asks for *)
Definition obeyed (n : ControlUse.notice) (d : TokDb) : TokDb :=
  match n with
  | ControlUse.RevokeUser u => filter (λ kv, bool_decide (kv.2.1 = u) = false) d
  | ControlUse.RevokeSubscription id => filter (λ kv, bool_decide (kv.2.2 = id) = false) d
  | ControlUse.RegisterToken t u id => <[HashToken t := (u, id)]> d
  end.
Definition index_table (w : BillingClient.Lossy (State (E := Session TokDb))) : TokDb := ss_db (st_env (BillingClient.l_client w)).
Lemma wrapped_change {A} msg (st : M TokDb A) f (Hst : ∀ d, is_ok (st d).1 = true ∧ (st d).2 = f d) s :
  let '(r, s') := wrapping msg (autocommit st) s in
  (is_ok r = true → ss_db s' = f (ss_db s)) ∧ (ss_db s' = ss_db s ∨ ss_db s' = f (ss_db s)).
Proof.
  destruct s as [d link]. specialize (Hst d). unfold wrapping, autocommit. cbn [ss_db]. destruct (st d) as [r d']. cbn in Hst. destruct Hst as [Hok ->].
  destruct (fate _); cbn [ss_db after_call]; destruct r as [a|e]; try done; cbn; naive_solver.
Qed.
Lemma deleteWhere_change p s : let '(r, s') := deleteWhere p s in
  (is_ok r = true → ss_db s' = filter (λ kv, p kv.2 = false) (ss_db s)) ∧
  (ss_db s' = ss_db s ∨ ss_db s' = filter (λ kv, p kv.2 = false) (ss_db s)).
Proof. by apply (wrapped_change _ _ (λ d : TokDb, filter (λ kv, p kv.2 = false) d)). Qed.
Definition notice_path (n : ControlUse.notice) : string :=
  match n with ControlUse.RegisterToken _ _ _ => "/internal/tokens" | _ => "/internal/revoke" end.
Definition notice_payload (n : ControlUse.notice) : string :=
  match n with
  | ControlUse.RevokeUser u => revokePayload "" u ""
  | ControlUse.RevokeSubscription id => revokePayload "" "" id
  | ControlUse.RegisterToken t u id => registerPayload t u id
  end.
Definition notice_post (n : ControlUse.notice) : post := {|
  po_URL := TrimRight_slash baseURL +:+ notice_path n; po_Authorization := "Bearer " +:+ cf_InternalToken cfg; po_Body := notice_payload n |}.
Context (Htok : cf_InternalToken cfg ≠ "").
Lemma notice_path_arrives n : rq_Path (arrived (notice_post n)) = notice_path n.
Proof. apply TrimPrefix_app. Qed.
Lemma notice_authorized n : authorizedInternal cfg (arrived (notice_post n)) = true.
Proof.
  unfold authorizedInternal. assert (header (arrived (notice_post n)) "Authorization" = "Bearer " +:+ cf_InternalToken cfg) as ->.
  { unfold header, arrived. cbn [rq_Header]. by rewrite lookup_insert_eq. }
  rewrite HasPrefix_app, TrimPrefix_app. by rewrite bool_decide_eq_true_2.
Qed.
Lemma notice_handled n : Handler cfg Postgres_Index cp now dec proxies ready (arrived (notice_post n)) =
  match n with
  | ControlUse.RegisterToken _ _ _ => internalRegisterToken Postgres_Index dec (arrived (notice_post n))
  | _ => internalRevokeToken Postgres_Index dec (arrived (notice_post n))
  end.
Proof.
  unfold Handler, handleInternal. rewrite notice_authorized, (bool_decide_eq_false_2 (cf_InternalToken cfg = "")) by done. rewrite !notice_path_arrives.
  destruct n; reflexivity.
Qed.
(** What a request to the service does to the index: all of [d'] or nothing, and all of it when it is answered with a success *)
Definition one_change (d' : TokDb → TokDb) (m : M (State (E := Session TokDb)) Response) : Prop := ∀ s, ∃ rsp s', m s = (Ok rsp, s') ∧
  (200 <= rsp_Status rsp < 300 → ss_db (st_env s') = d' (ss_db (st_env s))) ∧
  (ss_db (st_env s') = ss_db (st_env s) ∨ ss_db (st_env s') = d' (ss_db (st_env s))).
Lemma one_change_ret d' rsp : ¬ (200 <= rsp_Status rsp < 300) → one_change d' (mret rsp).
Proof. intros Hn s. exists rsp, s. split; [done|]. split; [done|by left]. Qed.
Lemma one_change_env {A} d' (m : M (Session TokDb) A) (inv : M (Cache * Session TokDb) unit) msg :
  (∀ s, let '(r, s') := m s in (is_ok r = true → ss_db s' = d' (ss_db s)) ∧ (ss_db s' = ss_db s ∨ ss_db s' = d' (ss_db s))) →
  (∀ c e, ∃ c', inv (c, e) = (Ok tt, (c', e))) →
  one_change d' (done ←! try (on_env m) ; match done with Err _ => mret (Error 500 msg) | Ok _ => on_cache inv ;;! mret NoContent end).
Proof.
  intros Hm Hi s. unfold mbind, M_bind, try, on_env. specialize (Hm (st_env s)). destruct (m (st_env s)) as [[a|e] s1]; destruct Hm as [H1 H2].
  - unfold on_cache, mret. cbn [st_cache st_env]. destruct (Hi (st_cache s) s1) as [c' Hc]. unfold mbind, M_bind. cbn. rewrite Hc.
    eexists _, _. split; [reflexivity|]. cbn. by auto.
  - eexists _, _. split; [reflexivity|]. cbn. split; [lia|done].
Qed.
Lemma one_selector u id : set_count {| vr_Token := ""; vr_UserID := u; vr_SubscriptionID := id |} =
  ((if bool_decide (u = "") then 0 else 1) + (if bool_decide (id = "") then 0 else 1))%nat.
Proof.
  unfold set_count. cbn [vr_Token vr_UserID vr_SubscriptionID]. rewrite filter_cons_False by naive_solver.
  repeat case_bool_decide; rewrite ?filter_cons_True, ?filter_cons_False, ?filter_nil by (done || naive_solver); try done.
  all: rewrite filter_cons_True by done; done.
Qed.
Lemma drops_renders (c : Cache) (e : Session TokDb) : ∃ c', InvalidateAll (c, e) = (Ok tt, (c', e)).
Proof. by eexists. Qed.
Lemma drops_render t (c : Cache) (e : Session TokDb) : ∃ c', InvalidateToken t (c, e) = (Ok tt, (c', e)).
Proof. by eexists. Qed.
Lemma revoked_change p s : let '(r, s') := (deleteWhere p ;;! mret tt) s in
  (is_ok r = true → ss_db s' = filter (λ kv, p kv.2 = false) (ss_db s)) ∧
  (ss_db s' = ss_db s ∨ ss_db s' = filter (λ kv, p kv.2 = false) (ss_db s)).
Proof. pose proof (deleteWhere_change p s) as Hc. unfold mbind, M_bind. by destruct (deleteWhere p s) as [[] s']. Qed.
Lemma notice_change n : understood n → one_change (obeyed n) (Handler cfg Postgres_Index cp now dec proxies ready (arrived (notice_post n))).
Proof.
  intros Hu. rewrite notice_handled. destruct n as [u|id|t u id]; cbn in Hu;
    unfold internalRevokeToken, internalRegisterToken, body_of; cbn [rq_Body arrived notice_post po_Body notice_payload]; rewrite Hu;
    rewrite ?one_selector; cbn [rr_Token rr_UserID rr_SubscriptionID].
  - destruct (bool_decide_reflect (u = "")) as [->|Hne]; [apply one_change_ret; cbn; lia|]. cbn. apply one_change_env; [|apply drops_renders].
    intros s. unfold revoke_of. cbn [vr_Token vr_UserID]. rewrite (bool_decide_eq_false_2 (u = "")) by done. apply revoked_change.
  - destruct (bool_decide_reflect (id = "")) as [->|Hne]; [apply one_change_ret; cbn; lia|]. cbn. apply one_change_env; [|apply drops_renders].
    intros s. apply revoked_change.
  - destruct (_ || _); [apply one_change_ret; cbn; lia|]. apply one_change_env; [|apply drops_render]. intros s. by apply (wrapped_change _ _ <[HashToken t := (u, id)]>).
Qed.
(** C33: A notice of the control-plane, over a network that loses requests and responses and a database link that loses calls:
    when the notifier reports success, the token index holds exactly what the notice asks for (no link of the user or of
    the subscription it revokes, the link it registers, and otherwise what it held), and when it reports an error, that or
    what it held before. *)
Theorem notified_holds n s faults : understood n →
  let '(r, w) := notified n (BillingClient.mkLossy s faults) in
  (is_ok r = true → index_table w = obeyed n (ss_db (st_env s))) ∧
  (index_table w = ss_db (st_env s) ∨ index_table w = obeyed n (ss_db (st_env s))).
Proof.
  intros Hu. assert (notified n = notifier_post (λ x, BillingClient.over_network (answered x)) baseURL (cf_InternalToken cfg) (notice_path n) (notice_payload n)) as ->
    by (by destruct n).
  unfold notifier_post, wrapping, mbind, M_bind. fold (notice_post n). destruct (notice_change n Hu s) as (rsp & s' & Hh & H1 & H2).
  assert (answered (notice_post n) s = (Ok (rsp_Status rsp), s')) as Ha by (unfold answered, mbind, M_bind; by rewrite Hh).
  unfold BillingClient.over_network. cbn [BillingClient.l_faults BillingClient.l_client]. rewrite Ha. unfold index_table.
  destruct (head faults) as [[]|]; cbn; try (split; [done|by auto]).
  all: destruct ((rsp_Status rsp <? 200) || (300 <=? rsp_Status rsp)) eqn:Hst; cbn; (split; [|done]); [done|intros _; apply H1].
  all: apply orb_false_iff in Hst as [Hlo Hhi]; apply Z.ltb_ge in Hlo; apply Z.leb_gt in Hhi; lia.
Qed.
End notified.
(** The user is banned while one link of his and one of another customer are in the index; the answer is lost. *)
Definition ban : ControlUse.notice := ControlUse.RevokeUser "u1".
Definition two_links : TokDb := <[HashToken "t1" := ("u1", "s1")]> (<[HashToken "t2" := ("u2", "s2")]> ∅).
Definition ban_decoders : InternalDecoders := {|
  id_register := λ _, None; id_invalidate := λ _, None;
  id_revoke := λ l, if bool_decide (l = bytes_of (revokePayload "" "u1" "")) then Some {| vr_Token := ""; vr_UserID := "u1"; vr_SubscriptionID := "" |} else None |}.
Definition no_provider : Provider (Session TokDb) := {|
  GetUser := λ _, fail ErrNotFound; GetSubscription := λ _, fail ErrNotFound; ListNodes := λ _, mret [] |}.
Definition linked_service : State (E := Session TokDb) := mkState ∅ (SubscriptionCache.New (5 * Minute)) (mkSession two_links []).
Lemma notified_holds_witness :
  let '(r, w) := notified (ord := key_order) (H := demo_ip) SubscriptionServe.demo_config no_provider (λ e, (0, e)) ban_decoders [] None
    "http://subscription:8082/" ban (BillingClient.mkLossy linked_service [BillingClient.LoseResponse]) in
  (is_ok r = true → index_table w = obeyed ban two_links) ∧ (index_table w = two_links ∨ index_table w = obeyed ban two_links).
Proof.
  refine (notified_holds (ord := key_order) (H := demo_ip) SubscriptionServe.demo_config no_provider (λ e, (0, e)) ban_decoders [] None
    "http://subscription:8082/" _ ban linked_service [BillingClient.LoseResponse] _).
  - discriminate.
  - vm_compute. reflexivity.
Defined.
